(* ===== verification/_CoqProject ===== *)
-Q . S2P
Prelude.v
RustStr.v
RustColl.v
Protocol.v
Bridge.v
BridgeSpec.v
TypeParser.v
TypeRoundTrip.v
TypeLayers.v
TypeLayersSpec.v
Topology.v
TopologySpec.v
MemoryPath.v
MemoryPathSpec.v
Teaching.v
TeachingSpec.v
Scene.v
SceneSpec.v
Fnv.v
Panel.v
PanelSpec.v
PanelRecord.v
PanelState.v
PanelStateSpec.v
CompilerData.v
RustPath.v
MemoryGraph.v
MemoryGraphSpec.v
CloneSourceSpec.v
AllocationSpec.v
RepairPlan.v
RepairPlanSpec.v
Autofix.v
AutofixSpec.v
AutofixDriver.v
AutofixDriverSpec.v
AnalyzerData.v
AnalyzerModel.v
PipelineSpec.v
SelectionSpec.v
AnalyzerState.v
AnalyzerStateSpec.v
FreshnessSpec.v
LineIndex.v
LineIndexSpec.v
AnalyzerProblems.v
AnalyzerProblemsSpec.v
AnalyzerGuide.v
AnalyzerGuideSpec.v
AnalyzerPreview.v
AnalyzerPreviewSpec.v
AnalyzerRepairs.v
AnalyzerRepairsSpec.v
AnalyzerSyntax.v
AnalyzerSyntaxSpec.v
AnalyzerConflict.v
AnalyzerConflictSpec.v
AnalyzerInsight.v
AnalyzerInsightSpec.v
AnalyzerContext.v
AnalyzerContextSpec.v
AnalyzerAnswer.v
AnalyzerAnswerSpec.v
AnalyzerTokens.v
AnalyzerTokensSpec.v
AnalyzerHints.v
AnalyzerHintsSpec.v
Mir.v
MirSpec.v
OwnershipEvents.v
OwnershipEventsSpec.v
WrapperRewrite.v
WrapperRewriteSpec.v
Compilation.v
CompilationSpec.v
AnalyzerEstimates.v
AnalyzerEstimatesSpec.v
AnalyzerAssist.v
AnalyzerAssistSpec.v
