(* ===== verification/Prelude.v ===== *)
(** * Rust Workbench: a verification library

    The Rust Workbench teaches ownership from compiler facts.  A patched rustc records
    what the borrow checker saw and writes a plan; a driver around the compiler applies
    repairs and tries wrapper types through overlays; rust-analyzer reads the plan as an
    artifact, ties it to the live text, explains it with the syntax and the calls around it,
    and answers the editor; a bridge in Zed validates
    every answer; a panel asks, keeps and displays, and draws scenes of the memory.  The
    development follows the facts along this way, one group of files per program.

    ** Correspondence

    Shared: [Prelude] (results, machine integers), [RustStr] and [RustColl] (what the
    sources use of [str] and of collections), [RustPath] ([Path], ordered maps, slices that
    panic), [Fnv] (the source hash).

    Compiler, [rust/compiler/rustc_session/src/borrowck_repair.rs]: [CompilerData] has its
    enumerations and structs, [MemoryGraph] the construction of the memory graph
    ([build_ownership_memory_graph] and everything it calls), [RepairPlan] the collector
    ([record_*]) and the plan writer ([write_borrowck_repair_plan], with the look-ups of
    [rustc_span/src/source_map.rs] it uses).  Properties: [MemoryGraphSpec],
    [CloneSourceSpec], [AllocationSpec], [RepairPlanSpec].

    Compiler, [rust/compiler/rustc_borrowck/src]: [OwnershipEvents] has the recorder of a
    body ([ownership_events.rs]: transfers, loans, last uses, memory layers), over the MIR of
    [Mir] ([rustc_middle/src/mir]: syntax, control-flow graph, the traversal of
    [visit.rs]); [WrapperRewrite] has the rewrites that wrap a binding
    ([wrapper_rewrite.rs]).  [Compilation] composes them: bodies and diagnostics are
    recorded, then [analysis] ([rustc_interface/src/passes.rs]) builds the variants and
    writes the plan.  Properties: [MirSpec], [OwnershipEventsSpec], [WrapperRewriteSpec],
    [CompilationSpec].

    Driver, [rust/compiler/rustc_driver_impl/src/borrowck_autofix.rs]: [Autofix] has the
    edits (conflicts, splicing, [apply_plan], [normalize_variant_edits]), [AutofixDriver]
    the orchestration ([run], [compile_wrapper_variants], [run_suggestions], the
    diagnostics).  The file system is part of the state; an operation returns [Done],
    [Failed] or [Panicked].  Properties: [AutofixSpec], [AutofixDriverSpec].

    rust-analyzer, [rust/src/tools/rust-analyzer/crates/rust-analyzer/src]: [AnalyzerData]
    has the structs of [diagnostics.rs] and the reading of a plan, [AnalyzerModel] the
    preparation of artifacts ([main_loop.rs]) and the selection of an answer
    ([handle_ownership_model] of [handlers/request.rs]), [AnalyzerState] the
    [DiagnosticCollection], the flycheck messages, and the step relation [step] of the main
    loop beside edits, background jobs and their results ([main_loop.rs],
    [global_state.rs]).  Properties: [PipelineSpec] (compiler to analyzer to editor),
    [SelectionSpec], [AnalyzerStateSpec], [FreshnessSpec].

    rust-analyzer's answers: [LineIndex] has the line index
    ([lib/line-index/src/lib.rs]) and the conversion of positions ([lsp/to_proto.rs],
    [lsp/from_proto.rs]); [AnalyzerSyntax] the views of a syntax tree
    ([crates/syntax/src/ast]) over the interface [SyntaxTree]; [AnalyzerInsight] the
    explanation of calls ([crates/ide/src/ownership_insight.rs]) over the record
    [Semantics].  From [handlers/request.rs]: [AnalyzerProblems] has
    [handle_ownership_problems], [AnalyzerGuide] [handle_ownership_workspace_guide],
    [AnalyzerPreview] the diffs of a repair, [AnalyzerRepairs] the repairs with
    [handle_ownership_repair] and [handle_ownership_validate_repair], [AnalyzerConflict] the
    graph of a borrow conflict, [AnalyzerContext] the mutation requirement, the source
    context, the value traces and the sketch, [AnalyzerAnswer] the whole of
    [handle_ownership_model], and [AnalyzerHints] the inlay hints from compiler facts, the
    method coach and its resolution, and the merge of fixes into code actions;
    [AnalyzerTokens] has the semantic tokens ([lsp/semantic_tokens.rs]) with their marking,
    cache and changes; [AnalyzerEstimates] the hints estimated from the syntax
    ([crates/ide/src/inlay_hints/ownership.rs]) and [AnalyzerAssist] the assist that wraps a
    binding ([crates/ide-assists/src/handlers/use_ownership_wrapper.rs]).  Each has its properties in the file of the same name with
    [Spec]; [AnalyzerSyntaxSpec] also builds concrete trees that satisfy the laws.

    Editor bridge, [zed-rust/crates/project/src/lsp_store/rust_analyzer_ext.rs]: [Protocol]
    has its structs, [Bridge] the validators and request wrappers; [BridgeSpec] says what a
    validated answer guarantees, in the class [ServedModel] that the scenes rely on.

    Scenes, [zed-rust/crates/rust_workbench/src/ownership_topology.rs]: [TypeParser] and
    [TypeLayers] (types and their layers), [Topology] (selection, replay, layout),
    [MemoryPath], [Teaching] and [Scene]; properties in [TypeRoundTrip],
    [TypeLayersSpec], [TopologySpec], [MemoryPathSpec], [TeachingSpec], [SceneSpec].

    Panel, [zed-rust/crates/rust_workbench/src/rust_workbench.rs]: [Panel] has the pure
    decisions, [PanelRecord] the state, [PanelState] the handlers; [PanelSpec] and
    [PanelStateSpec] have their properties.

    ** What the theorems show

    - Compiler: the finished graph is within its limits, has unique ids, no dangling edge and
      its four tables in order; when it does not say it was truncated every initialization,
      access path and event is there, and every layer too unless a value is handed over to a
      binding; the searches over edges
      terminate and compute reachability; a move hands an allocation over; every path of a
      plan has a source entry with its text and hash; tables are sorted without duplicates.
      The recorder does not panic on a well-formed body and its moves, copies,
      reinitialisations and last uses are exactly those of the operands and paths of the
      body ([flow_events_exact]), its loans those of the regions ([loan_points_exact]), its
      layers bounded ([memory_layers_shape]); a binding is wrapped entirely or refused with a
      reason ([plan_rewrites_every_use]), once for each of exactly the strategies that fit
      ([every_strategy_answered]); and a compilation as a whole writes a plan the analyzer
      can read ([compilation_writes_sound_plan]).
    - Driver: a round applies repairs as a whole and, when no repair lists an edit twice, its
      files are the plan's texts with the accepted edits spliced in, without a panic of
      [String::replace_range]; the edits of a variant are accepted exactly when they fit their
      sources and do not clash; the loop ends within five compilations and reports the last
      one; a wrapper suggestion was accepted by a child compiler; the options of a child that
      tries a variant name outputs in its own artifacts and no incremental state.
    - rust-analyzer: every plan is readable; the editor accepts an answer exactly when a
      short list of demands holds that the other programs do not see to; a selection keeps
      its connected component up to twelve edges; stored models belong to the content hash
      of their file over every interleaving in which jobs run while no edit is pending; the
      newest result is shown whatever the order of delivery.
    - rust-analyzer's answers: for every file of the workspace there is an answer, and it is
      accepted by the editor exactly when a short list of demands and limits holds
      ([model_answer_accepted_iff], [problems_accepted_iff], [guide_accepted_iff]); the
      line index agrees with a walk over the text and is inverted by the way back; the list
      of problems is about every diagnostic and every rejected use; the clusters of a guide
      partition the problems by cause; the identifier of a compiled repair leads back to
      the action it previews and that of a proposal to nothing, and a hunk replaces exactly
      the lines its edits touch; a summary of a function that is not
      truncated covers exactly the functions it reaches; the changes of tokens an editor is
      sent bring it to the tokens of the file in every run ([changes_update_editor]); hints
      are exactly the events of a range, the analyzer's own less its estimates at those
      events, and what the settings add ([exact_events_shown]), do not depend on the order of
      a hash map, are bounded and below the bound complete for bindings and for the first 128
      access paths, and a clue leads back to the
      call it stands at ([clue_explains_its_call]); estimates label every use and can be
      told from facts ([estimates_label_every_use]); and what the assist writes, and where, is what
      the compiler's rewrite writes for the same wrapper ([assist_agrees_with_compiler]).
    - Editor: the validators accept exactly the well-formed answers; in every run of the
      panel the model on display answers the selected problem, passed the bridge, and was
      about the live text when it was installed; scenes are bounded, closed and routed, say
      when they leave something out and show the selected step; the beginner path is in
      order of distance and covers the scene; parsing inverts printing of types
      without function types.
    - Executions in which a promise is not kept are theorems too: a model installed on a
      text it is not about ([stale_model_installed]), announcements that are dropped
      ([model_pointer_ignored]), checks that are not cleared ([clean_check_not_cleared]),
      updates that are forgotten ([repeated_update_forgotten]), answers the editor refuses
      ([wide_branch_refused], [shadowed_clone_refused], [workspace_of_65_causes_refused],
      [two_uses_on_a_line_refused], [busy_binding_refused],
      [interleaved_diagnostics_refused], [excluded_file_refused],
      [too_many_repairs_refused], [long_call_chain_refused], [many_effects_refused]), edits
      and frames that are left out without saying so ([line_deletion_not_shown],
      [incomplete_preview_called_complete], [dropped_frames_not_reported]), panics ([wide_character_panics], [repeated_edit_panics]), facts drawn in the wrong place
      ([reassigned_clone_loses_allocation], [exclusive_borrow_never_removed],
      [shadowing_event_drawn_on_shadowed_binding], [suspended_step_shown_as_resumed]),
      variants that overwrite one another ([variant_directories_collide]), share incremental state ([codegen_spelling_kept]) or do
      not compile ([compound_assignment_borrowed_shared]), a use in a loop called the last
      ([loop_use_called_last]), marks and explanations that are missing
      ([clones_and_copies_not_marked], [fallback_drops_deprecated],
      [long_chain_not_explained], [late_access_path_not_shown]), a use that is misread ([consumed_argument_borrowed]), and types that are cut ([parse_type_arrow_truncates]).

    ** Bounds and fuel

    Loops that are not structural run on fuel computed from their input, and a theorem says
    it is enough: [search_fuel] and the fuel of the beginner path count nodes and edges,
    [duplicate_fuel] and [link_fuel] are the number of edges and two, and
    [predecessor_fuel] counts the edges of a control-flow graph.  [push_memory_layers]
    recurses on 12 less the depth of the source.  Type layers stop at
    depth 8 like the source.  The constants of the sources are kept (512 nodes of a compiler
    graph, 642 rows of a layout, five rounds of repairs, twelve sweeps of a selection, 64
    functions to a depth of four in a summary).  The search for the root of an expression
    runs on the height of its tree.
    Integers are [N] with their width written out where an operation can reach it; the
    subtractions of the token encoding wrap, as in a release build.

    ** Parameters

    Code that is not in the repository or cannot be stated over bytes is an argument:
    [str::to_lowercase] and [char::is_alphanumeric] outside ASCII, [Path::canonicalize],
    the editor around the panel ([Editor]), the child compiler, workspace and cache key of
    the driver, what the analyzer knows of its files ([Snapshot]), the conversion and JSON
    decoding of rustc diagnostics ([FlycheckEnv]), the content hash and decoding of a file.
    For the answers: the trees of the rowan library ([SyntaxTree], with its documented
    behaviour in [SyntaxTreeLaws]), name resolution and types of rust-analyzer's hir crate
    ([Semantics]), the incoming calls of its call hierarchy ([incoming_calls]), its assists
    ([assists]), a run of flycheck ([run_flycheck]) and the file names of URIs
    ([file_label], [file_name]); the analyzer's own hints before their metadata
    is added and their resolution ([native_hints], [native_resolve]), the JSON form of a range ([RangeCodec]), the versions
    of open files, the order in which a hash map is walked, the highlights of a file, and for
    the estimates and the assist the references of a local ([Locals], [AssistContext]).
    For the recorder and the rewrites: types, layouts and paths of definitions, the borrow
    set with its regions and the initialisations ([BorrowData], [Init]), HIR nodes,
    resolution and adjustments (the two records [TyCtxt]).  [OtherFacts] gathers the parts of
    an answer that [AnalyzerModel] does not build; [AnalyzerAnswer] fills it in.

    ** Not modelled

    The diagnostics of the borrow checker that report repairs and intents, MIR building and
    region inference; rust-analyzer's hovers and the actor that runs flycheck; the SIMD scans of the line index, which compute what its portable
    scan computes.  Rendering and painting ([ownership_diagram.rs]), lesson texts, JSON text
    (the names of kinds and states in a plan are compared as texts, field names are not),
    the process environment, the Python tools and the upstream parts of rustc, rust-analyzer
    and Zed are left out. *)

From Stdlib Require Import Ascii.
From Stdlib Require Import String.
From stdpp Require Export base list gmap strings pretty sorting.
From stdpp Require Import options.

(** Numbers written in the sources are unsigned machine integers; they are
    [N] here, with the width written out where an operation can reach it. *)

(** ** Fallible code: [anyhow::Result] *)

Inductive result (A : Type) : Type :=
| Ok (a : A)
| Err (message : string).
Global Arguments Ok {A} _.
Global Arguments Err {A} _.

Global Instance result_ret : MRet result := fun A a => Ok a.
Global Instance result_bind : MBind result := fun A B f r =>
  match r with
  | Ok a => f a
  | Err m => Err m
  end.

Definition is_ok {A} (r : result A) : bool :=
  match r with
  | Ok _ => true
  | Err _ => false
  end.

(** The [ensure!] macro: the message is returned when the test fails. *)
Definition ensure (b : bool) (message : string) : result unit :=
  if b then Ok tt else Err message.

(** [for x in l { f(x)?; }] *)
Fixpoint for_each {A} (f : A -> result unit) (l : list A) : result unit :=
  match l with
  | [] => Ok tt
  | x :: l => _ ← f x; for_each f l
  end.

(** [if let Some(x) = o { f(x)?; }] *)
Definition if_some {A} (o : option A) (f : A -> result unit) : result unit :=
  match o with
  | Some x => f x
  | None => Ok tt
  end.

Lemma bind_ok {A B} (r : result A) (f : A -> result B) b :
  (r ≫= f) = Ok b <-> exists a, r = Ok a /\ f a = Ok b.
Proof. destruct r; simpl; naive_solver. Qed.

Lemma then_ok {B} (r : result unit) (k : result B) b :
  (_ ← r; k) = Ok b <-> r = Ok tt /\ k = Ok b.
Proof. rewrite bind_ok. split; [intros ([] & ? & ?)|]; naive_solver. Qed.

Lemma ensure_ok b m : ensure b m = Ok tt <-> b = true.
Proof. destruct b; simpl; naive_solver. Qed.

Lemma for_each_ok {A} (f : A -> result unit) l :
  for_each f l = Ok tt <-> Forall (fun x => f x = Ok tt) l.
Proof.
  induction l as [|x l IH]; simpl; [by rewrite Forall_nil|].
  by rewrite then_ok, Forall_cons, IH.
Qed.

Lemma if_some_ok {A} (o : option A) f :
  if_some o f = Ok tt <-> forall x, o = Some x -> f x = Ok tt.
Proof. destruct o; simpl; naive_solver. Qed.

(** ** Unsigned machine integers *)

Definition umax (w : N) : N := 2 ^ w - 1.
Definition saturating_add (w a b : N) : N := N.min (a + b) (umax w).
Definition saturating_mul (w a b : N) : N := N.min (a * b) (umax w).
Definition saturating_sub (a b : N) : N := a - b.
Definition abs_diff (a b : N) : N := if (a <=? b)%N then b - a else a - b.
Definition wrapping_mul (w a b : N) : N := (a * b) mod 2 ^ w.

Definition len {A} (l : list A) : N := N.of_nat (length l).
Definition str_len (s : string) : N := N.of_nat (String.length s).

Lemma len_nonempty {A} (l : list A) : l <> [] <-> (1 <= len l)%N.
Proof. unfold len. destruct l; simpl length; naive_solver lia. Qed.

(** [iter().take(n)] for a [usize] count. *)
Fixpoint take_N {A} (n : N) (l : list A) : list A :=
  match l with
  | [] => []
  | x :: l => if (n =? 0)%N then [] else x :: take_N (N.pred n) l
  end.

(** [slice.get(n)] for a [usize] index. *)
Fixpoint get_N {A} (l : list A) (n : N) : option A :=
  match l with
  | [] => None
  | x :: l => if (n =? 0)%N then Some x else get_N l (N.pred n)
  end.

Lemma take_N_spec {A} n (l : list A) : take_N n l = take (N.to_nat n) l.
Proof.
  revert n; induction l as [|x l IH]; intros n; simpl; [by rewrite take_nil|].
  destruct (N.eqb_spec n 0) as [->|Hn]; [done|].
  replace (N.to_nat n) with (S (N.to_nat (N.pred n))) by lia.
  simpl. by rewrite IH.
Qed.

Lemma get_N_spec {A} n (l : list A) : get_N l n = l !! N.to_nat n.
Proof.
  revert n; induction l as [|x l IH]; intros n; simpl; [done|].
  destruct (N.eqb_spec n 0) as [->|Hn]; [done|].
  replace (N.to_nat n) with (S (N.to_nat (N.pred n))) by lia.
  simpl. by rewrite IH.
Qed.
