(* ===== verification/RustStr.v ===== *)
(** * The part of Rust's [str] the sources use

    A [String]/[&str] is the list of its UTF-8 bytes, a Rocq [string]; byte
    offsets are therefore exact, and [Ord] on strings is the bytewise
    lexicographic order of [String.leb].  Rust's [char]-level operations used
    by the sources look for ASCII characters or for Unicode whitespace; on
    valid UTF-8 both can be decided on the bytes, which is what is done here. *)

From Stdlib Require Import Ascii String.
From S2P Require Import Prelude.
From stdpp Require Import options.

Declare Scope rust_scope.
Delimit Scope rust_scope with rust.
Notation "a =s b" := (String.eqb a b) (at level 70, no associativity) : rust_scope.
#[global] Open Scope rust_scope.

Definition is_empty (s : string) : bool :=
  match s with
  | EmptyString => true
  | _ => false
  end.

(** [matches!(s, "a" | "b" | ...)] *)
Definition one_of (s : string) (l : list string) : bool := existsb (String.eqb s) l.

Definition str_opt_eqb (a b : option string) : bool :=
  match a, b with
  | Some a, Some b => a =s b
  | None, None => true
  | _, _ => false
  end.

(** ** Prefixes and searching *)

Fixpoint strip_prefix (p s : string) : option string :=
  match p with
  | EmptyString => Some s
  | String a p =>
      match s with
      | EmptyString => None
      | String b s => if Ascii.eqb a b then strip_prefix p s else None
      end
  end.

Definition starts_with (p s : string) : bool :=
  match strip_prefix p s with
  | Some _ => true
  | None => false
  end.

(** [s.contains(pat)] *)
Fixpoint contains (pat s : string) : bool :=
  starts_with pat s ||
  match s with
  | EmptyString => false
  | String _ s => contains pat s
  end.

Fixpoint rev_append (s acc : string) : string :=
  match s with
  | EmptyString => acc
  | String c s => rev_append s (String c acc)
  end.

Definition rev_str (s : string) : string := rev_append s EmptyString.

Definition ends_with (p s : string) : bool := starts_with (rev_str p) (rev_str s).

(** The text before and after the first character satisfying [f]. *)
Fixpoint split_at_char (f : ascii -> bool) (s : string) : option (string * string) :=
  match s with
  | EmptyString => None
  | String c s =>
      if f c then Some (EmptyString, s)
      else match split_at_char f s with
           | Some (before, after) => Some (String c before, after)
           | None => None
           end
  end.

(** [s.split(f).next().unwrap_or(s)] *)
Definition first_segment (f : ascii -> bool) (s : string) : string :=
  match split_at_char f s with
  | Some (before, _) => before
  | None => s
  end.

(** The text after the rightmost occurrence of [sep], i.e. [rsplit(sep).next()]
    when there is one. *)
Fixpoint after_last (sep s : string) : option string :=
  match s with
  | EmptyString => None
  | String _ s' =>
      match after_last sep s' with
      | Some r => Some r
      | None => strip_prefix sep s
      end
  end.

Definition rsplit_next (sep s : string) : string :=
  match after_last sep s with
  | Some r => r
  | None => s
  end.

(** [s.trim_start_matches(c)] *)
Fixpoint trim_start_matches (c : ascii) (s : string) : string :=
  match s with
  | String a s' => if Ascii.eqb a c then trim_start_matches c s' else s
  | EmptyString => s
  end.

(** ** Unicode whitespace, as [char::is_whitespace] has it

    The White_Space characters are U+0009..U+000D, U+0020, U+0085, U+00A0,
    U+1680, U+2000..U+200A, U+2028, U+2029, U+202F, U+205F and U+3000. *)

Definition byte_at (a : ascii) : N := N_of_ascii a.

Definition is_ws1 (a : ascii) : bool :=
  let n := byte_at a in ((9 <=? n) && (n <=? 13) || (n =? 32))%N.

Definition is_ws2 (a b : ascii) : bool :=
  let '(n, m) := (byte_at a, byte_at b) in
  ((n =? 0xC2) && ((m =? 0x85) || (m =? 0xA0)))%N.

Definition is_ws3 (a b c : ascii) : bool :=
  let '(n, m, k) := (byte_at a, byte_at b, byte_at c) in
  ((n =? 0xE1) && (m =? 0x9A) && (k =? 0x80)
   || (n =? 0xE2) && (m =? 0x80)
      && ((0x80 <=? k) && (k <=? 0x8A) || (k =? 0xA8) || (k =? 0xA9) || (k =? 0xAF))
   || (n =? 0xE2) && (m =? 0x81) && (k =? 0x9F)
   || (n =? 0xE3) && (m =? 0x80) && (k =? 0x80))%N.

Fixpoint trim_start (s : string) : string :=
  match s with
  | String a s1 =>
      if is_ws1 a then trim_start s1
      else match s1 with
           | String b s2 =>
               if is_ws2 a b then trim_start s2
               else match s2 with
                    | String c s3 => if is_ws3 a b c then trim_start s3 else s
                    | EmptyString => s
                    end
           | EmptyString => s
           end
  | EmptyString => s
  end.

(** The same on the reversed bytes. *)
Fixpoint trim_start_rev (s : string) : string :=
  match s with
  | String a s1 =>
      if is_ws1 a then trim_start_rev s1
      else match s1 with
           | String b s2 =>
               if is_ws2 b a then trim_start_rev s2
               else match s2 with
                    | String c s3 => if is_ws3 c b a then trim_start_rev s3 else s
                    | EmptyString => s
                    end
           | EmptyString => s
           end
  | EmptyString => s
  end.

Definition trim_end (s : string) : string := rev_str (trim_start_rev (rev_str s)).
Definition trim (s : string) : string := trim_end (trim_start s).

(** [s.split_once(char::is_whitespace)], the part after the whitespace. *)
Fixpoint after_whitespace (s : string) : option string :=
  match s with
  | String a s1 =>
      if is_ws1 a then Some s1
      else match s1 with
           | String b s2 =>
               if is_ws2 a b then Some s2
               else match s2 with
                    | String c s3 => if is_ws3 a b c then Some s3 else after_whitespace s1
                    | EmptyString => after_whitespace s1
                    end
           | EmptyString => None
           end
  | EmptyString => None
  end.

(** ** Character maps and formatting *)

(** [s.replace(c, r)] *)
Fixpoint replace_char (c : ascii) (r s : string) : string :=
  match s with
  | EmptyString => EmptyString
  | String a s =>
      if Ascii.eqb a c then r +:+ replace_char c r s else String a (replace_char c r s)
  end.

Definition ascii_lower (a : ascii) : ascii :=
  let n := byte_at a in
  if ((65 <=? n) && (n <=? 90))%N then ascii_of_N (n + 32) else a.

Fixpoint to_ascii_lowercase (s : string) : string :=
  match s with
  | EmptyString => EmptyString
  | String a s => String (ascii_lower a) (to_ascii_lowercase s)
  end.

(** [l.join(sep)] *)
Fixpoint join (sep : string) (l : list string) : string :=
  match l with
  | [] => EmptyString
  | [s] => s
  | s :: l => s +:+ sep +:+ join sep l
  end.

(** Decimal rendering of an unsigned integer, [format!("{n}")]. *)
Definition show (n : N) : string := pretty n.

(** ** Lemmas *)

#[local] Arguments String.append !_ _ / : assert.

Lemma str_eqb_eq a b : (a =s b) = true <-> a = b.
Proof. apply String.eqb_eq. Qed.

Lemma str_eqb_neq a b : (a =s b) = false <-> a <> b.
Proof. apply String.eqb_neq. Qed.

Lemma str_eqb_refl a : (a =s a) = true.
Proof. apply String.eqb_refl. Qed.

Lemma is_empty_true s : is_empty s = true <-> s = "".
Proof. destruct s; naive_solver. Qed.

Lemma one_of_spec s l : one_of s l = true <-> s ∈ l.
Proof.
  unfold one_of. rewrite existsb_exists. setoid_rewrite str_eqb_eq.
  rewrite list_elem_of_In. naive_solver.
Qed.

Lemma strip_prefix_app p s : strip_prefix p (p +:+ s) = Some s.
Proof.
  induction p as [|a p IH]; simpl; [done|]. by rewrite Ascii.eqb_refl.
Qed.

Lemma strip_prefix_Some p s r : strip_prefix p s = Some r <-> s = p +:+ r.
Proof.
  split; [|intros ->; apply strip_prefix_app].
  revert s; induction p as [|a p IH]; intros [|b s]; simpl; try naive_solver.
  destruct (Ascii.eqb_spec a b) as [->|]; [|done].
  intros H%IH. by subst.
Qed.

Lemma starts_with_app p s : starts_with p (p +:+ s) = true.
Proof. unfold starts_with. by rewrite strip_prefix_app. Qed.

Lemma contains_starts_with pat s : starts_with pat s = true -> contains pat s = true.
Proof. intros H. destruct s; cbn [contains]; by rewrite H. Qed.

Lemma contains_spec pat s : contains pat s = true <-> exists a b, s = a +:+ pat +:+ b.
Proof.
  split.
  - induction s as [|c s IH]; cbn [contains]; rewrite orb_true_iff; unfold starts_with.
    + destruct (strip_prefix pat "") as [r|] eqn:E; [|naive_solver].
      apply strip_prefix_Some in E. intros _. by exists "", r.
    + destruct (strip_prefix pat (String c s)) as [r|] eqn:E.
      * apply strip_prefix_Some in E. intros _. by exists "", r.
      * intros [|(a & b & ->)%IH]; [done|]. by exists (String c a), b.
  - intros (a & b & ->). induction a as [|c a IH].
    + apply contains_starts_with. exact (starts_with_app pat b).
    + change (starts_with pat (String c (a +:+ pat +:+ b))
              || contains pat (a +:+ pat +:+ b) = true).
      by rewrite IH, orb_true_r.
Qed.

Lemma append_assoc (a b c : string) : (a +:+ b) +:+ c = a +:+ b +:+ c.
Proof. induction a as [|x a IH]; simpl; [done|]. by rewrite IH. Qed.

Lemma append_nil_r (a : string) : a +:+ "" = a.
Proof. induction a as [|x a IH]; simpl; [done|]. by rewrite IH. Qed.

Lemma append_inj_l (a b c : string) : a +:+ b = a +:+ c -> b = c.
Proof. induction a as [|x a IH]; simpl; [done|]. intros [=]. auto. Qed.

Lemma length_append (a b : string) :
  String.length (a +:+ b) = String.length a + String.length b.
Proof. induction a as [|x a IH]; simpl; [done|]. by rewrite IH. Qed.

Lemma rev_append_spec s acc : rev_append s acc = rev_str s +:+ acc.
Proof.
  unfold rev_str. revert acc. induction s as [|c s IH]; intros acc; simpl; [done|].
  rewrite IH, (IH (String c "")), append_assoc. done.
Qed.

Lemma rev_str_append a b : rev_str (a +:+ b) = rev_str b +:+ rev_str a.
Proof.
  induction a as [|c a IH]; cbn [String.append].
  - unfold rev_str at 3. simpl. by rewrite append_nil_r.
  - change (rev_str (String c (a +:+ b))) with (rev_append (a +:+ b) (String c "")).
    change (rev_str (String c a)) with (rev_append a (String c "")).
    by rewrite !rev_append_spec, IH, append_assoc.
Qed.

Lemma rev_str_involutive s : rev_str (rev_str s) = s.
Proof.
  induction s as [|c s IH]; [done|].
  change (rev_str (String c s)) with (rev_append s (String c "")).
  by rewrite rev_append_spec, rev_str_append, IH.
Qed.

Lemma append_inj_r (a b c : string) : a +:+ c = b +:+ c -> a = b.
Proof.
  intros H%(f_equal rev_str). rewrite !rev_str_append in H.
  apply append_inj_l, (f_equal rev_str) in H. by rewrite !rev_str_involutive in H.
Qed.

Lemma ends_with_spec p s : ends_with p s = true <-> exists a, s = a +:+ p.
Proof.
  unfold ends_with, starts_with.
  destruct (strip_prefix (rev_str p) (rev_str s)) as [r|] eqn:E.
  - apply strip_prefix_Some, (f_equal rev_str) in E.
    rewrite rev_str_involutive, rev_str_append, rev_str_involutive in E. naive_solver.
  - split; [done|]. intros [a ->]. by rewrite rev_str_append, strip_prefix_app in E.
Qed.

Lemma split_at_char_Some f s before after :
  split_at_char f s = Some (before, after) ->
  exists c, f c = true /\ s = before +:+ String c after.
Proof.
  revert before. induction s as [|c s IH]; intros before; simpl; [done|].
  destruct (f c) eqn:Hc; [intros [= <- <-]; eauto|].
  destruct (split_at_char f s) as [[b a]|]; [|done]. intros [= <- <-].
  destruct (IH b eq_refl) as (d & ? & ->). eauto.
Qed.

Lemma replace_char_absent c r s :
  (forall t u, s <> t +:+ String c u) -> replace_char c r s = s.
Proof.
  induction s as [|a s IH]; intros H; simpl; [done|].
  destruct (Ascii.eqb_spec a c) as [->|].
  - by destruct (H "" s).
  - f_equal. apply IH. intros t u ->. by apply (H (String a t) u).
Qed.

(** ** Text that starts and ends with visible ASCII is left alone by [trim] *)

Definition visible (c : ascii) : bool := let n := N_of_ascii c in ((33 <=? n) && (n <=? 126))%N.

Definition starts_visible (s : string) : Prop :=
  match s with
  | String c _ => visible c = true
  | EmptyString => False
  end.

Definition tight (s : string) : Prop := starts_visible s /\ starts_visible (rev_str s).

Lemma visible_not_ws c : visible c = true ->
  is_ws1 c = false /\ (forall b, is_ws2 c b = false) /\ (forall b d, is_ws3 c b d = false).
Proof.
  unfold visible, is_ws1, is_ws2, is_ws3, byte_at. intros H.
  apply andb_true_iff in H as [H1%N.leb_le H2%N.leb_le].
  repeat split; intros; repeat
    match goal with
    | |- context [(N_of_ascii c =? ?k)%N] => destruct (N.eqb_spec (N_of_ascii c) k); [lia|]
    | |- context [(?k <=? N_of_ascii c)%N] => destruct (N.leb_spec k (N_of_ascii c)); try lia
    | |- context [(N_of_ascii c <=? ?k)%N] => destruct (N.leb_spec (N_of_ascii c) k); try lia
    end; done.
Qed.

Lemma visible_not_ws_rev c : visible c = true ->
  (forall b, is_ws2 b c = false) /\ (forall b d, is_ws3 d b c = false).
Proof.
  unfold visible, is_ws2, is_ws3, byte_at. intros H.
  apply andb_true_iff in H as [H1%N.leb_le H2%N.leb_le].
  split; intros; repeat
    match goal with
    | |- context [(N_of_ascii c =? ?k)%N] => destruct (N.eqb_spec (N_of_ascii c) k); [lia|]
    | |- context [(?k <=? N_of_ascii c)%N] => destruct (N.leb_spec k (N_of_ascii c)); try lia
    end; rewrite ?andb_false_r; done.
Qed.

Lemma trim_start_visible s : starts_visible s -> trim_start s = s.
Proof.
  destruct s as [|c s]; simpl; [done|]. intros (-> & H2 & H3)%visible_not_ws.
  destruct s as [|b [|d s]]; rewrite ?H2, ?H3; done.
Qed.

Lemma trim_start_rev_visible s : starts_visible s -> trim_start_rev s = s.
Proof.
  destruct s as [|c s]; simpl; [done|]. intros H.
  destruct (visible_not_ws c H) as [-> _], (visible_not_ws_rev c H) as [H2 H3].
  destruct s as [|b [|d s]]; rewrite ?H2, ?H3; done.
Qed.

Lemma trim_tight s : tight s -> trim s = s.
Proof.
  intros [H1 H2]. unfold trim, trim_end.
  by rewrite trim_start_visible, trim_start_rev_visible, rev_str_involutive.
Qed.

Lemma trim_space_tight s : tight s -> trim (String " " s) = s.
Proof. intros H. change (trim (String " " s)) with (trim s). by apply trim_tight. Qed.

Example trim_example : trim "  a b	" = "a b".
Proof. reflexivity. Qed.

Example rsplit_example : rsplit_next "::" "std::rc::Rc" = "Rc".
Proof. reflexivity. Qed.
