(* ===== verification/RustColl.v ===== *)
(** * The part of Rust's collections the sources use

    [Vec] is [list]; [slice::sort_by] is stable, [Vec::dedup_by] compares each
    element with the last one kept, [Iterator::min_by_key] returns the first
    minimum.  A [BTreeMap]/[BTreeSet] that is only searched is a [gmap]/[gset];
    one that is iterated is an association list sorted by key. *)

From Stdlib Require Import Ascii String.
From S2P Require Import Prelude RustStr.
From stdpp Require Import options.

(** ** Stable sorting *)

Section sort.
Context {A : Type} (leb : A -> A -> bool).

Fixpoint insert_sorted (x : A) (l : list A) : list A :=
  match l with
  | [] => [x]
  | y :: l' => if leb x y then x :: l else y :: insert_sorted x l'
  end.

Definition sort_by (l : list A) : list A := foldr insert_sorted [] l.

Lemma insert_sorted_perm x l : insert_sorted x l ≡ₚ x :: l.
Proof.
  induction l as [|y l IH]; simpl; [done|].
  destruct (leb x y); [done|]. rewrite IH. apply Permutation_swap.
Qed.

Lemma sort_by_perm l : sort_by l ≡ₚ l.
Proof. induction l as [|x l IH]; simpl; [done|]. by rewrite insert_sorted_perm, IH. Qed.

Lemma sort_by_length l : length (sort_by l) = length l.
Proof. by rewrite sort_by_perm. Qed.

Lemma elem_of_sort_by x l : x ∈ sort_by l <-> x ∈ l.
Proof. by rewrite sort_by_perm. Qed.

(** A total preorder is enough for the result to be sorted. *)
Context (leb_total : forall x y, leb x y = true \/ leb y x = true).
Context (leb_trans : forall x y z, leb x y = true -> leb y z = true -> leb x z = true).

Let le x y := leb x y = true.

Lemma insert_sorted_sorted x l :
  StronglySorted le l -> StronglySorted le (insert_sorted x l).
Proof using leb_total leb_trans.
  induction 1 as [|y l Hl IH Hy]; simpl; [repeat constructor|].
  destruct (leb x y) eqn:Hxy.
  - constructor; [by constructor|]. constructor; [done|].
    eapply Forall_impl; [exact Hy|]. intros z Hz. by eapply leb_trans.
  - constructor; [done|]. rewrite insert_sorted_perm.
    constructor; [|done]. destruct (leb_total x y); congruence.
Qed.

Lemma sort_by_sorted l : StronglySorted le (sort_by l).
Proof using leb_total leb_trans.
  induction l as [|x l IH]; simpl; [constructor|]. by apply insert_sorted_sorted.
Qed.

(** Inserting before an already sorted list keeps it as it is. *)
Lemma sort_by_id l : StronglySorted le l -> sort_by l = l.
Proof using Type.
  induction 1 as [|x l Hl IH Hx]; simpl; [done|]. rewrite IH.
  destruct Hx as [|y l Hxy ?]; simpl; [done|]. unfold le in Hxy. by rewrite Hxy.
Qed.

(** Stability: elements that compare equal to [x] keep their order. *)
Definition equiv_to (x y : A) : bool := leb x y && leb y x.

Lemma insert_sorted_filter_same x z l :
  equiv_to z x = true -> StronglySorted le l ->
  filter (fun y => equiv_to z y = true) (insert_sorted x l)
  = x :: filter (fun y => equiv_to z y = true) l.
Proof using leb_trans.
  unfold equiv_to. intros Hzx Hl. induction Hl as [|y l Hl IH Hy]; simpl.
  - by rewrite filter_cons_True.
  - destruct (leb x y) eqn:Hxy; [by rewrite filter_cons_True|].
    apply andb_true_iff in Hzx as [Hzx Hxz].
    rewrite filter_cons_False, filter_cons_False by
      (rewrite andb_true_iff; intros [? ?];
       assert (leb x y = true) by (by eapply leb_trans); congruence).
    exact IH.
Qed.

Lemma insert_sorted_filter_other x z l :
  equiv_to z x = false ->
  filter (fun y => equiv_to z y = true) (insert_sorted x l)
  = filter (fun y => equiv_to z y = true) l.
Proof using Type.
  intros Hzx. induction l as [|y l IH]; simpl.
  - by rewrite filter_cons_False by congruence.
  - destruct (leb x y).
    + by rewrite filter_cons_False by congruence.
    + rewrite !filter_cons, IH. done.
Qed.

Lemma sort_by_stable z l :
  filter (fun y => equiv_to z y = true) (sort_by l)
  = filter (fun y => equiv_to z y = true) l.
Proof using leb_total leb_trans.
  induction l as [|x l IH]; simpl; [done|]. rewrite filter_cons.
  case_decide as Hz.
  - rewrite insert_sorted_filter_same by (done || apply sort_by_sorted). by rewrite IH.
  - rewrite insert_sorted_filter_other by (by apply not_true_iff_false). done.
Qed.
End sort.

(** Orders used as sort keys: strings, pairs compared lexicographically, and an
    order on a projection. *)

Definition lex_leb {A B} (cmp : A -> A -> comparison) (leb2 : B -> B -> bool)
    (x y : A * B) : bool :=
  match cmp x.1 y.1 with
  | Lt => true
  | Eq => leb2 x.2 y.2
  | Gt => false
  end.

Definition on {A B} (f : A -> B) (leb : B -> B -> bool) (x y : A) : bool := leb (f x) (f y).

Class TotalLeb {A} (leb : A -> A -> bool) : Prop := {
  leb_total : forall x y, leb x y = true \/ leb y x = true;
  leb_trans : forall x y z, leb x y = true -> leb y z = true -> leb x z = true;
  leb_antisym : forall x y, leb x y = true -> leb y x = true -> x = y
}.

Class TotalCmp {A} (cmp : A -> A -> comparison) : Prop := {
  cmp_eq : forall x y, cmp x y = Eq <-> x = y;
  cmp_antisym : forall x y, cmp y x = CompOpp (cmp x y);
  cmp_trans : forall x y z, cmp x y = Lt -> cmp y z = Lt -> cmp x z = Lt
}.

#[export] Instance string_leb_total : TotalLeb String.leb.
Proof.
  split.
  - apply String.leb_total.
  - intros x y z Hxy Hyz.
    assert (String.le x y) as Hxy' by (unfold String.le; by rewrite Hxy).
    assert (String.le y z) as Hyz' by (unfold String.le; by rewrite Hyz).
    pose proof (transitivity Hxy' Hyz') as H. unfold String.le in H.
    by destruct (String.leb x z).
  - apply String.leb_antisym.
Qed.

#[export] Instance N_leb_total : TotalLeb N.leb.
Proof. split; intros *; rewrite ?N.leb_le; lia. Qed.

#[export] Instance N_cmp_total : TotalCmp N.compare.
Proof.
  split; intros *; rewrite ?N.compare_eq_iff, ?N.compare_lt_iff.
  - done.
  - apply N.compare_antisym.
  - lia.
Qed.

Definition bool_cmp (a b : bool) : comparison :=
  match a, b with
  | false, true => Lt
  | true, false => Gt
  | _, _ => Eq
  end.

#[export] Instance bool_cmp_total : TotalCmp bool_cmp.
Proof. split; [intros [] []|intros [] []|intros [] [] []]; simpl; try split; congruence. Qed.

#[export] Instance lex_leb_total {A B} cmp leb2 `{!TotalCmp (A:=A) cmp, !TotalLeb (A:=B) leb2} :
  TotalLeb (lex_leb cmp leb2).
Proof.
  unfold lex_leb. split.
  - intros [a b] [a' b']; simpl. rewrite (cmp_antisym a a').
    destruct (cmp a a'); simpl; auto. apply leb_total.
  - intros [a b] [a' b'] [a'' b'']; simpl.
    destruct (cmp a a') eqn:H1; [|destruct (cmp a' a'') eqn:H2|]; try done.
    + apply cmp_eq in H1 as ->. destruct (cmp a' a''); [apply leb_trans|done..].
    + apply cmp_eq in H2 as ->. by rewrite H1.
    + by rewrite (cmp_trans _ _ _ H1 H2).
  - intros [a b] [a' b']; simpl. rewrite (cmp_antisym a a').
    destruct (cmp a a') eqn:H1; simpl; try done.
    apply cmp_eq in H1 as ->. intros. f_equal. by apply leb_antisym.
Qed.

Lemma sort_on_sorted {A B} (f : A -> B) leb `{!TotalLeb leb} l :
  StronglySorted (fun x y => leb (f x) (f y) = true) (sort_by (on f leb) l).
Proof.
  apply (sort_by_sorted (on f leb)); unfold on; intros; [apply leb_total|by eapply leb_trans].
Qed.

(** Sorting a vector already in order leaves it unchanged. *)
Lemma sort_on_idemp {A B} (f : A -> B) leb `{!TotalLeb leb} l :
  sort_by (on f leb) (sort_by (on f leb) l) = sort_by (on f leb) l.
Proof. apply sort_by_id, (sort_on_sorted f leb). Qed.

(** ** [Vec::dedup_by] *)

Section dedup.
Context {A : Type} (same : A -> A -> bool).

Fixpoint dedup_from (prev : A) (l : list A) : list A :=
  match l with
  | [] => []
  | x :: l => if same x prev then dedup_from prev l else x :: dedup_from x l
  end.

Definition dedup_by (l : list A) : list A :=
  match l with
  | [] => []
  | x :: l => x :: dedup_from x l
  end.

Lemma dedup_from_sublist prev l : dedup_from prev l `sublist_of` l.
Proof.
  revert prev; induction l as [|x l IH]; intros prev; simpl; [done|].
  destruct (same x prev); [by apply sublist_cons|by apply sublist_skip].
Qed.

Lemma dedup_by_sublist l : dedup_by l `sublist_of` l.
Proof. destruct l; simpl; [done|]. apply sublist_skip, dedup_from_sublist. Qed.

Lemma elem_of_dedup_by x l : x ∈ dedup_by l -> x ∈ l.
Proof. intros H. eapply elem_of_sublist; [done|apply dedup_by_sublist]. Qed.

Lemma dedup_by_length l : length (dedup_by l) <= length l.
Proof. apply sublist_length, dedup_by_sublist. Qed.
End dedup.

Lemma dedup_by_ext {A} (same same' : A -> A -> bool) l :
  (forall x y, x ∈ l -> y ∈ l -> same x y = same' x y) -> dedup_by same l = dedup_by same' l.
Proof.
  destruct l as [|x l]; [done|]. intros H. simpl. f_equal.
  revert x H. induction l as [|y l IH]; intros x H; simpl; [done|].
  rewrite (H y x) by set_solver. destruct (same' y x); [|f_equal]; apply IH; set_solver.
Qed.

(** On a vector sorted by a key, removing adjacent elements that are the same
    leaves each key at most once, as long as equal keys are the same. *)
Section dedup_complete.
Context {A B : Type} (f : A -> B) (leb : B -> B -> bool) `{!TotalLeb leb}
  (same : A -> A -> bool) (same_complete : forall x y, f x = f y -> same x y = true).

Let le x y := leb (f x) (f y) = true.

Lemma dedup_from_NoDup prev l :
  Forall (le prev) l -> StronglySorted le l ->
  (f prev ∉ (f <$> dedup_from same prev l)) /\ NoDup (f <$> dedup_from same prev l).
Proof using same_complete TotalLeb0.
  intros Hprev Hl. revert prev Hprev.
  induction Hl as [|x l Hl IH Hx]; intros prev Hprev; simpl.
  { split; [apply not_elem_of_nil|constructor]. }
  apply Forall_cons in Hprev as [Hpx Hprev].
  destruct (same x prev) eqn:Hs; [by apply IH|].
  destruct (IH x Hx) as [Hnin Hnd]. simpl.
  assert (f x <> f prev) as Hne by (intros ?%same_complete; congruence).
  split; [|by constructor].
  rewrite not_elem_of_cons. split; [done|].
  intros (y & Hyp & Hy)%list_elem_of_fmap.
  assert (y ∈ l) as Hyl by (eapply elem_of_sublist; [done|apply dedup_from_sublist]).
  rewrite Forall_forall in Hx. specialize (Hx y Hyl).
  apply Hne, leb_antisym; [|done]. unfold le in *. by rewrite Hyp.
Qed.

Lemma dedup_keys_NoDup l : StronglySorted le l -> NoDup (f <$> dedup_by same l).
Proof using same_complete TotalLeb0.
  destruct 1 as [|x l Hl Hx]; simpl; [constructor|].
  destruct (dedup_from_NoDup x l Hx Hl). by constructor.
Qed.
End dedup_complete.

(** When exactly equal keys are the same, each key is left exactly once. *)
Section dedup_sorted.
Context {A B : Type} (f : A -> B) (leb : B -> B -> bool) `{!TotalLeb leb}
  (same : A -> A -> bool) (same_spec : forall x y, same x y = true <-> f x = f y).

Let le x y := leb (f x) (f y) = true.

Lemma dedup_by_NoDup l : StronglySorted le l -> NoDup (f <$> dedup_by same l).
Proof using same_spec TotalLeb0.
  apply (dedup_keys_NoDup f leb same). intros x y. apply same_spec.
Qed.

Lemma dedup_from_covers prev l x :
  x ∈ l -> (f x = f prev) \/ (f x ∈ (f <$> dedup_from same prev l)).
Proof using All.
  revert prev; induction l as [|y l IH]; intros prev; [by intros ?%not_elem_of_nil|].
  intros [->|Hx]%elem_of_cons; simpl; destruct (same y prev) eqn:Hs.
  - left. by apply same_spec.
  - right. simpl. apply elem_of_cons. by left.
  - by apply IH.
  - simpl. rewrite elem_of_cons. destruct (IH y Hx); naive_solver.
Qed.

Lemma dedup_by_covers l x : x ∈ l -> f x ∈ (f <$> dedup_by same l).
Proof using All.
  destruct l as [|y l]; simpl; [by intros ?%not_elem_of_nil|].
  rewrite !elem_of_cons. intros [->|Hx]; [by left|]. by apply dedup_from_covers.
Qed.

Lemma sort_dedup_keys l x :
  x ∈ (f <$> dedup_by same (sort_by (on f leb) l)) <-> x ∈ (f <$> l).
Proof using All.
  split.
  - intros (y & -> & Hy%elem_of_dedup_by)%list_elem_of_fmap.
    rewrite elem_of_sort_by in Hy. by apply list_elem_of_fmap_2.
  - intros (y & -> & Hy)%list_elem_of_fmap. apply dedup_by_covers.
    by rewrite elem_of_sort_by.
Qed.
End dedup_sorted.

Lemma dedup_by_id {A} (same : A -> A -> bool) (l : list A) :
  (forall x y, x ∈ l -> y ∈ l -> same x y = true -> x = y) -> NoDup l -> dedup_by same l = l.
Proof.
  intros Hs Hnd. destruct l as [|x l]; [done|]. simpl. f_equal.
  revert x Hs Hnd. induction l as [|y l IH]; intros x Hs Hnd; simpl; [done|].
  destruct (same y x) eqn:E.
  - apply Hs in E as ->; [|set_solver..]. inv Hnd. set_solver.
  - f_equal. apply IH; [|by inv Hnd]. intros a b ??. apply Hs; set_solver.
Qed.

(** ** Iterator adaptors *)

(** [iter().find(p)] *)
Fixpoint find_first {A} (p : A -> bool) (l : list A) : option A :=
  match l with
  | [] => None
  | x :: l => if p x then Some x else find_first p l
  end.

(** [iter().position(p)] *)
Fixpoint position {A} (p : A -> bool) (l : list A) : option N :=
  match l with
  | [] => None
  | x :: l => if p x then Some 0%N else N.succ <$> position p l
  end.

(** [iter().min_by_key(key)]: the first of the elements with the least key. *)
Definition min_by {A} (leb : A -> A -> bool) (l : list A) : option A :=
  match l with
  | [] => None
  | x :: l => Some (fold_left (fun best y => if leb best y then best else y) l x)
  end.

(** [iter().filter(p)] and [Vec::retain(p)]. *)
Definition retain {A} (p : A -> bool) (l : list A) : list A := List.filter p l.

Fixpoint enumerate_from {A} (n : N) (l : list A) : list (N * A) :=
  match l with
  | [] => []
  | x :: l => (n, x) :: enumerate_from (N.succ n) l
  end.
Definition enumerate {A} (l : list A) : list (N * A) := enumerate_from 0 l.

(** [Option::or_else] *)
Definition or_else {A} (o : option A) (f : unit -> option A) : option A :=
  match o with
  | Some a => Some a
  | None => f tt
  end.

(** [Vec::truncate(n)] is [take_N n]. *)
Definition truncate {A} (n : N) (l : list A) : list A := take_N n l.

Definition last_opt {A} (l : list A) : option A := last l.

Lemma retain_app {A} (p : A -> bool) l1 l2 : retain p (l1 ++ l2) = retain p l1 ++ retain p l2.
Proof. apply List.filter_app. Qed.

Lemma elem_of_retain {A} (p : A -> bool) l x : x ∈ retain p l <-> p x = true /\ x ∈ l.
Proof. unfold retain. rewrite !list_elem_of_In, filter_In. naive_solver. Qed.

Lemma retain_sublist {A} (p : A -> bool) l : retain p l `sublist_of` l.
Proof.
  induction l as [|x l IH]; simpl; [done|].
  destruct (p x); [by apply sublist_skip|by apply sublist_cons].
Qed.

Lemma NoDup_retain {A B} (f : A -> B) p (l : list A) : NoDup (f <$> l) -> NoDup (f <$> retain p l).
Proof.
  intros H. eapply sublist_NoDup; [exact H|]. apply fmap_sublist, retain_sublist.
Qed.

(** Keys that are all distinct determine their element. *)
Lemma NoDup_fmap_inj {A B} (f : A -> B) l x y :
  NoDup (f <$> l) -> x ∈ l -> y ∈ l -> f x = f y -> x = y.
Proof.
  intros Hnd (i & Hi)%list_elem_of_lookup (j & Hj)%list_elem_of_lookup Hf.
  assert (i = j) as ->; [|congruence].
  apply (NoDup_lookup (f <$> l) i j (f x)); [done|rewrite list_lookup_fmap, Hi; done|].
  by rewrite list_lookup_fmap, Hj, Hf.
Qed.

Lemma retain_length {A} (p : A -> bool) l : length (retain p l) <= length l.
Proof. apply sublist_length, retain_sublist. Qed.

Lemma retain_all {A} (p : A -> bool) l : (forall x, x ∈ l -> p x = true) -> retain p l = l.
Proof.
  induction l as [|x l IH]; intros H; simpl; [done|].
  rewrite H by set_solver. f_equal. apply IH. set_solver.
Qed.

Lemma truncate_length {A} n (l : list A) : (len (truncate n l) <= n)%N.
Proof. unfold len, truncate. rewrite take_N_spec, length_take. lia. Qed.

Lemma truncate_sublist {A} n (l : list A) : truncate n l `sublist_of` l.
Proof. unfold truncate. rewrite take_N_spec. apply sublist_take. Qed.

Lemma truncate_id {A} n (l : list A) : (len l <= n)%N -> truncate n l = l.
Proof. unfold len, truncate. intros ?. rewrite take_N_spec. apply take_ge. lia. Qed.

Lemma find_first_Some {A} (p : A -> bool) l x :
  find_first p l = Some x -> p x = true /\ x ∈ l.
Proof.
  induction l as [|y l IH]; simpl; [done|]. destruct (p y) eqn:Hy; [intros [= ->]|].
  - split; [done|]. apply elem_of_cons. by left.
  - intros [? ?]%IH. split; [done|]. apply elem_of_cons. by right.
Qed.

Lemma find_first_None {A} (p : A -> bool) l :
  find_first p l = None <-> forall x, x ∈ l -> p x = false.
Proof.
  induction l as [|y l IH]; simpl; [set_solver|]. destruct (p y) eqn:Hy.
  - split; [done|]. intros H. rewrite H in Hy; [done|]. apply elem_of_cons. by left.
  - rewrite IH. setoid_rewrite elem_of_cons. naive_solver.
Qed.

Lemma min_by_None {A} leb (l : list A) : min_by leb l = None <-> l = [].
Proof. destruct l; simpl; naive_solver. Qed.

Section min_by.
Context {A B : Type} (f : A -> B) (leb : B -> B -> bool) `{!TotalLeb leb}.
Let best x l := fold_left (fun best y => if on f leb best y then best else y) l x.

Lemma min_fold_spec x l :
  best x l ∈ x :: l /\ forall y, y ∈ x :: l -> leb (f (best x l)) (f y) = true.
Proof using TotalLeb0.
  unfold best. revert x; induction l as [|z l IH]; intros x; simpl.
  { split; [set_solver|]. intros y ->%list_elem_of_singleton.
    by destruct (leb_total (f x) (f x)). }
  unfold on at 2 4. destruct (leb (f x) (f z)) eqn:Hxz.
  - destruct (IH x) as [Hin Hle]. split; [set_solver|].
    intros y [->|[->|Hy]%elem_of_cons]%elem_of_cons; [apply Hle; set_solver| |apply Hle; set_solver].
    eapply leb_trans; [|exact Hxz]. apply Hle. set_solver.
  - destruct (IH z) as [Hin Hle]. split; [set_solver|].
    intros y [->|Hy]%elem_of_cons; [|by apply Hle].
    apply (leb_trans _ (f z)); [apply Hle; set_solver|].
    destruct (leb_total (f z) (f x)); congruence.
Qed.

Lemma min_by_spec l m :
  min_by (on f leb) l = Some m ->
  m ∈ l /\ forall y, y ∈ l -> leb (f m) (f y) = true.
Proof using TotalLeb0. destruct l as [|x l]; [done|]. intros [= <-]. apply min_fold_spec. Qed.
End min_by.

Lemma enumerate_from_lookup {A} n (l : list A) i x :
  (i, x) ∈ enumerate_from n l -> (n <= i)%N /\ l !! N.to_nat (i - n) = Some x.
Proof.
  revert n; induction l as [|y l IH]; intros n; simpl; [by intros ?%not_elem_of_nil|].
  intros [[= -> ->]|[Hle Hl]%IH]%elem_of_cons.
  - split; [lia|]. by replace (N.to_nat (n - n)) with 0 by lia.
  - split; [lia|]. by replace (N.to_nat (i - n)) with (S (N.to_nat (i - N.succ n))) by lia.
Qed.

Lemma enumerate_lookup {A} (l : list A) i x :
  (i, x) ∈ enumerate l -> l !! N.to_nat i = Some x.
Proof. intros [_ H]%enumerate_from_lookup. by rewrite N.sub_0_r in H. Qed.

Lemma enumerate_from_elem {A} n (l : list A) i x :
  l !! i = Some x -> (n + N.of_nat i, x)%N ∈ enumerate_from n l.
Proof.
  revert n i; induction l as [|y l IH]; intros n [|i]; simpl; try done.
  - intros [= ->]. rewrite N.add_0_r. apply elem_of_cons. by left.
  - intros H%(IH (N.succ n)). apply elem_of_cons. right.
    change (N.pos (Pos.of_succ_nat i)) with (N.of_nat (S i)).
    by replace (n + N.of_nat (S i))%N with (N.succ n + N.of_nat i)%N by lia.
Qed.

Lemma enumerate_elem {A} (l : list A) i x :
  l !! i = Some x -> (N.of_nat i, x) ∈ enumerate l.
Proof. apply (enumerate_from_elem 0). Qed.

Lemma position_Some {A} (p : A -> bool) l i :
  position p l = Some i ->
  exists x, l !! N.to_nat i = Some x /\ p x = true /\
    forall j y, j < N.to_nat i -> l !! j = Some y -> p y = false.
Proof.
  revert i; induction l as [|x l IH]; intros i; simpl; [done|].
  destruct (p x) eqn:Hx.
  - intros [= <-]. exists x. split; [done|]. split; [done|]. lia.
  - destruct (position p l) as [k|]; [|done]. intros [= <-].
    destruct (IH k eq_refl) as (y & Hy & Hp & Hbefore). exists y.
    replace (N.to_nat (N.succ k)) with (S (N.to_nat k)) by lia.
    split; [done|]. split; [done|].
    intros [|j] z Hj Hz; simpl in Hz; [naive_solver|]. apply (Hbefore j); [lia|done].
Qed.

(** ** Collecting pairs into a map: the last binding of a key wins *)

Section last_with.
Context {A : Type} (key : A -> string).

Definition last_with (k : string) (l : list A) : option A :=
  last (filter (fun x => key x = k) l).

Lemma last_with_Some k l x : last_with k l = Some x -> x ∈ l /\ key x = k.
Proof.
  intros Hl%last_Some_elem_of. apply list_elem_of_filter in Hl. naive_solver.
Qed.

Lemma last_with_None k l : last_with k l = None <-> forall x, x ∈ l -> key x <> k.
Proof.
  unfold last_with. rewrite last_None. split.
  - intros Hf x Hx Hk. assert (x ∈ filter (fun x => key x = k) l) as H
      by (by apply list_elem_of_filter). rewrite Hf in H. by apply not_elem_of_nil in H.
  - intros H. destruct (filter (fun x => key x = k) l) as [|y f] eqn:E; [done|].
    assert (y ∈ filter (fun x => key x = k) l) as [? ?]%list_elem_of_filter
      by (rewrite E; apply elem_of_cons; by left).
    by destruct (H y).
Qed.

Lemma last_with_app k l1 l2 :
  last_with k (l1 ++ l2) =
  match last_with k l2 with
  | Some x => Some x
  | None => last_with k l1
  end.
Proof. unfold last_with. rewrite filter_app, last_app. by destruct (last _). Qed.
End last_with.

Section collect.
Context {A B : Type} (key : A -> string) (value : A -> B).

Definition collect_into (m : gmap string B) (l : list A) : gmap string B :=
  foldl (fun m x => <[key x := value x]> m) m l.

Lemma collect_into_lookup m l k :
  collect_into m l !! k =
  match last_with key k l with
  | Some x => Some (value x)
  | None => m !! k
  end.
Proof.
  unfold collect_into, last_with. induction l as [|x l IH] using rev_ind; [done|].
  rewrite foldl_app, filter_app. simpl. rewrite filter_cons, filter_nil.
  case_decide as Hx.
  - subst k. rewrite last_snoc. apply lookup_insert_eq.
  - by rewrite lookup_insert_ne, app_nil_r.
Qed.
End collect.
