(* ===== verification/Protocol.v ===== *)
(** * The protocol between rust-analyzer and the editor

    The data of [zed-rust/crates/project/src/lsp_store/rust_analyzer_ext.rs]:
    one record per Rust struct, with the struct's fields in order.  A field is
    named after its struct ([problem_id] is [OwnershipProblem::id]) because
    Rocq projections share one name space.  [Position], [Range], [Location] and
    [TextDocumentIdentifier] are the LSP structures of the same name; a URI is
    its text. *)

From S2P Require Import Prelude RustStr RustColl.
From stdpp Require Import options.

Record Position : Type := mk_position {
  position_line : N;
  position_character : N
}.

Record Range : Type := mk_range {
  range_start : Position;
  range_end : Position
}.

Record Location : Type := mk_location {
  location_uri : string;
  location_range : Range
}.

Record TextDocumentIdentifier : Type := mk_text_document {
  text_document_uri : string
}.

#[export] Instance Position_eq_dec : EqDecision Position.
Proof. solve_decision. Defined.

#[export] Instance Range_eq_dec : EqDecision Range.
Proof. solve_decision. Defined.

(** [lsp::Position] and [lsp::Range] implement [Default] with zeros. *)
Definition default_position : Position := mk_position 0 0.
Definition default_range : Range := mk_range default_position default_position.

(** The derived tuple order [(line, character) <= (line', character')]. *)
Definition position_leb (a b : Position) : bool :=
  ((position_line a <? position_line b)
   || (position_line a =? position_line b)
      && (position_character a <=? position_character b))%N.

Record OwnershipRepairParams : Type := mk_repair_params {
  repair_params_text_document : TextDocumentIdentifier;
  repair_params_position : Position;
  repair_params_repair_id : string;
  repair_params_source_hash : string
}.

Record OwnershipRepairValidationResult : Type := mk_validation {
  validation_status : string;
  validation_message : string
}.

Record OwnershipProblemRelated : Type := mk_related {
  related_message : string;
  related_range : Range
}.

Record OwnershipProblem : Type := mk_problem {
  problem_id : string;
  problem_category : string;
  problem_diagnostic_code : option string;
  problem_message : string;
  problem_binding_name : string;
  problem_primary_range : Range;
  problem_binding_range : Range;
  problem_related_ranges : list Range;
  problem_related : list OwnershipProblemRelated;
  problem_model_position : Position;
  problem_precision : string
}.

Record OwnershipProblems : Type := mk_problems {
  problems_schema_version : N;
  problems_status : string;
  problems_source_hash : string;
  problems_problems : list OwnershipProblem
}.

Record OwnershipWorkspaceGuideParams : Type := mk_guide_params {
  guide_params_text_document : TextDocumentIdentifier;
  guide_params_position : Position;
  guide_params_selected_problem_id : option string;
  guide_params_expected_revision : option string
}.

Record OwnershipWorkspaceSite : Type := mk_site {
  site_problem_id : option string;
  site_role : string;
  site_location : Location;
  site_label : string;
  site_relationship : string;
  site_precision : string;
  site_selected : bool
}.

Record OwnershipProblemCluster : Type := mk_cluster {
  cluster_id : string;
  cluster_root_problem_id : string;
  cluster_title : string;
  cluster_summary : string;
  cluster_category : string;
  cluster_diagnostic_code : option string;
  cluster_root : OwnershipWorkspaceSite;
  cluster_impacts : list OwnershipWorkspaceSite;
  cluster_related_constraints : list OwnershipWorkspaceSite;
  cluster_affected_files : N;
  cluster_precision : string;
  cluster_truncated : bool
}.

Record OwnershipJourneyFrame : Type := mk_frame {
  frame_id : string;
  frame_kind : string;
  frame_location : Location;
  frame_label : string;
  frame_explanation : string;
  frame_transfer : string;
  frame_after : string;
  frame_provenance : string
}.

Record OwnershipIntentChoice : Type := mk_choice {
  choice_id : string;
  choice_label : string;
  choice_consequence : string
}.

Record OwnershipIntentQuestion : Type := mk_question {
  question_id : string;
  question_prompt : string;
  question_choices : list OwnershipIntentChoice
}.

Record OwnershipWorkspaceGuide : Type := mk_guide {
  guide_schema_version : N;
  guide_status : string;
  guide_revision : string;
  guide_selected_cluster_id : option string;
  guide_clusters : list OwnershipProblemCluster;
  guide_journey : list OwnershipJourneyFrame;
  guide_intent_question : option OwnershipIntentQuestion;
  guide_truncated : bool
}.

Record OwnershipEventDestination : Type := mk_destination {
  destination_kind : string;
  destination_label : string;
  destination_place : option string;
  destination_range : option Range
}.

Record OwnershipEvent : Type := mk_event {
  event_event_id : string;
  event_body_id : N;
  event_basic_block : N;
  event_statement_index : N;
  event_kind : string;
  event_state : string;
  event_place : string;
  event_loan_id : option N;
  event_range : Range;
  event_binding_range : Range;
  event_detail : option string;
  event_destination : option OwnershipEventDestination
}.

Record OwnershipValueTraceStep : Type := mk_trace {
  trace_id : string;
  trace_kind : string;
  trace_range : Range;
  trace_from_label : string;
  trace_to_label : option string;
  trace_source_state : string;
  trace_destination_state : option string;
  trace_allocation_effect : string;
  trace_explanation : string;
  trace_provenance : string;
  trace_control_flow : option string
}.

Record OwnershipRepairEffects : Type := mk_repair_effects {
  repair_effects_ownership : string;
  repair_effects_mutation : string;
  repair_effects_thread_safety : string;
  repair_effects_runtime_risk : string;
  repair_effects_cost : string
}.

Record OwnershipMemoryNode : Type := mk_mnode {
  mnode_id : string;
  mnode_body_id : N;
  mnode_place : string;
  mnode_kind : string;
  mnode_storage : string;
  mnode_label : string;
  mnode_type_name : string;
  mnode_size : option N;
  mnode_align : option N;
  mnode_range : option Range;
  mnode_state : string;
  mnode_provenance : string;
  mnode_physical_placement_note : string;
  mnode_truncated : bool
}.

Record OwnershipMemoryEdge : Type := mk_medge {
  medge_id : string;
  medge_source : string;
  medge_target : string;
  medge_relation : string;
  medge_event_id : option string;
  medge_loan_id : option N;
  medge_range : option Range;
  medge_provenance : string;
  medge_path_marker : option string
}.

Record OwnershipStateDelta : Type := mk_delta {
  delta_node_id : string;
  delta_from : option string;
  delta_to : string;
  delta_relation_added : option string;
  delta_relation_removed : option string
}.

Record OwnershipMemorySnapshot : Type := mk_msnapshot {
  msnapshot_id : string;
  msnapshot_event_id : string;
  msnapshot_body_id : N;
  msnapshot_basic_block : N;
  msnapshot_statement_index : N;
  msnapshot_kind : string;
  msnapshot_range : Range;
  msnapshot_place : string;
  msnapshot_loan_id : option N;
  msnapshot_path_marker : option string;
  msnapshot_deltas : list OwnershipStateDelta;
  msnapshot_provenance : string
}.

Record OwnershipAccessStep : Type := mk_step {
  step_kind : string;
  step_starting_type : string;
  step_result_type : string;
  step_mutability : string;
  step_explicitness : string;
  step_fallible : bool;
  step_may_panic : bool;
  step_requires_unsafe : bool;
  step_explanation : string;
  step_provenance : string
}.

Record OwnershipAccessPath : Type := mk_path {
  path_id : string;
  path_body_id : N;
  path_node_id : string;
  path_place : string;
  path_purpose : string;
  path_steps : list OwnershipAccessStep;
  path_provenance : string
}.

Record OwnershipMemoryGraph : Type := mk_graph {
  graph_nodes : list OwnershipMemoryNode;
  graph_edges : list OwnershipMemoryEdge;
  graph_snapshots : list OwnershipMemorySnapshot;
  graph_access_paths : list OwnershipAccessPath;
  graph_truncated : bool
}.

Record OwnershipRepair : Type := mk_repair {
  repair_id : string;
  repair_title : string;
  repair_strategy : string;
  repair_semantics : string;
  repair_diff : string;
  repair_affected_files : list string;
  repair_preview_complete : bool;
  repair_compiler_validated : bool;
  repair_validation_state : string;
  repair_effects : OwnershipRepairEffects;
  repair_preview_graph : option OwnershipMemoryGraph
}.

Record OwnershipBlock : Type := mk_block {
  block_basic_block : N;
  block_range : Range;
  block_successors : list N
}.

Record OwnershipBody : Type := mk_body {
  body_body_id : N;
  body_name : string;
  body_range : Range;
  body_blocks : list OwnershipBlock;
  body_provenance : string
}.

Record OwnershipMemoryLayer : Type := mk_layer {
  layer_kind : string;
  layer_storage : string;
  layer_label : string;
  layer_type_name : string;
  layer_size : option N;
  layer_align : option N;
  layer_provenance : string
}.

Record OwnershipBinding : Type := mk_binding {
  binding_id : string;
  binding_body_id : N;
  binding_name : string;
  binding_range : Range;
  binding_type_name : string;
  binding_size : option N;
  binding_align : option N;
  binding_memory_layers : list OwnershipMemoryLayer;
  binding_provenance : string
}.

Record OwnershipLoanPoint : Type := mk_loan_point {
  loan_point_basic_block : N;
  loan_point_statement_index : N;
  loan_point_range : Range
}.

Record OwnershipLoan : Type := mk_loan {
  loan_body_id : N;
  loan_loan_id : N;
  loan_kind : string;
  loan_name : string;
  loan_place : string;
  loan_reserve : OwnershipLoanPoint;
  loan_activation : option OwnershipLoanPoint;
  loan_live_points : list OwnershipLoanPoint;
  loan_end_points : list OwnershipLoanPoint;
  loan_truncated : bool;
  loan_provenance : string
}.

Record OwnershipOperationEffect : Type := mk_effect {
  effect_kind : string;
  effect_summary : string;
  effect_certainty : string
}.

Record OwnershipOperationAlternative : Type := mk_alternative {
  alternative_name : string;
  alternative_signature : string;
  alternative_access : string;
  alternative_behavior : string;
  alternative_difference : string
}.

Record OwnershipOperationReceiver : Type := mk_receiver {
  receiver_expression : string;
  receiver_range : Range;
  receiver_transfer : string;
  receiver_after : string;
  receiver_provenance : string
}.

Record OwnershipOperationArgument : Type := mk_argument {
  argument_index : N;
  argument_expression : string;
  argument_range : Range;
  argument_parameter_type : string;
  argument_transfer : string;
  argument_after : string;
  argument_provenance : string
}.

Record OwnershipOperationReturn : Type := mk_return {
  return_type_name : string;
  return_kind : string;
  return_borrowed_from : option string;
  return_after : string;
  return_provenance : string
}.

Record OwnershipOperationInsight : Type := mk_operation {
  operation_id : string;
  operation_range : Range;
  operation_name : string;
  operation_signature : string;
  operation_receiver_type : option string;
  operation_required_access : string;
  operation_available_access : string;
  operation_why_required : string;
  operation_documentation : option string;
  operation_effects : list string;
  operation_effect_facts : list OwnershipOperationEffect;
  operation_call_chain : list string;
  operation_alternatives : list OwnershipOperationAlternative;
  operation_provenance : string;
  operation_truncated : bool;
  operation_summary : string;
  operation_ownership_relevant : bool;
  operation_receiver_flow : option OwnershipOperationReceiver;
  operation_argument_flows : list OwnershipOperationArgument;
  operation_return_flow : option OwnershipOperationReturn
}.

Record OwnershipMutationRequirement : Type := mk_requirement {
  requirement_target_place : string;
  requirement_access_source : string;
  requirement_available_access : string;
  requirement_required_access : string;
  requirement_operation_id : string;
  requirement_operation_name : string;
  requirement_explanation : string;
  requirement_provenance : string
}.

Record OwnershipConflictNode : Type := mk_cnode {
  cnode_id : string;
  cnode_label : string;
  cnode_type_name : option string;
  cnode_role : string;
  cnode_memory : string;
  cnode_range : option Range
}.

Record OwnershipConflictEdge : Type := mk_cedge {
  cedge_from : string;
  cedge_to : string;
  cedge_kind : string;
  cedge_label : string;
  cedge_provenance : string
}.

Record OwnershipConflictNodeState : Type := mk_cstate {
  cstate_node_id : string;
  cstate_state : string;
  cstate_explanation : string
}.

Record OwnershipConflictSnapshot : Type := mk_csnapshot {
  csnapshot_phase : string;
  csnapshot_title : string;
  csnapshot_explanation : string;
  csnapshot_range : Range;
  csnapshot_states : list OwnershipConflictNodeState
}.

Record OwnershipConflictGraph : Type := mk_conflict {
  conflict_title : string;
  conflict_summary : string;
  conflict_requested_access : string;
  conflict_nodes : list OwnershipConflictNode;
  conflict_edges : list OwnershipConflictEdge;
  conflict_snapshots : list OwnershipConflictSnapshot;
  conflict_provenance : string;
  conflict_truncated : bool
}.

Record OwnershipContextItem : Type := mk_context_item {
  context_item_kind : string;
  context_item_label : string;
  context_item_range : option Range
}.

Record OwnershipSourceContext : Type := mk_context {
  context_file : string;
  context_breadcrumbs : list OwnershipContextItem;
  context_call_paths : list (list string);
  context_related_types : list string;
  context_provenance : string;
  context_truncated : bool
}.

Record OwnershipCSketch : Type := mk_sketch {
  sketch_title : string;
  sketch_code : string;
  sketch_warning : string;
  sketch_linked_event_ids : list string;
  sketch_provenance : string
}.

Record OwnershipModel : Type := mk_model {
  model_schema_version : N;
  model_compiler_schema_version : N;
  model_target_triple : string;
  model_precision : string;
  model_status : string;
  model_truncated : bool;
  model_source_hash : string;
  model_selected_problem_id : option string;
  model_selected_place : option string;
  model_events : list OwnershipEvent;
  model_value_trace : list OwnershipValueTraceStep;
  model_repairs : list OwnershipRepair;
  model_bodies : list OwnershipBody;
  model_bindings : list OwnershipBinding;
  model_loans : list OwnershipLoan;
  model_memory_graph : OwnershipMemoryGraph;
  model_operations : list OwnershipOperationInsight;
  model_mutation_requirement : option OwnershipMutationRequirement;
  model_conflict_graph : option OwnershipConflictGraph;
  model_source_context : option OwnershipSourceContext;
  model_c_sketch : option OwnershipCSketch
}.

Record OwnershipModelChangedParams : Type := mk_changed {
  changed_uri : string;
  changed_schema_version : N;
  changed_status : string;
  changed_source_hash : string
}.

(** ** Default values ([#[derive(Default)]] and the serde defaults) *)

Definition candidate_validation_state : string := "candidate".

Definition default_memory_graph : OwnershipMemoryGraph := mk_graph [] [] [] [] false.

Definition default_problems (status : string) : OwnershipProblems := mk_problems 0 status "" [].

Definition default_guide (status : string) : OwnershipWorkspaceGuide :=
  mk_guide 0 status "" None [] [] None false.

Definition default_model (status : string) : OwnershipModel := {|
  model_schema_version := 0;
  model_compiler_schema_version := 0;
  model_target_triple := "";
  model_precision := "";
  model_status := status;
  model_truncated := false;
  model_source_hash := "";
  model_selected_problem_id := None;
  model_selected_place := None;
  model_events := [];
  model_value_trace := [];
  model_repairs := [];
  model_bodies := [];
  model_bindings := [];
  model_loans := [];
  model_memory_graph := default_memory_graph;
  model_operations := [];
  model_mutation_requirement := None;
  model_conflict_graph := None;
  model_source_context := None;
  model_c_sketch := None
|}.

(** The model with its memory graph replaced, for worked examples. *)
Definition with_memory_graph (model : OwnershipModel) (graph : OwnershipMemoryGraph) :
    OwnershipModel := {|
  model_schema_version := model_schema_version model;
  model_compiler_schema_version := model_compiler_schema_version model;
  model_target_triple := model_target_triple model;
  model_precision := model_precision model;
  model_status := model_status model;
  model_truncated := model_truncated model;
  model_source_hash := model_source_hash model;
  model_selected_problem_id := model_selected_problem_id model;
  model_selected_place := model_selected_place model;
  model_events := model_events model;
  model_value_trace := model_value_trace model;
  model_repairs := model_repairs model;
  model_bodies := model_bodies model;
  model_bindings := model_bindings model;
  model_loans := model_loans model;
  model_memory_graph := graph;
  model_operations := model_operations model;
  model_mutation_requirement := model_mutation_requirement model;
  model_conflict_graph := model_conflict_graph model;
  model_source_context := model_source_context model;
  model_c_sketch := model_c_sketch model
|}.

Lemma position_leb_spec a b :
  position_leb a b = true <->
  (position_line a < position_line b)%N \/
  position_line a = position_line b /\ (position_character a <= position_character b)%N.
Proof.
  unfold position_leb.
  by rewrite orb_true_iff, andb_true_iff, N.ltb_lt, N.eqb_eq, N.leb_le.
Qed.
