(* ===== verification/Bridge.v ===== *)
(** * The project bridge: every response of rust-analyzer is validated

    The validators and the five request wrappers of
    [zed-rust/crates/project/src/lsp_store/rust_analyzer_ext.rs].  A request is
    [None] when no rust-analyzer serves the buffer, and otherwise the response
    the server gave, which may be a transport error; the language server and
    its transport are therefore arguments of the wrappers.  An error value
    carries the outermost message the code attaches to it. *)

From S2P Require Import Prelude RustStr RustColl Protocol.
From stdpp Require Import options.

Definition MAX_OWNERSHIP_PROBLEMS : N := 512.
Definition MAX_OWNERSHIP_EVENTS : N := 256.
Definition MAX_OWNERSHIP_BODIES : N := 512.
Definition MAX_OWNERSHIP_BINDINGS : N := 64.
Definition MAX_OWNERSHIP_LOANS : N := 64.
Definition MAX_OWNERSHIP_OPERATIONS : N := 64.
Definition MAX_OWNERSHIP_REPAIRS : N := 16.
Definition MAX_OWNERSHIP_GRAPH_NODES : N := 128.
Definition MAX_OWNERSHIP_GRAPH_EDGES : N := 256.
Definition MAX_OWNERSHIP_SNAPSHOTS : N := 256.
Definition MAX_OWNERSHIP_ACCESS_PATHS : N := 64.
Definition MAX_OWNERSHIP_WORKSPACE_CLUSTERS : N := 64.
Definition MAX_OWNERSHIP_TEXT_BYTES : N := 256 * 1024.

Definition at_most {A} (l : list A) (n : N) : bool := (len l <=? n)%N.

Definition validate_range (label : string) (range : Range) : result unit :=
  ensure (position_leb (range_start range) (range_end range))
    (label +:+ " contains an inverted LSP range").

Definition validate_text (label text : string) : result unit :=
  ensure (str_len text <=? MAX_OWNERSHIP_TEXT_BYTES)%N
    (label +:+ " exceeds the Rust Workbench text limit").

Definition validate_schema (label : string) (schema_version maximum : N) (unavailable : bool) :
    result unit :=
  if unavailable && (schema_version =? 0)%N then Ok tt
  else
    _ ← ensure (0 <? schema_version)%N (label +:+ " omitted its schema version");
    ensure (schema_version <=? maximum)%N
      (label +:+ " schema " +:+ show schema_version
       +:+ " is newer than supported schema " +:+ show maximum).

(** The loop over the ids with the [HashSet] of those already seen. *)
Fixpoint validate_unique_ids_from (label : string) (seen : gset string) (ids : list string) :
    result unit :=
  match ids with
  | [] => Ok tt
  | id :: ids =>
      _ ← ensure (negb (is_empty id)) (label +:+ " contains an empty id");
      _ ← ensure (negb (bool_decide (id ∈ seen)))
            (label +:+ " contains duplicate id `" +:+ id +:+ "`");
      validate_unique_ids_from label ({[id]} ∪ seen) ids
  end.

Definition validate_unique_ids (label : string) (ids : list string) : result unit :=
  validate_unique_ids_from label ∅ ids.

Definition validate_memory_graph (label : string) (graph : OwnershipMemoryGraph) : result unit :=
  _ ← ensure (at_most (graph_nodes graph) MAX_OWNERSHIP_GRAPH_NODES)
        (label +:+ " contains too many memory nodes");
  _ ← ensure (at_most (graph_edges graph) MAX_OWNERSHIP_GRAPH_EDGES)
        (label +:+ " contains too many memory edges");
  _ ← ensure (at_most (graph_snapshots graph) MAX_OWNERSHIP_SNAPSHOTS)
        (label +:+ " contains too many memory snapshots");
  _ ← ensure (at_most (graph_access_paths graph) MAX_OWNERSHIP_ACCESS_PATHS)
        (label +:+ " contains too many access paths");
  _ ← validate_unique_ids (label +:+ " nodes") (mnode_id <$> graph_nodes graph);
  _ ← validate_unique_ids (label +:+ " edges") (medge_id <$> graph_edges graph);
  _ ← validate_unique_ids (label +:+ " snapshots") (msnapshot_id <$> graph_snapshots graph);
  _ ← validate_unique_ids (label +:+ " access paths") (path_id <$> graph_access_paths graph);
  _ ← for_each (fun node => if_some (mnode_range node) (validate_range "ownership memory node"))
        (graph_nodes graph);
  _ ← for_each (fun edge => if_some (medge_range edge) (validate_range "ownership memory edge"))
        (graph_edges graph);
  _ ← for_each (fun snapshot =>
        _ ← validate_range "ownership memory snapshot" (msnapshot_range snapshot);
        ensure (at_most (msnapshot_deltas snapshot) MAX_OWNERSHIP_GRAPH_NODES)
          (label +:+ " snapshot contains too many state changes"))
        (graph_snapshots graph);
  for_each (fun path =>
    ensure (at_most (path_steps path) 32)
      (label +:+ " access path contains too many steps"))
    (graph_access_paths graph).

Definition validate_ownership_problem (problem : OwnershipProblem) : result unit :=
  _ ← validate_range "ownership problem" (problem_primary_range problem);
  _ ← validate_range "ownership problem binding" (problem_binding_range problem);
  _ ← ensure (at_most (problem_related_ranges problem) 64)
        "ownership problem has too many related ranges";
  _ ← ensure (at_most (problem_related problem) 64)
        "ownership problem has too many related messages";
  _ ← for_each (validate_range "ownership problem related site") (problem_related_ranges problem);
  _ ← for_each (fun related =>
        _ ← validate_range "ownership problem related message" (related_range related);
        validate_text "ownership problem related message" (related_message related))
        (problem_related problem);
  validate_text "ownership problem message" (problem_message problem).

Definition validate_ownership_problems (response : OwnershipProblems) : result unit :=
  let unavailable := problems_status response =s "rust_analyzer_unavailable" in
  _ ← ensure (one_of (problems_status response)
                ["ready"; "waiting_for_compiler"; "rust_analyzer_unavailable"])
        ("ownership problems returned unknown status `" +:+ problems_status response +:+ "`");
  _ ← validate_schema "ownership problems" (problems_schema_version response) 7 unavailable;
  _ ← ensure (at_most (problems_problems response) MAX_OWNERSHIP_PROBLEMS)
        ("ownership problems response exceeds " +:+ show MAX_OWNERSHIP_PROBLEMS +:+ " items");
  _ ← validate_unique_ids "ownership problems" (problem_id <$> problems_problems response);
  for_each validate_ownership_problem (problems_problems response).

Definition validate_cluster (cluster : OwnershipProblemCluster) : result unit :=
  _ ← ensure (at_most (cluster_impacts cluster) 64)
        "workspace cluster contains too many impacts";
  _ ← ensure (at_most (cluster_related_constraints cluster) 64)
        "workspace cluster contains too many related constraints";
  _ ← validate_range "workspace cluster root" (location_range (site_location (cluster_root cluster)));
  for_each (fun site => validate_range "workspace guide site" (location_range (site_location site)))
    (cluster_impacts cluster ++ cluster_related_constraints cluster).

Definition validate_workspace_guide (response : OwnershipWorkspaceGuide) : result unit :=
  let unavailable := guide_status response =s "rust_analyzer_unavailable" in
  _ ← ensure (one_of (guide_status response)
                ["ready"; "ready_empty"; "refreshed"; "rust_analyzer_unavailable"])
        ("workspace guide returned unknown status `" +:+ guide_status response +:+ "`");
  _ ← validate_schema "workspace guide" (guide_schema_version response) 1 unavailable;
  _ ← ensure (at_most (guide_clusters response) MAX_OWNERSHIP_WORKSPACE_CLUSTERS)
        "workspace guide contains too many clusters";
  _ ← ensure (at_most (guide_journey response) 64)
        "workspace guide contains too many journey frames";
  _ ← validate_unique_ids "workspace guide clusters" (cluster_id <$> guide_clusters response);
  _ ← validate_unique_ids "workspace guide journey" (frame_id <$> guide_journey response);
  _ ← for_each validate_cluster (guide_clusters response);
  _ ← for_each (fun frame =>
        validate_range "workspace guide journey frame" (location_range (frame_location frame)))
        (guide_journey response);
  if_some (guide_intent_question response) (fun question =>
    ensure (at_most (question_choices question) 16)
      "workspace guide contains too many intent choices").

Definition validate_body (body : OwnershipBody) : result unit :=
  _ ← validate_range "ownership body" (body_range body);
  _ ← ensure (at_most (body_blocks body) 512) "ownership body contains too many blocks";
  for_each (fun block =>
    _ ← validate_range "ownership block" (block_range block);
    ensure (at_most (block_successors block) 32) "ownership block contains too many successors")
    (body_blocks body).

Definition validate_loan (loan : OwnershipLoan) : result unit :=
  _ ← validate_range "ownership loan reservation" (loan_point_range (loan_reserve loan));
  _ ← if_some (loan_activation loan) (fun activation =>
        validate_range "ownership loan activation" (loan_point_range activation));
  _ ← ensure (at_most (loan_live_points loan) 512) "ownership loan contains too many live points";
  ensure (at_most (loan_end_points loan) 512) "ownership loan contains too many end points".

Definition validate_operation (operation : OwnershipOperationInsight) : result unit :=
  _ ← validate_range "ownership operation" (operation_range operation);
  _ ← ensure (at_most (operation_argument_flows operation) 32)
        "ownership operation contains too many arguments";
  _ ← ensure (at_most (operation_effects operation) 64)
        "ownership operation contains too many effects";
  _ ← ensure (at_most (operation_effect_facts operation) 64)
        "ownership operation contains too many effect facts";
  ensure (at_most (operation_alternatives operation) 32)
    "ownership operation contains too many alternatives".

Definition validate_repair (repair : OwnershipRepair) : result unit :=
  _ ← validate_text "ownership repair preview" (repair_diff repair);
  _ ← ensure (at_most (repair_affected_files repair) 64)
        "ownership repair touches too many files";
  if_some (repair_preview_graph repair)
    (validate_memory_graph "ownership repair preview graph").

Definition validate_conflict_graph (graph : OwnershipConflictGraph) : result unit :=
  _ ← ensure (at_most (conflict_nodes graph) 64)
        "ownership conflict graph contains too many nodes";
  _ ← ensure (at_most (conflict_edges graph) 96)
        "ownership conflict graph contains too many edges";
  _ ← ensure (at_most (conflict_snapshots graph) 64)
        "ownership conflict graph contains too many snapshots";
  _ ← validate_unique_ids "ownership conflict graph nodes" (cnode_id <$> conflict_nodes graph);
  _ ← for_each (fun node => if_some (cnode_range node) (validate_range "ownership conflict node"))
        (conflict_nodes graph);
  for_each (fun snapshot =>
    _ ← validate_range "ownership conflict snapshot" (csnapshot_range snapshot);
    ensure (at_most (csnapshot_states snapshot) 64)
      "ownership conflict snapshot contains too many states")
    (conflict_snapshots graph).

Definition validate_source_context (context : OwnershipSourceContext) : result unit :=
  _ ← ensure (at_most (context_breadcrumbs context) 64)
        "ownership source context has too many breadcrumbs";
  _ ← ensure (at_most (context_call_paths context) 64)
        "ownership source context has too many call paths";
  _ ← ensure (at_most (context_related_types context) 64)
        "ownership source context has too many related types";
  for_each (fun path : list string =>
    ensure (at_most path 32) "ownership source context call path is too deep")
    (context_call_paths context).

Definition validate_model_counts (response : OwnershipModel) : result unit :=
  _ ← ensure (model_compiler_schema_version response <=? 7)%N
        ("compiler ownership schema " +:+ show (model_compiler_schema_version response)
         +:+ " is newer than supported schema 7");
  _ ← ensure (at_most (model_events response) MAX_OWNERSHIP_EVENTS)
        "ownership model contains too many events";
  _ ← ensure (at_most (model_value_trace response) 64)
        "ownership model contains too many value trace steps";
  _ ← ensure (at_most (model_bodies response) MAX_OWNERSHIP_BODIES)
        "ownership model contains too many bodies";
  _ ← ensure (at_most (model_bindings response) MAX_OWNERSHIP_BINDINGS)
        "ownership model contains too many bindings";
  _ ← ensure (at_most (model_loans response) MAX_OWNERSHIP_LOANS)
        "ownership model contains too many loans";
  _ ← ensure (at_most (model_operations response) MAX_OWNERSHIP_OPERATIONS)
        "ownership model contains too many operations";
  ensure (at_most (model_repairs response) MAX_OWNERSHIP_REPAIRS)
    "ownership model contains too many repairs".

Definition validate_ownership_model (response : OwnershipModel) : result unit :=
  let unavailable := model_status response =s "rust_analyzer_unavailable" in
  _ ← ensure (one_of (model_status response)
                ["ready"; "waiting_for_compiler"; "rust_analyzer_unavailable"])
        ("ownership model returned unknown status `" +:+ model_status response +:+ "`");
  _ ← validate_schema "ownership model" (model_schema_version response) 14 unavailable;
  _ ← validate_model_counts response;
  _ ← validate_unique_ids "ownership events" (event_event_id <$> model_events response);
  _ ← validate_unique_ids "ownership repairs" (repair_id <$> model_repairs response);
  _ ← for_each (fun event =>
        _ ← validate_range "ownership event" (event_range event);
        validate_range "ownership event binding" (event_binding_range event))
        (model_events response);
  _ ← for_each (fun step => validate_range "ownership value trace" (trace_range step))
        (model_value_trace response);
  _ ← for_each validate_body (model_bodies response);
  _ ← for_each (fun binding =>
        _ ← validate_range "ownership binding" (binding_range binding);
        ensure (at_most (binding_memory_layers binding) 32)
          "ownership binding contains too many storage layers")
        (model_bindings response);
  _ ← for_each validate_loan (model_loans response);
  _ ← for_each validate_operation (model_operations response);
  _ ← for_each validate_repair (model_repairs response);
  _ ← validate_memory_graph "ownership memory graph" (model_memory_graph response);
  _ ← if_some (model_conflict_graph response) validate_conflict_graph;
  _ ← if_some (model_source_context response) validate_source_context;
  if_some (model_c_sketch response) (fun sketch =>
    validate_text "ownership conceptual code sketch" (sketch_code sketch)).

(** ** The request wrappers *)

(** [.context(message)?]: the error becomes [message]. *)
Definition with_context {A} (message : string) (r : result A) : result A :=
  match r with
  | Ok a => Ok a
  | Err _ => Err message
  end.

Definition ownership_model (request : option (result OwnershipModel)) : result OwnershipModel :=
  match request with
  | None => Ok (default_model "rust_analyzer_unavailable")
  | Some response =>
      answer ← with_context "requesting compiler ownership model from rust-analyzer" response;
      _ ← validate_ownership_model answer;
      Ok answer
  end.

Definition ownership_problems (request : option (result OwnershipProblems)) :
    result OwnershipProblems :=
  match request with
  | None => Ok (default_problems "rust_analyzer_unavailable")
  | Some response =>
      answer ← with_context "requesting ownership problems from rust-analyzer" response;
      _ ← validate_ownership_problems answer;
      Ok answer
  end.

Definition ownership_workspace_guide (request : option (result OwnershipWorkspaceGuide)) :
    result OwnershipWorkspaceGuide :=
  match request with
  | None => Ok (default_guide "rust_analyzer_unavailable")
  | Some response =>
      answer ← with_context "requesting the workspace ownership guide from rust-analyzer" response;
      _ ← validate_workspace_guide answer;
      Ok answer
  end.

Definition ownership_validate_repair (request : option (result OwnershipRepairValidationResult)) :
    result OwnershipRepairValidationResult :=
  match request with
  | None =>
      Ok (mk_validation "unavailable" "rust-analyzer is not available for this buffer.")
  | Some response =>
      answer ← with_context "starting compiler validation for an ownership repair" response;
      _ ← ensure (one_of (validation_status answer) ["checking"; "stale"; "unavailable"])
            ("ownership repair validation returned unknown status `"
             +:+ validation_status answer +:+ "`");
      _ ← validate_text "ownership repair validation message" (validation_message answer);
      Ok answer
  end.
