(* ===== verification/BridgeSpec.v ===== *)
(** * What a validated response guarantees

    Declarative well-formedness of the three payloads, and the proof that the
    validators of [Bridge] accept exactly the well-formed ones.  [ServedModel]
    is the interface the editor side relies on: its facts are what the bridge
    discharges for every model the panel can ever receive. *)

From S2P Require Import Prelude RustStr RustColl Protocol Bridge.
From stdpp Require Import options.

(** ** Well-formed data *)

Definition range_ordered (r : Range) : Prop :=
  let '(mk_range s e) := r in
  (position_line s < position_line e)%N \/
  position_line s = position_line e /\ (position_character s <= position_character e)%N.

Definition text_bounded (s : string) : Prop := (str_len s <= 262144)%N.

Definition unique_ids (ids : list string) : Prop := NoDup ids /\ "" ∉ ids.

Definition bounded {A} (l : list A) (n : N) : Prop := (len l <= n)%N.

Definition optional {A} (P : A -> Prop) (o : option A) : Prop := forall x, o = Some x -> P x.

Definition schema_supported (version maximum : N) (unavailable : Prop) : Prop :=
  (unavailable /\ version = 0%N) \/ (0 < version <= maximum)%N.

#[export] Instance schema_supported_proper :
  Proper (eq ==> eq ==> iff ==> iff) schema_supported.
Proof. intros v _ <- m _ <- P Q HPQ. unfold schema_supported. by rewrite HPQ. Qed.

Record well_formed_graph (g : OwnershipMemoryGraph) : Prop := {
  wfg_nodes : bounded (graph_nodes g) 128;
  wfg_edges : bounded (graph_edges g) 256;
  wfg_snapshots : bounded (graph_snapshots g) 256;
  wfg_paths : bounded (graph_access_paths g) 64;
  wfg_node_ids : unique_ids (mnode_id <$> graph_nodes g);
  wfg_edge_ids : unique_ids (medge_id <$> graph_edges g);
  wfg_snapshot_ids : unique_ids (msnapshot_id <$> graph_snapshots g);
  wfg_path_ids : unique_ids (path_id <$> graph_access_paths g);
  wfg_node_ranges : Forall (fun n => optional range_ordered (mnode_range n)) (graph_nodes g);
  wfg_edge_ranges : Forall (fun e => optional range_ordered (medge_range e)) (graph_edges g);
  wfg_snapshot_each : Forall (fun s =>
    range_ordered (msnapshot_range s) /\ bounded (msnapshot_deltas s) 128) (graph_snapshots g);
  wfg_path_each : Forall (fun p => bounded (path_steps p) 32) (graph_access_paths g)
}.

Record well_formed_problem (p : OwnershipProblem) : Prop := {
  wfp_primary : range_ordered (problem_primary_range p);
  wfp_binding : range_ordered (problem_binding_range p);
  wfp_related_ranges : bounded (problem_related_ranges p) 64;
  wfp_related : bounded (problem_related p) 64;
  wfp_related_ordered : Forall range_ordered (problem_related_ranges p);
  wfp_related_each : Forall (fun r =>
    range_ordered (related_range r) /\ text_bounded (related_message r)) (problem_related p);
  wfp_message : text_bounded (problem_message p)
}.

Record well_formed_problems (r : OwnershipProblems) : Prop := {
  wfps_status :
    problems_status r ∈ ["ready"; "waiting_for_compiler"; "rust_analyzer_unavailable"];
  wfps_schema : schema_supported (problems_schema_version r) 7
    (problems_status r = "rust_analyzer_unavailable");
  wfps_count : bounded (problems_problems r) 512;
  wfps_ids : unique_ids (problem_id <$> problems_problems r);
  wfps_each : Forall well_formed_problem (problems_problems r)
}.

Record well_formed_cluster (c : OwnershipProblemCluster) : Prop := {
  wfc_impacts : bounded (cluster_impacts c) 64;
  wfc_constraints : bounded (cluster_related_constraints c) 64;
  wfc_root : range_ordered (location_range (site_location (cluster_root c)));
  wfc_sites : Forall (fun s => range_ordered (location_range (site_location s)))
    (cluster_impacts c ++ cluster_related_constraints c)
}.

Record well_formed_guide (g : OwnershipWorkspaceGuide) : Prop := {
  wfw_status : guide_status g ∈ ["ready"; "ready_empty"; "refreshed"; "rust_analyzer_unavailable"];
  wfw_schema : schema_supported (guide_schema_version g) 1
    (guide_status g = "rust_analyzer_unavailable");
  wfw_clusters : bounded (guide_clusters g) 64;
  wfw_journey : bounded (guide_journey g) 64;
  wfw_cluster_ids : unique_ids (cluster_id <$> guide_clusters g);
  wfw_journey_ids : unique_ids (frame_id <$> guide_journey g);
  wfw_cluster_each : Forall well_formed_cluster (guide_clusters g);
  wfw_journey_each : Forall (fun f => range_ordered (location_range (frame_location f)))
    (guide_journey g);
  wfw_question : optional (fun q => bounded (question_choices q) 16) (guide_intent_question g)
}.

Record well_formed_body (b : OwnershipBody) : Prop := {
  wfb_range : range_ordered (body_range b);
  wfb_blocks : bounded (body_blocks b) 512;
  wfb_each : Forall (fun k => range_ordered (block_range k) /\ bounded (block_successors k) 32)
    (body_blocks b)
}.

Record well_formed_loan (l : OwnershipLoan) : Prop := {
  wfl_reserve : range_ordered (loan_point_range (loan_reserve l));
  wfl_activation : optional (fun a => range_ordered (loan_point_range a)) (loan_activation l);
  wfl_live : bounded (loan_live_points l) 512;
  wfl_end : bounded (loan_end_points l) 512
}.

Record well_formed_operation (o : OwnershipOperationInsight) : Prop := {
  wfo_range : range_ordered (operation_range o);
  wfo_arguments : bounded (operation_argument_flows o) 32;
  wfo_effects : bounded (operation_effects o) 64;
  wfo_facts : bounded (operation_effect_facts o) 64;
  wfo_alternatives : bounded (operation_alternatives o) 32
}.

Record well_formed_repair (r : OwnershipRepair) : Prop := {
  wfr_diff : text_bounded (repair_diff r);
  wfr_files : bounded (repair_affected_files r) 64;
  wfr_graph : optional well_formed_graph (repair_preview_graph r)
}.

Record well_formed_conflict (g : OwnershipConflictGraph) : Prop := {
  wfcg_nodes : bounded (conflict_nodes g) 64;
  wfcg_edges : bounded (conflict_edges g) 96;
  wfcg_snapshots : bounded (conflict_snapshots g) 64;
  wfcg_ids : unique_ids (cnode_id <$> conflict_nodes g);
  wfcg_node_ranges : Forall (fun n => optional range_ordered (cnode_range n)) (conflict_nodes g);
  wfcg_snapshot_each : Forall (fun s =>
    range_ordered (csnapshot_range s) /\ bounded (csnapshot_states s) 64) (conflict_snapshots g)
}.

Record well_formed_context (c : OwnershipSourceContext) : Prop := {
  wfx_breadcrumbs : bounded (context_breadcrumbs c) 64;
  wfx_call_paths : bounded (context_call_paths c) 64;
  wfx_types : bounded (context_related_types c) 64;
  wfx_depth : Forall (fun p : list string => bounded p 32) (context_call_paths c)
}.

Record well_formed_counts (m : OwnershipModel) : Prop := {
  wfn_compiler : (model_compiler_schema_version m <= 7)%N;
  wfn_events : bounded (model_events m) 256;
  wfn_trace : bounded (model_value_trace m) 64;
  wfn_bodies : bounded (model_bodies m) 512;
  wfn_bindings : bounded (model_bindings m) 64;
  wfn_loans : bounded (model_loans m) 64;
  wfn_operations : bounded (model_operations m) 64;
  wfn_repairs : bounded (model_repairs m) 16
}.

Record well_formed_model (m : OwnershipModel) : Prop := {
  wfm_status : model_status m ∈ ["ready"; "waiting_for_compiler"; "rust_analyzer_unavailable"];
  wfm_schema : schema_supported (model_schema_version m) 14
    (model_status m = "rust_analyzer_unavailable");
  wfm_counts : well_formed_counts m;
  wfm_event_ids : unique_ids (event_event_id <$> model_events m);
  wfm_repair_ids : unique_ids (repair_id <$> model_repairs m);
  wfm_events : Forall (fun e =>
    range_ordered (event_range e) /\ range_ordered (event_binding_range e)) (model_events m);
  wfm_trace : Forall (fun t => range_ordered (trace_range t)) (model_value_trace m);
  wfm_bodies : Forall well_formed_body (model_bodies m);
  wfm_bindings : Forall (fun b =>
    range_ordered (binding_range b) /\ bounded (binding_memory_layers b) 32) (model_bindings m);
  wfm_loans : Forall well_formed_loan (model_loans m);
  wfm_operations : Forall well_formed_operation (model_operations m);
  wfm_repairs : Forall well_formed_repair (model_repairs m);
  wfm_graph : well_formed_graph (model_memory_graph m);
  wfm_conflict : optional well_formed_conflict (model_conflict_graph m);
  wfm_context : optional well_formed_context (model_source_context m);
  wfm_sketch : optional (fun s => text_bounded (sketch_code s)) (model_c_sketch m)
}.

(** ** The validators decide well-formedness *)

Lemma validate_range_ok label r : validate_range label r = Ok tt <-> range_ordered r.
Proof. destruct r. unfold validate_range. by rewrite ensure_ok, position_leb_spec. Qed.

Lemma validate_text_ok label s : validate_text label s = Ok tt <-> text_bounded s.
Proof. unfold validate_text. by rewrite ensure_ok, N.leb_le. Qed.

Lemma at_most_ok {A} (l : list A) n : at_most l n = true <-> bounded l n.
Proof. apply N.leb_le. Qed.

Lemma validate_schema_ok label v m u :
  validate_schema label v m u = Ok tt <-> schema_supported v m (u = true).
Proof.
  unfold validate_schema, schema_supported.
  destruct u, (N.eqb_spec v 0); simpl; rewrite ?then_ok, ?ensure_ok, ?N.ltb_lt, ?N.leb_le;
    naive_solver lia.
Qed.

Lemma validate_unique_ids_from_ok label seen ids :
  validate_unique_ids_from label seen ids = Ok tt <->
  unique_ids ids /\ Forall (fun id => id ∉ seen) ids.
Proof.
  unfold unique_ids. revert seen; induction ids as [|id ids IH]; intros seen; simpl.
  - split; [|done]. split; [|done]. split; [constructor|apply not_elem_of_nil].
  - rewrite !then_ok, !ensure_ok, IH, NoDup_cons, Forall_cons, not_elem_of_cons.
    rewrite !negb_true_iff, bool_decide_eq_false, !Forall_forall.
    assert (is_empty id = false <-> "" <> id) as -> by (destruct id; simpl; naive_solver).
    set_solver.
Qed.

Lemma validate_unique_ids_ok label ids : validate_unique_ids label ids = Ok tt <-> unique_ids ids.
Proof.
  unfold validate_unique_ids. rewrite validate_unique_ids_from_ok, Forall_forall. set_solver.
Qed.

Lemma for_each_iff {A} (f : A -> result unit) (P : A -> Prop) l :
  (forall x, f x = Ok tt <-> P x) -> for_each f l = Ok tt <-> Forall P l.
Proof. intros H. rewrite for_each_ok. by apply Forall_iff. Qed.

Lemma if_some_iff {A} (f : A -> result unit) (P : A -> Prop) o :
  (forall x, f x = Ok tt <-> P x) -> if_some o f = Ok tt <-> optional P o.
Proof. intros H. rewrite if_some_ok. unfold optional. by setoid_rewrite H. Qed.

(** The validators already characterised, as a hint database. *)
Create HintDb bridge.
Create Rewrite HintDb bridge.
#[export] Hint Rewrite @then_ok ensure_ok @at_most_ok validate_range_ok validate_text_ok
  validate_unique_ids_ok one_of_spec validate_schema_ok N.leb_le str_eqb_eq : bridge.

(** [f x = Ok tt <-> P x], descending into loops and optional fields. *)
Ltac accept_iff :=
  intros; cbv beta;
  first
    [ solve [auto with bridge]
    | apply for_each_iff; accept_iff
    | apply if_some_iff; accept_iff
    | autorewrite with bridge; first [reflexivity | done] ].

(** [validate x = Ok tt <-> spec x] where [spec] is the record of the
    validator's conjuncts, in any order. *)
Ltac spec_record :=
  cbv zeta; autorewrite with bridge;
  split;
  [ intros; destruct_and?; constructor;
    first
      [ done
      | match goal with
        | H : for_each ?f ?l = Ok tt |- Forall ?P ?l =>
            refine (proj1 (for_each_iff f P l _) H); accept_iff
        | H : if_some ?o ?f = Ok tt |- optional ?P ?o =>
            refine (proj1 (if_some_iff f P o _) H); accept_iff
        end
      ]
  | intros []; split_and?;
    first
      [ done
      | match goal with
        | H : Forall ?P ?l |- for_each ?f ?l = Ok tt =>
            refine (proj2 (for_each_iff f P l _) H); accept_iff
        | H : optional ?P ?o |- if_some ?o ?f = Ok tt =>
            refine (proj2 (if_some_iff f P o _) H); accept_iff
        end ] ].

Lemma validate_memory_graph_ok label g :
  validate_memory_graph label g = Ok tt <-> well_formed_graph g.
Proof. unfold validate_memory_graph. spec_record. Qed.

Lemma validate_ownership_problem_ok p :
  validate_ownership_problem p = Ok tt <-> well_formed_problem p.
Proof. unfold validate_ownership_problem. spec_record. Qed.

Lemma validate_cluster_ok c : validate_cluster c = Ok tt <-> well_formed_cluster c.
Proof. unfold validate_cluster. spec_record. Qed.

Lemma validate_body_ok b : validate_body b = Ok tt <-> well_formed_body b.
Proof. unfold validate_body. spec_record. Qed.

Lemma validate_loan_ok l : validate_loan l = Ok tt <-> well_formed_loan l.
Proof. unfold validate_loan. spec_record. Qed.

Lemma validate_operation_ok o : validate_operation o = Ok tt <-> well_formed_operation o.
Proof. unfold validate_operation. spec_record. Qed.

#[export] Hint Resolve validate_memory_graph_ok validate_ownership_problem_ok
  validate_cluster_ok validate_body_ok validate_loan_ok validate_operation_ok : bridge.

Lemma validate_repair_ok r : validate_repair r = Ok tt <-> well_formed_repair r.
Proof. unfold validate_repair. spec_record. Qed.

Lemma validate_conflict_graph_ok g :
  validate_conflict_graph g = Ok tt <-> well_formed_conflict g.
Proof. unfold validate_conflict_graph. spec_record. Qed.

Lemma validate_source_context_ok c :
  validate_source_context c = Ok tt <-> well_formed_context c.
Proof. unfold validate_source_context. spec_record. Qed.

Lemma validate_model_counts_ok m : validate_model_counts m = Ok tt <-> well_formed_counts m.
Proof. unfold validate_model_counts. spec_record. Qed.

#[export] Hint Resolve validate_repair_ok validate_conflict_graph_ok
  validate_source_context_ok : bridge.
#[export] Hint Rewrite validate_memory_graph_ok validate_model_counts_ok : bridge.

(** ** The three payload validators *)

Lemma model_ok m : validate_ownership_model m = Ok tt <-> well_formed_model m.
Proof. unfold validate_ownership_model. spec_record. Qed.

Lemma problems_ok r : validate_ownership_problems r = Ok tt <-> well_formed_problems r.
Proof. unfold validate_ownership_problems. spec_record. Qed.

Lemma guide_ok g : validate_workspace_guide g = Ok tt <-> well_formed_guide g.
Proof. unfold validate_workspace_guide. spec_record. Qed.

(** C6: the ownership-model validator accepts a response exactly when every
    status, schema, size, text, id-uniqueness and range-order condition of
    [well_formed_model] holds: nothing malformed gets through and nothing
    well-formed is refused. *)
Theorem validate_ownership_model_iff m :
  validate_ownership_model m = Ok tt <-> well_formed_model m.
Proof. apply model_ok. Qed.

(** The same equivalence for the list of problems of a file. *)
Theorem validate_ownership_problems_iff r :
  validate_ownership_problems r = Ok tt <-> well_formed_problems r.
Proof. apply problems_ok. Qed.

(** The same equivalence for the workspace guide. *)
Theorem validate_workspace_guide_iff g :
  validate_workspace_guide g = Ok tt <-> well_formed_guide g.
Proof. apply guide_ok. Qed.

(** ** What a caller of the bridge can receive *)

Lemma wrapper_ok {A} (validate : A -> result unit) ctx (response : result A) a :
  (answer ← with_context ctx response; _ ← validate answer; Ok answer) = Ok a <->
  response = Ok a /\ validate a = Ok tt.
Proof.
  destruct response as [b|e]; simpl; [|by split; [|intros [? _]]].
  destruct (validate b) as [[]|m] eqn:E; simpl; split.
  - by intros [= ->].
  - by intros [[= ->] _].
  - done.
  - intros [[= ->] H]. congruence.
Qed.

Lemma model_served request m :
  ownership_model request = Ok m <->
  (request = None /\ m = default_model "rust_analyzer_unavailable") \/
  (request = Some (Ok m) /\ well_formed_model m).
Proof.
  rewrite <- model_ok.
  destruct request as [response|]; cbn [ownership_model].
  - rewrite wrapper_ok. split; [intros [-> ?]; by right|].
    by intros [[? ?]|[[= ->] ?]].
  - split; [intros [= <-]; by left|]. by intros [[_ ->]|[? _]].
Qed.

(** A model that reaches the panel is either the placeholder for a buffer
    without a server, or literally the server's answer and well formed. *)
Theorem ownership_model_served request m :
  ownership_model request = Ok m <->
  (request = None /\ m = default_model "rust_analyzer_unavailable") \/
  (request = Some (Ok m) /\ well_formed_model m).
Proof. apply model_served. Qed.

(** The interface the editor side is proved against. *)
Class ServedModel (m : OwnershipModel) : Prop := {
  served_nodes : bounded (graph_nodes (model_memory_graph m)) 128;
  served_edges : bounded (graph_edges (model_memory_graph m)) 256;
  served_snapshots : bounded (graph_snapshots (model_memory_graph m)) 256;
  served_node_ids : NoDup (mnode_id <$> graph_nodes (model_memory_graph m));
  served_edge_ids : NoDup (medge_id <$> graph_edges (model_memory_graph m));
  served_conflict_ids : forall g, model_conflict_graph m = Some g ->
    NoDup (cnode_id <$> conflict_nodes g)
}.

Lemma well_formed_served m : well_formed_model m -> ServedModel m.
Proof.
  intros Hm. destruct (wfm_graph m Hm) as [? ? ? ? [Hn _] [He _]].
  split; try done.
  intros g Hg. by destruct (wfcg_ids g (wfm_conflict m Hm g Hg)).
Qed.

Lemma bridge_serves request m : ownership_model request = Ok m -> ServedModel m.
Proof.
  intros [[_ ->]|[_ Hm]]%model_served; [|by apply well_formed_served].
  by split; simpl; try constructor; unfold bounded.
Qed.

(** The error paths of the bridge.  A transport error is replaced by the
    request's own message, and any response that is not well formed is an
    error, whatever the server sent. *)
Theorem ownership_model_rejects request :
  is_ok (ownership_model request) = false <->
  exists response, request = Some response /\
    (ownership_model request = Err "requesting compiler ownership model from rust-analyzer"
       /\ is_ok response = false \/
     exists m, response = Ok m /\ ~ well_formed_model m).
Proof.
  split.
  - destruct request as [[m|e]|]; simpl; [|by eauto 6|done].
    destruct (validate_ownership_model m) as [[]|] eqn:E; simpl; [done|]. intros _.
    exists (Ok m). split; [done|]. right. exists m. split; [done|].
    rewrite <- model_ok, E. done.
  - intros (response & -> & [[-> ?]|(m & -> & Hm)]); [done|].
    destruct (ownership_model (Some (Ok m))) as [m'|] eqn:E; [|done].
    apply model_served in E as [[? ?]|[[= ->] ?]]; done.
Qed.

(** The bridge refuses any guide with more than 64 clusters, although such
    a guide is otherwise fine. *)
Theorem guide_of_65_clusters_rejected g :
  (64 < len (guide_clusters g))%N -> is_ok (ownership_workspace_guide (Some (Ok g))) = false.
Proof.
  intros Hlen. simpl. destruct (validate_workspace_guide g) as [[]|] eqn:E; [|done].
  apply guide_ok, wfw_clusters in E. unfold bounded in E. lia.
Qed.

Definition sample_cluster (i : N) : OwnershipProblemCluster :=
  let site := mk_site None "cause" (mk_location "file:///src/lib.rs" default_range) "" "" "" false in
  mk_cluster (show i) "p" "" "" "" None site [] [] 1 "" false.

Definition sample_guide (clusters : list N) : OwnershipWorkspaceGuide :=
  mk_guide 1 "ready" "r1" None (sample_cluster <$> clusters) [] None false.

Lemma guide_of_65_clusters_rejected_witness :
  is_ok (ownership_workspace_guide (Some (Ok (sample_guide (N.of_nat <$> seq 0 64))))) = true /\
  is_ok (ownership_workspace_guide (Some (Ok (sample_guide (N.of_nat <$> seq 0 65))))) = false.
Proof.
  split; [vm_compute; reflexivity|].
  apply (guide_of_65_clusters_rejected (sample_guide (N.of_nat <$> seq 0 65))).
  vm_compute. reflexivity.
Defined.
