(* ===== verification/TypeParser.v ===== *)
(** * Reading a type name: the type parser of the teaching diagram

    [simple_type_name], [split_type_arguments], [parse_type],
    [teaching_diagram_family] and [teaching_title] of
    [zed-rust/crates/rust_workbench/src/ownership_topology.rs].  The two
    scanning loops carry the text since the last cut instead of its byte
    offset; the [u32] nesting depth keeps its saturating arithmetic. *)

From Stdlib Require Import Ascii.
From S2P Require Import Prelude RustStr RustColl Protocol.
From stdpp Require Import options.

Inductive TeachingDiagramFamily : Type :=
| FamilyValue
| FamilyReference
| FamilySequence
| FamilySharedOwner
| FamilyInteriorMutable
| FamilyLock
| FamilyConditional
| FamilyClosure
| FamilyTraitObject
| FamilyAsync.

#[export] Instance TeachingDiagramFamily_eq_dec : EqDecision TeachingDiagramFamily.
Proof. solve_decision. Defined.

Record ParsedType : Type := mk_parsed {
  parsed_outer : string;
  parsed_arguments : list string
}.

Definition simple_type_name (path : string) : string := trim (rsplit_next "::" path).

Definition is_open_bracket (c : ascii) : bool :=
  Ascii.eqb c "<" || Ascii.eqb c "(" || Ascii.eqb c "[".
Definition is_close_bracket (c : ascii) : bool :=
  Ascii.eqb c ">" || Ascii.eqb c ")" || Ascii.eqb c "]".

(** [segment] is [source[start..index]], reversed. *)
Fixpoint split_arguments_from (rest : string) (depth : N) (segment : string)
    (arguments : list string) : list string :=
  match rest with
  | EmptyString =>
      let tail := trim (rev_str segment) in
      if is_empty tail then arguments else arguments ++ [tail]
  | String c rest =>
      if is_open_bracket c then
        split_arguments_from rest (saturating_add 32 depth 1) (String c segment) arguments
      else if is_close_bracket c then
        split_arguments_from rest (saturating_sub depth 1) (String c segment) arguments
      else if Ascii.eqb c "," && (depth =? 0)%N then
        split_arguments_from rest depth "" (arguments ++ [trim (rev_str segment)])
      else
        split_arguments_from rest depth (String c segment) arguments
  end.

Definition split_type_arguments (source : string) : list string :=
  split_arguments_from source 0 "" [].

(** The search for the bracket closing the one just opened: the text between
    them.  [depth] is 1 after the first [<]. *)
Fixpoint close_angle (rest : string) (depth : N) (inside : string) : option string :=
  match rest with
  | EmptyString => None
  | String c rest =>
      if Ascii.eqb c "<" then close_angle rest (saturating_add 32 depth 1) (String c inside)
      else if Ascii.eqb c ">" then
        let depth := saturating_sub depth 1 in
        if (depth =? 0)%N then Some (rev_str inside)
        else close_angle rest depth (String c inside)
      else close_angle rest depth (String c inside)
  end.

Definition parse_reference (rest : string) : ParsedType :=
  let rest := trim_start rest in
  let rest :=
    if starts_with "'" rest then
      match after_whitespace rest with
      | Some rest => trim_start rest
      | None => rest
      end
    else rest in
  match strip_prefix "mut " rest with
  | Some inner => mk_parsed "&mut" [trim inner]
  | None => mk_parsed "&" [trim rest]
  end.

Definition parse_path (source : string) : ParsedType :=
  match split_at_char (Ascii.eqb "<") source with
  | None => mk_parsed (simple_type_name source) []
  | Some (before, after) =>
      match close_angle after 1 "" with
      | None => mk_parsed (simple_type_name source) []
      | Some inside => mk_parsed (simple_type_name before) (split_type_arguments inside)
      end
  end.

Definition parse_type (source : string) : ParsedType :=
  let source := trim source in
  match strip_prefix "&" source with
  | Some rest => parse_reference rest
  | None =>
      match strip_prefix "*const " source with
      | Some inner => mk_parsed (trim "*const ") [trim inner]
      | None =>
          match strip_prefix "*mut " source with
          | Some inner => mk_parsed (trim "*mut ") [trim inner]
          | None => parse_path source
          end
      end
  end.

Definition problem_category_is (problem : option OwnershipProblem) (categories : list string) :
    bool :=
  match problem with
  | Some problem => one_of (problem_category problem) categories
  | None => false
  end.

Definition outer_family (outer : string) : TeachingDiagramFamily :=
  if one_of outer ["Vec"; "String"; "VecDeque"; "BinaryHeap"; "HashMap"; "HashSet"; "BTreeMap";
                   "BTreeSet"; "LinkedList"] then FamilySequence
  else if one_of outer ["Rc"; "Arc"; "Weak"; "Box"; "Pin"] then FamilySharedOwner
  else if one_of outer ["Cell"; "RefCell"; "UnsafeCell"; "OnceCell"; "OnceLock"] then
    FamilyInteriorMutable
  else if one_of outer ["Mutex"; "RwLock"; "MutexGuard"; "RwLockReadGuard"; "RwLockWriteGuard"]
  then FamilyLock
  else if one_of outer ["Option"; "Result"; "Cow"] then FamilyConditional
  else if one_of outer ["&"; "&mut"; "*const"; "*mut"] then FamilyReference
  else FamilyValue.

Definition teaching_diagram_family (problem : option OwnershipProblem) (type_name : string) :
    TeachingDiagramFamily :=
  if problem_category_is problem ["await_outside_async"; "recursive_async_function"]
     || contains "Future" type_name || contains "async" type_name
  then FamilyAsync
  else if problem_category_is problem ["closure_may_outlive_borrow"; "borrowed_data_escapes"]
     || contains "closure" type_name || contains "Fn(" type_name
     || contains "FnMut" type_name || contains "FnOnce" type_name
  then FamilyClosure
  else if contains "dyn " type_name then FamilyTraitObject
  else outer_family (parsed_outer (parse_type type_name)).

Definition teaching_title (family : TeachingDiagramFamily) (place : string) : string :=
  let subject := if is_empty place then "selected value" else place in
  match family with
  | FamilyValue => "How `" +:+ subject +:+ "` is stored and used"
  | FamilyReference => "What `" +:+ subject +:+ "` points to"
  | FamilySequence => "Collection handle, elements, and references for `" +:+ subject +:+ "`"
  | FamilySharedOwner => "Wrapper and owned allocation for `" +:+ subject +:+ "`"
  | FamilyInteriorMutable => "Runtime access gate inside `" +:+ subject +:+ "`"
  | FamilyLock => "Lock, guard, and protected value for `" +:+ subject +:+ "`"
  | FamilyConditional => "Active representation of `" +:+ subject +:+ "`"
  | FamilyClosure => "Closure environment and captured values for `" +:+ subject +:+ "`"
  | FamilyTraitObject => "Trait-object data and vtable for `" +:+ subject +:+ "`"
  | FamilyAsync => "Future state retained by `" +:+ subject +:+ "`"
  end.

Example parse_nested :
  parse_type "std::rc::Rc<RefCell<Vec<Result<Sku, Error>>>>"
  = mk_parsed "Rc" ["RefCell<Vec<Result<Sku, Error>>>"].
Proof. reflexivity. Qed.

Example parse_result :
  parse_type " Result<(A, B), Vec<[u8; 4]>> " = mk_parsed "Result" ["(A, B)"; "Vec<[u8; 4]>"].
Proof. reflexivity. Qed.

Example parse_ref : parse_type "&'a mut Vec<T>" = mk_parsed "&mut" ["Vec<T>"].
Proof. reflexivity. Qed.
