(* ===== verification/TypeRoundTrip.v ===== *)
(** * The type parser recovers the outer constructor and its arguments

    A small abstract syntax of the type names rustc prints (paths with generic
    arguments, references, raw pointers, tuples, slices), its printer, and the
    round trip: [parse_type] on a printed type returns the outer name and
    exactly the printed arguments. *)

From Stdlib Require Import Ascii.
From S2P Require Import Prelude RustStr RustColl Protocol TypeParser.
From stdpp Require Import options.

#[local] Arguments String.append !_ _ / : assert.

Inductive ty : Type :=
| TPath (name : string) (args : list ty)
| TRef (mutable : bool) (target : ty)
| TPtr (mutable : bool) (target : ty)
| TTuple (fields : list ty)
| TSlice (element : ty).

Fixpoint print (t : ty) : string :=
  match t with
  | TPath name [] => name
  | TPath name args => name +:+ "<" +:+ join ", " (map print args) +:+ ">"
  | TRef false t => "&" +:+ print t
  | TRef true t => "&mut " +:+ print t
  | TPtr false t => "*const " +:+ print t
  | TPtr true t => "*mut " +:+ print t
  | TTuple fields => "(" +:+ join ", " (map print fields) +:+ ")"
  | TSlice t => "[" +:+ print t +:+ "]"
  end.

(** How deep the brackets of the printed form nest. *)
Fixpoint nesting (t : ty) : N :=
  match t with
  | TPath _ args => 1 + foldr (fun a n => N.max (nesting a) n) 0%N args
  | TRef _ t | TPtr _ t => nesting t
  | TTuple fields => 1 + foldr (fun a n => N.max (nesting a) n) 0%N fields
  | TSlice t => 1 + nesting t
  end.

(** Letters, digits, underscore and colon. *)
Definition plain (c : ascii) : bool :=
  let n := N_of_ascii c in
  ((48 <=? n) && (n <=? 58) || (65 <=? n) && (n <=? 90) || (n =? 95)
   || (97 <=? n) && (n <=? 122))%N.

Fixpoint all_plain (s : string) : bool :=
  match s with
  | EmptyString => true
  | String c s => plain c && all_plain s
  end.

Fixpoint wf_ty (t : ty) : bool :=
  match t with
  | TPath name args => negb (is_empty name) && all_plain name && forallb wf_ty args
  | TRef _ t | TPtr _ t | TSlice t => wf_ty t
  | TTuple fields => forallb wf_ty fields
  end.

Definition parsed_spec (t : ty) : option ParsedType :=
  match t with
  | TPath name args => Some (mk_parsed (simple_type_name name) (map print args))
  | TRef mutable t => Some (mk_parsed (if mutable then "&mut" else "&") [print t])
  | TPtr mutable t => Some (mk_parsed (if mutable then "*mut" else "*const") [print t])
  | TTuple _ | TSlice _ => None
  end.

Section ty_ind.
Variable P : ty -> Prop.
Hypothesis HPath : forall n args, Forall P args -> P (TPath n args).
Hypothesis HRef : forall m t, P t -> P (TRef m t).
Hypothesis HPtr : forall m t, P t -> P (TPtr m t).
Hypothesis HTuple : forall fields, Forall P fields -> P (TTuple fields).
Hypothesis HSlice : forall t, P t -> P (TSlice t).

Fixpoint ty_nested_ind (t : ty) : P t :=
  let fix all (l : list ty) : Forall P l :=
    match l with
    | [] => List.Forall_nil _
    | x :: l => List.Forall_cons _ _ _ (ty_nested_ind x) (all l)
    end in
  match t with
  | TPath n args => HPath n args (all args)
  | TRef m t => HRef m t (ty_nested_ind t)
  | TPtr m t => HPtr m t (ty_nested_ind t)
  | TTuple fields => HTuple fields (all fields)
  | TSlice t => HSlice t (ty_nested_ind t)
  end.
End ty_ind.

Lemma starts_visible_app a b : starts_visible a -> starts_visible (a +:+ b).
Proof. by destruct a. Qed.

Lemma tight_app a b : tight a -> tight b -> tight (a +:+ b).
Proof.
  intros [? _] [_ ?]. split; [by apply starts_visible_app|].
  rewrite rev_str_append. by apply starts_visible_app.
Qed.

Lemma tight_surround a b s :
  tight a -> tight b -> tight (a +:+ s +:+ b).
Proof.
  intros [? _] [_ ?]. split; [by apply starts_visible_app|].
  rewrite rev_str_append, rev_str_append, append_assoc. by apply starts_visible_app.
Qed.

Lemma tight_single c : visible c = true -> tight (String c "").
Proof. by split. Qed.

Lemma plain_visible c : plain c = true -> visible c = true.
Proof.
  unfold plain, visible. rewrite !orb_true_iff, !andb_true_iff, N.eqb_eq, !N.leb_le. lia.
Qed.

Lemma all_plain_tight s : s <> "" -> all_plain s = true -> tight s.
Proof.
  intros Hne Hs. induction s as [|c s IH]; [done|].
  simpl in Hs. apply andb_true_iff in Hs as [Hc%plain_visible Hs].
  destruct s as [|d s]; [by apply tight_single|].
  change (String c (String d s)) with (String c "" +:+ String d s).
  apply tight_app; [by apply tight_single|]. by apply IH.
Qed.

Lemma print_tight t : wf_ty t = true -> tight (print t).
Proof.
  induction t as [n args _|m t IH|m t IH|fields _|t _] using ty_nested_ind;
    cbn [wf_ty]; intros Hwf.
  - apply andb_true_iff in Hwf as [[Hne Hn]%andb_true_iff _].
    assert (tight n) as H by (apply all_plain_tight; [by intros ->|done]).
    destruct args as [|a args]; [done|].
    exact (tight_surround n ">" ("<" +:+ join ", " (map print (a :: args))) H (conj eq_refl eq_refl)).
  - destruct m; [apply (tight_surround "&" (print t) "mut ")|apply (tight_app "&")]; auto;
      by split.
  - destruct m; [apply (tight_surround "*" (print t) "mut ")
                |apply (tight_surround "*" (print t) "const ")]; auto; by split.
  - by apply (tight_surround "(" ")").
  - by apply (tight_surround "[" "]").
Qed.

(** ** Balanced text does not disturb the two scanning loops *)

(** [s] nests at most [k] deep and has no separator at its top level. *)
Definition neutral (k : N) (s : string) : Prop :=
  (forall rest d seg args, (d + k <= umax 32)%N ->
     split_arguments_from (s +:+ rest) d seg args
     = split_arguments_from rest d (rev_append s seg) args) /\
  (forall rest d inside, (1 <= d)%N -> (d + k <= umax 32)%N ->
     close_angle (s +:+ rest) d inside = close_angle rest d (rev_append s inside)).

(** The same below an open bracket, where separators are ordinary text. *)
Definition neutral_inside (k : N) (s : string) : Prop :=
  (forall rest d seg args, (1 <= d)%N -> (d + k <= umax 32)%N ->
     split_arguments_from (s +:+ rest) d seg args
     = split_arguments_from rest d (rev_append s seg) args) /\
  (forall rest d inside, (1 <= d)%N -> (d + k <= umax 32)%N ->
     close_angle (s +:+ rest) d inside = close_angle rest d (rev_append s inside)).

Lemma neutral_weaken k s : neutral k s -> neutral_inside k s.
Proof. intros [H1 H2]. split; [intros; by apply H1|done]. Qed.

Lemma neutral_mono k k' s : (k <= k')%N -> neutral k s -> neutral k' s.
Proof. intros Hk [H1 H2]. split; intros; [apply H1|apply H2]; lia. Qed.

Lemma neutral_inside_mono k k' s : (k <= k')%N -> neutral_inside k s -> neutral_inside k' s.
Proof. intros Hk [H1 H2]. split; intros; [apply H1|apply H2]; lia. Qed.

Lemma rev_append_app a b acc : rev_append (a +:+ b) acc = rev_append b (rev_append a acc).
Proof. revert acc; induction a as [|c a IH]; intros acc; simpl; [done|]. apply IH. Qed.

Lemma neutral_app k a b : neutral k a -> neutral k b -> neutral k (a +:+ b).
Proof.
  intros [A1 A2] [B1 B2]. split; intros; rewrite append_assoc, rev_append_app.
  - by rewrite A1, B1.
  - by rewrite A2, B2.
Qed.

Lemma neutral_inside_app k a b :
  neutral_inside k a -> neutral_inside k b -> neutral_inside k (a +:+ b).
Proof.
  intros [A1 A2] [B1 B2]. split; intros; rewrite append_assoc, rev_append_app.
  - by rewrite A1, B1.
  - by rewrite A2, B2.
Qed.

Lemma neutral_nil : neutral 0 "".
Proof. done. Qed.

(** A character that is no bracket and no comma. *)
Definition ordinary (c : ascii) : bool :=
  negb (is_open_bracket c) && negb (is_close_bracket c) && negb (Ascii.eqb c ",").

Lemma neutral_char c : ordinary c = true -> neutral 0 (String c "").
Proof.
  unfold ordinary. rewrite !andb_true_iff, !negb_true_iff. intros [[Ho Hc] Hcomma].
  split; intros; simpl.
  - by rewrite Ho, Hc, Hcomma.
  - unfold is_open_bracket in Ho. unfold is_close_bracket in Hc.
    apply orb_false_iff in Ho as [[-> _]%orb_false_iff _].
    by apply orb_false_iff in Hc as [[-> _]%orb_false_iff _].
Qed.

Fixpoint all_ordinary (s : string) : bool :=
  match s with
  | EmptyString => true
  | String c s => ordinary c && all_ordinary s
  end.

Lemma neutral_ordinary s : all_ordinary s = true -> neutral 0 s.
Proof.
  induction s as [|c s IH]; simpl; [done|]. intros [Hc Hs]%andb_true_iff.
  apply (neutral_app 0 (String c "") s); [by apply neutral_char|auto].
Qed.

Lemma plain_ordinary c : plain c = true -> ordinary c = true.
Proof. destruct c as [[] [] [] [] [] [] [] []]; done. Qed.

Lemma all_plain_ordinary s : all_plain s = true -> all_ordinary s = true.
Proof.
  induction s as [|c s IH]; simpl; [done|]. intros [Hc Hs]%andb_true_iff.
  by rewrite plain_ordinary, IH.
Qed.

Lemma neutral_brackets k o c s :
  is_open_bracket o = true -> is_close_bracket c = true ->
  Ascii.eqb o "<" = Ascii.eqb c ">" ->
  neutral_inside k s -> neutral (1 + k) (String o "" +:+ s +:+ String c "").
Proof.
  intros Ho Hc Hsame [S1 S2].
  assert (is_open_bracket c = false) as Hco by
    (unfold is_open_bracket, is_close_bracket in *; by destruct c as [[] [] [] [] [] [] [] []]).
  assert (Ascii.eqb o ">" = false /\ Ascii.eqb c "<" = false) as [Ho' Hc'] by
    (unfold is_open_bracket, is_close_bracket in *;
     split; [by destruct o as [[] [] [] [] [] [] [] []]|by destruct c as [[] [] [] [] [] [] [] []]]).
  assert (forall d, (d + (1 + k) <= umax 32)%N -> saturating_add 32 d 1 = (d + 1)%N) as Hsat
    by (unfold saturating_add; intros; lia).
  split; intros rest d acc; [intros args Hd|intros Hd1 Hd]; simpl; rewrite append_assoc.
  - rewrite Ho, (Hsat d Hd), S1 by lia. simpl. rewrite Hco, Hc.
    unfold saturating_sub. replace (d + 1 - 1)%N with d by lia.
    by rewrite !rev_append_spec, !rev_str_append, !append_assoc.
  - destruct (Ascii.eqb o "<") eqn:Holt.
    + rewrite (Hsat d Hd), S2 by lia. simpl. rewrite Hc', <- Hsame.
      unfold saturating_sub. replace (d + 1 - 1)%N with d by lia.
      destruct (N.eqb_spec d 0); [lia|].
      by rewrite !rev_append_spec, !rev_str_append, !append_assoc.
    + rewrite Ho', S2 by lia. simpl. rewrite Hc', <- Hsame.
      by rewrite !rev_append_spec, !rev_str_append, !append_assoc.
Qed.

Lemma neutral_inside_separator : neutral_inside 0 ", ".
Proof.
  split; intros; simpl; [|done]. destruct (N.eqb_spec d 0); [lia|]. done.
Qed.

Lemma neutral_inside_join k l :
  Forall (neutral k) l -> neutral_inside k (join ", " l).
Proof.
  induction 1 as [|s l Hs Hl IH]; [by apply (neutral_inside_mono 0), neutral_weaken; [lia|]|].
  destruct l as [|s' l]; [by apply neutral_weaken|].
  apply neutral_inside_app; [by apply neutral_weaken|].
  apply neutral_inside_app; [|done].
  apply (neutral_inside_mono 0); [lia|apply neutral_inside_separator].
Qed.

Lemma nesting_bound args (P : N -> ty -> Prop) :
  (forall k k' t, (k <= k')%N -> P k t -> P k' t) ->
  Forall (fun t => P (nesting t) t) args ->
  Forall (P (foldr (fun a n => N.max (nesting a) n) 0%N args)) args.
Proof.
  intros Hmono. induction 1 as [|t args Ht Hargs IH]; simpl; [constructor|].
  constructor; [eapply Hmono; [|exact Ht]; lia|].
  eapply Forall_impl; [exact IH|]. intros u. apply Hmono. lia.
Qed.

Lemma neutral_join_print args :
  Forall (fun t => neutral (nesting t) (print t)) args ->
  neutral_inside (foldr (fun a n => N.max (nesting a) n) 0%N args) (join ", " (map print args)).
Proof.
  intros Hargs. apply neutral_inside_join.
  apply List.Forall_map, (nesting_bound args (fun k t => neutral k (print t))); [|done].
  intros k k' t. apply neutral_mono.
Qed.

Lemma forallb_Forall_impl (P : ty -> Prop) args :
  Forall (fun t => wf_ty t = true -> P t) args -> forallb wf_ty args = true -> Forall P args.
Proof.
  induction 1 as [|t args Ht Hargs IH]; simpl; [constructor|].
  intros [? ?]%andb_true_iff. constructor; auto.
Qed.

Lemma print_neutral t : wf_ty t = true -> neutral (nesting t) (print t).
Proof.
  induction t as [n args IH|m t IH|m t IH|fields IH|t IH] using ty_nested_ind;
    cbn [wf_ty nesting]; intros Hwf.
  - apply andb_true_iff in Hwf as [[_ Hn]%andb_true_iff Hargs].
    assert (neutral (nesting (TPath n args)) n) as Hname
      by (apply (neutral_mono 0); [lia|by apply neutral_ordinary, all_plain_ordinary]).
    destruct args as [|a args]; [done|].
    apply neutral_app; [done|]. apply (neutral_brackets _ "<" ">"); try done.
    apply neutral_join_print. by eapply forallb_Forall_impl.
  - destruct m; (apply neutral_app; [apply (neutral_mono 0); [lia|by apply neutral_ordinary]|auto]).
  - destruct m; (apply neutral_app; [apply (neutral_mono 0); [lia|by apply neutral_ordinary]|auto]).
  - apply (neutral_brackets _ "(" ")"); try done.
    apply neutral_join_print. by eapply forallb_Forall_impl.
  - apply (neutral_brackets _ "[" "]"); try done. by apply neutral_weaken, IH.
Qed.

(** ** Splitting a printed argument list *)

Lemma split_segment s lead acc :
  lead = "" \/ lead = " " -> tight s -> neutral (umax 32) s ->
  split_arguments_from (lead +:+ s) 0 "" acc = acc ++ [s] /\
  forall rest, split_arguments_from (lead +:+ s +:+ "," +:+ rest) 0 "" acc
    = split_arguments_from rest 0 "" (acc ++ [s]).
Proof.
  intros Hlead Hs [Hn _].
  assert (trim (rev_str (rev_append s (rev_str lead))) = s) as Htrim.
  { rewrite rev_append_spec, rev_str_append, !rev_str_involutive.
    destruct Hlead as [-> | ->]; [by apply trim_tight|by apply trim_space_tight]. }
  assert (forall rest, split_arguments_from (lead +:+ s +:+ rest) 0 "" acc
    = split_arguments_from rest 0 (rev_append s (rev_str lead)) acc) as Hgo.
  { intros rest. destruct Hlead as [-> | ->]; simpl; by rewrite Hn. }
  split.
  - rewrite <- (append_nil_r s), Hgo. cbn [split_arguments_from]. rewrite Htrim, append_nil_r.
    destruct Hs as [Hs _]. by destruct s.
  - intros rest. rewrite Hgo. cbn [split_arguments_from String.append]. simpl. by rewrite Htrim.
Qed.

Lemma split_join l lead acc :
  lead = "" \/ lead = " " -> l <> [] ->
  Forall tight l -> Forall (neutral (umax 32)) l ->
  split_arguments_from (lead +:+ join ", " l) 0 "" acc = acc ++ l.
Proof.
  intros Hlead Hne Ht Hn. revert lead acc Hlead. induction l as [|s l IH]; [done|].
  intros lead acc Hlead. inv Ht. inv Hn.
  destruct (split_segment s lead acc Hlead) as [Hlast Hmore]; [done..|].
  destruct l as [|s' l]; [done|].
  change (join ", " (s :: s' :: l)) with (s +:+ "," +:+ (" " +:+ join ", " (s' :: l))).
  rewrite Hmore, IH; [|done..|by right]. by rewrite <- app_assoc.
Qed.

Lemma print_neutral_max t : (nesting t <= umax 32)%N -> wf_ty t = true ->
  neutral (umax 32) (print t).
Proof. intros Hk Hwf. eapply neutral_mono; [exact Hk|by apply print_neutral]. Qed.

(** ** Names contain neither angle brackets nor spaces *)

Lemma split_at_plain c s rest :
  plain c = false -> all_plain s = true ->
  split_at_char (Ascii.eqb c) (s +:+ String c rest) = Some (s, rest).
Proof.
  intros Hc. induction s as [|a s IH]; simpl; [by rewrite Ascii.eqb_refl|].
  intros [Ha Hs]%andb_true_iff. destruct (Ascii.eqb_spec c a) as [->|]; [congruence|].
  by rewrite IH.
Qed.

Lemma split_at_plain_None c s :
  plain c = false -> all_plain s = true -> split_at_char (Ascii.eqb c) s = None.
Proof.
  intros Hc. induction s as [|a s IH]; simpl; [done|].
  intros [Ha Hs]%andb_true_iff. destruct (Ascii.eqb_spec c a) as [->|]; [congruence|].
  by rewrite IH.
Qed.

Lemma strip_plain_None c p s rest :
  plain c = false -> s <> "" -> all_plain s = true -> strip_prefix (String c p) (s +:+ rest) = None.
Proof.
  intros Hc Hne Hs. destruct s as [|a s]; [done|]. simpl in *.
  apply andb_true_iff in Hs as [Ha _]. destruct (Ascii.eqb_spec c a) as [->|]; [congruence|done].
Qed.

Lemma strip_mut_None s rest :
  all_plain s = true -> (rest = "" \/ exists r, rest = String "<" r) ->
  strip_prefix "mut " (s +:+ rest) = None.
Proof.
  intros Hs Hrest. destruct (strip_prefix "mut " (s +:+ rest)) as [r|] eqn:E; [|done].
  apply strip_prefix_Some in E. exfalso.
  do 3 (destruct s as [|? s];
        [destruct Hrest as [-> | [r' ->]]; simpl in E; discriminate|simpl in E; injection E as _ E]).
  destruct s as [|last s]; simpl in *.
  - destruct Hrest as [-> | [r' ->]]; discriminate.
  - injection E as -> _. by rewrite !andb_false_r in Hs.
Qed.

Lemma print_path_shape n args :
  print (TPath n args) = n +:+
    match args with
    | [] => ""
    | _ => "<" +:+ join ", " (map print args) +:+ ">"
    end.
Proof. destruct args; simpl; by rewrite ?append_nil_r. Qed.

Lemma print_not_mut t :
  wf_ty t = true -> strip_prefix "mut " (print t) = None /\ starts_with "'" (print t) = false.
Proof.
  intros Hwf. destruct t as [n args|[]|[]| |]; try (by split).
  rewrite print_path_shape. simpl in Hwf.
  apply andb_true_iff in Hwf as [[Hne Hn]%andb_true_iff _].
  assert (n <> "") by (by intros ->). split.
  - apply strip_mut_None; [done|]. destruct args; [by left|by right; eexists].
  - unfold starts_with. by rewrite strip_plain_None.
Qed.

Lemma parse_path_print n args :
  wf_ty (TPath n args) = true -> (nesting (TPath n args) <= umax 32)%N ->
  parse_path (print (TPath n args)) = mk_parsed (simple_type_name n) (map print args).
Proof.
  intros Hwf Hk. simpl in Hwf, Hk.
  apply andb_true_iff in Hwf as [[Hne Hn]%andb_true_iff Hargs]. unfold parse_path.
  destruct args as [|a args]; [by rewrite split_at_plain_None|].
  set (l := a :: args) in *. set (J := join ", " (map print l)).
  change (print (TPath n l)) with (n +:+ String "<" (J +:+ ">")).
  rewrite split_at_plain by done.
  assert (Forall (fun t => wf_ty t = true) l) as Hwfl
    by (by apply Forall_forall; intros t Ht%list_elem_of_In; apply (proj1 (forallb_forall _ _) Hargs)).
  assert (close_angle (J +:+ ">") 1 "" = Some J) as ->.
  { destruct (neutral_join_print l) as [_ H].
    { eapply Forall_impl; [exact Hwfl|]. intros t. apply print_neutral. }
    unfold J. rewrite H by lia. simpl. f_equal. rewrite rev_append_spec, append_nil_r.
    apply rev_str_involutive. }
  f_equal. apply (split_join (map print l) "" []); [by left|done|..].
  - apply List.Forall_map. eapply Forall_impl; [exact Hwfl|]. intros t. apply print_tight.
  - apply List.Forall_map.
    apply (Forall_impl (fun t => wf_ty t = true /\ (nesting t <= umax 32)%N));
      [|intros t [? ?]; by apply print_neutral_max].
    apply Forall_and. split; [done|].
    eapply Forall_impl; [apply (nesting_bound l (fun k t => (nesting t <= k)%N)); [lia|]|].
    + by apply Forall_forall.
    + intros t. cbv beta. lia.
Qed.

(** C40: round trip for a fragment of the types: a path, a reference or a raw pointer
    on the outside, built from paths with generic arguments, references without a
    lifetime, raw pointers, tuples and slices; no function types, for which it does not
    hold ([parse_type_arrow_truncates]).  [parse_type] applied to the printed form of
    such a type gives back the last segment of the outer path, or the pointer sigil, and
    exactly the printed arguments, whatever their nesting, as long as it fits the [u32]
    depth counter. *)
Theorem parse_type_print t p :
  wf_ty t = true -> (nesting t <= umax 32)%N -> parsed_spec t = Some p ->
  parse_type (print t) = p.
Proof.
  intros Hwf Hk Hp. unfold parse_type. rewrite trim_tight by (by apply print_tight).
  destruct t as [n args|m t|m t|fields|t]; simpl in Hp; try done; injection Hp as <-.
  - simpl in Hwf. pose proof Hwf as [[Hne Hn]%andb_true_iff _]%andb_true_iff.
    assert (n <> "") by (by intros ->).
    rewrite print_path_shape, !strip_plain_None, <- print_path_shape by done.
    by apply parse_path_print.
  - destruct (print_not_mut t Hwf) as [Hmut Hquote], (print_tight t Hwf) as [Hs Hr].
    destruct m; simpl; unfold parse_reference.
    + simpl. by rewrite trim_tight by done.
    + rewrite trim_start_visible, Hquote, Hmut, trim_tight by done. done.
  - destruct m; simpl; by rewrite (trim_tight (print t)) by (by apply print_tight).
Qed.

Lemma parse_type_print_witness :
  parse_type (print (TPath "std::rc::Rc"
    [TPath "RefCell" [TPath "Result" [TTuple [TPath "A" []; TRef true (TPath "B" [])];
                                      TPath "E" []]]]))
  = mk_parsed "Rc" ["RefCell<Result<(A, &mut B), E>>"].
Proof.
  exact (parse_type_print
    (TPath "std::rc::Rc"
      [TPath "RefCell" [TPath "Result" [TTuple [TPath "A" []; TRef true (TPath "B" [])];
                                        TPath "E" []]]])
    (mk_parsed "Rc" ["RefCell<Result<(A, &mut B), E>>"])
    eq_refl ltac:(vm_compute; discriminate) eq_refl).
Defined.

(** The parser mistakes the [>] of a function arrow for the closing
    bracket: the argument of [Box<dyn Fn(A) -> B>] is cut at the arrow, and the
    second argument of a path is lost behind it. *)
Theorem parse_type_arrow_truncates :
  parse_type "Box<dyn Fn(A) -> B>" = mk_parsed "Box" ["dyn Fn(A) -"] /\
  parse_type "Result<fn(A) -> B, E>" = mk_parsed "Result" ["fn(A) -"].
Proof. split; reflexivity. Qed.
