(* ===== verification/TypeLayers.v ===== *)
(** * Expanding a type into teaching layers

    [TeachingLayer], [push_teaching_layer] and [append_type_layers] of
    [zed-rust/crates/rust_workbench/src/ownership_topology.rs].  The vector of
    layers is threaded through; each arm of the source's [match] is one
    definition, and the recursive call is their argument [recurse], which
    [append_type_layers] ties with the fuel [8 - depth] (the source stops at
    depth 8). *)

From S2P Require Import Prelude RustStr RustColl Protocol TypeParser.
From stdpp Require Import options.

Record TeachingLayer : Type := mk_teaching_layer {
  tl_id_suffix : string;
  tl_parent_suffix : option string;
  tl_label : string;
  tl_type_name : string;
  tl_detail : string;
  tl_kind : string;
  tl_storage : string;
  tl_relation : string;
  tl_provenance : string
}.

(** Returns the suffix of the new layer and the extended vector. *)
Definition push_teaching_layer (layers : list TeachingLayer) (parent : option string)
    (suffix label type_name detail kind storage relation provenance : string) :
    string * list TeachingLayer :=
  (suffix, layers ++ [mk_teaching_layer suffix parent label type_name detail kind storage
                        relation provenance]).

Definition child_id (prefix name : string) (depth : N) : string :=
  prefix +:+ ":" +:+ name +:+ ":" +:+ show depth.

Section arms.
Context (type_name parent prefix : string) (depth : N) (parsed : ParsedType).
Context (recurse : string -> string -> list TeachingLayer -> list TeachingLayer).

Definition child_prefix (name : string) : string := child_id prefix name depth.
Definition first_argument : string := default "T" (head (parsed_arguments parsed)).

Definition reference_layers (layers : list TeachingLayer) : list TeachingLayer :=
  let mutable := parsed_outer parsed =s "&mut" in
  let '(handle, layers) := push_teaching_layer layers (Some parent) (child_prefix "reference")
    (if mutable then "&mut reference handle" else "& shared reference handle")
    type_name
    (if mutable then "temporary exclusive access; it does not own the target"
     else "temporary read-only access; it does not own the target")
    "handle" "inline" "stores" "compiler_type" in
  if contains "dyn " first_argument then
    let '(data, layers) := push_teaching_layer layers (Some handle) (child_prefix "dyn-data")
      "trait-object data" first_argument "the concrete value behind the trait object"
      "trait_object_data" "conceptual" "points_to" "derived_from_type" in
    let '(_, layers) := push_teaching_layer layers (Some handle) (child_prefix "vtable")
      "vtable metadata" "method table + layout metadata"
      "the second word of this fat pointer selects dynamic methods"
      "metadata" "inline" "dispatches_via" "derived_from_type" in
    recurse "concrete T" data layers
  else if starts_with "[" first_argument || (first_argument =s "str") then
    let '(_, layers) := push_teaching_layer layers (Some handle) (child_prefix "slice-data")
      "borrowed elements" first_argument
      "data pointer target; the reference also stores runtime length metadata"
      "buffer" "conceptual" "points_to" "derived_from_type" in
    let '(_, layers) := push_teaching_layer layers (Some handle) (child_prefix "slice-length")
      "length metadata" "usize" "the second word of a slice or str reference"
      "metadata" "inline" "contains" "derived_from_type" in
    layers
  else
    let '(_, layers) := push_teaching_layer layers (Some handle) (child_prefix "referent")
      "borrowed target" first_argument "the owner keeps this value alive"
      "borrowed_view" "conceptual"
      (if mutable then "borrow_mutable" else "borrow_shared") "compiler_type" in
    layers.

Definition vec_layers (layers : list TeachingLayer) : list TeachingLayer :=
  let '(header, layers) := push_teaching_layer layers (Some parent) (child_prefix "vec-header")
    "Vec handle [ptr | len | cap]" type_name
    "stored inline; owns a separately allocated element buffer"
    "wrapper" "inline" "stores" "compiler_type" in
  let '(buffer, layers) := push_teaching_layer layers (Some header) (child_prefix "vec-buffer")
    ("Heap A · [" +:+ first_argument +:+ " 0] [" +:+ first_argument +:+ " 1] […]")
    first_argument "element buffer; capacity is runtime data"
    "buffer" "heap" "owns_buffer" "derived_from_type" in
  let '(_, layers) := push_teaching_layer layers (Some buffer) (child_prefix "element-zero")
    (first_argument +:+ "[0]") first_argument "the element selected by index 0"
    "element" "heap" "contains" "derived_from_source" in
  layers.

Definition container_layers (layers : list TeachingLayer) : list TeachingLayer :=
  let '(header, layers) := push_teaching_layer layers (Some parent)
    (child_prefix "container-header")
    (parsed_outer parsed +:+ " collection state") type_name
    "inline handle and collection bookkeeping"
    "wrapper" "inline" "stores" "compiler_type" in
  let '(_, layers) := push_teaching_layer layers (Some header)
    (child_prefix "container-storage") "owned element storage"
    (match parsed_arguments parsed with
     | [] => "elements"
     | arguments => join ", " arguments
     end)
    "heap-backed storage whose exact organization depends on the collection"
    "buffer" "heap" "owns_buffer" "derived_from_type" in
  layers.

Definition string_layers (layers : list TeachingLayer) : list TeachingLayer :=
  let '(header, layers) := push_teaching_layer layers (Some parent)
    (child_prefix "string-header")
    "String handle [ptr | len | cap]" type_name "UTF-8 owner stored inline"
    "wrapper" "inline" "stores" "compiler_type" in
  let '(_, layers) := push_teaching_layer layers (Some header) (child_prefix "string-buffer")
    "heap UTF-8 bytes" "[u8]" "owned byte buffer; capacity is runtime data"
    "buffer" "heap" "owns_buffer" "compiler_type" in
  layers.

Definition box_layers (layers : list TeachingLayer) : list TeachingLayer :=
  let dynamic := contains "dyn " first_argument in
  let '(handle, layers) := push_teaching_layer layers (Some parent) (child_prefix "box-handle")
    (if dynamic then "Box<dyn Trait> fat owner [data | vtable]" else "Box handle (unique owner)")
    type_name
    (if dynamic then "unique owning data pointer plus dynamic-dispatch metadata"
     else "pointer-sized owning handle")
    "handle" "inline" "stores" "compiler_type" in
  let '(allocation, layers) := push_teaching_layer layers (Some handle)
    (child_prefix "box-allocation") "Box allocation"
    (if dynamic then "erased concrete T" else first_argument)
    (if dynamic then "heap allocation containing the concrete value behind dyn Trait"
     else "heap allocation containing the owned value")
    "heap_allocation" "heap" "owns" "compiler_type" in
  if dynamic then
    let '(_, layers) := push_teaching_layer layers (Some handle) (child_prefix "box-vtable")
      "vtable metadata" "method pointers + layout + drop"
      "the metadata word is part of the Box fat pointer, not inside the allocation"
      "metadata" "inline" "dispatches_via" "derived_from_type" in
    layers
  else recurse first_argument allocation layers.

Definition shared_layers (layers : list TeachingLayer) : list TeachingLayer :=
  let thread_safe := parsed_outer parsed =s "Arc" in
  let dynamic := contains "dyn " first_argument in
  let '(handle, layers) := push_teaching_layer layers (Some parent)
    (child_prefix "shared-handle")
    (if dynamic then parsed_outer parsed +:+ "<dyn Trait> fat shared owner [data | vtable]"
     else parsed_outer parsed +:+ " handle (shared owner)")
    type_name
    (if thread_safe then "atomic reference-counted handle"
     else "single-thread reference-counted handle")
    "handle" "inline" "stores" "compiler_type" in
  let '(allocation, layers) := push_teaching_layer layers (Some handle)
    (child_prefix "shared-allocation")
    (parsed_outer parsed +:+ " allocation [strong | weak | value]")
    (if dynamic then "erased concrete T" else first_argument)
    (if thread_safe then "shared heap allocation with atomic counters"
     else "shared heap allocation with non-atomic counters")
    "control_block" "heap" "shares_allocation" "compiler_type" in
  if dynamic then
    let '(_, layers) := push_teaching_layer layers (Some handle) (child_prefix "shared-vtable")
      "vtable metadata" "method pointers + layout + drop"
      "the metadata travels with each fat shared-owner handle"
      "metadata" "inline" "dispatches_via" "derived_from_type" in
    layers
  else recurse first_argument allocation layers.

Definition weak_layers (layers : list TeachingLayer) : list TeachingLayer :=
  let '(handle, layers) := push_teaching_layer layers (Some parent) (child_prefix "weak-handle")
    "Weak handle (non-owning)" type_name "does not keep the value alive"
    "handle" "inline" "stores" "compiler_type" in
  let '(_, layers) := push_teaching_layer layers (Some handle) (child_prefix "weak-control")
    "shared control block" first_argument "the value may already have been dropped"
    "control_block" "heap" "weak_reference" "compiler_type" in
  layers.

Definition pin_layers (layers : list TeachingLayer) : list TeachingLayer :=
  let '(constraint, layers) := push_teaching_layer layers (Some parent) (child_prefix "pin")
    "Pin movement constraint" type_name
    "prevents moving the pointee through safe APIs; it is not another allocation"
    "gate" "conceptual" "wraps" "compiler_type" in
  recurse first_argument constraint layers.

Definition cell_layers (layers : list TeachingLayer) : list TeachingLayer :=
  let outer := parsed_outer parsed in
  let '(wrapper, layers) := push_teaching_layer layers (Some parent) (child_prefix "cell")
    (if outer =s "RefCell" then "RefCell runtime borrow flag"
     else if outer =s "Cell" then "Cell copy-in/copy-out gate"
     else if outer =s "UnsafeCell" then "UnsafeCell mutation boundary"
     else "one-time initialization state")
    type_name
    (if outer =s "RefCell" then "tracks shared and mutable borrows at runtime"
     else if outer =s "Cell" then "permits replacing Copy values through shared access"
     else if outer =s "UnsafeCell" then "marks the primitive interior-mutability boundary"
     else "tracks whether the inner value has been initialized")
    "borrow_flag" "inline" "guards_access" "compiler_type" in
  recurse first_argument wrapper layers.

Definition lock_layers (layers : list TeachingLayer) : list TeachingLayer :=
  let '(lock, layers) := push_teaching_layer layers (Some parent) (child_prefix "lock")
    (parsed_outer parsed +:+ " runtime lock state") type_name
    (if parsed_outer parsed =s "Mutex" then "one writer or blocked waiters"
     else "many readers or one writer")
    "lock_state" "inline" "guards_access" "compiler_type" in
  recurse first_argument lock layers.

Definition guard_layers (layers : list TeachingLayer) : list TeachingLayer :=
  let '(_, layers) := push_teaching_layer layers (Some parent) (child_prefix "guard")
    (parsed_outer parsed +:+ " temporary guard") type_name
    "unlocks or releases access when dropped"
    "guard" "inline" "points_to" "compiler_type" in
  layers.

Definition raw_pointer_layers (layers : list TeachingLayer) : list TeachingLayer :=
  let '(handle, layers) := push_teaching_layer layers (Some parent) (child_prefix "raw-pointer")
    (parsed_outer parsed +:+ " raw pointer") type_name
    "non-owning address; dereference requires unsafe and a separate validity proof"
    "handle" "inline" "stores" "compiler_type" in
  let '(_, layers) := push_teaching_layer layers (Some handle) (child_prefix "raw-target")
    "possible pointee" first_argument
    "Rust does not infer that this address is live, aligned, or uniquely accessible"
    "borrowed_view" "conceptual" "points_to" "conceptual" in
  layers.

(** The body of the [for (index, argument) in arguments.take(2).enumerate()]
    loop. *)
Definition variant_layers (conditional : string) (index : N) (argument : string)
    (layers : list TeachingLayer) : list TeachingLayer :=
  let '(variant, layers) := push_teaching_layer layers (Some conditional)
    (child_prefix ("variant-" +:+ show index))
    (if parsed_outer parsed =s "Option" then "Some payload"
     else if (index =? 0)%N then "Ok payload" else "Err payload")
    argument "conditional storage; shown only for the active variant"
    "inline_value" "inline" "conditional" "compiler_type" in
  if (index =? 0)%N then recurse argument variant layers else layers.

Definition conditional_layers (layers : list TeachingLayer) : list TeachingLayer :=
  let '(conditional, layers) := push_teaching_layer layers (Some parent)
    (child_prefix "conditional")
    (parsed_outer parsed +:+ " discriminant + active payload") type_name
    "only the active variant's payload is usable"
    "wrapper" "inline" "contains" "compiler_type" in
  foldl (fun layers '(index, argument) => variant_layers conditional index argument layers)
    layers (enumerate (take 2 (parsed_arguments parsed))).

Definition cow_layers (layers : list TeachingLayer) : list TeachingLayer :=
  let borrowed_type := default "T" (last (parsed_arguments parsed)) in
  let '(cow, layers) := push_teaching_layer layers (Some parent) (child_prefix "cow")
    "Cow: Borrowed or Owned" type_name
    "clone-on-write chooses a borrowed view or an owned value"
    "wrapper" "inline" "contains" "compiler_type" in
  let '(_, layers) := push_teaching_layer layers (Some cow) (child_prefix "cow-borrowed")
    "Borrowed(&T)" borrowed_type "non-owning branch"
    "borrowed_view" "conceptual" "conditional" "derived_from_type" in
  let '(_, layers) := push_teaching_layer layers (Some cow) (child_prefix "cow-owned")
    "Owned(T::Owned)" borrowed_type "owning branch, created when mutation requires it"
    "inline_value" "conceptual" "conditional" "derived_from_type" in
  layers.

Definition future_layers (layers : list TeachingLayer) : list TeachingLayer :=
  let '(future, layers) := push_teaching_layer layers (Some parent) (child_prefix "future")
    "generated Future state" type_name
    "a state machine value; calling async code does not run it yet"
    "future_state" "inline" "contains" "derived_from_type" in
  let '(locals, layers) := push_teaching_layer layers (Some future)
    (child_prefix "saved-locals") "locals kept across .await" "captured and live local values"
    "stored inside the future while it is suspended"
    "capture" "inline" "stores_across_await" "conceptual" in
  let '(_, layers) := push_teaching_layer layers (Some locals) (child_prefix "suspension")
    "suspension point" "Poll::Pending → wake → poll again"
    "execution returns to the executor while the future remains alive"
    "suspension_point" "conceptual" "suspends_at" "conceptual" in
  layers.

Definition closure_layers (layers : list TeachingLayer) : list TeachingLayer :=
  let '(environment, layers) := push_teaching_layer layers (Some parent)
    (child_prefix "closure") "closure environment" type_name
    "compiler-generated struct containing captured values or references"
    "closure_environment" "inline" "contains" "derived_from_type" in
  let '(_, layers) := push_teaching_layer layers (Some environment) (child_prefix "captures")
    "captured values" "by &, &mut, or move"
    "capture mode determines Fn, FnMut, or FnOnce behavior"
    "capture" "inline" "captures" "conceptual" in
  layers.

Definition dyn_layers (layers : list TeachingLayer) : list TeachingLayer :=
  let '(fat, layers) := push_teaching_layer layers (Some parent)
    (child_prefix "dyn-fat-pointer") "trait-object fat pointer [data | vtable]" type_name
    "two logical pointer components" "handle" "inline" "stores" "derived_from_type" in
  let '(_, layers) := push_teaching_layer layers (Some fat) (child_prefix "dyn-data")
    "concrete data" "erased concrete type" "the runtime value implementing the trait"
    "trait_object_data" "conceptual" "points_to" "derived_from_type" in
  let '(_, layers) := push_teaching_layer layers (Some fat) (child_prefix "dyn-vtable")
    "vtable" "method pointers + size + alignment + drop"
    "used for dynamic dispatch and cleanup"
    "metadata" "conceptual" "dispatches_via" "derived_from_type" in
  layers.

Definition value_layers (layers : list TeachingLayer) : list TeachingLayer :=
  let '(_, layers) := push_teaching_layer layers (Some parent) (child_prefix "value")
    (if is_empty (parsed_outer parsed) then "inline value" else parsed_outer parsed +:+ " value")
    type_name "stored inline at this layer; fields are expanded only when relevant"
    "inline_value" "inline" "contains" "compiler_type" in
  layers.

(** The [match parsed.outer.as_str()] with its guarded arms, in order. *)
Definition type_layers (layers : list TeachingLayer) : list TeachingLayer :=
  let outer := parsed_outer parsed in
  if one_of outer ["&"; "&mut"] then reference_layers layers
  else if outer =s "Vec" then vec_layers layers
  else if one_of outer ["VecDeque"; "BinaryHeap"; "HashMap"; "HashSet"; "BTreeMap"; "BTreeSet";
                        "LinkedList"] then container_layers layers
  else if outer =s "String" then string_layers layers
  else if outer =s "Box" then box_layers layers
  else if one_of outer ["Rc"; "Arc"] then shared_layers layers
  else if outer =s "Weak" then weak_layers layers
  else if outer =s "Pin" then pin_layers layers
  else if one_of outer ["Cell"; "RefCell"; "UnsafeCell"; "OnceCell"; "OnceLock"] then
    cell_layers layers
  else if one_of outer ["Mutex"; "RwLock"] then lock_layers layers
  else if one_of outer ["MutexGuard"; "RwLockReadGuard"; "RwLockWriteGuard"] then
    guard_layers layers
  else if one_of outer ["*const"; "*mut"] then raw_pointer_layers layers
  else if one_of outer ["Option"; "Result"] then conditional_layers layers
  else if outer =s "Cow" then cow_layers layers
  else if contains "Future" outer || contains "async" type_name then future_layers layers
  else if contains "closure" outer || contains "closure" type_name then closure_layers layers
  else if contains "dyn " type_name then dyn_layers layers
  else value_layers layers.
End arms.

Fixpoint append_type_layers_fuel (fuel : nat) (prefix type_name parent : string)
    (layers : list TeachingLayer) (depth : N) : list TeachingLayer :=
  match fuel with
  | O => layers
  | S fuel =>
      if (8 <=? depth)%N || (12 <=? len layers)%N then layers
      else
        type_layers type_name parent prefix depth (parse_type type_name)
          (fun type_name parent layers =>
             append_type_layers_fuel fuel prefix type_name parent layers (depth + 1))
          layers
  end.

Definition append_type_layers (type_name parent prefix : string) (layers : list TeachingLayer)
    (depth : N) : list TeachingLayer :=
  append_type_layers_fuel (N.to_nat (8 - depth)) prefix type_name parent layers depth.

Example nested_wrapper_suffixes :
  tl_id_suffix <$> append_type_layers "Rc<RefCell<Vec<i32>>>" "focus" "type" [] 0
  = ["type:shared-handle:0"; "type:shared-allocation:0"; "type:cell:1";
     "type:vec-header:2"; "type:vec-buffer:2"; "type:element-zero:2"].
Proof. vm_compute. reflexivity. Qed.
