(* ===== verification/TypeLayersSpec.v ===== *)
(** * The layer expansion builds a bounded tree with unique ids

    What the diagram needs from [append_type_layers]: it terminates with the
    source's own recursive equation, only appends, gives every new layer an id
    of its own, hangs every new layer below the given parent or an earlier new
    layer, never leaves the picture empty, and stays within a fixed size. *)

From Stdlib Require Import Ascii.
From S2P Require Import Prelude RustStr RustColl Protocol TypeParser TypeLayers.
From stdpp Require Import options.

#[local] Arguments String.append : simpl never.

Lemma append_type_layers_unfold type_name parent prefix layers depth :
  append_type_layers type_name parent prefix layers depth =
  if (8 <=? depth)%N || (12 <=? len layers)%N then layers
  else type_layers type_name parent prefix depth (parse_type type_name)
         (fun t p l => append_type_layers t p prefix l (depth + 1)) layers.
Proof.
  unfold append_type_layers. destruct (N.leb_spec 8 depth) as [Hd|Hd]; simpl.
  - by replace (N.to_nat (8 - depth)) with 0 by lia.
  - replace (N.to_nat (8 - depth)) with (S (N.to_nat (8 - (depth + 1)))) by lia. simpl.
    by destruct (N.leb_spec 8 depth); [lia|].
Qed.

(** ** Ids *)

Definition colon_free (s : string) : bool :=
  match split_at_char (Ascii.eqb ":") s with
  | None => true
  | Some _ => false
  end.

Lemma split_colon n r :
  colon_free n = true -> split_at_char (Ascii.eqb ":") (n +:+ ":" +:+ r) = Some (n, r).
Proof.
  unfold colon_free. induction n as [|c n IH]; [done|]. cbn [split_at_char].
  change (String c n +:+ ":" +:+ r) with (String c (n +:+ ":" +:+ r)).
  cbn [split_at_char]. destruct (Ascii.eqb ":" c); [done|].
  destruct (split_at_char (Ascii.eqb ":") n) as [[? ?]|]; [done|]. intros _. by rewrite IH.
Qed.

Lemma child_id_inj prefix n1 d1 n2 d2 :
  colon_free n1 = true -> colon_free n2 = true ->
  child_id prefix n1 d1 = child_id prefix n2 d2 -> n1 = n2 /\ d1 = d2.
Proof.
  intros H1 H2 H. apply append_inj_l, (append_inj_l ":") in H.
  pose proof (f_equal (split_at_char (Ascii.eqb ":")) H) as E.
  rewrite !split_colon in E by done. injection E as -> E.
  split; [done|]. by apply (inj pretty).
Qed.

(** Layer names used at this depth or below, each once. *)
Definition fresh_keys (depth : N) (keys : list (string * N)) : Prop :=
  NoDup keys /\ Forall (fun k => colon_free k.1 = true /\ (depth <= k.2 < 8)%N) keys.

Definition key_id (prefix : string) (k : string * N) : string := child_id prefix k.1 k.2.

Definition at_depth (depth : N) (names : list string) : list (string * N) :=
  (fun n => (n, depth)) <$> names.

Lemma fresh_keys_ids prefix depth keys :
  fresh_keys depth keys -> NoDup (key_id prefix <$> keys).
Proof.
  intros [Hnd Hk]. apply NoDup_fmap_2_strong; [|done].
  rewrite Forall_forall in Hk.
  intros [n1 d1] [n2 d2] H1%Hk H2%Hk E. destruct H1 as [H1 _], H2 as [H2 _].
  apply child_id_inj in E as [? ?]; simpl in *; congruence.
Qed.

Lemma fresh_keys_extend depth pre keys post :
  (depth < 8)%N ->
  NoDup (pre ++ post) -> Forall (fun n => colon_free n = true) (pre ++ post) ->
  fresh_keys (depth + 1) keys ->
  fresh_keys depth (at_depth depth pre ++ keys ++ at_depth depth post).
Proof.
  intros Hd Hnd Hcf [Hk1 Hk2]. unfold at_depth. split.
  - assert (NoDup (at_depth depth (pre ++ post))) as Hat
      by (apply NoDup_fmap_2; [intros ? ? [=]; done|done]).
    unfold at_depth in Hat. rewrite fmap_app in Hat.
    apply NoDup_app in Hat as (Hpre & Hdisj & Hpost).
    rewrite Forall_forall in Hk2. rewrite !NoDup_app. split_and!; try done.
    + intros x Hx. rewrite not_elem_of_app. split; [|by apply Hdisj].
      intros Hx'%Hk2. apply list_elem_of_fmap in Hx as (n & -> & _). simpl in Hx'. lia.
    + intros x Hx%Hk2 (n & -> & _)%list_elem_of_fmap. simpl in Hx. lia.
  - apply Forall_app in Hcf as [Hpre Hpost].
    rewrite !Forall_app, !Forall_fmap. split_and!.
    + eapply Forall_impl; [exact Hpre|]. simpl. intros n ?. split; [done|lia].
    + eapply Forall_impl; [exact Hk2|]. simpl. intros k [? ?]. split; [done|lia].
    + eapply Forall_impl; [exact Hpost|]. simpl. intros n ?. split; [done|lia].
Qed.

(** ** Parents *)

Fixpoint parents_ok (seen : list string) (new : list TeachingLayer) : Prop :=
  match new with
  | [] => True
  | l :: new =>
      (exists p, tl_parent_suffix l = Some p /\ p ∈ seen) /\
      parents_ok (tl_id_suffix l :: seen) new
  end.

Lemma parents_ok_mono seen seen' new :
  seen ⊆ seen' -> parents_ok seen new -> parents_ok seen' new.
Proof.
  revert seen seen'; induction new as [|l new IH]; intros seen seen' Hs; simpl; [done|].
  intros [(p & ? & ?) Hn]. split; [naive_solver|]. eapply IH; [|exact Hn]. set_solver.
Qed.

Lemma parents_ok_app seen a b :
  parents_ok seen a -> parents_ok ((tl_id_suffix <$> a) ++ seen) b -> parents_ok seen (a ++ b).
Proof.
  revert seen; induction a as [|l a IH]; intros seen; simpl; [done|].
  intros [? Ha] Hb. split; [done|]. apply IH; [done|].
  eapply parents_ok_mono; [|exact Hb]. set_solver.
Qed.

(** [after] extends [before] by a tree of new layers below [parent]. *)
Definition grows (prefix parent : string) (depth : N) (before after : list TeachingLayer) : Prop :=
  exists new keys, after = before ++ new /\ tl_id_suffix <$> new = key_id prefix <$> keys /\
    fresh_keys depth keys /\ parents_ok [parent] new.

Lemma grows_refl prefix parent depth l : grows prefix parent depth l l.
Proof.
  exists [], []. rewrite app_nil_r. split_and!; try done. split; [constructor|done].
Qed.

(** One arm of the match: some layers at this depth, the layers of a recursive
    call below one of them, and possibly more layers at this depth. *)
Lemma grows_arm prefix parent depth before pre sub post after names_pre names_post keys below :
  (depth < 8)%N ->
  after = ((before ++ pre) ++ sub) ++ post ->
  tl_id_suffix <$> pre = key_id prefix <$> at_depth depth names_pre ->
  tl_id_suffix <$> post = key_id prefix <$> at_depth depth names_post ->
  NoDup (names_pre ++ names_post) ->
  Forall (fun n => colon_free n = true) (names_pre ++ names_post) ->
  tl_id_suffix <$> sub = key_id prefix <$> keys -> fresh_keys (depth + 1) keys ->
  parents_ok [below] sub -> below ∈ tl_id_suffix <$> pre ->
  parents_ok [parent] pre -> parents_ok ((tl_id_suffix <$> pre) ++ [parent]) post ->
  grows prefix parent depth before after.
Proof.
  intros Hd -> Hpre Hpost Hnd Hcf Hsub Hk Hbelow Hin Hp1 Hp2.
  exists (pre ++ sub ++ post), (at_depth depth names_pre ++ keys ++ at_depth depth names_post).
  split_and!.
  - by rewrite <- !app_assoc.
  - by rewrite !fmap_app, Hpre, Hsub, Hpost.
  - by apply fresh_keys_extend.
  - apply parents_ok_app; [done|]. apply parents_ok_app.
    + eapply parents_ok_mono; [|exact Hbelow]. set_solver.
    + eapply parents_ok_mono; [|exact Hp2]. set_solver.
Qed.

Lemma grows_leaf prefix parent depth before pre after names :
  (depth < 8)%N -> after = before ++ pre ->
  tl_id_suffix <$> pre = key_id prefix <$> at_depth depth names ->
  NoDup names -> Forall (fun n => colon_free n = true) names ->
  parents_ok [parent] pre -> grows prefix parent depth before after.
Proof.
  intros Hd -> Hpre Hnd Hcf Hp. exists pre, (at_depth depth names ++ [] ++ at_depth depth []).
  split_and!; try done.
  - by rewrite !app_nil_r.
  - apply fresh_keys_extend; rewrite ?app_nil_r; try done. split; [constructor|done].
Qed.

Lemma grows_node prefix parent depth before pre sub after names keys below :
  (depth < 8)%N -> after = (before ++ pre) ++ sub ->
  tl_id_suffix <$> pre = key_id prefix <$> at_depth depth names ->
  NoDup names -> Forall (fun n => colon_free n = true) names ->
  tl_id_suffix <$> sub = key_id prefix <$> keys -> fresh_keys (depth + 1) keys ->
  parents_ok [below] sub -> below ∈ tl_id_suffix <$> pre ->
  parents_ok [parent] pre -> grows prefix parent depth before after.
Proof.
  intros Hd -> Hpre Hnd Hcf Hsub Hk Hb Hin Hp.
  apply (grows_arm _ _ _ _ pre sub [] _ names [] keys below); rewrite ?app_nil_r; done.
Qed.

Section arms.
Context (type_name parent prefix : string) (depth : N) (parsed : ParsedType).
Context (recurse : string -> string -> list TeachingLayer -> list TeachingLayer).
Context (Hdepth : (depth < 8)%N).
Context (Hrec : forall t p l, grows prefix p (depth + 1) l (recurse t p l)).

(** The side conditions of a concrete arm. *)
Ltac arm_side :=
  first
    [ done
    | solve [apply (bool_decide_unpack _); vm_compute; exact I]
    | solve [simpl; split_and?; eexists; split; [done|]; set_solver]
    | solve [simpl; set_solver] ].

Ltac expose f := unfold f, push_teaching_layer; cbv beta iota zeta; rewrite <- ?app_assoc.

Ltac leaf names :=
  eapply (grows_leaf _ _ _ _ _ _ names); [done|reflexivity|arm_side..].

Ltac node names :=
  match goal with
  | |- context [recurse ?t ?p ?l] =>
      destruct (Hrec t p l) as (new & keys & Hnew & Hids & Hkeys & Hparents); rewrite Hnew;
      eapply (grows_node _ _ _ _ _ new _ names keys p); [done|reflexivity|arm_side..]
  end.

Lemma reference_grows layers :
  grows prefix parent depth layers
    (reference_layers type_name parent prefix depth parsed recurse layers).
Proof using All.
  expose reference_layers. destruct (contains _ _); [|destruct (_ || _)].
  - node ["reference"; "dyn-data"; "vtable"].
  - leaf ["reference"; "slice-data"; "slice-length"].
  - leaf ["reference"; "referent"].
Qed.

Lemma vec_grows layers :
  grows prefix parent depth layers
    (vec_layers type_name parent prefix depth parsed layers).
Proof using All.
  expose vec_layers. leaf ["vec-header"; "vec-buffer"; "element-zero"].
Qed.

Lemma container_grows layers :
  grows prefix parent depth layers
    (container_layers type_name parent prefix depth parsed layers).
Proof using All.
  expose container_layers. leaf ["container-header"; "container-storage"].
Qed.

Lemma string_grows layers :
  grows prefix parent depth layers
    (string_layers type_name parent prefix depth layers).
Proof using All.
  expose string_layers. leaf ["string-header"; "string-buffer"].
Qed.

Lemma box_grows layers :
  grows prefix parent depth layers
    (box_layers type_name parent prefix depth parsed recurse layers).
Proof using All.
  expose box_layers. destruct (contains _ _).
  - leaf ["box-handle"; "box-allocation"; "box-vtable"].
  - node ["box-handle"; "box-allocation"].
Qed.

Lemma shared_grows layers :
  grows prefix parent depth layers
    (shared_layers type_name parent prefix depth parsed recurse layers).
Proof using All.
  expose shared_layers. destruct (contains _ _).
  - leaf ["shared-handle"; "shared-allocation"; "shared-vtable"].
  - node ["shared-handle"; "shared-allocation"].
Qed.

Lemma weak_grows layers :
  grows prefix parent depth layers
    (weak_layers type_name parent prefix depth parsed layers).
Proof using All.
  expose weak_layers. leaf ["weak-handle"; "weak-control"].
Qed.

Lemma pin_grows layers :
  grows prefix parent depth layers
    (pin_layers type_name parent prefix depth parsed recurse layers).
Proof using All.
  expose pin_layers. node ["pin"].
Qed.

Lemma cell_grows layers :
  grows prefix parent depth layers
    (cell_layers type_name parent prefix depth parsed recurse layers).
Proof using All.
  expose cell_layers. node ["cell"].
Qed.

Lemma lock_grows layers :
  grows prefix parent depth layers
    (lock_layers type_name parent prefix depth parsed recurse layers).
Proof using All.
  expose lock_layers. node ["lock"].
Qed.

Lemma guard_grows layers :
  grows prefix parent depth layers
    (guard_layers type_name parent prefix depth parsed layers).
Proof using All.
  expose guard_layers. leaf ["guard"].
Qed.

Lemma raw_pointer_grows layers :
  grows prefix parent depth layers
    (raw_pointer_layers type_name parent prefix depth parsed layers).
Proof using All.
  expose raw_pointer_layers. leaf ["raw-pointer"; "raw-target"].
Qed.

Lemma cow_grows layers :
  grows prefix parent depth layers
    (cow_layers type_name parent prefix depth parsed layers).
Proof using All.
  expose cow_layers. leaf ["cow"; "cow-borrowed"; "cow-owned"].
Qed.

Lemma future_grows layers :
  grows prefix parent depth layers
    (future_layers type_name parent prefix depth layers).
Proof using All.
  expose future_layers. leaf ["future"; "saved-locals"; "suspension"].
Qed.

Lemma closure_grows layers :
  grows prefix parent depth layers
    (closure_layers type_name parent prefix depth layers).
Proof using All.
  expose closure_layers. leaf ["closure"; "captures"].
Qed.

Lemma dyn_grows layers :
  grows prefix parent depth layers
    (dyn_layers type_name parent prefix depth layers).
Proof using All.
  expose dyn_layers. leaf ["dyn-fat-pointer"; "dyn-data"; "dyn-vtable"].
Qed.

Lemma value_grows layers :
  grows prefix parent depth layers
    (value_layers type_name parent prefix depth parsed layers).
Proof using All.
  expose value_layers. leaf ["value"].
Qed.

Lemma conditional_grows layers :
  grows prefix parent depth layers
    (conditional_layers type_name parent prefix depth parsed recurse layers).
Proof using All.
  unfold conditional_layers, variant_layers, push_teaching_layer.
  destruct (parsed_arguments parsed) as [|a [|b args]]; cbn; rewrite <- ?app_assoc.
  - leaf ["conditional"].
  - node ["conditional"; "variant-0"].
  - rewrite take_0. cbn.
    match goal with
    | |- context [recurse ?t ?p ?l] =>
        destruct (Hrec t p l) as (new & keys & Hnew & Hids & Hkeys & Hparents); rewrite Hnew;
        eapply (grows_arm _ _ _ _ _ new _ _ ["conditional"; "variant-0"] ["variant-1"] keys p);
          [done|reflexivity|arm_side..]
    end.
Qed.

Lemma type_layers_grows layers :
  grows prefix parent depth layers
    (type_layers type_name parent prefix depth parsed recurse layers).
Proof using All.
  unfold type_layers.
  repeat (match goal with |- context [if ?b then _ else _] => destruct b end;
          [auto using reference_grows, vec_grows, container_grows, string_grows, box_grows,
             shared_grows, weak_grows, pin_grows, cell_grows, lock_grows, guard_grows,
             raw_pointer_grows, conditional_grows, cow_grows, future_grows, closure_grows,
             dyn_grows|]).
  apply value_grows.
Qed.
End arms.

Lemma append_type_layers_grows type_name parent prefix layers depth :
  grows prefix parent depth layers (append_type_layers type_name parent prefix layers depth).
Proof.
  remember (8 - depth)%N as fuel eqn:Hfuel. revert type_name parent layers depth Hfuel.
  induction fuel as [|fuel IH] using N.peano_ind; intros type_name parent layers depth Hfuel;
    rewrite append_type_layers_unfold; destruct (N.leb_spec 8 depth); simpl;
    try apply grows_refl; try lia.
  destruct (N.leb_spec 12 (len layers)); [apply grows_refl|].
  apply type_layers_grows; [done|]. intros t p l. apply IH. lia.
Qed.

(** ** Size *)

(** With [n] layers already there, at most this many afterwards: a call that is
    let in adds three layers at its own depth, and only the two variants of an
    [Option]/[Result] add one more after the recursive call. *)
Definition size_bound (n : N) : N := if (12 <=? n)%N then n else 14 + (12 - n) / 2.

Lemma size_bound_step n : (n < 12)%N ->
  (n + 3 <= size_bound n)%N /\
  (size_bound (n + 1) <= size_bound n)%N /\
  (size_bound (n + 2) + 1 <= size_bound n)%N /\
  (size_bound (n + 3) <= size_bound n)%N.
Proof.
  intros Hn.
  assert (n ∈ [0; 1; 2; 3; 4; 5; 6; 7; 8; 9; 10; 11]%N) as Hin by (rewrite !elem_of_cons; lia).
  repeat (apply elem_of_cons in Hin as [->|Hin]; [vm_compute; repeat split; discriminate|]).
  by apply not_elem_of_nil in Hin.
Qed.

Section sizes.
Context (type_name parent prefix : string) (depth : N) (parsed : ParsedType).
Context (recurse : string -> string -> list TeachingLayer -> list TeachingLayer).
Context (Hrec : forall t p l, (len l <= len (recurse t p l) <= size_bound (len l))%N).

Local Definition sized (before after : list TeachingLayer) : Prop :=
  (len before < len after <= size_bound (len before))%N.

Lemma len_snoc {A} (l : list A) a : len (l ++ [a]) = (len l + 1)%N.
Proof using Type. unfold len. rewrite length_app. simpl. lia. Qed.

(** Expose the pushes, bound the recursive call, count. *)
Ltac size :=
  intros; unfold sized, push_teaching_layer; cbv beta iota zeta;
  match goal with Hn : (len ?l < 12)%N |- _ => destruct (size_bound_step _ Hn) as (? & ? & ? & ?) end;
  repeat match goal with
         | |- context [recurse ?t ?p ?l] =>
             let R := fresh "R" in
             pose proof (Hrec t p l) as R; rewrite !len_snoc in R;
             generalize dependent (recurse t p l); intros
         end;
  rewrite ?len_snoc; rewrite <- ?N.add_assoc in *;
  change (1 + (1 + 1))%N with 3%N in *; change (1 + 1)%N with 2%N in *; lia.

Lemma reference_size l : (len l < 12)%N ->
  sized l (reference_layers type_name parent prefix depth parsed recurse l).
Proof using All. unfold reference_layers. destruct (contains _ _); [|destruct (_ || _)]; size. Qed.

Lemma vec_size l : (len l < 12)%N ->
  sized l (vec_layers type_name parent prefix depth parsed l).
Proof using All. unfold vec_layers. size. Qed.

Lemma container_size l : (len l < 12)%N ->
  sized l (container_layers type_name parent prefix depth parsed l).
Proof using All. unfold container_layers. size. Qed.

Lemma string_size l : (len l < 12)%N ->
  sized l (string_layers type_name parent prefix depth l).
Proof using All. unfold string_layers. size. Qed.

Lemma box_size l : (len l < 12)%N ->
  sized l (box_layers type_name parent prefix depth parsed recurse l).
Proof using All. unfold box_layers. destruct (contains _ _); size. Qed.

Lemma shared_size l : (len l < 12)%N ->
  sized l (shared_layers type_name parent prefix depth parsed recurse l).
Proof using All. unfold shared_layers. destruct (contains _ _); size. Qed.

Lemma weak_size l : (len l < 12)%N ->
  sized l (weak_layers type_name parent prefix depth parsed l).
Proof using All. unfold weak_layers. size. Qed.

Lemma pin_size l : (len l < 12)%N ->
  sized l (pin_layers type_name parent prefix depth parsed recurse l).
Proof using All. unfold pin_layers. size. Qed.

Lemma cell_size l : (len l < 12)%N ->
  sized l (cell_layers type_name parent prefix depth parsed recurse l).
Proof using All. unfold cell_layers. size. Qed.

Lemma lock_size l : (len l < 12)%N ->
  sized l (lock_layers type_name parent prefix depth parsed recurse l).
Proof using All. unfold lock_layers. size. Qed.

Lemma guard_size l : (len l < 12)%N ->
  sized l (guard_layers type_name parent prefix depth parsed l).
Proof using All. unfold guard_layers. size. Qed.

Lemma raw_pointer_size l : (len l < 12)%N ->
  sized l (raw_pointer_layers type_name parent prefix depth parsed l).
Proof using All. unfold raw_pointer_layers. size. Qed.

Lemma cow_size l : (len l < 12)%N ->
  sized l (cow_layers type_name parent prefix depth parsed l).
Proof using All. unfold cow_layers. size. Qed.

Lemma future_size l : (len l < 12)%N ->
  sized l (future_layers type_name parent prefix depth l).
Proof using All. unfold future_layers. size. Qed.

Lemma closure_size l : (len l < 12)%N ->
  sized l (closure_layers type_name parent prefix depth l).
Proof using All. unfold closure_layers. size. Qed.

Lemma dyn_size l : (len l < 12)%N ->
  sized l (dyn_layers type_name parent prefix depth l).
Proof using All. unfold dyn_layers. size. Qed.

Lemma value_size l : (len l < 12)%N ->
  sized l (value_layers type_name parent prefix depth parsed l).
Proof using All. unfold value_layers. size. Qed.

Lemma conditional_size l : (len l < 12)%N ->
  sized l (conditional_layers type_name parent prefix depth parsed recurse l).
Proof using All.
  unfold conditional_layers, variant_layers.
  destruct (parsed_arguments parsed) as [|a [|b args]];
    cbn -[show N.add N.lt]; rewrite ?take_0; cbn -[show N.add N.lt];
    change (N.succ 0 =? 0)%N with false; size.
Qed.

Lemma type_layers_size l : (len l < 12)%N ->
  sized l (type_layers type_name parent prefix depth parsed recurse l).
Proof using All.
  intros Hn. unfold type_layers.
  repeat (match goal with |- context [if ?b then _ else _] => destruct b end;
          [auto using reference_size, vec_size, container_size, string_size, box_size, shared_size, weak_size, pin_size, cell_size, lock_size, guard_size, raw_pointer_size, cow_size, future_size, closure_size, dyn_size, conditional_size|]).
  by apply value_size.
Qed.
End sizes.

Lemma append_type_layers_size type_name parent prefix layers depth :
  (len layers <= len (append_type_layers type_name parent prefix layers depth)
   <= size_bound (len layers))%N.
Proof.
  remember (8 - depth)%N as fuel eqn:Hfuel. revert type_name parent layers depth Hfuel.
  assert (forall l : list TeachingLayer, len l <= len l <= size_bound (len l))%N as Hrefl.
  { intros l. unfold size_bound. generalize ((12 - len l) / 2)%N. intros k.
    destruct (N.leb_spec 12 (len l)); lia. }
  induction fuel as [|fuel IH] using N.peano_ind; intros type_name parent layers depth Hfuel;
    rewrite append_type_layers_unfold; destruct (N.leb_spec 8 depth); simpl; try done; try lia.
  destruct (N.leb_spec 12 (len layers)); [done|].
  assert (forall t p l, len l <= len (append_type_layers t p prefix l (depth + 1))
    <= size_bound (len l))%N as Hrec by (intros; apply IH; lia).
  destruct (type_layers_size type_name parent prefix depth (parse_type type_name) _ Hrec layers);
    [done|]. split; [by apply N.lt_le_incl|done].
Qed.

(** ** The properties of the expansion *)

(** [append_type_layers] satisfies the recursive equation of the source; in
    particular it is total and the fuel is never what stops it. *)
Theorem append_type_layers_equation type_name parent prefix layers depth :
  append_type_layers type_name parent prefix layers depth =
  if (8 <=? depth)%N || (12 <=? len layers)%N then layers
  else type_layers type_name parent prefix depth (parse_type type_name)
         (fun t p l => append_type_layers t p prefix l (depth + 1)) layers.
Proof. apply append_type_layers_unfold. Qed.

(** Whatever the type name is, expanding it from scratch gives layers with
    pairwise distinct ids, each hanging below the given parent or below a layer
    produced earlier: the layers form a tree rooted at [parent]. *)
Theorem type_layers_form_a_tree type_name parent prefix depth :
  let layers := append_type_layers type_name parent prefix [] depth in
  NoDup (tl_id_suffix <$> layers) /\ parents_ok [parent] layers.
Proof.
  destruct (append_type_layers_grows type_name parent prefix [] depth)
    as (new & keys & -> & Hids & Hkeys & Hparents).
  simpl. split; [|done]. rewrite Hids. by eapply fresh_keys_ids.
Qed.

(** The picture is never empty and never large: between 1 and 20 layers for
    any type name, although the source tests its limit of 12 only on entry. *)
Theorem type_layers_bounded type_name parent prefix :
  (1 <= len (append_type_layers type_name parent prefix [] 0) <= 20)%N.
Proof.
  rewrite append_type_layers_unfold. simpl.
  destruct (type_layers_size type_name parent prefix 0 (parse_type type_name)
    (fun t p l => append_type_layers t p prefix l (0 + 1))
    (fun t p l => append_type_layers_size t p prefix l (0 + 1)) []); [done|].
  split; [|done]. by apply N.le_succ_l in H.
Qed.

(** The limit of 12 layers is exceeded on a real shape: nested [Result]s
    under a [Pin] reach 19 layers. *)
Theorem type_layers_exceed_twelve :
  len (append_type_layers
    "Pin<Result<Result<Result<Result<Result<Cow<T>, E>, E>, E>, E>, E>>" "focus" "type" [] 0)
  = 19%N.
Proof. vm_compute. reflexivity. Qed.
