(* ===== verification/Topology.v ===== *)
(** * The topology scene: nodes, edges, state at a step, order and layout

    The scene types of
    [zed-rust/crates/rust_workbench/src/ownership_topology.rs] and its
    operations on a scene that is already built: columns and roles, the state
    of the compiler's memory graph at a selected step, the breadth-first order
    that picks the nodes to keep, and the pixel layout in [u16].  The loops of
    the breadth-first searches run on fuel and return [None] when it runs out;
    [TopologySpec] proves that it never does. *)

From Stdlib Require Import Ascii.
From S2P Require Import Prelude RustStr RustColl Protocol.
From stdpp Require Import options.

Definition TOPOLOGY_CANVAS_WIDTH : N := 420.
Definition TOPOLOGY_NODE_HEIGHT : N := 78.
Definition TOPOLOGY_ROW_START : N := 8.
Definition TOPOLOGY_ROW_STRIDE : N := 102.

Inductive TopologyColumn : Type :=
| ColumnLocal
| ColumnWrapper
| ColumnTarget.

#[export] Instance TopologyColumn_eq_dec : EqDecision TopologyColumn.
Proof. solve_decision. Defined.

Record TopologyRect : Type := mk_rect {
  rect_x : N;
  rect_y : N;
  rect_width : N;
  rect_height : N
}.
Definition default_rect : TopologyRect := mk_rect 0 0 0 0.

Record TopologyNode : Type := mk_tnode {
  tnode_id : string;
  tnode_place : string;
  tnode_label : string;
  tnode_type_name : string;
  tnode_detail : string;
  tnode_kind : string;
  tnode_storage : string;
  tnode_state : string;
  tnode_provenance : string;
  tnode_column : TopologyColumn;
  tnode_range : option Range;
  tnode_rect : TopologyRect
}.

Record TopologyEdge : Type := mk_tedge {
  tedge_id : string;
  tedge_source : string;
  tedge_target : string;
  tedge_label : string;
  tedge_provenance : string;
  tedge_active : bool;
  tedge_range : option Range;
  tedge_route : list (N * N);
  tedge_label_position : N * N
}.

Record TopologyMoment : Type := mk_moment {
  moment_title : string;
  moment_explanation : string;
  moment_range : Range;
  moment_path_marker : option string
}.

Record OwnershipTopologyScene : Type := mk_scene {
  scene_title : string;
  scene_summary : string;
  scene_nodes : list TopologyNode;
  scene_edges : list TopologyEdge;
  scene_moments : list TopologyMoment;
  scene_selected_step : N;
  scene_access_lines : list string;
  scene_canvas_height : N;
  scene_expanded : bool;
  scene_truncated : bool;
  scene_legacy_limited : bool
}.

(** ** Wording and classification *)

Definition readable_access (access : string) : string :=
  if access =s "shared_borrow" then "shared borrow (&self / &T)"
  else if access =s "mutable_borrow" then "exclusive mutable borrow (&mut self / &mut T)"
  else if access =s "move" then "ownership (self / T)"
  else "the declared parameter contracts".

Definition readable_available_access (access : string) : string :=
  if access =s "shared_borrow" then "shared access"
  else if access =s "immutable_binding" then "an immutable binding"
  else if access =s "shared_owner" then "shared-owner access"
  else if access =s "mutable_receiver_with_blocked_path" then
    "a mutable receiver with a blocked inner path"
  else if access =s "owned_receiver_with_blocked_path" then
    "an owned receiver with a blocked inner path"
  else "insufficient mutable access".

Definition selected_mutation_operation (model : OwnershipModel) :
    option OwnershipOperationInsight :=
  or_else
    (requirement ← model_mutation_requirement model;
     find_first (fun operation => operation_id operation =s requirement_operation_id requirement)
       (model_operations model))
    (fun _ =>
       find_first (fun operation => operation_required_access operation =s "mutable_borrow")
         (model_operations model)).

Definition beginner_memory_role (node : TopologyNode) : string :=
  let kind := tnode_kind node in
  if kind =s "binding" then "Local variable"
  else if kind =s "handle" then "Inline owner handle"
  else if kind =s "control_block" then "Shared heap allocation"
  else if one_of kind ["borrow_flag"; "gate"] then "Runtime borrow gate"
  else if kind =s "buffer" then "Heap element buffer"
  else if kind =s "lock_state" then "Runtime lock state"
  else if kind =s "guard" then "Temporary access guard"
  else if (kind =s "wrapper")
          && (contains "Vec" (tnode_label node) || starts_with "Vec<" (tnode_type_name node))
  then "Inline collection header"
  else if kind =s "wrapper" then "Inline wrapper"
  else if one_of kind ["heap_allocation"; "allocation"] then "Heap allocation"
  else if tnode_storage node =s "heap" then "Heap value"
  else if tnode_storage node =s "inline" then "Inline value"
  else "Value layer".

Definition beginner_relation_label (relation : string) : string :=
  if relation =s "stores" then "holds this handle"
  else if relation =s "wraps" then "wraps"
  else if relation =s "owns" then "owns"
  else if relation =s "shares_allocation" then "shares ownership of"
  else if relation =s "weak_reference" then "weakly observes"
  else if relation =s "contains" then "contains"
  else if relation =s "guards_access" then "controls access to"
  else if relation =s "owns_buffer" then "owns the element storage"
  else if relation =s "points_to" then "points to"
  else if relation =s "borrow_shared" then "temporarily reads"
  else if relation =s "borrow_mutable" then "temporarily edits"
  else if relation =s "reborrow" then "borrows again from"
  else if relation =s "moved_to" then "transferred control to"
  else replace_char "_" " " relation.

Definition beginner_memory_state (state : string) : string :=
  if contains "reject" state || contains "invalid" state || contains "blocked" state then
    "Operation blocked here"
  else if contains "mutable" state || contains "exclusive" state then
    "Exclusive edit access is active"
  else if contains "borrow" state || contains "read-only" state then
    "Temporary read access is active"
  else if contains "move" state || contains "unavailable" state then
    "Control moved to another place"
  else if contains "drop" state || contains "dead" state then
    "This layer has been cleaned up"
  else if contains "available" state || contains "alive" state then "Available to use"
  else "Current state: " +:+ replace_char "_" " " state.

Definition topology_column (kind storage : string) : TopologyColumn :=
  if (storage =s "heap")
     || one_of kind ["heap_allocation"; "allocation"; "buffer"; "control_block"]
  then ColumnTarget
  else if one_of kind ["handle"; "wrapper"; "inline_value"; "borrow_flag"; "lock_state"; "guard";
                       "metadata"; "wrapper_state"; "gate"]
          || (storage =s "inline")
  then ColumnWrapper
  else ColumnLocal.

Definition topology_column_title (column : TopologyColumn) : string :=
  match column with
  | ColumnLocal => "VARIABLE"
  | ColumnWrapper => "INLINE WRAPPER"
  | ColumnTarget => "HEAP / TARGET"
  end.

(** ** The compiler graph at a selected step *)

Definition snapshots_until (model : OwnershipModel) (selected_step : N) :
    list OwnershipMemorySnapshot :=
  take_N (saturating_add 64 selected_step 1) (graph_snapshots (model_memory_graph model)).

Definition topology_state_at_step (model : OwnershipModel) (selected_step : N) :
    gmap string string :=
  let states :=
    collect_into mnode_id mnode_state ∅ (graph_nodes (model_memory_graph model)) in
  foldl (fun states snapshot => collect_into delta_node_id delta_to states (msnapshot_deltas snapshot))
    states
    (snapshots_until model selected_step).

Definition delta_removes (edge : OwnershipMemoryEdge) (delta : OwnershipStateDelta) : bool :=
  str_opt_eqb (delta_relation_removed delta) (Some (medge_relation edge))
  && ((delta_node_id delta =s medge_source edge) || (delta_node_id delta =s medge_target edge)).

Definition topology_edge_active_at_step (edge : OwnershipMemoryEdge) (model : OwnershipModel)
    (selected_step : N) : bool :=
  let snapshots := snapshots_until model selected_step in
  let created :=
    match medge_event_id edge with
    | None => true
    | Some event_id => existsb (fun snapshot => msnapshot_event_id snapshot =s event_id) snapshots
    end in
  let removed :=
    existsb (fun snapshot => existsb (delta_removes edge) (msnapshot_deltas snapshot)) snapshots in
  created && negb removed.

Definition topology_detail (node : OwnershipMemoryNode) : string :=
  let layout :=
    match mnode_size node, mnode_align node with
    | Some size, Some align => show size +:+ " B · align " +:+ show align
    | Some size, None => show size +:+ " B"
    | None, _ => "layout unknown"
    end in
  replace_char "_" " " (mnode_storage node) +:+ " · " +:+ layout.

Definition topology_moment_explanation (kind place : string) : string :=
  if one_of kind ["move"; "partial_move"] then
    "Ownership leaves `" +:+ place +:+ "` here; its destination becomes the usable owner."
  else if kind =s "clone" then
    "A new handle is created from `" +:+ place
    +:+ "`; shared allocations are not duplicated."
  else if kind =s "borrow_shared" then
    "A read-only loan from `" +:+ place +:+ "` starts here."
  else if one_of kind ["borrow_mutable"; "borrow_activate"] then
    "An exclusive mutable loan from `" +:+ place +:+ "` becomes active here."
  else if kind =s "borrow_end" then
    "The loan from `" +:+ place +:+ "` ends after its final use."
  else if one_of kind ["invalid_use"; "conflict"] then
    "Rust rejects this operation because `" +:+ place +:+ "` lacks the required access."
  else if kind =s "reinitialize" then "A new value makes `" +:+ place +:+ "` usable again."
  else if kind =s "drop" then
    "The value owned through `" +:+ place +:+ "` is destroyed here."
  else "The ownership state of `" +:+ place +:+ "` changes here.".

(** ** Breadth-first selection of the nodes to keep *)

Definition relation_priority (relation : string) : N :=
  if relation =s "stores" then 0
  else if relation =s "wraps" then 1
  else if one_of relation ["owns"; "shares_allocation"; "weak_reference"] then 2
  else if one_of relation ["contains"; "guards_access"] then 3
  else if one_of relation ["owns_buffer"; "points_to"] then 4
  else if one_of relation ["borrow_shared"; "borrow_mutable"; "reborrow"] then 5
  else if relation =s "moved_to" then 6
  else 7.

Definition place_root (place : string) : string :=
  first_segment (fun c => Ascii.eqb c "." || Ascii.eqb c "[") (trim_start_matches "*" place).

Definition is_binding (node : TopologyNode) : bool := tnode_kind node =s "binding".

Definition matches_selection (selected_names : list string) (node : TopologyNode) : bool :=
  existsb (fun selected =>
    (place_root (tnode_place node) =s place_root selected)
    || contains (place_root selected) (tnode_label node)) selected_names.

Definition semantic_roots (nodes : list TopologyNode) (selected_names : list string) :
    list string :=
  let roots :=
    tnode_id <$> retain (matches_selection selected_names) (retain is_binding nodes) in
  let roots :=
    match roots with
    | [] => tnode_id <$> take 1 (retain is_binding nodes)
    | _ => roots
    end in
  match roots with
  | [] => match head nodes with Some node => [tnode_id node] | None => [] end
  | _ => roots
  end.

(** The tuples [(incoming, priority, other end)] of the edges at [id]. *)
Definition adjacent_entry (id : string) (edge : TopologyEdge) : option (bool * (N * string)) :=
  if tedge_source edge =s id then
    Some (false, (relation_priority (tedge_label edge), tedge_target edge))
  else if tedge_target edge =s id then
    Some (true, (relation_priority (tedge_label edge), tedge_source edge))
  else None.

Definition adjacent_leb : bool * (N * string) -> bool * (N * string) -> bool :=
  lex_leb bool_cmp (lex_leb N.compare String.leb).

Definition adjacent_of (edges : list TopologyEdge) (id : string) : list string :=
  (fun entry => entry.2.2) <$> sort_by adjacent_leb (omap (adjacent_entry id) edges).

Fixpoint semantic_loop (fuel : nat) (edges : list TopologyEdge) (node_limit : N)
    (queue : list string) (visited : gset string) (selected : list string) :
    option (list string) :=
  match fuel with
  | O => None
  | S fuel =>
      match queue with
      | [] => Some selected
      | id :: queue =>
          if bool_decide (id ∈ visited) then
            semantic_loop fuel edges node_limit queue visited selected
          else
            let visited := {[id]} ∪ visited in
            let selected := selected ++ [id] in
            if (node_limit <=? len selected)%N then Some selected
            else
              let next :=
                retain (fun other => negb (bool_decide (other ∈ visited))) (adjacent_of edges id) in
              semantic_loop fuel edges node_limit (queue ++ next) visited selected
      end
  end.

(** Every id the search can meet. *)
Definition edge_ends (edges : list TopologyEdge) : list string :=
  (tedge_source <$> edges) ++ (tedge_target <$> edges).

Definition search_fuel (roots : list string) (edges : list TopologyEdge) : nat :=
  S (length roots + length (roots ++ edge_ends edges) * length edges).

Definition semantic_node_order (nodes : list TopologyNode) (edges : list TopologyEdge)
    (selected_names : list string) (node_limit : N) : list string :=
  if (node_limit =? 0)%N then []
  else
    let roots := semantic_roots nodes selected_names in
    default [] (semantic_loop (search_fuel roots edges) edges node_limit roots ∅ []).

(** ** Layout *)

Definition u16_try_from (n : N) : option N := if (n <=? umax 16)%N then Some n else None.

Definition row_y (row : N) : N :=
  saturating_add 16
    (saturating_mul 16 (default (umax 16) (u16_try_from row)) TOPOLOGY_ROW_STRIDE)
    TOPOLOGY_ROW_START.

Definition column_span (column : TopologyColumn) : N * N :=
  match column with
  | ColumnLocal => (8, 404)%N
  | ColumnWrapper => (36, 376)%N
  | ColumnTarget => (64, 348)%N
  end.

Definition with_rect (node : TopologyNode) (rect : TopologyRect) : TopologyNode :=
  mk_tnode (tnode_id node) (tnode_place node) (tnode_label node) (tnode_type_name node)
    (tnode_detail node) (tnode_kind node) (tnode_storage node) (tnode_state node)
    (tnode_provenance node) (tnode_column node) (tnode_range node) rect.

Definition node_rect (row : N) (column : TopologyColumn) : TopologyRect :=
  let '(x, width) := column_span column in
  mk_rect x (row_y row) width TOPOLOGY_NODE_HEIGHT.

Definition layout_nodes (nodes : list TopologyNode) : list TopologyNode :=
  (fun '(row, node) => with_rect node (node_rect row (tnode_column node))) <$> enumerate nodes.

Definition node_rects (nodes : list TopologyNode) : gmap string TopologyRect :=
  collect_into tnode_id tnode_rect ∅ nodes.

Definition with_route (edge : TopologyEdge) (route : list (N * N)) (label_position : N * N) :
    TopologyEdge :=
  mk_tedge (tedge_id edge) (tedge_source edge) (tedge_target edge) (tedge_label edge)
    (tedge_provenance edge) (tedge_active edge) (tedge_range edge) route label_position.

Definition route_down (source target : TopologyRect) : list (N * N) * (N * N) :=
  let source_center_x := saturating_add 16 (rect_x source) (rect_width source / 2) in
  let target_center_x := saturating_add 16 (rect_x target) (rect_width target / 2) in
  let start := (source_center_x, saturating_add 16 (rect_y source) (rect_height source)) in
  let finish := (target_center_x, rect_y target) in
  let middle_y := saturating_add 16 start.2 (saturating_sub finish.2 start.2 / 2) in
  ([start; (start.1, middle_y); (finish.1, middle_y); finish],
   (saturating_add 16 (N.min start.1 finish.1) 8, saturating_sub middle_y 8)).

Definition route_side (source target : TopologyRect) : list (N * N) * (N * N) :=
  let side_x := saturating_sub TOPOLOGY_CANVAS_WIDTH 2 in
  let start := (saturating_add 16 (rect_x source) (rect_width source),
                saturating_add 16 (rect_y source) (rect_height source / 2)) in
  let finish := (saturating_add 16 (rect_x target) (rect_width target),
                 saturating_add 16 (rect_y target) (rect_height target / 2)) in
  ([start; (side_x, start.2); (side_x, finish.2); finish],
   (saturating_sub side_x 104, saturating_add 16 (N.min start.2 finish.2) 8)).

Definition layout_edge (rects : gmap string TopologyRect) (edge : TopologyEdge) : TopologyEdge :=
  match rects !! tedge_source edge, rects !! tedge_target edge with
  | Some source, Some target =>
      let '(route, label_position) :=
        if (rect_y source <? rect_y target)%N then route_down source target
        else route_side source target in
      with_route edge route label_position
  | _, _ => edge
  end.

(** Returns the nodes and edges as the source leaves them, and the height. *)
Definition layout_topology_scene (nodes : list TopologyNode) (edges : list TopologyEdge) :
    list TopologyNode * list TopologyEdge * N :=
  let nodes := layout_nodes nodes in
  let rects := node_rects nodes in
  (nodes, layout_edge rects <$> edges, row_y (N.max (len nodes) 1)).
