(* ===== verification/TopologySpec.v ===== *)
(** * Properties of the scene operations

    The breadth-first selection is total, duplicate free, bounded, sound and
    complete with respect to reachability; the layout places the rows without
    overlap inside the canvas and routes every edge orthogonally; the state
    replay gives each node the state of its last change. *)

From S2P Require Import Prelude RustStr RustColl Protocol Topology.
From stdpp Require Import options.

(** ** Selection *)

(** Two ids joined by an edge, in either direction. *)
Definition linked (edges : list TopologyEdge) (a b : string) : Prop :=
  exists e, e ∈ edges /\
    (tedge_source e = a /\ tedge_target e = b \/ tedge_target e = a /\ tedge_source e = b).

Definition reachable (roots : list string) (edges : list TopologyEdge) (x : string) : Prop :=
  exists r, r ∈ roots /\ rtc (linked edges) r x.

Lemma adjacent_of_length edges id : length (adjacent_of edges id) <= length edges.
Proof.
  unfold adjacent_of. rewrite length_fmap, sort_by_length.
  induction edges as [|e edges IH]; [done|].
  change (omap (adjacent_entry id) (e :: edges)) with
    (match adjacent_entry id e with
     | Some y => y :: omap (adjacent_entry id) edges
     | None => omap (adjacent_entry id) edges
     end).
  destruct (adjacent_entry id e); cbn [length]; lia.
Qed.

Lemma adjacent_of_sound edges id x : x ∈ adjacent_of edges id -> linked edges id x.
Proof.
  unfold adjacent_of. intros ([i [p y]] & -> & Hy)%list_elem_of_fmap.
  rewrite elem_of_sort_by in Hy. apply list_elem_of_omap in Hy as (e & He & Hentry).
  exists e. split; [done|]. unfold adjacent_entry in Hentry.
  destruct (String.eqb_spec (tedge_source e) id); [naive_solver|].
  destruct (String.eqb_spec (tedge_target e) id); naive_solver.
Qed.

Lemma adjacent_of_complete edges id x :
  linked edges id x -> x = id \/ x ∈ adjacent_of edges id.
Proof.
  intros (e & He & Hends). destruct (decide (x = id)) as [|Hne]; [by left|right].
  unfold adjacent_of. apply list_elem_of_fmap.
  assert (exists entry, adjacent_entry id e = Some entry /\ entry.2.2 = x) as (entry & Hentry & <-).
  { unfold adjacent_entry. destruct Hends as [[-> <-]|[<- <-]].
    - rewrite str_eqb_refl. eauto.
    - destruct (String.eqb_spec (tedge_source e) (tedge_target e)); [congruence|].
      rewrite str_eqb_refl. eauto. }
  exists entry. split; [done|]. rewrite elem_of_sort_by, list_elem_of_omap. eauto.
Qed.

Lemma linked_ends edges a b : linked edges a b -> b ∈ edge_ends edges.
Proof.
  intros (e & He & H). unfold edge_ends. rewrite elem_of_app, !list_elem_of_fmap. naive_solver.
Qed.

Lemma size_list_to_set_le (l : list string) : size (list_to_set l : gset string) <= length l.
Proof.
  induction l as [|x l IH]; [done|]. rewrite list_to_set_cons. cbn [length].
  pose proof (size_union_alt ({[x]} : gset string) (list_to_set l)) as ->.
  rewrite size_singleton.
  assert (size ((list_to_set l : gset string) ∖ {[x]}) <= size (list_to_set l : gset string))
    by (apply subseteq_size; set_solver). lia.
Qed.

(** How many ids are still unvisited. *)
Definition pending (universe visited : gset string) : nat := size (universe ∖ visited).

Lemma pending_visit universe visited id :
  id ∈ universe -> id ∉ visited -> S (pending universe ({[id]} ∪ visited)) = pending universe visited.
Proof.
  intros Hu Hv. unfold pending.
  assert (universe ∖ visited = {[id]} ∪ (universe ∖ ({[id]} ∪ visited))) as ->.
  { apply leibniz_equiv. intros x. destruct (decide (x = id)); set_solver. }
  rewrite (size_union ({[id]} : gset string)) by set_solver. by rewrite size_singleton.
Qed.

Lemma semantic_loop_total fuel edges limit queue visited selected (universe : gset string) :
  (forall x, x ∈ queue -> x ∈ universe) ->
  (forall x, x ∈ edge_ends edges -> x ∈ universe) ->
  length queue + pending universe visited * length edges < fuel ->
  is_Some (semantic_loop fuel edges limit queue visited selected).
Proof.
  revert queue visited selected. induction fuel as [|fuel IH]; intros queue visited selected Hq He Hf;
    [lia|]. simpl. destruct queue as [|id queue]; [done|]. simpl in Hf.
  case_bool_decide as Hv.
  { apply IH; [set_solver|done|lia]. }
  destruct (_ <=? _)%N; [done|].
  assert (id ∈ universe) as Hid by set_solver.
  pose proof (pending_visit universe visited id Hid Hv) as Hp.
  set (next := retain _ _).
  assert (length next <= length edges) as Hlen
    by (etrans; [apply retain_length|apply adjacent_of_length]).
  apply IH; [|done|].
  - intros x [Hx|Hx]%elem_of_app; [set_solver|].
    apply elem_of_retain in Hx as [_ Hx%adjacent_of_sound%linked_ends]. auto.
  - rewrite length_app, <- Hp in *. nia.
Qed.

(** What the loop maintains. *)
Record search_inv (roots : list string) (edges : list TopologyEdge) (limit : N)
    (queue : list string) (visited : gset string) (selected : list string) : Prop := {
  si_nodup : NoDup selected;
  si_visited : forall x, x ∈ visited <-> x ∈ selected;
  si_bound : (len selected < limit)%N;
  si_queue : forall x, x ∈ queue -> reachable roots edges x;
  si_selected : forall x, x ∈ selected -> reachable roots edges x;
  si_roots : forall x, x ∈ roots -> x ∈ visited \/ x ∈ queue;
  si_closed : forall x y, x ∈ visited -> linked edges x y -> y ∈ visited \/ y ∈ queue
}.

Definition search_result (roots : list string) (edges : list TopologyEdge) (limit : N)
    (r : list string) : Prop :=
  NoDup r /\ (len r <= limit)%N /\ (forall x, x ∈ r -> reachable roots edges x) /\
  (len r = limit \/ forall x, reachable roots edges x -> x ∈ r).

Lemma search_inv_done roots edges limit visited selected :
  search_inv roots edges limit [] visited selected ->
  search_result roots edges limit selected.
Proof.
  intros [Hnd Hv Hb Hq Hs Hr Hc]. split_and!; [done|lia|done|right].
  intros x (r & Hin & Hpath). rewrite <- Hv.
  assert (r ∈ visited) as Hrv by (destruct (Hr r Hin); set_solver).
  clear Hin Hr. induction Hpath as [|a b c Hab _ IH]; [done|].
  apply IH. destruct (Hc a b Hrv Hab); set_solver.
Qed.

Lemma search_inv_skip roots edges limit id queue visited selected :
  id ∈ visited -> search_inv roots edges limit (id :: queue) visited selected ->
  search_inv roots edges limit queue visited selected.
Proof.
  intros Hid [Hnd Hv Hb Hq Hs Hr Hc]. split; [done..|set_solver|done|set_solver|].
  intros x y Hx Hxy. destruct (Hc x y Hx Hxy); set_solver.
Qed.

Lemma search_inv_visit roots edges limit id queue visited selected :
  id ∉ visited -> search_inv roots edges limit (id :: queue) visited selected ->
  let next := retain (fun other => negb (bool_decide (other ∈ ({[id]} ∪ visited : gset string))))
                (adjacent_of edges id) in
  NoDup (selected ++ [id]) /\ (len (selected ++ [id]) <= limit)%N /\
  (forall x, x ∈ selected ++ [id] -> reachable roots edges x) /\
  ((len (selected ++ [id]) < limit)%N ->
   search_inv roots edges limit (queue ++ next) ({[id]} ∪ visited) (selected ++ [id])).
Proof.
  intros Hid [Hnd Hv Hb Hq Hs Hr Hc] next.
  assert (len (selected ++ [id]) = len selected + 1)%N as Hlen
    by (unfold len; rewrite length_app; simpl; lia).
  assert (NoDup (selected ++ [id])) as Hnd'.
  { apply NoDup_app. split_and!; [done| |apply NoDup_singleton].
    intros x Hx ->%list_elem_of_singleton. by rewrite <- Hv in Hx. }
  assert (reachable roots edges id) as Hidr by set_solver.
  assert (forall x, x ∈ selected ++ [id] -> reachable roots edges x) as Hsel.
  { intros x [Hx| ->%list_elem_of_singleton]%elem_of_app; auto. }
  split_and!; [done|lia|done|]. intros Hlt. split; [done| |done| |done|set_solver|].
  - intros x. rewrite elem_of_union, elem_of_app, elem_of_singleton, list_elem_of_singleton, Hv.
    naive_solver.
  - intros x [Hx|Hx]%elem_of_app; [set_solver|].
    apply elem_of_retain in Hx as [_ Hx%adjacent_of_sound].
    destruct Hidr as (r & ? & ?). exists r. split; [done|]. by eapply rtc_r.
  - intros x y Hx Hxy. destruct (decide (y ∈ ({[id]} ∪ visited : gset string))) as [|Hy]; [by left|].
    right. apply elem_of_app. apply elem_of_union in Hx as [->%elem_of_singleton|Hx].
    + right. apply elem_of_retain. apply adjacent_of_complete in Hxy as [->|Hadj]; [set_solver|].
      split; [|done]. apply negb_true_iff. by apply bool_decide_eq_false.
    + left. destruct (Hc x y Hx Hxy); set_solver.
Qed.

Lemma semantic_loop_result fuel roots edges limit queue visited selected r :
  search_inv roots edges limit queue visited selected ->
  semantic_loop fuel edges limit queue visited selected = Some r ->
  search_result roots edges limit r.
Proof.
  revert queue visited selected. induction fuel as [|fuel IH]; intros queue visited selected Hinv;
    [done|]. simpl. destruct queue as [|id queue].
  { intros [= <-]. by eapply search_inv_done. }
  case_bool_decide as Hv; [apply IH; by eapply search_inv_skip|].
  destruct (search_inv_visit _ _ _ _ _ _ _ Hv Hinv) as (Hnd & Hb & Hs & Hnext).
  destruct (N.leb_spec limit (len (selected ++ [id]))) as [Hl|Hl].
  - intros [= <-]. split_and!; [done..|left; lia].
  - by apply IH, Hnext.
Qed.

Lemma semantic_search_total roots edges limit :
  exists r, semantic_loop (search_fuel roots edges) edges limit roots ∅ [] = Some r.
Proof.
  destruct (semantic_loop_total (search_fuel roots edges) edges limit roots ∅ []
    (list_to_set (roots ++ edge_ends edges))) as [r Hr]; [set_solver..| |by eauto].
  unfold search_fuel, pending.
  assert (size ((list_to_set (roots ++ edge_ends edges) : gset string) ∖ ∅)
          <= length (roots ++ edge_ends edges)).
  { etrans; [|apply size_list_to_set_le]. apply subseteq_size. set_solver. }
  nia.
Qed.

Lemma semantic_node_order_result nodes edges names limit :
  (0 < limit)%N ->
  search_result (semantic_roots nodes names) edges limit
    (semantic_node_order nodes edges names limit).
Proof.
  intros Hl. unfold semantic_node_order. destruct (N.eqb_spec limit 0); [lia|].
  destruct (semantic_search_total (semantic_roots nodes names) edges limit) as [r Hr].
  rewrite Hr. simpl. eapply semantic_loop_result; [|exact Hr].
  split; [constructor|set_solver|unfold len; simpl; lia| |set_solver|set_solver|set_solver].
  intros x Hx. exists x. split; [done|apply rtc_refl].
Qed.

(** ** Layout *)

Lemma row_y_exact row : (row <= 642)%N -> row_y row = (8 + 102 * row)%N.
Proof.
  intros H. unfold row_y, u16_try_from, saturating_add, saturating_mul.
  change (umax 16) with 65535%N. destruct (N.leb_spec row 65535); [|lia]. simpl.
  unfold TOPOLOGY_ROW_STRIDE, TOPOLOGY_ROW_START. lia.
Qed.

Lemma row_y_u16 row : (row_y row <= 65535)%N.
Proof. unfold row_y, saturating_add. change (umax 16) with 65535%N. lia. Qed.

Lemma enumerate_from_ids {A B} (f : A -> B) (g : N -> A -> A) n l :
  (forall i x, f (g i x) = f x) -> f <$> ((fun '(i, x) => g i x) <$> enumerate_from n l) = f <$> l.
Proof.
  intros H. revert n; induction l as [|x l IH]; intros n; [done|].
  cbn. rewrite H. f_equal. apply IH.
Qed.

Lemma layout_nodes_ids nodes : tnode_id <$> layout_nodes nodes = tnode_id <$> nodes.
Proof. apply (enumerate_from_ids tnode_id (fun row node =>
  with_rect node (node_rect row (tnode_column node)))). done. Qed.

Lemma enumerate_from_length {A} n (l : list A) : length (enumerate_from n l) = length l.
Proof. revert n; induction l as [|x l IH]; intros n; simpl; [done|]. by rewrite IH. Qed.

Lemma layout_nodes_length nodes : length (layout_nodes nodes) = length nodes.
Proof. unfold layout_nodes, enumerate. by rewrite length_fmap, enumerate_from_length. Qed.

Lemma enumerate_from_lookup_eq {A} n (l : list A) i :
  enumerate_from n l !! i = (fun x => (n + N.of_nat i, x)%N) <$> l !! i.
Proof.
  revert n i; induction l as [|x l IH]; intros n [|i]; simpl; [done..|by rewrite N.add_0_r|].
  rewrite IH. destruct (l !! i); simpl; [|done]. do 2 f_equal. lia.
Qed.

Lemma layout_nodes_lookup nodes i :
  layout_nodes nodes !! i =
  (fun node => with_rect node (node_rect (N.of_nat i) (tnode_column node))) <$> nodes !! i.
Proof.
  unfold layout_nodes, enumerate. rewrite list_lookup_fmap, enumerate_from_lookup_eq.
  by destruct (nodes !! i).
Qed.

Lemma column_span_inside column :
  let '(x, width) := column_span column in (x + width <= 412)%N.
Proof. by destruct column. Qed.

(** A rectangle of the scene: one of the three columns, on some row. *)
Lemma laid_out_rect nodes id rect :
  node_rects (layout_nodes nodes) !! id = Some rect ->
  exists i column, i < length nodes /\ rect = node_rect (N.of_nat i) column.
Proof.
  unfold node_rects. rewrite collect_into_lookup, lookup_empty.
  destruct (last_with tnode_id id (layout_nodes nodes)) as [n|] eqn:E; [|done]. intros [= <-].
  apply last_with_Some in E as [(i & Hi)%list_elem_of_lookup _].
  assert (i < length nodes) by (rewrite <- layout_nodes_length; by eapply lookup_lt_Some).
  rewrite layout_nodes_lookup in Hi. destruct (nodes !! i) as [node|]; [|done].
  injection Hi as <-. eauto.
Qed.

Lemma laid_out_total nodes id :
  id ∈ tnode_id <$> nodes -> is_Some (node_rects (layout_nodes nodes) !! id).
Proof.
  intros Hid. unfold node_rects. rewrite collect_into_lookup.
  destruct (last_with tnode_id id (layout_nodes nodes)) eqn:E; [done|].
  rewrite last_with_None in E. rewrite <- layout_nodes_ids in Hid.
  apply list_elem_of_fmap in Hid as (n & -> & Hn). by destruct (E n Hn).
Qed.

(** Consecutive points of a route differ in one coordinate only. *)
Fixpoint orthogonal (route : list (N * N)) : Prop :=
  match route with
  | p :: (q :: _) as rest => (p.1 = q.1 \/ p.2 = q.2) /\ orthogonal rest
  | _ => True
  end.

Definition inside (height : N) (p : N * N) : Prop := (p.1 <= 420 /\ p.2 <= height)%N.

Definition good_route (height : N) (route : list (N * N)) : Prop :=
  length route = 4 /\ orthogonal route /\ Forall (inside height) route.

Lemma node_rect_facts n row column :
  (row < n)%N -> (n <= 642)%N ->
  exists x w, node_rect row column = mk_rect x (8 + 102 * row) w 78 /\ (x + w <= 412)%N.
Proof.
  intros Hr Hn. unfold node_rect. pose proof (column_span_inside column) as Hc.
  destruct (column_span column) as [x w]. exists x, w.
  by rewrite row_y_exact by lia.
Qed.

Lemma sat16_small a b : (a + b <= 65535)%N -> saturating_add 16 a b = (a + b)%N.
Proof. unfold saturating_add. change (umax 16) with 65535%N. lia. Qed.

Lemma half_le a : (a / 2 <= a)%N.
Proof. apply N.Div0.div_le_upper_bound. lia. Qed.

Lemma route_down_good n a b x1 w1 x2 w2 :
  (a < n)%N -> (b < n)%N -> (n <= 642)%N -> (a < b)%N ->
  (x1 + w1 <= 412)%N -> (x2 + w2 <= 412)%N ->
  good_route (8 + 102 * n)
    (route_down (mk_rect x1 (8 + 102 * a) w1 78) (mk_rect x2 (8 + 102 * b) w2 78)).1.
Proof.
  intros. unfold route_down. simpl. pose proof (half_le w1). pose proof (half_le w2).
  pose proof (half_le (8 + 102 * b - (8 + 102 * a + 78))).
  unfold saturating_sub. rewrite !sat16_small by (rewrite ?sat16_small; lia).
  split; [done|]. split; [simpl; tauto|].
  rewrite !Forall_cons, Forall_nil. unfold inside. simpl. lia.
Qed.

Lemma route_side_good n a b x1 w1 x2 w2 :
  (a < n)%N -> (b < n)%N -> (n <= 642)%N ->
  (x1 + w1 <= 412)%N -> (x2 + w2 <= 412)%N ->
  good_route (8 + 102 * n)
    (route_side (mk_rect x1 (8 + 102 * a) w1 78) (mk_rect x2 (8 + 102 * b) w2 78)).1.
Proof.
  intros. unfold route_side, saturating_sub, TOPOLOGY_CANVAS_WIDTH. simpl.
  change (78 / 2)%N with 39%N.
  rewrite !sat16_small by lia.
  split; [done|]. split; [simpl; tauto|].
  rewrite !Forall_cons, Forall_nil. unfold inside. simpl. lia.
Qed.

Lemma layout_edge_good nodes e :
  (1 <= len nodes <= 642)%N ->
  tedge_source e ∈ tnode_id <$> nodes -> tedge_target e ∈ tnode_id <$> nodes ->
  good_route (8 + 102 * len nodes) (tedge_route (layout_edge (node_rects (layout_nodes nodes)) e)).
Proof.
  intros Hn Hs Ht. unfold layout_edge.
  destruct (laid_out_total nodes _ Hs) as [rs Es], (laid_out_total nodes _ Ht) as [rt Et].
  rewrite Es, Et. apply laid_out_rect in Es as (i & ci & Hi & ->), Et as (j & cj & Hj & ->).
  unfold len in *.
  destruct (node_rect_facts (N.of_nat (length nodes)) (N.of_nat i) ci) as (x1 & w1 & -> & ?); [lia..|].
  destruct (node_rect_facts (N.of_nat (length nodes)) (N.of_nat j) cj) as (x2 & w2 & -> & ?); [lia..|].
  simpl rect_y. destruct (N.ltb_spec (8 + 102 * N.of_nat i) (8 + 102 * N.of_nat j)).
  - destruct (route_down _ _) as [route label] eqn:E.
    change route with (route, label).1. rewrite <- E. apply route_down_good; lia.
  - destruct (route_side _ _) as [route label] eqn:E.
    change route with (route, label).1. rewrite <- E. apply route_side_good; lia.
Qed.

Ltac layout_cases rects e :=
  destruct (rects !! tedge_source e), (rects !! tedge_target e); try done;
  match goal with |- context [if ?b then _ else _] => destruct b end; done.

Lemma layout_edge_id rects e : tedge_id (layout_edge rects e) = tedge_id e.
Proof. unfold layout_edge. layout_cases rects e. Qed.

Lemma layout_edges_ids rects (edges : list TopologyEdge) :
  tedge_id <$> (layout_edge rects <$> edges) = tedge_id <$> edges.
Proof.
  rewrite <- list_fmap_compose. apply list_fmap_ext. intros _ e _. apply layout_edge_id.
Qed.

Lemma layout_edge_ends rects e :
  tedge_source (layout_edge rects e) = tedge_source e /\
  tedge_target (layout_edge rects e) = tedge_target e /\
  tedge_label (layout_edge rects e) = tedge_label e.
Proof.
  unfold layout_edge. layout_cases rects e.
Qed.

(** ** Replay *)

Definition deltas_until (model : OwnershipModel) (step : N) : list OwnershipStateDelta :=
  concat (msnapshot_deltas <$> snapshots_until model step).

Lemma replay_snapshots states snapshots :
  foldl (fun states snapshot => collect_into delta_node_id delta_to states (msnapshot_deltas snapshot))
    states snapshots
  = collect_into delta_node_id delta_to states (concat (msnapshot_deltas <$> snapshots)).
Proof.
  revert states; induction snapshots as [|s snapshots IH]; intros states; [done|].
  cbn. rewrite IH. unfold collect_into. by rewrite foldl_app.
Qed.

Lemma snapshots_until_prefix model a b :
  (a <= b)%N -> snapshots_until model a `prefix_of` snapshots_until model b.
Proof.
  intros H. unfold snapshots_until. rewrite !take_N_spec.
  set (l := graph_snapshots _). set (n := N.to_nat _). set (m := N.to_nat (saturating_add 64 b 1)).
  assert (n <= m) by (unfold n, m, saturating_add; lia).
  exists (drop n (take m l)). rewrite <- (take_drop n (take m l)) at 1.
  by rewrite take_take, Nat.min_l.
Qed.

(** ** The properties *)

(** The breadth-first selection always terminates within the fuel computed
    from the graph, whatever the edges (cycles, duplicates, dangling ends). *)
Theorem semantic_search_terminates roots edges limit :
  is_Some (semantic_loop (search_fuel roots edges) edges limit roots ∅ []).
Proof. destruct (semantic_search_total roots edges limit) as [r ->]. done. Qed.

(** The selected ids are pairwise distinct, at most [node_limit], all
    reachable from the roots of the selection; and they are all the reachable
    ids unless the limit is reached. *)
Theorem semantic_node_order_correct nodes edges names limit :
  (0 < limit)%N ->
  let order := semantic_node_order nodes edges names limit in
  NoDup order /\ (len order <= limit)%N /\
  (forall x, x ∈ order -> reachable (semantic_roots nodes names) edges x) /\
  (len order = limit \/ forall x, reachable (semantic_roots nodes names) edges x -> x ∈ order).
Proof. apply semantic_node_order_result. Qed.

(** In the laid-out scene every rectangle lies inside the canvas and two
    rows never overlap, for as many as 642 nodes (the views keep at most 64);
    ids and edges keep their identity and their order. *)
Theorem layout_rows_disjoint nodes edges :
  (1 <= len nodes <= 642)%N ->
  let '(nodes', edges', height) := layout_topology_scene nodes edges in
  tnode_id <$> nodes' = tnode_id <$> nodes /\
  tedge_id <$> edges' = tedge_id <$> edges /\
  (forall i n, nodes' !! i = Some n ->
     (rect_x (tnode_rect n) + rect_width (tnode_rect n) <= TOPOLOGY_CANVAS_WIDTH)%N /\
     (rect_y (tnode_rect n) + rect_height (tnode_rect n) <= height)%N) /\
  (forall i j a b, i < j -> nodes' !! i = Some a -> nodes' !! j = Some b ->
     (rect_y (tnode_rect a) + rect_height (tnode_rect a) < rect_y (tnode_rect b))%N).
Proof.
  intros Hn. unfold layout_topology_scene. split; [apply layout_nodes_ids|].
  split; [apply layout_edges_ids|].
  assert (forall i n, layout_nodes nodes !! i = Some n ->
    i < length nodes /\ exists x w, tnode_rect n = mk_rect x (8 + 102 * N.of_nat i) w 78
      /\ (x + w <= 412)%N) as Hrow.
  { intros i n Hi. pose proof (lookup_lt_Some _ _ _ Hi) as Hlt.
    rewrite layout_nodes_length in Hlt. split; [done|].
    rewrite layout_nodes_lookup in Hi. destruct (nodes !! i) as [m|]; [|done].
    injection Hi as <-. unfold len in Hn. simpl tnode_rect.
    apply (node_rect_facts (N.of_nat (length nodes))); lia. }
  unfold len in *. split.
  - intros i n (Hi & x & w & -> & Hw)%Hrow. rewrite layout_nodes_length, row_y_exact by lia.
    unfold TOPOLOGY_CANVAS_WIDTH. simpl. lia.
  - intros i j a b Hij (? & x1 & w1 & -> & ?)%Hrow (? & x2 & w2 & -> & ?)%Hrow. simpl. lia.
Qed.

Definition sample_node (id : string) (column : TopologyColumn) : TopologyNode :=
  mk_tnode id id id "i32" ""
    (match column with ColumnLocal => "binding" | ColumnWrapper => "wrapper" | ColumnTarget => "allocation" end)
    "stack" "available" "compiler_exact" column None default_rect.

Definition sample_edge (id source target label : string) : TopologyEdge :=
  mk_tedge id source target label "compiler_exact" true None [] (0, 0)%N.

Lemma semantic_node_order_correct_witness :
  let nodes := [sample_node "a" ColumnLocal; sample_node "b" ColumnTarget] in
  let edges := [sample_edge "e" "a" "b" "owns"; sample_edge "f" "b" "a" "points_to"] in
  semantic_node_order nodes edges ["a"] 12 = ["a"; "b"] /\
  NoDup (semantic_node_order nodes edges ["a"] 12).
Proof.
  split; [vm_compute; reflexivity|].
  apply (semantic_node_order_correct
    [sample_node "a" ColumnLocal; sample_node "b" ColumnTarget]
    [sample_edge "e" "a" "b" "owns"; sample_edge "f" "b" "a" "points_to"] ["a"] 12).
  vm_compute. reflexivity.
Defined.

Lemma layout_rows_disjoint_witness :
  let nodes := [sample_node "a" ColumnLocal; sample_node "b" ColumnTarget] in
  let '(nodes', _, height) := layout_topology_scene nodes [] in
  height = 212%N /\ tnode_id <$> nodes' = ["a"; "b"].
Proof.
  split; [vm_compute; reflexivity|].
  pose proof (layout_rows_disjoint
    [sample_node "a" ColumnLocal; sample_node "b" ColumnTarget] []) as H.
  apply H. split; vm_compute; discriminate.
Defined.

(** Every edge whose ends are nodes of the scene gets a four-point route
    made of horizontal and vertical segments that stays inside the canvas; an
    edge with a missing end keeps the empty route it had. *)
Theorem layout_routes_orthogonal nodes edges e :
  (1 <= len nodes <= 642)%N -> e ∈ edges ->
  let '(_, edges', height) := layout_topology_scene nodes edges in
  exists e', e' ∈ edges' /\ tedge_id e' = tedge_id e /\
    (tedge_source e ∈ tnode_id <$> nodes -> tedge_target e ∈ tnode_id <$> nodes ->
     good_route height (tedge_route e')) /\
    (tedge_source e ∉ (tnode_id <$> nodes) \/ tedge_target e ∉ (tnode_id <$> nodes) ->
     tedge_route e' = tedge_route e).
Proof.
  intros Hn He. unfold layout_topology_scene.
  exists (layout_edge (node_rects (layout_nodes nodes)) e). split_and!.
  - by apply list_elem_of_fmap_2.
  - apply layout_edge_id.
  - intros Hs Ht. unfold len. rewrite layout_nodes_length, row_y_exact by (unfold len in Hn; lia).
    replace (N.max (N.of_nat (length nodes)) 1) with (len nodes) by (unfold len in *; lia).
    by apply layout_edge_good.
  - assert (forall id, id ∉ (tnode_id <$> nodes) -> node_rects (layout_nodes nodes) !! id = None)
      as Hmiss.
    { intros id Hid. unfold node_rects. rewrite collect_into_lookup.
      destruct (last_with tnode_id id (layout_nodes nodes)) as [n|] eqn:E; [|done].
      apply last_with_Some in E as [Hin <-]. destruct Hid.
      rewrite <- layout_nodes_ids. by apply list_elem_of_fmap_2. }
    unfold layout_edge. intros [Hs|Ht]; [by rewrite (Hmiss _ Hs)|]. rewrite (Hmiss _ Ht).
    by destruct (node_rects (layout_nodes nodes) !! tedge_source e).
Qed.

Lemma layout_routes_orthogonal_witness :
  let nodes := [sample_node "a" ColumnLocal; sample_node "b" ColumnTarget] in
  let edge := sample_edge "e" "a" "b" "owns" in
  let '(_, edges', height) := layout_topology_scene nodes [edge] in
  exists e', e' ∈ edges' /\ good_route height (tedge_route e').
Proof.
  pose proof (layout_routes_orthogonal
    [sample_node "a" ColumnLocal; sample_node "b" ColumnTarget]
    [sample_edge "e" "a" "b" "owns"] (sample_edge "e" "a" "b" "owns")) as H.
  destruct H as (e' & Hin & _ & Hgood & _).
  - split; vm_compute; discriminate.
  - apply elem_of_cons. left. reflexivity.
  - exists e'. split; [exact Hin|]. apply Hgood; apply (bool_decide_unpack _); vm_compute; exact I.
Defined.

(** Replaying the snapshots up to a step gives each node the state of its
    last change so far, and its initial state if it has not changed; the step
    is clamped, never out of range. *)
Theorem topology_state_is_last_change model step id :
  topology_state_at_step model step !! id =
  match last_with delta_node_id id (deltas_until model step) with
  | Some delta => Some (delta_to delta)
  | None => mnode_state <$> last_with mnode_id id (graph_nodes (model_memory_graph model))
  end.
Proof.
  unfold topology_state_at_step, deltas_until.
  rewrite replay_snapshots, !collect_into_lookup, lookup_empty.
  destruct (last_with delta_node_id id _); [done|]. by destruct (last_with mnode_id id _).
Qed.

(** A relation that a snapshot removed stays removed at every later step:
    an edge inactive because of a removal never lights up again. *)
Theorem removed_edge_stays_inactive edge model a b :
  (a <= b)%N ->
  existsb (delta_removes edge) (deltas_until model a) = true ->
  topology_edge_active_at_step edge model b = false.
Proof.
  intros Hab Hrem. unfold topology_edge_active_at_step.
  destruct (snapshots_until_prefix model a b Hab) as [later ->].
  assert (existsb (fun s => existsb (delta_removes edge) (msnapshot_deltas s))
    (snapshots_until model a) = true) as Hs.
  { apply existsb_exists in Hrem as (d & Hd & Hdr). unfold deltas_until in Hd.
    apply in_concat in Hd as (ds & Hds & Hin). apply list_elem_of_In, list_elem_of_fmap in Hds
      as (s & -> & Hs). apply existsb_exists. exists s. split; [by apply list_elem_of_In|].
    apply existsb_exists. eauto. }
  by rewrite !existsb_app, Hs, andb_false_r.
Qed.

Definition sample_delta : OwnershipStateDelta :=
  mk_delta "x" None "available" None (Some "borrow_shared").

Definition sample_loan : OwnershipMemoryEdge :=
  mk_medge "loan" "r" "x" "borrow_shared" None None None "compiler_exact" None.

Definition sample_snapshot (id : string) (deltas : list OwnershipStateDelta) :
    OwnershipMemorySnapshot :=
  mk_msnapshot id id 0 0 0 "borrow_end" default_range "x" None None deltas "compiler_exact".

Definition sample_replay : OwnershipModel :=
  with_memory_graph (default_model "ready")
    (mk_graph [] [sample_loan]
       [sample_snapshot "s0" []; sample_snapshot "s1" [sample_delta]; sample_snapshot "s2" []] []
       false).

Lemma removed_edge_stays_inactive_witness :
  topology_edge_active_at_step sample_loan sample_replay 0 = true /\
  topology_edge_active_at_step sample_loan sample_replay 2 = false.
Proof.
  split; [vm_compute; reflexivity|].
  apply (removed_edge_stays_inactive sample_loan sample_replay 1 2).
  - vm_compute. discriminate.
  - vm_compute. reflexivity.
Defined.
