(* ===== verification/MemoryPathSpec.v ===== *)
(** * The beginner memory path: shortest distances, stages, totality

    The invariant of the worklist loop is the usual one of breadth-first
    search: the queue holds a run of ids at some distance [D] followed by a run
    at [D + 1], nothing is farther than that, and every id already taken out of
    the queue has all its successors numbered. *)

From S2P Require Import Prelude RustStr RustColl Protocol Topology TopologySpec MemoryPath.
From stdpp Require Import options.

(** [path roots edges n x]: [x] is [n] edges away from a root along some path. *)
Inductive path (roots : list string) (edges : list TopologyEdge) : N -> string -> Prop :=
| path_root x : x ∈ roots -> path roots edges 0 x
| path_step n e : path roots edges n (tedge_source e) -> e ∈ edges ->
    path roots edges (n + 1) (tedge_target e).

Section search.
Context (roots : list string) (edges : list TopologyEdge) (node_order : gmap string N).

Definition known_ids : list string := roots ++ (tedge_target <$> edges).

Record layered (D : N) (q1 q2 : list string) (distance : gmap string N) : Prop := {
  layered_path : forall x d, distance !! x = Some d -> path roots edges d x;
  layered_near : forall x, x ∈ q1 -> distance !! x = Some D;
  layered_far : forall x, x ∈ q2 -> distance !! x = Some (D + 1)%N;
  layered_max : forall x d, distance !! x = Some d -> (d <= D + 1)%N;
  layered_size : forall x d, distance !! x = Some d -> (d < N.of_nat (size distance))%N;
  layered_known : forall x, is_Some (distance !! x) -> x ∈ known_ids;
}.

(** Every id that left the queue has its successors numbered. *)
Definition settled (queue : list string) (distance : gmap string N) : Prop :=
  forall e d, e ∈ edges -> tedge_source e ∉ queue -> distance !! tedge_source e = Some d ->
    exists d', distance !! tedge_target e = Some d' /\ (d' <= d + 1)%N.

Lemma layered_advance q2 D distance : layered D [] q2 distance -> layered (D + 1) q2 [] distance.
Proof using Type.
  intros []. split; try done.
  - set_solver.
  - intros x d H. specialize (layered_max0 x d H). lia.
Qed.

Lemma size_bound D q1 q2 distance :
  layered D q1 q2 distance -> (N.of_nat (size distance) <= len roots + len edges)%N.
Proof using Type.
  intros H. rewrite <- (size_dom (D := gset string)). unfold len.
  assert (size (dom distance) <= length known_ids) as Hs.
  { transitivity (size (list_to_set known_ids : gset string)); [|apply size_list_to_set_le].
    apply subseteq_size. intros x Hx%elem_of_dom. apply elem_of_list_to_set.
    by eapply layered_known. }
  unfold known_ids in Hs. rewrite length_app, length_fmap in Hs. lia.
Qed.

Definition unknown (distance : gmap string N) : nat :=
  length (retain (fun x => bool_decide (distance !! x = None)) (tedge_target <$> edges)).

Lemma retain_shrinks {A} (p q : A -> bool) l x :
  x ∈ l -> (forall y, q y = true -> p y = true) -> p x = true -> q x = false ->
  length (retain q l) < length (retain p l).
Proof using Type.
  intros Hx Hqp Hp Hq. induction l as [|y l IH]; [by apply not_elem_of_nil in Hx|].
  assert (length (retain q l) <= length (retain p l)) as Hle.
  { clear IH Hx. induction l as [|z l IH]; simpl; [done|].
    destruct (q z) eqn:Hz; [rewrite (Hqp _ Hz); simpl; lia|]. destruct (p z); simpl; lia. }
  apply elem_of_cons in Hx as [<-|Hx]; simpl.
  - rewrite Hp, Hq. simpl. lia.
  - specialize (IH Hx). destruct (q y) eqn:Hy; [rewrite (Hqp _ Hy); simpl; lia|].
    destruct (p y); simpl; lia.
Qed.

Lemma unknown_insert distance e d :
  e ∈ edges -> distance !! tedge_target e = None ->
  unknown (<[tedge_target e := d]> distance) < unknown distance.
Proof using Type.
  intros He Hn. apply (retain_shrinks _ _ _ (tedge_target e)).
  - by apply list_elem_of_fmap_2.
  - intros y. rewrite !bool_decide_eq_true. intros [? ?]%lookup_insert_None. done.
  - by apply bool_decide_eq_true.
  - apply bool_decide_eq_false. by rewrite lookup_insert_eq.
Qed.

Lemma layered_insert D q1 q2 distance e :
  layered D q1 q2 distance -> e ∈ edges -> distance !! tedge_source e = Some D ->
  distance !! tedge_target e = None ->
  layered D q1 (q2 ++ [tedge_target e]) (<[tedge_target e := (D + 1)%N]> distance).
Proof using Type.
  intros [] He Hs Hn. assert (size (<[tedge_target e := (D + 1)%N]> distance) = S (size distance))
    as Hsz by (by apply map_size_insert_None).
  split.
  - intros x d [[<- <-]|[? ?]]%lookup_insert_Some; [|by apply layered_path0].
    apply path_step; [by apply layered_path0|done].
  - intros x Hx%layered_near0. rewrite lookup_insert_ne; congruence.
  - intros x [Hx%layered_far0|Hx]%elem_of_app.
    + rewrite lookup_insert_ne; congruence.
    + apply list_elem_of_singleton in Hx as ->. by rewrite lookup_insert_eq.
  - intros x d [[<- <-]|[? Hd%layered_max0]]%lookup_insert_Some; lia.
  - intros x d. rewrite Hsz. specialize (layered_size0 _ _ Hs) as HD.
    intros [[<- <-]|[? Hd%layered_size0]]%lookup_insert_Some; lia.
  - intros x. rewrite lookup_insert_is_Some'. intros [<-|?]; [|by apply layered_known0].
    unfold known_ids. rewrite elem_of_app. right. by apply list_elem_of_fmap_2.
Qed.

Lemma initial_lookup x :
  initial_distances roots !! x = if decide (x ∈ roots) then Some 0%N else None.
Proof using Type.
  unfold initial_distances. rewrite collect_into_lookup, lookup_empty.
  destruct (last_with id x roots) as [y|] eqn:E.
  - apply last_with_Some in E as [? <-]. by rewrite decide_True.
  - rewrite last_with_None in E. case_decide as Hx; [|done]. by destruct (E x Hx).
Qed.

Lemma initial_layered : layered 0 roots [] (initial_distances roots).
Proof using Type.
  split; intros x; try (intros d; rewrite initial_lookup; case_decide; intros [= <-]).
  - by apply path_root.
  - intros Hx. by rewrite initial_lookup, decide_True.
  - by intros ?%not_elem_of_nil.
  - lia.
  - destruct (size (initial_distances roots)) eqn:E; [|lia].
    apply map_size_empty_iff in E. pose proof (initial_lookup x) as Hl.
    rewrite E, lookup_empty, decide_True in Hl by done. discriminate.
  - rewrite initial_lookup. intros [d Hd]. case_decide; [|done].
    unfold known_ids. set_solver.
Qed.

(** At a fixed point, numbers are lower bounds of path lengths. *)
Lemma settled_minimal final n x :
  settled [] final -> initial_distances roots ⊆ final -> path roots edges n x ->
  exists d, final !! x = Some d /\ (d <= n)%N.
Proof using Type.
  intros Hset Hsub. induction 1 as [x Hx|n e _ (d & Hd & Hle) He].
  - exists 0%N. split; [|lia]. eapply lookup_weaken; [|done].
    by rewrite initial_lookup, decide_True.
  - destruct (Hset e d He) as (d' & ? & ?); [apply not_elem_of_nil|done|].
    exists d'. split; [done|lia].
Qed.

Context (Hbound : (len roots + len edges <= umax 64)%N).

Lemma visit_edges es D q1 q2 distance :
  layered D q1 q2 distance ->
  Forall (fun e => e ∈ edges /\ distance !! tedge_source e = Some D) es ->
  exists distance' new,
    foldl (visit_edge (saturating_add 64 D 1)) (distance, q1 ++ q2) es
      = (distance', q1 ++ q2 ++ new) /\
    layered D q1 (q2 ++ new) distance' /\ distance ⊆ distance' /\
    Forall (fun e => is_Some (distance' !! tedge_target e)) es /\
    (forall x, is_Some (distance' !! x) -> is_Some (distance !! x) \/ x ∈ new) /\
    unknown distance' + length new <= unknown distance.
Proof using Hbound.
  revert q2 distance. induction es as [|e es IH]; intros q2 distance Hl Hes; simpl.
  { exists distance, []. rewrite !app_nil_r. split_and!; auto. simpl. lia. }
  apply Forall_cons in Hes as [[He Hs] Hes].
  assert (saturating_add 64 D 1 = D + 1)%N as Hsat.
  { pose proof (size_bound _ _ _ _ Hl). pose proof (layered_size _ _ _ _ Hl _ _ Hs).
    unfold saturating_add. lia. }
  destruct (distance !! tedge_target e) as [d|] eqn:Ht.
  - destruct (IH q2 distance Hl Hes) as (distance' & new & Hf & Hl' & Hsub & Hes' & Hnew & Hm).
    exists distance', new. split_and!; try done. constructor; [|done].
    exists d. by eapply lookup_weaken.
  - rewrite Hsat. pose proof (layered_insert _ _ _ _ _ Hl He Hs Ht) as Hl1.
    assert (distance ⊆ <[tedge_target e := (D + 1)%N]> distance) as Hsub1 by (by apply insert_subseteq).
    destruct (IH (q2 ++ [tedge_target e]) (<[tedge_target e := (D + 1)%N]> distance) Hl1)
      as (distance' & new & Hf & Hl' & Hsub & Hes' & Hnew & Hm).
    { eapply Forall_impl; [exact Hes|]. intros e' [? ?]. split; [done|]. by eapply lookup_weaken. }
    rewrite Hsat in Hf. exists distance', (tedge_target e :: new).
    rewrite app_assoc in Hf. rewrite Hf. rewrite <- !app_assoc in *. simpl in *.
    split_and!; try done.
    + by etrans.
    + constructor; [|done]. exists (D + 1)%N. eapply lookup_weaken; [|done].
      by rewrite lookup_insert_eq.
    + intros x Hx. apply Hnew in Hx as [Hx|Hx]; [|set_solver].
      rewrite lookup_insert_is_Some' in Hx. destruct Hx as [<-|Hx]; [set_solver|by left].
    + pose proof (unknown_insert distance e (D + 1) He Ht). lia.
Qed.

Lemma outgoing_spec source e :
  e ∈ outgoing_edges node_order edges source <-> e ∈ edges /\ tedge_source e = source.
Proof using Type.
  unfold outgoing_edges. rewrite elem_of_sort_by, elem_of_retain, str_eqb_eq. tauto.
Qed.

(** One turn of the loop. *)
Lemma search_turn s q1 q2 D distance :
  layered D (s :: q1) q2 distance -> settled (s :: q1 ++ q2) distance ->
  exists distance' q2',
    foldl (visit_edge (saturating_add 64 D 1)) (distance, q1 ++ q2)
      (outgoing_edges node_order edges s) = (distance', q1 ++ q2') /\
    layered D q1 q2' distance' /\ settled (q1 ++ q2') distance' /\ distance ⊆ distance' /\
    length (q1 ++ q2') + unknown distance' <= length (q1 ++ q2) + unknown distance.
Proof using Hbound.
  intros Hl Hset. assert (distance !! s = Some D) as Hs
    by (apply (layered_near _ _ _ _ Hl); set_solver).
  assert (layered D q1 q2 distance) as Hl1.
  { destruct Hl. split; try done. intros x Hx. apply layered_near0. set_solver. }
  destruct (visit_edges (outgoing_edges node_order edges s) _ _ _ _ Hl1)
    as (distance' & new & Hf & Hl' & Hsub & Hes & Hnew & Hm).
  { apply Forall_forall. intros e [? <-]%outgoing_spec. done. }
  exists distance', (q2 ++ new). split_and!; try done; [|rewrite !length_app; lia].
  intros e d He Hout Hd. destruct (decide (tedge_source e = s)) as [<-|Hne].
  - rewrite Forall_forall in Hes. destruct (Hes e) as [d' Hd']; [by apply outgoing_spec|].
    exists d'. split; [done|]. apply (layered_max _ _ _ _ Hl') in Hd'.
    rewrite (lookup_weaken _ _ _ _ Hs Hsub) in Hd. naive_solver.
  - destruct (Hnew (tedge_source e)) as [[d0 Hd0]|]; [by eexists| |set_solver].
    rewrite (lookup_weaken _ _ _ _ Hd0 Hsub) in Hd. injection Hd as ->.
    destruct (Hset e d He) as (d' & ? & ?); [set_solver|done|].
    exists d'. split; [by eapply lookup_weaken|done].
Qed.

Lemma search_result fuel D q1 q2 distance :
  length (q1 ++ q2) + unknown distance < fuel ->
  layered D q1 q2 distance -> settled (q1 ++ q2) distance ->
  exists final, search_distances fuel node_order edges distance (q1 ++ q2) = Some final /\
    settled [] final /\ distance ⊆ final /\
    (forall x d, final !! x = Some d -> path roots edges d x) /\
    (forall x d, final !! x = Some d -> (d < len roots + len edges)%N).
Proof using Hbound.
  revert D q1 q2 distance. induction fuel as [|fuel IH]; intros D q1 q2 distance Hf Hl Hset; [lia|].
  assert (exists D' q1' q2', q1 ++ q2 = q1' ++ q2' /\ layered D' q1' q2' distance /\
    (q1' = [] -> q1 ++ q2 = [])) as (D' & q1' & q2' & Hq & Hl' & Hnil).
  { destruct q1 as [|s q1]; [|by exists D, (s :: q1), q2]. exists (D + 1)%N, q2, [].
    rewrite app_nil_r. split_and!; [done|by apply layered_advance|done]. }
  rewrite Hq in *. clear q1 q2 Hq Hl.
  destruct q1' as [|s q1].
  - rewrite Hnil in * by done. simpl. exists distance.
    split_and!; [done..|apply (layered_path _ _ _ _ Hl')|]. intros x d Hd.
    pose proof (size_bound _ _ _ _ Hl'). pose proof (layered_size _ _ _ _ Hl' x d Hd). lia.
  - simpl. rewrite (layered_near _ _ _ _ Hl' s) by set_solver.
    destruct (search_turn _ _ _ _ _ Hl' Hset) as (distance1 & q2'' & -> & Hl1 & Hset1 & Hsub & Hm).
    destruct (IH D' q1 q2'' distance1) as (final & Hfin & ? & ? & ? & ?);
      [simpl in Hf; lia|done..|].
    exists final. split_and!; try done. by etrans.
Qed.

(** The search returns, and numbers exactly the ids a path reaches, each with
    the length of a shortest one. *)
Lemma search_shortest fuel :
  length roots + length edges < fuel ->
  exists final,
    search_distances fuel node_order edges (initial_distances roots) roots = Some final /\
    (forall x d, final !! x = Some d <->
       path roots edges d x /\ forall n, path roots edges n x -> (d <= n)%N) /\
    (forall x d, final !! x = Some d -> (d < len roots + len edges)%N).
Proof using Hbound.
  intros Hfuel. destruct (search_result fuel 0 roots [] (initial_distances roots))
    as (final & Hfin & Hset & Hsub & Hpath & Hlt).
  - rewrite app_nil_r. unfold unknown.
    pose proof (retain_length (fun x => bool_decide (initial_distances roots !! x = None))
      (tedge_target <$> edges)) as Hr. rewrite length_fmap in Hr. lia.
  - apply initial_layered.
  - rewrite app_nil_r. intros e d _ Hout Hd.
    rewrite initial_lookup, decide_False in Hd by done. discriminate.
  - rewrite app_nil_r in Hfin. exists final. split_and!; [done| |done].
    intros x d. split.
    + intros Hd. split; [by apply Hpath|]. intros n Hn.
      destruct (settled_minimal final n x Hset Hsub Hn) as (d' & ? & ?). naive_solver.
    + intros [Hd Hmin]. destruct (settled_minimal final d x Hset Hsub Hd) as (d' & Hd' & Hle).
      rewrite Hd'. f_equal. apply N.le_antisymm; [done|]. by apply Hmin, Hpath.
Qed.
End search.

(** ** Grouping *)

Section groups.
Context {A : Type}.
Implicit Types (g : list (N * list A)).

Lemma group_push_perm k x g : concat (group_push k x g).*2 ≡ₚ x :: concat g.*2.
Proof.
  induction g as [|[k' l] g IH]; simpl; [done|].
  destruct (k ?= k')%N; simpl; [|done|].
  - rewrite <- app_assoc. symmetry. apply Permutation_middle.
  - rewrite IH. symmetry. apply Permutation_middle.
Qed.

Lemma group_push_keys k x g k' : (k' ∈ (group_push k x g).*1) <-> k' = k \/ (k' ∈ g.*1).
Proof.
  induction g as [|[k1 l] g IH]; simpl; [set_solver|].
  destruct (N.compare_spec k k1) as [->| |]; simpl; rewrite ?elem_of_cons, ?IH; naive_solver.
Qed.

Lemma group_push_sorted k x g :
  StronglySorted N.lt g.*1 -> StronglySorted N.lt (group_push k x g).*1.
Proof.
  induction g as [|[k1 l] g IH]; simpl; intros Hs; [repeat constructor|].
  inversion Hs as [|? ? Hg Hk]; subst.
  destruct (N.compare_spec k k1) as [->|Hlt|Hgt]; simpl; [done| |].
  - constructor; [done|]. constructor; [done|].
    eapply Forall_impl; [exact Hk|]. simpl. lia.
  - constructor; [by apply IH|]. apply Forall_forall. intros k' [->|Hk']%group_push_keys; [done|].
    rewrite Forall_forall in Hk. by apply Hk.
Qed.

Lemma group_push_elem k x g k' l' :
  StronglySorted N.lt g.*1 -> (k', l') ∈ group_push k x g ->
  k' <> k /\ (k', l') ∈ g \/
  k' = k /\ ((exists l, (k, l) ∈ g /\ l' = l ++ [x]) \/ (k ∉ g.*1) /\ l' = [x]).
Proof.
  induction g as [|[k1 l] g IH]; simpl; intros Hs Hin.
  { apply list_elem_of_singleton in Hin as [= -> ->]. set_solver. }
  inversion Hs as [|? ? Hg Hk]; subst. rewrite Forall_forall in Hk.
  assert (forall l2 k2, (k2, l2) ∈ g -> (k1 < k2)%N) as Hk'.
  { intros l2 k2 H. apply Hk. by apply (list_elem_of_fmap_2 fst) in H. }
  destruct (N.compare_spec k k1) as [->|Hlt|Hgt]; apply elem_of_cons in Hin as [[= -> ->]|Hin].
  - right. split; [done|]. left. exists l. set_solver.
  - left. split; [apply Hk' in Hin; lia|set_solver].
  - right. split; [done|]. right. split; [|done]. rewrite not_elem_of_cons. split; [lia|].
    intros Hk2%Hk. lia.
  - left. apply elem_of_cons in Hin as [[= -> ->]|Hin]; [split; [lia|set_solver]|].
    pose proof (Hk' _ _ Hin). split; [lia|set_solver].
  - left. split; [lia|set_solver].
  - destruct (IH Hg Hin) as [[? ?]|[-> [(l2 & ? & ->)|[Hnot ->]]]].
    + left. set_solver.
    + right. split; [done|]. left. exists l2. set_solver.
    + right. split; [done|]. right. split; [|done]. rewrite not_elem_of_cons. split; [lia|done].
Qed.
End groups.

Definition at_distance (distance : gmap string N) (k : N) : TopologyNode -> bool :=
  fun node => (distance_of distance node =? k)%N.

Lemma group_nodes_snoc distance nodes n :
  group_nodes distance (nodes ++ [n])
  = group_push (distance_of distance n) n (group_nodes distance nodes).
Proof. unfold group_nodes. by rewrite foldl_app. Qed.

Lemma group_nodes_keys distance nodes :
  StronglySorted N.lt (group_nodes distance nodes).*1 /\
  forall k, k ∈ (group_nodes distance nodes).*1 <-> k ∈ (distance_of distance <$> nodes).
Proof.
  induction nodes as [|n nodes [Hs Hk]] using rev_ind; [split; [constructor|done]|].
  rewrite group_nodes_snoc. split; [by apply group_push_sorted|].
  intros k. rewrite group_push_keys, Hk, fmap_app. set_solver.
Qed.

(** Each group is exactly the nodes at its distance, in scene order. *)
Lemma group_nodes_elem distance nodes k l :
  (k, l) ∈ group_nodes distance nodes -> l = retain (at_distance distance k) nodes /\ l <> [].
Proof.
  revert k l; induction nodes as [|n nodes IH] using rev_ind; intros k l; [set_solver|].
  destruct (group_nodes_keys distance nodes) as [Hs Hkeys].
  rewrite group_nodes_snoc, retain_app. intros H. apply group_push_elem in H; [|done].
  unfold retain at 2. simpl. unfold at_distance at 2.
  destruct H as [[Hne [-> ?]%IH]|[-> [(l0 & [-> ?]%IH & ->)|[Hnot ->]]]].
  - destruct (N.eqb_spec (distance_of distance n) k); [congruence|]. by rewrite app_nil_r.
  - rewrite N.eqb_refl. split; [done|]. by destruct (retain _ _).
  - rewrite N.eqb_refl. destruct (retain _ nodes) as [|m r] eqn:E; [done|]. destruct Hnot.
    assert (m ∈ retain (at_distance distance (distance_of distance n)) nodes) as [Hm Hin]%elem_of_retain
      by (rewrite E; set_solver).
    apply Hkeys. unfold at_distance in Hm. apply N.eqb_eq in Hm as <-. by apply list_elem_of_fmap_2.
Qed.

Lemma group_nodes_perm distance nodes : concat (group_nodes distance nodes).*2 ≡ₚ nodes.
Proof.
  induction nodes as [|n nodes IH] using rev_ind; [done|].
  rewrite group_nodes_snoc, group_push_perm, IH. apply Permutation_cons_append.
Qed.

(** ** Nodes no path reaches *)

Lemma place_unreached_spec nodes distance next :
  (next + len nodes <= umax 64)%N ->
  let final := (foldl place_unreached (distance, next) nodes).1 in
  distance ⊆ final /\
  (forall n, n ∈ nodes -> is_Some (final !! tnode_id n)) /\
  (forall x d, final !! x = Some d -> distance !! x = None -> (next <= d)%N).
Proof.
  revert distance next. unfold len.
  induction nodes as [|n nodes IH]; intros distance next Hb; simpl.
  { split_and!; [done|set_solver|naive_solver]. }
  simpl length in Hb. destruct (distance !! tnode_id n) as [d|] eqn:E.
  - destruct (IH distance next) as (Hsub & Hall & Hnew); [lia|]. split_and!; try done.
    intros m [->|Hm]%elem_of_cons; [|by apply Hall]. exists d. by eapply lookup_weaken.
  - assert (saturating_add 64 next 1 = next + 1)%N as -> by (unfold saturating_add; lia).
    destruct (IH (<[tnode_id n := next]> distance) (next + 1)%N) as (Hsub & Hall & Hnew); [lia|].
    split_and!.
    + etrans; [by apply insert_subseteq|done].
    + intros m [->|Hm]%elem_of_cons; [|by apply Hall]. exists next. eapply lookup_weaken; [|done].
      by rewrite lookup_insert_eq.
    + intros x d Hd Hx. destruct (decide (x = tnode_id n)) as [->|Hne].
      * pose proof (lookup_weaken _ _ _ _ (lookup_insert_eq distance (tnode_id n) next) Hsub).
        assert (d = next) as -> by congruence. done.
      * specialize (Hnew x d Hd). rewrite lookup_insert_ne in Hnew by congruence.
        specialize (Hnew Hx). lia.
Qed.

Lemma max_distance_spec (distance : gmap string N) x d :
  distance !! x = Some d -> (d <= max_distance distance)%N.
Proof.
  unfold max_distance. revert x d. induction distance as [|i y m Hi IH] using map_ind.
  { intros x d. by rewrite lookup_empty. }
  intros x d. rewrite map_fold_insert_L by (try done; intros; lia).
  intros [[<- <-]|[? ?%IH]]%lookup_insert_Some; lia.
Qed.

Lemma max_distance_bound (distance : gmap string N) b :
  (forall x d, distance !! x = Some d -> (d <= b)%N) -> (max_distance distance <= b)%N.
Proof.
  unfold max_distance. induction distance as [|i y m Hi IH] using map_ind; intros Hb.
  { rewrite map_fold_empty. lia. }
  rewrite map_fold_insert_L by (try done; intros; lia).
  apply N.max_lub.
  - apply (Hb i). by rewrite lookup_insert_eq.
  - apply IH. intros x d Hx. apply (Hb x). rewrite lookup_insert_ne; [done|congruence].
Qed.

Lemma path_roots_length nodes : length (path_roots nodes) <= length nodes.
Proof.
  unfold path_roots. pose proof (retain_length is_binding nodes).
  destruct (retain is_binding nodes); rewrite length_fmap; [|done]. by destruct nodes; simpl; lia.
Qed.

(** A [Vec] never holds more than [isize::MAX] bytes, so real scenes are far
    below this bound; it keeps the distances away from saturation. *)
Definition addressable (scene : OwnershipTopologyScene) : Prop :=
  (len (scene_nodes scene) + len (scene_edges scene) < 2 ^ 63)%N.

Definition shortest (scene : OwnershipTopologyScene) (d : N) (node : TopologyNode) : Prop :=
  let p := path (path_roots (scene_nodes scene)) (scene_edges scene) in
  p d (tnode_id node) /\ forall n, p n (tnode_id node) -> (d <= n)%N.

Definition unreachable (scene : OwnershipTopologyScene) (node : TopologyNode) : Prop :=
  forall n, ~ path (path_roots (scene_nodes scene)) (scene_edges scene) n (tnode_id node).

Lemma reached_distances_spec scene :
  addressable scene ->
  exists reached, reached_distances scene = Some reached /\
    (forall node d, reached !! tnode_id node = Some d <-> shortest scene d node) /\
    (max_distance reached <= len (scene_nodes scene) + len (scene_edges scene))%N.
Proof.
  unfold addressable, reached_distances. intros Hb.
  pose proof (path_roots_length (scene_nodes scene)) as Hr. unfold len in *.
  edestruct (search_shortest (path_roots (scene_nodes scene)) (scene_edges scene)
    (node_order_of (scene_nodes scene))) as (reached & -> & Hs & Hm).
  - unfold len, umax. lia.
  - unfold path_fuel. lia.
  - exists reached. split_and!; [done|intros node d; apply Hs|].
    apply max_distance_bound. intros x d Hd%Hm. unfold len in Hd. lia.
Qed.

Lemma unreachable_lookup scene reached node :
  reached_distances scene = Some reached ->
  (forall node d, reached !! tnode_id node = Some d <-> shortest scene d node) ->
  unreachable scene node -> reached !! tnode_id node = None.
Proof.
  intros _ Hs Hun. destruct (reached !! tnode_id node) as [d|] eqn:E; [|done].
  apply Hs in E as [E _]. by destruct (Hun d).
Qed.

(** The distances used for grouping: the shortest one, or beyond all of them. *)
Lemma all_distances_spec scene :
  addressable scene ->
  exists reached, reached_distances scene = Some reached /\
    let distance := all_distances (scene_nodes scene) reached in
    (forall node d, shortest scene d node -> distance_of distance node = d) /\
    (forall m n d, n ∈ scene_nodes scene -> shortest scene d m -> unreachable scene n ->
       (d < distance_of distance n)%N).
Proof.
  intros Hb. destruct (reached_distances_spec scene Hb) as (reached & Hr & Hs & Hmax).
  exists reached. split; [done|]. unfold addressable, len, all_distances in *.
  assert (saturating_add 64 (max_distance reached) 1 = max_distance reached + 1)%N as ->
    by (unfold saturating_add, umax; lia).
  destruct (place_unreached_spec (scene_nodes scene) reached (max_distance reached + 1))
    as (Hsub & Hall & Hnew); [unfold len, umax; lia|]. split.
  - intros node d Hd%Hs. unfold distance_of. by rewrite (lookup_weaken _ _ _ _ Hd Hsub).
  - intros m n d Hn Hd%Hs%max_distance_spec Hun. destruct (Hall n Hn) as [dn Hdn].
    unfold distance_of. rewrite Hdn. simpl.
    apply Hnew in Hdn; [lia|]. by eapply unreachable_lookup.
Qed.

Lemma path_of_nonempty scene reached :
  scene_nodes scene <> [] -> reached_distances scene = Some reached ->
  let distance := all_distances (scene_nodes scene) reached in
  derive_beginner_memory_path scene = Some (mk_memory_path
    (path_stage (node_order_of (scene_nodes scene)) distance (scene_edges scene) <$>
       group_nodes distance (scene_nodes scene)) (scene_truncated scene)).
Proof.
  intros Hne Hr. unfold derive_beginner_memory_path. rewrite Hr.
  by destruct (scene_nodes scene).
Qed.

Lemma sorted_lt_index (l : list N) i j x y :
  StronglySorted N.lt l -> l !! i = Some x -> l !! j = Some y -> (i < j <-> (x < y)%N).
Proof.
  intros Hs. revert i j. induction Hs as [|z l Hl IH Hz]; intros i j; [done|].
  rewrite Forall_forall in Hz.
  destruct i as [|i], j as [|j]; simpl.
  - intros [= ->] [= ->]. lia.
  - intros [= ->] ?%list_elem_of_lookup_2%Hz. lia.
  - intros ?%list_elem_of_lookup_2%Hz [= ->]. lia.
  - intros Hx Hy. rewrite <- (IH i j Hx Hy). lia.
Qed.

Lemma stage_distance node_order distance edges nodes i stage n :
  (path_stage node_order distance edges <$> group_nodes distance nodes) !! i = Some stage ->
  n ∈ stage_nodes stage ->
  n ∈ nodes /\ (group_nodes distance nodes).*1 !! i = Some (distance_of distance n).
Proof.
  rewrite !list_lookup_fmap. destruct (group_nodes distance nodes !! i) as [[k l]|] eqn:E; [|done].
  intros [= <-]. simpl. rewrite elem_of_sort_by. intros Hn.
  apply list_elem_of_lookup_2, group_nodes_elem in E as [-> _].
  apply elem_of_retain in Hn as [Hk Hn]. apply N.eqb_eq in Hk as ->. done.
Qed.

(** The memory path always exists (the worklist never runs out of fuel); it
    shows every node of the scene exactly once, in stages none of which is
    empty, and carries the scene's truncation flag. *)
Theorem memory_path_covers_scene scene :
  addressable scene ->
  exists p, derive_beginner_memory_path scene = Some p /\
    concat (stage_nodes <$> memory_path_stages p) ≡ₚ scene_nodes scene /\
    Forall (fun stage => stage_nodes stage <> []) (memory_path_stages p) /\
    memory_path_truncated p = scene_truncated scene.
Proof.
  intros Hb. destruct (decide (scene_nodes scene = [])) as [Hnil|Hne].
  { exists (mk_memory_path [] (scene_truncated scene)). unfold derive_beginner_memory_path.
    rewrite Hnil. split_and!; done || constructor. }
  destruct (reached_distances_spec scene Hb) as (reached & Hr & _).
  eexists. split; [by apply path_of_nonempty|]. simpl. split_and!; [| |done].
  - etrans; [|apply (group_nodes_perm (all_distances (scene_nodes scene) reached))].
    rewrite <- list_fmap_compose. generalize (group_nodes (all_distances (scene_nodes scene) reached)
      (scene_nodes scene)) as g. intros g.
    induction g as [|[k l] g IH]; simpl; [done|]. by rewrite sort_by_perm, IH.
  - apply Forall_fmap, Forall_forall. intros [k l] [_ Hl]%group_nodes_elem. simpl.
    intros Hs. apply Hl. apply Permutation_nil_r. rewrite <- Hs. symmetry. apply sort_by_perm.
Qed.

(** Stages are ordered by shortest distance from the local variables (from
    the first node when there are none): of two nodes a path reaches, the one
    in the earlier stage is strictly closer, nodes at equal distance share a
    stage, and nodes no path reaches come after all the others. *)
Theorem memory_path_orders_by_distance scene p i j a b m n :
  addressable scene -> derive_beginner_memory_path scene = Some p ->
  memory_path_stages p !! i = Some a -> memory_path_stages p !! j = Some b ->
  m ∈ stage_nodes a -> n ∈ stage_nodes b ->
  (forall d d', shortest scene d m -> shortest scene d' n -> (i < j <-> (d < d')%N)) /\
  (forall d, shortest scene d m -> unreachable scene n -> i < j).
Proof.
  intros Hb Hp Ha Hb' Hm Hn. destruct (all_distances_spec scene Hb) as (reached & Hr & Hd & Hun).
  assert (scene_nodes scene <> []) as Hne.
  { intros Hnil. unfold derive_beginner_memory_path in Hp. rewrite Hnil in Hp.
    injection Hp as <-. done. }
  rewrite (path_of_nonempty scene reached Hne Hr) in Hp. injection Hp as <-. simpl in *.
  destruct (stage_distance _ _ _ _ _ _ _ Ha Hm) as [_ Hi].
  destruct (stage_distance _ _ _ _ _ _ _ Hb' Hn) as [Hn' Hj].
  destruct (group_nodes_keys (all_distances (scene_nodes scene) reached) (scene_nodes scene))
    as [Hs _]. pose proof (sorted_lt_index _ _ _ _ _ Hs Hi Hj) as Hij. split.
  - intros d d' H1 H2. by rewrite Hij, (Hd _ _ H1), (Hd _ _ H2).
  - intros d H1 H2. rewrite Hij, (Hd _ _ H1). by eapply Hun.
Qed.

Definition sample_path_scene : OwnershipTopologyScene :=
  mk_scene "t" "s"
    [sample_node "heap" ColumnTarget; sample_node "x" ColumnLocal; sample_node "far" ColumnTarget]
    [sample_edge "e" "x" "heap" "owns"] [] 0 [] 0 false true false.

Lemma memory_path_covers_scene_witness :
  (exists p, derive_beginner_memory_path sample_path_scene = Some p /\
    (fun stage => tnode_id <$> stage_nodes stage) <$> memory_path_stages p
      = [["x"]; ["heap"]; ["far"]]) /\
  exists p, derive_beginner_memory_path sample_path_scene = Some p /\
    memory_path_truncated p = true.
Proof.
  split.
  - eexists. split; [vm_compute; reflexivity|]. vm_compute. reflexivity.
  - destruct (memory_path_covers_scene sample_path_scene) as (p & Hp & _ & _ & Ht).
    + vm_compute. reflexivity.
    + exists p. split; [exact Hp|exact Ht].
Defined.

Lemma memory_path_orders_by_distance_witness :
  exists p a b, derive_beginner_memory_path sample_path_scene = Some p /\
    memory_path_stages p !! 0 = Some a /\ memory_path_stages p !! 1 = Some b /\
    (forall d d', shortest sample_path_scene d (sample_node "x" ColumnLocal) ->
       shortest sample_path_scene d' (sample_node "heap" ColumnTarget) -> (0 < 1 <-> (d < d')%N)).
Proof.
  eexists _, _, _. split; [vm_compute; reflexivity|].
  split; [vm_compute; reflexivity|]. split; [vm_compute; reflexivity|].
  eapply (memory_path_orders_by_distance sample_path_scene).
  - vm_compute. reflexivity.
  - vm_compute. reflexivity.
  - vm_compute. reflexivity.
  - vm_compute. reflexivity.
  - vm_compute. apply elem_of_cons. left. reflexivity.
  - vm_compute. apply elem_of_cons. left. reflexivity.
Defined.
