(* ===== verification/Teaching.v ===== *)
(** * The teaching scene

    [derive_teaching_topology_scene] of
    [zed-rust/crates/rust_workbench/src/ownership_topology.rs] and what it
    calls: the operation and the place in focus, the timeline of moments, the
    phase of the selected step, and the scene assembled from the layers of the
    focused type, the conflict graph, the mutation requirement and the
    operation.  The source pushes onto two vectors, [nodes] and [edges]; each
    stage here takes both and returns both. *)

From S2P Require Import Prelude RustStr RustColl Protocol TypeParser TypeLayers Topology.
From stdpp Require Import options.

(** ** Focus *)

Definition operation_distance (problem : OwnershipProblem) (operation : OwnershipOperationInsight) :
    N * N :=
  let start := range_start (operation_range operation) in
  let target := range_start (problem_primary_range problem) in
  (abs_diff (position_line start) (position_line target),
   abs_diff (position_character start) (position_character target)).

Definition selected_teaching_operation (problem : option OwnershipProblem)
    (model : OwnershipModel) : option OwnershipOperationInsight :=
  match problem with
  | Some problem =>
      let by_requirement :=
        if one_of (problem_category problem)
             ["multiple_mutable_borrows"; "mutable_while_shared"; "assign_while_borrowed";
              "use_while_mutably_borrowed"; "immutable_mutation"]
        then selected_mutation_operation model
        else None in
      match by_requirement with
      | Some operation => Some operation
      | None =>
          or_else
            (min_by (on (operation_distance problem) (lex_leb N.compare N.leb))
               (retain operation_ownership_relevant (model_operations model)))
            (fun _ => head (model_operations model))
      end
  | None =>
      or_else (find_first operation_ownership_relevant (model_operations model))
        (fun _ => head (model_operations model))
  end.

Definition conflict_referent (model : OwnershipModel) : option OwnershipConflictNode :=
  graph ← model_conflict_graph model;
  find_first (fun node => cnode_role node =s "borrowed_value") (conflict_nodes graph).

Definition UNRESOLVED_TYPE : string := "value of unresolved type".

Definition focus_place (problem : option OwnershipProblem) (model : OwnershipModel) :
    option string :=
  let operation := selected_teaching_operation problem model in
  or_else (or_else (or_else (or_else
    (operation ← operation; receiver_expression <$> operation_receiver_flow operation)
    (fun _ => cnode_label <$> conflict_referent model))
    (fun _ => requirement_target_place <$> model_mutation_requirement model))
    (fun _ => model_selected_place model))
    (fun _ => problem_binding_name <$> problem).

Definition focus_type (problem : option OwnershipProblem) (model : OwnershipModel)
    (place : string) : string :=
  let root := place_root place in
  default UNRESOLVED_TYPE
    (or_else (or_else (or_else
      (operation ← selected_teaching_operation problem model; operation_receiver_type operation)
      (fun _ => node ← conflict_referent model; cnode_type_name node))
      (fun _ => binding_type_name <$>
         find_first (fun binding => (binding_name binding =s place) || (binding_name binding =s root))
           (model_bindings model)))
      (fun _ => context ← model_source_context model; head (context_related_types context))).

Definition focus_range (problem : option OwnershipProblem) (model : OwnershipModel) :
    option Range :=
  or_else (or_else
    (operation ← selected_teaching_operation problem model;
     receiver_range <$> operation_receiver_flow operation)
    (fun _ => node ← conflict_referent model; cnode_range node))
    (fun _ => problem_binding_range <$> problem).

Definition teaching_focus (problem : option OwnershipProblem) (model : OwnershipModel) :
    option (string * string * option Range) :=
  place ← focus_place problem model;
  Some (place, focus_type problem model place, focus_range problem model).

(** ** The timeline *)

Definition fixed_moments (range : Range) (entries : list (string * string * string)) :
    list TopologyMoment :=
  (fun '(title, explanation, phase) => mk_moment title explanation range (Some phase)) <$> entries.

Definition async_entries : list (string * string * string) :=
  [("Created",
    "Calling async code creates a future value without running its body to completion.",
    "before");
   ("Suspended at .await",
    "Polling reached .await. Locals needed later remain stored inside the future while it is pending.",
    "operation");
   ("Resumed",
    "After wake-up, polling resumes from the saved state until the future becomes ready.",
    "after")].

Definition closure_entries : list (string * string * string) :=
  [("Environment created",
    "Rust creates a closure environment containing each captured value or reference.",
    "before");
   ("Closure called",
    "The capture mode determines whether the call reads, mutates, or consumes the environment.",
    "operation");
   ("After the call",
    "Fn and FnMut environments remain usable; an FnOnce call may consume captured values.",
    "after")].

Definition operation_entries (family : TeachingDiagramFamily)
    (operation : OwnershipOperationInsight) (focus : string) : list (string * string * string) :=
  match family with
  | FamilyTraitObject =>
      [("Fat pointer available",
        "The trait-object handle carries a data pointer and vtable metadata.", "before");
       ("Dynamic call",
        "`" +:+ operation_name operation
        +:+ "` follows the vtable entry while passing the data pointer as its receiver.",
        "operation");
       ("Result",
        "Ownership of the data is still determined by the outer reference or smart pointer.",
        "result")]
  | _ =>
      [("Before", "`" +:+ focus +:+ "` is available through the access path shown below.", "before");
       ("Operation",
        if is_empty (operation_summary operation) then
          "`" +:+ operation_name operation +:+ "` uses "
          +:+ readable_access (operation_required_access operation) +:+ "."
        else operation_summary operation, "operation");
       ("Result",
        default "The operation's ownership effects are now reflected in the diagram."
          (receiver_after <$> operation_receiver_flow operation), "result")]
  end.

Definition operation_moments (family : TeachingDiagramFamily)
    (operation : OwnershipOperationInsight) (focus : string) (fallback_range : option Range) :
    list TopologyMoment :=
  (fun '(index, (title, explanation, phase)) =>
     mk_moment title explanation
       (if (index =? 0)%N then default (operation_range operation) fallback_range
        else operation_range operation)
       (Some phase)) <$> enumerate (operation_entries family operation focus).

Definition conflict_moments (graph : OwnershipConflictGraph) : list TopologyMoment :=
  (fun snapshot => mk_moment (csnapshot_title snapshot) (csnapshot_explanation snapshot)
     (csnapshot_range snapshot) (Some (csnapshot_phase snapshot)))
  <$> take 6 (conflict_snapshots graph).

(** The moments when no conflict snapshot gives them. *)
Definition derived_moments (problem : option OwnershipProblem) (model : OwnershipModel)
    (family : TeachingDiagramFamily) (focus : string) (fallback_range : option Range) :
    list TopologyMoment :=
  let operation := selected_teaching_operation problem model in
  let range :=
    default default_range (or_else fallback_range (fun _ => problem_primary_range <$> problem)) in
  let call_range := from_option operation_range range operation in
  match family, operation with
  | FamilyAsync, _ => fixed_moments call_range async_entries
  | FamilyClosure, _ => fixed_moments call_range closure_entries
  | _, Some operation => operation_moments family operation focus fallback_range
  | _, None =>
      [mk_moment "Current shape"
         ("The selected type determines how `" +:+ focus +:+ "` reaches its value.")
         range (Some "shape")]
  end.

Definition teaching_moments (problem : option OwnershipProblem) (model : OwnershipModel)
    (family : TeachingDiagramFamily) (focus : string) (fallback_range : option Range) :
    list TopologyMoment :=
  match model_conflict_graph model with
  | Some graph =>
      match conflict_snapshots graph with
      | [] => derived_moments problem model family focus fallback_range
      | _ => conflict_moments graph
      end
  | None => derived_moments problem model family focus fallback_range
  end.

Definition selected_phase_kind (moments : list TopologyMoment) (selected_step : N) : string :=
  match get_N moments (N.min selected_step (saturating_sub (len moments) 1)) with
  | None => "current"
  | Some moment =>
      let text := to_ascii_lowercase (moment_title moment +:+ " " +:+ moment_explanation moment) in
      if contains "reject" text || contains "conflict" text || contains "cannot borrow" text then
        "conflict"
      else if contains "end" text || contains "after" text || contains "resume" text
              || contains "result" text then "after"
      else if contains "suspend" text || contains "operation" text || contains "call" text then
        "operation"
      else "before"
  end.

Definition teaching_scene_summary (family : TeachingDiagramFamily)
    (problem : option OwnershipProblem) (operation : option OwnershipOperationInsight)
    (type_name : string) : string :=
  if bool_decide (family = FamilySequence)
     && from_option (fun operation => operation_name operation =s "push") false operation
     && from_option
          (fun problem => str_opt_eqb (problem_diagnostic_code problem) (Some "E0502")) false problem
  then
    "A shared reference points into the Vec element buffer. `push` needs exclusive access and may replace that buffer, so Rust keeps the reference valid until its final use and rejects the mutation."
  else
    match operation with
    | Some operation =>
        let effect :=
          default "" ((fun effect => " " +:+ effect_summary effect) <$>
                        head (operation_effect_facts operation)) in
        "`" +:+ operation_name operation +:+ "` operates on `" +:+ type_name +:+ "` through "
        +:+ readable_access (operation_required_access operation) +:+ "." +:+ effect
    | None =>
        match family with
        | FamilyAsync =>
            "An async body is stored as a future state machine; values needed after `.await` remain inside that future while it is suspended."
        | FamilyClosure =>
            "A closure is a compiler-generated value whose fields are the values or references it captures."
        | FamilyTraitObject =>
            "A trait-object handle combines a data pointer with vtable metadata; its outer wrapper still decides ownership."
        | _ =>
            "The selected `" +:+ type_name
            +:+ "` is expanded from its local handle to the value or storage it reaches."
        end
    end.

(** ** The scene *)

Definition resolved_type_name (family : TeachingDiagramFamily) (type_name : string) : string :=
  if type_name =s UNRESOLVED_TYPE then
    match family with
    | FamilyAsync => "generated Future state machine"
    | FamilyClosure => "compiler-generated closure environment"
    | _ => type_name
    end
  else type_name.

Definition teaching_id (suffix : string) : string := "teaching:" +:+ suffix.
Definition FOCUS_ID : string := teaching_id "focus".

(** An edge as the scene pushes it, before any layout. *)
Definition new_edge (id source target label provenance : string) (active : bool)
    (range : option Range) : TopologyEdge :=
  mk_tedge id source target label provenance active range [] (0, 0)%N.

Definition focus_node (focus type_name phase : string) (range : option Range) : TopologyNode :=
  mk_tnode FOCUS_ID focus focus type_name "selected value or access path" "projected_place" "inline"
    (if phase =s "conflict" then "alive; requested operation blocked" else "available")
    "compiler_type" ColumnLocal range default_rect.

(** The layers of the type, with a future or closure layer added when the
    family asks for one the type did not give. *)
Definition has_layer_kind (kind : string) (layers : list TeachingLayer) : bool :=
  existsb (fun layer => tl_kind layer =s kind) layers.

Definition async_parent (layers : list TeachingLayer) : string :=
  from_option tl_id_suffix "focus"
    (find_first (fun layer => one_of (tl_kind layer) ["heap_allocation"; "control_block"])
       (rev layers)).

Definition teaching_layers (family : TeachingDiagramFamily) (type_name : string) :
    list TeachingLayer :=
  let layers := append_type_layers type_name "focus" "type" [] 0 in
  let layers :=
    if bool_decide (family = FamilyAsync) && negb (has_layer_kind "future_state" layers) then
      append_type_layers "impl Future" (async_parent layers) "async" layers 1
    else layers in
  if bool_decide (family = FamilyClosure) && negb (has_layer_kind "closure_environment" layers) then
    append_type_layers "compiler-generated closure environment" "focus" "closure" layers 1
  else layers.

Definition layer_state (phase kind : string) : string :=
  if kind =s "future_state" then
    if phase =s "operation" then "polling or suspended as Poll::Pending"
    else if phase =s "after" then "resumed; may become Poll::Ready"
    else "created; not yet run to completion"
  else if kind =s "suspension_point" then
    if phase =s "operation" then "active suspension point" else "not currently suspended here"
  else if kind =s "closure_environment" then
    if phase =s "operation" then "closure call is using its captures"
    else if phase =s "after" then "availability depends on Fn, FnMut, or FnOnce"
    else "capture environment created"
  else if (phase =s "conflict") && one_of kind ["buffer"; "element"; "borrowed_view"] then
    "shared borrow live; mutation blocked"
  else if phase =s "after" then "available after the operation or final use"
  else "available".

Definition layer_node (focus phase : string) (range : option Range) (layer : TeachingLayer) :
    TopologyNode :=
  mk_tnode (teaching_id (tl_id_suffix layer)) focus (tl_label layer) (tl_type_name layer)
    (tl_detail layer) (tl_kind layer) (tl_storage layer) (layer_state phase (tl_kind layer))
    (tl_provenance layer) (topology_column (tl_kind layer) (tl_storage layer)) range default_rect.

Definition layer_parent_id (layer : TeachingLayer) : string :=
  teaching_id (default "focus" (tl_parent_suffix layer)).

Definition layer_edge (range : option Range) (layer : TeachingLayer) : TopologyEdge :=
  let id := teaching_id (tl_id_suffix layer) in
  let parent := layer_parent_id layer in
  new_edge ("teaching-edge:" +:+ parent +:+ ":" +:+ id) parent id (tl_relation layer)
    (tl_provenance layer) true range.

(** Nodes and edges under construction. *)
Definition drawing : Type := list TopologyNode * list TopologyEdge.

Definition draw_layers (focus phase : string) (range : option Range)
    (layers : list TeachingLayer) (scene : drawing) : drawing :=
  (scene.1 ++ (layer_node focus phase range <$> layers), scene.2 ++ (layer_edge range <$> layers)).

Definition element_target (nodes : list TopologyNode) : string :=
  from_option tnode_id FOCUS_ID
    (or_else (find_first (fun node => tnode_kind node =s "element") nodes)
       (fun _ => find_first (fun node => tnode_kind node =s "buffer") nodes)).

Definition conflict_snapshot_at (graph : OwnershipConflictGraph) (selected_step : N) :
    option OwnershipConflictSnapshot :=
  or_else (get_N (conflict_snapshots graph) selected_step) (fun _ => last (conflict_snapshots graph)).

(** The state a snapshot records for a node of the conflict graph. *)
Definition snapshot_state (snapshot : option OwnershipConflictSnapshot) (id : string) :
    option string :=
  snapshot ← snapshot;
  cstate_state <$> find_first (fun state => cstate_node_id state =s id) (csnapshot_states snapshot).

Definition conflict_id (node : OwnershipConflictNode) : string :=
  teaching_id ("conflict:" +:+ cnode_id node).

Definition conflict_node (graph : OwnershipConflictGraph)
    (snapshot : option OwnershipConflictSnapshot) (phase : string) (node : OwnershipConflictNode) :
    TopologyNode :=
  let borrower := cnode_role node =s "borrower_reference" in
  mk_tnode (conflict_id node) (cnode_label node) (cnode_label node)
    (default "compiler-resolved role" (cnode_type_name node)) (cnode_memory node)
    (if borrower then "reference_binding" else "binding") "stack"
    (default (if borrower && negb (phase =s "after") then "shared borrow live" else "available")
       (snapshot_state snapshot (cnode_id node)))
    (conflict_provenance graph) ColumnLocal (cnode_range node) default_rect.

Definition is_referent (node : OwnershipConflictNode) : bool := cnode_role node =s "borrowed_value".

Definition role_id (target : string) (node : OwnershipConflictNode) : string :=
  if is_referent node then target else conflict_id node.

Definition role_ids (target : string) (graph : OwnershipConflictGraph) : gmap string string :=
  collect_into cnode_id (role_id target) ∅ (conflict_nodes graph).

Definition conflict_edge (roles : gmap string string) (phase : string)
    (edge : OwnershipConflictEdge) : option TopologyEdge :=
  source ← roles !! cedge_from edge;
  target ← roles !! cedge_to edge;
  Some (new_edge ("teaching-conflict:" +:+ cedge_from edge +:+ ":" +:+ cedge_to edge)
          source target (cedge_kind edge) (cedge_provenance edge) (negb (phase =s "after")) None).

Definition draw_conflict (model : OwnershipModel) (selected_step : N) (phase : string)
    (scene : drawing) : drawing :=
  match model_conflict_graph model with
  | None => scene
  | Some graph =>
      let snapshot := conflict_snapshot_at graph selected_step in
      let roles := role_ids (element_target scene.1) graph in
      (scene.1 ++ (conflict_node graph snapshot phase <$>
                     retain (fun node => negb (is_referent node)) (conflict_nodes graph)),
       scene.2 ++ omap (conflict_edge roles phase) (conflict_edges graph))
  end.

Definition draw_requirement (problem : option OwnershipProblem) (model : OwnershipModel)
    (phase : string) (scene : drawing) : drawing :=
  match model_mutation_requirement model with
  | None => scene
  | Some requirement =>
      if existsb (fun node => tnode_label node =s requirement_access_source requirement) scene.1
      then scene
      else
        let available := readable_available_access (requirement_available_access requirement) in
        let required := readable_access (requirement_required_access requirement) in
        (scene.1 ++
           [mk_tnode (teaching_id "access-source") (requirement_access_source requirement)
              (requirement_access_source requirement) available (requirement_explanation requirement)
              "reference_binding" "stack"
              ("provides " +:+ available +:+ "; cannot grant " +:+ required)
              (requirement_provenance requirement) ColumnLocal (problem_binding_range <$> problem)
              default_rect],
         scene.2 ++
           [new_edge "teaching-edge:access-source" (teaching_id "access-source") FOCUS_ID
              (available +:+ " cannot satisfy " +:+ required) (requirement_provenance requirement)
              (negb (phase =s "after")) (problem_primary_range <$> problem)])
  end.

Definition operation_effect (operation : OwnershipOperationInsight) : string :=
  default (operation_why_required operation)
    (or_else (effect_summary <$> head (operation_effect_facts operation))
       (fun _ => head (operation_effects operation))).

Definition operation_node (operation : OwnershipOperationInsight) (phase : string) : TopologyNode :=
  mk_tnode (teaching_id "operation") (operation_name operation)
    (operation_name operation +:+ "(...) needs "
     +:+ readable_access (operation_required_access operation))
    (operation_signature operation) (operation_effect operation) "operation" "conceptual"
    (if phase =s "conflict" then "operation rejected"
     else if phase =s "after" then "operation finished or available afterward"
     else "requested operation")
    (operation_provenance operation) ColumnLocal (Some (operation_range operation)) default_rect.

Definition receiver_target (nodes : list TopologyNode) : string :=
  from_option tnode_id FOCUS_ID
    (find_first (fun node => (tnode_kind node =s "wrapper") && starts_with "Vec<" (tnode_type_name node))
       nodes).

Definition operation_in_progress (phase : string) : bool :=
  (phase =s "operation") || (phase =s "conflict").

Definition mentions_realloc (text : string) : bool := contains "realloc" (to_ascii_lowercase text).

Definition may_reallocate (operation : OwnershipOperationInsight) : bool :=
  existsb (fun effect => (effect_kind effect =s "allocation") && mentions_realloc (effect_summary effect))
    (operation_effect_facts operation)
  || existsb mentions_realloc (operation_effects operation).

Definition new_buffer_node (operation : OwnershipOperationInsight) (focus type_name phase : string) :
    TopologyNode :=
  let element_type := default "T" (head (parsed_arguments (parse_type type_name))) in
  mk_tnode (teaching_id "possible-new-buffer") focus
    ("Heap B · [" +:+ element_type +:+ " 0] […] [new " +:+ element_type +:+ "]")
    ("possible replacement [" +:+ element_type +:+ "] buffer")
    "created only if runtime capacity is insufficient; the rejected program never performs this transition"
    "buffer" "heap"
    (if phase =s "conflict" then "hypothetical allocation if the rejected push were allowed"
     else "possible runtime effect, not current storage")
    "conceptual_from_trusted_operation_effect" ColumnTarget (Some (operation_range operation))
    default_rect.

Definition draw_operation (operation : option OwnershipOperationInsight)
    (focus type_name phase : string) (scene : drawing) : drawing :=
  match operation with
  | None => scene
  | Some operation =>
      let nodes := scene.1 ++ [operation_node operation phase] in
      let target := receiver_target nodes in
      let range := Some (operation_range operation) in
      let edges := scene.2 ++
        [new_edge "teaching-edge:operation:receiver" (teaching_id "operation") target
           ("needs_" +:+ operation_required_access operation) (operation_provenance operation)
           (operation_in_progress phase) range] in
      if may_reallocate operation then
        (nodes ++ [new_buffer_node operation focus type_name phase],
         edges ++
           [new_edge "teaching-edge:possible-reallocation" target (teaching_id "possible-new-buffer")
              "may_reallocate_to" "conceptual_from_trusted_operation_effect"
              (operation_in_progress phase) range])
      else (nodes, edges)
  end.

Definition teaching_priority (node : TopologyNode) : N :=
  let kind := tnode_kind node in
  let conceptual := contains "conceptual" (tnode_provenance node) in
  if (kind =s "binding") && ends_with ":owner" (tnode_id node) then 0
  else if kind =s "projected_place" then 1
  else if one_of kind ["handle"; "wrapper"] then 2
  else if one_of kind ["borrow_flag"; "lock_state"; "gate"; "metadata"] then 3
  else if one_of kind ["heap_allocation"; "control_block"; "buffer"] && negb conceptual then 4
  else if one_of kind ["element"; "inline_value"; "borrowed_view"] then 5
  else if one_of kind ["reference_binding"; "binding"] then 6
  else if kind =s "operation" then 7
  else if conceptual then 8
  else 9.

Definition same_node_id (left right : TopologyNode) : bool := tnode_id left =s tnode_id right.
Definition same_edge_id (left right : TopologyEdge) : bool := tedge_id left =s tedge_id right.

Definition teaching_key (node : TopologyNode) : N * string := (teaching_priority node, tnode_id node).

Definition order_teaching_nodes (nodes : list TopologyNode) : list TopologyNode :=
  dedup_by same_node_id (sort_by (on teaching_key (lex_leb N.compare String.leb)) nodes).

Definition order_edges (edges : list TopologyEdge) : list TopologyEdge :=
  dedup_by same_edge_id (sort_by (on tedge_id String.leb) edges).

Definition edge_within (ids : list string) (edge : TopologyEdge) : bool :=
  one_of (tedge_source edge) ids && one_of (tedge_target edge) ids.

(** The vectors before layout. *)
Definition assemble_teaching (problem : option OwnershipProblem) (model : OwnershipModel)
    (operation : option OwnershipOperationInsight) (family : TeachingDiagramFamily)
    (focus type_name phase : string) (range : option Range) (selected_step : N) : drawing :=
  let scene := draw_layers focus phase range (teaching_layers family type_name)
                 ([focus_node focus type_name phase range], []) in
  let scene := draw_conflict model selected_step phase scene in
  let scene := draw_requirement problem model phase scene in
  draw_operation operation focus type_name phase scene.

(** Order, remove duplicates, keep what the search from the focus selects. *)
Definition select_teaching (focus : string) (scene : drawing) : drawing :=
  let nodes := order_teaching_nodes scene.1 in
  let edges := order_edges scene.2 in
  let retained_ids := semantic_node_order nodes edges [focus] 12 in
  (retain (fun node => one_of (tnode_id node) retained_ids) nodes,
   truncate 20 (retain (edge_within retained_ids) edges)).

Definition teaching_access_lines (operation : option OwnershipOperationInsight)
    (type_name : string) : list string :=
  ("Selected type: `" +:+ type_name +:+ "`") ::
  match operation with
  | Some operation =>
      ["Call contract: `" +:+ operation_name operation +:+ "` requires "
       +:+ readable_access (operation_required_access operation)]
  | None => []
  end.

(** Without a problem or an operation, a compiler graph takes precedence. *)
Definition defers_to_graph (problem : option OwnershipProblem)
    (operation : option OwnershipOperationInsight) (model : OwnershipModel) : bool :=
  match problem, operation, graph_nodes (model_memory_graph model) with
  | None, None, _ :: _ => true
  | _, _, _ => false
  end.

Definition derive_teaching_topology_scene (problem : option OwnershipProblem)
    (model : OwnershipModel) (selected_step : N) : option OwnershipTopologyScene :=
  '(focus, focus_type_name, range) ← teaching_focus problem model;
  let operation := selected_teaching_operation problem model in
  if defers_to_graph problem operation model then None
  else
    let family := teaching_diagram_family problem focus_type_name in
    let type_name := resolved_type_name family focus_type_name in
    let moments := teaching_moments problem model family focus range in
    let selected_step := N.min selected_step (saturating_sub (len moments) 1) in
    let phase := selected_phase_kind moments selected_step in
    let drawn :=
      assemble_teaching problem model operation family focus type_name phase range selected_step in
    let selected := select_teaching focus drawn in
    let '(nodes, edges, canvas_height) := layout_topology_scene selected.1 selected.2 in
    Some {|
      scene_title := teaching_title family focus;
      scene_summary := teaching_scene_summary family problem operation type_name;
      scene_nodes := nodes;
      scene_edges := edges;
      scene_moments := moments;
      scene_selected_step := selected_step;
      scene_access_lines := teaching_access_lines operation type_name;
      scene_canvas_height := canvas_height;
      scene_expanded := false;
      scene_truncated := false;
      scene_legacy_limited := false
    |}.
