(* ===== verification/TeachingSpec.v ===== *)
(** * Properties of the teaching scene

    Every drawing stage keeps the drawing closed (edges join drawn nodes) and,
    for a model the bridge served, keeps the node ids distinct; so the selected
    scene is within its limits, every edge of it is routed, the selected step
    always has a moment, and every reported problem gets a scene. *)

From S2P Require Import Prelude RustStr RustColl Protocol BridgeSpec TypeParser TypeLayers TypeLayersSpec Topology TopologySpec Teaching.
From stdpp Require Import options.

(** ** Closed drawings *)

Definition node_ids (scene : drawing) : list string := tnode_id <$> scene.1.

Definition joins (ids : list string) (edge : TopologyEdge) : Prop :=
  tedge_source edge ∈ ids /\ tedge_target edge ∈ ids.

Definition closed (scene : drawing) : Prop := Forall (joins (node_ids scene)) scene.2.

Lemma joins_mono ids ids' edge : ids ⊆ ids' -> joins ids edge -> joins ids' edge.
Proof. unfold joins. set_solver. Qed.

Lemma closed_extend scene nodes edges :
  closed scene -> Forall (joins (node_ids scene ++ (tnode_id <$> nodes))) edges ->
  closed (scene.1 ++ nodes, scene.2 ++ edges).
Proof.
  unfold closed, node_ids. simpl. rewrite fmap_app, Forall_app. intros Hs He. split; [|done].
  eapply Forall_impl; [exact Hs|]. intros e. apply joins_mono. set_solver.
Qed.

Lemma find_first_id p (nodes : list TopologyNode) d :
  from_option tnode_id d (find_first p nodes) ∈ d :: (tnode_id <$> nodes).
Proof.
  destruct (find_first p nodes) as [n|] eqn:E; simpl; [|set_solver].
  apply find_first_Some in E as [_ ?]. apply elem_of_cons. right. by apply list_elem_of_fmap_2.
Qed.

Lemma elem_of_absorb {A} (x d : A) l : d ∈ l -> x ∈ d :: l -> x ∈ l.
Proof. intros Hd [->|Hx]%elem_of_cons; done. Qed.

Lemma element_target_drawn nodes :
  FOCUS_ID ∈ (tnode_id <$> nodes) -> element_target nodes ∈ (tnode_id <$> nodes).
Proof.
  intros Hf. apply (elem_of_absorb _ _ _ Hf). unfold element_target, or_else.
  pose proof (find_first_id (fun n => tnode_kind n =s "element") nodes FOCUS_ID) as H1.
  pose proof (find_first_id (fun n => tnode_kind n =s "buffer") nodes FOCUS_ID) as H2.
  by destruct (find_first (fun n => tnode_kind n =s "element") nodes).
Qed.

Lemma receiver_target_drawn nodes :
  FOCUS_ID ∈ (tnode_id <$> nodes) -> receiver_target nodes ∈ (tnode_id <$> nodes).
Proof. intros Hf. apply (elem_of_absorb _ _ _ Hf), find_first_id. Qed.

Lemma layer_edges_join range seen layers :
  parents_ok seen layers ->
  Forall (joins (teaching_id <$> (seen ++ (tl_id_suffix <$> layers)))) (layer_edge range <$> layers).
Proof.
  revert seen. induction layers as [|l layers IH]; intros seen; [constructor|].
  intros [(p & Hp & Hin) Hrest]. rewrite fmap_cons. constructor.
  - unfold joins, layer_edge, layer_parent_id. rewrite Hp. simpl.
    split; apply list_elem_of_fmap_2; set_solver.
  - eapply Forall_impl; [apply (IH _ Hrest)|]. intros e. apply joins_mono.
    intros x (y & -> & Hy)%list_elem_of_fmap. apply list_elem_of_fmap_2. set_solver.
Qed.

Lemma draw_layers_closed focus phase range layers scene :
  parents_ok ["focus"] layers -> FOCUS_ID ∈ node_ids scene -> closed scene ->
  closed (draw_layers focus phase range layers scene).
Proof.
  intros Hp Hf Hs. apply closed_extend; [done|].
  eapply Forall_impl; [by apply layer_edges_join|]. intros e. apply joins_mono.
  rewrite <- list_fmap_compose, fmap_app. intros x [Hx|Hx]%elem_of_app.
  - simpl in Hx. apply list_elem_of_singleton in Hx as ->. set_solver.
  - apply elem_of_app. right. by rewrite <- list_fmap_compose in Hx.
Qed.

Lemma role_ids_drawn target graph id r :
  role_ids target graph !! id = Some r ->
  r = target \/
  r ∈ (conflict_id <$> retain (fun node => negb (is_referent node)) (conflict_nodes graph)).
Proof.
  unfold role_ids. rewrite collect_into_lookup, lookup_empty.
  destruct (last_with cnode_id id (conflict_nodes graph)) as [n|] eqn:E; [|done]. intros [= <-].
  apply last_with_Some in E as [Hn _]. unfold role_id.
  destruct (is_referent n) eqn:Hr; [by left|right].
  apply list_elem_of_fmap_2, elem_of_retain. by rewrite Hr.
Qed.

Lemma draw_conflict_closed model step phase scene :
  FOCUS_ID ∈ node_ids scene -> closed scene -> closed (draw_conflict model step phase scene).
Proof.
  intros Hf Hs. unfold draw_conflict. destruct (model_conflict_graph model) as [graph|]; [|done].
  apply closed_extend; [done|]. apply Forall_forall. intros e He.
  apply list_elem_of_omap in He as (c & _ & Hc). unfold conflict_edge in Hc.
  destruct (role_ids _ _ !! cedge_from c) as [a|] eqn:Ea; [|done].
  destruct (role_ids _ _ !! cedge_to c) as [b|] eqn:Eb; [|done].
  injection Hc as <-. unfold joins. simpl. rewrite <- list_fmap_compose.
  pose proof (element_target_drawn scene.1 Hf).
  apply role_ids_drawn in Ea as [->|Ea], Eb as [->|Eb]; split; apply elem_of_app; auto.
Qed.

Lemma draw_requirement_closed problem model phase scene :
  FOCUS_ID ∈ node_ids scene -> closed scene -> closed (draw_requirement problem model phase scene).
Proof.
  intros Hf Hs. unfold draw_requirement.
  destruct (model_mutation_requirement model); [|done]. destruct (existsb _ _); [done|].
  apply closed_extend; [done|]. constructor; [|constructor]. unfold joins. simpl. set_solver.
Qed.

Lemma draw_operation_closed operation focus type_name phase scene :
  FOCUS_ID ∈ node_ids scene -> closed scene ->
  closed (draw_operation operation focus type_name phase scene).
Proof.
  intros Hf Hs. unfold draw_operation. destruct operation as [op|]; [|done].
  set (nodes := scene.1 ++ [operation_node op phase]).
  assert (receiver_target nodes ∈ (tnode_id <$> nodes)) as Ht.
  { apply receiver_target_drawn. unfold nodes. rewrite fmap_app. set_solver. }
  assert (forall edge, tedge_source edge = teaching_id "operation" ->
    tedge_target edge = receiver_target nodes -> closed (nodes, scene.2 ++ [edge])) as H1.
  { intros edge Es Et. apply closed_extend; [done|]. constructor; [|constructor]. unfold joins.
    rewrite Es, Et. unfold node_ids. rewrite <- fmap_app. split; [|exact Ht].
    rewrite fmap_app, elem_of_app. right. by apply elem_of_cons; left. }
  destruct (may_reallocate op); [|by apply H1].
  apply (closed_extend (nodes, _)); [by apply H1|]. constructor; [|constructor].
  unfold joins, node_ids. cbn [fst]. rewrite !elem_of_app. split; [by left|right].
  by apply elem_of_cons; left.
Qed.

(** Stages only append nodes. *)
Lemma stages_keep_ids (scene : drawing) model step phase problem :
  node_ids scene ⊆ node_ids (draw_conflict model step phase scene) /\
  node_ids scene ⊆ node_ids (draw_requirement problem model phase scene).
Proof.
  unfold node_ids, draw_conflict, draw_requirement. split.
  - destruct (model_conflict_graph model); simpl; rewrite ?fmap_app; set_solver.
  - destruct (model_mutation_requirement model); [|done]. destruct (existsb _ _); simpl;
      rewrite ?fmap_app; set_solver.
Qed.

(** ** Distinct ids *)

Lemma starts_with_inv p s : starts_with p s = true -> exists r, s = p +:+ r.
Proof.
  unfold starts_with. destruct (strip_prefix p s) as [r|] eqn:E; [|done]. intros _.
  exists r. by apply strip_prefix_Some.
Qed.

(** The suffix starts with one of the given markers. *)
Definition marked (marks : list string) (s : string) : Prop :=
  Exists (fun mark => starts_with mark s = true) marks.

(** No string carries both a mark of the list and the other one. *)
Definition apart (marks : list string) (mark : string) : Prop :=
  Forall (fun m => forall r, starts_with mark (m +:+ r) = false) marks.

Lemma apart_not_marked marks mark s :
  apart marks mark -> marked marks s -> starts_with mark s = false.
Proof.
  intros Ha Hm. apply Exists_exists in Hm as (m & Hin & (r & ->)%starts_with_inv).
  unfold apart in Ha. rewrite Forall_forall in Ha. by apply Ha.
Qed.

Record layer_tree (marks : list string) (layers : list TeachingLayer) : Prop := {
  tree_ids : NoDup (tl_id_suffix <$> layers);
  tree_parents : parents_ok ["focus"] layers;
  tree_marks : Forall (marked marks) (tl_id_suffix <$> layers)
}.

Lemma key_id_marked prefix k : starts_with (prefix +:+ ":") (key_id prefix k) = true.
Proof.
  unfold key_id, child_id. rewrite <- (append_assoc prefix ":"). apply starts_with_app.
Qed.

Lemma layer_tree_grows marks prefix parent depth before after :
  layer_tree marks before -> grows prefix parent depth before after ->
  parent ∈ "focus" :: (tl_id_suffix <$> before) -> apart marks (prefix +:+ ":") ->
  layer_tree ((prefix +:+ ":") :: marks) after.
Proof.
  intros [Hnd Hp Hm] (new & keys & -> & Hids & Hkeys & Hnew) Hparent Hapart. split.
  - rewrite fmap_app, NoDup_app. split_and!; [done| |].
    + intros s Hs Hs'. rewrite Hids in Hs'. apply list_elem_of_fmap in Hs' as (k & -> & _).
      rewrite Forall_forall in Hm. pose proof (apart_not_marked _ _ _ Hapart (Hm _ Hs)) as E.
      by rewrite key_id_marked in E.
    + rewrite Hids. by eapply fresh_keys_ids.
  - apply parents_ok_app; [done|]. eapply parents_ok_mono; [|exact Hnew]. set_solver.
  - rewrite fmap_app, Forall_app. split.
    + eapply Forall_impl; [exact Hm|]. intros s Hs. by apply Exists_cons_tl.
    + rewrite Hids. apply Forall_fmap, Forall_forall. intros k _. apply Exists_cons_hd, key_id_marked.
Qed.

Lemma layer_tree_weaken marks marks' layers :
  marks ⊆ marks' -> layer_tree marks layers -> layer_tree marks' layers.
Proof.
  intros Hs [? ? Hm]. split; [done..|]. eapply Forall_impl; [exact Hm|].
  unfold marked. intros s (m & ? & ?)%Exists_exists. apply Exists_exists. exists m. set_solver.
Qed.

Definition layer_marks : list string := ["closure:"; "async:"; "type:"].

Ltac prove_apart := repeat (apply Forall_cons; split; [intros r; reflexivity|]); apply Forall_nil_2.

Lemma async_parent_drawn layers : async_parent layers ∈ "focus" :: (tl_id_suffix <$> layers).
Proof.
  unfold async_parent. destruct (find_first _ _) as [l|] eqn:E; simpl; [|set_solver].
  apply find_first_Some in E as [_ Hl]. rewrite list_elem_of_In, <- in_rev, <- list_elem_of_In in Hl.
  apply elem_of_cons. right. by apply list_elem_of_fmap_2.
Qed.

Lemma teaching_layers_tree family type_name :
  layer_tree layer_marks (teaching_layers family type_name).
Proof.
  unfold teaching_layers.
  pose proof (append_type_layers_grows type_name "focus" "type" [] 0) as H1.
  set (layers1 := append_type_layers type_name "focus" "type" [] 0) in *.
  assert (layer_tree ["type:"] layers1) as Ht1.
  { eapply (layer_tree_grows [] "type"); [|exact H1|set_solver|constructor].
    split; [constructor|done|constructor]. }
  set (layers2 := if _ && _ then append_type_layers "impl Future" _ _ _ _ else layers1).
  assert (layer_tree ["async:"; "type:"] layers2) as Ht2.
  { unfold layers2. destruct (_ && _); [|eapply layer_tree_weaken; [|exact Ht1]; set_solver].
    eapply (layer_tree_grows ["type:"] "async"); [done|apply append_type_layers_grows| |prove_apart].
    apply async_parent_drawn. }
  clearbody layers2. destruct (_ && _); [|eapply layer_tree_weaken; [|exact Ht2]; unfold layer_marks; set_solver].
  eapply (layer_tree_grows ["async:"; "type:"] "closure");
    [done|apply append_type_layers_grows|set_solver|prove_apart].
Qed.

(** Ids of the nodes the stages add, each after the common prefix. *)
Definition conflict_suffix (node : OwnershipConflictNode) : string := "conflict:" +:+ cnode_id node.

Record distinct (marks : list string) (scene : drawing) : Prop := {
  distinct_ids : NoDup (node_ids scene);
  distinct_marks : Forall (fun id => exists s, id = teaching_id s /\ marked marks s) (node_ids scene)
}.

Lemma distinct_extend marks mark suffixes scene nodes edges :
  distinct marks scene -> tnode_id <$> nodes = teaching_id <$> suffixes -> NoDup suffixes ->
  Forall (fun s => starts_with mark s = true) suffixes -> apart marks mark ->
  distinct (mark :: marks) (scene.1 ++ nodes, edges).
Proof.
  intros [Hnd Hm] Hids Hsuf Hmark Hapart. unfold node_ids in *.
  rewrite Forall_forall in Hm, Hmark. split; unfold node_ids; cbn [fst]; rewrite fmap_app, Hids.
  - rewrite NoDup_app. split_and!; [done| |].
    + intros id (s & -> & Hs)%Hm (s' & E%append_inj_l & Hs')%list_elem_of_fmap. subst s'.
      pose proof (apart_not_marked _ _ _ Hapart Hs). rewrite Hmark in * by done. done.
    + apply NoDup_fmap_2; [|done]. intros a b. apply append_inj_l.
  - rewrite Forall_app. split; apply Forall_forall.
    + intros id (s & -> & Hs)%Hm. exists s. split; [done|]. by apply Exists_cons_tl.
    + intros id (s & -> & Hs)%list_elem_of_fmap. exists s. split; [done|].
      by apply Exists_cons_hd, Hmark.
Qed.

Lemma distinct_weaken marks marks' scene :
  marks ⊆ marks' -> distinct marks scene -> distinct marks' scene.
Proof.
  intros Hs [? Hm]. split; [done|]. eapply Forall_impl; [exact Hm|]. simpl.
  intros id (s & -> & (m & ? & ?)%Exists_exists). exists s. split; [done|]. apply Exists_exists.
  exists m. set_solver.
Qed.

Lemma draw_layers_distinct focus type_name phase range layers :
  layer_tree layer_marks layers ->
  distinct ("focus" :: layer_marks)
    (draw_layers focus phase range layers ([focus_node focus type_name phase range], [])).
Proof.
  intros [Hnd _ Hm].
  assert (node_ids (draw_layers focus phase range layers ([focus_node focus type_name phase range], []))
    = teaching_id <$> ("focus" :: (tl_id_suffix <$> layers))) as Hids.
  { unfold node_ids, draw_layers. simpl. by rewrite <- !list_fmap_compose. }
  split; rewrite Hids.
  - apply NoDup_fmap_2; [intros a b; apply append_inj_l|]. constructor; [|done].
    intros Hin. rewrite Forall_forall in Hm. specialize (Hm _ Hin).
    repeat (apply Exists_cons in Hm as [Hm|Hm]; [discriminate Hm|]). by apply Exists_nil in Hm.
  - apply Forall_fmap. constructor.
    + exists "focus". split; [done|]. by apply Exists_cons_hd.
    + eapply Forall_impl; [exact Hm|]. intros s Hs. exists s. split; [done|]. by apply Exists_cons_tl.
Qed.

Lemma draw_conflict_distinct marks model step phase scene :
  (forall g, model_conflict_graph model = Some g -> NoDup (cnode_id <$> conflict_nodes g)) ->
  apart marks "conflict:" -> distinct marks scene ->
  distinct ("conflict:" :: marks) (draw_conflict model step phase scene).
Proof.
  intros Hg Hapart Hd. unfold draw_conflict.
  destruct (model_conflict_graph model) as [g|]; [|eapply distinct_weaken; [|done]; set_solver].
  eapply (distinct_extend _ _ (conflict_suffix <$> retain (fun n => negb (is_referent n))
    (conflict_nodes g))); [done| | | |done].
  - by rewrite <- !list_fmap_compose.
  - specialize (Hg g eq_refl). apply (NoDup_retain _ (fun n => negb (is_referent n))) in Hg.
    apply (NoDup_fmap_2 (String.append "conflict:")) in Hg.
    by rewrite <- list_fmap_compose in Hg.
  - apply Forall_fmap, Forall_forall. intros n _. apply starts_with_app.
Qed.

Ltac single_mark s := eapply (distinct_extend _ _ [s]);
  [done|reflexivity|apply NoDup_singleton|by repeat constructor|done].

Lemma draw_requirement_distinct marks problem model phase scene :
  apart marks "access-source" -> distinct marks scene ->
  distinct ("access-source" :: marks) (draw_requirement problem model phase scene).
Proof.
  intros Hapart Hd. unfold draw_requirement.
  destruct (model_mutation_requirement model) as [r|];
    [destruct (existsb _ _)|]; try (eapply distinct_weaken; [|done]; set_solver).
  single_mark "access-source".
Qed.

Lemma draw_operation_distinct marks operation focus type_name phase scene :
  apart marks "operation" -> apart ("operation" :: marks) "possible-new-buffer" ->
  distinct marks scene ->
  distinct ("possible-new-buffer" :: "operation" :: marks)
    (draw_operation operation focus type_name phase scene).
Proof.
  intros Ha1 Ha2 Hd. unfold draw_operation.
  destruct operation as [op|]; [|eapply distinct_weaken; [|done]; set_solver].
  assert (forall edges, distinct ("operation" :: marks)
    (scene.1 ++ [operation_node op phase], edges)) as H1 by (intros; single_mark "operation").
  destruct (may_reallocate op); [|eapply distinct_weaken; [|apply H1]; set_solver].
  eapply (distinct_extend _ _ ["possible-new-buffer"] (_, []));
    [apply (H1 [])|reflexivity|apply NoDup_singleton|by repeat constructor|done].
Qed.

Section assembled.
Context (problem : option OwnershipProblem) (model : OwnershipModel)
  (operation : option OwnershipOperationInsight) (family : TeachingDiagramFamily)
  (focus type_name phase : string) (range : option Range) (step : N).

Let drawn :=
  assemble_teaching problem model operation family focus type_name phase range step.

Lemma assembled_distinct :
  (forall g, model_conflict_graph model = Some g -> NoDup (cnode_id <$> conflict_nodes g)) ->
  NoDup (node_ids drawn).
Proof using Type.
  intros Hg. apply distinct_ids with (marks := "possible-new-buffer" :: "operation" ::
    "access-source" :: "conflict:" :: "focus" :: layer_marks).
  apply draw_operation_distinct; [prove_apart..|].
  apply draw_requirement_distinct; [prove_apart|].
  apply draw_conflict_distinct; [done|prove_apart|].
  apply draw_layers_distinct, teaching_layers_tree.
Qed.

Lemma assembled_closed : closed drawn /\ FOCUS_ID ∈ node_ids drawn.
Proof using Type.
  unfold drawn, assemble_teaching.
  set (s1 := draw_layers _ _ _ _ _). assert (FOCUS_ID ∈ node_ids s1) as H1.
  { unfold s1, node_ids, draw_layers. simpl. apply elem_of_cons. by left. }
  assert (closed s1) as C1.
  { apply draw_layers_closed; [apply teaching_layers_tree|by apply elem_of_cons; left|constructor]. }
  set (s2 := draw_conflict _ _ _ _).
  destruct (stages_keep_ids s1 model step phase problem) as [K2 _].
  assert (closed s2) as C2 by (by apply draw_conflict_closed).
  set (s3 := draw_requirement _ _ _ _).
  destruct (stages_keep_ids s2 model step phase problem) as [_ K3].
  assert (FOCUS_ID ∈ node_ids s3) as H3 by (by apply K3, K2).
  split; [apply draw_operation_closed; [done|by apply draw_requirement_closed; [apply K2|]]|].
  unfold draw_operation, node_ids. destruct operation as [op|]; [|done].
  destruct (may_reallocate op); cbn [fst]; rewrite !fmap_app, !elem_of_app; auto.
Qed.
End assembled.

(** ** Selection *)

Lemma semantic_roots_drawn nodes names :
  semantic_roots nodes names ⊆ (tnode_id <$> nodes) /\
  (nodes <> [] -> exists r, r ∈ semantic_roots nodes names).
Proof.
  assert (tnode_id <$> retain (matches_selection names) (retain is_binding nodes)
    ⊆ (tnode_id <$> nodes)) as H1.
  { intros x (n & -> & [_ [_ Hn]%elem_of_retain]%elem_of_retain)%list_elem_of_fmap.
    by apply list_elem_of_fmap_2. }
  assert (tnode_id <$> take 1 (retain is_binding nodes) ⊆ (tnode_id <$> nodes)) as H2.
  { intros x (n & -> & Hn)%list_elem_of_fmap. apply list_elem_of_fmap_2.
    eapply elem_of_sublist; [|apply (retain_sublist is_binding)].
    eapply elem_of_sublist; [exact Hn|apply sublist_take]. }
  unfold semantic_roots.
  destruct (tnode_id <$> retain _ (retain _ _)) as [|x xs]; [|split; [done|intros; exists x; set_solver]].
  destruct (tnode_id <$> take 1 _) as [|y ys]; [|split; [done|intros; exists y; set_solver]].
  destruct nodes as [|n nodes]; simpl; [done|]. split; [set_solver|]. exists (tnode_id n). set_solver.
Qed.

Lemma reachable_drawn ids roots edges x :
  roots ⊆ ids -> Forall (joins ids) edges -> reachable roots edges x -> x ∈ ids.
Proof.
  intros Hr He (r & Hin & Hrtc). rewrite Forall_forall in He.
  assert (r ∈ ids) as Hids by (by apply Hr). clear Hin.
  induction Hrtc as [|a b c (e & Hine & Hends) _ IH]; [done|]. apply IH.
  destruct (He e Hine). destruct Hends as [[_ <-]|[_ <-]]; done.
Qed.

Lemma order_facts nodes edges names limit :
  let order := semantic_node_order nodes edges names limit in
  NoDup order /\ (len order <= limit)%N /\
  (Forall (joins (tnode_id <$> nodes)) edges -> order ⊆ (tnode_id <$> nodes)) /\
  (nodes <> [] -> (0 < limit)%N -> order <> []).
Proof.
  destruct (decide (limit = 0%N)) as [->|Hl].
  { cbn. split_and!; [constructor|done|set_solver|lia]. }
  destruct (semantic_roots_drawn nodes names) as [Hroots Hsome].
  destruct (semantic_node_order_result nodes edges names limit) as (Hnd & Hlen & Hsound & Hcomp);
    [lia|]. split_and!; [done..| |].
  - intros He x Hx. eapply reachable_drawn; [exact Hroots|exact He|by apply Hsound].
  - intros Hne _. destruct (Hsome Hne) as [r Hr]. intros Hnil. rewrite Hnil in *.
    destruct Hcomp as [Hlim|Hcomp]; [unfold len in Hlim; simpl in Hlim; lia|].
    assert (r ∈ []) as Hin by (apply Hcomp; exists r; split; [done|apply rtc_refl]).
    by apply not_elem_of_nil in Hin.
Qed.

Lemma order_edges_facts edges :
  NoDup (tedge_id <$> order_edges edges) /\
  (forall e, e ∈ order_edges edges -> e ∈ edges) /\
  (NoDup (tedge_id <$> edges) -> order_edges edges ≡ₚ edges).
Proof.
  unfold order_edges. split_and!.
  - apply (dedup_by_NoDup tedge_id String.leb); [|apply sort_on_sorted; apply _].
    intros x y. apply str_eqb_eq.
  - intros e He%elem_of_dedup_by. by rewrite elem_of_sort_by in He.
  - intros Hnd. rewrite dedup_by_id; [apply sort_by_perm| |].
    + intros x y Hx Hy E%str_eqb_eq. rewrite elem_of_sort_by in Hx, Hy.
      by eapply (NoDup_fmap_inj tedge_id edges).
    + rewrite sort_by_perm. by eapply NoDup_fmap_1.
Qed.

Lemma edge_within_spec ids e : edge_within ids e = true <-> joins ids e.
Proof. unfold edge_within, joins. by rewrite andb_true_iff, !one_of_spec. Qed.

Lemma retained_nodes (nodes : list TopologyNode) ids :
  NoDup (tnode_id <$> nodes) -> NoDup ids -> ids ⊆ (tnode_id <$> nodes) ->
  tnode_id <$> retain (fun n => one_of (tnode_id n) ids) nodes ≡ₚ ids.
Proof.
  intros Hn Hi Hs. apply NoDup_Permutation; [by apply NoDup_retain|done|].
  intros x. rewrite list_elem_of_fmap. setoid_rewrite elem_of_retain.
  setoid_rewrite one_of_spec. split; [naive_solver|].
  intros Hx. pose proof (Hs _ Hx) as (n & -> & ?)%list_elem_of_fmap. eauto.
Qed.

Lemma order_teaching_perm nodes :
  NoDup (tnode_id <$> nodes) -> order_teaching_nodes nodes ≡ₚ nodes.
Proof.
  intros Hnd. unfold order_teaching_nodes. rewrite dedup_by_id; [apply sort_by_perm| |].
  - intros x y Hx Hy E%str_eqb_eq. rewrite elem_of_sort_by in Hx, Hy.
    by eapply (NoDup_fmap_inj tnode_id nodes).
  - rewrite sort_by_perm. by eapply NoDup_fmap_1.
Qed.

(** What every scene promises about its nodes and edges. *)
Record scene_within (node_limit edge_limit : N) (scene : drawing) : Prop := {
  within_ids : NoDup (node_ids scene);
  within_edge_ids : NoDup (tedge_id <$> scene.2);
  within_nodes : (len scene.1 <= node_limit)%N;
  within_edges : (len scene.2 <= edge_limit)%N;
  within_closed : closed scene
}.

Lemma select_teaching_within focus scene :
  NoDup (node_ids scene) -> closed scene -> scene.1 <> [] ->
  scene_within 12 20 (select_teaching focus scene) /\ (select_teaching focus scene).1 <> [].
Proof.
  intros Hnd Hc Hne. unfold select_teaching.
  destruct (order_edges_facts scene.2) as (Hend & Hesub & _).
  pose proof (order_teaching_perm scene.1 Hnd) as Hperm.
  set (nodes := order_teaching_nodes scene.1) in *. set (edges := order_edges scene.2) in *.
  assert (Forall (joins (tnode_id <$> nodes)) edges) as Hj.
  { apply Forall_forall. intros e He%Hesub. unfold closed, node_ids in Hc.
    rewrite Forall_forall in Hc. unfold joins. rewrite Hperm. by apply Hc. }
  destruct (order_facts nodes edges [focus] 12) as (Ho1 & Ho2 & Ho3 & Ho4).
  specialize (Ho3 Hj). set (ids := semantic_node_order nodes edges [focus] 12) in *.
  assert (tnode_id <$> retain (fun n => one_of (tnode_id n) ids) nodes ≡ₚ ids) as Hids
    by (apply retained_nodes; [by rewrite Hperm|done..]).
  split; [split|]; unfold node_ids; cbn [fst snd].
  - by rewrite Hids.
  - eapply sublist_NoDup; [exact Hend|]. apply fmap_sublist.
    etrans; [apply truncate_sublist|apply retain_sublist].
  - unfold len. erewrite <- length_fmap, Hids. exact Ho2.
  - apply truncate_length.
  - apply Forall_forall. intros e He. unfold node_ids, joins. cbn [fst]. rewrite Hids.
    eapply elem_of_sublist in He; [|apply truncate_sublist].
    by apply elem_of_retain in He as [He%edge_within_spec _].
  - intros Hnil. rewrite Hnil in Hids. apply Permutation_nil_l in Hids.
    apply Ho4; [|lia|done]. intros Hn. rewrite Hn in Hperm.
    by apply Permutation_nil_l in Hperm.
Qed.

(** Layout keeps those promises, and routes every edge. *)
Lemma layout_within scene :
  let '(nodes, edges, height) := layout_topology_scene scene.1 scene.2 in
  forall node_limit edge_limit, scene_within node_limit edge_limit scene ->
  scene_within node_limit edge_limit (nodes, edges) /\
  ((1 <= len scene.1 <= 642)%N -> Forall (fun e => good_route height (tedge_route e)) edges).
Proof.
  unfold layout_topology_scene. intros node_limit edge_limit [Hi He Hn Hl Hc].
  set (rects := node_rects (layout_nodes scene.1)).
  split; [split|]; unfold node_ids in *; cbn [fst snd].
  - by rewrite layout_nodes_ids.
  - by rewrite layout_edges_ids.
  - unfold len. by rewrite layout_nodes_length.
  - unfold len. by rewrite length_fmap.
  - apply Forall_fmap. eapply Forall_impl; [exact Hc|]. intros e. unfold joins, node_ids. simpl.
    destruct (layout_edge_ends rects e) as (-> & -> & _). by rewrite layout_nodes_ids.
  - intros Hb. apply Forall_fmap. eapply Forall_impl; [exact Hc|]. intros e [Hs Ht]. simpl.
    unfold len in *. rewrite layout_nodes_length, row_y_exact by lia.
    replace (N.max (N.of_nat (length scene.1)) 1) with (len scene.1) by (unfold len; lia).
    apply layout_edge_good; done.
Qed.

Lemma derive_teaching_inv problem model step scene :
  derive_teaching_topology_scene problem model step = Some scene ->
  exists focus type_name range family phase,
    let moments := teaching_moments problem model family focus range in
    let selected_step := N.min step (saturating_sub (len moments) 1) in
    let selected := select_teaching focus
      (assemble_teaching problem model (selected_teaching_operation problem model) family focus
         type_name phase range selected_step) in
    focus_place problem model = Some focus /\
    scene_moments scene = moments /\ scene_selected_step scene = selected_step /\
    layout_topology_scene selected.1 selected.2
      = (scene_nodes scene, scene_edges scene, scene_canvas_height scene).
Proof.
  unfold derive_teaching_topology_scene, teaching_focus.
  destruct (focus_place problem model) as [focus|]; [|done]. cbn.
  destruct (defers_to_graph _ _ _); [done|].
  set (type_name := focus_type problem model focus).
  set (family := teaching_diagram_family problem type_name). cbn. intros [= <-].
  exists focus, (resolved_type_name family type_name), (focus_range problem model), family.
  eexists. split; [done|]. split; [done|]. split; done.
Qed.

Lemma teaching_moments_count problem model family focus range :
  (1 <= len (teaching_moments problem model family focus range) <= 6)%N.
Proof.
  assert (1 <= len (derived_moments problem model family focus range) <= 6)%N.
  { unfold derived_moments, operation_moments, operation_entries.
    destruct family, (selected_teaching_operation problem model); vm_compute; done. }
  unfold teaching_moments. destruct (model_conflict_graph model) as [g|]; [|done].
  unfold conflict_moments, len. destruct (conflict_snapshots g) as [|s snapshots]; [done|].
  rewrite length_fmap, length_take. simpl length. lia.
Qed.

Lemma teaching_scene_facts problem model step scene :
  ServedModel model -> derive_teaching_topology_scene problem model step = Some scene ->
  scene_within 12 20 (scene_nodes scene, scene_edges scene) /\ scene_nodes scene <> [] /\
  Forall (fun e => good_route (scene_canvas_height scene) (tedge_route e)) (scene_edges scene).
Proof.
  intros Hserved Hs. apply derive_teaching_inv in Hs as (focus & type_name & range & family & phase & Hs).
  destruct Hs as (_ & _ & _ & Hlay). revert Hlay.
  set (drawn := assemble_teaching _ _ _ _ _ _ _ _ _). intros Hlay.
  assert (scene_within 12 20 (select_teaching focus drawn) /\ (select_teaching focus drawn).1 <> [])
    as [Hw Hne].
  { destruct (assembled_closed problem model (selected_teaching_operation problem model) family focus
      type_name phase range (N.min step (saturating_sub
        (len (teaching_moments problem model family focus range)) 1))) as [Hc Hf].
    apply select_teaching_within; [apply assembled_distinct, Hserved|done|].
    intros Hnil. unfold node_ids in Hf. fold drawn in Hf. rewrite Hnil in Hf.
    by apply not_elem_of_nil in Hf. }
  pose proof (layout_within (select_teaching focus drawn)) as Hl. rewrite Hlay in Hl.
  destruct (Hl 12%N 20%N Hw) as [Hw' Hroutes]. split; [done|].
  assert (len (scene_nodes scene) = len (select_teaching focus drawn).1) as Hlen.
  { unfold layout_topology_scene in Hlay. injection Hlay as <- _ _. unfold len.
    by rewrite layout_nodes_length. }
  apply len_nonempty in Hne.
  split; [apply len_nonempty; by rewrite Hlen|].
  apply Hroutes. pose proof (within_nodes _ _ _ Hw). lia.
Qed.

(** C39: for any model the bridge serves, a teaching scene has between 1 and 12
    nodes with distinct ids and at most 20 edges with distinct ids; every edge
    joins two drawn nodes and has an orthogonal route inside the canvas. *)
Theorem teaching_scene_well_formed problem model step scene :
  ServedModel model -> derive_teaching_topology_scene problem model step = Some scene ->
  scene_within 12 20 (scene_nodes scene, scene_edges scene) /\ scene_nodes scene <> [] /\
  Forall (fun e => good_route (scene_canvas_height scene) (tedge_route e)) (scene_edges scene).
Proof. apply teaching_scene_facts. Qed.

(** The selected step of a teaching scene is always one of its moments, of
    which there are between one and six; a step past the end shows the last. *)
Theorem teaching_step_in_range problem model step scene :
  derive_teaching_topology_scene problem model step = Some scene ->
  is_Some (get_N (scene_moments scene) (scene_selected_step scene)) /\
  (len (scene_moments scene) <= 6)%N /\
  ((step < len (scene_moments scene))%N -> scene_selected_step scene = step).
Proof.
  intros (focus & type_name & range & family & phase & _ & Hm & Hs & _)%derive_teaching_inv.
  rewrite Hs, Hm. pose proof (teaching_moments_count problem model family focus range) as Hc.
  unfold saturating_sub. split_and!; [|lia|lia].
  rewrite get_N_spec. apply lookup_lt_is_Some. unfold len in *. lia.
Qed.

(** A problem always has a diagram: whatever the model holds, a scene is
    derived for it, at every step. *)
Theorem every_problem_has_a_scene problem model step :
  is_Some (derive_teaching_topology_scene (Some problem) model step).
Proof.
  unfold derive_teaching_topology_scene, teaching_focus.
  assert (is_Some (focus_place (Some problem) model)) as [focus ->].
  { unfold focus_place, or_else. repeat case_match; eauto. }
  cbn. eauto.
Qed.

(** ** The focus is shown *)

Lemma foldl_inv {A B} (P : A -> Prop) (f : A -> B -> A) l a :
  P a -> (forall a b, P a -> P (f a b)) -> P (foldl f a l).
Proof. intros Ha Hf. revert a Ha. induction l as [|b l IH]; intros a Ha; simpl; auto. Qed.

(** No layer of a type is a local binding or another place in focus. *)
Definition layer_kind_ok (l : TeachingLayer) : Prop :=
  one_of (tl_kind l) ["binding"; "projected_place"] = false.

Section kinds.
Context (type_name parent prefix : string) (depth : N) (parsed : ParsedType).
Context (recurse : string -> string -> list TeachingLayer -> list TeachingLayer).
Context (Hrec : forall t p l, Forall layer_kind_ok l -> Forall layer_kind_ok (recurse t p l)).

Ltac kinds :=
  repeat first
    [ apply Hrec | apply Forall_app; split | done
    | apply Forall_cons; split; [vm_compute; reflexivity|] | apply Forall_nil_2
    | apply (foldl_inv (Forall layer_kind_ok)); [|intros ? [? ?] ?]
    | match goal with |- context [if ?b then _ else _] => destruct b end ].

Lemma type_layers_kinds layers :
  Forall layer_kind_ok layers ->
  Forall layer_kind_ok (type_layers type_name parent prefix depth parsed recurse layers).
Proof using Hrec.
  intros Hl. unfold type_layers.
  repeat match goal with |- context [if ?b then ?x else ?y] =>
    match x with context [layers] => destruct b; [clear -Hl Hrec|] end end.
  all: unfold reference_layers, vec_layers, container_layers, string_layers, box_layers,
    shared_layers, weak_layers, pin_layers, cell_layers, lock_layers, guard_layers,
    raw_pointer_layers, conditional_layers, variant_layers, cow_layers, future_layers,
    closure_layers, dyn_layers, value_layers, push_teaching_layer; cbv beta iota zeta.
  all: kinds.
Qed.
End kinds.

Lemma append_type_layers_kinds type_name parent prefix layers depth :
  Forall layer_kind_ok layers ->
  Forall layer_kind_ok (append_type_layers type_name parent prefix layers depth).
Proof.
  unfold append_type_layers. generalize (N.to_nat (8 - depth)) as fuel. intros fuel.
  revert type_name parent layers depth.
  induction fuel as [|fuel IH]; intros type_name parent layers depth Hl; simpl; [done|].
  destruct (_ || _); [done|]. apply type_layers_kinds; [|done]. intros t p l. apply IH.
Qed.

Lemma teaching_layers_kinds family type_name :
  Forall layer_kind_ok (teaching_layers family type_name).
Proof.
  unfold teaching_layers.
  repeat match goal with
  | |- Forall _ (if ?b then _ else _) => destruct b
  | |- Forall _ (append_type_layers _ _ _ _ _) => apply append_type_layers_kinds
  end; constructor.
Qed.

(** Nodes other than the focus, when there is no conflict graph. *)
Definition secondary (node : TopologyNode) : Prop :=
  one_of (tnode_kind node) ["binding"; "projected_place"] = false.

Lemma assembled_secondary problem model operation family focus type_name phase range step :
  model_conflict_graph model = None ->
  exists others edges,
    assemble_teaching problem model operation family focus type_name phase range step
      = (focus_node focus type_name phase range :: others, edges) /\ Forall secondary others.
Proof.
  intros Hg. unfold assemble_teaching, draw_conflict. rewrite Hg.
  unfold draw_layers, draw_requirement, draw_operation. cbn [fst snd app].
  set (layers := layer_node focus phase range <$> teaching_layers family type_name).
  assert (Forall secondary layers) as Hl
    by (apply Forall_fmap; eapply Forall_impl; [apply teaching_layers_kinds|done]).
  repeat case_match; cbn [fst snd app]; simplify_eq/=; eexists _, _; (split; [reflexivity|]);
    rewrite ?Forall_app; split_and?; try done; by repeat constructor.
Qed.

Lemma secondary_priority node : secondary node -> (2 <= teaching_priority node)%N.
Proof.
  unfold secondary, teaching_priority. cbn [one_of existsb]. rewrite orb_false_r.
  intros [-> ->]%orb_false_iff. cbn [andb]. repeat case_match; lia.
Qed.

Lemma sorted_head_unique {A B} (f : A -> B) leb `{!TotalLeb leb} (x : A) l :
  (forall y, y ∈ l -> leb (f y) (f x) = false) ->
  exists rest, sort_by (on f leb) (x :: l) = x :: rest /\ rest ≡ₚ l.
Proof.
  intros Hlt. simpl. destruct (sort_by (on f leb) l) as [|y rest] eqn:E.
  - exists []. split; [done|]. rewrite <- E. apply sort_by_perm.
  - simpl. assert (y ∈ l) as Hy%Hlt.
    { rewrite <- (elem_of_sort_by (on f leb)), E. apply elem_of_cons. by left. }
    unfold on. destruct (leb_total (f x) (f y)) as [->|]; [|congruence].
    exists (y :: rest). split; [done|]. rewrite <- E. apply sort_by_perm.
Qed.

Lemma dedup_from_head (same : TopologyNode -> TopologyNode -> bool) x l :
  exists rest, dedup_by same (x :: l) = x :: rest /\ rest ⊆ l.
Proof.
  simpl. eexists. split; [done|]. intros y Hy.
  eapply elem_of_sublist; [exact Hy|apply dedup_from_sublist].
Qed.

Lemma order_teaching_head focus_n others :
  tnode_kind focus_n = "projected_place" -> Forall secondary others ->
  exists rest, order_teaching_nodes (focus_n :: others) = focus_n :: rest /\ Forall secondary rest.
Proof.
  intros Hk Ho. rewrite Forall_forall in Ho. unfold order_teaching_nodes.
  destruct (sorted_head_unique teaching_key (lex_leb N.compare String.leb) focus_n others)
    as (sorted & -> & Hperm).
  { intros y Hy%Ho%secondary_priority. unfold lex_leb, teaching_key. simpl.
    assert (teaching_priority focus_n = 1)%N as -> by (unfold teaching_priority; by rewrite Hk).
    by destruct (N.compare_spec (teaching_priority y) 1); try lia. }
  destruct (dedup_from_head same_node_id focus_n sorted) as (rest & -> & Hsub).
  exists rest. split; [done|]. apply Forall_forall. intros y Hy%Hsub. rewrite Hperm in Hy. auto.
Qed.

Lemma semantic_loop_extends fuel edges limit queue visited selected r :
  semantic_loop fuel edges limit queue visited selected = Some r -> selected `prefix_of` r.
Proof.
  revert queue visited selected. induction fuel as [|fuel IH]; intros queue visited selected; [done|].
  simpl. destruct queue as [|id queue]; [by intros [= ->]|].
  case_bool_decide; [apply IH|]. destruct (_ <=? _)%N.
  - intros [= <-]. by apply prefix_app_r.
  - intros Hr%IH. etrans; [|exact Hr]. by apply prefix_app_r.
Qed.

Lemma no_binding_root focus_n rest names limit edges :
  is_binding focus_n = false -> Forall secondary rest -> (0 < limit)%N ->
  tnode_id focus_n ∈ semantic_node_order (focus_n :: rest) edges names limit.
Proof.
  intros Hf Hr Hl. unfold semantic_node_order. destruct (N.eqb_spec limit 0); [lia|].
  assert (retain is_binding (focus_n :: rest) = []) as Hnone.
  { unfold retain. simpl. rewrite Hf. clear -Hr. induction Hr as [|n rest Hn _ IH]; [done|]. simpl.
    unfold secondary in Hn. cbn [one_of existsb] in Hn. unfold is_binding.
    apply orb_false_iff in Hn as [-> _]. exact IH. }
  assert (semantic_roots (focus_n :: rest) names = [tnode_id focus_n]) as ->
    by (unfold semantic_roots; by rewrite Hnone).
  destruct (semantic_search_total [tnode_id focus_n] edges limit) as [r Hs]. rewrite Hs. simpl.
  unfold search_fuel in Hs. cbn [semantic_loop app] in Hs.
  rewrite bool_decide_eq_false_2 in Hs by set_solver.
  destruct (limit <=? _)%N; [injection Hs as <-; set_solver|].
  apply semantic_loop_extends in Hs as [k ->]. set_solver.
Qed.

(** Without a conflict graph the picture always starts at the selected
    value: the focus node is the first node of the scene, on the top row. *)
Theorem teaching_focus_on_top problem model step scene :
  model_conflict_graph model = None ->
  derive_teaching_topology_scene problem model step = Some scene ->
  exists node, head (scene_nodes scene) = Some node /\ tnode_id node = FOCUS_ID /\
    focus_place problem model = Some (tnode_place node) /\ rect_y (tnode_rect node) = 8%N.
Proof.
  intros Hg (focus & type_name & range & family & phase & Hf & _ & _ & Hlay)%derive_teaching_inv.
  edestruct (assembled_secondary problem model (selected_teaching_operation problem model) family
    focus type_name phase range) as (others & edges & Ha & Ho); [done|].
  rewrite Ha in Hlay. unfold select_teaching in Hlay. cbn [fst snd] in Hlay.
  destruct (order_teaching_head (focus_node focus type_name phase range) others) as (rest & Hord & Hrest);
    [done..|]. rewrite Hord in Hlay.
  set (ids := semantic_node_order _ _ _ _) in Hlay.
  assert (one_of FOCUS_ID ids = true) as Hone 
    by (apply one_of_spec; by apply (no_binding_root (focus_node focus type_name phase range))).
  unfold retain at 1 in Hlay. simpl List.filter in Hlay. rewrite Hone in Hlay.
  unfold layout_topology_scene in Hlay. injection Hlay as <- _ _. simpl. eexists. done.
Qed.

Definition sample_problem : OwnershipProblem :=
  mk_problem "p" "use_after_move" (Some "E0382") "borrow of moved value" "v" default_range
    default_range [] [] default_position "compiler_exact".

Lemma sample_model_served : ServedModel (default_model "ready").
Proof. by split; simpl; try constructor; unfold bounded. Qed.

Lemma teaching_scene_well_formed_witness :
  exists scene, derive_teaching_topology_scene (Some sample_problem) (default_model "ready") 0 = Some scene /\
    tnode_id <$> scene_nodes scene = ["teaching:focus"; "teaching:type:value:0"] /\
    scene_within 12 20 (scene_nodes scene, scene_edges scene).
Proof.
  eexists. split; [vm_compute; reflexivity|]. split; [vm_compute; reflexivity|].
  eapply (teaching_scene_well_formed (Some sample_problem) (default_model "ready") 0).
  - apply sample_model_served.
  - vm_compute. reflexivity.
Defined.

Lemma teaching_step_in_range_witness :
  exists scene, derive_teaching_topology_scene (Some sample_problem) (default_model "ready") 7 = Some scene /\
    is_Some (get_N (scene_moments scene) (scene_selected_step scene)).
Proof.
  eexists. split; [vm_compute; reflexivity|].
  eapply (teaching_step_in_range (Some sample_problem) (default_model "ready") 7).
  vm_compute. reflexivity.
Defined.

Lemma teaching_focus_on_top_witness :
  exists scene, derive_teaching_topology_scene (Some sample_problem) (default_model "ready") 0 = Some scene /\
    exists node, head (scene_nodes scene) = Some node /\ tnode_id node = FOCUS_ID /\
      focus_place (Some sample_problem) (default_model "ready") = Some (tnode_place node) /\
      rect_y (tnode_rect node) = 8%N.
Proof.
  eexists. split; [vm_compute; reflexivity|].
  eapply (teaching_focus_on_top (Some sample_problem) (default_model "ready") 0).
  - vm_compute. reflexivity.
  - vm_compute. reflexivity.
Defined.

(** The "Suspended at .await" moment of every async timeline is classified
    as the phase after the operation, because the test for the word "end"
    matches inside "suspended" and "pending"; so the picture of that step shows
    the future as resumed and no suspension point as active. *)
Theorem suspended_step_shown_as_resumed range :
  let moments := fixed_moments range async_entries in
  moment_title <$> get_N moments 1 = Some "Suspended at .await" /\
  selected_phase_kind moments 1 = "after" /\
  layer_state (selected_phase_kind moments 1) "future_state" = "resumed; may become Poll::Ready" /\
  layer_state (selected_phase_kind moments 1) "suspension_point" = "not currently suspended here".
Proof. split_and!; vm_compute; reflexivity. Qed.
