(* ===== verification/Scene.v ===== *)
(** * The compiler scene and the choice between scenes

    [derive_ownership_topology_scene_with_limits] and
    [derive_ownership_topology_scene] of
    [zed-rust/crates/rust_workbench/src/ownership_topology.rs]: the scene of
    the compiler's memory graph (or of the conflict graph, or of the mutation
    requirement, when there is no graph), reduced to the given limits.
    [str::to_lowercase] needs Unicode tables; it is the parameter
    [to_lowercase], about which nothing is assumed. *)

From Stdlib Require Import Ascii.
From S2P Require Import Prelude RustStr RustColl Protocol TypeParser Topology Teaching.
From stdpp Require Import options.

Section scene.
Context (to_lowercase : string -> string).

Definition conflict_is_empty (model : OwnershipModel) : bool :=
  from_option (fun graph => match conflict_nodes graph with [] => true | _ => false end) true
    (model_conflict_graph model).

Definition nothing_to_show (model : OwnershipModel) : bool :=
  match graph_nodes (model_memory_graph model), model_mutation_requirement model with
  | [], None => conflict_is_empty model
  | _, _ => false
  end.

Definition snapshot_count (model : OwnershipModel) : N :=
  N.max (len (graph_snapshots (model_memory_graph model)))
    (from_option (fun graph => len (conflict_snapshots graph)) 0%N (model_conflict_graph model)).

Definition clamp_step (model : OwnershipModel) (selected_step : N) : N :=
  N.min selected_step (saturating_sub (snapshot_count model) 1).

Definition memory_node (states : gmap string string) (node : OwnershipMemoryNode) : TopologyNode :=
  mk_tnode (mnode_id node) (mnode_place node) (mnode_label node) (mnode_type_name node)
    (topology_detail node) (mnode_kind node) (mnode_storage node)
    (default (mnode_state node) (states !! mnode_id node)) (mnode_provenance node)
    (topology_column (mnode_kind node) (mnode_storage node)) (mnode_range node) default_rect.

Definition memory_edge (model : OwnershipModel) (step : N) (edge : OwnershipMemoryEdge) :
    TopologyEdge :=
  new_edge (medge_id edge) (medge_source edge) (medge_target edge) (medge_relation edge)
    (medge_provenance edge) (topology_edge_active_at_step edge model step) (medge_range edge).

Definition draw_memory_graph (model : OwnershipModel) (step : N) : drawing :=
  (memory_node (topology_state_at_step model step) <$> graph_nodes (model_memory_graph model),
   memory_edge model step <$> graph_edges (model_memory_graph model)).

Definition fallback_conflict_node (graph : OwnershipConflictGraph)
    (snapshot : option OwnershipConflictSnapshot) (node : OwnershipConflictNode) : TopologyNode :=
  let storage := to_lowercase (cnode_memory node) in
  mk_tnode (cnode_id node) (cnode_label node) (cnode_label node)
    (default "type unknown" (cnode_type_name node)) (cnode_memory node) (cnode_role node) storage
    (default "alive" (snapshot_state snapshot (cnode_id node))) (conflict_provenance graph)
    (topology_column (cnode_role node) storage) (cnode_range node) default_rect.

Definition fallback_conflict_edge (edge : OwnershipConflictEdge) : TopologyEdge :=
  new_edge ("conflict:" +:+ cedge_from edge +:+ ":" +:+ cedge_to edge +:+ ":" +:+ cedge_label edge)
    (cedge_from edge) (cedge_to edge) (cedge_label edge) (cedge_provenance edge) true None.

Definition fallback_to_conflict (model : OwnershipModel) (step : N) (scene : drawing) : drawing :=
  match scene.1, model_conflict_graph model with
  | [], Some graph =>
      (fallback_conflict_node graph (conflict_snapshot_at graph step) <$> conflict_nodes graph,
       scene.2 ++ (fallback_conflict_edge <$> conflict_edges graph))
  | _, _ => scene
  end.

Definition requirement_nodes (problem : option OwnershipProblem) (model : OwnershipModel)
    (requirement : OwnershipMutationRequirement) : list TopologyNode :=
  let source := requirement_access_source requirement in
  let target := requirement_target_place requirement in
  [mk_tnode ("access:" +:+ source) source source
     (readable_available_access (requirement_available_access requirement))
     "access available at the function boundary" "handle" "stack" "read-only access"
     (requirement_provenance requirement) ColumnLocal (problem_binding_range <$> problem)
     default_rect;
   mk_tnode ("target:" +:+ target) target target
     (default "resolved field type"
        (operation ← selected_mutation_operation model; operation_receiver_type operation))
     "the value rustc rejected writing through" "projected_place" "inline" "alive · write blocked"
     (requirement_provenance requirement) ColumnWrapper (problem_primary_range <$> problem)
     default_rect].

Definition requirement_edge (problem : option OwnershipProblem)
    (requirement : OwnershipMutationRequirement) : TopologyEdge :=
  new_edge ("mutation-access:" +:+ requirement_target_place requirement)
    ("access:" +:+ requirement_access_source requirement)
    ("target:" +:+ requirement_target_place requirement)
    ("has " +:+ readable_available_access (requirement_available_access requirement)
     +:+ "; needs " +:+ readable_access (requirement_required_access requirement))
    (requirement_provenance requirement) true (problem_primary_range <$> problem).

Definition fallback_to_requirement (problem : option OwnershipProblem) (model : OwnershipModel)
    (scene : drawing) : drawing :=
  match scene.1, model_mutation_requirement model with
  | [], Some requirement =>
      (requirement_nodes problem model requirement,
       scene.2 ++ [requirement_edge problem requirement])
  | _, _ => scene
  end.

Definition order_nodes (nodes : list TopologyNode) : list TopologyNode :=
  dedup_by same_node_id (sort_by (on tnode_id String.leb) nodes).

(** All nodes and edges, in id order and without repeated ids. *)
Definition compiler_drawing (problem : option OwnershipProblem) (model : OwnershipModel)
    (step : N) : drawing :=
  let scene := draw_memory_graph model step in
  let scene := fallback_to_conflict model step scene in
  let scene := fallback_to_requirement problem model scene in
  (order_nodes scene.1, order_edges scene.2).

Definition selected_names (problem : option OwnershipProblem) (model : OwnershipModel) :
    list string :=
  option_list (problem_binding_name <$> problem) ++ option_list (model_selected_place model).

Definition nodes_by_id (nodes : list TopologyNode) : gmap string TopologyNode :=
  collect_into tnode_id id ∅ nodes.

Definition edge_key (edge : TopologyEdge) : N * string :=
  (relation_priority (tedge_label edge), tedge_id edge).

(** The selected nodes in the order of the search, the edges among them by
    priority. *)
Definition select_compiler (names : list string) (node_limit edge_limit : N) (scene : drawing) :
    drawing :=
  let ordered_ids := semantic_node_order scene.1 scene.2 names node_limit in
  (omap (fun id => nodes_by_id scene.1 !! id) ordered_ids,
   truncate edge_limit
     (sort_by (on edge_key (lex_leb N.compare String.leb))
        (retain (edge_within ordered_ids) scene.2))).

Definition compiler_moments (model : OwnershipModel) : list TopologyMoment :=
  match graph_snapshots (model_memory_graph model) with
  | [] =>
      from_option (fun graph =>
        (fun snapshot => mk_moment (csnapshot_title snapshot) (csnapshot_explanation snapshot)
           (csnapshot_range snapshot) None) <$> take 12 (conflict_snapshots graph)) []
        (model_conflict_graph model)
  | snapshots =>
      (fun snapshot => mk_moment (replace_char "_" " " (msnapshot_kind snapshot))
         (topology_moment_explanation (msnapshot_kind snapshot) (msnapshot_place snapshot))
         (msnapshot_range snapshot) (msnapshot_path_marker snapshot)) <$> take 12 snapshots
  end.

Definition access_step_text (step : OwnershipAccessStep) : string :=
  step_starting_type step +:+ " → " +:+ step_result_type step +:+ " ("
  +:+ replace_char "_" " " (step_kind step) +:+ ")".

Definition access_line (path : OwnershipAccessPath) : string :=
  let chain := join " → " (access_step_text <$> path_steps path) in
  if is_empty chain then "`" +:+ path_place path +:+ "`: direct access"
  else "`" +:+ path_place path +:+ "`: " +:+ chain.

Definition derive_ownership_topology_scene_with_limits (problem : option OwnershipProblem)
    (model : OwnershipModel) (selected_step node_limit edge_limit : N) (expanded : bool) :
    option OwnershipTopologyScene :=
  if nothing_to_show model then None
  else
    let selected_step := clamp_step model selected_step in
    let drawn := compiler_drawing problem model selected_step in
    let selected :=
      select_compiler (selected_names problem model) node_limit edge_limit drawn in
    let truncated :=
      graph_truncated (model_memory_graph model)
      || (len selected.1 <? len drawn.1)%N || (len selected.2 <? len drawn.2)%N in
    let '(nodes, edges, canvas_height) := layout_topology_scene selected.1 selected.2 in
    Some {|
      scene_title :=
        if expanded then "Full compiler ownership graph" else "Where the selected value lives";
      scene_summary :=
        "Compiler and source facts are arranged from local access paths through inline wrappers to heap or borrowed targets.";
      scene_nodes := nodes;
      scene_edges := edges;
      scene_moments := compiler_moments model;
      scene_selected_step := selected_step;
      scene_access_lines := access_line <$> take 3 (graph_access_paths (model_memory_graph model));
      scene_canvas_height := canvas_height;
      scene_expanded := expanded;
      scene_truncated := truncated;
      scene_legacy_limited :=
        (0 <? model_compiler_schema_version model)%N
        && (model_compiler_schema_version model <? 7)%N
    |}.

Definition derive_ownership_topology_scene (problem : option OwnershipProblem)
    (model : OwnershipModel) (selected_step : N) : option OwnershipTopologyScene :=
  or_else (derive_teaching_topology_scene problem model selected_step)
    (fun _ =>
       derive_ownership_topology_scene_with_limits problem model selected_step 12 20 false).
End scene.
