(* ===== verification/SceneSpec.v ===== *)
(** * Properties of the compiler scene

    The scene of the compiler graph respects the limits it is given, says
    exactly when it leaves something out, shows every node in the state replayed
    at the selected step, and joins only drawn nodes when the graph does. *)

From S2P Require Import Prelude RustStr RustColl Protocol BridgeSpec TypeParser Topology TopologySpec Teaching TeachingSpec Scene.
From stdpp Require Import options.

(** ** Ordering by id *)

Lemma order_nodes_facts nodes :
  NoDup (tnode_id <$> order_nodes nodes) /\
  (forall n, n ∈ order_nodes nodes -> n ∈ nodes) /\
  (forall id, id ∈ (tnode_id <$> order_nodes nodes) <-> id ∈ (tnode_id <$> nodes)) /\
  (NoDup (tnode_id <$> nodes) -> order_nodes nodes ≡ₚ nodes).
Proof.
  assert (forall x y, same_node_id x y = true <-> tnode_id x = tnode_id y) as Hsame
    by (intros; apply str_eqb_eq).
  unfold order_nodes. split_and!.
  - apply (dedup_by_NoDup tnode_id String.leb); [done|apply sort_on_sorted; apply _].
  - intros n Hn%elem_of_dedup_by. by rewrite elem_of_sort_by in Hn.
  - intros id. by apply (sort_dedup_keys tnode_id String.leb).
  - intros Hnd. rewrite dedup_by_id; [apply sort_by_perm| |].
    + intros x y Hx Hy E%Hsame. rewrite elem_of_sort_by in Hx, Hy.
      by eapply (NoDup_fmap_inj tnode_id nodes).
    + rewrite sort_by_perm. by eapply NoDup_fmap_1.
Qed.

Lemma order_edges_ids edges id :
  id ∈ (tedge_id <$> order_edges edges) <-> id ∈ (tedge_id <$> edges).
Proof. apply (sort_dedup_keys tedge_id String.leb). intros. apply str_eqb_eq. Qed.

Lemma nodes_by_id_lookup nodes id n :
  nodes_by_id nodes !! id = Some n -> n ∈ nodes /\ tnode_id n = id.
Proof.
  unfold nodes_by_id. rewrite collect_into_lookup, lookup_empty.
  destruct (last_with tnode_id id nodes) as [m|] eqn:E; [|done]. intros [= <-].
  by apply last_with_Some in E.
Qed.

Lemma nodes_by_id_total nodes id :
  id ∈ (tnode_id <$> nodes) -> is_Some (nodes_by_id nodes !! id).
Proof.
  intros Hid. unfold nodes_by_id. rewrite collect_into_lookup.
  destruct (last_with tnode_id id nodes) eqn:E; [done|]. rewrite last_with_None in E.
  apply list_elem_of_fmap in Hid as (n & -> & Hn). by destruct (E n Hn).
Qed.

Lemma pick_nodes_sublist nodes ids :
  (tnode_id <$> omap (fun id => nodes_by_id nodes !! id) ids) `sublist_of` ids.
Proof.
  induction ids as [|id ids IH]; [done|]. cbn.
  destruct (nodes_by_id nodes !! id) as [n|] eqn:E; cbn.
  - apply nodes_by_id_lookup in E as [_ ->]. by apply sublist_skip.
  - by apply sublist_cons.
Qed.

Lemma pick_nodes_all nodes ids :
  ids ⊆ (tnode_id <$> nodes) -> tnode_id <$> omap (fun id => nodes_by_id nodes !! id) ids = ids.
Proof.
  induction ids as [|id ids IH]; intros Hs; [done|]. cbn.
  destruct (nodes_by_id_total nodes id) as [n E]; [set_solver|]. rewrite E. cbn.
  apply nodes_by_id_lookup in E as [_ ->]. f_equal. apply IH. set_solver.
Qed.

(** ** Selection *)

Section select.
Context (names : list string) (node_limit edge_limit : N) (scene : drawing).
Let selected := select_compiler names node_limit edge_limit scene.
Let ids := semantic_node_order scene.1 scene.2 names node_limit.

Lemma selected_nodes_ids :
  NoDup (node_ids selected) /\ (len selected.1 <= node_limit)%N /\
  (forall n, n ∈ selected.1 -> n ∈ scene.1).
Proof using Type.
  destruct (order_facts scene.1 scene.2 names node_limit) as (Hnd & Hlen & _).
  pose proof (pick_nodes_sublist scene.1 ids) as Hsub. split_and!.
  - by eapply sublist_NoDup.
  - apply sublist_length in Hsub. rewrite length_fmap in Hsub. unfold len in *.
    unfold selected, select_compiler. cbn [fst]. fold ids in Hlen |- *. lia.
  - intros n (id & _ & E)%list_elem_of_omap. by apply nodes_by_id_lookup in E as [? _].
Qed.

Lemma selected_edges_sub : forall e, e ∈ selected.2 -> e ∈ scene.2 /\ joins ids e.
Proof using Type.
  intros e He. unfold selected, select_compiler in He. cbn [snd] in He.
  eapply elem_of_sublist in He; [|apply truncate_sublist].
  rewrite elem_of_sort_by, elem_of_retain, edge_within_spec in He. tauto.
Qed.

Lemma selected_edges_ids :
  NoDup (tedge_id <$> scene.2) ->
  NoDup (tedge_id <$> selected.2) /\ (len selected.2 <= edge_limit)%N.
Proof using Type.
  intros Hnd. split; [|apply truncate_length]. unfold selected, select_compiler. cbn [snd].
  eapply sublist_NoDup; [|apply fmap_sublist, truncate_sublist]. rewrite sort_by_perm.
  by apply NoDup_retain.
Qed.

Lemma selected_within :
  NoDup (tedge_id <$> scene.2) -> closed scene ->
  scene_within node_limit edge_limit selected.
Proof using Type.
  intros He Hc. destruct selected_nodes_ids as (Hnd & Hlen & _).
  destruct (selected_edges_ids He) as [Hend Hel]. split; try done.
  apply Forall_forall. intros e [_ Hj]%selected_edges_sub. unfold node_ids, joins.
  unfold selected, select_compiler. cbn [fst]. rewrite pick_nodes_all; [done|].
  by apply (order_facts scene.1 scene.2 names node_limit).
Qed.

(** Equal counts mean that nothing was dropped. *)
Lemma selected_nodes_complete :
  (len selected.1 <? len scene.1)%N = false <-> selected.1 ≡ₚ scene.1.
Proof using Type.
  destruct selected_nodes_ids as (Hnd & _ & Hsub). rewrite N.ltb_ge. unfold len. split.
  - intros Hle. apply submseteq_length_Permutation; [|lia].
    apply NoDup_submseteq; [by eapply NoDup_fmap_1|done].
  - intros ->. done.
Qed.

Lemma selected_edges_complete :
  NoDup (tedge_id <$> scene.2) ->
  (len selected.2 <? len scene.2)%N = false <-> selected.2 ≡ₚ scene.2.
Proof using Type.
  intros Hnd. destruct (selected_edges_ids Hnd) as [He _]. rewrite N.ltb_ge. unfold len. split.
  - intros Hle. apply submseteq_length_Permutation; [|lia].
    apply NoDup_submseteq; [by eapply NoDup_fmap_1|]. by intros e [? _]%selected_edges_sub.
  - intros ->. done.
Qed.
End select.

Lemma topology_state_total model step node :
  node ∈ graph_nodes (model_memory_graph model) ->
  is_Some (topology_state_at_step model step !! mnode_id node).
Proof.
  intros Hn. unfold topology_state_at_step. rewrite replay_snapshots, !collect_into_lookup.
  destruct (last_with delta_node_id _ _); [done|].
  destruct (last_with mnode_id _ _) eqn:E; [done|]. rewrite last_with_None in E.
  by destruct (E node Hn).
Qed.

(** ** The scene *)

(** Edges of the compiler graph and of the conflict graph join their nodes. *)
Definition model_closed (model : OwnershipModel) : Prop :=
  Forall (fun e => medge_source e ∈ (mnode_id <$> graph_nodes (model_memory_graph model)) /\
                   medge_target e ∈ (mnode_id <$> graph_nodes (model_memory_graph model)))
    (graph_edges (model_memory_graph model)) /\
  forall g, model_conflict_graph model = Some g ->
    Forall (fun e => cedge_from e ∈ (cnode_id <$> conflict_nodes g) /\
                     cedge_to e ∈ (cnode_id <$> conflict_nodes g)) (conflict_edges g).

Lemma same_len {A B} (f : A -> B) (l l' : list A) : f <$> l = f <$> l' -> len l = len l'.
Proof. intros H%(f_equal length). rewrite !length_fmap in H. unfold len. by rewrite H. Qed.

Section derive.
Context (to_lowercase : string -> string).
Implicit Types (problem : option OwnershipProblem) (model : OwnershipModel).

Lemma draw_memory_graph_closed model step :
  model_closed model -> closed (draw_memory_graph model step).
Proof.
  intros [Hg _]. unfold closed, draw_memory_graph, node_ids. cbn [fst snd]. apply Forall_fmap.
  eapply Forall_impl; [exact Hg|]. intros e. unfold joins. simpl. by rewrite <- list_fmap_compose.
Qed.

Lemma closed_no_nodes (scene : drawing) : closed scene -> scene.1 = [] -> scene.2 = [].
Proof.
  intros Hc Hn. destruct scene as [nodes [|e edges]]; [done|]. simpl in *. subst nodes.
  apply Forall_cons in Hc as [[Hs _] _]. by apply not_elem_of_nil in Hs.
Qed.

Lemma fallback_conflict_closed model step scene :
  model_closed model -> closed scene -> closed (fallback_to_conflict to_lowercase model step scene).
Proof.
  intros [_ Hg] Hc. unfold fallback_to_conflict. destruct scene.1 as [|n nodes] eqn:E; [|done].
  rewrite (closed_no_nodes _ Hc E). destruct (model_conflict_graph model) as [g|]; [|done].
  unfold closed, node_ids. cbn [fst snd app]. apply Forall_fmap.
  eapply Forall_impl; [by apply Hg|]. intros e. unfold joins. simpl. by rewrite <- list_fmap_compose.
Qed.

Lemma fallback_requirement_closed problem model scene :
  closed scene -> closed (fallback_to_requirement problem model scene).
Proof.
  intros Hc. unfold fallback_to_requirement. destruct scene.1 as [|n nodes] eqn:E; [|done].
  rewrite (closed_no_nodes _ Hc E). destruct (model_mutation_requirement model) as [r|]; [|done].
  unfold closed, node_ids, joins. cbn [fst snd app]. constructor; [|constructor]. simpl. set_solver.
Qed.

Lemma compiler_drawing_closed problem model step :
  model_closed model -> closed (compiler_drawing to_lowercase problem model step).
Proof.
  intros Hm. unfold compiler_drawing.
  set (scene := fallback_to_requirement _ _ _). assert (closed scene) as Hc.
  { by apply fallback_requirement_closed, fallback_conflict_closed, draw_memory_graph_closed. }
  destruct (order_nodes_facts scene.1) as (_ & _ & Hids & _).
  destruct (order_edges_facts scene.2) as (_ & He & _).
  unfold closed, node_ids in *. rewrite Forall_forall in *. cbn [fst snd].
  intros e [? ?]%He%Hc. unfold joins. by rewrite !Hids.
Qed.

Lemma derive_with_limits_inv problem model step node_limit edge_limit expanded scene :
  derive_ownership_topology_scene_with_limits to_lowercase problem model step node_limit edge_limit
    expanded = Some scene ->
  let drawn := compiler_drawing to_lowercase problem model (scene_selected_step scene) in
  let selected := select_compiler (selected_names problem model) node_limit edge_limit drawn in
  scene_selected_step scene = clamp_step model step /\
  layout_topology_scene selected.1 selected.2
    = (scene_nodes scene, scene_edges scene, scene_canvas_height scene) /\
  scene_truncated scene =
    (graph_truncated (model_memory_graph model)
     || (len selected.1 <? len drawn.1)%N || (len selected.2 <? len drawn.2)%N).
Proof.
  unfold derive_ownership_topology_scene_with_limits. destruct (nothing_to_show model); [done|].
  cbn. intros [= <-]. done.
Qed.

(** With a compiler graph, the fallbacks are not used. *)
Lemma compiler_drawing_graph problem model step :
  graph_nodes (model_memory_graph model) <> [] ->
  compiler_drawing to_lowercase problem model step
  = (order_nodes (draw_memory_graph model step).1, order_edges (draw_memory_graph model step).2).
Proof.
  intros Hne. unfold compiler_drawing, fallback_to_conflict, fallback_to_requirement.
  unfold draw_memory_graph. cbn [fst snd].
  destruct (graph_nodes (model_memory_graph model)) as [|n nodes]; [done|]. done.
Qed.

Lemma drawn_edges_NoDup problem model step :
  NoDup (tedge_id <$> (compiler_drawing to_lowercase problem model step).2).
Proof. apply (order_edges_facts _). Qed.

Lemma layout_ids nodes edges nodes' edges' height :
  layout_topology_scene nodes edges = (nodes', edges', height) ->
  tnode_id <$> nodes' = tnode_id <$> nodes /\ tedge_id <$> edges' = tedge_id <$> edges.
Proof.
  unfold layout_topology_scene. intros [= <- <- _].
  split; [apply layout_nodes_ids|apply layout_edges_ids].
Qed.

Lemma compiler_scene_facts problem model step node_limit edge_limit expanded scene :
  derive_ownership_topology_scene_with_limits to_lowercase problem model step node_limit edge_limit
    expanded = Some scene ->
  (len (scene_nodes scene) <= node_limit)%N /\ (len (scene_edges scene) <= edge_limit)%N /\
  NoDup (tnode_id <$> scene_nodes scene) /\ NoDup (tedge_id <$> scene_edges scene) /\
  (scene_selected_step scene <= step)%N /\
  ((0 < snapshot_count model)%N -> (scene_selected_step scene < snapshot_count model)%N).
Proof.
  intros (Hstep & Hlay & _)%derive_with_limits_inv.
  destruct (layout_ids _ _ _ _ _ Hlay) as [Hn He].
  set (drawn := compiler_drawing _ _ _ _) in *.
  destruct (selected_nodes_ids (selected_names problem model) node_limit edge_limit drawn)
    as (Hnd & Hlen & _).
  destruct (selected_edges_ids (selected_names problem model) node_limit edge_limit drawn)
    as [Hend Hel]; [apply drawn_edges_NoDup|].
  rewrite Hn, He, Hstep. unfold clamp_step, saturating_sub.
  rewrite (same_len _ _ _ Hn), (same_len _ _ _ He). split_and!; done || lia.
Qed.

(** A compiler scene never exceeds the limits of its view and never
    repeats a node or an edge, whatever the graph; the selected step is a
    snapshot of the model whenever it has one. *)
Theorem compiler_scene_limits problem model step node_limit edge_limit expanded scene :
  derive_ownership_topology_scene_with_limits to_lowercase problem model step node_limit edge_limit
    expanded = Some scene ->
  (len (scene_nodes scene) <= node_limit)%N /\ (len (scene_edges scene) <= edge_limit)%N /\
  NoDup (tnode_id <$> scene_nodes scene) /\ NoDup (tedge_id <$> scene_edges scene) /\
  (scene_selected_step scene <= step)%N /\
  ((0 < snapshot_count model)%N -> (scene_selected_step scene < snapshot_count model)%N).
Proof. apply compiler_scene_facts. Qed.

(** For a model whose graphs join their own nodes, every edge of the scene
    joins two drawn nodes and has an orthogonal route inside the canvas. *)
Theorem compiler_scene_routed problem model step node_limit edge_limit expanded scene :
  model_closed model -> (node_limit <= 642)%N ->
  derive_ownership_topology_scene_with_limits to_lowercase problem model step node_limit edge_limit
    expanded = Some scene ->
  Forall (joins (tnode_id <$> scene_nodes scene)) (scene_edges scene) /\
  Forall (fun e => good_route (scene_canvas_height scene) (tedge_route e)) (scene_edges scene).
Proof.
  intros Hm Hl (Hstep & Hlay & _)%derive_with_limits_inv.
  set (drawn := compiler_drawing _ _ _ _) in *.
  set (selected := select_compiler _ _ _ _) in *.
  assert (scene_within node_limit edge_limit selected) as Hw
    by (apply selected_within; [apply drawn_edges_NoDup|by apply compiler_drawing_closed]).
  clearbody selected. pose proof (layout_within selected) as Hlw. rewrite Hlay in Hlw.
  destruct (Hlw _ _ Hw) as [Hw' Hr]. split; [exact (within_closed _ _ _ Hw')|].
  pose proof (within_nodes _ _ _ Hw). destruct (decide (selected.1 = [])) as [Hnil|Hne].
  - unfold layout_topology_scene in Hlay. injection Hlay as _ <- _.
    rewrite (closed_no_nodes _ (within_closed _ _ _ Hw) Hnil). constructor.
  - apply Hr. apply len_nonempty in Hne. lia.
Qed.

(** The scene says it is truncated exactly when the compiler graph was, or
    when the view leaves out a node or an edge of it. *)
Theorem truncated_flag_is_exact problem model step node_limit edge_limit expanded scene :
  ServedModel model -> graph_nodes (model_memory_graph model) <> [] ->
  derive_ownership_topology_scene_with_limits to_lowercase problem model step node_limit edge_limit
    expanded = Some scene ->
  scene_truncated scene = false <->
  graph_truncated (model_memory_graph model) = false /\
  tnode_id <$> scene_nodes scene ≡ₚ mnode_id <$> graph_nodes (model_memory_graph model) /\
  tedge_id <$> scene_edges scene ≡ₚ medge_id <$> graph_edges (model_memory_graph model).
Proof.
  intros Hserved Hne (Hstep & Hlay & ->)%derive_with_limits_inv.
  destruct (layout_ids _ _ _ _ _ Hlay) as [-> ->]. clear Hlay.
  rewrite (compiler_drawing_graph problem model _ Hne).
  set (graph := draw_memory_graph model _). set (drawn := (order_nodes graph.1, order_edges graph.2)).
  assert (tnode_id <$> graph.1 = mnode_id <$> graph_nodes (model_memory_graph model)) as Hn
    by (unfold graph, draw_memory_graph; simpl; by rewrite <- list_fmap_compose).
  assert (tedge_id <$> graph.2 = medge_id <$> graph_edges (model_memory_graph model)) as He
    by (unfold graph, draw_memory_graph; simpl; by rewrite <- list_fmap_compose).
  assert (drawn.1 ≡ₚ graph.1) as Hdn by (apply order_nodes_facts; rewrite Hn; apply Hserved).
  assert (drawn.2 ≡ₚ graph.2) as Hde by (apply order_edges_facts; rewrite He; apply Hserved).
  rewrite !orb_false_iff, selected_nodes_complete, selected_edges_complete
    by (apply (order_edges_facts graph.2)).
  rewrite Hdn, Hde, <- Hn, <- He. set (selected := select_compiler _ _ _ _). split.
  - intros [[Ht ->] ->]. done.
  - intros (Ht & Hs1 & Hs2). split; [split; [done|]|].
    + rewrite <- Hdn. apply selected_nodes_complete, N.ltb_ge. unfold len.
      rewrite Hdn, <- (length_fmap tnode_id graph.1), <- Hs1, length_fmap. done.
    + rewrite <- Hde. apply selected_edges_complete; [apply (order_edges_facts graph.2)|].
      apply N.ltb_ge. unfold len.
      rewrite Hde, <- (length_fmap tedge_id graph.2), <- Hs2, length_fmap. done.
Qed.

Lemma layout_keeps_node nodes edges nodes' edges' height n :
  layout_topology_scene nodes edges = (nodes', edges', height) -> n ∈ nodes' ->
  exists m rect, m ∈ nodes /\ n = with_rect m rect.
Proof.
  unfold layout_topology_scene. intros [= <- _ _] (i & Hi)%list_elem_of_lookup.
  rewrite layout_nodes_lookup in Hi. destruct (nodes !! i) as [m|] eqn:E; [|done].
  injection Hi as <-. exists m. eexists. split; [by eapply list_elem_of_lookup_2|done].
Qed.

Lemma layout_keeps_edge nodes edges nodes' edges' height e :
  layout_topology_scene nodes edges = (nodes', edges', height) -> e ∈ edges' ->
  exists e0, e0 ∈ edges /\ tedge_id e = tedge_id e0 /\ tedge_active e = tedge_active e0.
Proof.
  unfold layout_topology_scene. set (rects := node_rects _).
  intros [= _ <- _] (e0 & -> & He)%list_elem_of_fmap. exists e0. split; [done|].
  unfold layout_edge. split; layout_cases rects e0.
Qed.

(** Every node shown is a node of the compiler graph in the state replayed
    at the selected step, and every edge shown is lit exactly when the graph's
    edge is active at that step. *)
Theorem scene_shows_selected_step problem model step node_limit edge_limit expanded scene :
  graph_nodes (model_memory_graph model) <> [] ->
  derive_ownership_topology_scene_with_limits to_lowercase problem model step node_limit edge_limit
    expanded = Some scene ->
  (forall n, n ∈ scene_nodes scene ->
     topology_state_at_step model (scene_selected_step scene) !! tnode_id n = Some (tnode_state n)) /\
  (forall e, e ∈ scene_edges scene ->
     exists m, m ∈ graph_edges (model_memory_graph model) /\ medge_id m = tedge_id e /\
       tedge_active e = topology_edge_active_at_step m model (scene_selected_step scene)).
Proof.
  intros Hne (_ & Hlay & _)%derive_with_limits_inv.
  rewrite (compiler_drawing_graph problem model _ Hne) in Hlay. split.
  - intros n Hn. destruct (layout_keeps_node _ _ _ _ _ _ Hlay Hn) as (m & rect & Hm & ->).
    apply selected_nodes_ids, order_nodes_facts in Hm. cbn [draw_memory_graph fst] in Hm.
    apply list_elem_of_fmap in Hm as (node & -> & Hnode). simpl.
    destruct (topology_state_total model (scene_selected_step scene) node Hnode) as [state E].
    by rewrite E.
  - intros e He. destruct (layout_keeps_edge _ _ _ _ _ _ Hlay He) as (e0 & He0 & -> & ->).
    apply selected_edges_sub in He0 as [He0 _]. apply order_edges_facts in He0.
    cbn [draw_memory_graph snd] in He0. apply list_elem_of_fmap in He0 as (m & -> & Hm). eauto.
Qed.

(** The panel has a picture of every problem; without a problem it has one
    exactly when the model gives a place to focus on (and no compiler graph
    takes precedence) or has a graph, a conflict or a requirement to draw. *)
Theorem scene_exists_iff problem model step :
  is_Some (derive_ownership_topology_scene to_lowercase problem model step) <->
  is_Some problem \/ is_Some (focus_place problem model) \/ nothing_to_show model = false.
Proof.
  unfold derive_ownership_topology_scene, or_else, derive_ownership_topology_scene_with_limits,
    derive_teaching_topology_scene, teaching_focus.
  destruct (focus_place problem model) as [focus|] eqn:Ef.
  - cbn. split; [eauto|intros _]. destruct (defers_to_graph _ _ _) eqn:Ed; [|eauto].
    assert (nothing_to_show model = false) as ->; [|eauto].
    unfold defers_to_graph in Ed. unfold nothing_to_show. destruct problem; [done|].
    by destruct (selected_teaching_operation None model), (graph_nodes (model_memory_graph model)).
  - destruct problem as [p|].
    { exfalso. revert Ef. unfold focus_place, or_else. repeat case_match; done. }
    cbn. destruct (nothing_to_show model); [|split; [intros _; by right; right|intros _; by eexists]].
    split; [by intros [? ?]|]. intros [[? ?]|[[? ?]|?]]; done.
Qed.
End derive.

(** ** A worked model *)

Definition sample_mnode (id kind storage : string) : OwnershipMemoryNode :=
  mk_mnode id 0 id kind storage id "i32" None None None "available" "compiler_exact" "" false.

Definition sample_graph_model : OwnershipModel :=
  with_memory_graph (default_model "ready")
    (mk_graph [sample_mnode "x" "binding" "stack"; sample_mnode "r" "binding" "stack"] [sample_loan]
       [sample_snapshot "s0" []; sample_snapshot "s1" [sample_delta]] [] false).

Lemma sample_graph_served : ServedModel sample_graph_model.
Proof.
  split; try (vm_compute; done); apply (bool_decide_unpack _); vm_compute; exact I.
Qed.

Lemma compiler_scene_limits_witness :
  exists scene, derive_ownership_topology_scene_with_limits id None sample_graph_model 9 12 20 false
    = Some scene /\ NoDup (tnode_id <$> scene_nodes scene) /\ scene_selected_step scene = 1%N.
Proof.
  eexists. split; [vm_compute; reflexivity|]. split; [|vm_compute; reflexivity].
  eapply (compiler_scene_limits id None sample_graph_model 9 12 20 false).
  vm_compute. reflexivity.
Defined.

Lemma compiler_scene_routed_witness :
  exists scene, derive_ownership_topology_scene_with_limits id None sample_graph_model 0 12 20 false
    = Some scene /\ Forall (joins (tnode_id <$> scene_nodes scene)) (scene_edges scene).
Proof.
  eexists. split; [vm_compute; reflexivity|].
  eapply (compiler_scene_routed id None sample_graph_model 0 12 20 false).
  - split; [|intros g Hg; discriminate Hg].
    constructor; [|constructor]. split; apply (bool_decide_unpack _); vm_compute; exact I.
  - vm_compute. discriminate.
  - vm_compute. reflexivity.
Defined.

Lemma truncated_flag_is_exact_witness :
  exists scene, derive_ownership_topology_scene_with_limits id None sample_graph_model 0 12 20 false
    = Some scene /\ scene_truncated scene = false /\
    tnode_id <$> scene_nodes scene ≡ₚ ["x"; "r"].
Proof.
  eexists. split; [vm_compute; reflexivity|]. split; [vm_compute; reflexivity|].
  eapply (truncated_flag_is_exact id None sample_graph_model 0 12 20 false).
  - apply sample_graph_served.
  - vm_compute. discriminate.
  - vm_compute. reflexivity.
  - vm_compute. reflexivity.
Defined.

Lemma scene_shows_selected_step_witness :
  exists scene, derive_ownership_topology_scene_with_limits id None sample_graph_model 1 12 20 false
    = Some scene /\
    forall n, n ∈ scene_nodes scene ->
      topology_state_at_step sample_graph_model (scene_selected_step scene) !! tnode_id n
        = Some (tnode_state n).
Proof.
  eexists. split; [vm_compute; reflexivity|].
  eapply (scene_shows_selected_step id None sample_graph_model 1 12 20 false).
  - vm_compute. discriminate.
  - vm_compute. reflexivity.
Defined.
