(* ===== verification/Fnv.v ===== *)
(** * The source hash

    [ownership_source_hash] of [zed-rust/crates/rust_workbench/src/rust_workbench.rs]:
    64-bit FNV-1a over the bytes of the source, printed as 16 hexadecimal
    digits.  It is the identity the panel uses to decide whether compiler facts
    are about the text on screen; the theorems say which edits it cannot miss. *)

From Stdlib Require Import Ascii.
From S2P Require Import Prelude RustStr.
From stdpp Require Import options.

Definition FNV_OFFSET : N := 0xcbf29ce484222325.
Definition FNV_PRIME : N := 0x100000001b3.

Definition fnv_step (hash : N) (byte : ascii) : N :=
  wrapping_mul 64 (N.lxor hash (N_of_ascii byte)) FNV_PRIME.

Fixpoint fnv_hash (hash : N) (source : string) : N :=
  match source with
  | EmptyString => hash
  | String byte source => fnv_hash (fnv_step hash byte) source
  end.

Definition hex_digit (n : N) : ascii :=
  ascii_of_N (if (n <? 10)%N then 48 + n else 87 + n).

(** The [digits] low hexadecimal digits of [n], most significant first. *)
Fixpoint hex_digits (digits : nat) (n : N) : string :=
  match digits with
  | O => EmptyString
  | S digits => hex_digits digits (n / 16) +:+ String (hex_digit (n mod 16)) EmptyString
  end.

(** [format!("{n:016x}")] of a 64-bit integer. *)
Definition format_016x (n : N) : string := hex_digits 16 n.

Definition ownership_source_hash (source : string) : string :=
  format_016x (fnv_hash FNV_OFFSET source).

Example hash_of_empty : ownership_source_hash "" = "cbf29ce484222325".
Proof. vm_compute. reflexivity. Qed.

Example hash_of_a : ownership_source_hash "a" = "af63dc4c8601ec8c".
Proof. vm_compute. reflexivity. Qed.

Example hash_of_foobar : ownership_source_hash "foobar" = "85944171f73967e8".
Proof. vm_compute. reflexivity. Qed.

(** ** Printing is injective *)

Lemma hex_digit_inj a b : (a < 16)%N -> (b < 16)%N -> hex_digit a = hex_digit b -> a = b.
Proof.
  intros Ha Hb H. apply (f_equal N_of_ascii) in H. unfold hex_digit in H.
  destruct (N.ltb_spec a 10), (N.ltb_spec b 10);
    rewrite !N_ascii_embedding in H by lia; lia.
Qed.

Lemma hex_digits_length digits n : String.length (hex_digits digits n) = digits.
Proof.
  revert n. induction digits as [|digits IH]; intros n; [done|]. simpl.
  rewrite length_append, IH. simpl. lia.
Qed.

Lemma snoc_inj a b x y :
  a +:+ String x EmptyString = b +:+ String y EmptyString -> a = b /\ x = y.
Proof.
  intros H%(f_equal rev_str). rewrite !rev_str_append in H.
  change (String x (rev_str a) = String y (rev_str b)) in H. injection H as -> H.
  apply (f_equal rev_str) in H. by rewrite !rev_str_involutive in H.
Qed.

Lemma hex_digits_inj digits a b :
  (a < 16 ^ N.of_nat digits)%N -> (b < 16 ^ N.of_nat digits)%N ->
  hex_digits digits a = hex_digits digits b -> a = b.
Proof.
  revert a b. induction digits as [|digits IH]; intros a b Ha Hb H.
  { simpl in Ha, Hb. lia. }
  rewrite Nat2N.inj_succ, N.pow_succ_r' in Ha, Hb. simpl in H.
  apply snoc_inj in H as [Hr Hd].
  apply hex_digit_inj in Hd; [|by apply N.mod_lt..]. apply IH in Hr; [|by apply N.Div0.div_lt_upper_bound..].
  rewrite (N.div_mod a 16), (N.div_mod b 16) by done. by rewrite Hr, Hd.
Qed.

(** ** One round is a bijection *)

Definition FNV_INVERSE : N := 0xce965057aff6957b.

Lemma fnv_prime_invertible : ((FNV_PRIME * FNV_INVERSE) mod 2 ^ 64 = 1)%N.
Proof. vm_compute. reflexivity. Qed.

Lemma wrapping_mul_inj a b :
  (a < 2 ^ 64)%N -> (b < 2 ^ 64)%N ->
  wrapping_mul 64 a FNV_PRIME = wrapping_mul 64 b FNV_PRIME -> a = b.
Proof.
  unfold wrapping_mul. intros Ha Hb H.
  apply (f_equal (fun n => (n * FNV_INVERSE) mod 2 ^ 64)%N) in H.
  rewrite !N.Div0.mul_mod_idemp_l, <- !N.mul_assoc in H.
  rewrite <- (N.Div0.mul_mod_idemp_r a), <- (N.Div0.mul_mod_idemp_r b), fnv_prime_invertible in H.
  by rewrite !N.mul_1_r, !N.mod_small in H.
Qed.

Lemma lxor_below a b : (a < 2 ^ 64)%N -> (b < 2 ^ 64)%N -> (N.lxor a b < 2 ^ 64)%N.
Proof.
  intros Ha Hb. destruct (decide (N.lxor a b = 0%N)) as [->|Hne]; [done|].
  apply N.log2_lt_pow2; [lia|]. eapply N.le_lt_trans; [apply N.log2_lxor|].
  apply N.max_lub_lt; [destruct (decide (a = 0%N)) as [->|]|destruct (decide (b = 0%N)) as [->|]];
    try done; apply N.log2_lt_pow2; lia.
Qed.

Lemma byte_below byte : (N_of_ascii byte < 2 ^ 64)%N.
Proof. pose proof (N_ascii_bounded byte). eapply N.lt_trans; [done|]. done. Qed.

Lemma fnv_step_below hash byte : (fnv_step hash byte < 2 ^ 64)%N.
Proof. by apply N.mod_lt. Qed.

Lemma fnv_hash_below hash source : (hash < 2 ^ 64)%N -> (fnv_hash hash source < 2 ^ 64)%N.
Proof.
  revert hash. induction source as [|byte source IH]; intros hash H; simpl; [done|].
  apply IH, fnv_step_below.
Qed.

Lemma fnv_step_inj_hash h1 h2 byte :
  (h1 < 2 ^ 64)%N -> (h2 < 2 ^ 64)%N -> fnv_step h1 byte = fnv_step h2 byte -> h1 = h2.
Proof.
  intros H1 H2 H. pose proof (byte_below byte) as Hb.
  apply wrapping_mul_inj in H; [|by apply lxor_below..].
  apply (f_equal (fun n => N.lxor n (N_of_ascii byte))) in H.
  by rewrite !N.lxor_assoc, N.lxor_nilpotent, !N.lxor_0_r in H.
Qed.

Lemma fnv_step_inj_byte hash b1 b2 :
  (hash < 2 ^ 64)%N -> fnv_step hash b1 = fnv_step hash b2 -> b1 = b2.
Proof.
  intros Hh H. pose proof (byte_below b1). pose proof (byte_below b2).
  apply wrapping_mul_inj in H; [|by apply lxor_below..].
  apply (f_equal (N.lxor hash)) in H.
  rewrite <- !N.lxor_assoc, N.lxor_nilpotent, !N.lxor_0_l in H.
  rewrite <- (ascii_N_embedding b1), <- (ascii_N_embedding b2). by rewrite H.
Qed.

Lemma fnv_hash_inj h1 h2 source :
  (h1 < 2 ^ 64)%N -> (h2 < 2 ^ 64)%N -> fnv_hash h1 source = fnv_hash h2 source -> h1 = h2.
Proof.
  revert h1 h2. induction source as [|byte source IH]; intros h1 h2 H1 H2 H; simpl in *; [done|].
  apply IH in H; [|apply fnv_step_below..]. by eapply fnv_step_inj_hash.
Qed.

Lemma fnv_hash_app hash a b : fnv_hash hash (a +:+ b) = fnv_hash (fnv_hash hash a) b.
Proof.
  revert hash. induction a as [|byte a IH]; intros hash; [done|].
  change (String byte a +:+ b) with (String byte (a +:+ b)). simpl. apply IH.
Qed.

Lemma source_hash_inj a b :
  ownership_source_hash a = ownership_source_hash b -> fnv_hash FNV_OFFSET a = fnv_hash FNV_OFFSET b.
Proof. apply hex_digits_inj; by apply fnv_hash_below. Qed.

(** Replacing one byte anywhere in a source always changes its hash, so
    facts about the text before such an edit are never taken for facts about
    the text after it. *)
Theorem one_byte_edit_changes_hash before after b1 b2 :
  b1 <> b2 ->
  ownership_source_hash (before +:+ String b1 after)
    <> ownership_source_hash (before +:+ String b2 after).
Proof.
  intros Hb H%source_hash_inj. rewrite !fnv_hash_app in H. simpl in H.
  pose proof (fnv_hash_below FNV_OFFSET before eq_refl).
  apply fnv_hash_inj in H; [|apply fnv_step_below..]. by apply fnv_step_inj_byte in H.
Qed.

Lemma one_byte_edit_changes_hash_witness :
  ownership_source_hash "let a = 1;" <> ownership_source_hash "let a = 2;".
Proof. apply (one_byte_edit_changes_hash "let a = " ";" "1" "2"). discriminate. Defined.

(** The hash is always 16 characters, and a common suffix never makes two
    different hashes equal: appending the same text to two sources gives the
    same hash only if they had the same hash before. *)
Theorem hash_is_a_fixed_width_state a b suffix :
  String.length (ownership_source_hash a) = 16 /\
  (ownership_source_hash (a +:+ suffix) = ownership_source_hash (b +:+ suffix) <->
   ownership_source_hash a = ownership_source_hash b).
Proof.
  split; [apply hex_digits_length|]. split.
  - intros H%source_hash_inj. rewrite !fnv_hash_app in H.
    apply fnv_hash_inj in H; [|by apply fnv_hash_below..].
    unfold ownership_source_hash. by rewrite H.
  - intros H%source_hash_inj. unfold ownership_source_hash. by rewrite !fnv_hash_app, H.
Qed.
