(* ===== verification/Panel.v ===== *)
(** * Decisions of the panel

    The pure functions of [zed-rust/crates/rust_workbench/src/rust_workbench.rs]:
    which problem is selected, whether a response is about what is on screen,
    what a repair did, which part of a long list is shown. *)

From Stdlib Require Import ZArith.
From S2P Require Import Prelude RustStr RustColl Protocol Fnv.
From stdpp Require Import options.

Definition MIN_PANEL_FONT_SCALE_PERCENT : N := 80.
Definition MAX_PANEL_FONT_SCALE_PERCENT : N := 180.
Definition MAX_RENDERED_ISSUES : N := 48.

(** ** Repair verification *)

Inductive RepairVerificationState : Type :=
| Applying
| Checking
| Resolved (remaining_file_problems : N)
| IntroducedProblems (summaries : list string)
| StillPresent (current_line : N)
| Failed (message : string).

Record RepairVerification : Type := mk_verification {
  verification_diagnostic_code : option string;
  verification_category : string;
  verification_binding_name : string;
  verification_original_line : N;
  verification_repair_title : string;
  verification_baseline_problem_signatures : gset string;
  verification_state : RepairVerificationState
}.

Definition primary_line (problem : OwnershipProblem) : N :=
  position_line (range_start (problem_primary_range problem)).
Definition primary_character (problem : OwnershipProblem) : N :=
  position_character (range_start (problem_primary_range problem)).

Definition display_line_number (zero_based_line : N) : N := saturating_add 32 zero_based_line 1.

Definition ownership_problem_signature (problem : OwnershipProblem) : string :=
  default "rustc" (problem_diagnostic_code problem) +:+ "|" +:+ problem_category problem
  +:+ "|" +:+ problem_binding_name problem.

Definition same_diagnosis (code : option string) (category binding_name : string)
    (problem : OwnershipProblem) : bool :=
  (problem_category problem =s category) && (problem_binding_name problem =s binding_name)
  && str_opt_eqb (problem_diagnostic_code problem) code.

Definition verification_matches (verification : RepairVerification) : OwnershipProblem -> bool :=
  same_diagnosis (verification_diagnostic_code verification) (verification_category verification)
    (verification_binding_name verification).

Definition line_distance (line : N) (problem : OwnershipProblem) : N :=
  abs_diff (primary_line problem) line.

Definition introduced (verification : RepairVerification) (problem : OwnershipProblem) : bool :=
  negb (bool_decide (ownership_problem_signature problem
                     ∈ verification_baseline_problem_signatures verification)).

Definition problem_summary (problem : OwnershipProblem) : string :=
  default "rustc" (problem_diagnostic_code problem) +:+ " on `" +:+ problem_binding_name problem
  +:+ "` at line " +:+ show (display_line_number (primary_line problem)).

Definition repair_verification_outcome (verification : RepairVerification)
    (problems : OwnershipProblems) : RepairVerificationState :=
  let distance := line_distance (verification_original_line verification) in
  let matching :=
    min_by (on distance N.leb)
      (retain (verification_matches verification) (problems_problems problems)) in
  let fresh :=
    match
      problem_summary <$> take 5 (retain (introduced verification) (problems_problems problems))
    with
    | [] => Resolved (len (problems_problems problems))
    | summaries => IntroducedProblems summaries
    end in
  match matching with
  | Some problem =>
      if (distance problem <=? 8)%N then StillPresent (primary_line problem) else fresh
  | None => fresh
  end.

Definition repair_is_compiler_validated (repair : OwnershipRepair) : bool :=
  repair_preview_complete repair
  && (repair_compiler_validated repair || (repair_validation_state repair =s "validated")).

(** ** Staleness *)

Definition UNAVAILABLE : string := "rust_analyzer_unavailable".

Definition ownership_model_matches_source (model : OwnershipModel) (source : string) : bool :=
  (model_status model =s UNAVAILABLE) || (model_source_hash model =s ownership_source_hash source).

Definition ownership_problems_match_source (problems : OwnershipProblems) (source : string) : bool :=
  (problems_status problems =s UNAVAILABLE)
  || (problems_source_hash problems =s ownership_source_hash source).

Definition ownership_model_matches_problem (model : OwnershipModel)
    (requested_problem_id : option string) : bool :=
  match requested_problem_id with
  | None => true
  | Some _ =>
      (model_schema_version model <? 11)%N
      || str_opt_eqb (model_selected_problem_id model) requested_problem_id
  end.

(** ** Choosing a problem *)

Definition ownership_problem_sort_key (problem : OwnershipProblem) : N * (N * string) :=
  (primary_line problem, (primary_character problem, problem_id problem)).

Definition problem_leb : OwnershipProblem -> OwnershipProblem -> bool :=
  on ownership_problem_sort_key (lex_leb N.compare (lex_leb N.compare String.leb)).

Definition position_is_before (left right : Position) : bool :=
  (position_line left <? position_line right)%N
  || (position_line left =? position_line right)%N
     && (position_character left <? position_character right)%N.

Definition position_is_in_range (position : Position) (range : Range) : bool :=
  negb (position_is_before position (range_start range))
  && negb (position_is_before (range_end range) position).

Definition triple_leb : N * (N * N) -> N * (N * N) -> bool :=
  lex_leb N.compare (lex_leb N.compare N.leb).

Definition range_size_key (entry : N * OwnershipProblem) : N * (N * N) :=
  let range := problem_primary_range entry.2 in
  (saturating_sub (position_line (range_end range)) (position_line (range_start range)),
   (saturating_sub (position_character (range_end range)) (position_character (range_start range)),
    entry.1)).

Definition ownership_problem_index_at_position (problems : list OwnershipProblem)
    (position : Position) : option N :=
  fst <$> min_by (on range_size_key triple_leb)
    (retain (fun entry => position_is_in_range position (problem_primary_range entry.2))
       (enumerate problems)).

Definition reconcile_key (previous : OwnershipProblem) (entry : N * OwnershipProblem) :
    N * (N * N) :=
  (abs_diff (primary_line entry.2) (primary_line previous),
   (abs_diff (primary_character entry.2) (primary_character previous), entry.1)).

Definition reconciled_ownership_problem_index (previous : OwnershipProblem)
    (current : list OwnershipProblem) : option N :=
  fst <$> min_by (on (reconcile_key previous) triple_leb)
    (retain (fun entry =>
       same_diagnosis (problem_diagnostic_code previous) (problem_category previous)
         (problem_binding_name previous) entry.2) (enumerate current)).

(** [isize] arithmetic: the operands are list indices and a step of one. *)
Definition relative_problem_index (selected : option N) (problem_count : N) (direction : Z) :
    option N :=
  if (problem_count =? 0)%N then None
  else
    let selected := Z.of_N (default 0%N selected) in
    Some (Z.to_N ((selected + direction) mod Z.of_N problem_count)).

Definition default_problem_index (problem_count : N) (operation_focus_requested : bool) : option N :=
  if negb operation_focus_requested && (0 <? problem_count)%N then Some 0%N else None.

Definition selected_workspace_cluster (guide : OwnershipWorkspaceGuide) :
    option OwnershipProblemCluster :=
  or_else
    (selected ← guide_selected_cluster_id guide;
     find_first (fun cluster => cluster_id cluster =s selected) (guide_clusters guide))
    (fun _ => head (guide_clusters guide)).

(** The half-open range of issues the picker renders. *)
Definition issue_picker_range (problem_count : N) (selected_index : option N) : N * N :=
  if (problem_count <=? MAX_RENDERED_ISSUES)%N then (0, problem_count)%N
  else
    let selected := N.min (default 0%N selected_index) (problem_count - 1) in
    let half_window := (MAX_RENDERED_ISSUES / 2)%N in
    let start :=
      N.min (saturating_sub selected half_window) (problem_count - MAX_RENDERED_ISSUES) in
    (start, start + MAX_RENDERED_ISSUES)%N.

(** [u16] plus [i16] in [i32], then clamped. *)
Definition adjusted_panel_font_scale (current : N) (delta_percent : Z) : N :=
  Z.to_N (Z.max (Z.of_N MIN_PANEL_FONT_SCALE_PERCENT)
            (Z.min (Z.of_N current + delta_percent) (Z.of_N MAX_PANEL_FONT_SCALE_PERCENT))).

(** ** Status lines *)

Definition ownership_problem_status (problems : OwnershipProblems) : string :=
  if problems_status problems =s UNAVAILABLE then
    "The patched rust-analyzer is not running for this buffer."
  else if problems_status problems =s "waiting_for_compiler" then
    "Waiting for Cargo check learning facts…"
  else
    match problems_problems problems with
    | [] =>
        "No supported Rust diagnostics in this file. Select a value to inspect valid ownership flow."
    | [_] => "One explainable Rust problem found."
    | problems => show (len problems) +:+ " explainable Rust problems found."
    end.

Definition ownership_status (model : OwnershipModel) : string :=
  if model_status model =s UNAVAILABLE then
    "The patched rust-analyzer is not running for this buffer."
  else
    match model_events model with
    | [] =>
        match model_source_context model, model_operations model with
        | None, [] => "Waiting for compiler facts. Save the file or run Cargo check."
        | _, _ =>
            "Compiler diagnostic context is ready; this error family has no ownership-event timeline."
        end
    | _ =>
        let precision :=
          if model_precision model =s "compiler_exact" then "Compiler exact" else "Estimated" in
        let bounded :=
          if model_truncated model then " · large result bounded for responsiveness" else "" in
        match model_selected_place model with
        | Some place => precision +:+ " ownership timeline for " +:+ place +:+ bounded
        | None => precision +:+ " ownership timeline" +:+ bounded
        end
    end.
