(* ===== verification/PanelSpec.v ===== *)
(** * Properties of the panel's decisions *)

From Stdlib Require Import ZArith.
From S2P Require Import Prelude RustStr RustColl Protocol Fnv Panel.
From stdpp Require Import options.

#[export] Instance triple_leb_total : TotalLeb triple_leb.
Proof. unfold triple_leb. apply _. Qed.

Lemma triple_leb_fst a b : triple_leb a b = true -> (a.1 <= b.1)%N.
Proof. unfold triple_leb, lex_leb. destruct (N.compare_spec a.1 b.1); [lia..|done]. Qed.

(** ** Repair verification *)

Definition still_there (verification : RepairVerification) (problem : OwnershipProblem) : Prop :=
  verification_matches verification problem = true /\
  (line_distance (verification_original_line verification) problem <= 8)%N.

Lemma nearest_match (verification : RepairVerification) problems :
  match min_by (on (line_distance (verification_original_line verification)) N.leb)
          (retain (verification_matches verification) problems) with
  | Some p =>
      (p ∈ problems /\ verification_matches verification p = true) /\
      forall q, q ∈ problems -> verification_matches verification q = true ->
        (line_distance (verification_original_line verification) p
         <= line_distance (verification_original_line verification) q)%N
  | None => forall q, q ∈ problems -> verification_matches verification q = false
  end.
Proof.
  destruct (min_by _ _) as [p|] eqn:E.
  - apply (min_by_spec (line_distance _) N.leb) in E as [[Hp Hin]%elem_of_retain Hmin].
    split; [done|]. intros q Hq Hm. apply N.leb_le, Hmin, elem_of_retain. done.
  - apply min_by_None in E. intros q Hq. destruct (verification_matches verification q) eqn:Hm; [|done].
    assert (q ∈ retain (verification_matches verification) problems) as Hin
      by (by apply elem_of_retain). rewrite E in Hin. by apply not_elem_of_nil in Hin.
Qed.

(** The two results when the problem is gone. *)
Definition after_repair (verification : RepairVerification) (problems : OwnershipProblems) :
    RepairVerificationState :=
  match
    problem_summary <$> take 5 (retain (introduced verification) (problems_problems problems))
  with
  | [] => Resolved (len (problems_problems problems))
  | summaries => IntroducedProblems summaries
  end.

Lemma outcome_cases verification problems :
  (exists p, p ∈ problems_problems problems /\ still_there verification p /\
     repair_verification_outcome verification problems = StillPresent (primary_line p) /\
     forall q, q ∈ problems_problems problems -> verification_matches verification q = true ->
       (line_distance (verification_original_line verification) p
        <= line_distance (verification_original_line verification) q)%N) \/
  (forall q, q ∈ problems_problems problems -> ~ still_there verification q) /\
  repair_verification_outcome verification problems = after_repair verification problems.
Proof.
  pose proof (nearest_match verification (problems_problems problems)) as Hn.
  unfold repair_verification_outcome. fold (after_repair verification problems).
  destruct (min_by _ _) as [p|].
  - destruct Hn as [[Hin Hm] Hmin].
    destruct (N.leb_spec (line_distance (verification_original_line verification) p) 8).
    + left. exists p. done.
    + right. split; [|done]. intros q Hq [Hqm Hqd]. specialize (Hmin q Hq Hqm). lia.
  - right. split; [|done]. intros q Hq [Hm _]. by rewrite Hn in Hm.
Qed.

Lemma after_repair_resolved verification problems n :
  after_repair verification problems = Resolved n <->
  n = len (problems_problems problems) /\
  forall q, q ∈ problems_problems problems ->
    ownership_problem_signature q ∈ verification_baseline_problem_signatures verification.
Proof.
  unfold after_repair.
  destruct (retain (introduced verification) (problems_problems problems)) as [|p l] eqn:E; simpl.
  - split; [|naive_solver]. intros [= <-]. split; [done|]. intros q Hq.
    destruct (introduced verification q) eqn:Hi.
    + assert (q ∈ retain (introduced verification) (problems_problems problems)) as Hin
        by (by apply elem_of_retain). rewrite E in Hin. by apply not_elem_of_nil in Hin.
    + unfold introduced in Hi. by apply negb_false_iff, bool_decide_eq_true in Hi.
  - split; [done|]. intros [_ Hall].
    assert (p ∈ retain (introduced verification) (problems_problems problems)) as [Hi Hp]%elem_of_retain
      by (rewrite E; apply elem_of_cons; by left).
    unfold introduced in Hi. apply negb_true_iff, bool_decide_eq_false in Hi. by destruct Hi; apply Hall.
Qed.

(** A repair is reported as resolved exactly when the repaired diagnosis no
    longer occurs within eight lines of where it was and every remaining problem
    was already known before the repair. *)
Theorem repair_resolved_iff verification problems n :
  repair_verification_outcome verification problems = Resolved n <->
  n = len (problems_problems problems) /\
  (forall q, q ∈ problems_problems problems -> ~ still_there verification q) /\
  (forall q, q ∈ problems_problems problems ->
     ownership_problem_signature q ∈ verification_baseline_problem_signatures verification).
Proof.
  destruct (outcome_cases verification problems) as [(p & Hin & Hs & -> & _)|[Hno ->]].
  - split; [done|]. intros (_ & Hno & _). by destruct (Hno p Hin).
  - rewrite after_repair_resolved. tauto.
Qed.

(** When the repaired diagnosis still occurs within eight lines, the panel
    says so, and names the line of the occurrence nearest to the original. *)
Theorem repair_still_present verification problems q :
  q ∈ problems_problems problems -> still_there verification q ->
  exists p, p ∈ problems_problems problems /\ still_there verification p /\
    repair_verification_outcome verification problems = StillPresent (primary_line p) /\
    (line_distance (verification_original_line verification) p
     <= line_distance (verification_original_line verification) q)%N.
Proof.
  intros Hq Hs.
  destruct (outcome_cases verification problems) as [(p & Hin & Hp & -> & Hmin)|[Hno _]].
  - exists p. split_and!; try done. apply Hmin; [done|]. by destruct Hs.
  - by destruct (Hno q Hq).
Qed.

(** ** Selecting by position *)

Lemma pick_entry (key : N * OwnershipProblem -> N * (N * N)) (p : N * OwnershipProblem -> bool)
    problems :
  match min_by (on key triple_leb) (retain p (enumerate problems)) with
  | Some (i, problem) =>
      problems !! N.to_nat i = Some problem /\ p (i, problem) = true /\
      forall j q, problems !! j = Some q -> p (N.of_nat j, q) = true ->
        triple_leb (key (i, problem)) (key (N.of_nat j, q)) = true
  | None => forall j q, problems !! j = Some q -> p (N.of_nat j, q) = false
  end.
Proof.
  destruct (min_by _ _) as [[i problem]|] eqn:E.
  - apply (min_by_spec key triple_leb) in E as [[Hp Hin]%elem_of_retain Hmin].
    split; [by apply enumerate_lookup|]. split; [done|]. intros j q Hj Hq.
    apply Hmin, elem_of_retain. split; [done|]. by apply enumerate_elem.
  - apply min_by_None in E. intros j q Hj. destruct (p (N.of_nat j, q)) eqn:Hp; [|done].
    assert ((N.of_nat j, q) ∈ retain p (enumerate problems)) as Hin
      by (apply elem_of_retain; split; [done|by apply enumerate_elem]).
    rewrite E in Hin. by apply not_elem_of_nil in Hin.
Qed.

Definition contains_position (position : Position) (problem : OwnershipProblem) : Prop :=
  position_leb (range_start (problem_primary_range problem)) position = true /\
  position_leb position (range_end (problem_primary_range problem)) = true.

Lemma position_in_range_spec position problem :
  position_is_in_range position (problem_primary_range problem) = true <->
  contains_position position problem.
Proof.
  unfold position_is_in_range, contains_position, position_is_before.
  rewrite andb_true_iff, !negb_true_iff, !position_leb_spec, !orb_false_iff, !andb_false_iff,
    !N.ltb_ge, !N.eqb_neq. lia.
Qed.

(** The problem picked for a cursor position is one whose primary range
    contains the cursor, and spans the fewest lines among those that do; none is
    picked only when no range contains the cursor. *)
Theorem problem_at_cursor problems position :
  match ownership_problem_index_at_position problems position with
  | Some i =>
      exists p, problems !! N.to_nat i = Some p /\ contains_position position p /\
        forall q, q ∈ problems -> contains_position position q ->
          ((range_size_key (0, p)).1 <= (range_size_key (0, q)).1)%N
  | None => forall q, q ∈ problems -> ~ contains_position position q
  end.
Proof.
  unfold ownership_problem_index_at_position.
  pose proof (pick_entry range_size_key
    (fun entry => position_is_in_range position (problem_primary_range entry.2)) problems) as H.
  destruct (min_by _ _) as [[i p]|]; simpl.
  - destruct H as (Hi & Hp & Hmin). exists p. split; [done|].
    split; [by apply position_in_range_spec|]. intros q (j & Hj)%list_elem_of_lookup Hq.
    specialize (Hmin j q Hj (proj2 (position_in_range_spec _ _) Hq)).
    exact (triple_leb_fst _ _ Hmin).
  - intros q (j & Hj)%list_elem_of_lookup Hq%position_in_range_spec.
    pose proof (H j q Hj) as Hn. simpl in Hn. congruence.
Qed.

(** After a rescan the panel stays on the same diagnosis: the problem it
    re-selects has the code, category and binding of the previous one and is at
    least as close to it, in lines, as any other such problem; it loses the
    selection only when no problem with that diagnosis is left. *)
Theorem reconciled_problem_is_nearest previous current :
  let same := same_diagnosis (problem_diagnostic_code previous) (problem_category previous)
                (problem_binding_name previous) in
  match reconciled_ownership_problem_index previous current with
  | Some i =>
      exists p, current !! N.to_nat i = Some p /\ same p = true /\
        forall q, q ∈ current -> same q = true ->
          (line_distance (primary_line previous) p <= line_distance (primary_line previous) q)%N
  | None => forall q, q ∈ current -> same q = false
  end.
Proof.
  intros same. unfold reconciled_ownership_problem_index.
  pose proof (pick_entry (reconcile_key previous) (fun entry => same entry.2) current) as H.
  fold same. destruct (min_by _ _) as [[i p]|]; simpl.
  - destruct H as (Hi & Hp & Hmin). exists p. split; [done|]. split; [done|].
    intros q (j & Hj)%list_elem_of_lookup Hq. specialize (Hmin j q Hj Hq).
    exact (triple_leb_fst _ _ Hmin).
  - intros q (j & Hj)%list_elem_of_lookup. by apply (H j q).
Qed.

(** ** Windows and steps *)

(** The issue picker always shows the selected issue, never reaches past the
    list, and shows min(count, 48) issues. *)
Theorem picker_shows_selection count selected :
  (0 < count)%N ->
  let '(first, last) := issue_picker_range count selected in
  (first <= N.min (default 0 selected) (count - 1) < last)%N /\ (last <= count)%N /\
  (last - first = N.min count 48)%N.
Proof.
  intros Hc. unfold issue_picker_range, MAX_RENDERED_ISSUES, saturating_sub.
  destruct (N.leb_spec count 48); [lia|]. change (48 / 2)%N with 24%N. lia.
Qed.

Lemma picker_shows_selection_witness :
  issue_picker_range 100 (Some 60%N) = (36, 84)%N /\ (84 - 36 = N.min 100 48)%N.
Proof.
  split; [vm_compute; reflexivity|].
  pose proof (picker_shows_selection 100 (Some 60%N)) as H. apply H. vm_compute. reflexivity.
Defined.

Lemma relative_index_mod selected count direction :
  (0 < count)%N -> relative_problem_index (Some selected) count direction
    = Some (Z.to_N ((Z.of_N selected + direction) mod Z.of_N count)).
Proof. intros Hc. unfold relative_problem_index. by destruct (N.eqb_spec count 0); [lia|]. Qed.

(** Stepping through the issues stays inside the list and wraps around; one
    step back undoes one step forward. *)
Theorem relative_step_roundtrip selected count direction :
  (selected < count)%N ->
  exists next, relative_problem_index (Some selected) count direction = Some next /\
    (next < count)%N /\
    relative_problem_index (Some next) count (- direction) = Some selected.
Proof.
  intros Hs. rewrite relative_index_mod by lia. eexists. split; [done|].
  pose proof (Z.mod_pos_bound (Z.of_N selected + direction) (Z.of_N count)) as Hb.
  split; [lia|]. rewrite relative_index_mod, Z2N.id by lia. f_equal.
  rewrite Zplus_mod_idemp_l. replace (Z.of_N selected + direction + - direction)%Z
    with (Z.of_N selected) by lia. rewrite Z.mod_small by lia. apply N2Z.id.
Qed.

Lemma relative_step_roundtrip_witness :
  relative_problem_index (Some 0%N) 5 (-1) = Some 4%N /\
  exists next, relative_problem_index (Some 0%N) 5 (-1) = Some next /\ (next < 5)%N /\
    relative_problem_index (Some next) 5 (- -1) = Some 0%N.
Proof.
  split; [vm_compute; reflexivity|]. apply (relative_step_roundtrip 0 5 (-1)). vm_compute. reflexivity.
Defined.

Lemma font_scale_bounds current delta :
  (MIN_PANEL_FONT_SCALE_PERCENT <= adjusted_panel_font_scale current delta
   <= MAX_PANEL_FONT_SCALE_PERCENT)%N.
Proof.
  unfold adjusted_panel_font_scale, MIN_PANEL_FONT_SCALE_PERCENT, MAX_PANEL_FONT_SCALE_PERCENT. lia.
Qed.

Definition sample_moved (line : N) : OwnershipProblem :=
  mk_problem "p" "use_after_move" (Some "E0382") "m" "v"
    (mk_range (mk_position line 4) (mk_position line 9)) default_range [] []
    default_position "compiler_exact".

Definition sample_verification : RepairVerification :=
  mk_verification (Some "E0382") "use_after_move" "v" 10 "Clone before move" ∅ Checking.

Lemma repair_still_present_witness :
  repair_verification_outcome sample_verification
    (mk_problems 1 "ready" "" [sample_moved 40; sample_moved 13]) = StillPresent 13 /\
  exists p, p ∈ [sample_moved 40; sample_moved 13] /\ still_there sample_verification p.
Proof.
  split; [vm_compute; reflexivity|].
  destruct (repair_still_present sample_verification
    (mk_problems 1 "ready" "" [sample_moved 40; sample_moved 13]) (sample_moved 13))
    as (p & Hin & Hp & _).
  - apply elem_of_cons. right. apply elem_of_cons. left. reflexivity.
  - split; [vm_compute; reflexivity|vm_compute; discriminate].
  - exists p. split; [exact Hin|exact Hp].
Defined.
