(* ===== verification/PanelRecord.v ===== *)
(** * The panel's state

    [RustWorkbenchPanel] of [zed-rust/crates/rust_workbench/src/rust_workbench.rs]:
    its request keys, the fields its asynchronous handlers read and write, and
    one setter per field so that handlers read like the assignments of the
    source.  Focus handles, subscriptions, tasks, display preferences and editor
    decorations are left out: no handler decides anything from them. *)

From S2P Require Import Prelude RustStr RustColl Protocol Topology Panel.
From stdpp Require Import options.

#[export] Instance Position_eq_dec : EqDecision Position.
Proof. solve_decision. Defined.

Record ModelRequestKey : Type := mk_model_key {
  model_key_source_hash : string;
  model_key_problem_id : option string;
  model_key_position : Position;
  model_key_selection_epoch : N;
  model_key_analysis_epoch : N
}.

Record ProblemRequestKey : Type := mk_problem_key {
  problem_key_buffer_id : N;
  problem_key_source_hash : string;
  problem_key_analysis_epoch : N
}.

Record WorkspaceGuideRequestKey : Type := mk_guide_key {
  guide_key_buffer_id : N;
  guide_key_source_hash : string;
  guide_key_problem_id : option string;
  guide_key_position : Position;
  guide_key_selection_epoch : N;
  guide_key_analysis_epoch : N
}.

#[export] Instance ModelRequestKey_eq_dec : EqDecision ModelRequestKey.
Proof. solve_decision. Defined.
#[export] Instance ProblemRequestKey_eq_dec : EqDecision ProblemRequestKey.
Proof. solve_decision. Defined.
#[export] Instance WorkspaceGuideRequestKey_eq_dec : EqDecision WorkspaceGuideRequestKey.
Proof. solve_decision. Defined.

Record RustWorkbenchPanel : Type := mk_panel {
  panel_active : bool;
  panel_model : OwnershipModel;
  panel_problems : OwnershipProblems;
  panel_workspace_guide : OwnershipWorkspaceGuide;
  panel_selected_problem_id : option string;
  panel_selected_symptom_problem_id : option string;
  panel_selected_intent_choice_id : option string;
  panel_operation_focus_requested : bool;
  panel_selection_epoch : N;
  panel_analysis_epoch : N;
  panel_problem_status : string;
  panel_status_message : string;
  panel_active_buffer : option N;
  panel_active_position : option Position;
  panel_last_problem_key : option ProblemRequestKey;
  panel_pending_problem_key : option ProblemRequestKey;
  panel_last_model_key : option ModelRequestKey;
  panel_pending_model_key : option ModelRequestKey;
  panel_last_workspace_guide_key : option WorkspaceGuideRequestKey;
  panel_pending_workspace_guide_key : option WorkspaceGuideRequestKey;
  panel_active_editor : option N;
  panel_repair_verification : option RepairVerification;
  panel_validating_repair_id : option string;
  panel_visual_step : N;
  panel_topology_scene : option OwnershipTopologyScene;
  panel_full_topology_scene : option OwnershipTopologyScene;
  panel_selected_topology_element : option string;
  panel_preview_repair_id : option string;
  panel_show_repair_alternatives : bool;
  panel_show_workspace_roots : bool
}.

Definition set_active (v : bool) (p : RustWorkbenchPanel) : RustWorkbenchPanel :=
  mk_panel v (panel_model p) (panel_problems p) (panel_workspace_guide p)
    (panel_selected_problem_id p) (panel_selected_symptom_problem_id p)
    (panel_selected_intent_choice_id p) (panel_operation_focus_requested p)
    (panel_selection_epoch p) (panel_analysis_epoch p) (panel_problem_status p)
    (panel_status_message p) (panel_active_buffer p) (panel_active_position p)
    (panel_last_problem_key p) (panel_pending_problem_key p) (panel_last_model_key p)
    (panel_pending_model_key p) (panel_last_workspace_guide_key p)
    (panel_pending_workspace_guide_key p) (panel_active_editor p) (panel_repair_verification p)
    (panel_validating_repair_id p) (panel_visual_step p) (panel_topology_scene p)
    (panel_full_topology_scene p) (panel_selected_topology_element p)
    (panel_preview_repair_id p) (panel_show_repair_alternatives p)
    (panel_show_workspace_roots p).
Definition set_model (v : OwnershipModel) (p : RustWorkbenchPanel) : RustWorkbenchPanel :=
  mk_panel (panel_active p) v (panel_problems p) (panel_workspace_guide p)
    (panel_selected_problem_id p) (panel_selected_symptom_problem_id p)
    (panel_selected_intent_choice_id p) (panel_operation_focus_requested p)
    (panel_selection_epoch p) (panel_analysis_epoch p) (panel_problem_status p)
    (panel_status_message p) (panel_active_buffer p) (panel_active_position p)
    (panel_last_problem_key p) (panel_pending_problem_key p) (panel_last_model_key p)
    (panel_pending_model_key p) (panel_last_workspace_guide_key p)
    (panel_pending_workspace_guide_key p) (panel_active_editor p) (panel_repair_verification p)
    (panel_validating_repair_id p) (panel_visual_step p) (panel_topology_scene p)
    (panel_full_topology_scene p) (panel_selected_topology_element p)
    (panel_preview_repair_id p) (panel_show_repair_alternatives p)
    (panel_show_workspace_roots p).
Definition set_problems (v : OwnershipProblems) (p : RustWorkbenchPanel) : RustWorkbenchPanel :=
  mk_panel (panel_active p) (panel_model p) v (panel_workspace_guide p)
    (panel_selected_problem_id p) (panel_selected_symptom_problem_id p)
    (panel_selected_intent_choice_id p) (panel_operation_focus_requested p)
    (panel_selection_epoch p) (panel_analysis_epoch p) (panel_problem_status p)
    (panel_status_message p) (panel_active_buffer p) (panel_active_position p)
    (panel_last_problem_key p) (panel_pending_problem_key p) (panel_last_model_key p)
    (panel_pending_model_key p) (panel_last_workspace_guide_key p)
    (panel_pending_workspace_guide_key p) (panel_active_editor p) (panel_repair_verification p)
    (panel_validating_repair_id p) (panel_visual_step p) (panel_topology_scene p)
    (panel_full_topology_scene p) (panel_selected_topology_element p)
    (panel_preview_repair_id p) (panel_show_repair_alternatives p)
    (panel_show_workspace_roots p).
Definition set_workspace_guide (v : OwnershipWorkspaceGuide) (p : RustWorkbenchPanel) : RustWorkbenchPanel :=
  mk_panel (panel_active p) (panel_model p) (panel_problems p) v (panel_selected_problem_id p)
    (panel_selected_symptom_problem_id p) (panel_selected_intent_choice_id p)
    (panel_operation_focus_requested p) (panel_selection_epoch p) (panel_analysis_epoch p)
    (panel_problem_status p) (panel_status_message p) (panel_active_buffer p)
    (panel_active_position p) (panel_last_problem_key p) (panel_pending_problem_key p)
    (panel_last_model_key p) (panel_pending_model_key p) (panel_last_workspace_guide_key p)
    (panel_pending_workspace_guide_key p) (panel_active_editor p) (panel_repair_verification p)
    (panel_validating_repair_id p) (panel_visual_step p) (panel_topology_scene p)
    (panel_full_topology_scene p) (panel_selected_topology_element p)
    (panel_preview_repair_id p) (panel_show_repair_alternatives p)
    (panel_show_workspace_roots p).
Definition set_selected_problem_id (v : option string) (p : RustWorkbenchPanel) : RustWorkbenchPanel :=
  mk_panel (panel_active p) (panel_model p) (panel_problems p) (panel_workspace_guide p) v
    (panel_selected_symptom_problem_id p) (panel_selected_intent_choice_id p)
    (panel_operation_focus_requested p) (panel_selection_epoch p) (panel_analysis_epoch p)
    (panel_problem_status p) (panel_status_message p) (panel_active_buffer p)
    (panel_active_position p) (panel_last_problem_key p) (panel_pending_problem_key p)
    (panel_last_model_key p) (panel_pending_model_key p) (panel_last_workspace_guide_key p)
    (panel_pending_workspace_guide_key p) (panel_active_editor p) (panel_repair_verification p)
    (panel_validating_repair_id p) (panel_visual_step p) (panel_topology_scene p)
    (panel_full_topology_scene p) (panel_selected_topology_element p)
    (panel_preview_repair_id p) (panel_show_repair_alternatives p)
    (panel_show_workspace_roots p).
Definition set_selected_symptom_problem_id (v : option string) (p : RustWorkbenchPanel) : RustWorkbenchPanel :=
  mk_panel (panel_active p) (panel_model p) (panel_problems p) (panel_workspace_guide p)
    (panel_selected_problem_id p) v (panel_selected_intent_choice_id p)
    (panel_operation_focus_requested p) (panel_selection_epoch p) (panel_analysis_epoch p)
    (panel_problem_status p) (panel_status_message p) (panel_active_buffer p)
    (panel_active_position p) (panel_last_problem_key p) (panel_pending_problem_key p)
    (panel_last_model_key p) (panel_pending_model_key p) (panel_last_workspace_guide_key p)
    (panel_pending_workspace_guide_key p) (panel_active_editor p) (panel_repair_verification p)
    (panel_validating_repair_id p) (panel_visual_step p) (panel_topology_scene p)
    (panel_full_topology_scene p) (panel_selected_topology_element p)
    (panel_preview_repair_id p) (panel_show_repair_alternatives p)
    (panel_show_workspace_roots p).
Definition set_selected_intent_choice_id (v : option string) (p : RustWorkbenchPanel) : RustWorkbenchPanel :=
  mk_panel (panel_active p) (panel_model p) (panel_problems p) (panel_workspace_guide p)
    (panel_selected_problem_id p) (panel_selected_symptom_problem_id p) v
    (panel_operation_focus_requested p) (panel_selection_epoch p) (panel_analysis_epoch p)
    (panel_problem_status p) (panel_status_message p) (panel_active_buffer p)
    (panel_active_position p) (panel_last_problem_key p) (panel_pending_problem_key p)
    (panel_last_model_key p) (panel_pending_model_key p) (panel_last_workspace_guide_key p)
    (panel_pending_workspace_guide_key p) (panel_active_editor p) (panel_repair_verification p)
    (panel_validating_repair_id p) (panel_visual_step p) (panel_topology_scene p)
    (panel_full_topology_scene p) (panel_selected_topology_element p)
    (panel_preview_repair_id p) (panel_show_repair_alternatives p)
    (panel_show_workspace_roots p).
Definition set_operation_focus_requested (v : bool) (p : RustWorkbenchPanel) : RustWorkbenchPanel :=
  mk_panel (panel_active p) (panel_model p) (panel_problems p) (panel_workspace_guide p)
    (panel_selected_problem_id p) (panel_selected_symptom_problem_id p)
    (panel_selected_intent_choice_id p) v (panel_selection_epoch p) (panel_analysis_epoch p)
    (panel_problem_status p) (panel_status_message p) (panel_active_buffer p)
    (panel_active_position p) (panel_last_problem_key p) (panel_pending_problem_key p)
    (panel_last_model_key p) (panel_pending_model_key p) (panel_last_workspace_guide_key p)
    (panel_pending_workspace_guide_key p) (panel_active_editor p) (panel_repair_verification p)
    (panel_validating_repair_id p) (panel_visual_step p) (panel_topology_scene p)
    (panel_full_topology_scene p) (panel_selected_topology_element p)
    (panel_preview_repair_id p) (panel_show_repair_alternatives p)
    (panel_show_workspace_roots p).
Definition set_selection_epoch (v : N) (p : RustWorkbenchPanel) : RustWorkbenchPanel :=
  mk_panel (panel_active p) (panel_model p) (panel_problems p) (panel_workspace_guide p)
    (panel_selected_problem_id p) (panel_selected_symptom_problem_id p)
    (panel_selected_intent_choice_id p) (panel_operation_focus_requested p) v
    (panel_analysis_epoch p) (panel_problem_status p) (panel_status_message p)
    (panel_active_buffer p) (panel_active_position p) (panel_last_problem_key p)
    (panel_pending_problem_key p) (panel_last_model_key p) (panel_pending_model_key p)
    (panel_last_workspace_guide_key p) (panel_pending_workspace_guide_key p)
    (panel_active_editor p) (panel_repair_verification p) (panel_validating_repair_id p)
    (panel_visual_step p) (panel_topology_scene p) (panel_full_topology_scene p)
    (panel_selected_topology_element p) (panel_preview_repair_id p)
    (panel_show_repair_alternatives p) (panel_show_workspace_roots p).
Definition set_analysis_epoch (v : N) (p : RustWorkbenchPanel) : RustWorkbenchPanel :=
  mk_panel (panel_active p) (panel_model p) (panel_problems p) (panel_workspace_guide p)
    (panel_selected_problem_id p) (panel_selected_symptom_problem_id p)
    (panel_selected_intent_choice_id p) (panel_operation_focus_requested p)
    (panel_selection_epoch p) v (panel_problem_status p) (panel_status_message p)
    (panel_active_buffer p) (panel_active_position p) (panel_last_problem_key p)
    (panel_pending_problem_key p) (panel_last_model_key p) (panel_pending_model_key p)
    (panel_last_workspace_guide_key p) (panel_pending_workspace_guide_key p)
    (panel_active_editor p) (panel_repair_verification p) (panel_validating_repair_id p)
    (panel_visual_step p) (panel_topology_scene p) (panel_full_topology_scene p)
    (panel_selected_topology_element p) (panel_preview_repair_id p)
    (panel_show_repair_alternatives p) (panel_show_workspace_roots p).
Definition set_problem_status (v : string) (p : RustWorkbenchPanel) : RustWorkbenchPanel :=
  mk_panel (panel_active p) (panel_model p) (panel_problems p) (panel_workspace_guide p)
    (panel_selected_problem_id p) (panel_selected_symptom_problem_id p)
    (panel_selected_intent_choice_id p) (panel_operation_focus_requested p)
    (panel_selection_epoch p) (panel_analysis_epoch p) v (panel_status_message p)
    (panel_active_buffer p) (panel_active_position p) (panel_last_problem_key p)
    (panel_pending_problem_key p) (panel_last_model_key p) (panel_pending_model_key p)
    (panel_last_workspace_guide_key p) (panel_pending_workspace_guide_key p)
    (panel_active_editor p) (panel_repair_verification p) (panel_validating_repair_id p)
    (panel_visual_step p) (panel_topology_scene p) (panel_full_topology_scene p)
    (panel_selected_topology_element p) (panel_preview_repair_id p)
    (panel_show_repair_alternatives p) (panel_show_workspace_roots p).
Definition set_status_message (v : string) (p : RustWorkbenchPanel) : RustWorkbenchPanel :=
  mk_panel (panel_active p) (panel_model p) (panel_problems p) (panel_workspace_guide p)
    (panel_selected_problem_id p) (panel_selected_symptom_problem_id p)
    (panel_selected_intent_choice_id p) (panel_operation_focus_requested p)
    (panel_selection_epoch p) (panel_analysis_epoch p) (panel_problem_status p) v
    (panel_active_buffer p) (panel_active_position p) (panel_last_problem_key p)
    (panel_pending_problem_key p) (panel_last_model_key p) (panel_pending_model_key p)
    (panel_last_workspace_guide_key p) (panel_pending_workspace_guide_key p)
    (panel_active_editor p) (panel_repair_verification p) (panel_validating_repair_id p)
    (panel_visual_step p) (panel_topology_scene p) (panel_full_topology_scene p)
    (panel_selected_topology_element p) (panel_preview_repair_id p)
    (panel_show_repair_alternatives p) (panel_show_workspace_roots p).
Definition set_active_buffer (v : option N) (p : RustWorkbenchPanel) : RustWorkbenchPanel :=
  mk_panel (panel_active p) (panel_model p) (panel_problems p) (panel_workspace_guide p)
    (panel_selected_problem_id p) (panel_selected_symptom_problem_id p)
    (panel_selected_intent_choice_id p) (panel_operation_focus_requested p)
    (panel_selection_epoch p) (panel_analysis_epoch p) (panel_problem_status p)
    (panel_status_message p) v (panel_active_position p) (panel_last_problem_key p)
    (panel_pending_problem_key p) (panel_last_model_key p) (panel_pending_model_key p)
    (panel_last_workspace_guide_key p) (panel_pending_workspace_guide_key p)
    (panel_active_editor p) (panel_repair_verification p) (panel_validating_repair_id p)
    (panel_visual_step p) (panel_topology_scene p) (panel_full_topology_scene p)
    (panel_selected_topology_element p) (panel_preview_repair_id p)
    (panel_show_repair_alternatives p) (panel_show_workspace_roots p).
Definition set_active_position (v : option Position) (p : RustWorkbenchPanel) : RustWorkbenchPanel :=
  mk_panel (panel_active p) (panel_model p) (panel_problems p) (panel_workspace_guide p)
    (panel_selected_problem_id p) (panel_selected_symptom_problem_id p)
    (panel_selected_intent_choice_id p) (panel_operation_focus_requested p)
    (panel_selection_epoch p) (panel_analysis_epoch p) (panel_problem_status p)
    (panel_status_message p) (panel_active_buffer p) v (panel_last_problem_key p)
    (panel_pending_problem_key p) (panel_last_model_key p) (panel_pending_model_key p)
    (panel_last_workspace_guide_key p) (panel_pending_workspace_guide_key p)
    (panel_active_editor p) (panel_repair_verification p) (panel_validating_repair_id p)
    (panel_visual_step p) (panel_topology_scene p) (panel_full_topology_scene p)
    (panel_selected_topology_element p) (panel_preview_repair_id p)
    (panel_show_repair_alternatives p) (panel_show_workspace_roots p).
Definition set_last_problem_key (v : option ProblemRequestKey) (p : RustWorkbenchPanel) : RustWorkbenchPanel :=
  mk_panel (panel_active p) (panel_model p) (panel_problems p) (panel_workspace_guide p)
    (panel_selected_problem_id p) (panel_selected_symptom_problem_id p)
    (panel_selected_intent_choice_id p) (panel_operation_focus_requested p)
    (panel_selection_epoch p) (panel_analysis_epoch p) (panel_problem_status p)
    (panel_status_message p) (panel_active_buffer p) (panel_active_position p) v
    (panel_pending_problem_key p) (panel_last_model_key p) (panel_pending_model_key p)
    (panel_last_workspace_guide_key p) (panel_pending_workspace_guide_key p)
    (panel_active_editor p) (panel_repair_verification p) (panel_validating_repair_id p)
    (panel_visual_step p) (panel_topology_scene p) (panel_full_topology_scene p)
    (panel_selected_topology_element p) (panel_preview_repair_id p)
    (panel_show_repair_alternatives p) (panel_show_workspace_roots p).
Definition set_pending_problem_key (v : option ProblemRequestKey) (p : RustWorkbenchPanel) : RustWorkbenchPanel :=
  mk_panel (panel_active p) (panel_model p) (panel_problems p) (panel_workspace_guide p)
    (panel_selected_problem_id p) (panel_selected_symptom_problem_id p)
    (panel_selected_intent_choice_id p) (panel_operation_focus_requested p)
    (panel_selection_epoch p) (panel_analysis_epoch p) (panel_problem_status p)
    (panel_status_message p) (panel_active_buffer p) (panel_active_position p)
    (panel_last_problem_key p) v (panel_last_model_key p) (panel_pending_model_key p)
    (panel_last_workspace_guide_key p) (panel_pending_workspace_guide_key p)
    (panel_active_editor p) (panel_repair_verification p) (panel_validating_repair_id p)
    (panel_visual_step p) (panel_topology_scene p) (panel_full_topology_scene p)
    (panel_selected_topology_element p) (panel_preview_repair_id p)
    (panel_show_repair_alternatives p) (panel_show_workspace_roots p).
Definition set_last_model_key (v : option ModelRequestKey) (p : RustWorkbenchPanel) : RustWorkbenchPanel :=
  mk_panel (panel_active p) (panel_model p) (panel_problems p) (panel_workspace_guide p)
    (panel_selected_problem_id p) (panel_selected_symptom_problem_id p)
    (panel_selected_intent_choice_id p) (panel_operation_focus_requested p)
    (panel_selection_epoch p) (panel_analysis_epoch p) (panel_problem_status p)
    (panel_status_message p) (panel_active_buffer p) (panel_active_position p)
    (panel_last_problem_key p) (panel_pending_problem_key p) v (panel_pending_model_key p)
    (panel_last_workspace_guide_key p) (panel_pending_workspace_guide_key p)
    (panel_active_editor p) (panel_repair_verification p) (panel_validating_repair_id p)
    (panel_visual_step p) (panel_topology_scene p) (panel_full_topology_scene p)
    (panel_selected_topology_element p) (panel_preview_repair_id p)
    (panel_show_repair_alternatives p) (panel_show_workspace_roots p).
Definition set_pending_model_key (v : option ModelRequestKey) (p : RustWorkbenchPanel) : RustWorkbenchPanel :=
  mk_panel (panel_active p) (panel_model p) (panel_problems p) (panel_workspace_guide p)
    (panel_selected_problem_id p) (panel_selected_symptom_problem_id p)
    (panel_selected_intent_choice_id p) (panel_operation_focus_requested p)
    (panel_selection_epoch p) (panel_analysis_epoch p) (panel_problem_status p)
    (panel_status_message p) (panel_active_buffer p) (panel_active_position p)
    (panel_last_problem_key p) (panel_pending_problem_key p) (panel_last_model_key p) v
    (panel_last_workspace_guide_key p) (panel_pending_workspace_guide_key p)
    (panel_active_editor p) (panel_repair_verification p) (panel_validating_repair_id p)
    (panel_visual_step p) (panel_topology_scene p) (panel_full_topology_scene p)
    (panel_selected_topology_element p) (panel_preview_repair_id p)
    (panel_show_repair_alternatives p) (panel_show_workspace_roots p).
Definition set_last_workspace_guide_key (v : option WorkspaceGuideRequestKey) (p : RustWorkbenchPanel) : RustWorkbenchPanel :=
  mk_panel (panel_active p) (panel_model p) (panel_problems p) (panel_workspace_guide p)
    (panel_selected_problem_id p) (panel_selected_symptom_problem_id p)
    (panel_selected_intent_choice_id p) (panel_operation_focus_requested p)
    (panel_selection_epoch p) (panel_analysis_epoch p) (panel_problem_status p)
    (panel_status_message p) (panel_active_buffer p) (panel_active_position p)
    (panel_last_problem_key p) (panel_pending_problem_key p) (panel_last_model_key p)
    (panel_pending_model_key p) v (panel_pending_workspace_guide_key p) (panel_active_editor p)
    (panel_repair_verification p) (panel_validating_repair_id p) (panel_visual_step p)
    (panel_topology_scene p) (panel_full_topology_scene p) (panel_selected_topology_element p)
    (panel_preview_repair_id p) (panel_show_repair_alternatives p)
    (panel_show_workspace_roots p).
Definition set_pending_workspace_guide_key (v : option WorkspaceGuideRequestKey) (p : RustWorkbenchPanel) : RustWorkbenchPanel :=
  mk_panel (panel_active p) (panel_model p) (panel_problems p) (panel_workspace_guide p)
    (panel_selected_problem_id p) (panel_selected_symptom_problem_id p)
    (panel_selected_intent_choice_id p) (panel_operation_focus_requested p)
    (panel_selection_epoch p) (panel_analysis_epoch p) (panel_problem_status p)
    (panel_status_message p) (panel_active_buffer p) (panel_active_position p)
    (panel_last_problem_key p) (panel_pending_problem_key p) (panel_last_model_key p)
    (panel_pending_model_key p) (panel_last_workspace_guide_key p) v (panel_active_editor p)
    (panel_repair_verification p) (panel_validating_repair_id p) (panel_visual_step p)
    (panel_topology_scene p) (panel_full_topology_scene p) (panel_selected_topology_element p)
    (panel_preview_repair_id p) (panel_show_repair_alternatives p)
    (panel_show_workspace_roots p).
Definition set_active_editor (v : option N) (p : RustWorkbenchPanel) : RustWorkbenchPanel :=
  mk_panel (panel_active p) (panel_model p) (panel_problems p) (panel_workspace_guide p)
    (panel_selected_problem_id p) (panel_selected_symptom_problem_id p)
    (panel_selected_intent_choice_id p) (panel_operation_focus_requested p)
    (panel_selection_epoch p) (panel_analysis_epoch p) (panel_problem_status p)
    (panel_status_message p) (panel_active_buffer p) (panel_active_position p)
    (panel_last_problem_key p) (panel_pending_problem_key p) (panel_last_model_key p)
    (panel_pending_model_key p) (panel_last_workspace_guide_key p)
    (panel_pending_workspace_guide_key p) v (panel_repair_verification p)
    (panel_validating_repair_id p) (panel_visual_step p) (panel_topology_scene p)
    (panel_full_topology_scene p) (panel_selected_topology_element p)
    (panel_preview_repair_id p) (panel_show_repair_alternatives p)
    (panel_show_workspace_roots p).
Definition set_repair_verification (v : option RepairVerification) (p : RustWorkbenchPanel) : RustWorkbenchPanel :=
  mk_panel (panel_active p) (panel_model p) (panel_problems p) (panel_workspace_guide p)
    (panel_selected_problem_id p) (panel_selected_symptom_problem_id p)
    (panel_selected_intent_choice_id p) (panel_operation_focus_requested p)
    (panel_selection_epoch p) (panel_analysis_epoch p) (panel_problem_status p)
    (panel_status_message p) (panel_active_buffer p) (panel_active_position p)
    (panel_last_problem_key p) (panel_pending_problem_key p) (panel_last_model_key p)
    (panel_pending_model_key p) (panel_last_workspace_guide_key p)
    (panel_pending_workspace_guide_key p) (panel_active_editor p) v
    (panel_validating_repair_id p) (panel_visual_step p) (panel_topology_scene p)
    (panel_full_topology_scene p) (panel_selected_topology_element p)
    (panel_preview_repair_id p) (panel_show_repair_alternatives p)
    (panel_show_workspace_roots p).
Definition set_validating_repair_id (v : option string) (p : RustWorkbenchPanel) : RustWorkbenchPanel :=
  mk_panel (panel_active p) (panel_model p) (panel_problems p) (panel_workspace_guide p)
    (panel_selected_problem_id p) (panel_selected_symptom_problem_id p)
    (panel_selected_intent_choice_id p) (panel_operation_focus_requested p)
    (panel_selection_epoch p) (panel_analysis_epoch p) (panel_problem_status p)
    (panel_status_message p) (panel_active_buffer p) (panel_active_position p)
    (panel_last_problem_key p) (panel_pending_problem_key p) (panel_last_model_key p)
    (panel_pending_model_key p) (panel_last_workspace_guide_key p)
    (panel_pending_workspace_guide_key p) (panel_active_editor p) (panel_repair_verification p)
    v (panel_visual_step p) (panel_topology_scene p) (panel_full_topology_scene p)
    (panel_selected_topology_element p) (panel_preview_repair_id p)
    (panel_show_repair_alternatives p) (panel_show_workspace_roots p).
Definition set_visual_step (v : N) (p : RustWorkbenchPanel) : RustWorkbenchPanel :=
  mk_panel (panel_active p) (panel_model p) (panel_problems p) (panel_workspace_guide p)
    (panel_selected_problem_id p) (panel_selected_symptom_problem_id p)
    (panel_selected_intent_choice_id p) (panel_operation_focus_requested p)
    (panel_selection_epoch p) (panel_analysis_epoch p) (panel_problem_status p)
    (panel_status_message p) (panel_active_buffer p) (panel_active_position p)
    (panel_last_problem_key p) (panel_pending_problem_key p) (panel_last_model_key p)
    (panel_pending_model_key p) (panel_last_workspace_guide_key p)
    (panel_pending_workspace_guide_key p) (panel_active_editor p) (panel_repair_verification p)
    (panel_validating_repair_id p) v (panel_topology_scene p) (panel_full_topology_scene p)
    (panel_selected_topology_element p) (panel_preview_repair_id p)
    (panel_show_repair_alternatives p) (panel_show_workspace_roots p).
Definition set_topology_scene (v : option OwnershipTopologyScene) (p : RustWorkbenchPanel) : RustWorkbenchPanel :=
  mk_panel (panel_active p) (panel_model p) (panel_problems p) (panel_workspace_guide p)
    (panel_selected_problem_id p) (panel_selected_symptom_problem_id p)
    (panel_selected_intent_choice_id p) (panel_operation_focus_requested p)
    (panel_selection_epoch p) (panel_analysis_epoch p) (panel_problem_status p)
    (panel_status_message p) (panel_active_buffer p) (panel_active_position p)
    (panel_last_problem_key p) (panel_pending_problem_key p) (panel_last_model_key p)
    (panel_pending_model_key p) (panel_last_workspace_guide_key p)
    (panel_pending_workspace_guide_key p) (panel_active_editor p) (panel_repair_verification p)
    (panel_validating_repair_id p) (panel_visual_step p) v (panel_full_topology_scene p)
    (panel_selected_topology_element p) (panel_preview_repair_id p)
    (panel_show_repair_alternatives p) (panel_show_workspace_roots p).
Definition set_full_topology_scene (v : option OwnershipTopologyScene) (p : RustWorkbenchPanel) : RustWorkbenchPanel :=
  mk_panel (panel_active p) (panel_model p) (panel_problems p) (panel_workspace_guide p)
    (panel_selected_problem_id p) (panel_selected_symptom_problem_id p)
    (panel_selected_intent_choice_id p) (panel_operation_focus_requested p)
    (panel_selection_epoch p) (panel_analysis_epoch p) (panel_problem_status p)
    (panel_status_message p) (panel_active_buffer p) (panel_active_position p)
    (panel_last_problem_key p) (panel_pending_problem_key p) (panel_last_model_key p)
    (panel_pending_model_key p) (panel_last_workspace_guide_key p)
    (panel_pending_workspace_guide_key p) (panel_active_editor p) (panel_repair_verification p)
    (panel_validating_repair_id p) (panel_visual_step p) (panel_topology_scene p) v
    (panel_selected_topology_element p) (panel_preview_repair_id p)
    (panel_show_repair_alternatives p) (panel_show_workspace_roots p).
Definition set_selected_topology_element (v : option string) (p : RustWorkbenchPanel) : RustWorkbenchPanel :=
  mk_panel (panel_active p) (panel_model p) (panel_problems p) (panel_workspace_guide p)
    (panel_selected_problem_id p) (panel_selected_symptom_problem_id p)
    (panel_selected_intent_choice_id p) (panel_operation_focus_requested p)
    (panel_selection_epoch p) (panel_analysis_epoch p) (panel_problem_status p)
    (panel_status_message p) (panel_active_buffer p) (panel_active_position p)
    (panel_last_problem_key p) (panel_pending_problem_key p) (panel_last_model_key p)
    (panel_pending_model_key p) (panel_last_workspace_guide_key p)
    (panel_pending_workspace_guide_key p) (panel_active_editor p) (panel_repair_verification p)
    (panel_validating_repair_id p) (panel_visual_step p) (panel_topology_scene p)
    (panel_full_topology_scene p) v (panel_preview_repair_id p)
    (panel_show_repair_alternatives p) (panel_show_workspace_roots p).
Definition set_preview_repair_id (v : option string) (p : RustWorkbenchPanel) : RustWorkbenchPanel :=
  mk_panel (panel_active p) (panel_model p) (panel_problems p) (panel_workspace_guide p)
    (panel_selected_problem_id p) (panel_selected_symptom_problem_id p)
    (panel_selected_intent_choice_id p) (panel_operation_focus_requested p)
    (panel_selection_epoch p) (panel_analysis_epoch p) (panel_problem_status p)
    (panel_status_message p) (panel_active_buffer p) (panel_active_position p)
    (panel_last_problem_key p) (panel_pending_problem_key p) (panel_last_model_key p)
    (panel_pending_model_key p) (panel_last_workspace_guide_key p)
    (panel_pending_workspace_guide_key p) (panel_active_editor p) (panel_repair_verification p)
    (panel_validating_repair_id p) (panel_visual_step p) (panel_topology_scene p)
    (panel_full_topology_scene p) (panel_selected_topology_element p) v
    (panel_show_repair_alternatives p) (panel_show_workspace_roots p).
Definition set_show_repair_alternatives (v : bool) (p : RustWorkbenchPanel) : RustWorkbenchPanel :=
  mk_panel (panel_active p) (panel_model p) (panel_problems p) (panel_workspace_guide p)
    (panel_selected_problem_id p) (panel_selected_symptom_problem_id p)
    (panel_selected_intent_choice_id p) (panel_operation_focus_requested p)
    (panel_selection_epoch p) (panel_analysis_epoch p) (panel_problem_status p)
    (panel_status_message p) (panel_active_buffer p) (panel_active_position p)
    (panel_last_problem_key p) (panel_pending_problem_key p) (panel_last_model_key p)
    (panel_pending_model_key p) (panel_last_workspace_guide_key p)
    (panel_pending_workspace_guide_key p) (panel_active_editor p) (panel_repair_verification p)
    (panel_validating_repair_id p) (panel_visual_step p) (panel_topology_scene p)
    (panel_full_topology_scene p) (panel_selected_topology_element p)
    (panel_preview_repair_id p) v (panel_show_workspace_roots p).
Definition set_show_workspace_roots (v : bool) (p : RustWorkbenchPanel) : RustWorkbenchPanel :=
  mk_panel (panel_active p) (panel_model p) (panel_problems p) (panel_workspace_guide p)
    (panel_selected_problem_id p) (panel_selected_symptom_problem_id p)
    (panel_selected_intent_choice_id p) (panel_operation_focus_requested p)
    (panel_selection_epoch p) (panel_analysis_epoch p) (panel_problem_status p)
    (panel_status_message p) (panel_active_buffer p) (panel_active_position p)
    (panel_last_problem_key p) (panel_pending_problem_key p) (panel_last_model_key p)
    (panel_pending_model_key p) (panel_last_workspace_guide_key p)
    (panel_pending_workspace_guide_key p) (panel_active_editor p) (panel_repair_verification p)
    (panel_validating_repair_id p) (panel_visual_step p) (panel_topology_scene p)
    (panel_full_topology_scene p) (panel_selected_topology_element p)
    (panel_preview_repair_id p) (panel_show_repair_alternatives p) v.

(** [p |> set_x v |> set_y w]: assignments in the order of the source. *)
Notation "p '|>' f" := (f p) (at level 61, left associativity, only parsing) : rust_scope.

(** The state [load] creates. *)
Definition initial_panel : RustWorkbenchPanel := {|
  panel_active := false;
  panel_model := default_model "";
  panel_problems := default_problems "";
  panel_workspace_guide := default_guide "";
  panel_selected_problem_id := None;
  panel_selected_symptom_problem_id := None;
  panel_selected_intent_choice_id := None;
  panel_operation_focus_requested := false;
  panel_selection_epoch := 0;
  panel_analysis_epoch := 0;
  panel_problem_status := "Checking this file for explainable Rust problems…";
  panel_status_message := "Select a Rust variable, then refresh.";
  panel_active_buffer := None;
  panel_active_position := None;
  panel_last_problem_key := None;
  panel_pending_problem_key := None;
  panel_last_model_key := None;
  panel_pending_model_key := None;
  panel_last_workspace_guide_key := None;
  panel_pending_workspace_guide_key := None;
  panel_active_editor := None;
  panel_repair_verification := None;
  panel_validating_repair_id := None;
  panel_visual_step := 0;
  panel_topology_scene := None;
  panel_full_topology_scene := None;
  panel_selected_topology_element := None;
  panel_preview_repair_id := None;
  panel_show_repair_alternatives := false;
  panel_show_workspace_roots := false
|}.
