(* ===== verification/PanelState.v ===== *)
(** * The panel's handlers as a state machine

    The handlers of [RustWorkbenchPanel] in
    [zed-rust/crates/rust_workbench/src/rust_workbench.rs] as functions on its
    state.  A handler that starts an asynchronous request also returns that
    request; its completion closure is a handler of its own.  Timers carry no
    state, so a scheduled handler may simply run at any later moment, and
    because the source says that dropping a task is best effort, the answer to
    any request ever issued may arrive at any time, or never.

    Everything of the editor that a handler reads is the [Editor] record: which
    editor is active, the buffer and cursor of an editor (nothing once it is
    closed), the text of a buffer, and how a buffer clips a position. *)

From S2P Require Import Prelude RustStr RustColl Protocol Bridge TypeParser Topology Teaching Scene Fnv Panel PanelRecord.
From stdpp Require Import options.

Record Editor : Type := mk_editor {
  active_item : option N;
  cursor_of : N -> option (N * Position);
  is_open : N -> bool;
  text_of : N -> string;
  clip_point : N -> Position -> Position
}.

Inductive request : Type :=
| RequestProblems (key : ProblemRequestKey) (buffer : N)
| RequestModel (key : ModelRequestKey) (buffer : N)
| RequestGuide (key : WorkspaceGuideRequestKey)
| RequestValidation (repair_id : string) (selection_epoch analysis_epoch : N)
| RequestRepair (repair_id source_hash : string) (buffer selection_epoch analysis_epoch : N).

Definition no_model : OwnershipModel := default_model "".
Definition no_problems : OwnershipProblems := default_problems "".
Definition no_guide : OwnershipWorkspaceGuide := default_guide "".

Definition next_epoch (epoch : N) : N := (epoch + 1) mod 2 ^ 64.

(** ** Reading the state *)

Definition selected_problem (p : RustWorkbenchPanel) : option OwnershipProblem :=
  selected ← panel_selected_problem_id p;
  find_first (fun problem => problem_id problem =s selected) (problems_problems (panel_problems p)).

Definition selected_problem_index (p : RustWorkbenchPanel) : option N :=
  selected ← panel_selected_problem_id p;
  position (fun problem => problem_id problem =s selected) (problems_problems (panel_problems p)).

Definition upgrade (ed : Editor) (editor : option N) : option N :=
  editor ← editor;
  if is_open ed editor then Some editor else None.

Definition active_cursor_position (ed : Editor) (p : RustWorkbenchPanel) : option Position :=
  editor ← upgrade ed (panel_active_editor p);
  snd <$> cursor_of ed editor.

Definition problem_index_at_cursor (ed : Editor) (p : RustWorkbenchPanel) : option N :=
  position ← active_cursor_position ed p;
  ownership_problem_index_at_position (problems_problems (panel_problems p)) position.

Definition model_response_is_current (pending : option ModelRequestKey) (key : ModelRequestKey)
    (selected_problem_id : option string) (selection_epoch analysis_epoch : N) : bool :=
  bool_decide (pending = Some key)
  && (selection_epoch =? model_key_selection_epoch key)%N
  && (analysis_epoch =? model_key_analysis_epoch key)%N
  && str_opt_eqb selected_problem_id (model_key_problem_id key).

(** ** Groups of assignments the source repeats *)

Definition forget_model_keys (p : RustWorkbenchPanel) : RustWorkbenchPanel :=
  p |> set_last_model_key None |> set_pending_model_key None.

Definition forget_problem_keys (p : RustWorkbenchPanel) : RustWorkbenchPanel :=
  p |> set_last_problem_key None |> set_pending_problem_key None.

Definition forget_guide (p : RustWorkbenchPanel) : RustWorkbenchPanel :=
  p |> set_last_workspace_guide_key None |> set_pending_workspace_guide_key None
    |> set_workspace_guide no_guide.

Definition clear_scenes (p : RustWorkbenchPanel) : RustWorkbenchPanel :=
  p |> set_topology_scene None |> set_full_topology_scene None |> set_selected_topology_element None.

(** The assignments of [schedule_problem_scan]; the timer runs [scan_problems]. *)
Definition schedule_problem_scan (p : RustWorkbenchPanel) : RustWorkbenchPanel :=
  p |> set_preview_repair_id None |> set_visual_step 0
    |> set_problem_status "Checking this file for explainable Rust problems…".

(** ** Events of the workspace, the project and the editor *)

(** [observe_active_editor]: nothing changes while the same editor is active. *)
Definition observe_active_editor (ed : Editor) (p : RustWorkbenchPanel) : RustWorkbenchPanel :=
  if bool_decide (active_item ed = panel_active_editor p) then p
  else
    let p := p |> forget_model_keys |> forget_problem_keys |> forget_guide in
    p |> set_active_buffer None |> set_active_position None |> set_problems no_problems
      |> set_selected_problem_id None |> set_selected_symptom_problem_id None
      |> set_selected_intent_choice_id None |> set_show_workspace_roots false
      |> set_operation_focus_requested false
      |> set_selection_epoch (next_epoch (panel_selection_epoch p))
      |> set_model no_model |> clear_scenes
      |> set_preview_repair_id None |> set_show_repair_alternatives false
      |> set_repair_verification None |> set_validating_repair_id None
      |> set_active_editor (active_item ed).

Definition open_for_clue (ed : Editor) (p : RustWorkbenchPanel) : RustWorkbenchPanel :=
  let p := observe_active_editor ed p in
  p |> set_selected_problem_id None |> set_operation_focus_requested true
    |> set_selection_epoch (next_epoch (panel_selection_epoch p))
    |> forget_problem_keys |> forget_model_keys |> forget_guide
    |> set_selected_symptom_problem_id None |> set_selected_intent_choice_id None
    |> set_selected_topology_element None |> schedule_problem_scan.

Definition active_item_changed (ed : Editor) (p : RustWorkbenchPanel) : RustWorkbenchPanel :=
  schedule_problem_scan (observe_active_editor ed (forget_model_keys p)).

(** [Event::OwnershipModelChanged] for the file on screen. *)
Definition ownership_model_changed (p : RustWorkbenchPanel) : RustWorkbenchPanel :=
  p |> forget_model_keys |> forget_problem_keys |> set_validating_repair_id None |> forget_guide
    |> set_selected_intent_choice_id None |> schedule_problem_scan.

(** [Event::DiskBasedDiagnosticsFinished] and [Event::DiagnosticsUpdated]. *)
Definition diagnostics_changed (p : RustWorkbenchPanel) : RustWorkbenchPanel :=
  p |> forget_problem_keys |> schedule_problem_scan.

Definition invalidate_analysis_session (status : string) (p : RustWorkbenchPanel) :
    RustWorkbenchPanel :=
  let p :=
    p |> set_analysis_epoch (next_epoch (panel_analysis_epoch p))
      |> forget_problem_keys |> forget_model_keys
      |> set_last_workspace_guide_key None |> set_pending_workspace_guide_key None
      |> set_validating_repair_id None |> set_status_message status |> set_problem_status status in
  match panel_active_buffer p with
  | Some _ => schedule_problem_scan p
  | None => p
  end.

(** An edit puts a finished verification back to [Checking]. *)
Definition recheck_verification (p : RustWorkbenchPanel) : RustWorkbenchPanel :=
  match panel_repair_verification p with
  | None => p
  | Some v =>
      match verification_state v with
      | Applying | Checking => p
      | _ =>
          set_repair_verification
            (Some (mk_verification (verification_diagnostic_code v) (verification_category v)
               (verification_binding_name v) (verification_original_line v)
               (verification_repair_title v) (verification_baseline_problem_signatures v) Checking)) p
      end
  end.

(** The editor's events that change the source. *)
Definition source_changed (p : RustWorkbenchPanel) : RustWorkbenchPanel :=
  p |> forget_model_keys |> forget_problem_keys |> forget_guide
    |> set_selected_symptom_problem_id None |> set_selected_intent_choice_id None
    |> set_validating_repair_id None |> recheck_verification |> schedule_problem_scan.

Definition refresh_clicked (p : RustWorkbenchPanel) : RustWorkbenchPanel :=
  p |> forget_model_keys |> forget_problem_keys |> forget_guide
    |> set_selected_intent_choice_id None |> schedule_problem_scan.

Definition clear_unavailable_source_state (p : RustWorkbenchPanel) : RustWorkbenchPanel :=
  p |> set_active_buffer None |> set_active_position None
    |> forget_problem_keys |> forget_model_keys
    |> set_last_workspace_guide_key None |> set_pending_workspace_guide_key None
    |> set_problems no_problems |> set_model no_model |> set_workspace_guide no_guide
    |> set_selected_problem_id None |> set_selected_symptom_problem_id None
    |> set_selected_intent_choice_id None |> clear_scenes |> set_preview_repair_id None
    |> set_repair_verification None |> set_validating_repair_id None.

(** ** Selecting *)

Definition select_problem_index (index : N) (p : RustWorkbenchPanel) : RustWorkbenchPanel :=
  match get_N (problems_problems (panel_problems p)) index with
  | None => p
  | Some problem =>
      let id := problem_id problem in
      if str_opt_eqb (panel_selected_problem_id p) (Some id) then
        p |> set_selected_symptom_problem_id (Some id) |> set_selected_intent_choice_id None
          |> forget_guide
      else
        p |> set_selected_problem_id (Some id) |> set_selected_symptom_problem_id (Some id)
          |> set_selected_intent_choice_id None |> forget_guide
          |> set_operation_focus_requested false
          |> set_selection_epoch (next_epoch (panel_selection_epoch p))
          |> forget_model_keys |> set_model no_model |> clear_scenes
          |> set_repair_verification None |> set_validating_repair_id None
          |> set_status_message "Loading compiler facts for the selected issue…"
          |> set_visual_step 0 |> set_preview_repair_id None |> set_show_repair_alternatives false
  end.

Definition select_relative_problem (direction : Z) (p : RustWorkbenchPanel) : RustWorkbenchPanel :=
  match
    relative_problem_index (selected_problem_index p) (len (problems_problems (panel_problems p)))
      direction
  with
  | Some index => select_problem_index index p
  | None => p
  end.

(** ** Scanning for problems *)

Definition NO_SOURCE : string := "Open a Rust source file to use the ownership coach.".

Definition scan_problems (ed : Editor) (p : RustWorkbenchPanel) :
    RustWorkbenchPanel * list request :=
  match upgrade ed (panel_active_editor p) with
  | None =>
      (p |> set_active_editor None |> clear_unavailable_source_state |> set_problem_status NO_SOURCE,
       [])
  | Some editor =>
      match fst <$> cursor_of ed editor with
      | None => (p |> clear_unavailable_source_state |> set_problem_status NO_SOURCE, [])
      | Some buffer =>
          let p := set_active_buffer (Some buffer) p in
          let key :=
            mk_problem_key buffer (ownership_source_hash (text_of ed buffer)) (panel_analysis_epoch p)
          in
          if bool_decide (panel_pending_problem_key p = Some key)
             || bool_decide (panel_last_problem_key p = Some key)
          then (p, [])
          else (set_pending_problem_key (Some key) p, [RequestProblems key buffer])
      end
  end.

Definition set_verification_state (state : RepairVerificationState) (v : RepairVerification) :
    RepairVerification :=
  mk_verification (verification_diagnostic_code v) (verification_category v)
    (verification_binding_name v) (verification_original_line v) (verification_repair_title v)
    (verification_baseline_problem_signatures v) state.

Definition update_repair_verification (problems : OwnershipProblems) (p : RustWorkbenchPanel) :
    RustWorkbenchPanel :=
  match panel_repair_verification p with
  | None => p
  | Some v =>
      match verification_state v with
      | Checking =>
          set_repair_verification
            (Some (set_verification_state (repair_verification_outcome v problems) v)) p
      | _ => p
      end
  end.

Definition sorted_problems (problems : OwnershipProblems) : OwnershipProblems :=
  mk_problems (problems_schema_version problems) (problems_status problems)
    (problems_source_hash problems) (sort_by problem_leb (problems_problems problems)).

(** The index selected after a scan: the same id, else the same diagnosis, else
    the cursor, else the first problem. *)
Definition rescan_selection (ed : Editor) (previous_id : option string)
    (previous : option OwnershipProblem) (p : RustWorkbenchPanel) : option N :=
  let current := problems_problems (panel_problems p) in
  or_else (or_else (or_else
    (id ← previous_id; position (fun problem => problem_id problem =s id) current)
    (fun _ => previous ← previous; reconciled_ownership_problem_index previous current))
    (fun _ => problem_index_at_cursor ed p))
    (fun _ => default_problem_index (len current) (panel_operation_focus_requested p)).

(** A change of selection forgets everything derived from the old one. *)
Definition selection_moved (selected_id : option string) (p : RustWorkbenchPanel) :
    RustWorkbenchPanel :=
  p |> set_selection_epoch (next_epoch (panel_selection_epoch p)) |> set_model no_model
    |> clear_scenes |> forget_model_keys |> forget_guide
    |> set_selected_symptom_problem_id selected_id |> set_selected_intent_choice_id None.

Definition accept_problems (ed : Editor) (key : ProblemRequestKey) (problems : OwnershipProblems)
    (p : RustWorkbenchPanel) : RustWorkbenchPanel :=
  let problems := sorted_problems problems in
  let previous := selected_problem p in
  let previous_id := panel_selected_problem_id p in
  let p :=
    p |> update_repair_verification problems
      |> set_problem_status (ownership_problem_status problems) |> set_problems problems
      |> set_last_problem_key (Some key) in
  let selected_id :=
    index ← rescan_selection ed previous_id previous p;
    problem_id <$> get_N (problems_problems problems) index in
  let p := if str_opt_eqb selected_id previous_id then p else selection_moved selected_id p in
  set_selected_problem_id selected_id p.

Definition source_is_current (ed : Editor) (buffer : N) (matches_source : string -> bool)
    (p : RustWorkbenchPanel) : bool :=
  match panel_active_buffer p with
  | Some active => (active =? buffer)%N && matches_source (text_of ed active)
  | None => false
  end.

Definition fail_checking (message : string) (p : RustWorkbenchPanel) : RustWorkbenchPanel :=
  match panel_repair_verification p with
  | None => p
  | Some v =>
      match verification_state v with
      | Checking =>
          set_repair_verification (Some (set_verification_state (Failed message) v)) p
      | _ => p
      end
  end.

Definition problems_response (ed : Editor) (key : ProblemRequestKey) (buffer : N)
    (answer : result OwnershipProblems) (p : RustWorkbenchPanel) : RustWorkbenchPanel :=
  if negb (bool_decide (panel_pending_problem_key p = Some key)) then p
  else
    let p := set_pending_problem_key None p in
    match answer with
    | Ok problems =>
        if source_is_current ed buffer (ownership_problems_match_source problems) p then
          accept_problems ed key problems p
        else
          p |> set_last_problem_key None
            |> set_problem_status "Source changed while ownership facts were loading."
    | Err error =>
        p |> set_last_problem_key None
          |> set_problem_status ("Could not check Rust learning problems: " +:+ error)
          |> fail_checking ("Cargo check could not verify this repair: " +:+ error)
    end.

(** ** The workspace guide *)

Definition refresh_workspace_guide (ed : Editor) (p : RustWorkbenchPanel) :
    RustWorkbenchPanel * list request :=
  match panel_active_buffer p, panel_active_position p with
  | Some buffer, Some position =>
      let requested_problem_id :=
        or_else (panel_selected_symptom_problem_id p) (fun _ => panel_selected_problem_id p) in
      let key :=
        mk_guide_key buffer (ownership_source_hash (text_of ed buffer)) requested_problem_id position
          (panel_selection_epoch p) (panel_analysis_epoch p) in
      if bool_decide (panel_pending_workspace_guide_key p = Some key)
         || bool_decide (panel_last_workspace_guide_key p = Some key)
      then (p, [])
      else (set_pending_workspace_guide_key (Some key) p, [RequestGuide key])
  | _, _ => (p, [])
  end.

Definition set_guide_status (status : string) (guide : OwnershipWorkspaceGuide) :
    OwnershipWorkspaceGuide :=
  mk_guide (guide_schema_version guide) status (guide_revision guide)
    (guide_selected_cluster_id guide) (guide_clusters guide) (guide_journey guide)
    (guide_intent_question guide) (guide_truncated guide).

Definition guide_response (ed : Editor) (key : WorkspaceGuideRequestKey)
    (answer : result OwnershipWorkspaceGuide) (p : RustWorkbenchPanel) : RustWorkbenchPanel :=
  if negb (bool_decide (panel_pending_workspace_guide_key p = Some key)) then p
  else
    let p := set_pending_workspace_guide_key None p in
    let current :=
      source_is_current ed (guide_key_buffer_id key)
        (fun source => ownership_source_hash source =s guide_key_source_hash key) p in
    if negb current
       || negb (panel_selection_epoch p =? guide_key_selection_epoch key)%N
       || negb (panel_analysis_epoch p =? guide_key_analysis_epoch key)%N
    then p
    else
      match answer with
      | Ok guide => p |> set_last_workspace_guide_key (Some key) |> set_workspace_guide guide
      | Err error =>
          p |> set_last_workspace_guide_key None
            |> set_workspace_guide
                 (set_guide_status ("Workspace guide unavailable: " +:+ error)
                    (panel_workspace_guide p))
      end.

(** ** The ownership model *)

Section scenes.
Context (to_lowercase : string -> string).

Definition rebuild_topology_scene (p : RustWorkbenchPanel) : RustWorkbenchPanel :=
  set_topology_scene
    (derive_ownership_topology_scene to_lowercase (selected_problem p) (panel_model p)
       (panel_visual_step p)) p.

Definition full_scene_at (index : N) (p : RustWorkbenchPanel) : option OwnershipTopologyScene :=
  derive_ownership_topology_scene_with_limits to_lowercase (selected_problem p) (panel_model p)
    index 64 96 true.

Definition rebuild_full_topology_scene (p : RustWorkbenchPanel) : RustWorkbenchPanel :=
  set_full_topology_scene (full_scene_at (panel_visual_step p) p) p.

Definition update_topology_scene_step (index : N) (p : RustWorkbenchPanel) : RustWorkbenchPanel :=
  let p :=
    set_topology_scene
      (derive_ownership_topology_scene to_lowercase (selected_problem p) (panel_model p) index) p in
  match panel_full_topology_scene p with
  | Some _ => set_full_topology_scene (full_scene_at index p) p
  | None => p
  end.

(** The assignments of [select_visual_step], once the step has a source range. *)
Definition select_visual_step (index : N) (p : RustWorkbenchPanel) : RustWorkbenchPanel :=
  update_topology_scene_step index (set_visual_step index p).

Definition awaiting_selection (p : RustWorkbenchPanel) : bool :=
  negb (panel_operation_focus_requested p)
  && match panel_selected_problem_id p with None => true | Some _ => false end
  && (match panel_pending_problem_key p with Some _ => true | None => false end
      || match problems_problems (panel_problems p) with [] => false | _ => true end).

Definition refresh (ed : Editor) (p : RustWorkbenchPanel) : RustWorkbenchPanel * list request :=
  if awaiting_selection p then
    (set_status_message
       "Waiting for the selected compiler diagnostic before loading its guide…" p, [])
  else
    match upgrade ed (panel_active_editor p) with
    | None =>
        (p |> set_status_message "Open a Rust source file to inspect ownership."
           |> set_model no_model |> clear_scenes, [])
    | Some editor =>
        match cursor_of ed editor with
        | None => (p, [])
        | Some (buffer, cursor) =>
            let position :=
              match selected_problem p with
              | Some problem => clip_point ed buffer (problem_model_position problem)
              | None => cursor
              end in
            let p := p |> set_active_buffer (Some buffer) |> set_active_position (Some position) in
            let source := text_of ed buffer in
            let key :=
              mk_model_key (ownership_source_hash source) (panel_selected_problem_id p) position
                (panel_selection_epoch p) (panel_analysis_epoch p) in
            if bool_decide (panel_pending_model_key p = Some key)
               || bool_decide (panel_last_model_key p = Some key)
                  && ownership_model_matches_source (panel_model p) source
            then (p, [])
            else
              (p |> set_pending_model_key (Some key)
                 |> set_status_message "Checking compiler-backed learning context…",
               [RequestModel key buffer])
        end
    end.

(** Facts already on screen are kept while the server is away. *)
Definition has_facts_for (key : ModelRequestKey) (p : RustWorkbenchPanel) : bool :=
  negb (model_status (panel_model p) =s UNAVAILABLE)
  && (model_source_hash (panel_model p) =s model_key_source_hash key).

Definition accept_model (key : ModelRequestKey) (answer : OwnershipModel) (p : RustWorkbenchPanel) :
    RustWorkbenchPanel :=
  p |> set_status_message (ownership_status answer) |> set_model answer
    |> set_full_topology_scene None |> set_selected_topology_element None
    |> rebuild_topology_scene |> set_last_model_key (Some key).

Definition model_response (ed : Editor) (key : ModelRequestKey) (buffer : N)
    (answer : result OwnershipModel) (p : RustWorkbenchPanel) : RustWorkbenchPanel :=
  if negb (model_response_is_current (panel_pending_model_key p) key (panel_selected_problem_id p)
             (panel_selection_epoch p) (panel_analysis_epoch p))
  then p
  else
    let p := set_pending_model_key None p in
    match answer with
    | Ok answer =>
        if (model_status answer =s UNAVAILABLE) && has_facts_for key p then
          p |> set_last_model_key None
            |> set_status_message
                 "rust-analyzer is restarting; showing the last verified compiler facts."
        else
          let current := source_is_current ed buffer (ownership_model_matches_source answer) p in
          if current && ownership_model_matches_problem answer (model_key_problem_id key) then
            accept_model key answer p
          else
            p |> set_last_model_key None
              |> set_status_message
                   (if current then
                      "Ignored compiler facts for a different issue; refreshing the locked diagnostic…"
                    else "Source changed while ownership facts were loading; refreshing…")
    | Err error =>
        let p := set_last_model_key None p in
        if has_facts_for key p then
          set_status_message
            ("Ownership analysis failed: " +:+ error +:+ ". Showing the last verified compiler facts.")
            p
        else
          p |> set_status_message ("Ownership analysis failed: " +:+ error)
            |> set_model no_model |> clear_scenes
    end.

(** ** Repairs *)

Definition preview_repair (repair_id' : string) (p : RustWorkbenchPanel) :
    RustWorkbenchPanel * list request :=
  if str_opt_eqb (panel_preview_repair_id p) (Some repair_id') then
    (set_preview_repair_id None p, [])
  else
    let p := set_preview_repair_id (Some repair_id') p in
    match find_first (fun repair => repair_id repair =s repair_id') (model_repairs (panel_model p)) with
    | None => (p, [])
    | Some repair =>
        if repair_is_compiler_validated repair then (p, [])
        else if str_opt_eqb (panel_validating_repair_id p) (Some repair_id') then
          (set_status_message
             "rustc is already checking this candidate. Apply appears only if it passes." p, [])
        else
          match panel_active_buffer p, panel_active_position p with
          | Some _, Some _ =>
              (p |> set_validating_repair_id (Some repair_id')
                 |> set_status_message
                      "Preview ready. rustc is checking whether the complete rewrite still compiles…",
               [RequestValidation repair_id' (panel_selection_epoch p) (panel_analysis_epoch p)])
          | _, _ =>
              (set_status_message "Open a saved Rust file before validating this candidate." p, [])
          end
    end.

Definition validation_response (repair_id' : string) (selection_epoch analysis_epoch : N)
    (answer : result OwnershipRepairValidationResult) (p : RustWorkbenchPanel) :
    RustWorkbenchPanel :=
  if negb (str_opt_eqb (panel_validating_repair_id p) (Some repair_id'))
     || negb (panel_selection_epoch p =? selection_epoch)%N
     || negb (panel_analysis_epoch p =? analysis_epoch)%N
  then p
  else
    match answer with
    | Ok answer =>
        let p :=
          if validation_status answer =s "checking" then p else set_validating_repair_id None p in
        set_status_message (validation_message answer) p
    | Err error =>
        p |> set_validating_repair_id None
          |> set_status_message ("Could not start compiler validation: " +:+ error)
    end.

Definition can_apply (repair_id' : string) (p : RustWorkbenchPanel) : bool :=
  existsb (fun repair => (repair_id repair =s repair_id') && repair_is_compiler_validated repair)
    (model_repairs (panel_model p)).

Definition start_verification (title : string) (p : RustWorkbenchPanel) : RustWorkbenchPanel :=
  set_repair_verification
    ((fun problem =>
        mk_verification (problem_diagnostic_code problem) (problem_category problem)
          (problem_binding_name problem) (primary_line problem) title
          (list_to_set (ownership_problem_signature <$> problems_problems (panel_problems p)))
          Applying) <$> selected_problem p) p.

Definition verification_failed (message : string) (p : RustWorkbenchPanel) : RustWorkbenchPanel :=
  set_repair_verification
    (set_verification_state (Failed message) <$> panel_repair_verification p) p.

Definition apply_repair (ed : Editor) (repair_id' title source_hash : string)
    (p : RustWorkbenchPanel) : RustWorkbenchPanel * list request :=
  if negb (can_apply repair_id' p) then
    (set_status_message
       "This is still a design candidate. Preview it and wait for rustc validation before applying."
       p, [])
  else
    match panel_active_buffer p, panel_active_position p with
    | Some buffer, Some _ =>
        let p := start_verification title p in
        if negb (ownership_source_hash (text_of ed buffer) =s source_hash) then
          (p |> set_status_message
                  "The source changed since this preview was generated. Refreshing alternatives…"
             |> verification_failed "The preview was stale, so no edit was applied.", [])
        else
          (set_status_message ("Applying " +:+ title +:+ "…") p,
           [RequestRepair repair_id' source_hash buffer (panel_selection_epoch p)
              (panel_analysis_epoch p)])
    | _, _ => (p, [])
    end.

(** The completion of the repair task: the rewrite was applied, or it failed. *)
Definition repair_response (selection_epoch analysis_epoch : N) (answer : result unit)
    (p : RustWorkbenchPanel) : RustWorkbenchPanel :=
  if negb (panel_selection_epoch p =? selection_epoch)%N
     || negb (panel_analysis_epoch p =? analysis_epoch)%N
  then p
  else
    match answer with
    | Ok _ =>
        p |> set_status_message "Repair applied. Use Undo to revert it."
          |> set_repair_verification
               (set_verification_state Checking <$> panel_repair_verification p)
          |> schedule_problem_scan
    | Err error =>
        p |> set_status_message ("Could not apply repair: " +:+ error)
          |> verification_failed ("The editor could not apply the rewrite: " +:+ error)
    end.

(** ** Runs *)

Record world : Type := mk_world {
  world_panel : RustWorkbenchPanel;
  world_editor : Editor;
  world_issued : list request
}.

(** A handler that issues no request. *)
Definition act (w : world) (f : Editor -> RustWorkbenchPanel -> RustWorkbenchPanel) : world :=
  mk_world (f (world_editor w) (world_panel w)) (world_editor w) (world_issued w).

(** A handler that may issue requests. *)
Definition act_issuing (w : world)
    (f : Editor -> RustWorkbenchPanel -> RustWorkbenchPanel * list request) : world :=
  let '(p, requests) := f (world_editor w) (world_panel w) in
  mk_world p (world_editor w) (world_issued w ++ requests).

Inductive step : world -> world -> Prop :=
| step_editor w ed : step w (mk_world (world_panel w) ed (world_issued w))
| step_set_active w active : step w (act w (fun _ => set_active active))
| step_observe w : step w (act w observe_active_editor)
| step_active_item w : step w (act w active_item_changed)
| step_open_for_clue w : step w (act w open_for_clue)
| step_model_changed w : step w (act w (fun _ => ownership_model_changed))
| step_diagnostics w : step w (act w (fun _ => diagnostics_changed))
| step_server w status : step w (act w (fun _ => invalidate_analysis_session status))
| step_source_changed w : step w (act w (fun _ => source_changed))
| step_refresh_clicked w : step w (act w (fun _ => refresh_clicked))
| step_select w index : step w (act w (fun _ => select_problem_index index))
| step_select_relative w direction : step w (act w (fun _ => select_relative_problem direction))
| step_visual w index : step w (act w (fun _ => select_visual_step index))
| step_full_scene w : step w (act w (fun _ => rebuild_full_topology_scene))
| step_schedule w : step w (act w (fun _ => schedule_problem_scan))
| step_scan w : step w (act_issuing w scan_problems)
| step_refresh w : step w (act_issuing w refresh)
| step_guide w : step w (act_issuing w refresh_workspace_guide)
| step_preview w id : step w (act_issuing w (fun _ => preview_repair id))
| step_apply w id title source_hash :
    step w (act_issuing w (fun ed => apply_repair ed id title source_hash))
| step_problems_response w key buffer request :
    RequestProblems key buffer ∈ world_issued w ->
    step w (act w (fun ed => problems_response ed key buffer (ownership_problems request)))
| step_model_response w key buffer request :
    RequestModel key buffer ∈ world_issued w ->
    step w (act w (fun ed => model_response ed key buffer (ownership_model request)))
| step_guide_response w key request :
    RequestGuide key ∈ world_issued w ->
    step w (act w (fun ed => guide_response ed key (ownership_workspace_guide request)))
| step_validation_response w id sel ana request :
    RequestValidation id sel ana ∈ world_issued w ->
    step w (act w (fun _ =>
      validation_response id sel ana (ownership_validate_repair request)))
| step_repair_response w id source_hash buffer sel ana answer :
    RequestRepair id source_hash buffer sel ana ∈ world_issued w ->
    step w (act w (fun _ => repair_response sel ana answer)).

Definition initial_world (ed : Editor) : world := mk_world initial_panel ed [].

Definition reachable_world (w : world) : Prop := exists ed, rtc step (initial_world ed) w.
End scenes.
