(* ===== verification/PanelStateSpec.v ===== *)
(** * What holds in every run of the panel

    One invariant, preserved by every handler under every interleaving of user
    actions, edits and (late, repeated or lost) answers: the selected problem
    exists, the model on display answers it and came through the bridge, request
    keys are always about the current selection, and the pictures are drawn from
    the model on display. *)

From S2P Require Import Prelude RustStr RustColl Protocol Bridge BridgeSpec TypeParser Topology TopologySpec Teaching TeachingSpec Scene SceneSpec Fnv Panel PanelSpec PanelRecord PanelState.
From stdpp Require Import options.

Section runs.
Context (to_lowercase : string -> string).

(** A request key that identifies the current selection and session. *)
Definition key_is_current (key : ModelRequestKey) (p : RustWorkbenchPanel) : Prop :=
  model_key_problem_id key = panel_selected_problem_id p /\
  model_key_selection_epoch key = panel_selection_epoch p /\
  model_key_analysis_epoch key = panel_analysis_epoch p.

Definition drawn_from (m : OwnershipModel) (scene : OwnershipTopologyScene) : Prop :=
  exists problem index,
    derive_ownership_topology_scene to_lowercase problem m index = Some scene.

Definition fully_drawn_from (m : OwnershipModel) (scene : OwnershipTopologyScene) : Prop :=
  exists problem index,
    derive_ownership_topology_scene_with_limits to_lowercase problem m index 64 96 true = Some scene.

Record panel_inv (p : RustWorkbenchPanel) : Prop := {
  inv_selected : forall id, panel_selected_problem_id p = Some id ->
    id ∈ (problem_id <$> problems_problems (panel_problems p));
  inv_pending : forall key, panel_pending_model_key p = Some key -> key_is_current key p;
  inv_last : forall key, panel_last_model_key p = Some key -> key_is_current key p;
  inv_model : ownership_model_matches_problem (panel_model p) (panel_selected_problem_id p) = true;
  inv_served : ServedModel (panel_model p);
  inv_scene : forall scene, panel_topology_scene p = Some scene -> drawn_from (panel_model p) scene;
  inv_full : forall scene, panel_full_topology_scene p = Some scene ->
    fully_drawn_from (panel_model p) scene
}.

(** Handlers that keep the fields of the invariant, or only forget keys. *)
Record keeps_facts (p p' : RustWorkbenchPanel) : Prop := {
  keeps_selected : panel_selected_problem_id p' = panel_selected_problem_id p;
  keeps_problems : panel_problems p' = panel_problems p;
  keeps_epochs : panel_selection_epoch p' = panel_selection_epoch p;
  keeps_model : panel_model p' = panel_model p;
  keeps_scene : panel_topology_scene p' = panel_topology_scene p;
  keeps_full : panel_full_topology_scene p' = panel_full_topology_scene p;
  keeps_pending : forall key, panel_pending_model_key p' = Some key ->
    panel_pending_model_key p = Some key /\ panel_analysis_epoch p' = panel_analysis_epoch p;
  keeps_last : forall key, panel_last_model_key p' = Some key ->
    panel_last_model_key p = Some key /\ panel_analysis_epoch p' = panel_analysis_epoch p
}.

Lemma inv_kept p p' : keeps_facts p p' -> panel_inv p -> panel_inv p'.
Proof.
  intros [Hs Hp He Hm Hsc Hf Hpe Hla] []. split; rewrite ?Hs, ?Hp, ?Hm, ?Hsc, ?Hf; try done.
  - intros key [Hk Ha]%Hpe. unfold key_is_current. rewrite Hs, He, Ha. by apply inv_pending0.
  - intros key [Hk Ha]%Hla. unfold key_is_current. rewrite Hs, He, Ha. by apply inv_last0.
Qed.

Ltac kept := apply inv_kept; split; simpl; try done.

Lemma no_model_served : ServedModel no_model.
Proof. by split; simpl; try constructor; unfold bounded. Qed.

Lemma no_model_matches id : ownership_model_matches_problem no_model id = true.
Proof. by destruct id. Qed.

(** A state without model, scenes and model keys only has to keep its selection
    among its problems. *)
Lemma inv_blank p :
  panel_pending_model_key p = None -> panel_last_model_key p = None -> panel_model p = no_model ->
  panel_topology_scene p = None -> panel_full_topology_scene p = None ->
  (forall id, panel_selected_problem_id p = Some id ->
     id ∈ (problem_id <$> problems_problems (panel_problems p))) ->
  panel_inv p.
Proof.
  intros Hp Hl Hm Hs Hf Hsel.
  split; rewrite ?Hp, ?Hl, ?Hm, ?Hs, ?Hf; try done; [apply no_model_matches|apply no_model_served].
Qed.

Lemma initial_inv : panel_inv initial_panel.
Proof. by apply inv_blank. Qed.

(** ** Events *)

Lemma observe_inv ed p : panel_inv p -> panel_inv (observe_active_editor ed p).
Proof. intros Hp. unfold observe_active_editor. case_bool_decide; [done|]. by apply inv_blank. Qed.

Lemma forget_model_keys_inv p : panel_inv p -> panel_inv (forget_model_keys p).
Proof. kept. Qed.

Lemma schedule_inv p : panel_inv p -> panel_inv (schedule_problem_scan p).
Proof. kept. Qed.

Lemma open_for_clue_inv ed p : panel_inv p -> panel_inv (open_for_clue ed p).
Proof.
  intros Hp%(observe_inv ed). unfold open_for_clue. destruct Hp. by split; simpl.
Qed.

Lemma ownership_model_changed_inv p : panel_inv p -> panel_inv (ownership_model_changed p).
Proof. kept. Qed.

Lemma diagnostics_changed_inv p : panel_inv p -> panel_inv (diagnostics_changed p).
Proof. kept. Qed.

Lemma invalidate_inv status p : panel_inv p -> panel_inv (invalidate_analysis_session status p).
Proof. unfold invalidate_analysis_session. destruct (panel_active_buffer _); kept. Qed.

Lemma source_changed_inv p : panel_inv p -> panel_inv (source_changed p).
Proof.
  unfold source_changed, recheck_verification. cbn.
  destruct (panel_repair_verification p) as [v|]; [destruct (verification_state v)|]; kept.
Qed.

Lemma refresh_clicked_inv p : panel_inv p -> panel_inv (refresh_clicked p).
Proof. kept. Qed.

Lemma clear_unavailable_inv p : panel_inv (clear_unavailable_source_state p).
Proof. by apply inv_blank. Qed.

(** ** Selecting *)

Lemma select_inv index p : panel_inv p -> panel_inv (select_problem_index index p).
Proof.
  intros Hp. unfold select_problem_index.
  destruct (get_N _ index) as [problem|] eqn:E; [|done].
  destruct (str_opt_eqb _ _); [revert Hp; kept|]. apply inv_blank; try done. simpl.
  intros id [= <-]. rewrite get_N_spec in E. apply list_elem_of_fmap_2.
  by eapply list_elem_of_lookup_2.
Qed.

Lemma select_relative_inv direction p : panel_inv p -> panel_inv (select_relative_problem direction p).
Proof.
  intros Hp. unfold select_relative_problem. destruct (relative_problem_index _ _ _); [|done].
  by apply select_inv.
Qed.

Lemma visual_inv index p :
  panel_inv p -> panel_inv (select_visual_step to_lowercase index p).
Proof.
  intros []. unfold select_visual_step, update_topology_scene_step. simpl.
  destruct (panel_full_topology_scene p) as [full|] eqn:E; split; simpl; try done;
    intros scene Hs; unfold drawn_from, fully_drawn_from; eauto.
  by rewrite E in Hs.
Qed.

Lemma full_scene_inv p : panel_inv p -> panel_inv (rebuild_full_topology_scene to_lowercase p).
Proof. intros []. split; simpl; try done. intros scene Hs. unfold fully_drawn_from. eauto. Qed.

(** ** Requests *)

Lemma scan_inv ed p : panel_inv p -> panel_inv (scan_problems ed p).1.
Proof.
  intros Hp. unfold scan_problems.
  destruct (upgrade ed _) as [editor|]; [|by apply inv_blank].
  destruct (fst <$> cursor_of ed editor) as [buffer|]; [|by apply inv_blank].
  destruct (_ || _); simpl; revert Hp; kept.
Qed.

Lemma guide_inv ed p : panel_inv p -> panel_inv (refresh_workspace_guide ed p).1.
Proof.
  unfold refresh_workspace_guide.
  destruct (panel_active_buffer p), (panel_active_position p); try done.
  destruct (_ || _); simpl; [done|kept].
Qed.

Lemma refresh_inv ed p : panel_inv p -> panel_inv (refresh ed p).1.
Proof.
  intros Hp. unfold refresh. destruct (awaiting_selection p); [revert Hp; kept|].
  destruct (upgrade ed _) as [editor|].
  - destruct (cursor_of ed editor) as [[buffer cursor]|]; [|done].
    destruct (_ || _); simpl; [revert Hp; kept|].
    destruct Hp. split; simpl; try done. by intros key [= <-].
  - destruct Hp. split; simpl; try done; [apply no_model_matches|apply no_model_served].
Qed.

Lemma preview_inv id p : panel_inv p -> panel_inv (preview_repair id p).1.
Proof.
  intros Hp. unfold preview_repair. destruct (str_opt_eqb _ _); [revert Hp; kept|].
  destruct (find_first _ _) as [repair|]; [|revert Hp; kept].
  destruct (repair_is_compiler_validated repair); [revert Hp; kept|].
  destruct (str_opt_eqb _ _); [revert Hp; kept|].
  simpl. destruct (panel_active_buffer p), (panel_active_position p); revert Hp; kept.
Qed.

Lemma apply_inv ed id title source_hash p :
  panel_inv p -> panel_inv (apply_repair ed id title source_hash p).1.
Proof.
  intros Hp. unfold apply_repair. destruct (negb (can_apply _ _)); [revert Hp; kept|].
  destruct (panel_active_buffer p), (panel_active_position p); try done.
  destruct (negb (_ =s _)); revert Hp; kept.
Qed.

(** ** Answers *)

Lemma update_verification_facts problems p : keeps_facts p (update_repair_verification problems p).
Proof.
  unfold update_repair_verification.
  destruct (panel_repair_verification p) as [v|]; [destruct (verification_state v)|]; by split; simpl.
Qed.

Lemma fail_checking_facts message p : keeps_facts p (fail_checking message p).
Proof.
  unfold fail_checking.
  destruct (panel_repair_verification p) as [v|]; [destruct (verification_state v)|]; by split; simpl.
Qed.

Lemma str_opt_eqb_true a b : str_opt_eqb a b = true <-> a = b.
Proof.
  destruct a, b; simpl; try done. rewrite str_eqb_eq. split; [by intros ->|by intros [= ->]].
Qed.

Lemma rescan_picks_a_problem (problems : list OwnershipProblem) (index : option N) id :
  (index ← index; problem_id <$> get_N problems index) = Some id ->
  id ∈ (problem_id <$> problems).
Proof.
  destruct index as [i|]; simpl; [|done]. rewrite get_N_spec.
  destruct (problems !! N.to_nat i) as [q|] eqn:E; [|done]. intros [= <-].
  apply list_elem_of_fmap_2. by eapply list_elem_of_lookup_2.
Qed.

Lemma accept_problems_inv ed key problems p :
  panel_inv p -> panel_inv (accept_problems ed key problems p).
Proof.
  intros Hp. unfold accept_problems.
  set (p1 := update_repair_verification (sorted_problems problems) p).
  assert (keeps_facts p p1) as Hk by apply update_verification_facts.
  set (index := rescan_selection _ _ _ _).
  set (selected := index ≫= _).
  assert (forall id, selected = Some id ->
    id ∈ (problem_id <$> problems_problems (sorted_problems problems))) as Hsel
    by (intros id; apply (rescan_picks_a_problem _ index)).
  clearbody selected p1. pose proof (inv_kept _ _ Hk Hp) as Hp1.
  destruct (str_opt_eqb selected (panel_selected_problem_id p)) eqn:E.
  - apply str_opt_eqb_true in E. rewrite <- (keeps_selected _ _ Hk) in E.
    destruct Hp1. split; simpl; try done; rewrite ?E; try done; rewrite <- E; done.
  - apply inv_blank; simpl; done.
Qed.

Lemma problems_response_inv ed key buffer answer p :
  panel_inv p -> panel_inv (problems_response ed key buffer answer p).
Proof.
  intros Hp. unfold problems_response. destruct (negb _); [done|].
  assert (panel_inv (set_pending_problem_key None p)) as Hp1 by (revert Hp; kept).
  destruct answer as [problems|error].
  - destruct (source_is_current _ _ _ _); [by apply accept_problems_inv|]. revert Hp; kept.
  - eapply inv_kept; [apply fail_checking_facts|]. revert Hp; kept.
Qed.

Lemma guide_response_inv ed key answer p : panel_inv p -> panel_inv (guide_response ed key answer p).
Proof.
  intros Hp. unfold guide_response. destruct (negb (bool_decide _)); [done|].
  destruct (_ || _); [revert Hp; kept|]. destruct answer; revert Hp; kept.
Qed.

Lemma validation_response_inv id sel ana answer p :
  panel_inv p -> panel_inv (validation_response id sel ana answer p).
Proof.
  intros Hp. unfold validation_response. destruct (_ || _); [done|].
  destruct answer as [a|error]; [destruct (_ =s _)|]; revert Hp; kept.
Qed.

Lemma repair_response_inv sel ana answer p : panel_inv p -> panel_inv (repair_response sel ana answer p).
Proof.
  intros Hp. unfold repair_response. destruct (_ || _); [done|]. destruct answer; revert Hp; kept.
Qed.

Lemma response_current_iff pending key sel_id sel ana :
  model_response_is_current pending key sel_id sel ana = true <->
  pending = Some key /\ sel = model_key_selection_epoch key /\ ana = model_key_analysis_epoch key /\
  sel_id = model_key_problem_id key.
Proof.
  unfold model_response_is_current.
  rewrite !andb_true_iff, bool_decide_eq_true, !N.eqb_eq, str_opt_eqb_true. tauto.
Qed.

Lemma model_response_inv ed key buffer request p :
  panel_inv p -> panel_inv (model_response to_lowercase ed key buffer (ownership_model request) p).
Proof.
  intros Hp. unfold model_response. destruct (negb _) eqn:E; [done|].
  apply negb_false_iff, response_current_iff in E as (Hpend & Hsel & Hana & Hid).
  assert (panel_inv (set_pending_model_key None p)) as Hp1 by (revert Hp; kept).
  destruct (ownership_model request) as [answer|error] eqn:Ea.
  - destruct (_ && _); [revert Hp; kept|].
    destruct (_ && ownership_model_matches_problem _ _) eqn:Em; [|revert Hp; kept].
    apply andb_true_iff in Em as [_ Em]. apply bridge_serves in Ea.
    destruct Hp. unfold accept_model. split; simpl; try done.
    + by intros k [= <-].
    + by rewrite Hid.
    + intros scene Hs. unfold drawn_from. eauto.
  - destruct (has_facts_for _ _); [revert Hp; kept|].
    destruct Hp. split; simpl; try done; [apply no_model_matches|apply no_model_served].
Qed.

(** ** Every reachable state *)

Lemma step_inv w w' :
  step to_lowercase w w' -> panel_inv (world_panel w) -> panel_inv (world_panel w').
Proof.
  intros Hstep Hp.
  assert (forall f, (panel_inv (f (world_editor w) (world_panel w)).1) ->
    panel_inv (world_panel (act_issuing w f))) as Hissue.
  { intros f. unfold act_issuing. by destruct (f (world_editor w) (world_panel w)). }
  destruct Hstep; try apply Hissue; simpl.
  - done.
  - revert Hp; kept.
  - by apply observe_inv.
  - by apply schedule_inv, observe_inv, forget_model_keys_inv.
  - by apply open_for_clue_inv.
  - by apply ownership_model_changed_inv.
  - by apply diagnostics_changed_inv.
  - by apply invalidate_inv.
  - by apply source_changed_inv.
  - by apply refresh_clicked_inv.
  - by apply select_inv.
  - by apply select_relative_inv.
  - by apply visual_inv.
  - by apply full_scene_inv.
  - by apply schedule_inv.
  - by apply scan_inv.
  - by apply refresh_inv.
  - by apply guide_inv.
  - by apply preview_inv.
  - by apply apply_inv.
  - by apply problems_response_inv.
  - by apply model_response_inv.
  - by apply guide_response_inv.
  - by apply validation_response_inv.
  - by apply repair_response_inv.
Qed.

Lemma reachable_inv w : reachable_world to_lowercase w -> panel_inv (world_panel w).
Proof.
  intros (ed & Hrtc). assert (panel_inv (world_panel (initial_world ed))) as H0 by apply initial_inv.
  induction Hrtc as [|a b c Hab _ IH]; [done|]. apply IH. by eapply step_inv.
Qed.

(** In every run, a selected problem is one of the listed problems: the
    panel never points at a problem that is gone. *)
Theorem selected_problem_exists w id :
  reachable_world to_lowercase w -> panel_selected_problem_id (world_panel w) = Some id ->
  exists problem, selected_problem (world_panel w) = Some problem /\ problem_id problem = id.
Proof.
  intros Hw%reachable_inv Hs. pose proof (inv_selected _ Hw _ Hs) as Hin.
  unfold selected_problem. rewrite Hs. simpl.
  destruct (find_first _ _) as [problem|] eqn:E.
  - apply find_first_Some in E as [E%str_eqb_eq _]. eauto.
  - rewrite find_first_None in E. apply list_elem_of_fmap in Hin as (q & -> & Hq).
    specialize (E q Hq). by rewrite str_eqb_refl in E.
Qed.

(** C2: in every run, the model on display answers the selected problem and has
    passed the bridge, no matter which answers arrive late, twice or never. *)
Theorem displayed_model_answers_selection w :
  reachable_world to_lowercase w ->
  ownership_model_matches_problem (panel_model (world_panel w))
    (panel_selected_problem_id (world_panel w)) = true /\
  ServedModel (panel_model (world_panel w)).
Proof. intros Hw%reachable_inv. split; apply Hw. Qed.

(** In every run, an answer is taken as current exactly when its request is
    the pending one, so the pending key alone already identifies the selection
    and the session; any other answer leaves the panel as it is. *)
Theorem only_the_pending_request_is_answered w ed key buffer answer :
  reachable_world to_lowercase w ->
  let p := world_panel w in
  (model_response_is_current (panel_pending_model_key p) key (panel_selected_problem_id p)
     (panel_selection_epoch p) (panel_analysis_epoch p) = true <->
   panel_pending_model_key p = Some key) /\
  (panel_pending_model_key p <> Some key ->
   model_response to_lowercase ed key buffer answer p = p).
Proof.
  intros Hw%reachable_inv p. rewrite response_current_iff. split.
  - split; [by intros [? _]|]. intros Hk. destruct (inv_pending _ Hw _ Hk) as (-> & -> & ->). done.
  - intros Hk. unfold model_response.
    destruct (negb _) eqn:E; [done|]. apply negb_false_iff, response_current_iff in E as [? _]. done.
Qed.

(** In every run, the picture on display has at most 12 nodes and 20 edges,
    and the full graph at most 64 and 96, none of them repeated. *)
Theorem displayed_scenes_within_limits w scene :
  reachable_world to_lowercase w ->
  (panel_topology_scene (world_panel w) = Some scene ->
   (len (scene_nodes scene) <= 12)%N /\ (len (scene_edges scene) <= 20)%N /\
   NoDup (tnode_id <$> scene_nodes scene)) /\
  (panel_full_topology_scene (world_panel w) = Some scene ->
   (len (scene_nodes scene) <= 64)%N /\ (len (scene_edges scene) <= 96)%N /\
   NoDup (tnode_id <$> scene_nodes scene)).
Proof.
  intros Hw%reachable_inv. split; intros Hs.
  - destruct (inv_scene _ Hw _ Hs) as (problem & index & Hd).
    unfold derive_ownership_topology_scene, or_else in Hd.
    destruct (derive_teaching_topology_scene problem _ index) as [s|] eqn:E.
    + injection Hd as <-. apply (teaching_scene_facts _ _ _ _ (inv_served _ Hw)) in E as [[] _]. done.
    + apply compiler_scene_facts in Hd. tauto.
  - destruct (inv_full _ Hw _ Hs) as (problem & index & Hd%compiler_scene_facts). tauto.
Qed.

(** The model either stays, is dropped, or is the answer being handled. *)
Definition model_kept (p p' : RustWorkbenchPanel) : Prop :=
  panel_model p' = panel_model p \/ panel_model p' = no_model.

Ltac model_kept_by_cases :=
  unfold model_kept; repeat (case_match || simpl); auto.

Lemma scan_keeps ed p : model_kept p (scan_problems ed p).1.
Proof. unfold scan_problems. model_kept_by_cases. Qed.

Lemma refresh_keeps ed p : model_kept p (refresh ed p).1.
Proof. unfold refresh. model_kept_by_cases. Qed.

Lemma select_keeps index p : model_kept p (select_problem_index index p).
Proof. unfold select_problem_index. model_kept_by_cases. Qed.

Lemma preview_keeps id p : model_kept p (preview_repair id p).1.
Proof. unfold preview_repair. model_kept_by_cases. Qed.

Lemma apply_keeps ed id title source_hash p : model_kept p (apply_repair ed id title source_hash p).1.
Proof. unfold apply_repair. model_kept_by_cases. Qed.

Lemma problems_response_keeps ed key buffer answer p :
  model_kept p (problems_response ed key buffer answer p).
Proof.
  unfold problems_response. destruct (negb _); [by left|].
  destruct answer as [problems|error].
  - destruct (source_is_current _ _ _ _); [|by left]. unfold accept_problems.
    match goal with |- context [update_repair_verification ?q ?s] =>
      pose proof (keeps_model _ _ (update_verification_facts q s)) as Hm end.
    destruct (str_opt_eqb _ _); [left; exact Hm|by right].
  - left. rewrite (keeps_model _ _ (fail_checking_facts _ _)). done.
Qed.

(** The handlers that never touch the model. *)
Lemma quiet_keeps ed p :
  model_kept p (observe_active_editor ed p) /\ model_kept p (open_for_clue ed p) /\
  model_kept p (active_item_changed ed p) /\ model_kept p (source_changed p) /\
  (forall status, model_kept p (invalidate_analysis_session status p)) /\
  (forall index, model_kept p (select_visual_step to_lowercase index p)) /\
  (forall direction, model_kept p (select_relative_problem direction p)) /\
  model_kept p (refresh_workspace_guide ed p).1.
Proof.
  assert (forall q, model_kept q (observe_active_editor ed q)) as Ho
    by (intros q; unfold observe_active_editor; model_kept_by_cases).
  split_and!; try done.
  - apply (Ho p).
  - apply (Ho (forget_model_keys p)).
  - unfold source_changed, recheck_verification. model_kept_by_cases.
  - intros status. unfold invalidate_analysis_session. model_kept_by_cases.
  - intros index. unfold select_visual_step, update_topology_scene_step. model_kept_by_cases.
  - intros direction. unfold select_relative_problem. case_match; [apply select_keeps|by left].
  - unfold refresh_workspace_guide. model_kept_by_cases.
Qed.

Lemma guide_response_keeps ed key answer p : model_kept p (guide_response ed key answer p).
Proof. unfold guide_response. model_kept_by_cases. Qed.

Lemma validation_response_keeps id sel ana verdict p :
  model_kept p (validation_response id sel ana verdict p).
Proof. unfold validation_response. model_kept_by_cases. Qed.

Lemma repair_response_keeps sel ana outcome p : model_kept p (repair_response sel ana outcome p).
Proof. unfold repair_response. model_kept_by_cases. Qed.

(** A model that an answer put on display, at that moment. *)
Definition freshly_accepted (ed : Editor) (p : RustWorkbenchPanel) : Prop :=
  exists buffer, panel_active_buffer p = Some buffer /\
    ownership_model_matches_source (panel_model p) (text_of ed buffer) = true.

Lemma model_response_changes ed key buffer answer p :
  let p' := model_response to_lowercase ed key buffer answer p in
  model_kept p p' \/ freshly_accepted ed p'.
Proof.
  unfold model_response. destruct (negb _); [by left; left|].
  destruct answer as [answer|error].
  - destruct (_ && _); [by left; left|].
    destruct (source_is_current _ _ _ _ && _) eqn:E; [|by left; left].
    apply andb_true_iff in E as [E _]. unfold source_is_current in E. simpl in E. right.
    destruct (panel_active_buffer p) as [active|] eqn:Ea; [|done].
    apply andb_true_iff in E as [_ E]. exists active. done.
  - destruct (has_facts_for _ _); [by left; left|by left; right].
Qed.

(** C14: whatever happens, the model on display only ever changes to nothing or
    to facts about the text that is in the active buffer at that very moment:
    compiler facts for an older text are never put on screen. *)
Theorem new_facts_are_about_the_live_text w w' :
  step to_lowercase w w' ->
  panel_model (world_panel w') = panel_model (world_panel w) \/
  panel_model (world_panel w') = no_model \/
  freshly_accepted (world_editor w') (world_panel w').
Proof.
  intros Hstep.
  assert (model_kept (world_panel w) (world_panel w') \/
    freshly_accepted (world_editor w') (world_panel w')) as H; [|unfold model_kept in H; tauto].
  assert (forall f, model_kept (world_panel w) (f (world_editor w) (world_panel w)).1 ->
    model_kept (world_panel w) (world_panel (act_issuing w f))) as Hissue.
  { intros f. unfold act_issuing. by destruct (f (world_editor w) (world_panel w)). }
  destruct (quiet_keeps (world_editor w) (world_panel w))
    as (Hobs & Hclue & Hitem & Hsrc & Hinv & Hvis & Hrel & Hguide).
  destruct Hstep; simpl;
    try (left; (apply Hissue || idtac);
         first [ by left | apply scan_keeps | apply refresh_keeps | apply select_keeps
               | apply preview_keeps | apply apply_keeps | apply problems_response_keeps
               | apply guide_response_keeps | apply validation_response_keeps
               | apply repair_response_keeps | exact Hobs | exact Hclue | exact Hitem | exact Hsrc
               | exact (Hinv _) | exact (Hvis _) | exact (Hrel _) | exact Hguide ]).
  apply model_response_changes.
Qed.

(** A rewrite is requested only for a repair that rustc has validated and
    only while the buffer still holds the text the preview was computed for;
    with an active buffer it is requested whenever both hold. *)
Theorem repair_requested_iff ed id title source_hash buffer position p :
  panel_active_buffer p = Some buffer -> panel_active_position p = Some position ->
  (apply_repair ed id title source_hash p).2 <> [] <->
  (exists repair, repair ∈ model_repairs (panel_model p) /\ repair_id repair = id /\
     repair_is_compiler_validated repair = true) /\
  ownership_source_hash (text_of ed buffer) = source_hash.
Proof.
  intros Hb Hp. unfold apply_repair.
  assert (can_apply id p = true <-> exists repair, repair ∈ model_repairs (panel_model p) /\
    repair_id repair = id /\ repair_is_compiler_validated repair = true) as <-.
  { unfold can_apply. rewrite existsb_exists. split.
    - intros (r & Hr%list_elem_of_In & [E%str_eqb_eq ?]%andb_true_iff). eauto.
    - intros (r & Hr%list_elem_of_In & <- & Hv). exists r. by rewrite str_eqb_refl, Hv. }
  rewrite Hb, Hp. destruct (can_apply id p); cbn [negb snd]; [|split; [done|by intros [? _]]].
  destruct (String.eqb_spec (ownership_source_hash (text_of ed buffer)) source_hash); cbn [negb snd].
  - by split.
  - split; [done|by intros [_ ?]].
Qed.

(** A stale preview changes nothing but the message and the verification
    record, which says that no edit was applied. *)
Theorem stale_preview_applies_nothing ed id title source_hash buffer position p v :
  can_apply id p = true -> panel_active_buffer p = Some buffer ->
  panel_active_position p = Some position ->
  ownership_source_hash (text_of ed buffer) <> source_hash ->
  (apply_repair ed id title source_hash p).2 = [] /\
  keeps_facts p (apply_repair ed id title source_hash p).1 /\
  (panel_repair_verification (apply_repair ed id title source_hash p).1 = Some v ->
   verification_state v = Failed "The preview was stale, so no edit was applied.").
Proof.
  intros Hc Hb Hp Hh. unfold apply_repair. rewrite Hc, Hb, Hp. cbn [negb].
  destruct (String.eqb_spec (ownership_source_hash (text_of ed buffer)) source_hash); [done|].
  cbn [negb]. split_and!; [done|by split; simpl|].
  cbn. by destruct (selected_problem p); intros [= <-].
Qed.
End runs.

(** ** A worked run: the editor becomes active, its problems are scanned, the
    model of the first problem is loaded and drawn. *)

Definition sample_editor : Editor := {|
  active_item := Some 1%N;
  cursor_of := fun _ => Some (7%N, default_position);
  is_open := fun _ => true;
  text_of := fun _ => "fn main() {}";
  clip_point := fun _ position => position
|}.

Definition sample_source_hash : string := Eval vm_compute in ownership_source_hash "fn main() {}".

Definition sample_problems : OwnershipProblems :=
  mk_problems 7 "ready" sample_source_hash [sample_moved 3].

Definition sample_validated : OwnershipRepair :=
  mk_repair "r" "Clone" "" "" "" [] true true "validated" (mk_repair_effects "" "" "" "" "") None.

Definition sample_answer : OwnershipModel :=
  let m := default_model "ready" in {|
  model_schema_version := 11;
  model_compiler_schema_version := 7;
  model_target_triple := model_target_triple m;
  model_precision := model_precision m;
  model_status := "ready";
  model_truncated := false;
  model_source_hash := sample_source_hash;
  model_selected_problem_id := Some "p";
  model_selected_place := None;
  model_events := [];
  model_value_trace := [];
  model_repairs := [sample_validated];
  model_bodies := [];
  model_bindings := [];
  model_loans := [];
  model_memory_graph := default_memory_graph;
  model_operations := [];
  model_mutation_requirement := None;
  model_conflict_graph := None;
  model_source_context := None;
  model_c_sketch := None
|}.

Definition sample_problem_key : ProblemRequestKey := mk_problem_key 7 sample_source_hash 0.
Definition sample_model_key : ModelRequestKey :=
  mk_model_key sample_source_hash (Some "p") default_position 2 0.

Definition active_world : world := act (initial_world sample_editor) active_item_changed.
Definition scanning_world : world := act_issuing active_world scan_problems.
Definition scanned_world : world :=
  act scanning_world (fun ed =>
    problems_response ed sample_problem_key 7 (ownership_problems (Some (Ok sample_problems)))).
Definition asked_world : world := act_issuing scanned_world refresh.
Definition sample_world : world :=
  act asked_world (fun ed =>
    model_response id ed sample_model_key 7 (ownership_model (Some (Ok sample_answer)))).

Lemma problems_issued : world_issued scanning_world !! 0 = Some (RequestProblems sample_problem_key 7).
Proof. vm_compute. reflexivity. Qed.

Lemma model_issued : world_issued asked_world !! 1 = Some (RequestModel sample_model_key 7).
Proof. vm_compute. reflexivity. Qed.

Lemma problems_step : step id scanning_world scanned_world.
Proof.
  exact (step_problems_response id scanning_world sample_problem_key 7 (Some (Ok sample_problems))
    (list_elem_of_lookup_2 _ _ _ problems_issued)).
Qed.

Lemma model_step : step id asked_world sample_world.
Proof.
  exact (step_model_response id asked_world sample_model_key 7 (Some (Ok sample_answer))
    (list_elem_of_lookup_2 _ _ _ model_issued)).
Qed.

Lemma activate_step : step id (initial_world sample_editor) active_world.
Proof. unfold active_world. apply step_active_item. Qed.

Lemma scan_step : step id active_world scanning_world.
Proof. unfold scanning_world. apply step_scan. Qed.

Lemma refresh_step : step id scanned_world asked_world.
Proof. unfold asked_world. apply step_refresh. Qed.

Lemma asked_world_reachable : reachable_world id asked_world.
Proof.
  exists sample_editor. apply (rtc_l _ _ active_world); [exact activate_step|].
  apply (rtc_l _ _ scanning_world); [exact scan_step|].
  apply (rtc_l _ _ scanned_world); [exact problems_step|].
  apply (rtc_once scanned_world asked_world). exact refresh_step.
Qed.

Lemma sample_world_reachable : reachable_world id sample_world.
Proof.
  destruct asked_world_reachable as [ed H]. exists ed. exact (rtc_r _ _ _ H model_step).
Qed.

Lemma selected_problem_exists_witness :
  panel_selected_problem_id (world_panel sample_world) = Some "p" /\
  exists problem, selected_problem (world_panel sample_world) = Some problem /\ problem_id problem = "p".
Proof.
  split; [vm_compute; reflexivity|].
  apply (selected_problem_exists id sample_world "p"); [exact sample_world_reachable|].
  vm_compute. reflexivity.
Defined.

Lemma displayed_model_answers_selection_witness :
  model_selected_problem_id (panel_model (world_panel sample_world)) = Some "p" /\
  ServedModel (panel_model (world_panel sample_world)).
Proof.
  split; [vm_compute; reflexivity|].
  apply (displayed_model_answers_selection id sample_world). exact sample_world_reachable.
Defined.

Lemma only_the_pending_request_is_answered_witness :
  panel_pending_model_key (world_panel asked_world) = Some sample_model_key /\
  model_response_is_current (panel_pending_model_key (world_panel asked_world)) sample_model_key
    (panel_selected_problem_id (world_panel asked_world))
    (panel_selection_epoch (world_panel asked_world))
    (panel_analysis_epoch (world_panel asked_world)) = true.
Proof.
  split; [vm_compute; reflexivity|].
  pose proof (only_the_pending_request_is_answered id asked_world sample_editor sample_model_key 7
    (Err "") asked_world_reachable) as H.
  apply H. vm_compute. reflexivity.
Defined.

Lemma displayed_scenes_within_limits_witness :
  exists scene, panel_topology_scene (world_panel sample_world) = Some scene /\
    (len (scene_nodes scene) <= 12)%N.
Proof.
  eexists. split; [vm_compute; reflexivity|].
  eapply (displayed_scenes_within_limits id sample_world); [exact sample_world_reachable|].
  vm_compute. reflexivity.
Defined.

Lemma new_facts_are_about_the_live_text_witness :
  panel_model (world_panel asked_world) = no_model /\
  panel_model (world_panel sample_world) = sample_answer /\
  (panel_model (world_panel sample_world) = panel_model (world_panel asked_world) \/
   panel_model (world_panel sample_world) = no_model \/
   freshly_accepted (world_editor sample_world) (world_panel sample_world)).
Proof.
  split; [vm_compute; reflexivity|]. split; [vm_compute; reflexivity|].
  apply (new_facts_are_about_the_live_text id). exact model_step.
Defined.

Lemma repair_requested_iff_witness :
  (apply_repair sample_editor "r" "Clone" sample_source_hash (world_panel sample_world)).2 <> [].
Proof.
  apply (repair_requested_iff sample_editor "r" "Clone" sample_source_hash 7 default_position).
  - vm_compute. reflexivity.
  - vm_compute. reflexivity.
  - split; [|vm_compute; reflexivity]. exists sample_validated.
    split; [apply (list_elem_of_lookup_2 _ 0); vm_compute; reflexivity|].
    split; vm_compute; reflexivity.
Defined.

Lemma stale_preview_applies_nothing_witness :
  (apply_repair sample_editor "r" "Clone" "0000000000000000" (world_panel sample_world)).2 = [].
Proof.
  apply (stale_preview_applies_nothing sample_editor "r" "Clone" "0000000000000000" 7
    default_position (world_panel sample_world) sample_verification).
  - vm_compute. reflexivity.
  - vm_compute. reflexivity.
  - vm_compute. reflexivity.
  - vm_compute. discriminate.
Defined.
