(* ===== verification/CompilerData.v ===== *)
(** * Data of the compiler's ownership recorder

    The enumerations and structs of
    [rust/compiler/rustc_session/src/borrowck_repair.rs], with the source's
    constructors.  Every enumeration is in a module of its own, because several
    of them share constructor names ([Unknown], [Heap], [Clone], ...): the
    constructor [BorrowckMemoryKind::BoxHandle] is [MemoryKind.BoxHandle].

    A [Span] is what the recorder uses of the compiler's spans: its two byte
    positions in the source map and whether it comes from a macro expansion.  A
    [PathBuf] is the string of its bytes; identities of the compiler's
    definitions and nodes are numbers. *)

From S2P Require Import Prelude.
From stdpp Require Import options.

Definition BORROWCK_OWNERSHIP_MODEL_SCHEMA_VERSION : N := 7.

Record Span : Type := mk_span {
  span_lo : N;
  span_hi : N;
  from_expansion : bool
}.

Definition PathBuf : Type := string.
Definition LocalDefId : Type := N.
Definition HirId : Type := N * N.

(** ** What the borrow checker records *)

Module RepairKind.
Inductive BorrowckRepairKind : Type :=
| CloneMovedValue
| MakeBindingMutable.
End RepairKind.

Record BorrowckRepairEdit : Type := mk_redit {
  redit_span : Span;
  redit_replacement : string
}.

Record BorrowckRepairGroup : Type := mk_rgroup {
  rgroup_kind : RepairKind.BorrowckRepairKind;
  rgroup_binding_span : option Span;
  rgroup_edits : list BorrowckRepairEdit
}.

Module MemoryKind.
Inductive BorrowckMemoryKind : Type :=
| AggregateValue
| ArcAllocation
| ArcHandle
| BoxAllocation
| BoxHandle
| CellState
| ConditionalValue
| ContainerBuffer
| ContainerHeader
| FatPointerMetadata
| GuardState
| InlineValue
| MutexState
| OnceState
| PinConstraint
| RawPointer
| RcAllocation
| RcHandle
| ReferenceHandle
| RefCellState
| RwLockState
| StackBinding
| StringBuffer
| StringHeader
| UnsafeCellState
| VecBuffer
| VecHeader
| WeakAllocation
| WeakHandle.
#[global] Instance memory_kind_eq_dec : EqDecision BorrowckMemoryKind.
Proof. solve_decision. Defined.

(** [derive(Debug)] *)
Definition kind_debug (kind : BorrowckMemoryKind) : string :=
  match kind with
  | AggregateValue => "AggregateValue"
  | ArcAllocation => "ArcAllocation"
  | ArcHandle => "ArcHandle"
  | BoxAllocation => "BoxAllocation"
  | BoxHandle => "BoxHandle"
  | CellState => "CellState"
  | ConditionalValue => "ConditionalValue"
  | ContainerBuffer => "ContainerBuffer"
  | ContainerHeader => "ContainerHeader"
  | FatPointerMetadata => "FatPointerMetadata"
  | GuardState => "GuardState"
  | InlineValue => "InlineValue"
  | MutexState => "MutexState"
  | OnceState => "OnceState"
  | PinConstraint => "PinConstraint"
  | RawPointer => "RawPointer"
  | RcAllocation => "RcAllocation"
  | RcHandle => "RcHandle"
  | ReferenceHandle => "ReferenceHandle"
  | RefCellState => "RefCellState"
  | RwLockState => "RwLockState"
  | StackBinding => "StackBinding"
  | StringBuffer => "StringBuffer"
  | StringHeader => "StringHeader"
  | UnsafeCellState => "UnsafeCellState"
  | VecBuffer => "VecBuffer"
  | VecHeader => "VecHeader"
  | WeakAllocation => "WeakAllocation"
  | WeakHandle => "WeakHandle"
  end.
End MemoryKind.

Module MemoryStorage.
Inductive BorrowckMemoryStorage : Type :=
| Conceptual
| Heap
| Inline
| Stack.
End MemoryStorage.

Record BorrowckMemoryLayer : Type := mk_clayer {
  clayer_kind : MemoryKind.BorrowckMemoryKind;
  clayer_storage : MemoryStorage.BorrowckMemoryStorage;
  clayer_label : string;
  clayer_type_name : string;
  clayer_size : option N;
  clayer_align : option N
}.

Record BorrowckOwnershipBinding : Type := mk_cbinding {
  cbinding_body_id : N;
  cbinding_span : Span;
  cbinding_name : string;
  cbinding_type_name : string;
  cbinding_size : option N;
  cbinding_align : option N;
  cbinding_memory_layers : list BorrowckMemoryLayer
}.

Record BorrowckOwnershipBlock : Type := mk_cblock {
  cblock_basic_block : N;
  cblock_span : Span;
  cblock_successors : list N
}.

Record BorrowckOwnershipBody : Type := mk_cbody {
  cbody_body_id : N;
  cbody_name : string;
  cbody_span : Span;
  cbody_blocks : list BorrowckOwnershipBlock
}.

Module LoanKind.
Inductive BorrowckLoanKind : Type :=
| Mutable
| Shared.
End LoanKind.

Record BorrowckOwnershipLoanPoint : Type := mk_cpoint {
  cpoint_basic_block : N;
  cpoint_statement_index : N;
  cpoint_span : Span
}.

Record BorrowckOwnershipLoan : Type := mk_cloan {
  cloan_body_id : N;
  cloan_loan_id : N;
  cloan_kind : LoanKind.BorrowckLoanKind;
  cloan_binding_span : Span;
  cloan_binding_name : string;
  cloan_place : string;
  cloan_reserve : BorrowckOwnershipLoanPoint;
  cloan_activation : option BorrowckOwnershipLoanPoint;
  cloan_live_points : list BorrowckOwnershipLoanPoint;
  cloan_end_points : list BorrowckOwnershipLoanPoint;
  cloan_truncated : bool
}.

Module EventKind.
Inductive BorrowckOwnershipEventKind : Type :=
| BorrowActivate
| BorrowEnd
| BorrowMutable
| BorrowShared
| Clone
| Copy
| Drop
| LastUse
| Move
| PartialMove
| Reinitialize.
#[global] Instance event_kind_eq_dec : EqDecision BorrowckOwnershipEventKind.
Proof. solve_decision. Defined.

(** [kind as u8], which is also what [derive(Ord)] compares. *)
Definition discriminant (kind : BorrowckOwnershipEventKind) : N :=
  match kind with
  | BorrowActivate => 0
  | BorrowEnd => 1
  | BorrowMutable => 2
  | BorrowShared => 3
  | Clone => 4
  | Copy => 5
  | Drop => 6
  | LastUse => 7
  | Move => 8
  | PartialMove => 9
  | Reinitialize => 10
  end.
End EventKind.

Module DestinationKind.
Inductive BorrowckOwnershipDestinationKind : Type :=
| FunctionArgument
| LocalBinding
| ProjectedPlace
| ReturnValue.
End DestinationKind.

Record BorrowckOwnershipDestination : Type := mk_cdestination {
  cdestination_kind : DestinationKind.BorrowckOwnershipDestinationKind;
  cdestination_label : string;
  cdestination_place : option string;
  cdestination_span : option Span
}.

Module OwnershipState.
Inductive BorrowckOwnershipState : Type :=
| Available
| Dropped
| Moved
| MutablyBorrowed
| PartiallyMoved
| SharedBorrowed
| Unknown.
#[global] Instance state_eq_dec : EqDecision BorrowckOwnershipState.
Proof. solve_decision. Defined.
End OwnershipState.

Record BorrowckOwnershipEvent : Type := mk_cevent {
  cevent_body_id : N;
  cevent_basic_block : N;
  cevent_statement_index : N;
  cevent_kind : EventKind.BorrowckOwnershipEventKind;
  cevent_state : OwnershipState.BorrowckOwnershipState;
  cevent_span : Span;
  cevent_binding_span : Span;
  cevent_binding_name : string;
  cevent_place : string;
  cevent_loan_id : option N;
  cevent_detail : option string;
  cevent_destination : option BorrowckOwnershipDestination
}.

Module WrapperSource.
Inductive BorrowckWrapperSource : Type :=
| Plain
| Box
| Rc.
End WrapperSource.

Module WrapperRequirement.
Inductive BorrowckWrapperRequirement : Type :=
| SharedOwnership
| InteriorMutation.
End WrapperRequirement.

Record BorrowckWrapperIntent : Type := mk_intent {
  intent_body_owner : LocalDefId;
  intent_binding_hir_id : HirId;
  intent_binding_span : Span;
  intent_trigger_span : Span;
  intent_binding_name : string;
  intent_source : WrapperSource.BorrowckWrapperSource;
  intent_requirement : WrapperRequirement.BorrowckWrapperRequirement
}.

Module WrapperStrategy.
Inductive BorrowckWrapperStrategy : Type :=
| Arc
| ArcMutex
| ArcRwLock
| Mutex
| Rc
| RefCell
| RcRefCell
| RwLock.
End WrapperStrategy.

Record BorrowckWrapperVariant : Type := mk_variant {
  variant_binding_span : Span;
  variant_trigger_span : Span;
  variant_binding_name : string;
  variant_strategy : WrapperStrategy.BorrowckWrapperStrategy;
  variant_edits : list BorrowckRepairEdit
}.

Record BorrowckWrapperRejection : Type := mk_rejection {
  rejection_binding_span : Span;
  rejection_binding_name : string;
  rejection_strategy : WrapperStrategy.BorrowckWrapperStrategy;
  rejection_reason : string
}.

Record BorrowckRepairCollector : Type := mk_collector {
  collector_ownership_bindings : list BorrowckOwnershipBinding;
  collector_ownership_bodies : list BorrowckOwnershipBody;
  collector_ownership_events : list BorrowckOwnershipEvent;
  collector_ownership_loans : list BorrowckOwnershipLoan;
  collector_repairs : list BorrowckRepairGroup;
  collector_wrapper_intents : list BorrowckWrapperIntent;
  collector_wrapper_variants : list BorrowckWrapperVariant;
  collector_wrapper_rejections : list BorrowckWrapperRejection
}.

(** ** What the plan file holds *)

Record SerializedBorrowckRepairSource : Type := mk_ssource {
  ssource_path : PathBuf;
  ssource_source_hash : string;
  ssource_source : option string
}.

Record SerializedBorrowckRepairEdit : Type := mk_sedit {
  sedit_path : PathBuf;
  sedit_byte_start : N;
  sedit_byte_end : N;
  sedit_replacement : string
}.

Record SerializedBorrowckBinding : Type := mk_sbinding {
  sbinding_path : PathBuf;
  sbinding_byte_start : N;
  sbinding_name : string
}.

Record SerializedBorrowckRepairGroup : Type := mk_sgroup {
  sgroup_kind : RepairKind.BorrowckRepairKind;
  sgroup_binding : option SerializedBorrowckBinding;
  sgroup_edits : list SerializedBorrowckRepairEdit
}.

Record SerializedBorrowckSpan : Type := mk_sspan {
  sspan_path : PathBuf;
  sspan_byte_start : N;
  sspan_byte_end : N
}.

Record SerializedBorrowckWrapperVariant : Type := mk_svariant {
  svariant_binding : SerializedBorrowckBinding;
  svariant_trigger : SerializedBorrowckSpan;
  svariant_strategy : WrapperStrategy.BorrowckWrapperStrategy;
  svariant_edits : list SerializedBorrowckRepairEdit
}.

Module StorageRegion.
Inductive BorrowckGraphStorageRegion : Type :=
| Stack
| Inline
| Heap
| Static
| ThreadLocal
| Conceptual
| Unknown.
End StorageRegion.

Module NodeKind.
Inductive BorrowckGraphNodeKind : Type :=
| Binding
| Handle
| Wrapper
| InlineValue
| HeapAllocation
| Buffer
| ControlBlock
| BorrowFlag
| LockState
| BorrowedView
| ProjectedPlace
| Guard
| Metadata
| Unknown.
#[global] Instance node_kind_eq_dec : EqDecision BorrowckGraphNodeKind.
Proof. solve_decision. Defined.
End NodeKind.

Module Relation.
Inductive BorrowckGraphEdgeRelation : Type :=
| Stores
| Wraps
| Owns
| Contains
| OwnsBuffer
| PointsTo
| BorrowShared
| BorrowMutable
| Reborrow
| SharesAllocation
| WeakReference
| GuardsAccess
| Conditional
| MovedTo
| Unknown.
#[global] Instance relation_eq_dec : EqDecision BorrowckGraphEdgeRelation.
Proof. solve_decision. Defined.

(** [derive(Debug)] *)
Definition relation_debug (relation : BorrowckGraphEdgeRelation) : string :=
  match relation with
  | Stores => "Stores"
  | Wraps => "Wraps"
  | Owns => "Owns"
  | Contains => "Contains"
  | OwnsBuffer => "OwnsBuffer"
  | PointsTo => "PointsTo"
  | BorrowShared => "BorrowShared"
  | BorrowMutable => "BorrowMutable"
  | Reborrow => "Reborrow"
  | SharesAllocation => "SharesAllocation"
  | WeakReference => "WeakReference"
  | GuardsAccess => "GuardsAccess"
  | Conditional => "Conditional"
  | MovedTo => "MovedTo"
  | Unknown => "Unknown"
  end.
End Relation.

Module Provenance.
Inductive BorrowckOwnershipProvenance : Type :=
| Exact
| Derived
| Conceptual
| Unknown.
End Provenance.

Module SnapshotKind.
Inductive BorrowckSnapshotKind : Type :=
| Initialize
| BorrowReserve
| BorrowActivate
| Move
| Copy
| Clone
| Reborrow
| LastUse
| BorrowEnd
| Conflict
| Reinitialize
| Drop
| PartialMove
| Unknown.
#[global] Instance snapshot_kind_eq_dec : EqDecision BorrowckSnapshotKind.
Proof. solve_decision. Defined.
End SnapshotKind.

Module AccessKind.
Inductive BorrowckAccessKind : Type :=
| BuiltinDeref
| TraitDeref
| TraitDerefMut
| AutoBorrowShared
| AutoBorrowMutable
| RawPointerDeref
| WrapperBorrow
| WrapperBorrowMut
| GuardDeref
| WeakUpgrade
| OptionExtract
| ResultExtract
| LockAcquire
| Unknown.
#[global] Instance access_kind_eq_dec : EqDecision BorrowckAccessKind.
Proof. solve_decision. Defined.
End AccessKind.

Module AccessMutability.
Inductive BorrowckAccessMutability : Type :=
| Shared
| Mutable
| NotApplicable
| Unknown.
End AccessMutability.

Module AccessExplicitness.
Inductive BorrowckAccessExplicitness : Type :=
| Automatic
| Explicit
| Either
| Unknown.
End AccessExplicitness.

Record SerializedBorrowckMemoryNode : Type := mk_snode {
  snode_id : string;
  snode_body_id : N;
  snode_place : string;
  snode_kind : NodeKind.BorrowckGraphNodeKind;
  snode_storage : StorageRegion.BorrowckGraphStorageRegion;
  snode_label : string;
  snode_type_name : string;
  snode_size : option N;
  snode_align : option N;
  snode_span : option SerializedBorrowckSpan;
  snode_state : OwnershipState.BorrowckOwnershipState;
  snode_provenance : Provenance.BorrowckOwnershipProvenance;
  snode_physical_placement_note : string;
  snode_truncated : bool
}.

Record SerializedBorrowckMemoryEdge : Type := mk_sedge {
  sedge_id : string;
  sedge_source : string;
  sedge_target : string;
  sedge_relation : Relation.BorrowckGraphEdgeRelation;
  sedge_event_id : option string;
  sedge_loan_id : option N;
  sedge_span : option SerializedBorrowckSpan;
  sedge_provenance : Provenance.BorrowckOwnershipProvenance;
  sedge_path_marker : option string
}.

Record SerializedBorrowckStateDelta : Type := mk_sdelta {
  sdelta_node_id : string;
  sdelta_from : option OwnershipState.BorrowckOwnershipState;
  sdelta_to : OwnershipState.BorrowckOwnershipState;
  sdelta_relation_added : option Relation.BorrowckGraphEdgeRelation;
  sdelta_relation_removed : option Relation.BorrowckGraphEdgeRelation
}.

Record SerializedBorrowckOwnershipSnapshot : Type := mk_ssnapshot {
  ssnapshot_id : string;
  ssnapshot_event_id : string;
  ssnapshot_body_id : N;
  ssnapshot_basic_block : N;
  ssnapshot_statement_index : N;
  ssnapshot_kind : SnapshotKind.BorrowckSnapshotKind;
  ssnapshot_span : SerializedBorrowckSpan;
  ssnapshot_place : string;
  ssnapshot_loan_id : option N;
  ssnapshot_path_marker : option string;
  ssnapshot_deltas : list SerializedBorrowckStateDelta;
  ssnapshot_provenance : Provenance.BorrowckOwnershipProvenance
}.

Record SerializedBorrowckAccessStep : Type := mk_sstep {
  sstep_kind : AccessKind.BorrowckAccessKind;
  sstep_starting_type : string;
  sstep_result_type : string;
  sstep_mutability : AccessMutability.BorrowckAccessMutability;
  sstep_explicitness : AccessExplicitness.BorrowckAccessExplicitness;
  sstep_fallible : bool;
  sstep_may_panic : bool;
  sstep_requires_unsafe : bool;
  sstep_explanation : string;
  sstep_provenance : Provenance.BorrowckOwnershipProvenance
}.

Record SerializedBorrowckAccessPath : Type := mk_spath {
  spath_id : string;
  spath_body_id : N;
  spath_node_id : string;
  spath_place : string;
  spath_purpose : string;
  spath_steps : list SerializedBorrowckAccessStep;
  spath_provenance : Provenance.BorrowckOwnershipProvenance
}.

Record SerializedBorrowckMemoryGraph : Type := mk_sgraph {
  sgraph_nodes : list SerializedBorrowckMemoryNode;
  sgraph_edges : list SerializedBorrowckMemoryEdge;
  sgraph_snapshots : list SerializedBorrowckOwnershipSnapshot;
  sgraph_access_paths : list SerializedBorrowckAccessPath;
  sgraph_truncated : bool
}.

Record SerializedBorrowckMemoryLayer : Type := mk_slayer {
  slayer_kind : MemoryKind.BorrowckMemoryKind;
  slayer_storage : MemoryStorage.BorrowckMemoryStorage;
  slayer_label : string;
  slayer_type_name : string;
  slayer_size : option N;
  slayer_align : option N;
  slayer_provenance : string
}.

Record SerializedBorrowckOwnershipBinding : Type := mk_obinding {
  obinding_body_id : N;
  obinding_binding : SerializedBorrowckBinding;
  obinding_type_name : string;
  obinding_size : option N;
  obinding_align : option N;
  obinding_memory_layers : list SerializedBorrowckMemoryLayer
}.

Record SerializedBorrowckOwnershipBlock : Type := mk_oblock {
  oblock_basic_block : N;
  oblock_span : SerializedBorrowckSpan;
  oblock_successors : list N
}.

Record SerializedBorrowckOwnershipBody : Type := mk_obody {
  obody_body_id : N;
  obody_name : string;
  obody_span : SerializedBorrowckSpan;
  obody_blocks : list SerializedBorrowckOwnershipBlock
}.

Record SerializedBorrowckOwnershipLoanPoint : Type := mk_opoint {
  opoint_basic_block : N;
  opoint_statement_index : N;
  opoint_span : SerializedBorrowckSpan
}.

Record SerializedBorrowckOwnershipLoan : Type := mk_oloan {
  oloan_body_id : N;
  oloan_loan_id : N;
  oloan_kind : LoanKind.BorrowckLoanKind;
  oloan_binding : SerializedBorrowckBinding;
  oloan_place : string;
  oloan_reserve : SerializedBorrowckOwnershipLoanPoint;
  oloan_activation : option SerializedBorrowckOwnershipLoanPoint;
  oloan_live_points : list SerializedBorrowckOwnershipLoanPoint;
  oloan_end_points : list SerializedBorrowckOwnershipLoanPoint;
  oloan_truncated : bool
}.

Record SerializedBorrowckWrapperRejection : Type := mk_srejection {
  srejection_binding : SerializedBorrowckBinding;
  srejection_strategy : WrapperStrategy.BorrowckWrapperStrategy;
  srejection_reason : string
}.

Record SerializedBorrowckOwnershipDestination : Type := mk_odestination {
  odestination_kind : DestinationKind.BorrowckOwnershipDestinationKind;
  odestination_label : string;
  odestination_place : option string;
  odestination_span : option SerializedBorrowckSpan
}.

Record SerializedBorrowckOwnershipEvent : Type := mk_oevent {
  oevent_event_id : string;
  oevent_body_id : N;
  oevent_basic_block : N;
  oevent_statement_index : N;
  oevent_kind : EventKind.BorrowckOwnershipEventKind;
  oevent_state : OwnershipState.BorrowckOwnershipState;
  oevent_path : PathBuf;
  oevent_byte_start : N;
  oevent_byte_end : N;
  oevent_binding : SerializedBorrowckBinding;
  oevent_place : string;
  oevent_loan_id : option N;
  oevent_detail : option string;
  oevent_destination : option SerializedBorrowckOwnershipDestination
}.

Record SerializedBorrowckRepairPlan : Type := mk_plan {
  plan_schema_version : N;
  plan_target_triple : string;
  plan_crate_name : string;
  plan_stable_crate_id : N;
  plan_sources : list SerializedBorrowckRepairSource;
  plan_ownership_bodies : list SerializedBorrowckOwnershipBody;
  plan_ownership_bindings : list SerializedBorrowckOwnershipBinding;
  plan_ownership_events : list SerializedBorrowckOwnershipEvent;
  plan_ownership_loans : list SerializedBorrowckOwnershipLoan;
  plan_memory_graph : SerializedBorrowckMemoryGraph;
  plan_repairs : list SerializedBorrowckRepairGroup;
  plan_wrapper_variants : list SerializedBorrowckWrapperVariant;
  plan_wrapper_rejections : list SerializedBorrowckWrapperRejection
}.
