(* ===== verification/RustPath.v ===== *)
(** * Paths and slices of the standard library

    What the compiler's plan writer uses of [std::path::Path] (on a Unix host:
    comparison and equality go through the components of the path, so repeated
    separators and inner [.] segments do not count), of ordered maps keyed by
    paths, and of byte slicing of strings, which panics off a character
    boundary. *)

From Stdlib Require Import Ascii String.
From S2P Require Import Prelude RustStr RustColl.
From stdpp Require Import options.

(** ** [Path::components] *)

Inductive Component : Type :=
| RootDir
| CurDir
| ParentDir
| Normal (name : string).

Definition is_separator (c : ascii) : bool := Ascii.eqb c "/"%char.

(** The segments between separators, empty ones included. *)
Fixpoint segments_from (current : string) (path : string) : list string :=
  match path with
  | EmptyString => [rev_str current]
  | String c path =>
      if is_separator c then rev_str current :: segments_from EmptyString path
      else segments_from (String c current) path
  end.

Definition segments (path : string) : list string := segments_from EmptyString path.

Definition inner_component (segment : string) : option Component :=
  if is_empty segment || String.eqb segment "." then None
  else if String.eqb segment ".." then Some ParentDir
  else Some (Normal segment).

(** A leading [.] of a relative path is kept. *)
Definition first_component (path segment : string) : option Component :=
  if is_empty segment then if is_empty path then None else Some RootDir
  else if String.eqb segment "." then Some CurDir
  else inner_component segment.

Definition components (path : string) : list Component :=
  match segments path with
  | [] => []
  | segment :: rest =>
      match first_component path segment with
      | Some component => [component]
      | None => []
      end ++ omap inner_component rest
  end.

Example components_absolute :
  components "/a//b/./../c.rs" = [RootDir; Normal "a"; Normal "b"; ParentDir; Normal "c.rs"].
Proof. reflexivity. Qed.

Example components_relative : components "./src/" = [CurDir; Normal "src"].
Proof. reflexivity. Qed.

Example components_empty : components "" = [].
Proof. reflexivity. Qed.

(** [Path::is_absolute] and [Path::join] of a relative path. *)
Definition is_absolute (path : string) : bool :=
  match path with
  | String c _ => is_separator c
  | EmptyString => false
  end.

Definition path_join (base path : string) : string :=
  if is_absolute path then path
  else if is_empty base || ends_with "/" base then base +:+ path
  else base +:+ "/" +:+ path.

(** ** Orders *)

Definition component_rank (c : Component) : N :=
  match c with
  | RootDir => 1
  | CurDir => 2
  | ParentDir => 3
  | Normal _ => 4
  end.

Definition component_cmp (a b : Component) : comparison :=
  match a, b with
  | Normal a, Normal b => String.compare a b
  | _, _ => N.compare (component_rank a) (component_rank b)
  end.

Fixpoint list_cmp {A} (cmp : A -> A -> comparison) (a b : list A) : comparison :=
  match a, b with
  | [], [] => Eq
  | [], _ :: _ => Lt
  | _ :: _, [] => Gt
  | x :: a, y :: b =>
      match cmp x y with
      | Eq => list_cmp cmp a b
      | c => c
      end
  end.

(** [Path::cmp] and [Path::eq] *)
Definition path_cmp (a b : string) : comparison :=
  list_cmp component_cmp (components a) (components b).

Definition path_eqb (a b : string) : bool :=
  match path_cmp a b with
  | Eq => true
  | _ => false
  end.

#[export] Instance string_cmp_total : TotalCmp String.compare.
Proof.
  split.
  - intros x y. split; [apply String.compare_eq_iff|intros ->].
    induction y as [|c y IH]; simpl; [done|]. unfold Ascii.compare. by rewrite N.compare_refl.
  - intros x y. apply String.compare_antisym.
  - intros x. induction x as [|a x IH]; intros [|b y] [|c z]; simpl; try done.
    unfold Ascii.compare.
    destruct (N.compare_spec (N_of_ascii a) (N_of_ascii b)) as [Hab|Hab|Hab],
      (N.compare_spec (N_of_ascii b) (N_of_ascii c)) as [Hbc|Hbc|Hbc]; try done; intros Hxy Hyz.
    + rewrite (proj2 (N.compare_eq_iff _ _)) by lia. eauto.
    + by rewrite (proj2 (N.compare_lt_iff _ _)) by lia.
    + by rewrite (proj2 (N.compare_lt_iff _ _)) by lia.
    + by rewrite (proj2 (N.compare_lt_iff _ _)) by lia.
Qed.

#[export] Instance component_cmp_total : TotalCmp component_cmp.
Proof.
  split.
  - intros [] []; simpl; rewrite ?cmp_eq; naive_solver.
  - intros [] []; simpl; try done. apply cmp_antisym.
  - intros [] [] []; simpl; try done. apply cmp_trans.
Qed.

#[export] Instance list_cmp_total {A} cmp `{!TotalCmp (A:=A) cmp} : TotalCmp (list_cmp cmp).
Proof.
  split.
  - intros a. induction a as [|x a IH]; intros [|y b]; simpl; try done.
    destruct (cmp x y) eqn:Hxy.
    + apply cmp_eq in Hxy as ->. rewrite IH. naive_solver.
    + split; [done|]. intros [= -> _]. by rewrite (proj2 (cmp_eq y y)) in Hxy.
    + split; [done|]. intros [= -> _]. by rewrite (proj2 (cmp_eq y y)) in Hxy.
  - intros a. induction a as [|x a IH]; intros [|y b]; simpl; try done.
    rewrite (cmp_antisym x y). destruct (cmp x y); simpl; auto.
  - intros a. induction a as [|x a IH]; intros [|y b] [|z c]; simpl; try done.
    destruct (cmp x y) eqn:Hxy, (cmp y z) eqn:Hyz; try done.
    + apply cmp_eq in Hxy as ->. rewrite Hyz. apply IH.
    + apply cmp_eq in Hxy as ->. by rewrite Hyz.
    + apply cmp_eq in Hyz as ->. by rewrite Hxy.
    + by rewrite (cmp_trans _ _ _ Hxy Hyz).
Qed.

Lemma path_eqb_spec a b : path_eqb a b = true <-> components a = components b.
Proof.
  unfold path_eqb, path_cmp. rewrite <- (cmp_eq (cmp:=list_cmp component_cmp)).
  destruct (list_cmp _ _ _); naive_solver.
Qed.

Lemma path_eqb_refl a : path_eqb a a = true.
Proof. by apply path_eqb_spec. Qed.

(** [Option] values order [None] first. *)
Definition option_leb {A} (leb : A -> A -> bool) (a b : option A) : bool :=
  match a, b with
  | None, _ => true
  | Some _, None => false
  | Some a, Some b => leb a b
  end.

#[export] Instance option_leb_total {A} leb `{!TotalLeb (A:=A) leb} : TotalLeb (option_leb leb).
Proof.
  split.
  - intros [] []; simpl; auto. apply leb_total.
  - intros [] [] []; simpl; try done. apply leb_trans.
  - intros [] []; simpl; try done. intros. f_equal. by apply leb_antisym.
Qed.

(** ** [BTreeMap] keyed by paths, as the list of its entries in key order *)

Section btree.
Context {V : Type}.

(** [entry(key).or_insert_with(|| value)] *)
Fixpoint btree_or_insert (key : string) (value : V) (m : list (string * V)) : list (string * V) :=
  match m with
  | [] => [(key, value)]
  | (k, v) :: rest =>
      match path_cmp key k with
      | Lt => (key, value) :: m
      | Eq => m
      | Gt => (k, v) :: btree_or_insert key value rest
      end
  end.

Definition btree_get (key : string) (m : list (string * V)) : option V :=
  snd <$> find_first (fun entry => path_eqb (fst entry) key) m.

(** [insert(key, value)]: an equal key keeps its place and takes the new value. *)
Fixpoint btree_insert (key : string) (value : V) (m : list (string * V)) : list (string * V) :=
  match m with
  | [] => [(key, value)]
  | (k, v) :: rest =>
      match path_cmp key k with
      | Lt => (key, value) :: m
      | Eq => (k, value) :: rest
      | Gt => (k, v) :: btree_insert key value rest
      end
  end.

Definition btree_sorted : list (string * V) -> Prop :=
  StronglySorted (fun a b => path_cmp a.1 b.1 = Lt).

Lemma btree_or_insert_elem key value m entry :
  entry ∈ btree_or_insert key value m -> entry = (key, value) \/ entry ∈ m.
Proof.
  induction m as [|[k v] m IH]; simpl.
  - rewrite list_elem_of_singleton. auto.
  - destruct (path_cmp key k); rewrite ?elem_of_cons; naive_solver.
Qed.

Lemma btree_or_insert_keeps key value m entry : entry ∈ m -> entry ∈ btree_or_insert key value m.
Proof.
  induction m as [|[k v] m IH]; simpl; [by intros ?%elem_of_nil|].
  destruct (path_cmp key k); rewrite ?elem_of_cons; naive_solver.
Qed.

Lemma btree_or_insert_has key value m :
  exists entry, entry ∈ btree_or_insert key value m /\ path_eqb entry.1 key = true.
Proof.
  induction m as [|[k v] m IH]; simpl.
  - exists (key, value). rewrite elem_of_cons, path_eqb_refl. auto.
  - destruct (path_cmp key k) eqn:H.
    + exists (k, v). rewrite elem_of_cons. split; [auto|]. apply path_eqb_spec.
      symmetry. by apply (cmp_eq (cmp:=list_cmp component_cmp)).
    + exists (key, value). rewrite elem_of_cons, path_eqb_refl. auto.
    + destruct IH as (entry & Hin & Heq). exists entry. rewrite elem_of_cons. auto.
Qed.

Lemma btree_or_insert_sorted key value m :
  btree_sorted m -> btree_sorted (btree_or_insert key value m).
Proof.
  unfold btree_sorted. induction m as [|[k v] m IH]; simpl; intros Hs.
  - repeat constructor.
  - apply StronglySorted_inv in Hs as [Hs Hk].
    destruct (path_cmp key k) eqn:H; [by constructor| |].
    + constructor; [by constructor|]. constructor; [done|].
      eapply Forall_impl; [exact Hk|]. intros e He.
      exact (cmp_trans (cmp:=list_cmp component_cmp) _ _ _ H He).
    + constructor; [by apply IH|]. apply Forall_forall. intros e He.
      apply btree_or_insert_elem in He as [->|He]; simpl.
      * unfold path_cmp in *. by rewrite (cmp_antisym (cmp:=list_cmp component_cmp)), H.
      * rewrite Forall_forall in Hk. by apply Hk.
Qed.

Lemma btree_get_cons p k v m :
  btree_get p ((k, v) :: m) = if path_eqb k p then Some v else btree_get p m.
Proof. unfold btree_get. simpl. by destruct (path_eqb k p). Qed.

Lemma btree_get_insert p key value m :
  btree_get p (btree_insert key value m) =
  if path_eqb key p then Some value else btree_get p m.
Proof.
  induction m as [|[k v] m IH]; simpl; [apply btree_get_cons|].
  destruct (path_cmp key k) eqn:H; rewrite !btree_get_cons, ?IH.
  - assert (components key = components k) as Hk by by apply (cmp_eq (cmp:=list_cmp component_cmp)).
    unfold path_eqb, path_cmp. rewrite Hk. by destruct (list_cmp _ _ _).
  - done.
  - destruct (path_eqb k p) eqn:Hk; [|done]. destruct (path_eqb key p) eqn:Hkey; [|done].
    rewrite path_eqb_spec in Hk, Hkey. exfalso. revert H. unfold path_cmp. rewrite Hk, Hkey.
    by rewrite (proj2 (cmp_eq (cmp:=list_cmp component_cmp) _ _) eq_refl).
Qed.

Lemma btree_get_elem p v m : btree_get p m = Some v -> exists k, (k, v) ∈ m /\ path_eqb k p = true.
Proof.
  induction m as [|[k w] m IH]; simpl; [done|]. rewrite btree_get_cons.
  destruct (path_eqb k p) eqn:H.
  - intros [= ->]. exists k. rewrite elem_of_cons. auto.
  - intros (k' & Hin & Hk)%IH. exists k'. rewrite elem_of_cons. auto.
Qed.

Lemma btree_get_eqb a b m : path_eqb a b = true -> btree_get a m = btree_get b m.
Proof.
  rewrite path_eqb_spec. intros H. induction m as [|[k v] m IH]; [done|].
  rewrite !btree_get_cons, IH. unfold path_eqb, path_cmp. by rewrite H.
Qed.

Lemma path_cmp_lt_neqb a b : path_cmp a b = Lt -> path_eqb a b = false.
Proof. unfold path_eqb. by intros ->. Qed.

Lemma path_eqb_cmp a b c : path_eqb a b = true -> path_cmp a c = path_cmp b c.
Proof. rewrite path_eqb_spec. unfold path_cmp. by intros ->. Qed.

Lemma btree_sorted_absent p k m :
  Forall (fun entry : string * V => path_cmp k entry.1 = Lt) m -> path_eqb k p = true ->
  btree_get p m = None.
Proof.
  intros Hall Hk. destruct (btree_get p m) eqn:H; [|done].
  apply btree_get_elem in H as (k' & Hin & Hk'). rewrite Forall_forall in Hall.
  apply Hall, path_cmp_lt_neqb in Hin. simpl in Hin. rewrite path_eqb_spec in Hk, Hk'.
  assert (path_eqb k k' = true) by (apply path_eqb_spec; congruence). congruence.
Qed.

Lemma btree_get_sorted k v m : btree_sorted m -> (k, v) ∈ m -> btree_get k m = Some v.
Proof.
  unfold btree_sorted. induction m as [|[k' v'] m IH]; [by intros _ ?%elem_of_nil|].
  intros [Hs Hk']%StronglySorted_inv [[= -> ->]|Hin]%elem_of_cons; rewrite btree_get_cons.
  - by rewrite path_eqb_refl.
  - rewrite Forall_forall in Hk'. pose proof (Hk' _ Hin) as H. simpl in H.
    rewrite (path_cmp_lt_neqb _ _ H). auto.
Qed.
End btree.

(** ** Slicing *)

(** Whether a byte starts a UTF-8 encoded character. *)
Definition is_char_start (c : ascii) : bool := negb ((N_of_ascii c / 64 =? 2)%N).

(** [s.is_char_boundary(s.len() - suffix.len())] for a suffix of [s]. *)
Definition starts_char (suffix : string) : bool :=
  match suffix with
  | EmptyString => true
  | String c _ => is_char_start c
  end.

(** The suffix of [s] from byte [n]; [None] beyond the end. *)
Fixpoint drop_bytes (n : nat) (s : string) : option string :=
  match n, s with
  | O, _ => Some s
  | S n, String _ s => drop_bytes n s
  | S _, EmptyString => None
  end.

Fixpoint take_bytes (n : nat) (s : string) : string :=
  match n, s with
  | O, _ => EmptyString
  | S n, String c s => String c (take_bytes n s)
  | S _, EmptyString => EmptyString
  end.

(** [(&s[..at], &s[at..])]; both slices panic unless [at] is a character
    boundary of [s]. *)
Definition split_str_at (s : string) (at_ : N) : result (string * string) :=
  match drop_bytes (N.to_nat at_) s with
  | Some rest =>
      if starts_char rest then Ok (take_bytes (N.to_nat at_) s, rest)
      else Err "byte index is not a char boundary"
  | None => Err "byte index is out of bounds"
  end.

Lemma drop_take_bytes n s rest : drop_bytes n s = Some rest -> take_bytes n s +:+ rest = s.
Proof.
  revert s. induction n as [|n IH]; intros [|c s]; simpl; try naive_solver.
  intros H. change (String c (take_bytes n s +:+ rest) = String c s). by rewrite (IH s H).
Qed.

Lemma drop_bytes_length n s : n <= String.length s -> is_Some (drop_bytes n s).
Proof.
  revert s. induction n as [|n IH]; intros [|c s]; simpl; try by eauto; try lia.
  intros. apply IH. lia.
Qed.
