(* ===== verification/MemoryGraph.v ===== *)
(** * The compiler's ownership memory graph

    The functions of [rust/compiler/rustc_session/src/borrowck_repair.rs] that
    turn the serialized bindings, loans and events of a crate into one graph:
    identities, the tables from memory layers to node kinds and relations, the
    access paths of a binding's type, the searches over edges, and
    [build_ownership_memory_graph] itself, stage by stage.

    [char::is_alphanumeric] of characters outside ASCII is the parameter
    [alphanumeric]; a slice off a character boundary panics, which is the error
    of a [result]. *)

From Stdlib Require Import Ascii String.
From S2P Require Import Prelude RustStr RustColl RustPath Fnv CompilerData.
From stdpp Require Import options.

(** ** Identities *)

Definition stable_bytes_hash (bytes : string) : string :=
  format_016x (fnv_hash FNV_OFFSET bytes).

Definition stable_source_hash (source : string) : string := stable_bytes_hash source.

Definition graph_id (prefix identity : string) : string :=
  prefix +:+ "-" +:+ stable_bytes_hash identity.

Definition binding_start (binding : SerializedBorrowckOwnershipBinding) : N :=
  sbinding_byte_start (obinding_binding binding).
Definition binding_path (binding : SerializedBorrowckOwnershipBinding) : PathBuf :=
  sbinding_path (obinding_binding binding).
Definition binding_name (binding : SerializedBorrowckOwnershipBinding) : string :=
  sbinding_name (obinding_binding binding).

Definition binding_node_id (binding : SerializedBorrowckOwnershipBinding)
    (bindings : list SerializedBorrowckOwnershipBinding) : string :=
  let same_name :=
    sort_by (on binding_start N.leb)
      (retain (fun candidate =>
         (obinding_body_id candidate =? obinding_body_id binding)%N
         && path_eqb (binding_path candidate) (binding_path binding)
         && String.eqb (binding_name candidate) (binding_name binding)) bindings) in
  let shadow_ordinal :=
    default 0%N
      (position (fun candidate => (binding_start candidate =? binding_start binding)%N) same_name) in
  graph_id "node"
    (show (obinding_body_id binding) +:+ ":" +:+ binding_path binding +:+ ":"
     +:+ binding_name binding +:+ ":" +:+ obinding_type_name binding +:+ ":"
     +:+ show shadow_ordinal +:+ ":binding").

(** ** Tables *)

Definition layer_node_kind (kind : MemoryKind.BorrowckMemoryKind) : NodeKind.BorrowckGraphNodeKind :=
  match kind with
  | MemoryKind.StackBinding => NodeKind.Binding
  | MemoryKind.ArcHandle | MemoryKind.BoxHandle | MemoryKind.RawPointer | MemoryKind.RcHandle
  | MemoryKind.ReferenceHandle | MemoryKind.WeakHandle => NodeKind.Handle
  | MemoryKind.ContainerHeader | MemoryKind.PinConstraint | MemoryKind.StringHeader
  | MemoryKind.VecHeader => NodeKind.Wrapper
  | MemoryKind.AggregateValue | MemoryKind.CellState | MemoryKind.ConditionalValue
  | MemoryKind.InlineValue | MemoryKind.UnsafeCellState => NodeKind.InlineValue
  | MemoryKind.BoxAllocation => NodeKind.HeapAllocation
  | MemoryKind.RcAllocation | MemoryKind.ArcAllocation
  | MemoryKind.WeakAllocation => NodeKind.ControlBlock
  | MemoryKind.ContainerBuffer | MemoryKind.StringBuffer | MemoryKind.VecBuffer => NodeKind.Buffer
  | MemoryKind.RefCellState => NodeKind.BorrowFlag
  | MemoryKind.GuardState => NodeKind.Guard
  | MemoryKind.MutexState | MemoryKind.OnceState | MemoryKind.RwLockState => NodeKind.LockState
  | MemoryKind.FatPointerMetadata => NodeKind.Metadata
  end.

Definition graph_storage (storage : MemoryStorage.BorrowckMemoryStorage) :
    StorageRegion.BorrowckGraphStorageRegion :=
  match storage with
  | MemoryStorage.Conceptual => StorageRegion.Conceptual
  | MemoryStorage.Heap => StorageRegion.Heap
  | MemoryStorage.Inline => StorageRegion.Inline
  | MemoryStorage.Stack => StorageRegion.Stack
  end.

Definition graph_provenance (layer : SerializedBorrowckMemoryLayer) :
    Provenance.BorrowckOwnershipProvenance :=
  if String.eqb (slayer_provenance layer) "target_layout" then Provenance.Exact
  else if String.eqb (slayer_provenance layer) "derived" then Provenance.Derived
  else if String.eqb (slayer_provenance layer) "conceptual" then Provenance.Conceptual
  else Provenance.Unknown.

Definition guards_access (source : MemoryKind.BorrowckMemoryKind) : bool :=
  match source with
  | MemoryKind.CellState | MemoryKind.GuardState | MemoryKind.MutexState | MemoryKind.OnceState
  | MemoryKind.RefCellState | MemoryKind.RwLockState | MemoryKind.UnsafeCellState => true
  | _ => false
  end.

Definition topology_relation (source target : MemoryKind.BorrowckMemoryKind) :
    Relation.BorrowckGraphEdgeRelation :=
  if bool_decide (source = MemoryKind.StackBinding) then Relation.Stores
  else if bool_decide (source = MemoryKind.PinConstraint) then Relation.Wraps
  else if guards_access source then Relation.GuardsAccess
  else
    match target with
    | MemoryKind.BoxAllocation => Relation.Owns
    | MemoryKind.RcAllocation | MemoryKind.ArcAllocation => Relation.SharesAllocation
    | MemoryKind.WeakAllocation => Relation.WeakReference
    | MemoryKind.ContainerBuffer | MemoryKind.StringBuffer
    | MemoryKind.VecBuffer => Relation.OwnsBuffer
    | MemoryKind.ConditionalValue => Relation.Conditional
    | MemoryKind.GuardState => Relation.GuardsAccess
    | MemoryKind.PinConstraint => Relation.Wraps
    | MemoryKind.StackBinding | MemoryKind.AggregateValue | MemoryKind.ArcHandle
    | MemoryKind.BoxHandle | MemoryKind.CellState | MemoryKind.ContainerHeader
    | MemoryKind.FatPointerMetadata | MemoryKind.InlineValue | MemoryKind.MutexState
    | MemoryKind.OnceState | MemoryKind.RawPointer | MemoryKind.RcHandle
    | MemoryKind.ReferenceHandle | MemoryKind.RefCellState | MemoryKind.RwLockState
    | MemoryKind.StringHeader | MemoryKind.UnsafeCellState | MemoryKind.VecHeader
    | MemoryKind.WeakHandle => Relation.Contains
    end.

Definition snapshot_kind (kind : EventKind.BorrowckOwnershipEventKind) :
    SnapshotKind.BorrowckSnapshotKind :=
  match kind with
  | EventKind.BorrowActivate => SnapshotKind.BorrowActivate
  | EventKind.BorrowEnd => SnapshotKind.BorrowEnd
  | EventKind.BorrowMutable | EventKind.BorrowShared => SnapshotKind.BorrowReserve
  | EventKind.Clone => SnapshotKind.Clone
  | EventKind.Copy => SnapshotKind.Copy
  | EventKind.Drop => SnapshotKind.Drop
  | EventKind.LastUse => SnapshotKind.LastUse
  | EventKind.Move => SnapshotKind.Move
  | EventKind.PartialMove => SnapshotKind.PartialMove
  | EventKind.Reinitialize => SnapshotKind.Reinitialize
  end.

(** ** The graph under construction *)

Definition empty_graph : SerializedBorrowckMemoryGraph := mk_sgraph [] [] [] [] false.

Definition push_node (node : SerializedBorrowckMemoryNode) (g : SerializedBorrowckMemoryGraph) :
    SerializedBorrowckMemoryGraph :=
  mk_sgraph (sgraph_nodes g ++ [node]) (sgraph_edges g) (sgraph_snapshots g)
    (sgraph_access_paths g) (sgraph_truncated g).

Definition push_edge (edge : SerializedBorrowckMemoryEdge) (g : SerializedBorrowckMemoryGraph) :
    SerializedBorrowckMemoryGraph :=
  mk_sgraph (sgraph_nodes g) (sgraph_edges g ++ [edge]) (sgraph_snapshots g)
    (sgraph_access_paths g) (sgraph_truncated g).

Definition push_snapshot (snapshot : SerializedBorrowckOwnershipSnapshot)
    (g : SerializedBorrowckMemoryGraph) : SerializedBorrowckMemoryGraph :=
  mk_sgraph (sgraph_nodes g) (sgraph_edges g) (sgraph_snapshots g ++ [snapshot])
    (sgraph_access_paths g) (sgraph_truncated g).

Definition extend_access_paths (paths : list SerializedBorrowckAccessPath)
    (g : SerializedBorrowckMemoryGraph) : SerializedBorrowckMemoryGraph :=
  mk_sgraph (sgraph_nodes g) (sgraph_edges g) (sgraph_snapshots g)
    (sgraph_access_paths g ++ paths) (sgraph_truncated g).

Definition or_truncated (truncated : bool) (g : SerializedBorrowckMemoryGraph) :
    SerializedBorrowckMemoryGraph :=
  mk_sgraph (sgraph_nodes g) (sgraph_edges g) (sgraph_snapshots g) (sgraph_access_paths g)
    (sgraph_truncated g || truncated).

(** ** Places *)

Definition is_projection_char (c : ascii) : bool :=
  Ascii.eqb c "."%char || Ascii.eqb c "["%char || Ascii.eqb c ":"%char.

Definition place_root (place : string) : string :=
  first_segment is_projection_char (trim_start_matches "*"%char place).

Definition find_binding_node_id (bindings : list SerializedBorrowckOwnershipBinding) (body_id : N)
    (place : string) : option string :=
  (fun binding => binding_node_id binding bindings) <$>
    find_first (fun binding => (obinding_body_id binding =? body_id)%N
                               && String.eqb (binding_name binding) (place_root place)) bindings.

Definition place_node (id : string) (body_id : N) (place : string)
    (span : option SerializedBorrowckSpan) (provenance : Provenance.BorrowckOwnershipProvenance) :
    SerializedBorrowckMemoryNode :=
  mk_snode id body_id place NodeKind.ProjectedPlace StorageRegion.Inline place
    "projected place (type available from MIR owner)" None None span OwnershipState.Available
    provenance "A source/MIR subplace of its owner; optimized machine placement may differ." false.

Definition place_edge (root_id id : string) (span : option SerializedBorrowckSpan)
    (provenance : Provenance.BorrowckOwnershipProvenance) : SerializedBorrowckMemoryEdge :=
  mk_sedge (graph_id "edge" (root_id +:+ ":contains:" +:+ id)) root_id id Relation.Contains None
    None span provenance None.

(** The graph may have grown by a node and an edge when the answer is [Some]. *)
Definition ensure_place_node (g : SerializedBorrowckMemoryGraph)
    (bindings : list SerializedBorrowckOwnershipBinding) (body_id : N) (place : string)
    (span : option SerializedBorrowckSpan) (provenance : Provenance.BorrowckOwnershipProvenance) :
    SerializedBorrowckMemoryGraph * option string :=
  match find_binding_node_id bindings body_id place with
  | None => (g, None)
  | Some root_id =>
      if String.eqb place (place_root place) then (g, Some root_id)
      else
        let id := graph_id "place" (show body_id +:+ ":" +:+ place) in
        if existsb (fun node => String.eqb (snode_id node) id) (sgraph_nodes g) then (g, Some id)
        else
          (push_edge (place_edge root_id id span provenance)
             (push_node (place_node id body_id place span provenance) g), Some id)
  end.

(** ** Access paths *)

(** [s.trim_start_matches(p)] for a non-empty string pattern. *)
Fixpoint trim_prefixes (fuel : nat) (p s : string) : string :=
  match fuel with
  | O => s
  | S fuel =>
      match strip_prefix p s with
      | Some rest => trim_prefixes fuel p rest
      | None => s
      end
  end.

Definition trim_start_str (p s : string) : string := trim_prefixes (String.length s) p s.

Definition access_step (kind : AccessKind.BorrowckAccessKind) (starting_type result_type : string)
    (mutability : AccessMutability.BorrowckAccessMutability)
    (explicitness : AccessExplicitness.BorrowckAccessExplicitness)
    (fallible may_panic requires_unsafe : bool) (explanation : string) :
    SerializedBorrowckAccessStep :=
  mk_sstep kind starting_type result_type mutability explicitness fallible may_panic
    requires_unsafe explanation Provenance.Derived.

(** The type reached first below the binding, as the layers name it. *)
Definition inner_type (binding : SerializedBorrowckOwnershipBinding) : string :=
  default "the inner value"
    (find_first (fun candidate => negb (String.eqb candidate (obinding_type_name binding)))
       (slayer_type_name <$> drop 1 (obinding_memory_layers binding))).

(** The purposes and steps pushed for a type; the first matching arm decides. *)
Definition access_plans (ty inner : string) : list (string * list SerializedBorrowckAccessStep) :=
  if starts_with "&mut " ty then
    [("mutate the referenced value",
      [access_step AccessKind.BuiltinDeref ty (trim_start_str "&mut " ty) AccessMutability.Mutable
         AccessExplicitness.Either false false false
         "A mutable reference provides exclusive access while its loan is live."])]
  else if starts_with "&" ty then
    [("read the referenced value",
      [access_step AccessKind.BuiltinDeref ty (trim_start_matches "&"%char ty)
         AccessMutability.Shared AccessExplicitness.Either false false false
         "A shared reference permits reads but not mutation through this path."])]
  else if starts_with "*mut " ty || starts_with "*const " ty then
    [("dereference the raw pointer",
      [access_step AccessKind.RawPointerDeref ty
         (match split_at_char (Ascii.eqb " "%char) ty with
          | Some (_, pointee) => pointee
          | None => "the pointee"
          end)
         (if starts_with "*mut " ty then AccessMutability.Mutable else AccessMutability.Shared)
         AccessExplicitness.Explicit false false true
         "The compiler cannot prove raw-pointer validity; dereferencing requires unsafe."])]
  else if contains "NonNull<" ty then
    [("dereference the non-null raw pointer",
      [access_step AccessKind.RawPointerDeref ty inner AccessMutability.Unknown
         AccessExplicitness.Explicit false false true
         "NonNull proves non-nullness, not validity, alignment, initialization, or alias safety."])]
  else if contains "RefMut<" ty || contains "MutexGuard<" ty || contains "RwLockWriteGuard<" ty then
    [("mutate through the live guard",
      [access_step AccessKind.GuardDeref ty inner AccessMutability.Mutable
         AccessExplicitness.Either false false false
         "Dropping the guard releases the runtime borrow or synchronization gate."])]
  else if contains "Ref<" ty || contains "RwLockReadGuard<" ty then
    [("read through the live guard",
      [access_step AccessKind.GuardDeref ty inner AccessMutability.Shared
         AccessExplicitness.Either false false false
         "Dropping the guard releases the runtime borrow or synchronization gate."])]
  else if (contains "Rc<" ty || contains "Arc<" ty) && contains "RefCell<" ty then
    [("mutate a shared value through runtime borrow checking",
      [access_step AccessKind.TraitDeref ty "RefCell<inner>" AccessMutability.Shared
         AccessExplicitness.Either false false false
         "The shared handle dereferences to the allocation without granting mutable access.";
       access_step AccessKind.WrapperBorrowMut "RefCell<inner>" inner AccessMutability.Mutable
         AccessExplicitness.Explicit false true false
         "borrow_mut() checks exclusivity at runtime and can panic on a conflict."])]
  else if (contains "Arc<" ty || contains "Rc<" ty)
          && (contains "Mutex<" ty || contains "RwLock<" ty) then
    [("reach a shared value through a synchronization guard",
      [access_step AccessKind.TraitDeref ty "synchronization wrapper" AccessMutability.Shared
         AccessExplicitness.Either false false false
         "The shared handle dereferences to the synchronization wrapper.";
       access_step AccessKind.LockAcquire "synchronization wrapper" "lock guard"
         AccessMutability.Mutable AccessExplicitness.Explicit true false false
         "Acquiring a lock can block and may report poisoning.";
       access_step AccessKind.GuardDeref "lock guard" inner AccessMutability.Mutable
         AccessExplicitness.Either false false false
         "The guard grants access until it is dropped."])]
  else if contains "RefCell<" ty && negb (contains "Weak<" ty) then
    [("read through runtime borrow checking",
      [access_step AccessKind.WrapperBorrow ty inner AccessMutability.Shared
         AccessExplicitness.Explicit false true false
         "borrow() creates a shared guard and panics if a mutable guard is active."]);
     ("mutate through runtime borrow checking",
      [access_step AccessKind.WrapperBorrowMut ty inner AccessMutability.Mutable
         AccessExplicitness.Explicit false true false
         "borrow_mut() creates an exclusive guard and panics if any guard is active."])]
  else if (contains "Mutex<" ty || contains "RwLock<" ty) && negb (contains "Weak<" ty) then
    let read_only := contains "RwLock<" ty in
    let mutability := if read_only then AccessMutability.Shared else AccessMutability.Mutable in
    [((if read_only then "read through a lock guard" else "mutate through a lock guard"),
      [access_step AccessKind.LockAcquire ty "lock guard" mutability
         AccessExplicitness.Explicit true false false
         "Lock acquisition can block and returns a Result because a lock may be poisoned.";
       access_step AccessKind.GuardDeref "lock guard" inner mutability
         AccessExplicitness.Either false false false
         "The guard controls how long access to the protected value remains active."])]
  else if contains "Weak<" ty then
    [("attempt to reach the shared allocation",
      [access_step AccessKind.WeakUpgrade ty "Option<shared handle>" AccessMutability.Shared
         AccessExplicitness.Explicit true false false
         "upgrade() is fallible because all strong owners may already be gone.";
       access_step AccessKind.OptionExtract "Option<shared handle>" inner AccessMutability.Shared
         AccessExplicitness.Explicit true false false
         "Handle the None case before accessing the value."])]
  else if contains "Pin<" ty then
    [("access through the pinned pointer",
      [access_step AccessKind.TraitDeref ty inner AccessMutability.Shared
         AccessExplicitness.Either false false false
         "Pin constrains movement of the pointee; it is not a separate storage region."])]
  else if contains "Option<" ty || contains "Result<" ty then
    [("extract the active value",
      [access_step
         (if contains "Option<" ty then AccessKind.OptionExtract else AccessKind.ResultExtract)
         ty inner AccessMutability.NotApplicable AccessExplicitness.Explicit true false false
         "The active runtime variant must be handled before the contained value is available."])]
  else if contains "Box<" ty then
    [("access the owned heap value",
      [access_step AccessKind.BuiltinDeref ty inner AccessMutability.Mutable
         AccessExplicitness.Either false false false
         "Box uniquely owns its allocation, so a mutable Box can provide mutable access."])]
  else if contains "Rc<" ty || contains "Arc<" ty then
    [("read the shared allocation",
      [access_step AccessKind.TraitDeref ty inner AccessMutability.Shared
         AccessExplicitness.Either false false false
         "Shared ownership provides shared dereference; mutation needs uniqueness or interior mutability."])]
  else [].

Definition access_paths_for_binding (binding : SerializedBorrowckOwnershipBinding)
    (node_id : string) : list SerializedBorrowckAccessPath :=
  (fun plan : string * list SerializedBorrowckAccessStep =>
     mk_spath
       (graph_id "access"
          (show (obinding_body_id binding) +:+ ":" +:+ node_id +:+ ":" +:+ plan.1))
       (obinding_body_id binding) node_id (binding_name binding) plan.1 plan.2
       Provenance.Derived)
  <$> access_plans (obinding_type_name binding) (inner_type binding).

(** ** Searches over the edges *)

(** [remove_duplicate_allocation]: the vector of duplicate nodes grows behind a
    cursor; [None] when the fuel runs out. *)
Definition push_children (nodes : list string) (children : list string) : list string :=
  foldl (fun nodes child => if one_of child nodes then nodes else nodes ++ [child]) nodes children.

Definition children_of (edges : list SerializedBorrowckMemoryEdge) (current : string) : list string :=
  sedge_target <$> retain (fun edge => String.eqb (sedge_source edge) current) edges.

Fixpoint duplicate_loop (fuel : nat) (edges : list SerializedBorrowckMemoryEdge) (cursor : nat)
    (duplicate_nodes : list string) : option (list string) :=
  match fuel with
  | O => None
  | S fuel =>
      match duplicate_nodes !! cursor with
      | None => Some duplicate_nodes
      | Some current =>
          duplicate_loop fuel edges (S cursor)
            (push_children duplicate_nodes (children_of edges current))
      end
  end.

Definition duplicate_fuel (edges : list SerializedBorrowckMemoryEdge) : nat := length edges + 2.

Definition duplicate_nodes (edges : list SerializedBorrowckMemoryEdge) (allocation : string) :
    list string :=
  default [] (duplicate_loop (duplicate_fuel edges) edges 0 [allocation]).

Definition remove_duplicate_allocation (g : SerializedBorrowckMemoryGraph) (allocation : string) :
    SerializedBorrowckMemoryGraph :=
  let duplicates := duplicate_nodes (sgraph_edges g) allocation in
  mk_sgraph
    (retain (fun node => negb (one_of (snode_id node) duplicates)) (sgraph_nodes g))
    (retain (fun edge => negb (one_of (sedge_source edge) duplicates)
                         && negb (one_of (sedge_target edge) duplicates)) (sgraph_edges g))
    (sgraph_snapshots g) (sgraph_access_paths g) (sgraph_truncated g).

Definition is_allocation_relation (relation : Relation.BorrowckGraphEdgeRelation) : bool :=
  match relation with
  | Relation.Owns | Relation.OwnsBuffer | Relation.SharesAllocation
  | Relation.WeakReference => true
  | _ => false
  end.

Definition is_inline_relation (relation : Relation.BorrowckGraphEdgeRelation) : bool :=
  match relation with
  | Relation.Contains | Relation.GuardsAccess | Relation.Stores | Relation.Wraps => true
  | _ => false
  end.

Definition AllocationLink : Type := string * string * Relation.BorrowckGraphEdgeRelation.

Definition edge_link (edge : SerializedBorrowckMemoryEdge) : AllocationLink :=
  (sedge_source edge, sedge_target edge, sedge_relation edge).

(** The inner [for] over the edges leaving one node: an early return, or the
    stack with the inline targets pushed (its head is the next to be popped). *)
Fixpoint follow_edges (edges : list SerializedBorrowckMemoryEdge) (pending : list string) :
    AllocationLink + list string :=
  match edges with
  | [] => inr pending
  | edge :: edges =>
      if is_allocation_relation (sedge_relation edge) then inl (edge_link edge)
      else if is_inline_relation (sedge_relation edge) then
        follow_edges edges (sedge_target edge :: pending)
      else follow_edges edges pending
  end.

Definition edges_from (edges : list SerializedBorrowckMemoryEdge) (source : string) :
    list SerializedBorrowckMemoryEdge :=
  retain (fun edge => String.eqb (sedge_source edge) source) edges.

Fixpoint link_loop (fuel : nat) (edges : list SerializedBorrowckMemoryEdge)
    (pending : list string) (visited : gset string) : option (option AllocationLink) :=
  match fuel with
  | O => None
  | S fuel =>
      match pending with
      | [] => Some None
      | source :: pending =>
          if bool_decide (source ∈ visited) then link_loop fuel edges pending visited
          else
            match follow_edges (edges_from edges source) pending with
            | inl link => Some (Some link)
            | inr pending => link_loop fuel edges pending ({[source]} ∪ visited)
            end
      end
  end.

Definition link_fuel (edges : list SerializedBorrowckMemoryEdge) : nat := length edges + 2.

Definition allocation_link_for_root (g : SerializedBorrowckMemoryGraph) (root : string) :
    option AllocationLink :=
  default None (link_loop (link_fuel (sgraph_edges g)) (sgraph_edges g) [root] ∅).

(** ** The source of a shared clone, read off the source line *)

(** The characters of a UTF-8 string: continuation bytes join the byte before. *)
Fixpoint chars (s : string) : list string :=
  match s with
  | EmptyString => []
  | String c rest =>
      match starts_char rest, chars rest with
      | false, ch :: more => String c ch :: more
      | _, more => String c EmptyString :: more
      end
  end.

Definition newline : string := String (ascii_of_N 10) EmptyString.

(** The text before and after the first occurrence of [sep]. *)
Fixpoint split_once_str (sep s : string) : option (string * string) :=
  match strip_prefix sep s with
  | Some after => Some (EmptyString, after)
  | None =>
      match s with
      | EmptyString => None
      | String c rest =>
          match split_once_str sep rest with
          | Some (before, after) => Some (String c before, after)
          | None => None
          end
      end
  end.

Definition is_ascii_alphanumeric (c : ascii) : bool :=
  let n := N_of_ascii c in
  ((48 <=? n) && (n <=? 57) || (65 <=? n) && (n <=? 90) || (97 <=? n) && (n <=? 122))%N.

(** The last character that breaks an identifier, with the characters after it. *)
Fixpoint last_break (ident : string -> bool) (cs : list string) : option string * list string :=
  match cs with
  | [] => (None, [])
  | c :: cs =>
      match last_break ident cs with
      | (Some b, suffix) => (Some b, suffix)
      | (None, suffix) => if ident c then (None, c :: suffix) else (Some c, suffix)
      end
  end.

Fixpoint take_while {A} (p : A -> bool) (l : list A) : list A :=
  match l with
  | [] => []
  | x :: l => if p x then x :: take_while p l else []
  end.

Section shared_clone.
Context (alphanumeric : string -> bool).

(** [character == '_' || character.is_alphanumeric()] *)
Definition ident_char (ch : string) : bool :=
  match ch with
  | String c EmptyString => Ascii.eqb c "_"%char || is_ascii_alphanumeric c
  | _ => alphanumeric ch
  end.

(** The identifier at the start of the text after a marker. *)
Definition leading_identifier (candidate : string) : option string :=
  match take_while ident_char (chars candidate) with
  | [] => None
  | identifier => Some (String.concat "" identifier)
  end.

(** The identifier at the end of the receiver.  The slice starts one byte after
    the character that precedes it, which panics inside a longer character. *)
Definition trailing_identifier (before : string) : result (option string) :=
  match last_break ident_char (chars before) with
  | (None, []) => Ok None
  | (None, identifier) => Ok (Some (String.concat "" identifier))
  | (Some ch, identifier) =>
      if (String.length ch =? 1)%nat then
        match identifier with
        | [] => Ok None
        | _ => Ok (Some (String.concat "" identifier))
        end
      else Err "byte index is not a char boundary"
  end.

Definition clone_receiver (line : string) : result (option string) :=
  match split_once_str "Rc::clone(&" line with
  | Some (_, candidate) => Ok (leading_identifier candidate)
  | None =>
      match split_once_str "Arc::clone(&" line with
      | Some (_, candidate) => Ok (leading_identifier candidate)
      | None =>
          match split_at_char (Ascii.eqb "="%char) line with
          | None => Ok None
          | Some (_, assignment) =>
              match split_once_str ".clone()" assignment with
              | None => Ok None
              | Some (before, _) => trailing_identifier (trim_end before)
              end
          end
      end
  end.

Definition line_at (source : string) (at_ : N) : result string :=
  halves ← split_str_at source at_;
  Ok (rsplit_next newline halves.1
      +:+ first_segment (Ascii.eqb (ascii_of_N 10)) halves.2).

Definition shared_clone_source (sources : list (PathBuf * SerializedBorrowckRepairSource))
    (destination : SerializedBorrowckOwnershipBinding) : result (option string) :=
  match btree_get (binding_path destination) sources ≫= ssource_source with
  | None => Ok None
  | Some source =>
      if (str_len source <? binding_start destination)%N then Ok None
      else line ← line_at source (binding_start destination); clone_receiver line
  end.

(** ** [build_ownership_memory_graph] *)

Definition binding_name_span (binding : SerializedBorrowckOwnershipBinding) :
    SerializedBorrowckSpan :=
  mk_sspan (binding_path binding) (binding_start binding)
    (binding_start binding + str_len (binding_name binding)).

Definition layer_id (binding_id : string) (index : N) (layer : SerializedBorrowckMemoryLayer) :
    string :=
  if (index =? 0)%N then binding_id
  else graph_id "node"
         (binding_id +:+ ":" +:+ MemoryKind.kind_debug (slayer_kind layer) +:+ ":"
          +:+ slayer_label layer +:+ ":" +:+ show index).

Definition layer_node (binding : SerializedBorrowckOwnershipBinding) (id : string) (index : N)
    (layer : SerializedBorrowckMemoryLayer) : SerializedBorrowckMemoryNode :=
  mk_snode id (obinding_body_id binding) (binding_name binding)
    (layer_node_kind (slayer_kind layer)) (graph_storage (slayer_storage layer))
    (slayer_label layer) (slayer_type_name layer) (slayer_size layer) (slayer_align layer)
    (Some (binding_name_span binding)) OwnershipState.Available (graph_provenance layer)
    "Source-level model; optimized machine placement may differ."
    ((12 <? len (obinding_memory_layers binding))%N && (index =? 11)%N).

Definition layer_edge (binding : SerializedBorrowckOwnershipBinding)
    (source : string * MemoryKind.BorrowckMemoryKind) (id : string)
    (layer : SerializedBorrowckMemoryLayer) : SerializedBorrowckMemoryEdge :=
  let relation := topology_relation source.2 (slayer_kind layer) in
  mk_sedge (graph_id "edge" (source.1 +:+ ":" +:+ Relation.relation_debug relation +:+ ":" +:+ id))
    source.1 id relation None None (Some (binding_name_span binding)) (graph_provenance layer) None.

Fixpoint add_layers (binding : SerializedBorrowckOwnershipBinding) (binding_id : string)
    (index : N) (previous : option (string * MemoryKind.BorrowckMemoryKind))
    (layers : list SerializedBorrowckMemoryLayer) (g : SerializedBorrowckMemoryGraph) :
    SerializedBorrowckMemoryGraph :=
  match layers with
  | [] => g
  | layer :: layers =>
      let id := layer_id binding_id index layer in
      let g := push_node (layer_node binding id index layer) g in
      let g :=
        match previous with
        | Some source => push_edge (layer_edge binding source id layer) g
        | None => g
        end in
      add_layers binding binding_id (index + 1) (Some (id, slayer_kind layer)) layers g
  end.

Definition initialize_snapshot (binding : SerializedBorrowckOwnershipBinding)
    (binding_id : string) : SerializedBorrowckOwnershipSnapshot :=
  let initialization_id := graph_id "initialize" binding_id in
  mk_ssnapshot (graph_id "snapshot" initialization_id) initialization_id
    (obinding_body_id binding) 0 0 SnapshotKind.Initialize (binding_name_span binding)
    (binding_name binding) None (Some "binding_initialization")
    [mk_sdelta binding_id None OwnershipState.Available None None] Provenance.Derived.

Definition add_binding (bindings : list SerializedBorrowckOwnershipBinding)
    (g : SerializedBorrowckMemoryGraph) (binding : SerializedBorrowckOwnershipBinding) :
    SerializedBorrowckMemoryGraph :=
  let binding_id := binding_node_id binding bindings in
  let g := add_layers binding binding_id 0 None (take_N 12 (obinding_memory_layers binding)) g in
  let g := or_truncated (12 <? len (obinding_memory_layers binding))%N g in
  let g := push_snapshot (initialize_snapshot binding binding_id) g in
  extend_access_paths (access_paths_for_binding binding binding_id) g.

Definition is_shared_relation (relation : Relation.BorrowckGraphEdgeRelation) : bool :=
  match relation with
  | Relation.SharesAllocation | Relation.WeakReference => true
  | _ => false
  end.

Definition derived_clone_id (source destination : SerializedBorrowckOwnershipBinding) : string :=
  graph_id "derived-clone"
    (show (obinding_body_id destination) +:+ ":" +:+ binding_path destination +:+ ":"
     +:+ binding_name source +:+ ":" +:+ binding_name destination).

Definition derived_clone_edge (source destination : SerializedBorrowckOwnershipBinding)
    (destination_handle source_allocation : string) (relation : Relation.BorrowckGraphEdgeRelation) :
    SerializedBorrowckMemoryEdge :=
  mk_sedge
    (graph_id "edge" (destination_handle +:+ ":" +:+ Relation.relation_debug relation +:+ ":"
                      +:+ source_allocation))
    destination_handle source_allocation relation (Some (derived_clone_id source destination)) None
    (Some (binding_name_span destination)) Provenance.Derived (Some "source_expression").

Definition derived_clone_snapshot (source destination : SerializedBorrowckOwnershipBinding)
    (destination_root : string) (relation : Relation.BorrowckGraphEdgeRelation) :
    SerializedBorrowckOwnershipSnapshot :=
  let event_id := derived_clone_id source destination in
  mk_ssnapshot (graph_id "snapshot" event_id) event_id (obinding_body_id destination) 0 0
    SnapshotKind.Clone (binding_name_span destination) (binding_name source) None
    (Some "source_expression")
    [mk_sdelta destination_root None OwnershipState.Available (Some relation) None]
    Provenance.Derived.

(** The body of the second loop once the source binding is known. *)
Definition link_clone (bindings : list SerializedBorrowckOwnershipBinding)
    (source destination : SerializedBorrowckOwnershipBinding) (g : SerializedBorrowckMemoryGraph) :
    SerializedBorrowckMemoryGraph :=
  let source_root := binding_node_id source bindings in
  let destination_root := binding_node_id destination bindings in
  match allocation_link_for_root g source_root with
  | None => g
  | Some (_, source_allocation, relation) =>
      if negb (is_shared_relation relation) then g
      else
        match allocation_link_for_root g destination_root with
        | None => g
        | Some (destination_handle, destination_allocation, _) =>
            let g := remove_duplicate_allocation g destination_allocation in
            let g :=
              push_edge (derived_clone_edge source destination destination_handle
                           source_allocation relation) g in
            push_snapshot (derived_clone_snapshot source destination destination_root relation) g
        end
  end.

Definition add_derived_clone (sources : list (PathBuf * SerializedBorrowckRepairSource))
    (bindings : list SerializedBorrowckOwnershipBinding) (g : SerializedBorrowckMemoryGraph)
    (destination : SerializedBorrowckOwnershipBinding) : result SerializedBorrowckMemoryGraph :=
  source_name ← shared_clone_source sources destination;
  match source_name with
  | None => Ok g
  | Some source_name =>
      match find_first (fun source =>
              (obinding_body_id source =? obinding_body_id destination)%N
              && String.eqb (binding_name source) source_name) bindings with
      | None => Ok g
      | Some source => Ok (link_clone bindings source destination g)
      end
  end.

(** [for x in l] with a panic possible in the body. *)
Fixpoint fold_result {A B} (f : B -> A -> result B) (acc : B) (l : list A) : result B :=
  match l with
  | [] => Ok acc
  | x :: l => acc ← f acc x; fold_result f acc l
  end.

Definition loan_relation (kind : LoanKind.BorrowckLoanKind) : Relation.BorrowckGraphEdgeRelation :=
  match kind with
  | LoanKind.Mutable => Relation.BorrowMutable
  | LoanKind.Shared => Relation.BorrowShared
  end.

Definition loan_state (kind : LoanKind.BorrowckLoanKind) : OwnershipState.BorrowckOwnershipState :=
  match kind with
  | LoanKind.Mutable => OwnershipState.MutablyBorrowed
  | LoanKind.Shared => OwnershipState.SharedBorrowed
  end.

Definition loan_view_id (loan : SerializedBorrowckOwnershipLoan) : string :=
  graph_id "node"
    (show (oloan_body_id loan) +:+ ":" +:+ oloan_place loan +:+ ":loan:" +:+ show (oloan_loan_id loan)).

Definition loan_view (loan : SerializedBorrowckOwnershipLoan) : SerializedBorrowckMemoryNode :=
  mk_snode (loan_view_id loan) (oloan_body_id loan) (oloan_place loan) NodeKind.BorrowedView
    StorageRegion.Conceptual
    (match oloan_kind loan with
     | LoanKind.Mutable => "exclusive borrowed view"
     | LoanKind.Shared => "shared borrowed view"
     end)
    "borrowed view" None None (Some (opoint_span (oloan_reserve loan)))
    (loan_state (oloan_kind loan)) Provenance.Exact
    "A MIR loan, not a claim that a separate runtime allocation exists." (oloan_truncated loan).

Definition loan_edge (loan : SerializedBorrowckOwnershipLoan) (root_id : string) :
    SerializedBorrowckMemoryEdge :=
  let relation := loan_relation (oloan_kind loan) in
  let view_id := loan_view_id loan in
  mk_sedge
    (graph_id "edge" (root_id +:+ ":" +:+ Relation.relation_debug relation +:+ ":" +:+ view_id
                      +:+ ":" +:+ show (oloan_loan_id loan)))
    view_id root_id relation None (Some (oloan_loan_id loan))
    (Some (opoint_span (oloan_reserve loan))) Provenance.Exact
    (Some ("bb" +:+ show (opoint_basic_block (oloan_reserve loan)))).

Definition add_loan (bindings : list SerializedBorrowckOwnershipBinding)
    (g : SerializedBorrowckMemoryGraph) (loan : SerializedBorrowckOwnershipLoan) :
    SerializedBorrowckMemoryGraph :=
  match ensure_place_node g bindings (oloan_body_id loan) (oloan_place loan)
          (Some (opoint_span (oloan_reserve loan))) Provenance.Exact with
  | (g, None) => g
  | (g, Some root_id) => push_edge (loan_edge loan root_id) (push_node (loan_view loan) g)
  end.

(** *** Events *)

Definition event_span (event : SerializedBorrowckOwnershipEvent) : SerializedBorrowckSpan :=
  mk_sspan (oevent_path event) (oevent_byte_start event) (oevent_byte_end event).

Definition event_marker (event : SerializedBorrowckOwnershipEvent) : string :=
  "bb" +:+ show (oevent_basic_block event).

Definition event_relation (kind : EventKind.BorrowckOwnershipEventKind) :
    option Relation.BorrowckGraphEdgeRelation :=
  match kind with
  | EventKind.Move | EventKind.PartialMove => Some Relation.MovedTo
  | EventKind.BorrowMutable => Some Relation.BorrowMutable
  | EventKind.BorrowShared => Some Relation.BorrowShared
  | EventKind.Clone => Some Relation.SharesAllocation
  | _ => None
  end.

Definition event_edge (event : SerializedBorrowckOwnershipEvent) (identity source target : string)
    (relation : Relation.BorrowckGraphEdgeRelation) : SerializedBorrowckMemoryEdge :=
  mk_sedge (graph_id "edge" identity) source target relation (Some (oevent_event_id event))
    (oevent_loan_id event) (Some (event_span event)) Provenance.Exact (Some (event_marker event)).

Definition allocation_identity (event : SerializedBorrowckOwnershipEvent)
    (relation : Relation.BorrowckGraphEdgeRelation) (allocation : string) : string :=
  oevent_event_id event +:+ ":" +:+ Relation.relation_debug relation +:+ ":" +:+ allocation.

(** The place an event's destination names, as a node of the graph. *)
Definition ensure_destination (bindings : list SerializedBorrowckOwnershipBinding)
    (event : SerializedBorrowckOwnershipEvent) (g : SerializedBorrowckMemoryGraph) :
    SerializedBorrowckMemoryGraph * option string :=
  match oevent_destination event with
  | None => (g, None)
  | Some destination =>
      match odestination_place destination with
      | None => (g, None)
      | Some place =>
          ensure_place_node g bindings (oevent_body_id event) place (odestination_span destination)
            Provenance.Exact
      end
  end.

(** A whole move hands the allocation over: the destination's own picture of it
    is removed and its handle is linked to the source's allocation. *)
Definition move_allocation (event : SerializedBorrowckOwnershipEvent) (node_id target : string)
    (g : SerializedBorrowckMemoryGraph) :
    SerializedBorrowckMemoryGraph * list SerializedBorrowckStateDelta :=
  match allocation_link_for_root g node_id with
  | None => (g, [])
  | Some (source_handle, source_allocation, relation) =>
      match allocation_link_for_root g target with
      | None => (g, [])
      | Some (destination_handle, duplicate_allocation, _) =>
          (push_edge
             (event_edge event (allocation_identity event relation source_allocation)
                destination_handle source_allocation relation)
             (remove_duplicate_allocation g duplicate_allocation),
           [mk_sdelta source_handle None OwnershipState.Moved None (Some relation)])
      end
  end.

Definition add_move (bindings : list SerializedBorrowckOwnershipBinding)
    (event : SerializedBorrowckOwnershipEvent) (node_id : string)
    (g : SerializedBorrowckMemoryGraph) :
    SerializedBorrowckMemoryGraph * list SerializedBorrowckStateDelta :=
  match oevent_kind event with
  | EventKind.Move | EventKind.PartialMove =>
      match ensure_destination bindings event g with
      | (g, None) => (g, [])
      | (g, Some target) =>
          let g :=
            push_edge
              (event_edge event (oevent_event_id event +:+ ":moved_to:" +:+ target) node_id target
                 Relation.MovedTo) g in
          if bool_decide (oevent_kind event = EventKind.Move) then
            move_allocation event node_id target g
          else (g, [])
      end
  | _ => (g, [])
  end.

Definition add_clone (bindings : list SerializedBorrowckOwnershipBinding)
    (event : SerializedBorrowckOwnershipEvent) (node_id : string)
    (g : SerializedBorrowckMemoryGraph) : SerializedBorrowckMemoryGraph :=
  if negb (bool_decide (oevent_kind event = EventKind.Clone)) then g
  else
    match ensure_destination bindings event g with
    | (g, None) => g
    | (g, Some destination_root) =>
        match allocation_link_for_root g node_id with
        | None => g
        | Some (_, source_allocation, relation) =>
            if negb (is_shared_relation relation) then g
            else
              match allocation_link_for_root g destination_root with
              | None => g
              | Some (destination_handle, duplicate_allocation, _) =>
                  push_edge
                    (event_edge event (allocation_identity event relation source_allocation)
                       destination_handle source_allocation relation)
                    (remove_duplicate_allocation g duplicate_allocation)
              end
        end
    end.

Definition event_delta (event : SerializedBorrowckOwnershipEvent) (node_id : string) :
    SerializedBorrowckStateDelta :=
  mk_sdelta node_id None (oevent_state event) (event_relation (oevent_kind event))
    (if bool_decide (oevent_kind event = EventKind.BorrowEnd) then Some Relation.BorrowShared
     else None).

Definition event_snapshot (event : SerializedBorrowckOwnershipEvent)
    (deltas : list SerializedBorrowckStateDelta) : SerializedBorrowckOwnershipSnapshot :=
  mk_ssnapshot (graph_id "snapshot" (oevent_event_id event)) (oevent_event_id event)
    (oevent_body_id event) (oevent_basic_block event) (oevent_statement_index event)
    (snapshot_kind (oevent_kind event)) (event_span event) (oevent_place event)
    (oevent_loan_id event) (Some (event_marker event)) deltas Provenance.Exact.

Definition add_event (bindings : list SerializedBorrowckOwnershipBinding)
    (g : SerializedBorrowckMemoryGraph) (event : SerializedBorrowckOwnershipEvent) :
    SerializedBorrowckMemoryGraph :=
  match ensure_place_node g bindings (oevent_body_id event) (oevent_place event)
          (Some (event_span event)) Provenance.Exact with
  | (g, None) => g
  | (g, Some node_id) =>
      let '(g, additional_deltas) := add_move bindings event node_id g in
      let g := add_clone bindings event node_id g in
      push_snapshot (event_snapshot event (event_delta event node_id :: additional_deltas)) g
  end.

(** *** Sorting, limits *)

Definition MAX_GRAPH_NODES : N := 512.
Definition MAX_GRAPH_EDGES : N := 1024.
Definition MAX_GRAPH_SNAPSHOTS : N := 1024.
Definition MAX_GRAPH_ACCESS_PATHS : N := 256.

Definition snapshot_key (snapshot : SerializedBorrowckOwnershipSnapshot) : N * (N * (N * string)) :=
  (ssnapshot_body_id snapshot,
   (ssnapshot_basic_block snapshot, (ssnapshot_statement_index snapshot, ssnapshot_id snapshot))).

Definition snapshot_key_leb : N * (N * (N * string)) -> N * (N * (N * string)) -> bool :=
  lex_leb N.compare (lex_leb N.compare (lex_leb N.compare String.leb)).

Definition order_nodes (nodes : list SerializedBorrowckMemoryNode) :
    list SerializedBorrowckMemoryNode :=
  dedup_by (fun a b => String.eqb (snode_id a) (snode_id b)) (sort_by (on snode_id String.leb) nodes).

Definition order_edges (edges : list SerializedBorrowckMemoryEdge) :
    list SerializedBorrowckMemoryEdge :=
  dedup_by (fun a b => String.eqb (sedge_id a) (sedge_id b)) (sort_by (on sedge_id String.leb) edges).

Definition edge_retained (retained_nodes : gset string) (edge : SerializedBorrowckMemoryEdge) :
    bool :=
  bool_decide (sedge_source edge ∈ retained_nodes)
  && bool_decide (sedge_target edge ∈ retained_nodes).

Definition finish_graph (g : SerializedBorrowckMemoryGraph) : SerializedBorrowckMemoryGraph :=
  let nodes := order_nodes (sgraph_nodes g) in
  let edges := order_edges (sgraph_edges g) in
  let snapshots := sort_by (on snapshot_key snapshot_key_leb) (sgraph_snapshots g) in
  let access_paths := sort_by (on spath_id String.leb) (sgraph_access_paths g) in
  let truncated :=
    sgraph_truncated g
    || ((MAX_GRAPH_NODES <? len nodes) || (MAX_GRAPH_EDGES <? len edges)
        || (MAX_GRAPH_SNAPSHOTS <? len snapshots)
        || (MAX_GRAPH_ACCESS_PATHS <? len access_paths))%N in
  let nodes := truncate MAX_GRAPH_NODES nodes in
  let retained_nodes := list_to_set (snode_id <$> nodes) in
  let edges := retain (edge_retained retained_nodes) edges in
  mk_sgraph nodes (truncate MAX_GRAPH_EDGES edges) (truncate MAX_GRAPH_SNAPSHOTS snapshots)
    (truncate MAX_GRAPH_ACCESS_PATHS access_paths) truncated.

Definition build_ownership_memory_graph
    (sources : list (PathBuf * SerializedBorrowckRepairSource))
    (bindings : list SerializedBorrowckOwnershipBinding)
    (events : list SerializedBorrowckOwnershipEvent)
    (loans : list SerializedBorrowckOwnershipLoan) : result SerializedBorrowckMemoryGraph :=
  let g := foldl (add_binding bindings) empty_graph bindings in
  g ← fold_result (add_derived_clone sources bindings) g bindings;
  let g := foldl (add_loan bindings) g loans in
  let g := foldl (add_event bindings) g events in
  Ok (finish_graph g).
End shared_clone.
