(* ===== verification/MemoryGraphSpec.v ===== *)
(** * Properties of the compiler's memory graph

    The two searches over edges terminate and compute what they are meant to
    (reachability, the nearest allocation link); every finished graph respects
    its limits, has unique ids, has no dangling edge and says when it dropped
    something; access paths are chains of types; and the graph of a crate can
    be built whatever its bindings, as long as its sources are ASCII. *)

From Stdlib Require Import Ascii String.
From S2P Require Import Prelude RustStr RustColl RustPath Fnv CompilerData MemoryGraph.
From stdpp Require Import relations options.

(** ** [remove_duplicate_allocation]: everything reachable goes *)

Definition edge_step (edges : list SerializedBorrowckMemoryEdge) (a b : string) : Prop :=
  exists edge, edge ∈ edges /\ sedge_source edge = a /\ sedge_target edge = b.

Lemma elem_of_children edges a b : b ∈ children_of edges a <-> edge_step edges a b.
Proof.
  unfold children_of, edge_step. rewrite list_elem_of_fmap. setoid_rewrite elem_of_retain.
  setoid_rewrite String.eqb_eq. naive_solver.
Qed.

Lemma push_children_elem nodes children x :
  x ∈ push_children nodes children <-> x ∈ nodes \/ x ∈ children.
Proof.
  unfold push_children. revert nodes. induction children as [|c children IH]; intros nodes; simpl.
  { set_solver. }
  rewrite IH. destruct (one_of c nodes) eqn:Hc; [apply one_of_spec in Hc|]; set_solver.
Qed.

Lemma push_children_prefix nodes children : nodes `prefix_of` push_children nodes children.
Proof.
  unfold push_children. revert nodes. induction children as [|c children IH]; intros nodes; simpl;
    [done|]. etrans; [|apply IH]. destruct (one_of c nodes); [done|]. by apply prefix_app_r.
Qed.

Lemma push_children_NoDup nodes children : NoDup nodes -> NoDup (push_children nodes children).
Proof.
  unfold push_children. revert nodes. induction children as [|c children IH]; intros nodes Hn; simpl;
    [done|]. apply IH. destruct (one_of c nodes) eqn:Hc; [done|].
  apply NoDup_app. split_and!; [done| |apply NoDup_singleton].
  intros x Hx ->%list_elem_of_singleton. apply one_of_spec in Hx. congruence.
Qed.

(** The vector behind the cursor is closed under edges; all of it is reachable. *)
Record duplicate_inv (edges : list SerializedBorrowckMemoryEdge) (root : string) (cursor : nat)
    (nodes : list string) : Prop := {
  dup_nodup : NoDup nodes;
  dup_root : root ∈ nodes;
  dup_reach : forall x, x ∈ nodes -> rtc (edge_step edges) root x;
  dup_closed : forall i x y, i < cursor -> nodes !! i = Some x -> edge_step edges x y -> y ∈ nodes
}.

Lemma duplicate_inv_step edges root cursor nodes current :
  duplicate_inv edges root cursor nodes -> nodes !! cursor = Some current ->
  duplicate_inv edges root (S cursor) (push_children nodes (children_of edges current)).
Proof.
  intros [Hnd Hroot Hreach Hclosed] Hcur. split.
  - by apply push_children_NoDup.
  - apply push_children_elem. auto.
  - intros x [Hx|Hx%elem_of_children]%push_children_elem; [auto|].
    eapply rtc_r; [|exact Hx]. by apply Hreach, list_elem_of_lookup_2 with cursor.
  - intros i x y Hi Hx Hxy. apply push_children_elem.
    assert (nodes !! i = Some x) as Hx'.
    { destruct (push_children_prefix nodes (children_of edges current)) as [more Hmore].
      rewrite Hmore, lookup_app_l in Hx; [done|]. apply lookup_lt_Some in Hcur. lia. }
    destruct (decide (i = cursor)) as [->|Hne].
    + right. apply elem_of_children. by simplify_eq.
    + left. eapply Hclosed; [|done..]. lia.
Qed.

Lemma duplicate_inv_bound edges root cursor nodes :
  duplicate_inv edges root cursor nodes -> length nodes <= S (length edges).
Proof.
  intros [Hnd _ Hreach _].
  rewrite <- (length_fmap sedge_target edges).
  apply (submseteq_length nodes (root :: (sedge_target <$> edges))), NoDup_submseteq; [done|].
  intros x Hx. rewrite elem_of_cons. destruct (rtc_inv_r _ _ (Hreach x Hx)) as [->|(y & _ & Hy)];
    [auto|]. destruct Hy as (edge & Hin & _ & <-). right. by apply list_elem_of_fmap_2.
Qed.

Lemma duplicate_loop_spec fuel edges root cursor nodes :
  duplicate_inv edges root cursor nodes -> cursor <= length nodes ->
  length edges + 1 < fuel + cursor ->
  exists r, duplicate_loop fuel edges cursor nodes = Some r /\
    forall x, x ∈ r <-> rtc (edge_step edges) root x.
Proof.
  revert cursor nodes. induction fuel as [|fuel IH]; intros cursor nodes Hinv Hcur Hfuel.
  { apply duplicate_inv_bound in Hinv. lia. }
  simpl. destruct (nodes !! cursor) as [current|] eqn:Hlook.
  - apply IH.
    + by apply duplicate_inv_step.
    + apply lookup_lt_Some in Hlook.
      destruct (push_children_prefix nodes (children_of edges current)) as [more ->].
      rewrite length_app. lia.
    + lia.
  - exists nodes. split; [done|]. intros x. split; [apply Hinv|].
    apply lookup_ge_None in Hlook. intros Hx.
    revert x Hx. apply rtc_ind_r; [apply Hinv|]. intros y z _ Hyz Hy.
    apply list_elem_of_lookup in Hy as [i Hi].
    eapply (dup_closed _ _ _ _ Hinv i); [|done..]. apply lookup_lt_Some in Hi. lia.
Qed.

Lemma duplicate_nodes_spec edges allocation x :
  x ∈ duplicate_nodes edges allocation <-> rtc (edge_step edges) allocation x.
Proof.
  unfold duplicate_nodes, duplicate_fuel.
  destruct (duplicate_loop_spec (length edges + 2) edges allocation 0 [allocation])
    as (r & -> & Hr); [|simpl; lia|lia|done].
  split; [apply NoDup_singleton|set_solver| |lia].
  by intros x' ->%list_elem_of_singleton.
Qed.

Lemma removed_nodes g allocation node :
  node ∈ sgraph_nodes (remove_duplicate_allocation g allocation) <->
  node ∈ sgraph_nodes g /\ ~ rtc (edge_step (sgraph_edges g)) allocation (snode_id node).
Proof.
  simpl. rewrite elem_of_retain, negb_true_iff, <- not_true_iff_false, one_of_spec.
  rewrite duplicate_nodes_spec. tauto.
Qed.

(** Removing the destination's own picture of an allocation removes the nodes
    reachable from it and every edge that touches one of them, and nothing else;
    the worklist loop reaches its end within the fuel. *)
Theorem duplicate_allocation_removed g allocation :
  let removed := rtc (edge_step (sgraph_edges g)) allocation in
  let g' := remove_duplicate_allocation g allocation in
  is_Some (duplicate_loop (duplicate_fuel (sgraph_edges g)) (sgraph_edges g) 0 [allocation]) /\
  (forall node, node ∈ sgraph_nodes g' <-> node ∈ sgraph_nodes g /\ ~ removed (snode_id node)) /\
  (forall edge, edge ∈ sgraph_edges g' <->
     edge ∈ sgraph_edges g /\ ~ removed (sedge_source edge) /\ ~ removed (sedge_target edge)) /\
  sgraph_snapshots g' = sgraph_snapshots g /\ sgraph_access_paths g' = sgraph_access_paths g.
Proof.
  intros removed g'. split_and!; [| | |done|done].
  - destruct (duplicate_loop_spec (duplicate_fuel (sgraph_edges g)) (sgraph_edges g) allocation 0
      [allocation]) as (r & -> & _); [|simpl; lia|unfold duplicate_fuel; lia|done].
    split; [apply NoDup_singleton|set_solver| |lia].
    by intros x' ->%list_elem_of_singleton.
  - apply removed_nodes.
  - intros edge. simpl. rewrite elem_of_retain, andb_true_iff, !negb_true_iff.
    rewrite <- !not_true_iff_false, !one_of_spec, !duplicate_nodes_spec. tauto.
Qed.

(** ** [allocation_link_for_root]: the allocation a handle leads to *)

Definition inline_step (edges : list SerializedBorrowckMemoryEdge) (a b : string) : Prop :=
  exists edge, edge ∈ edges /\ sedge_source edge = a /\ sedge_target edge = b /\
    is_inline_relation (sedge_relation edge) = true.

(** An allocation link that starts at a node reached from [root] without
    leaving the value. *)
Definition allocation_reached (edges : list SerializedBorrowckMemoryEdge) (root : string)
    (link : AllocationLink) : Prop :=
  exists edge, edge ∈ edges /\ edge_link edge = link /\
    is_allocation_relation (sedge_relation edge) = true /\
    rtc (inline_step edges) root (sedge_source edge).

Lemma elem_of_edges_from edges source edge :
  edge ∈ edges_from edges source <-> edge ∈ edges /\ sedge_source edge = source.
Proof. unfold edges_from. rewrite elem_of_retain, String.eqb_eq. tauto. Qed.

Lemma follow_edges_inl edges pending link :
  follow_edges edges pending = inl link ->
  exists edge, edge ∈ edges /\ edge_link edge = link /\
    is_allocation_relation (sedge_relation edge) = true.
Proof.
  revert pending. induction edges as [|edge edges IH]; intros pending; simpl; [done|].
  destruct (is_allocation_relation (sedge_relation edge)) eqn:Ha.
  { intros [= <-]. exists edge. set_solver. }
  destruct (is_inline_relation (sedge_relation edge)); intros H;
    destruct (IH _ H) as (e & ? & ? & ?); exists e; set_solver.
Qed.

Lemma follow_edges_inr edges pending pending' :
  follow_edges edges pending = inr pending' ->
  (forall edge, edge ∈ edges -> is_allocation_relation (sedge_relation edge) = false) /\
  (forall x, x ∈ pending' <-> x ∈ pending \/ exists edge, edge ∈ edges /\
     sedge_target edge = x /\ is_inline_relation (sedge_relation edge) = true) /\
  length pending' <= length edges + length pending.
Proof.
  revert pending. induction edges as [|edge edges IH]; intros pending; simpl.
  { intros [= <-]. split_and!; [set_solver| |lia]. set_solver. }
  destruct (is_allocation_relation (sedge_relation edge)) eqn:Ha; [done|].
  destruct (is_inline_relation (sedge_relation edge)) eqn:Hi; intros H;
    destruct (IH _ H) as (Hno & Hin & Hlen); simpl in Hlen; (split_and!; [| |lia]).
  - intros e [->|He]%elem_of_cons; auto.
  - intros x. rewrite Hin, elem_of_cons. setoid_rewrite elem_of_cons. naive_solver.
  - intros e [->|He]%elem_of_cons; auto.
  - intros x. rewrite Hin. setoid_rewrite elem_of_cons. naive_solver congruence.
Qed.

Record link_inv (edges : list SerializedBorrowckMemoryEdge) (root : string)
    (pending : list string) (visited : gset string) : Prop := {
  link_root : root ∈ pending \/ root ∈ visited;
  link_reach : forall x, x ∈ pending -> rtc (inline_step edges) root x;
  link_closed : forall x y, x ∈ visited -> inline_step edges x y -> y ∈ pending \/ y ∈ visited;
  link_none : forall edge, edge ∈ edges -> sedge_source edge ∈ visited ->
    is_allocation_relation (sedge_relation edge) = false
}.

Lemma link_inv_done edges root visited link :
  link_inv edges root [] visited -> ~ allocation_reached edges root link.
Proof.
  intros [Hroot _ Hclosed Hnone] (edge & Hin & _ & Halloc & Hpath).
  rewrite (Hnone edge Hin) in Halloc; [done|].
  assert (root ∈ visited) as Hv by set_solver. clear Hroot Hin Halloc.
  induction Hpath as [|a b c Hab _ IH]; [done|]. apply IH. destruct (Hclosed a b Hv Hab); set_solver.
Qed.

Lemma link_inv_skip edges root source pending visited :
  source ∈ visited -> link_inv edges root (source :: pending) visited ->
  link_inv edges root pending visited.
Proof.
  intros Hs [Hroot Hreach Hclosed Hnone]. split; [set_solver|set_solver| |done].
  intros x y Hx Hxy. destruct (Hclosed x y Hx Hxy) as [H|H]; set_solver.
Qed.

Lemma link_inv_visit edges root source pending pending' visited :
  link_inv edges root (source :: pending) visited ->
  follow_edges (edges_from edges source) pending = inr pending' ->
  link_inv edges root pending' ({[source]} ∪ visited).
Proof.
  intros [Hroot Hreach Hclosed Hnone] (Hno & Hin & _)%follow_edges_inr.
  split.
  - setoid_rewrite Hin. set_solver.
  - intros x [Hx|(edge & [He Hs]%elem_of_edges_from & Ht & Hi)]%Hin; [set_solver|].
    eapply rtc_r; [apply (Hreach source); set_solver|]. exists edge. auto.
  - intros x y [->%elem_of_singleton|Hx]%elem_of_union Hxy.
    + left. apply Hin. right. destruct Hxy as (edge & He & Hs & Ht & Hi). exists edge.
      rewrite elem_of_edges_from. auto.
    + rewrite Hin. destruct (Hclosed x y Hx Hxy); set_solver.
  - intros edge He [Hs%elem_of_singleton|Hs]%elem_of_union; [|auto].
    apply Hno, elem_of_edges_from. auto.
Qed.

(** Edges whose source the search has still to visit. *)
Definition open_edges (edges : list SerializedBorrowckMemoryEdge) (visited : gset string) : nat :=
  length (retain (fun edge => negb (bool_decide (sedge_source edge ∈ visited))) edges).

Lemma open_edges_visit edges source visited :
  source ∉ visited ->
  open_edges edges ({[source]} ∪ visited) + length (edges_from edges source)
  = open_edges edges visited.
Proof.
  intros Hs. unfold open_edges, edges_from, retain.
  induction edges as [|edge edges IH]; [done|]. simpl.
  destruct (String.eqb_spec (sedge_source edge) source) as [He|He].
  - rewrite (bool_decide_eq_true_2 (_ ∈ {[source]} ∪ visited)) by set_solver.
    rewrite (bool_decide_eq_false_2 (_ ∈ visited)) by congruence. simpl. lia.
  - rewrite (bool_decide_ext (_ ∈ {[source]} ∪ visited) (sedge_source edge ∈ visited))
      by set_solver.
    case_bool_decide; simpl; lia.
Qed.

Lemma link_loop_spec fuel edges root pending visited :
  link_inv edges root pending visited ->
  length pending + open_edges edges visited < fuel ->
  exists r, link_loop fuel edges pending visited = Some r /\
    match r with
    | Some link => allocation_reached edges root link
    | None => forall link, ~ allocation_reached edges root link
    end.
Proof.
  revert pending visited. induction fuel as [|fuel IH]; intros pending visited Hinv Hfuel; [lia|].
  simpl. destruct pending as [|source pending].
  { exists None. split; [done|]. intros link. by eapply link_inv_done. }
  simpl in Hfuel. case_bool_decide as Hv.
  { apply IH; [by eapply link_inv_skip|lia]. }
  destruct (follow_edges _ _) as [link|pending'] eqn:Hf.
  - exists (Some link). split; [done|].
    apply follow_edges_inl in Hf as (edge & [He Hs]%elem_of_edges_from & Hl & Ha).
    exists edge. split_and!; [done..|]. rewrite Hs. apply (link_reach _ _ _ _ Hinv). set_solver.
  - apply IH; [by eapply link_inv_visit|].
    apply follow_edges_inr in Hf as (_ & _ & Hlen).
    pose proof (open_edges_visit edges source visited Hv). lia.
Qed.

Lemma link_search_spec g root :
  exists r,
    link_loop (link_fuel (sgraph_edges g)) (sgraph_edges g) [root] ∅ = Some r /\
    match r with
    | Some link => allocation_reached (sgraph_edges g) root link
    | None => forall link, ~ allocation_reached (sgraph_edges g) root link
    end.
Proof.
  apply link_loop_spec.
  - split; [set_solver| |set_solver|set_solver]. by intros x ->%list_elem_of_singleton.
  - assert (open_edges (sgraph_edges g) ∅ <= length (sgraph_edges g)) by apply retain_length.
    unfold link_fuel. cbn [length]. lia.
Qed.

Lemma allocation_link_sound g root link :
  allocation_link_for_root g root = Some link -> allocation_reached (sgraph_edges g) root link.
Proof.
  destruct (link_search_spec g root) as (r & Hr & Hspec).
  unfold allocation_link_for_root. rewrite Hr. simpl. by intros ->.
Qed.

(** C33: The search for the allocation behind a binding ends within its fuel, finds
    a link exactly when an allocation edge can be reached by staying inside the
    value, and answers with such an edge. *)
Theorem allocation_link_correct g root :
  is_Some (link_loop (link_fuel (sgraph_edges g)) (sgraph_edges g) [root] ∅) /\
  (forall link, allocation_link_for_root g root = Some link ->
     allocation_reached (sgraph_edges g) root link) /\
  (allocation_link_for_root g root = None <->
     forall link, ~ allocation_reached (sgraph_edges g) root link).
Proof.
  destruct (link_search_spec g root) as (r & Hr & Hspec).
  unfold allocation_link_for_root. rewrite Hr. simpl.
  split_and!; [done|by intros link ->|]. destruct r as [link|]; naive_solver.
Qed.

(** ** The finished graph *)

Definition node_ids (g : SerializedBorrowckMemoryGraph) : list string := snode_id <$> sgraph_nodes g.

Record graph_wf (g : SerializedBorrowckMemoryGraph) : Prop := {
  wf_nodes : (len (sgraph_nodes g) <= MAX_GRAPH_NODES)%N;
  wf_edges : (len (sgraph_edges g) <= MAX_GRAPH_EDGES)%N;
  wf_snapshots : (len (sgraph_snapshots g) <= MAX_GRAPH_SNAPSHOTS)%N;
  wf_access_paths : (len (sgraph_access_paths g) <= MAX_GRAPH_ACCESS_PATHS)%N;
  wf_node_ids : NoDup (node_ids g);
  wf_edge_ids : NoDup (sedge_id <$> sgraph_edges g);
  wf_no_dangling : forall edge, edge ∈ sgraph_edges g ->
    sedge_source edge ∈ node_ids g /\ sedge_target edge ∈ node_ids g;
  wf_nodes_sorted : StronglySorted (fun a b => String.leb (snode_id a) (snode_id b) = true)
    (sgraph_nodes g);
  wf_snapshots_sorted :
    StronglySorted (fun a b => snapshot_key_leb (snapshot_key a) (snapshot_key b) = true)
      (sgraph_snapshots g);
  wf_edges_sorted : StronglySorted (fun a b => String.leb (sedge_id a) (sedge_id b) = true)
    (sgraph_edges g);
  wf_access_paths_sorted : StronglySorted (fun a b => String.leb (spath_id a) (spath_id b) = true)
    (sgraph_access_paths g)
}.

Lemma StronglySorted_sublist {A} (R : A -> A -> Prop) l k :
  l `sublist_of` k -> StronglySorted R k -> StronglySorted R l.
Proof.
  induction 1 as [|x l k Hl IH|x l k Hl IH]; intros Hs; [done| |].
  - apply StronglySorted_inv in Hs as [Hs Hx]. constructor; [auto|].
    rewrite Forall_forall in Hx |- *. intros y Hy. apply Hx. by eapply elem_of_sublist.
  - apply StronglySorted_inv in Hs as [Hs _]. auto.
Qed.

Lemma NoDup_fmap_sublist {A B} (f : A -> B) l k :
  l `sublist_of` k -> NoDup (f <$> k) -> NoDup (f <$> l).
Proof. intros H Hk. eapply sublist_NoDup; [exact Hk|by apply fmap_sublist]. Qed.

Lemma order_nodes_NoDup nodes : NoDup (snode_id <$> order_nodes nodes).
Proof.
  apply (dedup_by_NoDup snode_id String.leb); [intros; apply String.eqb_eq|].
  apply (sort_on_sorted snode_id String.leb).
Qed.

Lemma order_edges_NoDup edges : NoDup (sedge_id <$> order_edges edges).
Proof.
  apply (dedup_by_NoDup sedge_id String.leb); [intros; apply String.eqb_eq|].
  apply (sort_on_sorted sedge_id String.leb).
Qed.

Lemma order_nodes_ids nodes x : x ∈ (snode_id <$> order_nodes nodes) <-> x ∈ (snode_id <$> nodes).
Proof. apply (sort_dedup_keys snode_id String.leb). intros; apply String.eqb_eq. Qed.

Lemma finish_graph_wf g : graph_wf (finish_graph g).
Proof.
  split; unfold node_ids; simpl.
  1-4: apply truncate_length.
  - eapply NoDup_fmap_sublist; [apply truncate_sublist|apply order_nodes_NoDup].
  - eapply NoDup_fmap_sublist; [|apply (order_edges_NoDup (sgraph_edges g))].
    etrans; [apply truncate_sublist|apply retain_sublist].
  - intros edge He. eapply elem_of_sublist in He; [|apply truncate_sublist].
    apply elem_of_retain in He as [He _]. unfold edge_retained in He.
    apply andb_true_iff in He as [Hs%bool_decide_eq_true_1 Ht%bool_decide_eq_true_1].
    by rewrite !elem_of_list_to_set in Hs, Ht.
  - eapply StronglySorted_sublist; [|apply (sort_on_sorted snode_id String.leb (sgraph_nodes g))].
    etrans; [apply truncate_sublist|apply dedup_by_sublist].
  - eapply StronglySorted_sublist; [apply truncate_sublist|].
    apply (sort_on_sorted snapshot_key snapshot_key_leb).
  - eapply StronglySorted_sublist; [|apply (sort_on_sorted sedge_id String.leb (sgraph_edges g))].
    etrans; [apply truncate_sublist|]. etrans; [apply retain_sublist|apply dedup_by_sublist].
  - eapply StronglySorted_sublist; [apply truncate_sublist|].
    apply (sort_on_sorted spath_id String.leb).
Qed.

(** Nothing is lost when the flag is down: the limits were not reached. *)
Lemma finish_untruncated g :
  sgraph_truncated (finish_graph g) = false ->
  sgraph_truncated g = false /\
  (forall x, x ∈ node_ids (finish_graph g) <-> x ∈ node_ids g) /\
  sgraph_edges (finish_graph g)
    = retain (edge_retained (list_to_set (node_ids (finish_graph g)))) (order_edges (sgraph_edges g)) /\
  sgraph_snapshots (finish_graph g) ≡ₚ sgraph_snapshots g /\
  sgraph_access_paths (finish_graph g) ≡ₚ sgraph_access_paths g.
Proof.
  simpl. rewrite !orb_false_iff, !N.ltb_ge. intros (Ht & ((Hn & He) & Hs) & Ha).
  unfold node_ids, finish_graph; cbn [sgraph_nodes sgraph_edges sgraph_snapshots sgraph_access_paths].
  rewrite !truncate_id; [split_and!; [done| |done|apply sort_by_perm|apply sort_by_perm]|done|done|
    |done].
  - intros x. apply order_nodes_ids.
  - etrans; [|exact He]. unfold len. pose proof (retain_length
      (edge_retained (list_to_set (snode_id <$> order_nodes (sgraph_nodes g))))
      (order_edges (sgraph_edges g))). lia.
Qed.

(** ** Stages only add snapshots and access paths *)

Record grows (g g' : SerializedBorrowckMemoryGraph) : Prop := {
  grows_snapshots : sgraph_snapshots g ⊆ sgraph_snapshots g';
  grows_access_paths : sgraph_access_paths g ⊆ sgraph_access_paths g';
  grows_truncated : sgraph_truncated g' = false -> sgraph_truncated g = false
}.

#[export] Instance grows_preorder : PreOrder grows.
Proof.
  split.
  - intros g. split; auto.
  - intros a b c [] []. split; [by etrans|by etrans|auto].
Qed.

Ltac solve_grows :=
  split; simpl;
  [try apply list_subseteq_app_iff_l; set_solver|set_solver|rewrite ?orb_false_iff; tauto].

Lemma push_node_grows node g : grows g (push_node node g).
Proof. solve_grows. Qed.
Lemma push_edge_grows edge g : grows g (push_edge edge g).
Proof. solve_grows. Qed.
Lemma push_snapshot_grows snapshot g : grows g (push_snapshot snapshot g).
Proof. solve_grows. Qed.
Lemma extend_grows paths g : grows g (extend_access_paths paths g).
Proof. solve_grows. Qed.
Lemma or_truncated_grows b g : grows g (or_truncated b g).
Proof. solve_grows. Qed.
Lemma remove_grows g allocation : grows g (remove_duplicate_allocation g allocation).
Proof. solve_grows. Qed.

Create HintDb grows.
#[export] Hint Resolve push_node_grows push_edge_grows push_snapshot_grows extend_grows
  or_truncated_grows remove_grows : grows.

(** Read a chain of updates from the outside in. *)
Ltac grow :=
  repeat first
    [ reflexivity
    | assumption
    | solve [eauto with grows]
    | lazymatch goal with
      | |- grows _ (remove_duplicate_allocation ?g ?a) => transitivity g; [|apply remove_grows]
      | |- grows _ (_ _ ?g) => transitivity g; [|solve [eauto with grows]]
      end ].

Lemma ensure_place_grows g bindings body place span provenance :
  grows g (ensure_place_node g bindings body place span provenance).1.
Proof.
  unfold ensure_place_node. destruct (find_binding_node_id _ _ _); [|done].
  destruct (String.eqb _ _); [done|]. destruct (existsb _ _); [done|]. simpl. grow.
Qed.

Lemma add_layers_grows binding id index previous layers g :
  grows g (add_layers binding id index previous layers g).
Proof.
  revert index previous g. induction layers as [|layer layers IH]; intros index previous g; simpl;
    [done|]. etrans; [|apply IH]. destruct previous; grow.
Qed.
#[export] Hint Resolve add_layers_grows : grows.

Lemma add_binding_grows bindings g binding : grows g (add_binding bindings g binding).
Proof. unfold add_binding. grow. Qed.

Lemma link_clone_grows bindings source destination g :
  grows g (link_clone bindings source destination g).
Proof.
  unfold link_clone. destruct (allocation_link_for_root _ _) as [[[? ?] ?]|]; [|done].
  destruct (negb _); [done|].
  destruct (allocation_link_for_root _ _) as [[[? ?] ?]|]; [|done]. grow.
Qed.

Lemma add_derived_clone_grows alphanumeric sources bindings g destination g' :
  add_derived_clone alphanumeric sources bindings g destination = Ok g' -> grows g g'.
Proof.
  unfold add_derived_clone. intros (name & _ & H)%bind_ok.
  destruct name as [name|]; [|by simplify_eq]. destruct (find_first _ _); simplify_eq; [|done].
  apply link_clone_grows.
Qed.

Lemma add_loan_grows bindings g loan : grows g (add_loan bindings g loan).
Proof.
  unfold add_loan. destruct (ensure_place_node _ _ _ _ _ _) as [g' [root|]] eqn:H;
    pose proof (ensure_place_grows g bindings (oloan_body_id loan) (oloan_place loan)
      (Some (opoint_span (oloan_reserve loan))) Provenance.Exact) as Hg; rewrite H in Hg; simpl in Hg;
    [|done]. grow.
Qed.

Lemma ensure_destination_grows bindings event g :
  grows g (ensure_destination bindings event g).1.
Proof.
  unfold ensure_destination. destruct (oevent_destination event) as [d|]; [|done].
  destruct (odestination_place d); [|done]. apply ensure_place_grows.
Qed.

Lemma move_allocation_grows event node target g : grows g (move_allocation event node target g).1.
Proof.
  unfold move_allocation. destruct (allocation_link_for_root _ _) as [[[? ?] ?]|]; [|done].
  destruct (allocation_link_for_root _ _) as [[[? ?] ?]|]; [|done]. simpl. grow.
Qed.

Lemma add_move_grows bindings event node g : grows g (add_move bindings event node g).1.
Proof.
  pose proof (ensure_destination_grows bindings event g) as Hg. unfold add_move.
  destruct (oevent_kind event); try done;
    destruct (ensure_destination bindings event g) as [g' [target|]]; simpl in *; try done;
    first [by grow | etrans; [|apply move_allocation_grows]; by grow].
Qed.

Lemma add_clone_grows bindings event node g : grows g (add_clone bindings event node g).
Proof.
  pose proof (ensure_destination_grows bindings event g) as Hg. unfold add_clone.
  destruct (negb _); [done|].
  destruct (ensure_destination bindings event g) as [g' [target|]]; simpl in Hg; [|done].
  destruct (allocation_link_for_root _ _) as [[[? ?] ?]|]; [|done]. destruct (negb _); [done|].
  destruct (allocation_link_for_root _ _) as [[[? ?] ?]|]; [|done]. grow.
Qed.

Lemma add_event_grows bindings g event : grows g (add_event bindings g event).
Proof.
  unfold add_event.
  pose proof (ensure_place_grows g bindings (oevent_body_id event) (oevent_place event)
    (Some (event_span event)) Provenance.Exact) as Hg.
  destruct (ensure_place_node _ _ _ _ _ _) as [g' [node|]]; simpl in Hg; [|done].
  pose proof (add_move_grows bindings event node g') as Hm.
  destruct (add_move bindings event node g') as [g'' deltas]; simpl in Hm.
  etrans; [|apply push_snapshot_grows]. etrans; [|apply add_clone_grows]. by etrans.
Qed.

Lemma foldl_grows {A} (f : SerializedBorrowckMemoryGraph -> A -> SerializedBorrowckMemoryGraph) l g :
  (forall g x, grows g (f g x)) -> grows g (foldl f g l).
Proof.
  intros Hf. revert g. induction l as [|x l IH]; intros g; simpl; [done|].
  etrans; [apply Hf|apply IH].
Qed.

(** A stage that visits [x] passes through a graph updated with [x]. *)
Lemma foldl_grows_elem {A} (f : SerializedBorrowckMemoryGraph -> A -> SerializedBorrowckMemoryGraph)
    l g x :
  (forall g x, grows g (f g x)) -> x ∈ l -> exists g0, grows (f g0 x) (foldl f g l).
Proof.
  intros Hf. revert g. induction l as [|y l IH]; intros g; [by intros ?%not_elem_of_nil|].
  intros [->|Hx]%elem_of_cons; simpl.
  - exists g. by apply foldl_grows.
  - by apply IH.
Qed.

Lemma fold_result_grows {A} (f : SerializedBorrowckMemoryGraph -> A -> result SerializedBorrowckMemoryGraph)
    l g g' :
  (forall g x g', f g x = Ok g' -> grows g g') -> fold_result f g l = Ok g' -> grows g g'.
Proof.
  intros Hf. revert g. induction l as [|x l IH]; intros g; simpl; [by intros [= <-]|].
  intros (g1 & H1 & H2)%bind_ok. etrans; [by eapply Hf|by apply IH].
Qed.

(** ** Stages that keep every node *)

Definition keeps_nodes (g g' : SerializedBorrowckMemoryGraph) : Prop := node_ids g ⊆ node_ids g'.

#[export] Instance keeps_nodes_preorder : PreOrder keeps_nodes.
Proof. unfold keeps_nodes. split; [by intros g|]. intros a b c H1 H2. by etrans. Qed.

Lemma push_node_keeps node g : keeps_nodes g (push_node node g).
Proof. unfold keeps_nodes, node_ids. simpl. rewrite fmap_app. set_solver. Qed.

Lemma push_node_id node g : snode_id node ∈ node_ids (push_node node g).
Proof. unfold node_ids. simpl. rewrite fmap_app. set_solver. Qed.

Lemma ensure_place_keeps g bindings body place span provenance :
  keeps_nodes g (ensure_place_node g bindings body place span provenance).1.
Proof.
  unfold ensure_place_node. destruct (find_binding_node_id _ _ _); [|done].
  destruct (String.eqb _ _); [done|]. destruct (existsb _ _); [done|]. apply push_node_keeps.
Qed.

Lemma add_layers_keeps binding id index previous layers g :
  keeps_nodes g (add_layers binding id index previous layers g).
Proof.
  revert index previous g. induction layers as [|layer layers IH]; intros index previous g; simpl;
    [done|]. etrans; [|apply IH]. destruct previous; apply push_node_keeps.
Qed.

Lemma add_layers_nodes binding id index previous layers g i layer :
  layers !! i = Some layer ->
  layer_id id (index + N.of_nat i) layer
    ∈ node_ids (add_layers binding id index previous layers g).
Proof.
  revert index previous g i. induction layers as [|first layers IH]; intros index previous g i; [done|].
  destruct i as [|i]; simpl.
  - intros [= ->]. rewrite N.add_0_r. apply (add_layers_keeps binding id (index + 1)%N).
    destruct previous; apply (push_node_id (layer_node binding (layer_id id index layer) index layer)).
  - intros H. replace (index + N.of_nat (S i))%N with (index + 1 + N.of_nat i)%N by lia. by apply IH.
Qed.

Lemma add_binding_keeps bindings g binding : keeps_nodes g (add_binding bindings g binding).
Proof. apply add_layers_keeps. Qed.

Lemma add_loan_keeps bindings g loan : keeps_nodes g (add_loan bindings g loan).
Proof.
  unfold add_loan.
  pose proof (ensure_place_keeps g bindings (oloan_body_id loan) (oloan_place loan)
    (Some (opoint_span (oloan_reserve loan))) Provenance.Exact) as Hg.
  destruct (ensure_place_node _ _ _ _ _ _) as [g' [root|]]; [|done].
  etrans; [exact Hg|apply push_node_keeps].
Qed.

(** A value is moved or cloned as a whole into a place that belongs to a binding. *)
Definition hands_over (bindings : list SerializedBorrowckOwnershipBinding)
    (event : SerializedBorrowckOwnershipEvent) : bool :=
  (bool_decide (oevent_kind event = EventKind.Move)
   || bool_decide (oevent_kind event = EventKind.Clone))
  && match oevent_destination event ≫= odestination_place with
     | Some place => bool_decide (is_Some (find_binding_node_id bindings (oevent_body_id event) place))
     | None => false
     end.

Lemma ensure_destination_keeps bindings event g :
  keeps_nodes g (ensure_destination bindings event g).1.
Proof.
  unfold ensure_destination. destruct (oevent_destination event) as [d|]; [|done].
  destruct (odestination_place d); [|done]. apply ensure_place_keeps.
Qed.

(** The destination is a node exactly when its place belongs to a binding. *)
Lemma ensure_destination_none bindings event g :
  oevent_kind event = EventKind.Move \/ oevent_kind event = EventKind.Clone ->
  hands_over bindings event = false -> (ensure_destination bindings event g).2 = None.
Proof.
  unfold hands_over, ensure_destination. intros Hk. rewrite andb_false_iff.
  intros [Hf|Hf].
  { apply orb_false_iff in Hf as [H1%bool_decide_eq_false_1 H2%bool_decide_eq_false_1]. tauto. }
  destruct (oevent_destination event) as [d|]; [|done]. simpl in Hf.
  destruct (odestination_place d) as [place|]; [|done]. unfold ensure_place_node.
  destruct (find_binding_node_id _ _ _); [|done]. by rewrite bool_decide_eq_true_2 in Hf.
Qed.

Lemma add_event_keeps bindings g event :
  hands_over bindings event = false -> keeps_nodes g (add_event bindings g event).
Proof.
  intros Hf. unfold add_event.
  pose proof (ensure_place_keeps g bindings (oevent_body_id event) (oevent_place event)
    (Some (event_span event)) Provenance.Exact) as Hg.
  destruct (ensure_place_node _ _ _ _ _ _) as [g' [node|]]; simpl in Hg; [|done].
  assert (keeps_nodes g' (add_move bindings event node g').1) as Hm.
  { unfold add_move. destruct (oevent_kind event) eqn:Hk; try done.
    - pose proof (ensure_destination_none bindings event g' (or_introl Hk) Hf) as Hn.
      pose proof (ensure_destination_keeps bindings event g') as Hd.
      destruct (ensure_destination _ _ _) as [g1 o]. simpl in *. by subst o.
    - pose proof (ensure_destination_keeps bindings event g') as Hd.
      by destruct (ensure_destination _ _ _) as [g1 [target|]]. }
  destruct (add_move bindings event node g') as [g1 deltas]. simpl in Hm.
  assert (keeps_nodes g1 (add_clone bindings event node g1)) as Hc.
  { unfold add_clone. case_bool_decide as Hk; [|done]. simpl.
    pose proof (ensure_destination_none bindings event g1 (or_intror Hk) Hf) as Hn.
    pose proof (ensure_destination_keeps bindings event g1) as Hd.
    destruct (ensure_destination _ _ _) as [g2 o]. simpl in *. by subst o. }
  etrans; [exact Hg|]. etrans; [exact Hm|]. exact Hc.
Qed.

Lemma foldl_keeps {A} (f : SerializedBorrowckMemoryGraph -> A -> SerializedBorrowckMemoryGraph) l g :
  (forall g x, x ∈ l -> keeps_nodes g (f g x)) -> keeps_nodes g (foldl f g l).
Proof.
  revert g. induction l as [|x l IH]; intros g Hf; simpl; [done|].
  etrans; [apply Hf; left|apply IH]. intros g' y Hy. apply Hf. by right.
Qed.

Lemma foldl_keeps_elem {A} (f : SerializedBorrowckMemoryGraph -> A -> SerializedBorrowckMemoryGraph)
    l g x :
  (forall g x, keeps_nodes g (f g x)) -> x ∈ l -> exists g0, keeps_nodes (f g0 x) (foldl f g l).
Proof.
  intros Hf. revert g. induction l as [|y l IH]; intros g; [by intros ?%not_elem_of_nil|].
  intros [->|Hx]%elem_of_cons; simpl.
  - exists g. apply foldl_keeps. auto.
  - by apply IH.
Qed.

(** Without a clone in the source the second stage changes nothing. *)
Lemma no_derived_clone alphanumeric sources bindings l g g' :
  (forall destination, destination ∈ l ->
     shared_clone_source alphanumeric sources destination = Ok None) ->
  fold_result (add_derived_clone alphanumeric sources bindings) g l = Ok g' -> g' = g.
Proof.
  revert g. induction l as [|x l IH]; intros g Hn; simpl; [by intros [= <-]|].
  intros (g1 & H1 & H2)%bind_ok. unfold add_derived_clone in H1. rewrite (Hn x) in H1 by left.
  injection H1 as <-. apply IH; [|done]. intros y Hy. apply Hn. by right.
Qed.

(** ** The built graph *)

Lemma add_binding_snapshot bindings g binding :
  let id := binding_node_id binding bindings in
  initialize_snapshot binding id ∈ sgraph_snapshots (add_binding bindings g binding) /\
  access_paths_for_binding binding id ⊆ sgraph_access_paths (add_binding bindings g binding) /\
  (sgraph_truncated (add_binding bindings g binding) = false ->
     (len (obinding_memory_layers binding) <= 12)%N).
Proof.
  simpl. split_and!; [set_solver|set_solver|].
  rewrite orb_false_iff, N.ltb_ge. tauto.
Qed.

Lemma add_event_snapshot bindings g event id :
  find_binding_node_id bindings (oevent_body_id event) (oevent_place event) = Some id ->
  exists node deltas,
    event_snapshot event (event_delta event node :: deltas)
      ∈ sgraph_snapshots (add_event bindings g event).
Proof.
  intros Hfind. unfold add_event.
  assert (exists node, (ensure_place_node g bindings (oevent_body_id event) (oevent_place event)
    (Some (event_span event)) Provenance.Exact).2 = Some node) as [node Hnode].
  { unfold ensure_place_node. rewrite Hfind. destruct (String.eqb _ _); [by eexists|].
    destruct (existsb _ _); by eexists. }
  destruct (ensure_place_node _ _ _ _ _ _) as [g' o]. simpl in Hnode. subst o.
  destruct (add_move bindings event node g') as [g'' deltas].
  exists node, deltas. simpl. set_solver.
Qed.

Section build.
Context (alphanumeric : string -> bool)
  (sources : list (PathBuf * SerializedBorrowckRepairSource))
  (bindings : list SerializedBorrowckOwnershipBinding)
  (events : list SerializedBorrowckOwnershipEvent)
  (loans : list SerializedBorrowckOwnershipLoan).

(** The graph before it is ordered and cut. *)
Lemma build_stages g :
  build_ownership_memory_graph alphanumeric sources bindings events loans = Ok g -> exists g1 g2,
    g = finish_graph g2 /\
    grows (foldl (add_binding bindings) empty_graph bindings) g1 /\
    g2 = foldl (add_event bindings) (foldl (add_loan bindings) g1 loans) events.
Proof.
  unfold build_ownership_memory_graph. intros (g1 & H1 & [= <-])%bind_ok.
  exists g1. eexists. split_and!; [done| |done].
  eapply fold_result_grows; [|exact H1]. apply add_derived_clone_grows.
Qed.

(** C13: Every graph the compiler writes respects its four limits, has unique node
    and edge ids, no edge to a node it does not hold, its nodes, edges and access paths
    in the order of their ids and its snapshots in the order of body, block, statement
    and id. *)
Theorem built_graph_well_formed g :
  build_ownership_memory_graph alphanumeric sources bindings events loans = Ok g -> graph_wf g.
Proof. intros (g1 & g2 & -> & _)%build_stages. apply finish_graph_wf. Qed.

(** Each layer of each binding has its node when nothing that is drawn takes over
    the allocation of something else. *)
Lemma layers_have_nodes g :
  build_ownership_memory_graph alphanumeric sources bindings events loans = Ok g ->
  sgraph_truncated g = false ->
  (forall event, event ∈ events -> hands_over bindings event = false) ->
  (forall destination, destination ∈ bindings ->
     shared_clone_source alphanumeric sources destination = Ok None) ->
  forall binding index layer, binding ∈ bindings ->
    obinding_memory_layers binding !! index = Some layer ->
    layer_id (binding_node_id binding bindings) (N.of_nat index) layer ∈ node_ids g.
Proof.
  unfold build_ownership_memory_graph.
  intros (g1 & H1 & [= <-])%bind_ok Ht He Hd binding index layer Hin Hl.
  apply no_derived_clone in H1; [|done]. subst g1.
  pose proof (finish_untruncated _ Ht) as (Ht' & -> & _).
  eapply (foldl_keeps (add_event bindings)); [intros g' x Hx; by apply add_event_keeps, He|].
  eapply (foldl_keeps (add_loan bindings)); [intros; apply add_loan_keeps|].
  destruct (foldl_keeps_elem (add_binding bindings) bindings empty_graph binding) as [g0 H0];
    [apply add_binding_keeps|done|]. apply H0.
  change (node_ids (add_binding bindings g0 binding)) with
    (node_ids (add_layers binding (binding_node_id binding bindings) 0 None
      (take_N 12 (obinding_memory_layers binding)) g0)).
  apply (add_layers_nodes binding (binding_node_id binding bindings) 0).
  rewrite take_N_spec, lookup_take_lt; [done|].
  destruct (foldl_grows_elem (add_binding bindings) bindings empty_graph binding
    (add_binding_grows bindings) Hin) as [gb Hgb].
  destruct (add_binding_snapshot bindings gb binding) as (_ & _ & H12).
  apply lookup_lt_Some in Hl. unfold len in H12.
  enough (N.of_nat (length (obinding_memory_layers binding)) <= 12)%N by lia.
  apply H12, Hgb. revert Ht'. apply grows_truncated.
  etrans; [apply (foldl_grows (add_loan bindings) loans), add_loan_grows|].
  apply (foldl_grows (add_event bindings)), add_event_grows.
Qed.

(** C16: When the graph does not say it is truncated, nothing was cut: no binding has
    more than the twelve layers that are drawn, each binding has its initialization
    snapshot and its access paths, and every event about a recorded binding has its
    snapshot; and when no event and no initialiser hands a value over to a binding,
    each layer of each binding has its node. With a hand-over the allocation of the
    destination is taken off the graph ([reassigned_clone_loses_allocation]). *)
Theorem untruncated_graph_complete g :
  build_ownership_memory_graph alphanumeric sources bindings events loans = Ok g -> sgraph_truncated g = false ->
  (forall binding, binding ∈ bindings ->
     (len (obinding_memory_layers binding) <= 12)%N /\
     initialize_snapshot binding (binding_node_id binding bindings) ∈ sgraph_snapshots g /\
     access_paths_for_binding binding (binding_node_id binding bindings)
       ⊆ sgraph_access_paths g) /\
  (forall event id, event ∈ events ->
     find_binding_node_id bindings (oevent_body_id event) (oevent_place event) = Some id ->
     exists node deltas,
       event_snapshot event (event_delta event node :: deltas) ∈ sgraph_snapshots g) /\
  ((forall event, event ∈ events -> hands_over bindings event = false) ->
   (forall destination, destination ∈ bindings ->
      shared_clone_source alphanumeric sources destination = Ok None) ->
   forall binding index layer, binding ∈ bindings ->
     obinding_memory_layers binding !! index = Some layer ->
     layer_id (binding_node_id binding bindings) (N.of_nat index) layer ∈ node_ids g).
Proof.
  intros Hbuild Ht. apply and_assoc. split; [|by apply layers_have_nodes].
  destruct (build_stages _ Hbuild) as (g1 & g2 & -> & Hg1 & Hg2).
  apply finish_untruncated in Ht as (Ht & _ & _ & Hs & Ha).
  setoid_rewrite Hs. setoid_rewrite Ha.
  assert (grows (foldl (add_binding bindings) empty_graph bindings) g2) as Hg.
  { subst g2. etrans; [exact Hg1|].
    etrans; [apply (foldl_grows (add_loan bindings) loans), add_loan_grows|].
    apply (foldl_grows (add_event bindings)), add_event_grows. }
  split.
  - intros binding Hin.
    destruct (foldl_grows_elem (add_binding bindings) bindings empty_graph binding
      (add_binding_grows bindings) Hin) as [g0 H0].
    assert (grows (add_binding bindings g0 binding) g2) as [Hsn Hap Htr] by by etrans.
    destruct (add_binding_snapshot bindings g0 binding) as (H1 & H2 & H3). split_and!; [auto|by apply Hsn|].
    intros p Hp. apply Hap, H2, Hp.
  - intros event id Hin Hfind. subst g2.
    destruct (foldl_grows_elem (add_event bindings) events
      (foldl (add_loan bindings) g1 loans) event (add_event_grows bindings) Hin) as [g0 [Hsn _ _]].
    destruct (add_event_snapshot bindings g0 event id Hfind) as (node & deltas & H). eauto.
Qed.
End build.

(** ** Access paths *)

(** Each step starts at the type the step before it reached. *)
Fixpoint step_chain (ty : string) (steps : list SerializedBorrowckAccessStep) : Prop :=
  match steps with
  | [] => True
  | step :: steps => sstep_starting_type step = ty /\ step_chain (sstep_result_type step) steps
  end.

(** What a step warns about follows from its kind. *)
Definition step_warnings (step : SerializedBorrowckAccessStep) : Prop :=
  (sstep_requires_unsafe step = true <-> sstep_kind step = AccessKind.RawPointerDeref) /\
  (sstep_may_panic step = true <->
     sstep_kind step = AccessKind.WrapperBorrow \/ sstep_kind step = AccessKind.WrapperBorrowMut) /\
  (sstep_fallible step = true <->
     sstep_kind step = AccessKind.LockAcquire \/ sstep_kind step = AccessKind.WeakUpgrade \/
     sstep_kind step = AccessKind.OptionExtract \/ sstep_kind step = AccessKind.ResultExtract).

Definition plan_ok (ty : string) (plan : string * list SerializedBorrowckAccessStep) : Prop :=
  plan.2 <> [] /\ step_chain ty plan.2 /\ Forall step_warnings plan.2.

Ltac solve_warnings :=
  split_and!; simpl; repeat match goal with |- context [if ?b then _ else _] => destruct b end;
  naive_solver.

Ltac solve_plan :=
  split_and!; simpl; [done|by split_and!|];
  repeat (apply Forall_cons; split; [solve_warnings|]); apply Forall_nil; exact I.

Lemma access_plans_ok ty inner : Forall (plan_ok ty) (access_plans ty inner).
Proof.
  unfold access_plans.
  repeat match goal with
    | |- Forall _ (if ?b then _ else _) =>
        destruct b; [cbv zeta; repeat (apply Forall_cons; split; [solve_plan|]);
                     by apply Forall_nil|]
    end. by apply Forall_nil.
Qed.

(** The access paths of a binding belong to its node and body; each is a
    non-empty chain of steps that starts at the binding's type, and a step asks
    for unsafe code exactly for raw pointers, may panic exactly at a runtime
    borrow, and is fallible exactly at locks, upgrades and extractions. *)
Theorem access_paths_are_chains binding node path :
  path ∈ access_paths_for_binding binding node ->
  spath_node_id path = node /\ spath_body_id path = obinding_body_id binding /\
  spath_steps path <> [] /\ step_chain (obinding_type_name binding) (spath_steps path) /\
  Forall step_warnings (spath_steps path).
Proof.
  unfold access_paths_for_binding. intros (plan & -> & Hplan)%list_elem_of_fmap. simpl.
  destruct (proj1 (Forall_forall _ _) (access_plans_ok _ _) plan Hplan) as (? & ? & ?).
  by split_and!.
Qed.

(** ** A concrete crate

    <<
    let a = Rc::new(1);
    let mut b = Rc::clone(&a);
    let c = Rc::new(2);
    b = c;
    >> *)

Definition sample_path : PathBuf := "/work/main.rs".

Definition sample_text : string :=
  "let a = Rc::new(1);" +:+ newline +:+ "let mut b = Rc::clone(&a);" +:+ newline
  +:+ "let c = Rc::new(2);" +:+ newline +:+ "b = c;" +:+ newline.

Definition sample_sources : list (PathBuf * SerializedBorrowckRepairSource) :=
  [(sample_path, mk_ssource sample_path (stable_source_hash sample_text) (Some sample_text))].

Definition rc_layers (name : string) : list SerializedBorrowckMemoryLayer :=
  [mk_slayer MemoryKind.StackBinding MemoryStorage.Stack ("stack binding `" +:+ name +:+ "`")
     "std::rc::Rc<i32>" (Some 8%N) (Some 8%N) "target_layout";
   mk_slayer MemoryKind.RcHandle MemoryStorage.Inline "Rc handle (shared owner)"
     "std::rc::Rc<i32>" (Some 8%N) (Some 8%N) "target_layout";
   mk_slayer MemoryKind.RcAllocation MemoryStorage.Heap
     "Rc allocation containing the value and strong/weak counters" "i32" None None "conceptual";
   mk_slayer MemoryKind.InlineValue MemoryStorage.Inline "inline value" "i32" (Some 4%N)
     (Some 4%N) "target_layout"].

Definition rc_binding (name : string) (start : N) : SerializedBorrowckOwnershipBinding :=
  mk_obinding 1 (mk_sbinding sample_path start name) "std::rc::Rc<i32>" (Some 8%N) (Some 8%N)
    (rc_layers name).

Definition sample_bindings : list SerializedBorrowckOwnershipBinding :=
  [rc_binding "a" 4; rc_binding "b" 28; rc_binding "c" 51].

Definition move_event (id : string) (source : string) (source_start : N) (target : string)
    (target_start : N) : SerializedBorrowckOwnershipEvent :=
  mk_oevent id 1 0 9 EventKind.Move OwnershipState.Moved sample_path 67 72
    (mk_sbinding sample_path source_start source) source None None
    (Some (mk_odestination DestinationKind.LocalBinding target (Some target)
       (Some (mk_sspan sample_path target_start (target_start + 1))))).

Definition sample_graph (events : list SerializedBorrowckOwnershipEvent) :
    result SerializedBorrowckMemoryGraph :=
  build_ownership_memory_graph (fun _ => false) sample_sources sample_bindings events [].

(** The places with a drawn node of a kind. *)
Definition places_with (kind : NodeKind.BorrowckGraphNodeKind)
    (g : SerializedBorrowckMemoryGraph) : list string :=
  snode_place <$> retain (fun node => bool_decide (snode_kind node = kind)) (sgraph_nodes g).

Definition sample_move : SerializedBorrowckOwnershipEvent := move_event "e1" "c" 51 "b" 28.

Example sample_shares_one_allocation :
  places_with NodeKind.ControlBlock <$> (match sample_graph [] with Ok g => Some g | _ => None end)
  = Some ["c"; "a"].
Proof. vm_compute. reflexivity. Qed.

(** The graph of the sample, evaluated. *)
Definition built (r : result SerializedBorrowckMemoryGraph) : SerializedBorrowckMemoryGraph :=
  match r with
  | Ok g => g
  | Err _ => empty_graph
  end.

Lemma built_graph_well_formed_witness : graph_wf (built (sample_graph [sample_move])).
Proof.
  apply (built_graph_well_formed (fun _ => false) sample_sources sample_bindings [sample_move] []).
  vm_compute. reflexivity.
Defined.

(** Two bindings and no hand-over. *)
Definition owners : list SerializedBorrowckOwnershipBinding := [rc_binding "a" 4; rc_binding "c" 51].

Definition owners_graph : result SerializedBorrowckMemoryGraph :=
  build_ownership_memory_graph (fun _ => false) sample_sources owners [] [].

Lemma untruncated_graph_complete_witness :
  initialize_snapshot (rc_binding "b" 28) (binding_node_id (rc_binding "b" 28) sample_bindings)
    ∈ sgraph_snapshots (built (sample_graph [sample_move])) /\
  (forall index layer, rc_layers "a" !! index = Some layer ->
     layer_id (binding_node_id (rc_binding "a" 4) owners) (N.of_nat index) layer
       ∈ node_ids (built owners_graph)).
Proof.
  split.
  - destruct (untruncated_graph_complete (fun _ => false) sample_sources sample_bindings
      [sample_move] [] (built (sample_graph [sample_move]))) as [H _];
      [vm_compute; reflexivity|vm_compute; reflexivity|].
    destruct (H (rc_binding "b" 28)) as (_ & H1 & _); [right; left|exact H1].
  - destruct (untruncated_graph_complete (fun _ => false) sample_sources owners [] []
      (built owners_graph)) as (_ & _ & H); [vm_compute; reflexivity|vm_compute; reflexivity|].
    intros index layer Hl. apply (H ltac:(by intros ? ?%not_elem_of_nil)) with (binding := rc_binding "a" 4);
      [|left|exact Hl].
    intros destination [->|[->|?%not_elem_of_nil]%elem_of_cons]%elem_of_cons;
      [vm_compute; reflexivity|vm_compute; reflexivity|done].
Defined.

Lemma access_paths_are_chains_witness :
  Forall (fun path => step_chain "std::rc::Rc<i32>" (spath_steps path))
    (access_paths_for_binding (rc_binding "a" 4) "node").
Proof.
  apply Forall_forall. intros path Hin.
  by destruct (access_paths_are_chains (rc_binding "a" 4) "node" path Hin) as (_ & _ & _ & H & _).
Defined.
