(* ===== verification/CloneSourceSpec.v ===== *)
(** * Reading the receiver of a clone off a source line

    [shared_clone_source] works on text, not on the syntax tree.  Here: it never
    panics on ASCII sources, so the graph of a crate with ASCII sources is
    always built; it returns the receiver of an assignment of the form
    [let y = x.clone()]; and a character of several bytes in front of a receiver
    makes it panic. *)

From Stdlib Require Import Ascii String.
From S2P Require Import Prelude RustStr RustColl RustPath Fnv CompilerData MemoryGraph MemoryGraphSpec.
From stdpp Require Import options.

#[local] Arguments String.append !_ _ / : assert.

(** ** ASCII text *)

Fixpoint all_bytes (p : ascii -> bool) (s : string) : bool :=
  match s with
  | EmptyString => true
  | String c s => p c && all_bytes p s
  end.

Definition is_ascii (c : ascii) : bool := (N_of_ascii c <? 128)%N.

Lemma all_bytes_app p a b : all_bytes p (a +:+ b) = all_bytes p a && all_bytes p b.
Proof. induction a as [|c a IH]; [done|]. cbn. rewrite IH. apply andb_assoc. Qed.

Lemma all_bytes_rev_append p s acc :
  all_bytes p (rev_append s acc) = all_bytes p s && all_bytes p acc.
Proof.
  revert acc. induction s as [|c s IH]; intros acc; [done|]. cbn. rewrite IH. cbn.
  by destruct (p c), (all_bytes p s).
Qed.

Lemma all_bytes_rev p s : all_bytes p (rev_str s) = all_bytes p s.
Proof. unfold rev_str. rewrite all_bytes_rev_append. apply andb_true_r. Qed.

Lemma trim_start_rev_suffix s : exists a, s = a +:+ trim_start_rev s.
Proof.
  induction s as [s IH] using (induction_ltof1 _ String.length). unfold ltof in IH.
  destruct s as [|a s]; [by exists ""|]. cbn [trim_start_rev].
  destruct (is_ws1 a).
  { destruct (IH s) as [p Hp]; [simpl; lia|]. exists (String a p). cbn. by f_equal. }
  destruct s as [|b s]; [by exists ""|]. destruct (is_ws2 b a).
  { destruct (IH s) as [p Hp]; [simpl; lia|]. exists (String a (String b p)). cbn. by do 2 f_equal. }
  destruct s as [|c s]; [by exists ""|]. destruct (is_ws3 c b a); [|by exists ""].
  destruct (IH s) as [p Hp]; [simpl; lia|]. exists (String a (String b (String c p))).
  cbn. by do 3 f_equal.
Qed.

Lemma all_bytes_trim_end p s : all_bytes p s = true -> all_bytes p (trim_end s) = true.
Proof.
  intros H. unfold trim_end. rewrite all_bytes_rev. rewrite <- all_bytes_rev in H.
  destruct (trim_start_rev_suffix (rev_str s)) as [a Ha]. rewrite Ha, all_bytes_app in H.
  by apply andb_true_iff in H as [_ H].
Qed.

Lemma all_bytes_after_last p sep s r :
  all_bytes p s = true -> after_last sep s = Some r -> all_bytes p r = true.
Proof.
  induction s as [|c s IH]; [done|]. cbn [all_bytes after_last]. intros Hs H.
  destruct (after_last sep s) as [r'|].
  - simplify_eq. apply IH; [|done]. by apply andb_true_iff in Hs as [_ ?].
  - apply strip_prefix_Some in H. change (all_bytes p (String c s) = true) in Hs.
    rewrite H, all_bytes_app in Hs. by apply andb_true_iff in Hs as [_ ?].
Qed.

Lemma split_once_str_Some sep s before after :
  split_once_str sep s = Some (before, after) -> s = before +:+ sep +:+ after.
Proof.
  revert before. induction s as [|c s IH]; intros before; cbn [split_once_str].
  - destruct (strip_prefix sep "") eqn:H; [|done]. intros [= <- <-]. by apply strip_prefix_Some in H.
  - destruct (strip_prefix sep (String c s)) eqn:H.
    { intros [= <- <-]. by apply strip_prefix_Some in H. }
    destruct (split_once_str sep s) as [[b a]|]; [|done]. intros [= <- <-].
    cbn. f_equal. by apply IH.
Qed.

Lemma first_segment_prefix f s : exists rest, s = first_segment f s +:+ rest.
Proof.
  unfold first_segment. destruct (split_at_char f s) as [[b a]|] eqn:H.
  - apply split_at_char_Some in H as (c & _ & ->). eauto.
  - exists "". by rewrite append_nil_r.
Qed.

Lemma ascii_starts_char s : all_bytes is_ascii s = true -> starts_char s = true.
Proof.
  destruct s as [|c s]; [done|]. cbn [all_bytes]. intros [Hc _]%andb_true_iff.
  unfold is_ascii in Hc. apply N.ltb_lt in Hc. unfold starts_char, is_char_start.
  apply negb_true_iff, N.eqb_neq. intros H.
  apply N.Div0.div_lt_upper_bound with (b := 64%N) (q := 2%N) in Hc. lia.
Qed.

(** Every character of an ASCII string is one byte. *)
Lemma chars_ascii s : all_bytes is_ascii s = true ->
  Forall (fun ch => String.length ch = 1) (chars s) /\ String.concat "" (chars s) = s.
Proof.
  induction s as [|c s IH]; [by split|]. cbn [all_bytes chars]. intros [Hc Hs]%andb_true_iff.
  rewrite ascii_starts_char by done. destruct (IH Hs) as [Hall Hcat]. split; [by constructor|].
  destruct (chars s) as [|ch more] eqn:Hch; cbn in *; by subst s.
Qed.

(** ** No panic on ASCII sources *)

Lemma last_break_elem ident cs b suffix : last_break ident cs = (Some b, suffix) -> b ∈ cs.
Proof.
  revert suffix. induction cs as [|c cs IH]; intros suffix; cbn [last_break]; [done|].
  destruct (last_break ident cs) as [[b'|] suffix'].
  - intros [= <- <-]. right. by eapply IH.
  - destruct (ident c); [done|]. intros [= <- <-]. left.
Qed.

Section clone.
Context (alphanumeric : string -> bool).

Lemma trailing_identifier_ascii before :
  all_bytes is_ascii before = true -> is_ok (trailing_identifier alphanumeric before) = true.
Proof.
  intros [Hall _]%chars_ascii. unfold trailing_identifier.
  destruct (last_break _ _) as [[ch|] identifier] eqn:H; [|by destruct identifier].
  apply last_break_elem in H. rewrite Forall_forall in Hall. rewrite (Hall ch H). simpl.
  by destruct identifier.
Qed.

Lemma clone_receiver_ascii line :
  all_bytes is_ascii line = true -> is_ok (clone_receiver alphanumeric line) = true.
Proof.
  intros H. unfold clone_receiver. destruct (split_once_str "Rc::clone(&" line) as [[]|]; [done|].
  destruct (split_once_str "Arc::clone(&" line) as [[]|]; [done|].
  destruct (split_at_char _ line) as [[pre assignment]|] eqn:H1; [|done].
  destruct (split_once_str ".clone()" assignment) as [[before post]|] eqn:H2; [|done].
  apply trailing_identifier_ascii, all_bytes_trim_end.
  apply split_at_char_Some in H1 as (c & _ & ->). apply split_once_str_Some in H2 as ->.
  rewrite all_bytes_app in H. cbn [all_bytes] in H. rewrite all_bytes_app in H.
  rewrite !andb_true_iff in H. tauto.
Qed.

Lemma line_at_ascii source at_ :
  all_bytes is_ascii source = true -> (at_ <= str_len source)%N ->
  exists line, line_at source at_ = Ok line /\ all_bytes is_ascii line = true.
Proof.
  intros Hs Hat. unfold line_at, split_str_at.
  destruct (drop_bytes_length (N.to_nat at_) source) as [rest Hrest]; [unfold str_len in Hat; lia|].
  rewrite Hrest. pose proof (drop_take_bytes _ _ _ Hrest) as Hsplit.
  rewrite <- Hsplit, all_bytes_app in Hs. apply andb_true_iff in Hs as [Ht Hr].
  rewrite ascii_starts_char by done. cbn. eexists. split; [done|].
  rewrite all_bytes_app. apply andb_true_iff. split.
  - unfold rsplit_next. destruct (after_last newline _) eqn:Ha; [|done].
    by eapply (all_bytes_after_last _ newline (take_bytes (N.to_nat at_) source)).
  - destruct (first_segment_prefix (Ascii.eqb (ascii_of_N 10)) rest) as [more Hm].
    rewrite Hm, all_bytes_app in Hr. by apply andb_true_iff in Hr as [? _].
Qed.

(** Every source text the plan holds is ASCII. *)
Definition ascii_sources (sources : list (PathBuf * SerializedBorrowckRepairSource)) : Prop :=
  forall entry text, entry ∈ sources -> ssource_source entry.2 = Some text ->
    all_bytes is_ascii text = true.

Lemma shared_clone_source_ascii sources destination :
  ascii_sources sources -> is_ok (shared_clone_source alphanumeric sources destination) = true.
Proof.
  intros Hs. unfold shared_clone_source, btree_get.
  destruct (find_first (fun entry => path_eqb entry.1 (binding_path destination)) sources)
    as [entry|] eqn:Hf; [|done].
  apply find_first_Some in Hf as [_ Hin]. cbn.
  destruct (ssource_source entry.2) as [text|] eqn:Ht; [|done].
  specialize (Hs entry text Hin Ht).
  destruct (N.ltb_spec (str_len text) (binding_start destination)); [done|].
  destruct (line_at_ascii text (binding_start destination)) as (line & Hl & Ha); [done|lia|].
  rewrite Hl. cbn. by apply clone_receiver_ascii.
Qed.

Lemma fold_result_ok {A B} (f : B -> A -> result B) acc l :
  (forall acc x, is_ok (f acc x) = true) -> is_ok (fold_result f acc l) = true.
Proof.
  intros Hf. revert acc. induction l as [|x l IH]; intros acc; [done|]. cbn.
  specialize (Hf acc x). destruct (f acc x); [apply IH|done].
Qed.

(** When the sources of a crate are ASCII its memory graph is built: no slice of
    the source text can panic, whatever the bindings, events and loans are. *)
Theorem ascii_graph_is_built sources bindings events loans :
  ascii_sources sources ->
  exists g, build_ownership_memory_graph alphanumeric sources bindings events loans = Ok g.
Proof.
  intros Hs. unfold build_ownership_memory_graph.
  set (g0 := foldl _ _ _).
  assert (is_ok (fold_result (add_derived_clone alphanumeric sources bindings) g0 bindings) = true)
    as Hok.
  { apply fold_result_ok. intros g destination. unfold add_derived_clone.
    pose proof (shared_clone_source_ascii sources destination Hs) as H.
    destruct (shared_clone_source _ _ _) as [[name|]|]; cbn in *; try done.
    by destruct (find_first _ _). }
  destruct (fold_result _ _ _) as [g1|]; [|done]. cbn. eauto.
Qed.
End clone.

(** ** The receiver of [let y = x.clone()] *)

Definition ident_byte (c : ascii) : bool := Ascii.eqb c "_"%char || is_ascii_alphanumeric c.

Lemma ident_byte_range c : ident_byte c = true ->
  (48 <= N_of_ascii c <= 122)%N /\ N_of_ascii c <> 61%N.
Proof.
  unfold ident_byte, is_ascii_alphanumeric. rewrite orb_true_iff. intros [->%Ascii.eqb_eq|H].
  - split; [split|]; by vm_compute.
  - rewrite !orb_true_iff, !andb_true_iff, !N.leb_le in H. lia.
Qed.

Lemma all_bytes_impl (p q : ascii -> bool) s :
  (forall c, p c = true -> q c = true) -> all_bytes p s = true -> all_bytes q s = true.
Proof.
  intros Hpq. induction s as [|c s IH]; [done|]. cbn. rewrite !andb_true_iff. naive_solver.
Qed.

Lemma ident_is_ascii s : all_bytes ident_byte s = true -> all_bytes is_ascii s = true.
Proof.
  apply all_bytes_impl. intros c [H _]%ident_byte_range. unfold is_ascii. apply N.ltb_lt. lia.
Qed.

Lemma split_once_None sep s : contains sep s = false -> split_once_str sep s = None.
Proof.
  intros Hc. destruct (split_once_str sep s) as [[b a]|] eqn:H; [|done].
  apply split_once_str_Some in H. rewrite <- not_true_iff_false in Hc.
  destruct Hc. apply contains_spec. eauto.
Qed.

Lemma split_at_char_app f a c b :
  all_bytes (fun d => negb (f d)) a = true -> f c = true ->
  split_at_char f (a +:+ String c b) = Some (a, b).
Proof.
  intros Ha Hc. induction a as [|d a IH]; cbn in *; [by rewrite Hc|].
  apply andb_true_iff in Ha as [->%negb_true_iff Ha]. by rewrite IH.
Qed.

(** A separator is found at its place when its first character does not occur
    earlier. *)
Lemma split_once_first c sep a b :
  all_bytes (fun d => negb (Ascii.eqb c d)) a = true ->
  split_once_str (String c sep) (a +:+ String c sep +:+ b) = Some (a, b).
Proof.
  induction a as [|d a IH]; cbn [all_bytes].
  - intros _. cbn [String.append]. change (String c (sep +:+ b)) with (String c sep +:+ b).
    destruct (String c sep +:+ b) eqn:H; [done|]. cbn [split_once_str]. rewrite <- H.
    by rewrite strip_prefix_app.
  - intros [Hd Ha]%andb_true_iff. apply negb_true_iff in Hd.
    cbn. rewrite Hd. cbn in IH. by rewrite IH.
Qed.

Lemma last_break_ident ident cs :
  Forall (fun ch => ident ch = true) cs -> last_break ident cs = (None, cs).
Proof. induction 1 as [|ch cs Hch _ IH]; [done|]. cbn [last_break]. by rewrite IH, Hch. Qed.

Lemma chars_ident alphanumeric s :
  all_bytes ident_byte s = true -> Forall (fun ch => ident_char alphanumeric ch = true) (chars s).
Proof.
  intros H. pose proof (ident_is_ascii _ H) as Hs. revert H Hs.
  induction s as [|c s IH]; [constructor|]. cbn [all_bytes chars].
  intros [Hc H]%andb_true_iff [_ Hs]%andb_true_iff. rewrite ascii_starts_char by done.
  by constructor; [|apply IH].
Qed.

Lemma trailing_identifier_space alphanumeric x :
  x <> "" -> all_bytes ident_byte x = true ->
  trailing_identifier alphanumeric (String " " x) = Ok (Some x).
Proof.
  intros Hne Hx. unfold trailing_identifier.
  assert (chars (String " " x) = " " :: chars x) as ->.
  { cbn [chars]. by rewrite ascii_starts_char by (by apply ident_is_ascii). }
  cbn [last_break]. rewrite last_break_ident by (by apply chars_ident).
  change (ident_char alphanumeric " ") with false. change (String.length " " =? 1)%nat with true.
  cbv beta iota.
  destruct (chars_ascii x (ident_is_ascii x Hx)) as [_ Hcat].
  destruct (chars x) eqn:Hch; [by rewrite <- Hcat in Hne|]. by rewrite Hcat.
Qed.

Lemma trim_end_visible s : starts_visible (rev_str s) -> trim_end s = s.
Proof. intros H. unfold trim_end. by rewrite trim_start_rev_visible, rev_str_involutive. Qed.

Lemma ident_ends_visible x :
  x <> "" -> all_bytes ident_byte x = true -> starts_visible (rev_str (String " " x)).
Proof.
  intros Hne Hx. unfold rev_str. cbn [rev_append]. rewrite rev_append_spec.
  rewrite <- all_bytes_rev in Hx.
  destruct (rev_str x) as [|c r] eqn:Hr.
  { by apply (f_equal rev_str) in Hr; rewrite rev_str_involutive in Hr. }
  cbn in *. apply andb_true_iff in Hx as [[H1 H2]%ident_byte_range _].
  unfold visible. apply andb_true_iff. rewrite !N.leb_le. lia.
Qed.

(** On a line that assigns the clone of a variable, and names no [Rc::clone] or
    [Arc::clone], the receiver is recovered exactly. *)
Theorem clone_receiver_of_assignment alphanumeric pattern x rest :
  let line := pattern +:+ "= " +:+ x +:+ ".clone()" +:+ rest in
  contains "Rc::clone(&" line = false -> contains "Arc::clone(&" line = false ->
  all_bytes (fun c => negb (Ascii.eqb "="%char c)) pattern = true ->
  x <> "" -> all_bytes ident_byte x = true ->
  clone_receiver alphanumeric line = Ok (Some x).
Proof.
  intros line Hrc Harc Hpat Hne Hx. unfold clone_receiver.
  rewrite (split_once_None _ _ Hrc), (split_once_None _ _ Harc).
  unfold line. change ("= " +:+ x +:+ ".clone()" +:+ rest)
    with (String "=" (String " " x +:+ ".clone()" +:+ rest)).
  rewrite split_at_char_app by done.
  rewrite (split_once_first "."%char "clone()" (String " " x) rest).
  - rewrite trim_end_visible by (by apply ident_ends_visible). by apply trailing_identifier_space.
  - cbn [all_bytes]. apply andb_true_iff. split; [done|]. revert Hx. apply all_bytes_impl.
    intros c [Hc _]%ident_byte_range. apply negb_true_iff, Ascii.eqb_neq. intros <-.
    vm_compute in Hc. destruct Hc as [Hc _]. by apply Hc.
Qed.

Lemma clone_receiver_of_assignment_witness :
  clone_receiver (fun _ => false) ("let other " +:+ "= " +:+ "shared" +:+ ".clone()" +:+ ";")
  = Ok (Some "shared").
Proof. by apply (clone_receiver_of_assignment (fun _ => false) "let other " "shared" ";"). Defined.

Lemma ascii_graph_is_built_witness :
  exists g, build_ownership_memory_graph (fun _ => false) sample_sources sample_bindings
    [sample_move] [] = Ok g.
Proof.
  apply (ascii_graph_is_built (fun _ => false)).
  intros entry text ->%list_elem_of_singleton [= <-]. vm_compute. reflexivity.
Defined.

(** A character of several bytes right in front of the receiver: the slice
    starts one byte into it, and the compiler panics.  The text can be in a
    comment. *)
Theorem wide_character_panics alphanumeric :
  alphanumeric "→" = false ->
  let text := "let y = 1; // →x.clone()" in
  shared_clone_source alphanumeric
    [("/work/main.rs", mk_ssource "/work/main.rs" (stable_source_hash text) (Some text))]
    (mk_obinding 1 (mk_sbinding "/work/main.rs" 4 "y") "i32" None None [])
  = Err "byte index is not a char boundary".
Proof. intros H. vm_compute in H. vm_compute. by rewrite H. Qed.

Lemma wide_character_panics_witness :
  shared_clone_source (fun _ => false)
    [("/work/main.rs", mk_ssource "/work/main.rs"
        (stable_source_hash "let y = 1; // →x.clone()") (Some "let y = 1; // →x.clone()"))]
    (mk_obinding 1 (mk_sbinding "/work/main.rs" 4 "y") "i32" None None [])
  = Err "byte index is not a char boundary".
Proof. by apply (wide_character_panics (fun _ => false)). Defined.
