(* ===== verification/AllocationSpec.v ===== *)
(** * What moves and borrows do to the compiler's graph

    A whole move hands the source's allocation to the destination's handle and
    removes the destination's own picture of an allocation, with everything
    reachable from it.  The removal is right as long as no other handle leads
    into the removed part; the last theorems show what is lost otherwise, which
    relation the end of a borrow removes, and which binding a shadowed name is
    taken for. *)

From Stdlib Require Import String.
From S2P Require Import Prelude RustStr RustColl RustPath Fnv CompilerData MemoryGraph MemoryGraphSpec.
From stdpp Require Import relations options.

Lemma elem_of_node_ids g id : id ∈ node_ids g <-> exists node, node ∈ sgraph_nodes g /\ snode_id node = id.
Proof. unfold node_ids. rewrite list_elem_of_fmap. naive_solver. Qed.

Lemma removed_ids g allocation id :
  id ∈ node_ids (remove_duplicate_allocation g allocation) <->
  id ∈ node_ids g /\ ~ rtc (edge_step (sgraph_edges g)) allocation id.
Proof. rewrite !elem_of_node_ids. setoid_rewrite removed_nodes. naive_solver. Qed.

(** C34: A move between two places with an allocation of their own: afterwards the
    destination's handle has an edge of the source's relation to the source's
    allocation, the source's handle is recorded as moved, the destination's own
    allocation is gone, and any other node is kept exactly when it cannot be
    reached from that allocation. *)
Theorem move_hands_over_allocation event node_id target g
    source_handle source_allocation relation destination_handle duplicate other :
  allocation_link_for_root g node_id = Some (source_handle, source_allocation, relation) ->
  allocation_link_for_root g target = Some (destination_handle, duplicate, other) ->
  let '(g', deltas) := move_allocation event node_id target g in
  (exists edge, edge ∈ sgraph_edges g' /\
     edge_link edge = (destination_handle, source_allocation, relation) /\
     sedge_event_id edge = Some (oevent_event_id event)) /\
  deltas = [mk_sdelta source_handle None OwnershipState.Moved None (Some relation)] /\
  is_allocation_relation relation = true /\
  (duplicate ∉ node_ids g') /\
  (forall id, id ∈ node_ids g' <->
     id ∈ node_ids g /\ ~ rtc (edge_step (sgraph_edges g)) duplicate id).
Proof.
  intros Hs Ht. unfold move_allocation. rewrite Hs, Ht.
  split_and!.
  - exists (event_edge event (allocation_identity event relation source_allocation)
      destination_handle source_allocation relation).
    split_and!; [|done|done]. simpl. apply elem_of_app. right. by apply list_elem_of_singleton.
  - done.
  - apply allocation_link_sound in Hs as (edge & _ & Hl & Ha & _).
    unfold edge_link in Hl. by simplify_eq.
  - change (node_ids (push_edge ?e ?g)) with (node_ids g). rewrite removed_ids.
    intros [_ H]. by apply H.
  - intros id. apply removed_ids.
Qed.

(** The sample before the move [b = c]. *)
Definition sample_before : SerializedBorrowckMemoryGraph :=
  foldl (add_binding sample_bindings) empty_graph sample_bindings.

Definition sample_root (name : string) (start : N) : string :=
  binding_node_id (rc_binding name start) sample_bindings.

Lemma move_hands_over_allocation_witness :
  exists edge,
    edge ∈ sgraph_edges (move_allocation sample_move (sample_root "c" 51) (sample_root "b" 28)
                           sample_before).1 /\
    sedge_relation edge = Relation.SharesAllocation /\ sedge_event_id edge = Some "e1".
Proof.
  destruct (allocation_link_for_root sample_before (sample_root "c" 51)) as [[[sh sa] r]|] eqn:Hs;
    [|vm_compute in Hs; discriminate Hs].
  destruct (allocation_link_for_root sample_before (sample_root "b" 28)) as [[[dh da] r']|] eqn:Ht;
    [|vm_compute in Ht; discriminate Ht].
  pose proof (move_hands_over_allocation sample_move _ _ _ _ _ _ _ _ _ Hs Ht) as H.
  destruct (move_allocation _ _ _ _) as [g' deltas]. destruct H as ((edge & H1 & H2 & H3) & _).
  exists edge. split_and!; [exact H1| |exact H3].
  assert (r = Relation.SharesAllocation) as -> by (vm_compute in Hs; congruence).
  unfold edge_link in H2. congruence.
Defined.

(** The same move after [b] was cloned from [a]: the allocation behind [b] is
    [a]'s, so assigning [c] to [b] removes the allocation [a] still owns.  Every
    binding keeps its handle, and [a]'s leads nowhere. *)
Theorem reassigned_clone_loses_allocation :
  let g := built (sample_graph [sample_move]) in
  places_with NodeKind.ControlBlock (built (sample_graph [])) = ["c"; "a"] /\
  places_with NodeKind.ControlBlock g = ["c"] /\
  places_with NodeKind.Handle g = ["b"; "c"; "a"] /\
  allocation_link_for_root g (sample_root "a" 4) = None /\
  sgraph_truncated g = false.
Proof. vm_compute. done. Qed.

(** ** Which relations a snapshot can remove *)

Definition removal_ok (delta : SerializedBorrowckStateDelta) : Prop :=
  match sdelta_relation_removed delta with
  | None => True
  | Some relation => relation = Relation.BorrowShared \/ is_allocation_relation relation = true
  end.

Definition removals_ok (g : SerializedBorrowckMemoryGraph) : Prop :=
  forall snapshot delta, snapshot ∈ sgraph_snapshots g -> delta ∈ ssnapshot_deltas snapshot ->
    removal_ok delta.

Lemma removals_same g g' :
  sgraph_snapshots g' = sgraph_snapshots g -> removals_ok g -> removals_ok g'.
Proof. unfold removals_ok. by intros ->. Qed.

Lemma removals_push snapshot g :
  removals_ok g -> Forall removal_ok (ssnapshot_deltas snapshot) ->
  removals_ok (push_snapshot snapshot g).
Proof.
  intros Hg Hs s delta. simpl. rewrite elem_of_app, list_elem_of_singleton.
  intros [H| ->] Hd; [by eapply Hg|]. rewrite Forall_forall in Hs. auto.
Qed.

Lemma add_layers_snapshots binding id index previous layers g :
  sgraph_snapshots (add_layers binding id index previous layers g) = sgraph_snapshots g.
Proof.
  revert index previous g. induction layers as [|layer layers IH]; intros; simpl; [done|].
  rewrite IH. by destruct previous.
Qed.

Lemma ensure_place_snapshots g bindings body place span provenance :
  sgraph_snapshots (ensure_place_node g bindings body place span provenance).1 = sgraph_snapshots g.
Proof.
  unfold ensure_place_node. destruct (find_binding_node_id _ _ _); [|done].
  destruct (String.eqb _ _); [done|]. by destruct (existsb _ _).
Qed.

Lemma ensure_destination_snapshots bindings event g :
  sgraph_snapshots (ensure_destination bindings event g).1 = sgraph_snapshots g.
Proof.
  unfold ensure_destination. destruct (oevent_destination event) as [d|]; [|done].
  destruct (odestination_place d); [|done]. apply ensure_place_snapshots.
Qed.

Lemma move_allocation_facts event node target g :
  sgraph_snapshots (move_allocation event node target g).1 = sgraph_snapshots g /\
  Forall removal_ok (move_allocation event node target g).2.
Proof.
  unfold move_allocation.
  destruct (allocation_link_for_root g node) as [[[handle allocation] relation]|] eqn:H;
    [|by split].
  apply allocation_link_sound in H as (edge & _ & Hl & Ha & _).
  destruct (allocation_link_for_root g target) as [[[? ?] ?]|]; [|by split].
  split; [done|]. apply Forall_singleton. right. unfold edge_link in Hl. by simplify_eq.
Qed.

Lemma add_move_facts bindings event node g :
  sgraph_snapshots (add_move bindings event node g).1 = sgraph_snapshots g /\
  Forall removal_ok (add_move bindings event node g).2.
Proof.
  pose proof (ensure_destination_snapshots bindings event g) as Hd. unfold add_move.
  destruct (oevent_kind event); try (by split);
    destruct (ensure_destination bindings event g) as [g' [target|]]; simpl in *;
    rewrite <- Hd; try (by split).
  exact (move_allocation_facts event node target (push_edge _ g')).
Qed.

Lemma add_clone_snapshots bindings event node g :
  sgraph_snapshots (add_clone bindings event node g) = sgraph_snapshots g.
Proof.
  pose proof (ensure_destination_snapshots bindings event g) as Hd. unfold add_clone.
  destruct (negb _); [done|].
  destruct (ensure_destination bindings event g) as [g' [target|]]; simpl in Hd; [|done].
  destruct (allocation_link_for_root _ _) as [[[? ?] ?]|]; [|done]. destruct (negb _); [done|].
  by destruct (allocation_link_for_root _ _) as [[[? ?] ?]|].
Qed.

Lemma add_binding_removals bindings g binding :
  removals_ok g -> removals_ok (add_binding bindings g binding).
Proof.
  intros Hg. unfold add_binding.
  eapply removals_same; [done|]. apply removals_push; [|by repeat constructor].
  eapply removals_same; [|exact Hg]. apply add_layers_snapshots.
Qed.

Lemma add_derived_clone_removals alphanumeric sources bindings g destination g' :
  add_derived_clone alphanumeric sources bindings g destination = Ok g' ->
  removals_ok g -> removals_ok g'.
Proof.
  unfold add_derived_clone. intros (name & _ & H)%bind_ok Hg.
  destruct name as [name|]; [|by simplify_eq]. destruct (find_first _ _); simplify_eq; [|done].
  unfold link_clone. destruct (allocation_link_for_root _ _) as [[[? ?] ?]|]; [|done].
  destruct (negb _); [done|]. destruct (allocation_link_for_root _ _) as [[[? ?] ?]|]; [|done].
  apply removals_push; [|by repeat constructor]. by eapply removals_same; [|exact Hg].
Qed.

Lemma add_loan_removals bindings g loan : removals_ok g -> removals_ok (add_loan bindings g loan).
Proof.
  pose proof (ensure_place_snapshots g bindings (oloan_body_id loan) (oloan_place loan)
    (Some (opoint_span (oloan_reserve loan))) Provenance.Exact) as H. unfold add_loan.
  destruct (ensure_place_node _ _ _ _ _ _) as [g' [root|]]; by apply removals_same.
Qed.

Lemma event_delta_removal event node : removal_ok (event_delta event node).
Proof. unfold removal_ok, event_delta. simpl. case_bool_decide; [by left|done]. Qed.

Lemma add_event_removals bindings g event :
  removals_ok g -> removals_ok (add_event bindings g event).
Proof.
  intros Hg. unfold add_event.
  pose proof (ensure_place_snapshots g bindings (oevent_body_id event) (oevent_place event)
    (Some (event_span event)) Provenance.Exact) as H.
  destruct (ensure_place_node _ _ _ _ _ _) as [g' [node|]]; simpl in H;
    [|by eapply removals_same].
  destruct (add_move_facts bindings event node g') as [Hs Hr].
  destruct (add_move bindings event node g') as [g'' deltas]; simpl in Hs, Hr.
  apply removals_push.
  - eapply removals_same; [|exact Hg]. by rewrite add_clone_snapshots, Hs.
  - constructor; [apply event_delta_removal|done].
Qed.

Lemma foldl_invariant {A B} (f : B -> A -> B) (P : B -> Prop) l b :
  (forall b x, P b -> P (f b x)) -> P b -> P (foldl f b l).
Proof. intros Hf. revert b. induction l; simpl; auto. Qed.

Lemma fold_result_invariant {A B} (f : B -> A -> result B) (P : B -> Prop) l b b' :
  (forall b x b', f b x = Ok b' -> P b -> P b') -> P b -> fold_result f b l = Ok b' -> P b'.
Proof.
  intros Hf. revert b. induction l as [|x l IH]; intros b Hb; simpl; [by intros [= <-]|].
  intros (b1 & H1 & H2)%bind_ok. eauto.
Qed.

(** No snapshot of any graph removes a [BorrowMutable] relation: the end of an
    exclusive borrow is recorded as the end of a shared one, so an exclusive
    borrow's edge is never taken away. *)
Theorem exclusive_borrow_never_removed alphanumeric sources bindings events loans g snapshot delta :
  build_ownership_memory_graph alphanumeric sources bindings events loans = Ok g ->
  snapshot ∈ sgraph_snapshots g -> delta ∈ ssnapshot_deltas snapshot ->
  sdelta_relation_removed delta <> Some Relation.BorrowMutable.
Proof.
  unfold build_ownership_memory_graph. intros (g1 & H1 & [= <-])%bind_ok Hin Hd Hremoved.
  assert (removals_ok (foldl (add_event bindings) (foldl (add_loan bindings) g1 loans) events))
    as Hok.
  { apply (foldl_invariant (add_event bindings)); [intros; by apply add_event_removals|].
    apply (foldl_invariant (add_loan bindings)); [intros; by apply add_loan_removals|].
    eapply (fold_result_invariant (add_derived_clone alphanumeric sources bindings));
      [apply add_derived_clone_removals| |exact H1].
    apply (foldl_invariant (add_binding bindings)); [intros; by apply add_binding_removals|].
    by intros ? ? ?%not_elem_of_nil. }
  assert (snapshot ∈ sgraph_snapshots
    (foldl (add_event bindings) (foldl (add_loan bindings) g1 loans) events)) as Hin'.
  { simpl in Hin. eapply elem_of_sublist in Hin; [|apply truncate_sublist].
    by rewrite elem_of_sort_by in Hin. }
  specialize (Hok snapshot delta Hin' Hd). unfold removal_ok in Hok. rewrite Hremoved in Hok.
  naive_solver.
Qed.

(** An exclusive loan of [c] and its end. *)
Definition sample_span : SerializedBorrowckSpan := mk_sspan sample_path 67 72.

Definition sample_loan : SerializedBorrowckOwnershipLoan :=
  mk_oloan 1 0 LoanKind.Mutable (mk_sbinding sample_path 51 "c") "c" (mk_opoint 0 5 sample_span)
    None [] [] false.

Definition sample_end : SerializedBorrowckOwnershipEvent :=
  mk_oevent "e2" 1 0 9 EventKind.BorrowEnd OwnershipState.Available sample_path 67 72
    (mk_sbinding sample_path 51 "c") "c" (Some 0%N) None None.

Definition sample_loan_graph : SerializedBorrowckMemoryGraph :=
  built (build_ownership_memory_graph (fun _ => false) sample_sources sample_bindings [sample_end]
           [sample_loan]).

(** Its graph has the exclusive edge, and the last snapshot removes a shared one. *)
Example sample_end_removes_shared :
  Relation.BorrowMutable ∈ (sedge_relation <$> sgraph_edges sample_loan_graph) /\
  (sdelta_relation_removed <$> (sgraph_snapshots sample_loan_graph ≫= ssnapshot_deltas))
  = [None; None; None; None; Some Relation.BorrowShared].
Proof. split; [apply (bool_decide_eq_true_1 _)|]; vm_compute; reflexivity. Qed.

Lemma exclusive_borrow_never_removed_witness :
  Forall (fun snapshot =>
    Forall (fun delta => sdelta_relation_removed delta <> Some Relation.BorrowMutable)
      (ssnapshot_deltas snapshot)) (sgraph_snapshots sample_loan_graph).
Proof.
  apply Forall_forall. intros snapshot Hs. apply Forall_forall. intros delta Hd.
  apply (exclusive_borrow_never_removed (fun _ => false) sample_sources sample_bindings [sample_end]
    [sample_loan] sample_loan_graph snapshot); [vm_compute; reflexivity|exact Hs|exact Hd].
Defined.

(** ** Shadowed names *)

(** The node an event is attached to is the first binding of its body with that
    name, wherever the event says its binding starts. *)
Lemma event_goes_to_first_binding bindings g event first :
  oevent_place event = place_root (oevent_place event) ->
  find_first (fun binding => (obinding_body_id binding =? oevent_body_id event)%N
                && String.eqb (binding_name binding) (place_root (oevent_place event))) bindings
  = Some first ->
  exists deltas,
    event_snapshot event (event_delta event (binding_node_id first bindings) :: deltas)
      ∈ sgraph_snapshots (add_event bindings g event).
Proof.
  intros Hplace Hfirst. unfold add_event, ensure_place_node, find_binding_node_id.
  rewrite Hfirst. cbn. rewrite <- Hplace, String.eqb_refl.
  destruct (add_move bindings event _ g) as [g' deltas]. exists deltas. simpl. set_solver.
Qed.

(** A second [a] shadows the first; its drop is drawn on the first one's node,
    although the two bindings have nodes of their own and the event says which
    binding it is about. *)
Theorem shadowing_event_drawn_on_shadowed_binding :
  let bindings := [rc_binding "a" 4; rc_binding "a" 28] in
  let dropped :=
    mk_oevent "e3" 1 0 9 EventKind.Drop OwnershipState.Dropped sample_path 67 72
      (mk_sbinding sample_path 28 "a") "a" None None None in
  let g := built (build_ownership_memory_graph (fun _ => false) [] bindings [dropped] []) in
  let first := binding_node_id (rc_binding "a" 4) bindings in
  let second := binding_node_id (rc_binding "a" 28) bindings in
  first <> second /\ second ∈ node_ids g /\
  (sdelta_node_id <$> (retain (fun snapshot => String.eqb (ssnapshot_event_id snapshot) "e3")
                         (sgraph_snapshots g) ≫= ssnapshot_deltas)) = [first].
Proof. cbv zeta. split_and!; [|apply (bool_decide_eq_true_1 _)|]; vm_compute; done. Qed.
