(* ===== verification/RepairPlan.v ===== *)
(** * The compiler's collector and plan writer

    The [Session] methods of [rust/compiler/rustc_session/src/borrowck_repair.rs]:
    the [record_*] methods that fill the collector, and
    [write_borrowck_repair_plan], which turns compiler spans into file offsets,
    sorts and deduplicates what was recorded, builds the memory graph and
    decides what is written where.

    The source map is the list of its files in position order.  The file system
    appears as the function [canonicalize]; what is written is the result of the
    method, the writing itself is not modelled.  An index out of the source map
    or a missing working directory panics, which is the error of a [result]. *)

From Stdlib Require Import Ascii String.
From S2P Require Import Prelude RustStr RustColl RustPath Fnv CompilerData MemoryGraph.
From stdpp Require Import options.

(** ** The collector *)

(** The options and the environment variable the methods consult. *)
Record Session : Type := mk_session {
  borrowck_ownership_events : bool;
  borrowck_ownership_model : option PathBuf;
  borrowck_autofix : option PathBuf;
  borrowck_autofix_wrapper_variants : bool;
  borrowck_wrapper_suggestions : bool;
  autofix_plan_env : option PathBuf;
  target_triple : string
}.

Definition is_some {A} (o : option A) : bool :=
  match o with
  | Some _ => true
  | None => false
  end.

Definition borrowck_ownership_model_enabled (s : Session) : bool :=
  borrowck_ownership_events s || is_some (borrowck_ownership_model s).

Definition empty_collector : BorrowckRepairCollector := mk_collector [] [] [] [] [] [] [] [].

Definition record_borrowck_ownership_body (s : Session) (body : BorrowckOwnershipBody)
    (c : BorrowckRepairCollector) : BorrowckRepairCollector :=
  if borrowck_ownership_model_enabled s then
    mk_collector (collector_ownership_bindings c) (collector_ownership_bodies c ++ [body])
      (collector_ownership_events c) (collector_ownership_loans c) (collector_repairs c)
      (collector_wrapper_intents c) (collector_wrapper_variants c) (collector_wrapper_rejections c)
  else c.

Definition record_borrowck_ownership_binding (s : Session) (binding : BorrowckOwnershipBinding)
    (c : BorrowckRepairCollector) : BorrowckRepairCollector :=
  if borrowck_ownership_model_enabled s && negb (from_expansion (cbinding_span binding)) then
    mk_collector (collector_ownership_bindings c ++ [binding]) (collector_ownership_bodies c)
      (collector_ownership_events c) (collector_ownership_loans c) (collector_repairs c)
      (collector_wrapper_intents c) (collector_wrapper_variants c) (collector_wrapper_rejections c)
  else c.

Definition record_borrowck_ownership_loan (s : Session) (loan : BorrowckOwnershipLoan)
    (c : BorrowckRepairCollector) : BorrowckRepairCollector :=
  if borrowck_ownership_model_enabled s && negb (from_expansion (cloan_binding_span loan)) then
    mk_collector (collector_ownership_bindings c) (collector_ownership_bodies c)
      (collector_ownership_events c) (collector_ownership_loans c ++ [loan]) (collector_repairs c)
      (collector_wrapper_intents c) (collector_wrapper_variants c) (collector_wrapper_rejections c)
  else c.

Definition record_borrowck_ownership_event (s : Session) (event : BorrowckOwnershipEvent)
    (c : BorrowckRepairCollector) : BorrowckRepairCollector :=
  if negb (borrowck_ownership_model_enabled s) then c
  else if from_expansion (cevent_span event) || from_expansion (cevent_binding_span event) then c
  else
    mk_collector (collector_ownership_bindings c) (collector_ownership_bodies c)
      (collector_ownership_events c ++ [event]) (collector_ownership_loans c) (collector_repairs c)
      (collector_wrapper_intents c) (collector_wrapper_variants c) (collector_wrapper_rejections c).

Definition record_borrowck_repair_for_binding (s : Session) (kind : RepairKind.BorrowckRepairKind)
    (binding_span : option Span) (edits : list (Span * string)) (c : BorrowckRepairCollector) :
    BorrowckRepairCollector :=
  if negb (is_some (borrowck_autofix s)) && negb (borrowck_wrapper_suggestions s) then c
  else if negb (is_some (autofix_plan_env s)) then c
  else if match edits with [] => true | _ => false end
          || existsb (fun edit => from_expansion edit.1) edits then c
  else
    mk_collector (collector_ownership_bindings c) (collector_ownership_bodies c)
      (collector_ownership_events c) (collector_ownership_loans c)
      (collector_repairs c
       ++ [mk_rgroup kind binding_span ((fun edit => mk_redit edit.1 edit.2) <$> edits)])
      (collector_wrapper_intents c) (collector_wrapper_variants c) (collector_wrapper_rejections c).

Definition record_borrowck_repair (s : Session) (kind : RepairKind.BorrowckRepairKind)
    (edits : list (Span * string)) (c : BorrowckRepairCollector) : BorrowckRepairCollector :=
  record_borrowck_repair_for_binding s kind None edits c.

Definition record_borrowck_wrapper_intent (s : Session) (intent : BorrowckWrapperIntent)
    (c : BorrowckRepairCollector) : BorrowckRepairCollector :=
  if negb (is_some (borrowck_autofix s) && borrowck_autofix_wrapper_variants s)
     && negb (borrowck_wrapper_suggestions s) then c
  else if negb (is_some (autofix_plan_env s)) then c
  else
    mk_collector (collector_ownership_bindings c) (collector_ownership_bodies c)
      (collector_ownership_events c) (collector_ownership_loans c) (collector_repairs c)
      (collector_wrapper_intents c ++ [intent]) (collector_wrapper_variants c)
      (collector_wrapper_rejections c).

Definition record_borrowck_wrapper_variant (variant : BorrowckWrapperVariant)
    (c : BorrowckRepairCollector) : BorrowckRepairCollector :=
  mk_collector (collector_ownership_bindings c) (collector_ownership_bodies c)
    (collector_ownership_events c) (collector_ownership_loans c) (collector_repairs c)
    (collector_wrapper_intents c) (collector_wrapper_variants c ++ [variant])
    (collector_wrapper_rejections c).

Definition record_borrowck_wrapper_rejection (rejection : BorrowckWrapperRejection)
    (c : BorrowckRepairCollector) : BorrowckRepairCollector :=
  mk_collector (collector_ownership_bindings c) (collector_ownership_bodies c)
    (collector_ownership_events c) (collector_ownership_loans c) (collector_repairs c)
    (collector_wrapper_intents c) (collector_wrapper_variants c)
    (collector_wrapper_rejections c ++ [rejection]).

(** One call of a [record_*] method. *)
Inductive record_step (s : Session) : BorrowckRepairCollector -> BorrowckRepairCollector -> Prop :=
| RecordBody body c : record_step s c (record_borrowck_ownership_body s body c)
| RecordBinding binding c : record_step s c (record_borrowck_ownership_binding s binding c)
| RecordLoan loan c : record_step s c (record_borrowck_ownership_loan s loan c)
| RecordEvent event c : record_step s c (record_borrowck_ownership_event s event c)
| RecordRepair kind span edits c :
    record_step s c (record_borrowck_repair_for_binding s kind span edits c)
| RecordIntent intent c : record_step s c (record_borrowck_wrapper_intent s intent c)
| RecordVariant variant c : record_step s c (record_borrowck_wrapper_variant variant c)
| RecordRejection rejection c : record_step s c (record_borrowck_wrapper_rejection rejection c).

(** ** The source map *)

(** A real file name has a local path unless it was remapped. *)
Inductive FileName : Type :=
| Real (local_path : option PathBuf)
| OtherFileName.

Record SourceFile : Type := mk_source_file {
  sf_name : FileName;
  sf_src : option string;
  sf_external_src : option string;
  sf_start_pos : N;
  sf_normalized_source_len : N
}.

Record SourceMap : Type := mk_source_map {
  source_files : list SourceFile;
  working_dir : option PathBuf
}.

Definition lookup_source_file (map : SourceMap) (pos : N) : result SourceFile :=
  match last (take_while (fun file => (sf_start_pos file <=? pos)%N) (source_files map)) with
  | Some file => Ok file
  | None => Err "position is before every source file"
  end.

(** The file and the offset in it. *)
Definition lookup_byte_offset (map : SourceMap) (pos : N) : result (SourceFile * N) :=
  file ← lookup_source_file map pos;
  Ok (file, (pos - sf_start_pos file)%N).

(** [str::get(start..end)] *)
Definition get_slice (source : string) (start finish : N) : option string :=
  match split_str_at source finish with
  | Ok (before, _) =>
      match split_str_at before start with
      | Ok (_, slice) => Some slice
      | Err _ => None
      end
  | Err _ => None
  end.

(** [span_to_snippet(span).unwrap_or_default()] *)
Definition snippet_or_default (map : SourceMap) (span : Span) : result string :=
  '(file, start) ← lookup_byte_offset map (span_lo span);
  '(file', finish) ← lookup_byte_offset map (span_hi span);
  Ok (if negb (sf_start_pos file =? sf_start_pos file')%N then ""
      else if (finish <? start)%N || (sf_normalized_source_len file <? finish)%N then ""
      else
        match sf_src file with
        | Some source => default "" (get_slice source start finish)
        | None =>
            match sf_external_src file with
            | Some source => default "" (get_slice source start finish)
            | None => ""
            end
        end).

(** ** Serialization: a state monad over the source texts seen so far *)

Definition Sources : Type := list (PathBuf * SerializedBorrowckRepairSource).

Definition PlanM (A : Type) : Type := Sources -> result (A * Sources).

#[export] Instance planm_ret : MRet PlanM := fun A a sources => Ok (a, sources).
#[export] Instance planm_bind : MBind PlanM := fun A B f m sources =>
  '(a, sources) ← m sources; f a sources.

Definition lift_result {A} (r : result A) : PlanM A := fun sources => a ← r; Ok (a, sources).

(** [let x = m?; ...] inside a closure that returns an [Option]. *)
Definition and_then {A B} (m : PlanM (option A)) (f : A -> PlanM (option B)) : PlanM (option B) :=
  o ← m;
  match o with
  | Some a => f a
  | None => mret None
  end.

Notation "x ←? y ; z" := (and_then y (fun x => z))
  (at level 20, y at level 100, z at level 200, only parsing) : rust_scope.
Local Open Scope rust_scope.

(** [iter().filter_map(f).collect()], and a [for] loop that pushes what [f]
    returns and [continue]s otherwise. *)
Fixpoint filter_map_m {A B} (f : A -> PlanM (option B)) (l : list A) : PlanM (list B) :=
  match l with
  | [] => mret []
  | x :: l =>
      o ← f x;
      rest ← filter_map_m f l;
      mret (match o with Some b => b :: rest | None => rest end)
  end.

(** [iter().map(f).collect::<Option<Vec<_>>>()] stops at the first [None]. *)
Fixpoint collect_m {A B} (f : A -> PlanM (option B)) (l : list A) : PlanM (option (list B)) :=
  match l with
  | [] => mret (Some [])
  | x :: l => b ←? f x; rest ←? collect_m f l; mret (Some (b :: rest))
  end.

(** [o.and_then(f)] *)
Definition option_and_then {A B} (o : option A) (f : A -> PlanM (option B)) : PlanM (option B) :=
  match o with
  | Some a => f a
  | None => mret None
  end.

Section plan.
Context (alphanumeric : string -> bool) (canonicalize : PathBuf -> option PathBuf)
  (source_map : SourceMap).

(** The absolute path of a local file: joined to the working directory, then
    canonicalized if the file system can. *)
Definition absolute_source_path (local_path : PathBuf) : result PathBuf :=
  path ←
    (if is_absolute local_path then Ok local_path
     else
       match working_dir source_map with
       | Some directory => Ok (path_join directory local_path)
       | None => Err "the compiler working directory should be local"
       end);
  Ok (default path (canonicalize path)).

(** [sources.entry(path).or_insert_with(...)] *)
Definition note_source (path : PathBuf) (source : string) : PlanM unit := fun sources =>
  Ok (tt, btree_or_insert path (mk_ssource path (stable_source_hash source) (Some source)) sources).

Definition serialize_span (span : Span) : PlanM (option (PathBuf * N * N)) :=
  '(lo, lo_pos) ← lift_result (lookup_byte_offset source_map (span_lo span));
  '(hi, hi_pos) ← lift_result (lookup_byte_offset source_map (span_hi span));
  if negb (sf_start_pos lo =? sf_start_pos hi)%N then mret None
  else
    match sf_name lo with
    | OtherFileName => mret None
    | Real None => mret None
    | Real (Some local_path) =>
        path ← lift_result (absolute_source_path local_path);
        match sf_src lo with
        | None => mret None
        | Some source =>
            _ ← note_source path source;
            mret (Some (path, lo_pos, hi_pos))
        end
    end.

(** Many callers keep the triple as a span. *)
Definition serialize_full_span (span : Span) : PlanM (option SerializedBorrowckSpan) :=
  triple ←? serialize_span span;
  mret (Some (mk_sspan triple.1.1 triple.1.2 triple.2)).

Definition serialize_binding (span : Span) (name : string) :
    PlanM (option SerializedBorrowckBinding) :=
  triple ←? serialize_span span;
  mret (Some (mk_sbinding triple.1.1 triple.1.2 name)).

Definition serialize_edit (edit : BorrowckRepairEdit) :
    PlanM (option SerializedBorrowckRepairEdit) :=
  triple ←? serialize_span (redit_span edit);
  mret (Some (mk_sedit triple.1.1 triple.1.2 triple.2 (redit_replacement edit))).

Definition serialize_edits (edits : list BorrowckRepairEdit) :
    PlanM (option (list SerializedBorrowckRepairEdit)) := collect_m serialize_edit edits.

(** [&& !edits.is_empty()] *)
Definition nonempty_edits (edits : list BorrowckRepairEdit) :
    PlanM (option (list SerializedBorrowckRepairEdit)) :=
  edits ←? serialize_edits edits;
  mret (match edits with [] => None | _ => Some edits end).

Definition serialize_group (group : BorrowckRepairGroup) :
    PlanM (option SerializedBorrowckRepairGroup) :=
  edits ←? nonempty_edits (rgroup_edits group);
  binding ←
    option_and_then (rgroup_binding_span group) (fun span =>
      name ← lift_result (snippet_or_default source_map span);
      serialize_binding span name);
  mret (Some (mk_sgroup (rgroup_kind group) binding edits)).

Definition serialize_variant (variant : BorrowckWrapperVariant) :
    PlanM (option SerializedBorrowckWrapperVariant) :=
  binding ←? serialize_binding (variant_binding_span variant) (variant_binding_name variant);
  trigger ←? serialize_full_span (variant_trigger_span variant);
  edits ←? nonempty_edits (variant_edits variant);
  mret (Some (mk_svariant binding trigger (variant_strategy variant) edits)).

Definition serialize_rejection (rejection : BorrowckWrapperRejection) :
    PlanM (option SerializedBorrowckWrapperRejection) :=
  binding ←? serialize_binding (rejection_binding_span rejection) (rejection_binding_name rejection);
  mret (Some (mk_srejection binding (rejection_strategy rejection) (rejection_reason rejection))).

Definition serialize_block (block : BorrowckOwnershipBlock) :
    PlanM (option SerializedBorrowckOwnershipBlock) :=
  span ←? serialize_full_span (cblock_span block);
  mret (Some (mk_oblock (cblock_basic_block block) span (cblock_successors block))).

Definition serialize_body (body : BorrowckOwnershipBody) :
    PlanM (option SerializedBorrowckOwnershipBody) :=
  span ←? serialize_full_span (cbody_span body);
  blocks ← filter_map_m serialize_block (cbody_blocks body);
  mret (Some (mk_obody (cbody_body_id body) (cbody_name body) span blocks)).

Definition layer_is_conceptual (kind : MemoryKind.BorrowckMemoryKind) : bool :=
  match kind with
  | MemoryKind.ArcAllocation | MemoryKind.ContainerBuffer | MemoryKind.FatPointerMetadata
  | MemoryKind.PinConstraint | MemoryKind.RcAllocation | MemoryKind.StringBuffer
  | MemoryKind.VecBuffer | MemoryKind.WeakAllocation => true
  | _ => false
  end.

Definition serialize_layer (layer : BorrowckMemoryLayer) : SerializedBorrowckMemoryLayer :=
  mk_slayer (clayer_kind layer) (clayer_storage layer) (clayer_label layer)
    (clayer_type_name layer) (clayer_size layer) (clayer_align layer)
    (if is_some (clayer_size layer) && negb (layer_is_conceptual (clayer_kind layer))
     then "target_layout" else "conceptual").

Definition serialize_ownership_binding (binding : BorrowckOwnershipBinding) :
    PlanM (option SerializedBorrowckOwnershipBinding) :=
  serialized ←? serialize_binding (cbinding_span binding) (cbinding_name binding);
  mret (Some (mk_obinding (cbinding_body_id binding) serialized (cbinding_type_name binding)
    (cbinding_size binding) (cbinding_align binding)
    (serialize_layer <$> cbinding_memory_layers binding))).

Definition serialize_loan_point (point : BorrowckOwnershipLoanPoint) :
    PlanM (option SerializedBorrowckOwnershipLoanPoint) :=
  span ←? serialize_full_span (cpoint_span point);
  mret (Some (mk_opoint (cpoint_basic_block point) (cpoint_statement_index point) span)).

Definition serialize_loan (loan : BorrowckOwnershipLoan) :
    PlanM (option SerializedBorrowckOwnershipLoan) :=
  binding ←? serialize_binding (cloan_binding_span loan) (cloan_binding_name loan);
  reserve ←? serialize_loan_point (cloan_reserve loan);
  activation ← option_and_then (cloan_activation loan) serialize_loan_point;
  live_points ← filter_map_m serialize_loan_point (cloan_live_points loan);
  end_points ← filter_map_m serialize_loan_point (cloan_end_points loan);
  mret (Some (mk_oloan (cloan_body_id loan) (cloan_loan_id loan) (cloan_kind loan) binding
    (cloan_place loan) reserve activation live_points end_points (cloan_truncated loan))).

(** *** Event identities *)

(** [n.to_le_bytes()] of an integer of the given number of bytes. *)
Fixpoint to_le_bytes (bytes : nat) (n : N) : string :=
  match bytes with
  | O => EmptyString
  | S bytes => String (ascii_of_N (n mod 256)) (to_le_bytes bytes (n / 256))
  end.

Definition event_identity (event : BorrowckOwnershipEvent) : string :=
  to_le_bytes 8 (cevent_body_id event) +:+ to_le_bytes 4 (cevent_basic_block event)
  +:+ to_le_bytes 4 (cevent_statement_index event)
  +:+ to_le_bytes 1 (EventKind.discriminant (cevent_kind event)) +:+ cevent_place event
  +:+ to_le_bytes 4 (default (umax 32) (cevent_loan_id event)).

Definition ownership_event_id (event : BorrowckOwnershipEvent) : string :=
  format_016x (fnv_hash FNV_OFFSET (event_identity event)).

Definition serialize_destination (destination : BorrowckOwnershipDestination) :
    PlanM SerializedBorrowckOwnershipDestination :=
  span ← option_and_then (cdestination_span destination) serialize_full_span;
  mret (mk_odestination (cdestination_kind destination) (cdestination_label destination)
    (cdestination_place destination) span).

Definition serialize_event (event : BorrowckOwnershipEvent) :
    PlanM (option SerializedBorrowckOwnershipEvent) :=
  triple ←? serialize_span (cevent_span event);
  binding ←? serialize_binding (cevent_binding_span event) (cevent_binding_name event);
  destination ←
    option_and_then (cevent_destination event) (fun destination =>
      destination ← serialize_destination destination; mret (Some destination));
  mret (Some (mk_oevent (ownership_event_id event) (cevent_body_id event)
    (cevent_basic_block event) (cevent_statement_index event) (cevent_kind event)
    (cevent_state event) triple.1.1 triple.1.2 triple.2 binding (cevent_place event)
    (cevent_loan_id event) (cevent_detail event) destination)).

(** *** Orders *)

Definition body_leb : SerializedBorrowckOwnershipBody -> SerializedBorrowckOwnershipBody -> bool :=
  on obody_body_id N.leb.

Definition order_bodies (bodies : list SerializedBorrowckOwnershipBody) :
    list SerializedBorrowckOwnershipBody :=
  dedup_by (fun a b => (obody_body_id a =? obody_body_id b)%N) (sort_by body_leb bodies).

Definition binding_key (binding : SerializedBorrowckOwnershipBinding) :
    N * (list Component * (N * string)) :=
  (obinding_body_id binding,
   (components (binding_path binding), (binding_start binding, binding_name binding))).

Definition binding_key_leb :
    N * (list Component * (N * string)) -> N * (list Component * (N * string)) -> bool :=
  lex_leb N.compare (lex_leb (list_cmp component_cmp) (lex_leb N.compare String.leb)).

Definition same_binding_site (a b : SerializedBorrowckOwnershipBinding) : bool :=
  (obinding_body_id a =? obinding_body_id b)%N && path_eqb (binding_path a) (binding_path b)
  && (binding_start a =? binding_start b)%N.

Definition order_bindings (bindings : list SerializedBorrowckOwnershipBinding) :
    list SerializedBorrowckOwnershipBinding :=
  dedup_by same_binding_site (sort_by (on binding_key binding_key_leb) bindings).

Definition loan_key (loan : SerializedBorrowckOwnershipLoan) : N * N :=
  (oloan_body_id loan, oloan_loan_id loan).

Definition same_loan (a b : SerializedBorrowckOwnershipLoan) : bool :=
  (oloan_body_id a =? oloan_body_id b)%N && (oloan_loan_id a =? oloan_loan_id b)%N.

Definition order_loans (loans : list SerializedBorrowckOwnershipLoan) :
    list SerializedBorrowckOwnershipLoan :=
  dedup_by same_loan (sort_by (on loan_key (lex_leb N.compare N.leb)) loans).

Definition EventKey : Type :=
  list Component * (N * (N * (N * (N * (N * (string * option N)))))).

Definition event_key (event : SerializedBorrowckOwnershipEvent) : EventKey :=
  (components (oevent_path event),
   (oevent_byte_start event,
    (oevent_body_id event,
     (oevent_basic_block event,
      (oevent_statement_index event,
       (EventKind.discriminant (oevent_kind event),
        (oevent_place event, oevent_loan_id event))))))).

Definition event_key_leb : EventKey -> EventKey -> bool :=
  lex_leb (list_cmp component_cmp)
    (lex_leb N.compare
       (lex_leb N.compare
          (lex_leb N.compare
             (lex_leb N.compare
                (lex_leb N.compare (lex_leb String.compare (option_leb N.leb))))))).

Definition order_events (events : list SerializedBorrowckOwnershipEvent) :
    list SerializedBorrowckOwnershipEvent :=
  dedup_by (fun a b => String.eqb (oevent_event_id a) (oevent_event_id b))
    (sort_by (on event_key event_key_leb) events).

(** *** The plan *)

(** Everything the closures serialize, in the order they run. *)
Definition serialize_collector (c : BorrowckRepairCollector) :
    PlanM (list SerializedBorrowckRepairGroup * list SerializedBorrowckWrapperVariant
           * list SerializedBorrowckWrapperRejection * list SerializedBorrowckOwnershipBody
           * list SerializedBorrowckOwnershipBinding * list SerializedBorrowckOwnershipLoan
           * list SerializedBorrowckOwnershipEvent) :=
  repairs ← filter_map_m serialize_group (collector_repairs c);
  variants ← filter_map_m serialize_variant (collector_wrapper_variants c);
  rejections ← filter_map_m serialize_rejection (collector_wrapper_rejections c);
  bodies ← filter_map_m serialize_body (collector_ownership_bodies c);
  bindings ← filter_map_m serialize_ownership_binding (collector_ownership_bindings c);
  loans ← filter_map_m serialize_loan (collector_ownership_loans c);
  events ← filter_map_m serialize_event (collector_ownership_events c);
  mret (repairs, variants, rejections, bodies, bindings, loans, events).

Definition borrowck_repair_plan (s : Session) (c : BorrowckRepairCollector) (crate_name : string)
    (stable_crate_id : N) : result SerializedBorrowckRepairPlan :=
  '(repairs, variants, rejections, bodies, bindings, loans, events, sources)
    ← serialize_collector c [];
  let bindings := order_bindings bindings in
  let loans := order_loans loans in
  let events := order_events events in
  memory_graph ← build_ownership_memory_graph alphanumeric sources bindings events loans;
  Ok (mk_plan BORROWCK_OWNERSHIP_MODEL_SCHEMA_VERSION (target_triple s) crate_name stable_crate_id
        (snd <$> sources) (order_bodies bodies) bindings events loans memory_graph repairs variants
        rejections).

Definition ownership_plan_content_hash (plan : SerializedBorrowckRepairPlan) : string :=
  stable_bytes_hash
    (String.concat ""
       ((fun source => ssource_path source +:+ ssource_source_hash source) <$> plan_sources plan)).

Definition without_text (source : SerializedBorrowckRepairSource) : SerializedBorrowckRepairSource :=
  mk_ssource (ssource_path source) (ssource_source_hash source) None.

Definition plan_with_sources (sources : list SerializedBorrowckRepairSource)
    (plan : SerializedBorrowckRepairPlan) : SerializedBorrowckRepairPlan :=
  mk_plan (plan_schema_version plan) (plan_target_triple plan) (plan_crate_name plan)
    (plan_stable_crate_id plan) sources (plan_ownership_bodies plan) (plan_ownership_bindings plan)
    (plan_ownership_events plan) (plan_ownership_loans plan) (plan_memory_graph plan)
    (plan_repairs plan) (plan_wrapper_variants plan) (plan_wrapper_rejections plan).

(** What the method writes: nothing, the plan an orchestrating driver asked for,
    or the persistent model, which goes to a file of its own without the source
    texts. *)
Inductive plan_output : Type :=
| NoPlan
| OrchestratedPlan (path : PathBuf) (plan : SerializedBorrowckRepairPlan)
| DirectModel (path : PathBuf) (plan : SerializedBorrowckRepairPlan).

Definition model_file_name (plan : SerializedBorrowckRepairPlan) : string :=
  plan_crate_name plan +:+ "-" +:+ format_016x (plan_stable_crate_id plan) +:+ "-"
  +:+ ownership_plan_content_hash plan +:+ ".json".

Definition write_borrowck_repair_plan (s : Session) (c : BorrowckRepairCollector)
    (crate_name : string) (stable_crate_id : N) : result plan_output :=
  match autofix_plan_env s, borrowck_ownership_model s with
  | None, None => Ok NoPlan
  | Some plan_path, _ =>
      plan ← borrowck_repair_plan s c crate_name stable_crate_id;
      Ok (OrchestratedPlan plan_path plan)
  | None, Some directory =>
      plan ← borrowck_repair_plan s c crate_name stable_crate_id;
      Ok (DirectModel (path_join directory (model_file_name plan))
            (plan_with_sources (without_text <$> plan_sources plan) plan))
  end.
End plan.
