(* ===== verification/RepairPlanSpec.v ===== *)
(** * Properties of the plan the compiler writes

    Invariants of the collector over any sequence of [record_*] calls; and of the
    plan: every path it mentions has a source entry with the hash of the text the
    offsets refer to, its tables are in order without duplicates, its graph is
    well formed, and the persistent model differs from it only in the texts it
    leaves out. *)

From Stdlib Require Import Ascii String.
From S2P Require Import Prelude RustStr RustColl RustPath Fnv CompilerData MemoryGraph MemoryGraphSpec CloneSourceSpec RepairPlan.
From stdpp Require Import relations options.

(** ** The collector *)

Record collector_inv (s : Session) (c : BorrowckRepairCollector) : Prop := {
  ci_bindings : Forall (fun b => from_expansion (cbinding_span b) = false)
    (collector_ownership_bindings c);
  ci_loans : Forall (fun l => from_expansion (cloan_binding_span l) = false)
    (collector_ownership_loans c);
  ci_events : Forall (fun e => from_expansion (cevent_span e) = false /\
    from_expansion (cevent_binding_span e) = false) (collector_ownership_events c);
  ci_repairs : Forall (fun g => rgroup_edits g <> [] /\
    Forall (fun e => from_expansion (redit_span e) = false) (rgroup_edits g)) (collector_repairs c);
  ci_disabled : borrowck_ownership_model_enabled s = false ->
    collector_ownership_bindings c = [] /\ collector_ownership_bodies c = [] /\
    collector_ownership_loans c = [] /\ collector_ownership_events c = [];
  ci_no_plan : autofix_plan_env s = None ->
    collector_repairs c = [] /\ collector_wrapper_intents c = []
}.

Lemma Forall_snoc {A} (P : A -> Prop) l x : Forall P l -> P x -> Forall P (l ++ [x]).
Proof. intros. apply Forall_app. auto. Qed.

Lemma record_repair_inv s kind span edits c :
  collector_inv s c -> collector_inv s (record_borrowck_repair_for_binding s kind span edits c).
Proof.
  intros Hinv. unfold record_borrowck_repair_for_binding. destruct (_ && _); [done|].
  destruct (autofix_plan_env s) eqn:Henv; simpl; [|done].
  destruct edits as [|edit edits]; [done|]. destruct (_ || _) eqn:Hexp; [done|].
  destruct Hinv. constructor; simpl; try done; [|congruence]. apply Forall_snoc; [done|]. split; [done|].
  apply Forall_forall. intros e He.
  assert (exists x, x ∈ edit :: edits /\ e = mk_redit x.1 x.2) as (x & Hx & ->).
  { apply (list_elem_of_fmap (fun e : Span * string => mk_redit e.1 e.2) (edit :: edits) e) in He.
    naive_solver. }
  simpl. apply not_true_iff_false. intros Ht. rewrite <- not_true_iff_false in Hexp.
  apply Hexp. apply (existsb_exists (fun e : Span * string => from_expansion e.1) (edit :: edits)).
  exists x. rewrite <- list_elem_of_In. auto.
Qed.

Lemma record_step_inv s c c' : record_step s c c' -> collector_inv s c -> collector_inv s c'.
Proof.
  destruct 1 as [body c|b c|l c|e c|kind span edits c|i c|v c|r c]; intros Hinv.
  - unfold record_borrowck_ownership_body. destruct (borrowck_ownership_model_enabled s) eqn:He;
      [|done]. destruct Hinv. constructor; simpl; try done; congruence.
  - unfold record_borrowck_ownership_binding. destruct (_ && _) eqn:He; [|done].
    apply andb_true_iff in He as [He Hx%negb_true_iff]. destruct Hinv.
    constructor; simpl; try done; [by apply Forall_snoc|congruence].
  - unfold record_borrowck_ownership_loan. destruct (_ && _) eqn:He; [|done].
    apply andb_true_iff in He as [He Hx%negb_true_iff]. destruct Hinv.
    constructor; simpl; try done; [by apply Forall_snoc|congruence].
  - unfold record_borrowck_ownership_event.
    destruct (borrowck_ownership_model_enabled s) eqn:He; [|done]. simpl.
    destruct (_ || _) eqn:Hx; [done|]. apply orb_false_iff in Hx. destruct Hinv.
    constructor; simpl; try done; [by apply Forall_snoc|congruence].
  - by apply record_repair_inv.
  - unfold record_borrowck_wrapper_intent. destruct (_ && _); [done|].
    destruct (autofix_plan_env s) eqn:He; [|done]. simpl. destruct Hinv.
    constructor; simpl; try done; congruence.
  - destruct Hinv. by constructor.
  - destruct Hinv. by constructor.
Qed.

Lemma empty_collector_inv s : collector_inv s empty_collector.
Proof. by constructor. Qed.

(** Whatever the borrow checker records, the collector holds no binding, loan,
    event or edit from a macro expansion and no empty repair; it holds no
    ownership facts when the model is not requested, and no repair when no driver
    asked for a plan. *)
Theorem collector_holds_authored_facts s c :
  rtc (record_step s) empty_collector c -> collector_inv s c.
Proof.
  intros H. pose proof (empty_collector_inv s) as H0. revert H0.
  induction H as [c|c c' c'' Hstep _ IH]; [done|]. intros H0. by eapply IH, record_step_inv.
Qed.

Lemma collector_holds_authored_facts_witness :
  let s := mk_session true None None false false None "x86_64" in
  let loan_of e := mk_cbinding 1 (mk_span 0 1 e) "x" "i32" None None [] in
  collector_inv s
    (record_borrowck_ownership_binding s (loan_of true)
       (record_borrowck_ownership_binding s (loan_of false) empty_collector)).
Proof.
  intros s loan_of. apply collector_holds_authored_facts.
  eapply rtc_l; [apply RecordBinding|]. eapply rtc_l; [apply RecordBinding|]. apply rtc_refl.
Defined.

(** ** Every path has its source *)

(** An entry holds the text of its path and the hash of that text. *)
Definition source_entry_wf (entry : PathBuf * SerializedBorrowckRepairSource) : Prop :=
  ssource_path entry.2 = entry.1 /\
  exists text, ssource_source entry.2 = Some text /\
    ssource_source_hash entry.2 = stable_source_hash text.

Definition sources_wf (sources : Sources) : Prop :=
  btree_sorted sources /\ Forall source_entry_wf sources.

Definition known (sources : Sources) (path : PathBuf) : Prop :=
  exists entry, entry ∈ sources /\ path_eqb entry.1 path = true.

(** [m] keeps the source table well formed and only extends it; its result
    satisfies [P], a statement about the table [T] the whole run ends with. *)
Definition tracks {A} (T : Sources) (m : PlanM A) (P : A -> Prop) : Prop :=
  forall s a s', sources_wf s -> m s = Ok (a, s') -> sources_wf s' /\ s ⊆ s' /\ (s' ⊆ T -> P a).

Lemma tracks_ret {A} T (a : A) (P : A -> Prop) : P a -> tracks T (mret a) P.
Proof. intros Ha s a' s' Hs [= <- <-]. auto. Qed.

Lemma tracks_bind {A B} T (m : PlanM A) (f : A -> PlanM B) P Q :
  tracks T m P -> (forall a, tracks T (f a) (fun b => P a -> Q b)) -> tracks T (m ≫= f) Q.
Proof.
  intros Hm Hf s b s' Hs H. unfold mbind, planm_bind in H.
  apply bind_ok in H as ([a s1] & H1 & H2).
  destruct (Hm s a s1 Hs H1) as (Hs1 & Hsub & HP).
  destruct (Hf a s1 b s' Hs1 H2) as (Hs' & Hsub' & HQ). split_and!; [done|by etrans|].
  intros HT. apply HQ; [done|]. apply HP. by etrans.
Qed.

Lemma tracks_impl {A} T (m : PlanM A) (P Q : A -> Prop) :
  (forall a, P a -> Q a) -> tracks T m P -> tracks T m Q.
Proof. intros HPQ Hm s a s' Hs H. destruct (Hm s a s' Hs H) as (? & ? & ?). auto. Qed.

Lemma tracks_lift {A} T (r : result A) : tracks T (lift_result r) (fun _ => True).
Proof.
  intros s a s' Hs (x & _ & [= <- <-])%bind_ok. auto.
Qed.

(** [P] of a value that may be missing. *)
Definition on_some {A} (P : A -> Prop) (o : option A) : Prop :=
  match o with
  | Some a => P a
  | None => True
  end.

Lemma tracks_and_then {A B} T (m : PlanM (option A)) (f : A -> PlanM (option B)) P Q :
  tracks T m (on_some P) -> (forall a, tracks T (f a) (fun b => P a -> on_some Q b)) ->
  tracks T (and_then m f) (on_some Q).
Proof.
  intros Hm Hf. eapply tracks_bind; [exact Hm|]. intros [a|]; [|by apply tracks_ret].
  eapply tracks_impl; [|apply Hf]. naive_solver.
Qed.

Lemma tracks_filter_map {A B} T (f : A -> PlanM (option B)) P l :
  (forall a, tracks T (f a) (on_some P)) -> tracks T (filter_map_m f l) (Forall P).
Proof.
  intros Hf. induction l as [|x l IH]; simpl; [by apply tracks_ret|].
  eapply tracks_bind; [apply Hf|]. intros o.
  eapply tracks_bind; [exact IH|]. intros rest. apply tracks_ret. destruct o; simpl; auto.
Qed.

Lemma tracks_collect {A B} T (f : A -> PlanM (option B)) P l :
  (forall a, tracks T (f a) (on_some P)) -> tracks T (collect_m f l) (on_some (Forall P)).
Proof.
  intros Hf. induction l as [|x l IH]; simpl; [by apply tracks_ret, Forall_nil|].
  eapply tracks_and_then; [apply Hf|]. intros b.
  eapply tracks_impl; [|eapply (tracks_and_then T _ _ (Forall P) (fun r => P b -> Forall P r)); [exact IH|]].
  - intros [r|]; simpl; auto.
  - intros rest. apply tracks_ret. simpl. auto.
Qed.

Lemma tracks_option {A B} T (o : option A) (f : A -> PlanM (option B)) P :
  (forall a, tracks T (f a) (on_some P)) -> tracks T (option_and_then o f) (on_some P).
Proof. intros Hf. destruct o; [apply Hf|by apply tracks_ret]. Qed.

(** *** What each value mentions *)

Class Covered (A : Type) := covered : Sources -> A -> Prop.
#[export] Hint Mode Covered ! : typeclass_instances.

#[export] Instance covered_list {A} `{Covered A} : Covered (list A) := fun T => Forall (covered T).
#[export] Instance covered_option {A} `{Covered A} : Covered (option A) := fun T => on_some (covered T).
#[export] Instance covered_span : Covered SerializedBorrowckSpan := fun T s => known T (sspan_path s).
#[export] Instance covered_sbinding : Covered SerializedBorrowckBinding :=
  fun T b => known T (sbinding_path b).
#[export] Instance covered_edit : Covered SerializedBorrowckRepairEdit :=
  fun T e => known T (sedit_path e).
#[export] Instance covered_group : Covered SerializedBorrowckRepairGroup :=
  fun T g => covered T (sgroup_binding g) /\ covered T (sgroup_edits g).
#[export] Instance covered_variant : Covered SerializedBorrowckWrapperVariant :=
  fun T v => covered T (svariant_binding v) /\ covered T (svariant_trigger v) /\
             covered T (svariant_edits v).
#[export] Instance covered_rejection : Covered SerializedBorrowckWrapperRejection :=
  fun T r => covered T (srejection_binding r).
#[export] Instance covered_block : Covered SerializedBorrowckOwnershipBlock :=
  fun T b => covered T (oblock_span b).
#[export] Instance covered_body : Covered SerializedBorrowckOwnershipBody :=
  fun T b => covered T (obody_span b) /\ covered T (obody_blocks b).
#[export] Instance covered_binding : Covered SerializedBorrowckOwnershipBinding :=
  fun T b => covered T (obinding_binding b).
#[export] Instance covered_point : Covered SerializedBorrowckOwnershipLoanPoint :=
  fun T p => covered T (opoint_span p).
#[export] Instance covered_loan : Covered SerializedBorrowckOwnershipLoan :=
  fun T l => covered T (oloan_binding l) /\ covered T (oloan_reserve l) /\
             covered T (oloan_activation l) /\ covered T (oloan_live_points l) /\
             covered T (oloan_end_points l).
#[export] Instance covered_destination : Covered SerializedBorrowckOwnershipDestination :=
  fun T d => covered T (odestination_span d).
#[export] Instance covered_event : Covered SerializedBorrowckOwnershipEvent :=
  fun T e => known T (oevent_path e) /\ covered T (oevent_binding e) /\
             covered T (oevent_destination e).

Section tracking.
Context (canonicalize : PathBuf -> option PathBuf) (source_map : SourceMap) (T : Sources).

Lemma known_subset s path : s ⊆ T -> known s path -> known T path.
Proof. intros Hsub (entry & Hin & Heq). exists entry. auto. Qed.

Lemma note_source_tracks path source :
  tracks T (note_source path source) (fun _ => known T path).
Proof.
  intros s [] s' [Hsorted Hall] [= <-]. split_and!.
  - split; [by apply btree_or_insert_sorted|]. apply Forall_forall. intros entry He.
    apply btree_or_insert_elem in He as [->|He]; [split; simpl; eauto|].
    rewrite Forall_forall in Hall. auto.
  - intros entry. apply btree_or_insert_keeps.
  - intros HT. apply (known_subset _ _ HT), btree_or_insert_has.
Qed.

Lemma serialize_span_tracks span :
  tracks T (serialize_span canonicalize source_map span) (on_some (fun t => known T t.1.1)).
Proof.
  unfold serialize_span. eapply tracks_bind; [apply tracks_lift|]. intros [lo lo_pos].
  eapply tracks_impl; [|eapply (tracks_bind T _ _ (fun _ => True)); [apply tracks_lift|]].
  { intros a H _. exact H. }
  intros [hi hi_pos]. eapply tracks_impl; [intros a H _; exact H|].
  destruct (negb _); [by apply tracks_ret|].
  destruct (sf_name lo) as [[path|]|]; [|by apply tracks_ret..].
  eapply (tracks_bind T _ _ (fun _ => True)); [apply tracks_lift|]. intros absolute.
  eapply tracks_impl; [intros a H _; exact H|].
  destruct (sf_src lo) as [source|]; [|by apply tracks_ret].
  eapply tracks_bind; [apply note_source_tracks|]. intros []. by apply tracks_ret.
Qed.

(** With the value of the first step at hand; that the rest keeps the table well
    formed is shown apart. *)
Lemma tracks_step {A B} (m : PlanM A) (f : A -> PlanM B) P Q :
  tracks T m P -> (forall a, tracks T (f a) (fun _ => True)) ->
  (forall a, P a -> tracks T (f a) Q) -> tracks T (m ≫= f) Q.
Proof.
  intros Hm Hsafe Hf. eapply tracks_bind; [exact Hm|]. intros a s b s' Hs H.
  destruct (Hsafe a s b s' Hs H) as (Hs' & Hsub & _). split_and!; [done..|].
  intros HT HP. by apply (Hf a HP s b s' Hs H).
Qed.

Lemma tracks_and_step {A B} (m : PlanM (option A)) (f : A -> PlanM (option B)) P Q :
  tracks T m (on_some P) -> (forall a, tracks T (f a) (fun _ => True)) ->
  (forall a, P a -> tracks T (f a) (on_some Q)) -> tracks T (and_then m f) (on_some Q).
Proof.
  intros Hm Hsafe Hf. eapply tracks_step; [exact Hm| |].
  - intros [a|]; [apply Hsafe|by apply tracks_ret].
  - intros [a|] Ha; [by apply Hf|by apply tracks_ret].
Qed.

Lemma tracks_safe {A} (m : PlanM A) P : tracks T m P -> tracks T m (fun _ => True).
Proof. by apply tracks_impl. Qed.

Lemma tracks_and_safe {A B} (m : PlanM (option A)) (f : A -> PlanM (option B)) :
  tracks T m (fun _ => True) -> (forall a, tracks T (f a) (fun _ => True)) ->
  tracks T (and_then m f) (fun _ => True).
Proof.
  intros Hm Hf. eapply tracks_step; [exact Hm| |]; intros [a|]; intros; auto; by apply tracks_ret.
Qed.

Lemma tracks_bind_safe {A B} (m : PlanM A) (f : A -> PlanM B) :
  tracks T m (fun _ => True) -> (forall a, tracks T (f a) (fun _ => True)) ->
  tracks T (m ≫= f) (fun _ => True).
Proof. intros Hm Hf. eapply tracks_step; [exact Hm|auto|auto]. Qed.

Create HintDb tracking.
#[local] Hint Resolve tracks_lift serialize_span_tracks : tracking.

(** The three shapes of serialization code: return, a step, a step that may have
    no value. *)
Ltac safe :=
  intros; repeat first
    [ apply tracks_ret; exact I
    | eapply tracks_safe; solve [eauto with tracking]
    | apply tracks_and_safe; [|intros]
    | apply tracks_bind_safe; [|intros] ].

Ltac track :=
  repeat first
    [ apply tracks_ret; simpl; by split_and?
    | solve [eauto with tracking]
    | eapply tracks_and_step; [solve [eauto with tracking]|solve [safe]|intros ? ?]
    | eapply tracks_step; [solve [eauto with tracking]|solve [safe]|intros ? ?] ].

Lemma serialize_full_span_tracks span :
  tracks T (serialize_full_span canonicalize source_map span) (on_some (covered T)).
Proof. unfold serialize_full_span. track. Qed.
#[local] Hint Resolve serialize_full_span_tracks : tracking.

Lemma serialize_binding_tracks span name :
  tracks T (serialize_binding canonicalize source_map span name) (on_some (covered T)).
Proof. unfold serialize_binding. track. Qed.
#[local] Hint Resolve serialize_binding_tracks : tracking.

Lemma serialize_edits_tracks edits :
  tracks T (serialize_edits canonicalize source_map edits) (on_some (covered T)).
Proof. apply tracks_collect. intros edit. unfold serialize_edit. track. Qed.
#[local] Hint Resolve serialize_edits_tracks : tracking.

Lemma nonempty_edits_tracks edits :
  tracks T (nonempty_edits canonicalize source_map edits) (on_some (covered T)).
Proof.
  unfold nonempty_edits. eapply tracks_and_step; [eauto with tracking|safe|].
  intros [|e es] He; by apply tracks_ret.
Qed.
#[local] Hint Resolve nonempty_edits_tracks : tracking.

Lemma group_binding_tracks span :
  tracks T (option_and_then span (fun span =>
      name ← lift_result (snippet_or_default source_map span);
      serialize_binding canonicalize source_map span name)) (on_some (covered T)).
Proof. apply tracks_option. intros a. track. Qed.
#[local] Hint Resolve group_binding_tracks : tracking.

Lemma serialize_group_tracks group :
  tracks T (serialize_group canonicalize source_map group) (on_some (covered T)).
Proof. unfold serialize_group. track. Qed.

Lemma serialize_variant_tracks variant :
  tracks T (serialize_variant canonicalize source_map variant) (on_some (covered T)).
Proof. unfold serialize_variant. track. Qed.

Lemma serialize_rejection_tracks rejection :
  tracks T (serialize_rejection canonicalize source_map rejection) (on_some (covered T)).
Proof. unfold serialize_rejection. track. Qed.

Lemma serialize_blocks_tracks blocks :
  tracks T (filter_map_m (serialize_block canonicalize source_map) blocks) (covered T).
Proof. apply tracks_filter_map. intros block. unfold serialize_block. track. Qed.
#[local] Hint Resolve serialize_blocks_tracks : tracking.

Lemma serialize_body_tracks body :
  tracks T (serialize_body canonicalize source_map body) (on_some (covered T)).
Proof. unfold serialize_body. track. Qed.

Lemma serialize_ownership_binding_tracks binding :
  tracks T (serialize_ownership_binding canonicalize source_map binding) (on_some (covered T)).
Proof. unfold serialize_ownership_binding. track. Qed.

Lemma serialize_loan_point_tracks point :
  tracks T (serialize_loan_point canonicalize source_map point) (on_some (covered T)).
Proof. unfold serialize_loan_point. track. Qed.
#[local] Hint Resolve serialize_loan_point_tracks : tracking.

Lemma serialize_points_tracks points :
  tracks T (filter_map_m (serialize_loan_point canonicalize source_map) points) (covered T).
Proof. apply tracks_filter_map. intros point. track. Qed.

Lemma serialize_activation_tracks point :
  tracks T (option_and_then point (serialize_loan_point canonicalize source_map))
    (on_some (covered T)).
Proof. apply tracks_option. intros a. track. Qed.
#[local] Hint Resolve serialize_points_tracks serialize_activation_tracks : tracking.

Lemma serialize_loan_tracks loan :
  tracks T (serialize_loan canonicalize source_map loan) (on_some (covered T)).
Proof. unfold serialize_loan. track. Qed.

Lemma destination_span_tracks span :
  tracks T (option_and_then span (serialize_full_span canonicalize source_map))
    (on_some (covered T)).
Proof. apply tracks_option. intros a. track. Qed.
#[local] Hint Resolve destination_span_tracks : tracking.

Lemma serialize_destination_tracks destination :
  tracks T (serialize_destination canonicalize source_map destination) (covered T).
Proof. unfold serialize_destination. track. Qed.
#[local] Hint Resolve serialize_destination_tracks : tracking.

Lemma event_destination_tracks destination :
  tracks T (option_and_then destination (fun destination =>
      destination ← serialize_destination canonicalize source_map destination;
      mret (Some destination))) (on_some (covered T)).
Proof. apply tracks_option. intros a. track. Qed.
#[local] Hint Resolve event_destination_tracks : tracking.

Lemma serialize_event_tracks event :
  tracks T (serialize_event canonicalize source_map event) (on_some (covered T)).
Proof. unfold serialize_event. track. Qed.

(** Seven tables, each made of covered values. *)
Lemma serialize_collector_tracks c :
  tracks T (serialize_collector canonicalize source_map c)
    (fun '(repairs, variants, rejections, bodies, bindings, loans, events) =>
       covered T repairs /\ covered T variants /\ covered T rejections /\ covered T bodies /\
       covered T bindings /\ covered T loans /\ covered T events).
Proof.
  pose proof (fun l => tracks_filter_map T _ _ l serialize_group_tracks) as H1.
  pose proof (fun l => tracks_filter_map T _ _ l serialize_variant_tracks) as H2.
  pose proof (fun l => tracks_filter_map T _ _ l serialize_rejection_tracks) as H3.
  pose proof (fun l => tracks_filter_map T _ _ l serialize_body_tracks) as H4.
  pose proof (fun l => tracks_filter_map T _ _ l serialize_ownership_binding_tracks) as H5.
  pose proof (fun l => tracks_filter_map T _ _ l serialize_loan_tracks) as H6.
  pose proof (fun l => tracks_filter_map T _ _ l serialize_event_tracks) as H7.
  unfold serialize_collector. track.
Qed.
End tracking.

(** ** The plan *)

(** The source table a plan carries. *)
Definition plan_table (plan : SerializedBorrowckRepairPlan) : Sources :=
  (fun source => (ssource_path source, source)) <$> plan_sources plan.

Lemma covered_sublist {A} `{Covered A} T (l k : list A) :
  (forall x, x ∈ l -> x ∈ k) -> covered T k -> covered T l.
Proof.
  unfold covered, covered_list. rewrite !Forall_forall. auto.
Qed.

Lemma elem_of_sort_dedup {A} (same leb : A -> A -> bool) l x :
  x ∈ dedup_by same (sort_by leb l) -> x ∈ l.
Proof. intros Hx%elem_of_dedup_by. by rewrite elem_of_sort_by in Hx. Qed.

Section plan.
Context (alphanumeric : string -> bool) (canonicalize : PathBuf -> option PathBuf)
  (source_map : SourceMap).

Lemma plan_stages s c crate_name id plan :
  borrowck_repair_plan alphanumeric canonicalize source_map s c crate_name id = Ok plan ->
  exists bodies bindings loans events,
    sources_wf (plan_table plan) /\
    (covered (plan_table plan) (plan_repairs plan) /\
     covered (plan_table plan) (plan_wrapper_variants plan) /\
     covered (plan_table plan) (plan_wrapper_rejections plan) /\
     covered (plan_table plan) bodies /\ covered (plan_table plan) bindings /\
     covered (plan_table plan) loans /\ covered (plan_table plan) events) /\
    plan_ownership_bodies plan = order_bodies bodies /\
    plan_ownership_bindings plan = order_bindings bindings /\
    plan_ownership_loans plan = order_loans loans /\
    plan_ownership_events plan = order_events events /\
    build_ownership_memory_graph alphanumeric (plan_table plan) (plan_ownership_bindings plan)
      (plan_ownership_events plan) (plan_ownership_loans plan) = Ok (plan_memory_graph plan).
Proof.
  unfold borrowck_repair_plan. intros (r & H1 & H2)%bind_ok.
  destruct r as [[[[[[[repairs variants] rejections] bodies] bindings] loans] events] T].
  apply bind_ok in H2 as (graph & H2 & [= <-]). exists bodies, bindings, loans, events.
  destruct (serialize_collector_tracks canonicalize source_map T c []
    (repairs, variants, rejections, bodies, bindings, loans, events) T) as (Hwf & _ & Hcov);
    [by split; constructor|exact H1|]. specialize (Hcov ltac:(done)). simpl in Hcov.
  assert (plan_table (mk_plan BORROWCK_OWNERSHIP_MODEL_SCHEMA_VERSION (target_triple s) crate_name id
    (snd <$> T) (order_bodies bodies) (order_bindings bindings) (order_events events)
    (order_loans loans) graph repairs variants rejections) = T) as HT.
  { unfold plan_table. cbn [plan_sources]. rewrite <- list_fmap_compose.
    destruct Hwf as [_ Hall]. clear -Hall. induction Hall as [|[k v] l [Hk _] _ IH]; [done|].
    cbn. rewrite IH. f_equal. simpl in Hk. by rewrite Hk. }
  rewrite HT. destruct Hcov as (? & ? & ? & ? & ? & ? & ?). by split_and!.
Qed.

(** Every path the plan mentions, in an edit, a span, a binding, a loan point or
    an event, has a source entry; the entries are in path order without
    duplicates, and each carries the text its offsets refer to with the hash of
    that text. *)
Theorem plan_paths_have_sources s c crate_name id plan :
  borrowck_repair_plan alphanumeric canonicalize source_map s c crate_name id = Ok plan ->
  sources_wf (plan_table plan) /\
  covered (plan_table plan) (plan_repairs plan) /\
  covered (plan_table plan) (plan_wrapper_variants plan) /\
  covered (plan_table plan) (plan_wrapper_rejections plan) /\
  covered (plan_table plan) (plan_ownership_bodies plan) /\
  covered (plan_table plan) (plan_ownership_bindings plan) /\
  covered (plan_table plan) (plan_ownership_loans plan) /\
  covered (plan_table plan) (plan_ownership_events plan).
Proof.
  intros (bodies & bindings & loans & events & Hwf & (H1 & H2 & H3 & H4 & H5 & H6 & H7) & -> & -> &
    -> & -> & _)%plan_stages.
  split_and!; try done; (eapply covered_sublist; [intros x; apply elem_of_sort_dedup|done]).
Qed.

Definition binding_site (binding : SerializedBorrowckOwnershipBinding) :
    N * (list Component * N) :=
  (obinding_body_id binding, (components (binding_path binding), binding_start binding)).

Lemma same_binding_site_spec a b : same_binding_site a b = true <-> binding_site a = binding_site b.
Proof.
  unfold same_binding_site, binding_site.
  rewrite !andb_true_iff, !N.eqb_eq, path_eqb_spec.
  split; [by intros [[-> ->] ->]|by intros [= -> -> ->]].
Qed.

Lemma binding_key_site a b :
  binding_key_leb (binding_key a) (binding_key b) = true ->
  lex_leb N.compare (lex_leb (list_cmp component_cmp) N.leb) (binding_site a) (binding_site b) = true.
Proof.
  unfold binding_key_leb, binding_key, binding_site, lex_leb; simpl.
  destruct (obinding_body_id a ?= obinding_body_id b)%N; try done.
  destruct (list_cmp _ _ _); try done.
  destruct (N.compare_spec (binding_start a) (binding_start b)); try done;
    intros; apply N.leb_le; lia.
Qed.

Lemma order_bindings_NoDup bindings : NoDup (binding_site <$> order_bindings bindings).
Proof.
  apply (dedup_by_NoDup binding_site (lex_leb N.compare (lex_leb (list_cmp component_cmp) N.leb)));
    [apply same_binding_site_spec|].
  pose proof (sort_on_sorted binding_key binding_key_leb bindings) as Hs.
  induction Hs as [|x l Hl IH Hx]; constructor; [done|].
  eapply Forall_impl; [exact Hx|]. intros y. apply binding_key_site.
Qed.

Lemma same_loan_spec a b : same_loan a b = true <-> loan_key a = loan_key b.
Proof.
  unfold same_loan, loan_key. rewrite andb_true_iff, !N.eqb_eq.
  split; [by intros [-> ->]|by intros [= -> ->]].
Qed.

(** The tables of a plan are in order: bodies and loans have distinct keys, no
    two bindings start at the same place of the same body, events are sorted by
    position, and the memory graph is well formed. *)
Theorem plan_tables_in_order s c crate_name id plan :
  borrowck_repair_plan alphanumeric canonicalize source_map s c crate_name id = Ok plan ->
  plan_schema_version plan = 7%N /\
  NoDup (obody_body_id <$> plan_ownership_bodies plan) /\
  NoDup (binding_site <$> plan_ownership_bindings plan) /\
  NoDup (loan_key <$> plan_ownership_loans plan) /\
  StronglySorted (fun a b => event_key_leb (event_key a) (event_key b) = true)
    (plan_ownership_events plan) /\
  graph_wf (plan_memory_graph plan).
Proof.
  intros Hplan. assert (plan_schema_version plan = 7%N) as Hv.
  { unfold borrowck_repair_plan in Hplan. apply bind_ok in Hplan as (r & _ & H).
    destruct r as [[[[[[[? ?] ?] ?] ?] ?] ?] ?]. by apply bind_ok in H as (g & _ & [= <-]). }
  apply plan_stages in Hplan as (bodies & bindings & loans & events & _ & _ & -> & Hb & -> & He & Hg).
  split_and!; [done| |rewrite Hb; apply order_bindings_NoDup| | |].
  - apply (dedup_by_NoDup obody_body_id N.leb); [intros; apply N.eqb_eq|].
    apply (sort_on_sorted obody_body_id N.leb).
  - apply (dedup_by_NoDup loan_key (lex_leb N.compare N.leb)); [apply same_loan_spec|].
    apply (sort_on_sorted loan_key (lex_leb N.compare N.leb)).
  - rewrite He. eapply StronglySorted_sublist; [apply dedup_by_sublist|].
    apply (sort_on_sorted event_key event_key_leb).
  - destruct (build_stages _ _ _ _ _ _ Hg) as (g1 & g2 & -> & _). apply finish_graph_wf.
Qed.
End plan.

(** ** Event identities are unique *)

Section events.
Context (alphanumeric : string -> bool) (canonicalize : PathBuf -> option PathBuf)
  (source_map : SourceMap).

(** What a span serializes to does not depend on the table. *)
Lemma serialize_span_stateless span s1 s2 r1 r2 s1' s2' :
  serialize_span canonicalize source_map span s1 = Ok (r1, s1') ->
  serialize_span canonicalize source_map span s2 = Ok (r2, s2') -> r1 = r2.
Proof.
  unfold serialize_span, mbind, planm_bind, lift_result, mret, planm_ret.
  destruct (lookup_byte_offset source_map (span_lo span)) as [[lo lo_pos]|]; [|done]. simpl.
  destruct (lookup_byte_offset source_map (span_hi span)) as [[hi hi_pos]|]; [|done]. simpl.
  destruct (negb _); [congruence|].
  destruct (sf_name lo) as [[path|]|]; [|congruence..].
  destruct (absolute_source_path canonicalize source_map path); [|done]. simpl.
  destruct (sf_src lo); simpl; congruence.
Qed.

(** A serialized event comes from a recorded one. *)
Definition serialized_from (events : list BorrowckOwnershipEvent)
    (event : SerializedBorrowckOwnershipEvent) : Prop :=
  exists recorded s s' t, recorded ∈ events /\
    serialize_span canonicalize source_map (cevent_span recorded) s = Ok (Some t, s') /\
    (oevent_path event, oevent_byte_start event) = (t.1.1, t.1.2) /\
    oevent_event_id event = ownership_event_id recorded /\
    (oevent_body_id event, oevent_basic_block event, oevent_statement_index event,
     oevent_kind event, oevent_place event, oevent_loan_id event)
    = (cevent_body_id recorded, cevent_basic_block recorded, cevent_statement_index recorded,
       cevent_kind recorded, cevent_place recorded, cevent_loan_id recorded).

Lemma serialize_event_from recorded s event s' :
  serialize_event canonicalize source_map recorded s = Ok (Some event, s') ->
  serialized_from [recorded] event.
Proof.
  unfold serialize_event, and_then, mbind, planm_bind.
  intros ([[t|] s1] & H1 & H2)%bind_ok; [|done].
  apply bind_ok in H2 as ([[binding|] s2] & _ & H3); [|done].
  apply bind_ok in H3 as ([destination s3] & _ & [= <- <-]).
  exists recorded, s, s1, t. by rewrite list_elem_of_singleton.
Qed.

Lemma filter_map_events events s l s' :
  filter_map_m (serialize_event canonicalize source_map) events s = Ok (l, s') ->
  Forall (serialized_from events) l.
Proof.
  revert s l. induction events as [|e events IH]; intros s l; cbn [filter_map_m].
  { by intros [= <- <-]. }
  unfold mbind, planm_bind. intros ([o s1] & H1 & H2)%bind_ok.
  apply bind_ok in H2 as ([rest s2] & H2 & [= <- <-]).
  assert (Forall (serialized_from (e :: events)) rest) as Hrest.
  { eapply Forall_impl; [exact (IH _ _ H2)|]. intros x (r & sa & sb & t & Hr & Hx).
    exists r, sa, sb, t. rewrite elem_of_cons. auto. }
  destruct o as [event|]; [|done]. constructor; [|done].
  apply serialize_event_from in H1 as (r & sa & sb & t & ->%list_elem_of_singleton & H).
  exists e, sa, sb, t. rewrite elem_of_cons. auto.
Qed.

(** What identifies an event inside a crate. *)
Definition event_fields (event : SerializedBorrowckOwnershipEvent) :
    N * N * N * EventKind.BorrowckOwnershipEventKind * string * option N :=
  (oevent_body_id event, oevent_basic_block event, oevent_statement_index event,
   oevent_kind event, oevent_place event, oevent_loan_id event).

(** All statements of a body have one span each. *)
Definition located (events : list BorrowckOwnershipEvent) : Prop :=
  forall a b, a ∈ events -> b ∈ events -> cevent_body_id a = cevent_body_id b ->
    cevent_basic_block a = cevent_basic_block b ->
    cevent_statement_index a = cevent_statement_index b -> cevent_span a = cevent_span b.

Lemma same_fields_same_key events a b :
  located events -> serialized_from events a -> serialized_from events b ->
  event_fields a = event_fields b -> event_key a = event_key b /\ oevent_event_id a = oevent_event_id b.
Proof.
  intros Hloc (ra & sa & sa' & ta & Hra & Hsa & Ha & Hida & Hfa)
    (rb & sb & sb' & tb & Hrb & Hsb & Hb & Hidb & Hfb) Hf.
  unfold event_fields in Hf. rewrite Hfa, Hfb in Hf. simplify_eq.
  assert (cevent_span ra = cevent_span rb) as Hspan by by apply Hloc.
  rewrite Hspan in Hsa. pose proof (serialize_span_stateless _ _ _ _ _ _ _ Hsa Hsb). simplify_eq.
  split.
  - unfold event_key. congruence.
  - rewrite Hida, Hidb. unfold ownership_event_id, event_identity. congruence.
Qed.

Lemma NoDup_fmap_transfer {A B C} (f : A -> B) (g : A -> C) l :
  (forall a b, a ∈ l -> b ∈ l -> f a = f b -> g a = g b) -> NoDup (g <$> l) -> NoDup (f <$> l).
Proof.
  induction l as [|x l IH]; intros Hfg Hnd; [constructor|].
  apply NoDup_cons in Hnd as [Hx Hnd]. apply NoDup_cons. split.
  - intros (y & Hy & Hin)%list_elem_of_fmap. apply Hx. rewrite (Hfg x y); [|set_solver..].
    by apply list_elem_of_fmap_2.
  - apply IH; [|done]. intros a b ? ?. apply Hfg; set_solver.
Qed.
End events.

Lemma discriminant_inj a b : EventKind.discriminant a = EventKind.discriminant b -> a = b.
Proof. by destruct a, b. Qed.

Lemma event_key_fields a b : event_key a = event_key b -> event_fields a = event_fields b.
Proof.
  unfold event_key, event_fields. intros [= _ _ -> -> -> Hk%discriminant_inj -> ->]. by rewrite Hk.
Qed.

(** The identity an event is serialized with, recomputed from its fields. *)
Definition fields_id (event : SerializedBorrowckOwnershipEvent) : string :=
  format_016x (fnv_hash FNV_OFFSET
    (to_le_bytes 8 (oevent_body_id event) +:+ to_le_bytes 4 (oevent_basic_block event)
     +:+ to_le_bytes 4 (oevent_statement_index event)
     +:+ to_le_bytes 1 (EventKind.discriminant (oevent_kind event)) +:+ oevent_place event
     +:+ to_le_bytes 4 (default (umax 32) (oevent_loan_id event)))).

Lemma serialized_id canonicalize source_map events event :
  serialized_from canonicalize source_map events event -> oevent_event_id event = fields_id event.
Proof.
  intros (r & s & s' & t & _ & _ & _ & -> & H). unfold fields_id, ownership_event_id, event_identity.
  injection H as H1 H2 H3 H4 H5 H6. by rewrite H1, H2, H3, H4, H5, H6.
Qed.

Lemma order_events_unique canonicalize source_map recorded events :
  located recorded -> Forall (serialized_from canonicalize source_map recorded) events ->
  NoDup (event_fields <$> order_events events).
Proof.
  intros Hloc Hall. rewrite Forall_forall in Hall.
  assert (forall x, x ∈ order_events events -> x ∈ events) as Hsub
    by (intros x; apply elem_of_sort_dedup).
  apply (NoDup_fmap_transfer event_fields event_key).
  { intros a b Ha Hb Hf. by eapply same_fields_same_key; [| |eauto..]; eauto. }
  unfold order_events.
  rewrite (dedup_by_ext _ (fun a b => String.eqb (fields_id a) (fields_id b))).
  - apply (dedup_keys_NoDup event_key event_key_leb).
    + intros x y Hk%event_key_fields. apply String.eqb_eq. unfold event_fields in Hk. unfold fields_id.
      injection Hk as H1 H2 H3 H4 H5 H6. by rewrite H1, H2, H3, H4, H5, H6.
    + apply (sort_on_sorted event_key event_key_leb).
  - intros x y Hx Hy. rewrite elem_of_sort_by in Hx, Hy.
    by rewrite (serialized_id _ _ _ _ (Hall x Hx)), (serialized_id _ _ _ _ (Hall y Hy)).
Qed.

(** When every statement has one span, as in MIR, no two events of a plan agree
    on body, block, statement, kind, place and loan. *)
Theorem plan_events_unique alphanumeric canonicalize source_map s c crate_name id plan :
  located (collector_ownership_events c) ->
  borrowck_repair_plan alphanumeric canonicalize source_map s c crate_name id = Ok plan ->
  NoDup (event_fields <$> plan_ownership_events plan).
Proof.
  intros Hloc. unfold borrowck_repair_plan. intros (r & H & Hr)%bind_ok.
  destruct r as [[[[[[[repairs variants] rejections] bodies] bindings] loans] events] T].
  apply bind_ok in Hr as (g & _ & [= <-]). cbn [plan_ownership_events].
  unfold serialize_collector, mbind, planm_bind in H.
  repeat (apply bind_ok in H as ([? ?] & ? & H)). injection H as -> -> -> -> -> -> -> ->.
  eapply order_events_unique; [exact Hloc|]. by eapply filter_map_events.
Qed.

(** ** What is written *)

Lemma content_hash_without_text plan :
  ownership_plan_content_hash (plan_with_sources (without_text <$> plan_sources plan) plan)
  = ownership_plan_content_hash plan.
Proof.
  unfold ownership_plan_content_hash. cbn [plan_sources plan_with_sources].
  by rewrite <- list_fmap_compose.
Qed.

(** Nothing is written unless a driver or a model directory asks for it, and the
    driver comes first.  The persistent model is the plan without its source
    texts: its hashes and all other tables are those of the plan, and the hash
    in its file name can be recomputed from what it holds. *)
Theorem plan_output_spec alphanumeric canonicalize source_map s c crate_name id output :
  write_borrowck_repair_plan alphanumeric canonicalize source_map s c crate_name id = Ok output ->
  match output with
  | NoPlan => autofix_plan_env s = None /\ borrowck_ownership_model s = None
  | OrchestratedPlan path plan =>
      autofix_plan_env s = Some path /\
      borrowck_repair_plan alphanumeric canonicalize source_map s c crate_name id = Ok plan
  | DirectModel path model =>
      autofix_plan_env s = None /\
      exists directory plan,
        borrowck_ownership_model s = Some directory /\
        borrowck_repair_plan alphanumeric canonicalize source_map s c crate_name id = Ok plan /\
        path = path_join directory (model_file_name model) /\
        Forall2 (fun kept source => ssource_source kept = None /\
            ssource_path kept = ssource_path source /\
            ssource_source_hash kept = ssource_source_hash source)
          (plan_sources model) (plan_sources plan) /\
        plan_with_sources (plan_sources plan) model = plan
  end.
Proof.
  unfold write_borrowck_repair_plan.
  destruct (autofix_plan_env s) as [plan_path|], (borrowck_ownership_model s) as [directory|].
  - intros (plan & H & [= <-])%bind_ok. auto.
  - intros (plan & H & [= <-])%bind_ok. auto.
  - intros (plan & H & [= <-])%bind_ok. split; [done|]. exists directory, plan. split_and!; [done..| | |].
    + unfold model_file_name. by rewrite content_hash_without_text.
    + cbn [plan_sources plan_with_sources]. apply Forall2_fmap_l, Forall_Forall2_diag.
      apply Forall_forall. intros source _. by split_and!.
    + by destruct plan.
  - by intros [= <-].
Qed.

(** ** A concrete run: the sample crate, recorded through spans *)

Definition sample_map : SourceMap :=
  mk_source_map
    [mk_source_file (Real (Some "main.rs")) (Some sample_text) None 0 (str_len sample_text)]
    (Some "/work").

Definition recorded_layers (name : string) : list BorrowckMemoryLayer :=
  (fun layer => mk_clayer (slayer_kind layer) (slayer_storage layer) (slayer_label layer)
     (slayer_type_name layer) (slayer_size layer) (slayer_align layer)) <$> rc_layers name.

Definition recorded_binding (name : string) (start : N) : BorrowckOwnershipBinding :=
  mk_cbinding 1 (mk_span start (start + 1) false) name "std::rc::Rc<i32>" (Some 8%N) (Some 8%N)
    (recorded_layers name).

Definition recorded_move : BorrowckOwnershipEvent :=
  mk_cevent 1 0 9 EventKind.Move OwnershipState.Moved (mk_span 67 72 false) (mk_span 51 52 false)
    "c" "c" None None
    (Some (mk_cdestination DestinationKind.LocalBinding "b" (Some "b")
             (Some (mk_span 28 29 false)))).

Definition sample_collector : BorrowckRepairCollector :=
  mk_collector [recorded_binding "c" 51; recorded_binding "a" 4; recorded_binding "b" 28]
    [] [recorded_move; recorded_move] [] [] [] [] [].

Definition sample_session : Session :=
  mk_session true (Some "/target/model") None false false None "x86_64".

Definition planned (r : result SerializedBorrowckRepairPlan) : SerializedBorrowckRepairPlan :=
  match r with
  | Ok plan => plan
  | Err _ => mk_plan 0 "" "" 0 [] [] [] [] [] empty_graph [] [] []
  end.

Definition sample_plan : SerializedBorrowckRepairPlan :=
  planned (borrowck_repair_plan (fun _ => false) Some sample_map sample_session sample_collector
             "demo" 7).

Example sample_plan_bindings :
  binding_name <$> plan_ownership_bindings sample_plan = ["a"; "b"; "c"].
Proof. vm_compute. reflexivity. Qed.

Example sample_plan_events : length (plan_ownership_events sample_plan) = 1.
Proof. vm_compute. reflexivity. Qed.

Lemma sample_plan_ok :
  borrowck_repair_plan (fun _ => false) Some sample_map sample_session sample_collector "demo" 7
  = Ok sample_plan.
Proof. vm_compute. reflexivity. Qed.

Lemma plan_paths_have_sources_witness :
  covered (plan_table sample_plan) (plan_ownership_events sample_plan).
Proof.
  destruct (plan_paths_have_sources (fun _ => false) Some sample_map sample_session sample_collector
    "demo" 7 sample_plan sample_plan_ok) as (_ & _ & _ & _ & _ & _ & _ & H). exact H.
Defined.

Lemma plan_tables_in_order_witness : graph_wf (plan_memory_graph sample_plan).
Proof.
  destruct (plan_tables_in_order (fun _ => false) Some sample_map sample_session sample_collector
    "demo" 7 sample_plan sample_plan_ok) as (_ & _ & _ & _ & _ & H). exact H.
Defined.

Lemma plan_events_unique_witness : NoDup (event_fields <$> plan_ownership_events sample_plan).
Proof.
  apply (plan_events_unique (fun _ => false) Some sample_map sample_session sample_collector "demo" 7);
    [|exact sample_plan_ok].
  intros a b Ha Hb. simpl in Ha, Hb. set_solver.
Defined.

Lemma plan_output_spec_witness :
  exists path model,
    write_borrowck_repair_plan (fun _ => false) Some sample_map sample_session sample_collector
      "demo" 7 = Ok (DirectModel path model) /\
    Forall2 (fun kept source => ssource_source kept = None) (plan_sources model)
      (plan_sources sample_plan).
Proof.
  eexists _, _. split; [vm_compute; reflexivity|].
  pose proof (plan_output_spec (fun _ => false) Some sample_map sample_session sample_collector
    "demo" 7 (DirectModel _ _) ltac:(vm_compute; reflexivity)) as (_ & directory & plan & _ & H & _ & H2 & _).
  rewrite sample_plan_ok in H. injection H as <-. eapply Forall2_impl; [exact H2|]. by intros ? ? [? _].
Defined.
