(* ===== verification/Autofix.v ===== *)
(** * The autofix driver: edits, overlays and repair rounds

    [rust/compiler/rustc_driver_impl/src/borrowck_autofix.rs]: which edits of a
    plan are applied, how they are spliced into the sources, how the driver
    recompiles through an overlay until the crate compiles, and how wrapper
    variants are validated.

    Here are the parts that work on edits: conflicts, splicing, the selection of
    edits from a plan and the patched files it leads to.  [AutofixDriver] has the
    repair rounds.  The workspace directory, which the code reads from the
    environment, is the parameter [workspace]; the files written are a map from
    paths to texts, and creating directories is not modelled. *)

From Stdlib Require Import Ascii String.
From S2P Require Import Prelude RustStr RustColl RustPath Fnv CompilerData MemoryGraph RepairPlan.
From stdpp Require Import options.

Definition MAX_REPAIR_ROUNDS : N := 4.
Definition MAX_EDITOR_WRAPPER_VARIANTS : N := 12.

(** What an [io::Result] computation comes to: a value, an [io::Error], or a panic,
    which no caller catches. *)
Inductive io (A : Type) : Type :=
| Done (a : A)
| Failed (message : string)
| Panicked (message : string).
Global Arguments Done {A} _.
Global Arguments Failed {A} _.
Global Arguments Panicked {A} _.

Global Instance io_ret : MRet io := fun A a => Done a.
Global Instance io_bind : MBind io := fun A B f m =>
  match m with
  | Done a => f a
  | Failed message => Failed message
  | Panicked message => Panicked message
  end.

(** A computation that returns errors, and one that panics instead. *)
Definition or_fail {A} (r : result A) : io A :=
  match r with
  | Ok a => Done a
  | Err message => Failed message
  end.

Definition or_panic {A} (r : result A) : io A :=
  match r with
  | Ok a => Done a
  | Err message => Panicked message
  end.

Inductive AutofixOutcome : Type :=
| CompilationFailed
| Success.

(** ** Edits *)

Definition edits_conflict (left right : SerializedBorrowckRepairEdit) : bool :=
  if negb (path_eqb (sedit_path left) (sedit_path right)) then false
  else if (sedit_byte_start left =? sedit_byte_start right)%N
          && (sedit_byte_end left =? sedit_byte_end right)%N
          && String.eqb (sedit_replacement left) (sedit_replacement right) then false
  else if (sedit_byte_start left =? sedit_byte_end left)%N then
    (sedit_byte_start right <=? sedit_byte_start left)%N
    && (sedit_byte_start left <=? sedit_byte_end right)%N
  else if (sedit_byte_start right =? sedit_byte_end right)%N then
    (sedit_byte_start left <=? sedit_byte_start right)%N
    && (sedit_byte_start right <=? sedit_byte_end left)%N
  else
    (sedit_byte_start left <? sedit_byte_end right)%N
    && (sedit_byte_start right <? sedit_byte_end left)%N.

(** Equality of the keys [(path, byte_start, byte_end, replacement)]. *)
Definition same_edit (left right : SerializedBorrowckRepairEdit) : bool :=
  path_eqb (sedit_path left) (sedit_path right)
  && (sedit_byte_start left =? sedit_byte_start right)%N
  && (sedit_byte_end left =? sedit_byte_end right)%N
  && String.eqb (sedit_replacement left) (sedit_replacement right).

Definition is_char_boundary (source : string) (at_ : N) : bool := is_ok (split_str_at source at_).

Definition valid_boundaries (source : string) (edit : SerializedBorrowckRepairEdit) : bool :=
  negb ((sedit_byte_end edit <? sedit_byte_start edit)%N
        || (str_len source <? sedit_byte_end edit)%N
        || negb (is_char_boundary source (sedit_byte_start edit))
        || negb (is_char_boundary source (sedit_byte_end edit))).

(** [String::replace_range], which panics off character boundaries. *)
Definition replace_range (text : string) (edit : SerializedBorrowckRepairEdit) : result string :=
  if (sedit_byte_end edit <? sedit_byte_start edit)%N then Err "range start is after its end"
  else
    '(before, _) ← split_str_at text (sedit_byte_start edit);
    '(_, after) ← split_str_at text (sedit_byte_end edit);
    Ok (before +:+ sedit_replacement edit +:+ after).

Definition edit_position (edit : SerializedBorrowckRepairEdit) : N * N :=
  (sedit_byte_start edit, sedit_byte_end edit).

Definition order_patch (edits : list SerializedBorrowckRepairEdit) :
    list SerializedBorrowckRepairEdit :=
  sort_by (on edit_position (lex_leb N.compare N.leb)) edits.

(** Sorted by position and applied from the last to the first. *)
Definition patch_source (source : string) (edits : list SerializedBorrowckRepairEdit) :
    result string :=
  fold_result replace_range source (rev (order_patch edits)).

Definition plan_source_texts (plan : SerializedBorrowckRepairPlan) :
    result (list (PathBuf * string)) :=
  fold_result (fun texts source =>
    match ssource_source source with
    | Some text => Ok (btree_insert (ssource_path source) text texts)
    | None =>
        Err ("source text for " +:+ ssource_path source
             +:+ " was not included in the repair plan")
    end) [] (plan_sources plan).

(** [edits_by_path.entry(path).or_default().push(edit)] *)
Fixpoint push_by_path (edit : SerializedBorrowckRepairEdit)
    (groups : list (PathBuf * list SerializedBorrowckRepairEdit)) :
    list (PathBuf * list SerializedBorrowckRepairEdit) :=
  match groups with
  | [] => [(sedit_path edit, [edit])]
  | (path, edits) :: rest =>
      match path_cmp (sedit_path edit) path with
      | Lt => (sedit_path edit, [edit]) :: groups
      | Eq => (path, edits ++ [edit]) :: rest
      | Gt => (path, edits) :: push_by_path edit rest
      end
  end.

Definition edits_by_path (edits : list SerializedBorrowckRepairEdit) :
    list (PathBuf * list SerializedBorrowckRepairEdit) :=
  foldl (fun groups edit => push_by_path edit groups) [] edits.

(** ** Where patched files go *)

Definition component_text (c : Component) : string :=
  match c with
  | RootDir => ""
  | CurDir => "."
  | ParentDir => ".."
  | Normal name => name
  end.

Fixpoint strip_components (prefix path : list Component) : option (list Component) :=
  match prefix, path with
  | [], path => Some path
  | p :: prefix, c :: path =>
      match component_cmp p c with
      | Eq => strip_components prefix path
      | _ => None
      end
  | _ :: _, [] => None
  end.

(** [Path::file_name] *)
Definition file_name (path : PathBuf) : option string :=
  match last (components path) with
  | Some (Normal name) => Some name
  | _ => None
  end.

Definition stable_path_hash (path : PathBuf) : string := stable_bytes_hash path.

Definition is_safe_char (c : ascii) : bool :=
  is_ascii_alphanumeric c || Ascii.eqb c "-"%char || Ascii.eqb c "_"%char.

(** Characters that are not ASCII alphanumerics, [-] or [_] become [_]; a
    character of several bytes becomes one. *)
Definition safe_char (ch : string) : string :=
  match ch with
  | String c EmptyString => if is_safe_char c then ch else "_"
  | _ => "_"
  end.

Definition safe_component (value : string) : string :=
  String.concat "" (safe_char <$> chars value).

Definition crate_output_dir (output_root : PathBuf) (plan : SerializedBorrowckRepairPlan) : PathBuf :=
  path_join output_root
    (safe_component (plan_crate_name plan) +:+ "-" +:+ format_016x (plan_stable_crate_id plan)).

Definition strategy_name (strategy : WrapperStrategy.BorrowckWrapperStrategy) : string :=
  match strategy with
  | WrapperStrategy.Arc => "arc"
  | WrapperStrategy.ArcMutex => "arc_mutex"
  | WrapperStrategy.ArcRwLock => "arc_rw_lock"
  | WrapperStrategy.Mutex => "mutex"
  | WrapperStrategy.Rc => "rc"
  | WrapperStrategy.RefCell => "ref_cell"
  | WrapperStrategy.RcRefCell => "rc_ref_cell"
  | WrapperStrategy.RwLock => "rw_lock"
  end.

Definition same_binding (left right : SerializedBorrowckBinding) : bool :=
  path_eqb (sbinding_path left) (sbinding_path right)
  && (sbinding_byte_start left =? sbinding_byte_start right)%N.

(** ** Writing patched sources *)

Definition Files : Type := list (PathBuf * string).
Definition Overlay : Type := list (PathBuf * PathBuf).

Section patches.
Variable workspace : PathBuf.

(** [crate_dir.join(relative)] for a source of the workspace; the relative path is
    put together from its components, which is the same path. *)
Definition patched_source_path (crate_dir original : PathBuf) : PathBuf :=
  match strip_components (components workspace) (components original) with
  | Some relative => path_join crate_dir (join "/" (component_text <$> relative))
  | None =>
      path_join
        (path_join (path_join crate_dir "_external") (stable_path_hash original))
        (default "source.rs" (file_name original))
  end.

(** The loop over [edits_by_path]; [missing] is what happens to a path without a
    source text. *)
Definition write_patched (sources : list (PathBuf * string)) (directory : PathBuf)
    (missing : Overlay * Files -> io (Overlay * Files)) (state : Overlay * Files)
    (entry : PathBuf * list SerializedBorrowckRepairEdit) : io (Overlay * Files) :=
  let '(original, edits) := entry in
  match btree_get original sources with
  | None => missing state
  | Some source =>
      patched ← or_panic (patch_source source edits);
      let patched_path := patched_source_path directory original in
      Done (btree_insert original patched_path state.1, btree_insert patched_path patched state.2)
  end.

Fixpoint fold_io {A B} (f : B -> A -> io B) (acc : B) (l : list A) : io B :=
  match l with
  | [] => Done acc
  | x :: l => acc ← f acc x; fold_io f acc l
  end.

(** *** [apply_plan] *)

(** The edits of one repair group: those to apply, or why the group is skipped. *)
Fixpoint scan_edits (sources : list (PathBuf * string))
    (accepted seen candidate edits : list SerializedBorrowckRepairEdit) :
    result (list SerializedBorrowckRepairEdit) :=
  match edits with
  | [] => Ok candidate
  | edit :: edits =>
      match btree_get (sedit_path edit) sources with
      | None => Err "repair source was not included in the compiler plan"
      | Some source =>
          if negb (valid_boundaries source edit) then
            Err "repair did not describe valid UTF-8 byte boundaries"
          else if existsb (fun old => edits_conflict old edit) accepted
                  || existsb (fun old => edits_conflict old edit) candidate then
            Err "repair overlaps another borrow-checker repair"
          else
            scan_edits sources accepted seen
              (if existsb (same_edit edit) seen then candidate else candidate ++ [edit]) edits
      end
  end.

(** The state of the loop over the repair groups. *)
Record Selection : Type := mk_selection {
  accepted : list SerializedBorrowckRepairEdit;
  seen : list SerializedBorrowckRepairEdit;
  applied_groups : list SerializedBorrowckRepairGroup;
  skipped_groups : list (string * SerializedBorrowckRepairGroup)
}.

Definition select_group (sources : list (PathBuf * string)) (s : Selection)
    (repair : SerializedBorrowckRepairGroup) : Selection :=
  match scan_edits sources (accepted s) (seen s) [] (sgroup_edits repair) with
  | Err reason =>
      mk_selection (accepted s) (seen s) (applied_groups s) (skipped_groups s ++ [(reason, repair)])
  | Ok [] => s
  | Ok candidate =>
      mk_selection (accepted s ++ candidate) (seen s ++ candidate) (applied_groups s ++ [repair])
        (skipped_groups s)
  end.

Definition select_groups (sources : list (PathBuf * string))
    (repairs : list SerializedBorrowckRepairGroup) : Selection :=
  foldl (select_group sources) (mk_selection [] [] [] []) repairs.

(** The entries of [applied_repairs] and [skipped_repairs]. *)
Record RepairLog : Type := mk_log {
  applied_repairs : list (N * SerializedBorrowckRepairGroup);
  skipped_repairs : list (N * string * SerializedBorrowckRepairGroup)
}.

Definition apply_plan (plan : SerializedBorrowckRepairPlan) (crate_dir : PathBuf) (round : N)
    (overlay : Overlay) (files : Files) (log : RepairLog) : io (N * (Overlay * Files) * RepairLog) :=
  sources ← or_fail (plan_source_texts plan);
  let s := select_groups sources (plan_repairs plan) in
  let skipped := skipped_repairs log ++ ((fun entry => (round, entry.1, entry.2)) <$> skipped_groups s) in
  match accepted s with
  | [] => Done (0%N, (overlay, files), mk_log (applied_repairs log) skipped)
  | _ :: _ =>
      state ← fold_io (write_patched sources crate_dir Done) (overlay, files)
                (edits_by_path (accepted s));
      let applied := applied_repairs log ++ (pair round <$> applied_groups s) in
      Done (len (retain (fun entry => (entry.1 =? round)%N) applied), state, mk_log applied skipped)
  end.

(** *** Wrapper variants *)

Fixpoint normalize_edits (sources : list (PathBuf * string))
    (accepted seen edits : list SerializedBorrowckRepairEdit) :
    result (list SerializedBorrowckRepairEdit) :=
  match edits with
  | [] => Ok accepted
  | edit :: edits =>
      match btree_get (sedit_path edit) sources with
      | None => Err "variant edit source was not included in the plan"
      | Some source =>
          if negb (valid_boundaries source edit) then
            Err "variant edit has invalid UTF-8 byte boundaries"
          else if existsb (same_edit edit) seen then normalize_edits sources accepted seen edits
          else if existsb (fun old => edits_conflict old edit) accepted then
            Err "variant edit overlaps another selected repair"
          else normalize_edits sources (accepted ++ [edit]) (edit :: seen) edits
      end
  end.

Definition normalize_variant_edits (plan : SerializedBorrowckRepairPlan)
    (edits : list SerializedBorrowckRepairEdit) : result (list SerializedBorrowckRepairEdit) :=
  sources ← plan_source_texts plan;
  normalize_edits sources [] [] edits.

Definition materialize_variant_sources (plan : SerializedBorrowckRepairPlan)
    (sources_dir : PathBuf) (edits : list SerializedBorrowckRepairEdit) (files : Files) :
    io (Overlay * Files) :=
  accepted ← or_fail (normalize_variant_edits plan edits);
  sources ← or_fail (plan_source_texts plan);
  fold_io (write_patched sources sources_dir (fun _ => Panicked "no entry found for key"))
    ([], files) (edits_by_path accepted).

(** The edits of some variants, with the ordinary repairs of other bindings. *)
Definition variant_set_edits (plan : SerializedBorrowckRepairPlan)
    (variants : list SerializedBorrowckWrapperVariant) : list SerializedBorrowckRepairEdit :=
  let bindings := svariant_binding <$> variants in
  (variants ≫= svariant_edits)
  ++ (plan_repairs plan ≫= fun repair =>
        if match sgroup_binding repair with
           | Some binding => existsb (same_binding binding) bindings
           | None => false
           end
        then []
        else sgroup_edits repair).
End patches.
