(* ===== verification/AutofixSpec.v ===== *)
(** * The autofix driver's edits: splicing and selection

    Patching a source from its last edit to its first is the same as reading it
    once from left to right and putting each replacement in its place, when the
    edits do not conflict; a panic of [String::replace_range] is then excluded.
    The edits [normalize_variant_edits] selects are of that kind, and so are those of
    [apply_plan] when no repair lists an edit twice; the files written through the
    overlay are those splices. *)

From Stdlib Require Import Ascii String.
From S2P Require Import Prelude RustStr RustColl RustPath CompilerData MemoryGraph Autofix.
From stdpp Require Import options.

#[local] Arguments String.append !_ _ / : assert.

(** ** Slices *)

Fixpoint skip_bytes (n : nat) (s : string) : string :=
  match n, s with
  | O, _ => s
  | S n, String _ s => skip_bytes n s
  | S _, EmptyString => EmptyString
  end.

(** [&source[from..to]] *)
Definition slice (source : string) (from to : N) : string :=
  take_bytes (N.to_nat (to - from)) (skip_bytes (N.to_nat from) source).

(** The source from byte [from] on, with the edits, which come in order, put in
    their places. *)
Fixpoint splice (source : string) (from : N) (edits : list SerializedBorrowckRepairEdit) : string :=
  match edits with
  | [] => skip_bytes (N.to_nat from) source
  | edit :: edits =>
      slice source from (sedit_byte_start edit) +:+ sedit_replacement edit
      +:+ splice source (sedit_byte_end edit) edits
  end.

Lemma drop_skip n s : n <= String.length s -> drop_bytes n s = Some (skip_bytes n s).
Proof. revert s. induction n; intros [|c s]; simpl; try done; try lia. intros. apply IHn. lia. Qed.

Lemma drop_bytes_beyond n s : String.length s < n -> drop_bytes n s = None.
Proof. revert s. induction n; intros [|c s]; simpl; try done; try lia. intros. apply IHn. lia. Qed.

Lemma skip_bytes_app n a b : n <= String.length a -> skip_bytes n (a +:+ b) = skip_bytes n a +:+ b.
Proof. revert a. induction n; intros [|c a]; simpl; try done; try lia. intros. apply IHn. lia. Qed.

Lemma take_bytes_app n a b : n <= String.length a -> take_bytes n (a +:+ b) = take_bytes n a.
Proof.
  revert a. induction n; intros [|c a]; simpl; try done; try lia. intros. f_equal. apply IHn. lia.
Qed.

Lemma length_take_bytes n s : n <= String.length s -> String.length (take_bytes n s) = n.
Proof. revert s. induction n; intros [|c s]; simpl; try done; try lia. intros. f_equal. apply IHn. lia. Qed.

Lemma take_bytes_all s : take_bytes (String.length s) s = s.
Proof. induction s; simpl; congruence. Qed.

Lemma skip_bytes_all s : skip_bytes (String.length s) s = EmptyString.
Proof. by induction s. Qed.

Lemma take_skip n s : n <= String.length s -> take_bytes n s +:+ skip_bytes n s = s.
Proof. intros H. apply drop_take_bytes, drop_skip, H. Qed.

Lemma take_split a b s :
  (a <= b)%N -> (b <= str_len s)%N ->
  take_bytes (N.to_nat b) s = take_bytes (N.to_nat a) s +:+ slice s a b.
Proof.
  unfold slice, str_len. intros Hab Hb.
  assert (forall n m, n + m <= String.length s ->
    take_bytes (n + m) s = take_bytes n s +:+ take_bytes m (skip_bytes n s)) as H.
  { clear. intros n. revert s. induction n; intros [|c s] m; simpl; try done; try lia.
    intros. f_equal. apply IHn. lia. }
  replace (N.to_nat b) with (N.to_nat a + N.to_nat (b - a)) by lia. apply H. lia.
Qed.

Lemma skip_take a b s :
  (a <= b)%N -> (b <= str_len s)%N ->
  skip_bytes (N.to_nat a) (take_bytes (N.to_nat b) s) = slice s a b.
Proof.
  intros Hab Hb. rewrite (take_split a b s) by done. unfold str_len in *.
  assert (String.length (take_bytes (N.to_nat a) s) = N.to_nat a) as Hl by (apply length_take_bytes; lia).
  rewrite skip_bytes_app by lia. rewrite <- Hl at 1. by rewrite skip_bytes_all.
Qed.

Lemma slice_refl s a : slice s a a = EmptyString.
Proof. unfold slice. rewrite N.sub_diag. by destruct (skip_bytes _ _). Qed.

Lemma starts_char_app a b : starts_char a = true -> starts_char b = true -> starts_char (a +:+ b) = true.
Proof. by destruct a. Qed.

Lemma starts_char_take n s : starts_char s = true -> starts_char (take_bytes n s) = true.
Proof. by destruct n, s. Qed.

(** ** Boundaries *)

Lemma split_str_at_ok s at_ :
  (at_ <= str_len s)%N -> starts_char (skip_bytes (N.to_nat at_) s) = true ->
  split_str_at s at_ = Ok (take_bytes (N.to_nat at_) s, skip_bytes (N.to_nat at_) s).
Proof.
  unfold str_len, split_str_at. intros Hle Hs. rewrite drop_skip by lia. by rewrite Hs.
Qed.

Lemma is_char_boundary_spec s at_ :
  is_char_boundary s at_ = true <->
  (at_ <= str_len s)%N /\ starts_char (skip_bytes (N.to_nat at_) s) = true.
Proof.
  unfold is_char_boundary, split_str_at, str_len.
  destruct (decide (N.to_nat at_ <= String.length s)) as [H|H].
  - rewrite drop_skip by done. destruct (starts_char _); simpl; naive_solver lia.
  - rewrite drop_bytes_beyond by lia. simpl. split; [done|]. lia.
Qed.

Lemma valid_boundaries_spec s edit :
  valid_boundaries s edit = true <->
  (sedit_byte_start edit <= sedit_byte_end edit)%N /\
  is_char_boundary s (sedit_byte_start edit) = true /\
  is_char_boundary s (sedit_byte_end edit) = true.
Proof.
  unfold valid_boundaries. rewrite negb_true_iff, !orb_false_iff, !negb_false_iff, !N.ltb_ge.
  rewrite !is_char_boundary_spec. naive_solver lia.
Qed.

(** ** Splicing *)

(** Edits in order that do not reach into one another. *)
Fixpoint separated (from : N) (edits : list SerializedBorrowckRepairEdit) : Prop :=
  match edits with
  | [] => True
  | edit :: edits => (from <= sedit_byte_start edit)%N /\ separated (sedit_byte_end edit) edits
  end.

Definition replacement_is_str (edit : SerializedBorrowckRepairEdit) : Prop :=
  starts_char (sedit_replacement edit) = true.

Lemma splice_starts_char source from edits :
  is_char_boundary source from = true -> separated from edits ->
  Forall (fun edit => valid_boundaries source edit = true) edits -> Forall replacement_is_str edits ->
  starts_char (splice source from edits) = true.
Proof.
  revert from. induction edits as [|edit edits IH]; simpl; intros from Hb Hsep Hv Hr.
  - by apply is_char_boundary_spec in Hb as [_ ?].
  - apply Forall_cons in Hv as [Hv Hvs], Hr as [Hr Hrs]. destruct Hsep as [_ Hsep].
    apply starts_char_app; [|apply starts_char_app; [done|]].
    + apply starts_char_take. by apply is_char_boundary_spec in Hb as [_ ?].
    + apply IH; try done. by apply valid_boundaries_spec in Hv as (_ & _ & ?).
Qed.

Lemma fold_result_app {A B} (f : B -> A -> result B) acc l1 l2 :
  fold_result f acc (l1 ++ l2) = (fold_result f acc l1 ≫= fun acc => fold_result f acc l2).
Proof.
  revert acc. induction l1 as [|x l1 IH]; intros acc; simpl; [done|].
  destruct (f acc x); simpl; auto.
Qed.

Lemma replace_spliced source edit tail :
  valid_boundaries source edit = true -> starts_char tail = true ->
  replace_range (take_bytes (N.to_nat (sedit_byte_end edit)) source +:+ tail) edit =
  Ok (take_bytes (N.to_nat (sedit_byte_start edit)) source +:+ sedit_replacement edit +:+ tail).
Proof.
  rewrite valid_boundaries_spec, !is_char_boundary_spec. intros (Hle & [Hs Hcs] & [He Hce]) Htail.
  unfold replace_range. rewrite (proj2 (N.ltb_ge _ _)) by done.
  set (head := take_bytes (N.to_nat (sedit_byte_end edit)) source).
  assert (String.length head = N.to_nat (sedit_byte_end edit)) as Hlen
    by (apply length_take_bytes; unfold str_len in *; lia).
  rewrite !split_str_at_ok; unfold str_len in *; rewrite ?length_append, ?Hlen; try lia.
  - simpl. rewrite take_bytes_app, skip_bytes_app, <- Hlen, skip_bytes_all by lia. simpl.
    unfold head. f_equal. f_equal.
    rewrite (take_split (sedit_byte_start edit) (sedit_byte_end edit)) by (unfold str_len; lia).
    rewrite take_bytes_app by (rewrite length_take_bytes; lia).
    rewrite <- (length_take_bytes (N.to_nat (sedit_byte_start edit)) source) at 1 by lia. apply take_bytes_all.
  - rewrite skip_bytes_app by lia. unfold head. rewrite skip_take by (unfold str_len; lia).
    apply starts_char_app; [by apply starts_char_take|done].
  - rewrite skip_bytes_app by lia. rewrite <- Hlen at 1. by rewrite skip_bytes_all.
Qed.

Lemma splice_from source edits from :
  (from <= str_len source)%N -> separated from edits ->
  Forall (fun edit => valid_boundaries source edit = true) edits -> Forall replacement_is_str edits ->
  fold_result replace_range source (rev edits) =
  Ok (take_bytes (N.to_nat from) source +:+ splice source from edits).
Proof.
  revert from. induction edits as [|edit edits IH]; intros from Hb Hsep Hv Hr; simpl.
  - unfold str_len in *. rewrite take_skip by lia. done.
  - apply Forall_cons in Hv as [Hv Hvs], Hr as [Hr Hrs]. destruct Hsep as [Hfrom Hsep].
    pose proof (proj1 (valid_boundaries_spec _ _) Hv) as (Hle & Hs & He).
    rewrite fold_result_app, (IH (sedit_byte_end edit))
      by (done || by apply is_char_boundary_spec in He as [? _]).
    simpl.
    rewrite replace_spliced by (done || by apply splice_starts_char). simpl.
    apply is_char_boundary_spec in Hs as [Hs _].
    by rewrite (take_split from (sedit_byte_start edit)), append_assoc by done.
Qed.

(** ** Conflicts *)

(** Two different edits that do not conflict. *)
Definition compatible (a b : SerializedBorrowckRepairEdit) : Prop :=
  edits_conflict a b = false /\ same_edit a b = false.

Lemma path_eqb_sym a b : path_eqb a b = path_eqb b a.
Proof. apply eq_bool_prop_intro. rewrite !Is_true_true, !path_eqb_spec. naive_solver. Qed.

Lemma same_edit_sym a b : same_edit a b = same_edit b a.
Proof.
  unfold same_edit. by rewrite (path_eqb_sym (sedit_path a)), (N.eqb_sym (sedit_byte_start a)),
    (N.eqb_sym (sedit_byte_end a)), (String.eqb_sym (sedit_replacement a)).
Qed.

(** The ranges of two edits, as [edits_conflict] compares them. *)
Definition ranges_overlap (a b : SerializedBorrowckRepairEdit) : bool :=
  if (sedit_byte_start a =? sedit_byte_end a)%N then
    (sedit_byte_start b <=? sedit_byte_start a)%N && (sedit_byte_start a <=? sedit_byte_end b)%N
  else if (sedit_byte_start b =? sedit_byte_end b)%N then
    (sedit_byte_start a <=? sedit_byte_start b)%N && (sedit_byte_start b <=? sedit_byte_end a)%N
  else (sedit_byte_start a <? sedit_byte_end b)%N && (sedit_byte_start b <? sedit_byte_end a)%N.

Lemma ranges_overlap_sym a b : ranges_overlap a b = ranges_overlap b a.
Proof.
  unfold ranges_overlap.
  destruct (N.eqb_spec (sedit_byte_start a) (sedit_byte_end a)),
    (N.eqb_spec (sedit_byte_start b) (sedit_byte_end b)); apply eq_bool_prop_intro;
    rewrite !Is_true_true, !andb_true_iff, ?N.leb_le, ?N.ltb_lt; lia.
Qed.

Lemma compatible_spec a b :
  compatible a b <->
  path_eqb (sedit_path a) (sedit_path b) = false \/
  (same_edit a b = false /\ ranges_overlap a b = false).
Proof.
  unfold compatible, edits_conflict, same_edit, ranges_overlap.
  destruct (path_eqb _ _); simpl; [|naive_solver].
  destruct (_ && _ && String.eqb _ _); naive_solver.
Qed.

#[global] Instance compatible_sym : Symmetric compatible.
Proof.
  intros a b. rewrite !compatible_spec.
  by rewrite (path_eqb_sym (sedit_path b)), (same_edit_sym b), (ranges_overlap_sym b).
Qed.

Lemma pairwise_perm {A} (R : A -> A -> Prop) `{!Symmetric R} l1 l2 :
  l1 ≡ₚ l2 -> StronglySorted R l1 -> StronglySorted R l2.
Proof.
  induction 1 as [|x l1 l2 Hp IH|x y l|l1 l2 l3 _ IH1 _ IH2]; [done| | |tauto].
  - intros [Hs Hx]%StronglySorted_inv. constructor; [auto|]. by rewrite <- Hp.
  - intros [[Hs Hx]%StronglySorted_inv Hy]%StronglySorted_inv. apply Forall_cons in Hy as [Hyx Hy].
    repeat constructor; done.
Qed.

(** Edits of one file, in order of position, that are compatible do not reach into
    one another. *)
Lemma compatible_separated a b :
  path_eqb (sedit_path a) (sedit_path b) = true -> compatible a b ->
  (sedit_byte_start a <= sedit_byte_end a)%N -> (sedit_byte_start b <= sedit_byte_end b)%N ->
  (sedit_byte_start a <= sedit_byte_start b)%N -> (sedit_byte_end a <= sedit_byte_start b)%N.
Proof.
  rewrite compatible_spec. intros Hp [?|[_ H]]; [congruence|]. revert H. unfold ranges_overlap.
  destruct (N.eqb_spec (sedit_byte_start a) (sedit_byte_end a)),
    (N.eqb_spec (sedit_byte_start b) (sedit_byte_end b));
    rewrite !andb_false_iff, ?N.leb_gt, ?N.ltb_ge; lia.
Qed.

Definition position_leb : SerializedBorrowckRepairEdit -> SerializedBorrowckRepairEdit -> bool :=
  on edit_position (lex_leb N.compare N.leb).

Lemma position_leb_start a b :
  position_leb a b = true -> (sedit_byte_start a <= sedit_byte_start b)%N.
Proof.
  unfold position_leb, on, lex_leb, edit_position; simpl.
  destruct (N.compare_spec (sedit_byte_start a) (sedit_byte_start b)); naive_solver lia.
Qed.

Definition same_file (path : PathBuf) (edit : SerializedBorrowckRepairEdit) : Prop :=
  path_eqb (sedit_path edit) path = true.

Lemma ordered_separated source path edits from :
  StronglySorted (fun a b => position_leb a b = true) edits -> StronglySorted compatible edits ->
  Forall (same_file path) edits -> Forall (fun edit => valid_boundaries source edit = true) edits ->
  Forall (fun edit => (from <= sedit_byte_start edit)%N) edits -> separated from edits.
Proof.
  revert from. induction edits as [|a edits IH]; intros from Hs Hc Hf Hv Hfrom; simpl; [done|].
  apply StronglySorted_inv in Hs as [Hs Hsa], Hc as [Hc Hca].
  apply Forall_cons in Hf as [Hfa Hf], Hv as [Hva Hv], Hfrom as [Hfrom _].
  split; [done|]. apply IH; try done. rewrite !Forall_forall in *. intros b Hb.
  apply compatible_separated; eauto using position_leb_start.
  - apply path_eqb_spec. specialize (Hf b Hb). unfold same_file in *.
    rewrite !path_eqb_spec in *. congruence.
  - by apply (valid_boundaries_spec source).
  - by apply (valid_boundaries_spec source), Hv.
Qed.

Lemma order_patch_perm edits : order_patch edits ≡ₚ edits.
Proof. apply sort_by_perm. Qed.

(** Edits that fit one source text together. *)
Definition patch_set (source : string) (path : PathBuf)
    (edits : list SerializedBorrowckRepairEdit) : Prop :=
  Forall (same_file path) edits /\
  Forall (fun edit => valid_boundaries source edit = true) edits /\
  Forall replacement_is_str edits /\ StronglySorted compatible edits.

Lemma patch_set_splice source path edits :
  patch_set source path edits -> patch_source source edits = Ok (splice source 0 (order_patch edits)).
Proof.
  intros (Hf & Hv & Hr & Hc). unfold patch_source. rewrite (splice_from source _ 0).
  - by rewrite N2Nat.inj_0; destruct source.
  - lia.
  - apply (ordered_separated source path); rewrite ?order_patch_perm; try done.
    + apply (sort_on_sorted edit_position (lex_leb N.compare N.leb)).
    + by eapply pairwise_perm; [apply _|symmetry; apply order_patch_perm|].
    + apply Forall_forall. lia.
  - by rewrite order_patch_perm.
  - by rewrite order_patch_perm.
Qed.

(** ** Grouping by file *)

Lemma push_by_path_sorted edit groups :
  btree_sorted groups -> btree_sorted (push_by_path edit groups).
Proof.
  unfold btree_sorted. induction groups as [|[k es] groups IH]; simpl; intros Hs.
  { repeat constructor. }
  pose proof Hs as [Hs' Hk]%StronglySorted_inv.
  destruct (path_cmp (sedit_path edit) k) eqn:H; [by constructor| |].
  - constructor; [done|]. constructor; [done|]. eapply Forall_impl; [exact Hk|].
    intros e He. exact (cmp_trans (cmp:=list_cmp component_cmp) _ _ _ H He).
  - constructor; [by apply IH|]. apply Forall_forall. intros e He.
    assert (forall g, e ∈ push_by_path edit g -> e.1 = sedit_path edit \/ e.1 ∈ g.*1) as Hkeys.
    { clear. induction g as [|[k es] g IH]; simpl.
      - rewrite list_elem_of_singleton. intros ->. auto.
      - assert (e ∈ g -> e.1 ∈ g.*1) by (intros; by apply list_elem_of_fmap_2).
        destruct (path_cmp _ k); rewrite !elem_of_cons.
        + intros [->|?]; simpl; auto.
        + intros [->|[->|?]]; simpl; auto.
        + intros [->|[?|?]%IH]; simpl; auto. }
    destruct e as [q qs]. simpl in *.
    apply Hkeys in He as [->|([q' qs'] & -> & He)%list_elem_of_fmap].
    + unfold path_cmp in *. by rewrite (cmp_antisym (cmp:=list_cmp component_cmp)), H.
    + rewrite Forall_forall in Hk. apply (Hk _ He).
Qed.

Lemma push_by_path_get p edit groups :
  btree_sorted groups ->
  btree_get p (push_by_path edit groups) =
  if path_eqb (sedit_path edit) p then Some (default [] (btree_get p groups) ++ [edit])
  else btree_get p groups.
Proof.
  unfold btree_sorted. induction groups as [|[k es] groups IH]; simpl; intros Hs.
  { apply btree_get_cons. }
  pose proof Hs as [Hs' Hk]%StronglySorted_inv.
  destruct (path_cmp (sedit_path edit) k) eqn:H; rewrite !btree_get_cons.
  - assert (path_eqb (sedit_path edit) k = true) as Heq by (unfold path_eqb; by rewrite H).
    apply path_eqb_spec in Heq. unfold path_eqb, path_cmp. rewrite Heq. by destruct (list_cmp _ _ _).
  - destruct (path_eqb (sedit_path edit) p) eqn:Hp; [|done].
    rewrite (btree_sorted_absent p (sedit_path edit) groups), (path_eqb_sym k); try done.
    + rewrite path_eqb_spec in Hp.
      replace (path_eqb p k) with (path_eqb (sedit_path edit) k)
        by (unfold path_eqb, path_cmp; by rewrite Hp).
      by rewrite (path_cmp_lt_neqb _ _ H).
    + eapply Forall_impl; [exact Hk|]. intros e He.
      exact (cmp_trans (cmp:=list_cmp component_cmp) _ _ _ H He).
  - destruct (path_eqb k p) eqn:Hkp; [|by rewrite IH].
    destruct (path_eqb (sedit_path edit) p) eqn:Hp; [|done].
    rewrite path_eqb_spec in Hkp, Hp. exfalso. revert H. unfold path_cmp. rewrite Hkp, Hp.
    by rewrite (proj2 (cmp_eq (cmp:=list_cmp component_cmp) _ _) eq_refl).
Qed.

Definition edits_of (path : PathBuf) (edits : list SerializedBorrowckRepairEdit) :
    list SerializedBorrowckRepairEdit :=
  retain (fun edit => path_eqb (sedit_path edit) path) edits.

Lemma edits_by_path_spec edits :
  btree_sorted (edits_by_path edits) /\
  forall p, btree_get p (edits_by_path edits) =
    match edits_of p edits with
    | [] => None
    | es => Some es
    end.
Proof.
  unfold edits_by_path, edits_of, retain. induction edits as [|e edits [Hs Hg]] using rev_ind.
  { split; [constructor|done]. }
  rewrite foldl_app. simpl. split; [by apply push_by_path_sorted|].
  intros p. rewrite push_by_path_get, Hg, List.filter_app by done. simpl.
  destruct (path_eqb (sedit_path e) p); [|by rewrite app_nil_r].
  by destruct (List.filter _ edits).
Qed.

Lemma edits_by_path_elem p es edits :
  (p, es) ∈ edits_by_path edits -> es = edits_of p edits /\ es <> [].
Proof.
  destruct (edits_by_path_spec edits) as [Hs Hg]. intros Hin.
  apply btree_get_sorted in Hin; [|done]. rewrite Hg in Hin.
  destruct (edits_of p edits); naive_solver.
Qed.

Lemma StronglySorted_filter {A} (R : A -> A -> Prop) p l :
  StronglySorted R l -> StronglySorted R (retain p l).
Proof.
  induction 1 as [|x l Hs IH Hx]; [constructor|]. unfold retain in *. simpl.
  destruct (p x); [|done]. constructor; [done|]. apply Forall_forall.
  intros y [_ Hy]%elem_of_retain. rewrite Forall_forall in Hx. auto.
Qed.

(** ** Selection *)

Section selection.
Variable sources : list (PathBuf * string).

(** An edit of a text of the plan, on character boundaries of it. *)
Definition fits (edit : SerializedBorrowckRepairEdit) : Prop :=
  exists source, btree_get (sedit_path edit) sources = Some source /\
    valid_boundaries source edit = true.

(** No two edits of a list are the same. The recorder does not see to it: the group it
    keeps is the list of edits it is given. *)
Definition distinct_edits : list SerializedBorrowckRepairEdit -> Prop :=
  StronglySorted (fun a b => same_edit a b = false).

Definition covered (edits : list SerializedBorrowckRepairEdit)
    (edit : SerializedBorrowckRepairEdit) : Prop :=
  exists other, other ∈ edits /\ same_edit edit other = true.

Lemma same_edit_refl e : same_edit e e = true.
Proof. unfold same_edit. by rewrite path_eqb_refl, !N.eqb_refl, String.eqb_refl. Qed.

Lemma pairwise_snoc {A} (R : A -> A -> Prop) l x :
  StronglySorted R l -> Forall (fun y => R y x) l -> StronglySorted R (l ++ [x]).
Proof.
  induction 1 as [|y l Hs IH Hy]; simpl; intros Hx; [repeat constructor|].
  apply Forall_cons in Hx as [Hyx Hx]. constructor; [auto|].
  apply Forall_app. auto.
Qed.

Lemma existsb_false {A} (p : A -> bool) l :
  existsb p l = false <-> Forall (fun x => p x = false) l.
Proof.
  induction l as [|x l IH]; simpl; [by rewrite Forall_nil|].
  by rewrite orb_false_iff, Forall_cons, IH.
Qed.

Lemma existsb_covered e l : existsb (same_edit e) l = true -> covered l e.
Proof. intros (x & Hin%list_elem_of_In & H)%existsb_exists. by exists x. Qed.

Lemma scan_edits_ok accepted candidate edits result :
  scan_edits sources accepted accepted candidate edits = Ok result ->
  StronglySorted compatible (accepted ++ candidate) -> Forall fits candidate ->
  distinct_edits edits ->
  Forall (fun edit => Forall (fun old => same_edit old edit = false) candidate) edits ->
  exists added, result = candidate ++ added /\
    StronglySorted compatible (accepted ++ result) /\ Forall fits result /\
    added ⊆ edits /\ Forall (covered (accepted ++ result)) edits.
Proof.
  revert candidate. induction edits as [|edit edits IH]; simpl; intros candidate Hok Hc Hfit Hd Hn.
  { injection Hok as <-. exists []. rewrite app_nil_r. repeat split; try done. }
  destruct (btree_get _ sources) as [source|] eqn:Hsource; [|done].
  destruct (valid_boundaries source edit) eqn:Hv; simpl in Hok; [|done].
  destruct (_ || _) eqn:Hconf; [done|]. apply orb_false_iff in Hconf as [Ha Hb].
  apply existsb_false in Ha, Hb. apply StronglySorted_inv in Hd as [Hd Hde].
  apply Forall_cons in Hn as [Hne Hn].
  destruct (existsb (same_edit edit) accepted) eqn:Hseen.
  - destruct (IH candidate Hok) as (added & -> & H1 & H2 & H3 & H4); try done.
    exists added. repeat split; try done; [set_solver|]. constructor; [|done].
    destruct (existsb_covered _ _ Hseen) as (o & Ho & Hs). exists o. split; [set_solver|done].
  - destruct (IH (candidate ++ [edit]) Hok) as (added & -> & H1 & H2 & H3 & H4); try done.
    + rewrite app_assoc. apply pairwise_snoc; [done|]. apply existsb_false in Hseen.
      rewrite Forall_app, !Forall_forall in *.
      split; intros x Hx; split; auto. rewrite same_edit_sym. auto.
    + apply Forall_app. split; [done|]. constructor; [by exists source|done].
    + rewrite !Forall_forall in *. intros x Hx. rewrite Forall_app. split; [by apply Hn|].
      constructor; [by apply Hde|done].
    + exists (edit :: added). rewrite <- app_assoc in *. simpl in *.
      repeat split; try done; [set_solver|]. constructor; [|done].
      exists edit. split; [set_solver|apply same_edit_refl].
Qed.

(** What holds of the loop over the repair groups. *)
Definition selection_inv (repairs : list SerializedBorrowckRepairGroup) (s : Selection) : Prop :=
  seen s = accepted s /\ StronglySorted compatible (accepted s) /\ Forall fits (accepted s) /\
  applied_groups s ⊆ repairs /\
  Forall (fun edit => exists repair, repair ∈ applied_groups s /\ edit ∈ sgroup_edits repair)
    (accepted s) /\
  Forall (fun repair => Forall (covered (accepted s)) (sgroup_edits repair)) (applied_groups s) /\
  Forall (fun repair => repair ∈ applied_groups s \/ repair ∈ (skipped_groups s).*2 \/
            Forall (covered (accepted s)) (sgroup_edits repair)) repairs.

Lemma covered_app l1 l2 e : covered l1 e -> covered (l1 ++ l2) e.
Proof. intros (o & Ho & H). exists o. split; [set_solver|done]. Qed.

Lemma select_group_inv repairs s repair :
  selection_inv repairs s -> distinct_edits (sgroup_edits repair) ->
  selection_inv (repairs ++ [repair]) (select_group sources s repair).
Proof.
  intros (Hseen & Hc & Hfit & Hsub & Hfrom & Hcov & Hall) Hd. unfold select_group. rewrite Hseen.
  destruct (scan_edits _ _ _ _ _) as [candidate|reason] eqn:Hscan.
  - apply scan_edits_ok in Hscan as (added & -> & Hc' & Hfit' & Hin & Hcov'); try done;
      [|by rewrite app_nil_r|by apply Forall_true].
    simpl in *. destruct added as [|e added].
    { rewrite app_nil_r in Hcov'. repeat split; try done; [set_solver|].
      rewrite Forall_app, Forall_singleton. auto. }
    assert (forall l, Forall (covered (accepted s)) l -> Forall (covered (accepted s ++ e :: added)) l)
      as Hmono by (intros l Hl; eapply Forall_impl; [exact Hl|]; auto using covered_app).
    repeat split; simpl; try done.
    + by apply Forall_app.
    + set_solver.
    + apply Forall_app. split.
      * eapply Forall_impl; [exact Hfrom|]. intros x (r & Hr & Hx). exists r. set_solver.
      * apply Forall_forall. intros x Hx. exists repair. set_solver.
    + rewrite Forall_app, Forall_singleton. split; [|done].
      eapply Forall_impl; [exact Hcov|auto].
    + rewrite Forall_app, Forall_singleton. split; [|set_solver].
      eapply Forall_impl; [exact Hall|]. intros r [?|[?|?]]; [set_solver..|auto].
  - repeat split; simpl; try done; [set_solver|]. rewrite fmap_app, Forall_app, Forall_singleton.
    split; [|set_solver]. eapply Forall_impl; [exact Hall|]. set_solver.
Qed.

Lemma select_groups_inv repairs :
  Forall (fun repair => distinct_edits (sgroup_edits repair)) repairs ->
  selection_inv repairs (select_groups sources repairs).
Proof.
  unfold select_groups. induction repairs as [|repair repairs IH] using rev_ind; intros Hd.
  { repeat split; try done; constructor. }
  apply Forall_app in Hd as [Hds Hd]. rewrite Forall_singleton in Hd. rewrite foldl_app. simpl.
  apply select_group_inv; [exact (IH Hds)|exact Hd].
Qed.
End selection.

(** ** Writing *)

Section writes.
Variable workspace : PathBuf.
Variable sources : list (PathBuf * string).

(** The files two entries are written to are different. *)
Definition apart (directory : PathBuf) (a b : PathBuf * list SerializedBorrowckRepairEdit) : Prop :=
  path_eqb (patched_source_path workspace directory a.1)
    (patched_source_path workspace directory b.1) = false.

Definition ready (entry : PathBuf * list SerializedBorrowckRepairEdit) (text : string) : Prop :=
  btree_get entry.1 sources = Some text /\ patch_set text entry.1 entry.2.

Lemma write_patched_ok directory missing state entry text :
  ready entry text ->
  write_patched workspace sources directory missing state entry =
  Done (btree_insert entry.1 (patched_source_path workspace directory entry.1) state.1,
        btree_insert (patched_source_path workspace directory entry.1)
          (splice text 0 (order_patch entry.2)) state.2).
Proof.
  destruct entry as [original edits]. intros [Hs Hp]. simpl in *. rewrite Hs.
  by rewrite (patch_set_splice text original) by done.
Qed.

Lemma fold_writes directory missing entries state :
  Forall (fun entry => exists text, ready entry text) entries ->
  btree_sorted entries -> StronglySorted (apart directory) entries ->
  exists state', fold_io (write_patched workspace sources directory missing) state entries = Done state' /\
    (forall entry text, entry ∈ entries -> btree_get entry.1 sources = Some text ->
       btree_get entry.1 state'.1 = Some (patched_source_path workspace directory entry.1) /\
       btree_get (patched_source_path workspace directory entry.1) state'.2
         = Some (splice text 0 (order_patch entry.2))) /\
    (forall path, Forall (fun entry => path_eqb entry.1 path = false) entries ->
       btree_get path state'.1 = btree_get path state.1) /\
    (forall path,
       Forall (fun entry => path_eqb (patched_source_path workspace directory entry.1) path = false)
         entries -> btree_get path state'.2 = btree_get path state.2).
Proof.
  unfold btree_sorted. revert state. induction entries as [|[original es] entries IH]; intros state Hr Hs Ha.
  { exists state. split_and!; [done|by intros ?? ?%elem_of_nil|done|done]. }
  apply Forall_cons in Hr as [[text Hr] Hrs].
  apply StronglySorted_inv in Hs as [Hs Hse], Ha as [Ha Hae]. cbn [fold_io].
  rewrite (write_patched_ok _ _ _ _ text) by done. simpl.
  edestruct IH as (state' & -> & Hwritten & Hover & Hfiles); [done..|].
  exists state'. split_and!; [done| | |].
  - intros entry' text' [->|Hin]%elem_of_cons Htext'; [|by apply Hwritten].
    destruct Hr as [Htext Hp]. injection (eq_trans (eq_sym Htext) Htext') as <-.
    rewrite Hover, Hfiles; simpl; rewrite ?btree_get_insert, ?path_eqb_refl; try done.
    + eapply Forall_impl; [exact Hae|]. intros e He. unfold apart in He. by rewrite path_eqb_sym.
    + eapply Forall_impl; [exact Hse|]. intros e He. rewrite path_eqb_sym. by apply path_cmp_lt_neqb.
  - intros path [He Hes]%Forall_cons. rewrite Hover by done. simpl in *. by rewrite btree_get_insert, He.
  - intros path [He Hes]%Forall_cons. rewrite Hfiles by done. simpl in *. by rewrite btree_get_insert, He.
Qed.

Lemma fits_patch_set edits path text :
  Forall (fits sources) edits -> StronglySorted compatible edits -> Forall replacement_is_str edits ->
  btree_get path sources = Some text -> patch_set text path (edits_of path edits).
Proof.
  intros Hf Hc Hr Htext. unfold patch_set, edits_of. rewrite !Forall_forall in *.
  split_and!; [| | |by apply StronglySorted_filter].
  - by intros e [He _]%elem_of_retain.
  - intros e [He Hin]%elem_of_retain. destruct (Hf e Hin) as (text' & Htext' & Hv).
    rewrite (btree_get_eqb _ path) in Htext' by done.
    by injection (eq_trans (eq_sym Htext) Htext') as ->.
  - intros e [_ Hin]%elem_of_retain. auto.
Qed.

Lemma entries_ready edits :
  Forall (fits sources) edits -> StronglySorted compatible edits -> Forall replacement_is_str edits ->
  Forall (fun entry => exists text, ready entry text) (edits_by_path edits).
Proof.
  intros Hf Hc Hr. apply Forall_forall. intros [path es] Hin.
  apply edits_by_path_elem in Hin as [-> Hne].
  destruct (edits_of path edits) as [|e es] eqn:He; [done|]. rewrite <- He.
  assert (e ∈ edits_of path edits) as [Hp Hin]%elem_of_retain by (rewrite He; set_solver).
  pose proof Hf as Hf'. rewrite Forall_forall in Hf'. destruct (Hf' e Hin) as (text & Htext & _).
  rewrite (btree_get_eqb _ path) in Htext by done. exists text.
  split; [done|by apply fits_patch_set].
Qed.
End writes.

(** ** What a round of repairs does *)

Definition plan_edits (plan : SerializedBorrowckRepairPlan) : list SerializedBorrowckRepairEdit :=
  plan_repairs plan ≫= sgroup_edits.

(** The spliced text of the file at [path] is what the overlay leads to. *)
Definition spliced (state : Overlay * Files) (path : PathBuf) (text : string)
    (edits : list SerializedBorrowckRepairEdit) : Prop :=
  exists patched, btree_get path state.1 = Some patched /\
    btree_get patched state.2 = Some (splice text 0 (order_patch edits)).

Lemma fold_splices workspace sources directory missing edits state :
  Forall (fits sources) edits -> StronglySorted compatible edits -> Forall replacement_is_str edits ->
  StronglySorted (apart workspace directory) (edits_by_path edits) ->
  exists state',
    fold_io (write_patched workspace sources directory missing) state (edits_by_path edits)
      = Done state' /\
    (forall path text, btree_get path sources = Some text -> edits_of path edits <> [] ->
       spliced state' path text (edits_of path edits)) /\
    (forall path, edits_of path edits = [] -> btree_get path state'.1 = btree_get path state.1).
Proof.
  intros Hf Hc Hr Ha. destruct (edits_by_path_spec edits) as [Hs Hg].
  destruct (fold_writes workspace sources directory missing (edits_by_path edits) state)
    as (state' & Hfold & Hwritten & Hover & _); [by apply entries_ready|done..|].
  exists state'. split_and!; [done| |].
  - intros path text Htext Hne.
    assert (btree_get path (edits_by_path edits) = Some (edits_of path edits)) as Hget
      by (rewrite Hg; by destruct (edits_of path edits)).
    apply btree_get_elem in Hget as (k & Hin & Hk).
    destruct (Hwritten (k, edits_of path edits) text Hin) as [Hov Hfile]; simpl in *.
    { etrans; [apply btree_get_eqb, Hk|exact Htext]. }
    exists (patched_source_path workspace directory k). split; [|done].
    rewrite <- (btree_get_eqb k path) by done. done.
  - intros path Hnone. apply Hover. apply Forall_forall. intros [k es] Hin. simpl.
    destruct (path_eqb k path) eqn:Hk; [|done]. exfalso.
    apply btree_get_sorted in Hin; [|done]. rewrite (btree_get_eqb k path), Hg, Hnone in Hin by done.
    done.
Qed.

Lemma edits_covered_sublist repairs sources edits :
  selection_inv sources repairs edits -> accepted edits ⊆ (repairs ≫= sgroup_edits).
Proof.
  intros (_ & _ & _ & Hsub & Hfrom & _) e He. rewrite Forall_forall in Hfrom.
  destruct (Hfrom e He) as (r & Hr & Hin). apply list_elem_of_bind. exists r. set_solver.
Qed.

(** C4: When no repair of the plan lists an edit twice, the replacements are UTF-8
    strings and the sources to patch are written to different files, a round of
    repairs ends without a panic, and every source it touches is read through the
    overlay as the plan's text with the accepted edits spliced in at their places; the
    overlay of other sources is left alone. The first condition matters:
    [repeated_edit_panics]. *)
Theorem round_splices_accepted_edits workspace plan crate_dir round overlay files log sources
    (Hsources : plan_source_texts plan = Ok sources)
    (Hdistinct : Forall (fun repair => distinct_edits (sgroup_edits repair)) (plan_repairs plan))
    (Hstr : Forall replacement_is_str (plan_edits plan))
    (Hapart : StronglySorted (apart workspace crate_dir)
                (edits_by_path (accepted (select_groups sources (plan_repairs plan))))) :
  exists count state log',
    apply_plan workspace plan crate_dir round overlay files log = Done (count, state, log') /\
    let edits := accepted (select_groups sources (plan_repairs plan)) in
    (forall path text, btree_get path sources = Some text -> edits_of path edits <> [] ->
       spliced state path text (edits_of path edits)) /\
    (forall path, edits_of path edits = [] -> btree_get path state.1 = btree_get path overlay).
Proof.
  pose proof (select_groups_inv sources _ Hdistinct) as Hinv.
  pose proof (edits_covered_sublist _ _ _ Hinv) as Hsub.
  destruct Hinv as (_ & Hc & Hfit & _).
  set (edits := accepted _) in *.
  assert (Forall replacement_is_str edits) as Hr.
  { rewrite Forall_forall in *. intros e He. apply Hstr, Hsub, He. }
  destruct (fold_splices workspace sources crate_dir Done edits (overlay, files))
    as (state & Hfold & Hspliced & Hother); [done..|].
  unfold apply_plan. rewrite Hsources. simpl. fold edits. destruct edits as [|e edits'].
  - eexists _, (overlay, files), _. split_and!; [reflexivity| |done]. by intros.
  - rewrite Hfold. simpl. eauto 6.
Qed.

(** C36: When no repair lists an edit twice, the edits of a round do not conflict with one
    another, each comes from an applied repair, an applied repair is applied as a whole,
    and a repair that is neither applied nor reported as skipped asks for nothing new. *)
Theorem repairs_applied_whole sources repairs
    (Hdistinct : Forall (fun repair => distinct_edits (sgroup_edits repair)) repairs) :
  let s := select_groups sources repairs in
  StronglySorted compatible (accepted s) /\
  Forall (fun edit => exists repair, repair ∈ applied_groups s /\ edit ∈ sgroup_edits repair)
    (accepted s) /\
  Forall (fun repair => Forall (covered (accepted s)) (sgroup_edits repair)) (applied_groups s) /\
  Forall (fun repair => repair ∈ applied_groups s \/ repair ∈ (skipped_groups s).*2 \/
            Forall (covered (accepted s)) (sgroup_edits repair)) repairs.
Proof. destruct (select_groups_inv sources repairs Hdistinct) as (_ & ? & _ & _ & ? & ? & ?). done. Qed.

(** ** Wrapper edits *)

Lemma edits_conflict_spec a b :
  edits_conflict a b =
  path_eqb (sedit_path a) (sedit_path b) && negb (same_edit a b) && ranges_overlap a b.
Proof.
  unfold edits_conflict, same_edit, ranges_overlap. destruct (path_eqb _ _); simpl; [|done].
  by destruct (_ && _ && String.eqb _ _).
Qed.

Lemma edits_conflict_sym a b : edits_conflict a b = edits_conflict b a.
Proof.
  by rewrite !edits_conflict_spec, (path_eqb_sym (sedit_path a)), same_edit_sym, ranges_overlap_sym.
Qed.

Lemma conflict_same a b : same_edit a b = true -> edits_conflict a b = false.
Proof. rewrite edits_conflict_spec. intros ->. by rewrite andb_false_r. Qed.

Lemma conflict_respects x a b :
  same_edit a b = true -> edits_conflict x a = edits_conflict x b.
Proof.
  unfold same_edit. rewrite !andb_true_iff, path_eqb_spec, !N.eqb_eq, String.eqb_eq.
  intros [[[Hp Hs] He] Hr]. unfold edits_conflict, path_eqb, path_cmp. by rewrite Hp, Hs, He, Hr.
Qed.

Lemma pairwise_elem {A} (R : A -> A -> Prop) `{!Symmetric R} l x y :
  StronglySorted R l -> x ∈ l -> y ∈ l -> x = y \/ R x y.
Proof.
  induction 1 as [|z l Hs IH Hz]; [by intros ?%elem_of_nil|]. rewrite Forall_forall in Hz.
  rewrite !elem_of_cons. intros [->|Hx] [->|Hy]; auto.
Qed.

(** No two edits covered by a compatible list conflict. *)
Lemma covered_no_conflict accepted a b :
  StronglySorted compatible accepted -> covered accepted a -> covered accepted b ->
  edits_conflict a b = false.
Proof.
  intros Hc (x & Hx & Hax) (y & Hy & Hby).
  rewrite (conflict_respects _ _ _ Hby), edits_conflict_sym, (conflict_respects _ _ _ Hax).
  destruct (pairwise_elem compatible accepted y x) as [->|[? _]]; try done.
  apply conflict_same, same_edit_refl.
Qed.

Lemma covered_pairwise accepted edits :
  StronglySorted compatible accepted -> Forall (covered accepted) edits ->
  StronglySorted (fun a b => edits_conflict a b = false) edits.
Proof.
  intros Hc. induction 1 as [|a edits Ha Hall IH]; constructor; [done|].
  eapply Forall_impl; [exact Hall|]. intros b Hb. by apply (covered_no_conflict accepted).
Qed.

Lemma covered_elem l e : e ∈ l -> covered l e.
Proof. exists e. split; [done|apply same_edit_refl]. Qed.

Section normalize.
Variable sources : list (PathBuf * string).

(** No edit of a list conflicts with one of another. *)
Definition no_conflict (olds edits : list SerializedBorrowckRepairEdit) : Prop :=
  Forall (fun edit => Forall (fun old => edits_conflict old edit = false) olds) edits.

Lemma no_conflict_snoc olds edit edits :
  no_conflict (olds ++ [edit]) edits <->
  no_conflict olds edits /\ Forall (fun e => edits_conflict edit e = false) edits.
Proof.
  unfold no_conflict. rewrite <- Forall_and. apply Forall_iff. intros e.
  by rewrite Forall_app, Forall_singleton.
Qed.

Lemma normalize_edits_ok accepted seen edits :
  seen ≡ₚ accepted -> StronglySorted compatible accepted ->
  match normalize_edits sources accepted seen edits with
  | Ok result =>
      exists added, result = accepted ++ added /\ added ⊆ edits /\ Forall (fits sources) edits /\
        StronglySorted compatible result /\ Forall (covered result) edits
  | Err _ =>
      ~ (Forall (fits sources) edits /\
         StronglySorted (fun a b => edits_conflict a b = false) edits /\ no_conflict accepted edits)
  end.
Proof.
  revert accepted seen. induction edits as [|edit edits IH]; intros accepted seen Hseen Hc; simpl.
  { exists []. rewrite app_nil_r. split_and!; try done; constructor. }
  destruct (btree_get _ sources) as [source|] eqn:Hsource.
  2: { rewrite Forall_cons. intros [[(? & ? & _) _] _]. congruence. }
  destruct (valid_boundaries source edit) eqn:Hv; simpl.
  2: { rewrite Forall_cons. intros [[(? & ? & ?) _] _]. congruence. }
  assert (fits sources edit) as Hfit by by exists source.
  destruct (existsb (same_edit edit) seen) eqn:Hex.
  - specialize (IH accepted seen Hseen Hc). destruct (normalize_edits _ _ _ _).
    + destruct IH as (added & -> & ? & ? & ? & ?). exists added.
      split_and!; try done; [set_solver|by constructor|]. constructor; [|done].
      apply existsb_covered in Hex as (o & Ho & Hs). rewrite Hseen in Ho.
      exists o. split; [set_solver|done].
    + intros (Hf & [Hs _]%StronglySorted_inv & Hn). apply IH.
      apply Forall_cons in Hf as [_ ?], Hn as [_ ?]. done.
  - destruct (existsb _ accepted) eqn:Hconf.
    + intros (_ & _ & [Hn _]%Forall_cons). apply existsb_false in Hn. congruence.
    + apply existsb_false in Hconf, Hex.
      assert (StronglySorted compatible (accepted ++ [edit])) as Hc'.
      { apply pairwise_snoc; [done|]. rewrite Hseen in Hex. rewrite Forall_forall in *.
        intros x Hx. split; [by apply Hconf|]. rewrite same_edit_sym. by apply Hex. }
      assert (edit :: seen ≡ₚ accepted ++ [edit]) as Hseen'
        by (rewrite Hseen; apply Permutation_cons_append).
      specialize (IH (accepted ++ [edit]) (edit :: seen) Hseen' Hc').
      destruct (normalize_edits _ _ _ _).
      * destruct IH as (added & -> & ? & ? & ? & ?). rewrite <- app_assoc in *. simpl in *.
        exists (edit :: added). split_and!; try done; [set_solver|by constructor|].
        constructor; [apply covered_elem; set_solver|done].
      * intros (Hf & [Hs He]%StronglySorted_inv & Hn). apply IH.
        apply Forall_cons in Hf as [_ ?], Hn as [_ ?]. by rewrite no_conflict_snoc.
Qed.
End normalize.

(** Two different edits of one file clash when their ranges share text, or when one of them
    is an insertion and they touch. *)
Definition clash (a b : SerializedBorrowckRepairEdit) : Prop :=
  path_eqb (sedit_path a) (sedit_path b) = true /\ same_edit a b = false /\
  ((sedit_byte_start a < sedit_byte_end b /\ sedit_byte_start b < sedit_byte_end a)%N \/
   ((sedit_byte_start a = sedit_byte_end a \/ sedit_byte_start b = sedit_byte_end b) /\
    sedit_byte_start a <= sedit_byte_end b /\ sedit_byte_start b <= sedit_byte_end a)%N).

Lemma conflict_clash a b : edits_conflict a b = false <-> ~ clash a b.
Proof.
  assert (ranges_overlap a b = true <->
    ((sedit_byte_start a < sedit_byte_end b /\ sedit_byte_start b < sedit_byte_end a)%N \/
     ((sedit_byte_start a = sedit_byte_end a \/ sedit_byte_start b = sedit_byte_end b) /\
      sedit_byte_start a <= sedit_byte_end b /\ sedit_byte_start b <= sedit_byte_end a)%N)) as Hr.
  { unfold ranges_overlap.
    destruct (N.eqb_spec (sedit_byte_start a) (sedit_byte_end a)), (N.eqb_spec (sedit_byte_start b) (sedit_byte_end b));
      rewrite andb_true_iff, ?N.leb_le, ?N.ltb_lt; lia. }
  unfold clash. rewrite <- Hr, edits_conflict_spec.
  destruct (path_eqb _ _), (same_edit a b), (ranges_overlap a b); cbn; naive_solver.
Qed.

Lemma StronglySorted_impl {A} (R S : A -> A -> Prop) l :
  (forall a b, R a b -> S a b) -> StronglySorted R l -> StronglySorted S l.
Proof. intros HRS. induction 1 as [|a l Hl IH Ha]; constructor; [done|]. eapply Forall_impl; [exact Ha|auto]. Qed.

(** C15: Edits of a wrapper variant are accepted exactly when each lies on character
    boundaries of a source of the plan and no two of them clash; repetitions are allowed.
    The edits taken are edits of the variant, each once, and cover all of them. *)
Theorem variant_edits_accepted_iff plan edits sources
    (Hsources : plan_source_texts plan = Ok sources) :
  (is_ok (normalize_variant_edits plan edits) = true <->
   Forall (fits sources) edits /\ StronglySorted (fun a b => ~ clash a b) edits) /\
  forall accepted, normalize_variant_edits plan edits = Ok accepted ->
    accepted ⊆ edits /\ StronglySorted (fun a b => ~ clash a b /\ same_edit a b = false) accepted /\
    Forall (covered accepted) edits.
Proof.
  unfold normalize_variant_edits. rewrite Hsources. simpl.
  pose proof (normalize_edits_ok sources [] [] edits) as H.
  destruct (normalize_edits sources [] [] edits) as [accepted|]; simpl in *.
  - destruct H as (added & -> & Hin & Hf & Hc & Hcov); [done|constructor|]. split.
    + split; [|done]. intros _. split; [done|].
      eapply StronglySorted_impl; [|by apply (covered_pairwise added)]. intros a b. apply conflict_clash.
    + intros ? [= <-]. split; [done|]. split; [|done].
      eapply StronglySorted_impl; [|exact Hc]. intros a b [Hab ?]. by rewrite <- conflict_clash.
  - split; [|done]. split; [done|]. intros [Hf Hs]. exfalso. apply H; [done|constructor|].
    split_and!; try done; [|apply Forall_true; constructor].
    eapply StronglySorted_impl; [|exact Hs]. intros a b. apply conflict_clash.
Qed.

(** ** Examples *)

Definition edit_source : string := "let b = a; f(a);".
Definition edit_path : PathBuf := "/work/src/main.rs".

Definition edit_plan (repairs : list (list SerializedBorrowckRepairEdit)) :
    SerializedBorrowckRepairPlan :=
  mk_plan 5 "x86_64" "demo" 7 [mk_ssource edit_path "" (Some edit_source)] [] [] [] []
    (mk_sgraph [] [] [] [] false) (mk_sgroup RepairKind.CloneMovedValue None <$> repairs) [] [].

Definition clone_a : SerializedBorrowckRepairEdit := mk_sedit edit_path 9 9 ".clone()".
Definition borrow_a : SerializedBorrowckRepairEdit := mk_sedit edit_path 13 14 "&a".

Example spliced_source :
  splice edit_source 0 [clone_a; borrow_a] = "let b = a.clone(); f(&a);".
Proof. reflexivity. Qed.

Lemma round_splices_accepted_edits_witness :
  exists count state log,
    apply_plan "/work" (edit_plan [[borrow_a]; [clone_a]]) "/out/demo" 1 [] [] (mk_log [] [])
      = Done (count, state, log) /\
    spliced state edit_path edit_source [borrow_a; clone_a].
Proof.
  destruct (round_splices_accepted_edits "/work" (edit_plan [[borrow_a]; [clone_a]]) "/out/demo" 1
    [] [] (mk_log [] []) [(edit_path, edit_source)]) as (count & state & log & H & Hs & _).
  - reflexivity.
  - repeat constructor.
  - repeat constructor.
  - change (edits_by_path _) with [(edit_path, [borrow_a; clone_a])]. repeat constructor.
  - exists count, state, log. split; [exact H|].
    apply (Hs edit_path edit_source); [reflexivity|vm_compute; discriminate].
Defined.

Definition delete_tail : SerializedBorrowckRepairEdit := mk_sedit edit_path 3 16 "".

(** A repair that lists one deletion twice is accepted, since an edit does not conflict
    with itself and the edits of a repair are only compared with those of earlier
    repairs; the second splice is then out of bounds. *)
Theorem repeated_edit_panics :
  apply_plan "/work" (edit_plan [[delete_tail; delete_tail]]) "/out/demo" 1 [] [] (mk_log [] [])
    = Panicked "byte index is out of bounds" /\
  exists result,
    apply_plan "/work" (edit_plan [[delete_tail]]) "/out/demo" 1 [] [] (mk_log [] []) = Done result.
Proof. split; [vm_compute; reflexivity|]. eexists. vm_compute. reflexivity. Qed.

Lemma repairs_applied_whole_witness :
  accepted (select_groups [(edit_path, edit_source)] (plan_repairs (edit_plan [[borrow_a]; [clone_a]])))
    = [borrow_a; clone_a] /\
  compatible borrow_a clone_a.
Proof.
  destruct (repairs_applied_whole [(edit_path, edit_source)]
    (plan_repairs (edit_plan [[borrow_a]; [clone_a]]))) as (Hc & _).
  - repeat constructor.
  - split; [reflexivity|]. revert Hc. vm_compute (accepted _). intros Hc.
    inversion_clear Hc as [|? ? _ Hb]. by inversion_clear Hb.
Defined.

Lemma variant_edits_accepted_iff_witness :
  normalize_variant_edits (edit_plan []) [clone_a; borrow_a; clone_a] = Ok [clone_a; borrow_a] /\
  Forall (fits [(edit_path, edit_source)]) [clone_a; borrow_a; clone_a].
Proof.
  split; [reflexivity|].
  apply (variant_edits_accepted_iff (edit_plan []) [clone_a; borrow_a; clone_a]
    [(edit_path, edit_source)]); reflexivity.
Defined.

(** A group that lists one insertion twice has it applied twice, since within a group only conflicts
    are looked for and an edit does not conflict with its copy. *)
Example repeated_edit_applied_twice :
  exists state log,
    apply_plan "/work" (edit_plan [[clone_a; clone_a]]) "/out/demo" 1 [] [] (mk_log [] [])
      = Done (1%N, state, log) /\
    btree_get edit_path state.1 = Some "/out/demo/src/main.rs" /\
    btree_get "/out/demo/src/main.rs" state.2 = Some "let b = a.clone().clone(); f(a);".
Proof. eexists _, _. split; [vm_compute; reflexivity|]. split; reflexivity. Qed.
