(* ===== verification/AutofixDriver.v ===== *)
(** * The autofix driver: repair rounds, wrapper variants, diagnostics

    The orchestration half of
    [rust/compiler/rustc_driver_impl/src/borrowck_autofix.rs]: [run], which compiles,
    applies the plan's repairs and compiles again; the compilation of wrapper
    variants; [run_suggestions], which validates variants in throw-away overlays; and
    the diagnostics both print.

    A child compiler is the parameter [compile]: from the number of children run so
    far, its arguments, the overlay and the files written it gives whether it
    succeeded and what reading its plan file yields.  The state of the driver is the
    files it has written and the number of children it has run.  The clock, the
    process id, the validation cache on disk and [serde_json] are parameters;
    directories and logs are not modelled, and a manifest is part of the result. *)

From Stdlib Require Import Ascii String.
From S2P Require Import Prelude RustStr RustColl RustPath Fnv CompilerData MemoryGraph RepairPlan Autofix.
From stdpp Require Import options.

(** ** Arguments *)

(** [s.split(',')] *)
Fixpoint split_on_from (sep : ascii) (current : string) (s : string) : list string :=
  match s with
  | EmptyString => [rev_str current]
  | String c s =>
      if Ascii.eqb c sep then rev_str current :: split_on_from sep EmptyString s
      else split_on_from sep (String c current) s
  end.

Definition split_on (sep : ascii) (s : string) : list string := split_on_from sep EmptyString s.

Definition strip_emit_paths (emit : string) : string :=
  join "," (first_segment (Ascii.eqb "="%char) <$> split_on ","%char emit).

Example strip_emit_example : strip_emit_paths "dep-info=/tmp/d.d,metadata,link=x" = "dep-info,metadata,link".
Proof. reflexivity. Qed.

(** [args.windows(2)] *)
Fixpoint windows2 {A} (l : list A) : list (A * A) :=
  match l with
  | a :: ((b :: _) as rest) => (a, b) :: windows2 rest
  | _ => []
  end.

Definition wrapper_suggestions_requested (args : list string) : bool :=
  existsb (fun arg => arg =s "-Zborrowck-wrapper-suggestions") args
  || existsb (fun pair => (pair.1 =s "-Z")
                && (trim_start_matches "="%char pair.2 =s "borrowck-wrapper-suggestions"))
       (windows2 args).

Definition uses_json_error_format (args : list string) : bool :=
  existsb (fun arg => starts_with "--error-format=json" arg) args
  || existsb (fun pair => (pair.1 =s "--error-format") && starts_with "json" pair.2)
       (windows2 args).

(** [iter.find_map(f)] *)
Fixpoint find_map {A B} (f : A -> option B) (l : list A) : option B :=
  match l with
  | [] => None
  | x :: l =>
      match f x with
      | Some y => Some y
      | None => find_map f l
      end
  end.

Definition ownership_model_directory (args : list string) : option PathBuf :=
  find_map (strip_prefix "-Zborrowck-ownership-model=") args.

(** One argument on its own: what is kept of it, and whether it names an output. *)
Definition redirect_single (artifact_output artifact_dir arg : string) : list string * bool :=
  if starts_with "--out-dir=" arg then (["--out-dir=" +:+ artifact_dir], true)
  else
    match strip_prefix "--emit=" arg with
    | Some kinds => (["--emit=" +:+ strip_emit_paths kinds], false)
    | None =>
        if starts_with "-Cincremental=" arg then ([], false)
        else if starts_with "-o" arg && (2 <? str_len arg)%N then (["-o" +:+ artifact_output], true)
        else ([arg], false)
    end.

(** One turn of the loop: what is pushed, whether an output was named, and whether
    the next argument is consumed too. *)
Definition redirect_step (artifact_output artifact_dir arg : string) (rest : list string) :
    list string * bool * bool :=
  if arg =s "-o" then ([arg; artifact_output], true, true)
  else if arg =s "--out-dir" then ([arg; artifact_dir], true, true)
  else
    match rest with
    | next :: _ =>
        if arg =s "--emit" then ([arg; strip_emit_paths next], false, true)
        else if (arg =s "-C") && starts_with "incremental=" next then ([], false, true)
        else (redirect_single artifact_output artifact_dir arg, false)
    | [] => (redirect_single artifact_output artifact_dir arg, false)
    end.

Fixpoint redirect_args (artifact_output artifact_dir : string) (args : list string) :
    list string * bool :=
  match args with
  | [] => ([], false)
  | arg :: rest =>
      let '(pushed, named, two) := redirect_step artifact_output artifact_dir arg rest in
      let '(kept, has_output_dir) :=
        match two, rest with
        | true, [] => ([], false)
        | true, _ :: rest => redirect_args artifact_output artifact_dir rest
        | false, rest => redirect_args artifact_output artifact_dir rest
        end in
      (pushed ++ kept, named || has_output_dir)
  end.

Definition redirect_variant_outputs (args : list string) (artifacts : PathBuf) : list string :=
  let '(redirected, has_output_dir) := redirect_args (path_join artifacts "output") artifacts args in
  if has_output_dir then redirected else redirected ++ ["--out-dir"; artifacts].

Example redirect_example :
  redirect_variant_outputs
    ["main.rs"; "--emit=dep-info=/t/d,link"; "-C"; "incremental=/inc"; "--out-dir"; "/target"] "/v/a"
  = ["main.rs"; "--emit=dep-info,link"; "--out-dir"; "/v/a"].
Proof. reflexivity. Qed.

(** ** Files read through an overlay *)

Section loader.
Variable current_dir : option PathBuf.
Variable canonicalize : PathBuf -> option PathBuf.

Definition resolve (overlay : Overlay) (path : PathBuf) : PathBuf :=
  let absolute :=
    if is_absolute path then path
    else match current_dir with
         | Some cwd => path_join cwd path
         | None => path
         end in
  let canonical := default absolute (canonicalize absolute) in
  default path (btree_get canonical overlay).
End loader.

(** ** Diagnostics *)

(** The last place of [pat] in [s]. *)
Fixpoint rfind (pat s : string) : option N :=
  match s with
  | EmptyString => if is_empty pat then Some 0%N else None
  | String _ s' =>
      match rfind pat s' with
      | Some i => Some (N.succ i)
      | None => if starts_with pat s then Some 0%N else None
      end
  end.

Definition narrow_event_to_binding (event : SerializedBorrowckOwnershipEvent) (source : string) :
    N * N :=
  let start := oevent_byte_start event in
  let end_ := oevent_byte_end event in
  let name := sbinding_name (oevent_binding event) in
  if (start <=? end_)%N && (end_ <=? str_len source)%N && is_char_boundary source start
     && is_char_boundary source end_ then
    match rfind name
            (take_bytes (N.to_nat (end_ - start)) (default EmptyString (drop_bytes (N.to_nat start) source)))
    with
    | Some relative => ((start + relative)%N, (start + relative + str_len name)%N)
    | None => (start, end_)
    end
  else (start, end_).

Definition ownership_event_code (kind : EventKind.BorrowckOwnershipEventKind) : string :=
  match kind with
  | EventKind.BorrowActivate => "borrowck_ownership_borrow_activate"
  | EventKind.BorrowEnd => "borrowck_ownership_borrow_end"
  | EventKind.BorrowMutable => "borrowck_ownership_borrow_mutable"
  | EventKind.BorrowShared => "borrowck_ownership_borrow_shared"
  | EventKind.Clone => "borrowck_ownership_clone"
  | EventKind.Copy => "borrowck_ownership_copy"
  | EventKind.Drop => "borrowck_ownership_drop"
  | EventKind.LastUse => "borrowck_ownership_last_use"
  | EventKind.Move => "borrowck_ownership_move"
  | EventKind.PartialMove => "borrowck_ownership_partial_move"
  | EventKind.Reinitialize => "borrowck_ownership_reinitialize"
  end.

Definition wrapper_suggestion_code (strategies : list WrapperStrategy.BorrowckWrapperStrategy) :
    string :=
  match strategies with
  | [WrapperStrategy.Arc] => "borrowck_wrapper_arc"
  | [WrapperStrategy.ArcMutex] => "borrowck_wrapper_arc_mutex"
  | [WrapperStrategy.ArcRwLock] => "borrowck_wrapper_arc_rw_lock"
  | [WrapperStrategy.Mutex] => "borrowck_wrapper_mutex"
  | [WrapperStrategy.Rc] => "borrowck_wrapper_rc"
  | [WrapperStrategy.RefCell] => "borrowck_wrapper_ref_cell"
  | [WrapperStrategy.RcRefCell] => "borrowck_wrapper_rc_ref_cell"
  | [WrapperStrategy.RwLock] => "borrowck_wrapper_rw_lock"
  | _ => "borrowck_wrapper_all"
  end.

Definition wrapper_suggestion_title (strategies : list WrapperStrategy.BorrowckWrapperStrategy) :
    string :=
  match strategies with
  | [WrapperStrategy.Arc] => "Use Arc for thread-safe shared ownership (compiler validated)"
  | [WrapperStrategy.ArcMutex] =>
      "Use Arc<Mutex<_>> for thread-safe shared mutation (compiler validated)"
  | [WrapperStrategy.ArcRwLock] =>
      "Use Arc<RwLock<_>> for read-heavy shared mutation (compiler validated)"
  | [WrapperStrategy.Mutex] =>
      "Use Mutex for synchronized interior mutability (compiler validated)"
  | [WrapperStrategy.Rc] => "Use Rc for shared ownership (compiler validated)"
  | [WrapperStrategy.RefCell] => "Use RefCell for interior mutability (compiler validated)"
  | [WrapperStrategy.RcRefCell] =>
      "Use Rc<RefCell<_>> for shared mutable ownership (compiler validated)"
  | [WrapperStrategy.RwLock] =>
      "Use RwLock for synchronized interior mutability (compiler validated)"
  | _ => "Apply all validated ownership-wrapper changes"
  end.

Fixpoint count_byte (byte : ascii) (s : string) : N :=
  match s with
  | EmptyString => 0%N
  | String c s => ((if Ascii.eqb c byte then 1 else 0) + count_byte byte s)%N
  end.

(** Both slices panic off a character boundary.  The text from [line_start] to the
    offset is the prefix after its last newline. *)
Definition line_and_column (source : string) (offset : N) : result (N * N) :=
  '(prefix, _) ← split_str_at source offset;
  let line := (count_byte (ascii_of_N 10) prefix + 1)%N in
  let column := (len (chars (rsplit_next newline prefix)) + 1)%N in
  Ok (line, column).

Record DiagnosticSpan : Type := mk_dspan {
  dspan_file_name : PathBuf;
  dspan_byte_start : N;
  dspan_byte_end : N;
  dspan_line_start : N;
  dspan_line_end : N;
  dspan_column_start : N;
  dspan_column_end : N;
  dspan_is_primary : bool;
  dspan_label : option string;
  dspan_suggested_replacement : option string;
  dspan_suggestion_applicability : option string
}.

Definition plan_source (plan : SerializedBorrowckRepairPlan) (path : PathBuf) :
    option SerializedBorrowckRepairSource :=
  find_first (fun source => path_eqb (ssource_path source) path) (plan_sources plan).

Definition diagnostic_span (plan : SerializedBorrowckRepairPlan) (path : PathBuf)
    (byte_start byte_end : N) (is_primary : bool) (label suggested_replacement : option string) :
    io DiagnosticSpan :=
  match plan_source plan path with
  | None => Failed "suggestion source was not included in the plan"
  | Some source =>
      match ssource_source source with
      | None => Failed "suggestion source text was not included in the plan"
      | Some source =>
          if (byte_end <? byte_start)%N || (str_len source <? byte_end)%N
             || negb (is_char_boundary source byte_start)
             || negb (is_char_boundary source byte_end) then
            Failed "suggestion span has invalid UTF-8 byte boundaries"
          else
            '(line_start, column_start) ← or_panic (line_and_column source byte_start);
            '(line_end, column_end) ← or_panic (line_and_column source byte_end);
            Done (mk_dspan path byte_start byte_end line_start line_end column_start column_end
                    is_primary label suggested_replacement
                    ((fun _ => "MaybeIncorrect") <$> suggested_replacement))
      end
  end.

Record ValidatedWrapperSuggestion : Type := mk_suggestion {
  suggestion_bindings : list SerializedBorrowckBinding;
  suggestion_triggers : list SerializedBorrowckSpan;
  suggestion_strategies : list WrapperStrategy.BorrowckWrapperStrategy;
  suggestion_edits : list SerializedBorrowckRepairEdit
}.

(** The JSON payloads that travel as the message of a diagnostic. *)
Inductive Message : Type :=
| Text (text : string)
| EventPayload (kind : EventKind.BorrowckOwnershipEventKind) (name source_hash : string)
    (binding_byte_start : N) (detail : option string)
| ModelPayload (version : N) (path : PathBuf) (crate_name : string).

Record Diagnostic : Type := mk_diagnostic {
  diagnostic_message : Message;
  diagnostic_code : string;
  diagnostic_level : string;
  diagnostic_spans : list DiagnosticSpan;
  diagnostic_children : list (string * string * list DiagnosticSpan);
  diagnostic_rendered : option string
}.

(** What is written to standard error. *)
Inductive Emitted : Type :=
| Line (text : string)
| Json (diagnostic : Diagnostic).

(** [iter().map(f).collect::<io::Result<Vec<_>>>()] *)
Fixpoint collect_io {A B} (f : A -> io B) (l : list A) : io (list B) :=
  match l with
  | [] => Done []
  | x :: l => y ← f x; ys ← collect_io f l; Done (y :: ys)
  end.

Definition emit_event (plan : SerializedBorrowckRepairPlan)
    (event : SerializedBorrowckOwnershipEvent) : io Emitted :=
  match plan_source plan (oevent_path event) with
  | None => Failed "ownership event source was not included in plan"
  | Some source =>
      match ssource_source source with
      | None => Failed "ownership event source text was not included"
      | Some source_text =>
          let '(byte_start, byte_end) := narrow_event_to_binding event source_text in
          span ← diagnostic_span plan (oevent_path event) byte_start byte_end true
                   (Some "ownership event") None;
          Done (Json (mk_diagnostic
            (EventPayload (oevent_kind event) (sbinding_name (oevent_binding event))
               (stable_source_hash source_text) (sbinding_byte_start (oevent_binding event))
               (oevent_detail event))
            (ownership_event_code (oevent_kind event)) "note" [span] [] None))
      end
  end.

Definition is_nil {A} (l : list A) : bool :=
  match l with
  | [] => true
  | _ => false
  end.

Definition emit_ownership_events (args : list string) (plan : SerializedBorrowckRepairPlan) :
    io (list Emitted) :=
  if is_nil (plan_ownership_events plan) || is_some (ownership_model_directory args)
     || negb (uses_json_error_format args) then Done []
  else collect_io (emit_event plan) (plan_ownership_events plan).

(** The model file, if one is written, and the note that announces it. *)
Definition emit_ownership_model (args : list string) (plan : SerializedBorrowckRepairPlan) :
    io (option (PathBuf * SerializedBorrowckRepairPlan) * list Emitted) :=
  match ownership_model_directory args, plan_ownership_events plan with
  | None, _ => Done (None, [])
  | Some _, [] => Done (None, [])
  | Some directory, event :: _ =>
      let model_path :=
        path_join directory
          (plan_crate_name plan +:+ "-" +:+ format_016x (plan_stable_crate_id plan) +:+ ".json") in
      if negb (uses_json_error_format args) then Done (Some (model_path, plan), [])
      else
        span ← diagnostic_span plan (oevent_path event) (oevent_byte_start event)
                 (oevent_byte_end event) true (Some "compiler ownership model") None;
        Done (Some (model_path, plan),
              [Json (mk_diagnostic
                 (ModelPayload (plan_schema_version plan) model_path (plan_crate_name plan))
                 "borrowck_ownership_model" "note" [span] [] None)])
  end.

Definition emit_wrapper_suggestion (plan : SerializedBorrowckRepairPlan)
    (suggestion : ValidatedWrapperSuggestion) : io Emitted :=
  let code := wrapper_suggestion_code (suggestion_strategies suggestion) in
  let title := wrapper_suggestion_title (suggestion_strategies suggestion) in
  primary_spans ← collect_io (fun entry : N * SerializedBorrowckBinding =>
      let '(index, binding) := entry in
      diagnostic_span plan (sbinding_path binding) (sbinding_byte_start binding)
        (sbinding_byte_start binding + str_len (sbinding_name binding))%N (index =? 0)%N
        (Some "ownership wrapper candidate") None)
    (enumerate (suggestion_bindings suggestion));
  trigger_spans ← collect_io (fun trigger =>
      diagnostic_span plan (sspan_path trigger) (sspan_byte_start trigger) (sspan_byte_end trigger)
        true (Some "ownership error occurs here") None)
    (suggestion_triggers suggestion);
  edit_spans ← collect_io (fun edit =>
      diagnostic_span plan (sedit_path edit) (sedit_byte_start edit) (sedit_byte_end edit) true None
        (Some (sedit_replacement edit)))
    (suggestion_edits suggestion);
  Done (Json (mk_diagnostic
    (Text "compiler validated an ownership-wrapper rewrite; review its runtime semantics")
    code "help" (primary_spans ++ trigger_spans) [(title, code, edit_spans)]
    (Some ("help: " +:+ title +:+ newline)))).

Definition emit_wrapper_suggestions (args : list string) (plan : SerializedBorrowckRepairPlan)
    (suggestions : list ValidatedWrapperSuggestion) : io (list Emitted) :=
  if is_nil suggestions then Done []
  else if negb (uses_json_error_format args) then
    Done ((fun suggestion =>
             Line ("help: " +:+ wrapper_suggestion_title (suggestion_strategies suggestion)))
          <$> suggestions)
  else collect_io (emit_wrapper_suggestion plan) suggestions.

(** ** The validation cache *)

Record CachedWrapperSuggestions : Type := mk_cached {
  cached_format_version : N;
  cached_compiler_identity : string;
  cached_suggestions : list ValidatedWrapperSuggestion
}.

(** [Path::extension] *)
Definition extension (path : PathBuf) : option string :=
  match file_name path with
  | Some name =>
      match after_last "." name with
      | Some ext => if (str_len ext + 1 =? str_len name)%N then None else Some ext
      | None => None
      end
  | None => None
  end.

(** The entries of the directory that are removed, given their modification times. *)
Definition prune_wrapper_validation_cache (modified : PathBuf -> option N)
    (entries : list PathBuf) (maximum_entries : N) : list PathBuf :=
  let entries := retain (fun path => str_opt_eqb (extension path) (Some "cache")) entries in
  if (len entries <? maximum_entries)%N then []
  else
    let entries := sort_by (on modified (option_leb N.leb)) entries in
    take_N (saturating_sub (len entries) (maximum_entries - 1)) entries.

(** ** The driver *)

Record ChildOutput : Type := mk_child {
  child_success : bool;
  (** What [read_plan] gives on the plan file afterwards. *)
  child_plan : result (option SerializedBorrowckRepairPlan)
}.

Record Driver : Type := mk_driver {
  driver_files : Files;
  driver_runs : N;
  driver_cache : list (PathBuf * CachedWrapperSuggestions)
}.

Definition DriverM (A : Type) : Type := Driver -> io (A * Driver).
Global Instance driver_ret : MRet DriverM := fun A a d => Done (a, d).
Global Instance driver_bind : MBind DriverM := fun A B f m d =>
  match m d with
  | Done (a, d) => f a d
  | Failed message => Failed message
  | Panicked message => Panicked message
  end.

Definition lift_io {A} (m : io A) : DriverM A := fun d =>
  match m with
  | Done a => Done (a, d)
  | Failed message => Failed message
  | Panicked message => Panicked message
  end.

Definition update_driver {A} (f : Driver -> Driver) (a : A) : DriverM A := fun d => Done (a, f d).

(** A computation that threads the files of the driver. *)
Definition with_files {A} (f : Files -> io (A * Files)) : DriverM A := fun d =>
  match f (driver_files d) with
  | Done (a, files) => Done (a, mk_driver files (driver_runs d) (driver_cache d))
  | Failed message => Failed message
  | Panicked message => Panicked message
  end.

(** [match m { Ok(a) => Ok(a), Err(error) => Err(error) }]: an error is a value. *)
Definition try_m {A} (m : DriverM A) : DriverM (result A) := fun d =>
  match m d with
  | Done (a, d) => Done (Ok a, d)
  | Failed message => Done (Err message, d)
  | Panicked message => Panicked message
  end.

Record VariantResult : Type := mk_variant_result {
  result_name : string;
  result_bindings : list SerializedBorrowckBinding;
  result_strategies : list string;
  result_status : string;
  result_repair_rounds : option N;
  result_reason : option string;
  result_directory : PathBuf
}.

Record Manifest : Type := mk_manifest {
  manifest_crate_name : string;
  manifest_stable_crate_id : N;
  manifest_status : string;
  manifest_repair_rounds : N;
  manifest_files : Overlay;
  manifest_log : RepairLog;
  manifest_wrapper_variants : list VariantResult;
  manifest_wrapper_rejections : list SerializedBorrowckWrapperRejection
}.

Section driver.
Variable compile : N -> list string -> Overlay -> Files -> result ChildOutput.
Variable workspace : PathBuf.

Definition run_child (args : list string) (overlay : Overlay) : DriverM ChildOutput := fun d =>
  match compile (driver_runs d) args overlay (driver_files d) with
  | Ok output =>
      Done (output, mk_driver (driver_files d) (driver_runs d + 1) (driver_cache d))
  | Err message => Failed message
  end.

Definition read_plan (output : ChildOutput) : DriverM (option SerializedBorrowckRepairPlan) :=
  lift_io (or_fail (child_plan output)).

Definition apply_plan_m (plan : SerializedBorrowckRepairPlan) (crate_dir : PathBuf) (round : N)
    (overlay : Overlay) (log : RepairLog) : DriverM (N * Overlay * RepairLog) :=
  with_files (fun files =>
    '(count, (overlay, files), log) ← apply_plan workspace plan crate_dir round overlay files log;
    Done ((count, overlay, log), files)).

Definition materialize_m (plan : SerializedBorrowckRepairPlan) (sources_dir : PathBuf)
    (edits : list SerializedBorrowckRepairEdit) : DriverM Overlay :=
  with_files (materialize_variant_sources workspace plan sources_dir edits).

(** *** Wrapper variants *)

(** [fs::remove_dir_all] *)
Definition remove_dir_all (directory : PathBuf) (d : Driver) : Driver :=
  mk_driver
    (retain (fun entry => negb (is_some (strip_components (components directory) (components entry.1))))
       (driver_files d))
    (driver_runs d) (driver_cache d).

(** The rounds of one variant: its status, the last round and why it was rejected. *)
Fixpoint variant_rounds (child_args : list string) (variant_dir : PathBuf) (rounds : list N)
    (overlay : Overlay) : DriverM (string * N * option string) :=
  match rounds with
  | [] => mret ("failed", 0%N, None)
  | round :: rounds =>
      output ← run_child child_args overlay;
      if child_success output then mret ("success", round, None)
      else
        next_plan ← read_plan output;
        match next_plan with
        | None =>
            mret ("failed", round, Some "variant compiler did not produce a repair plan")
        | Some next_plan =>
            if (round =? MAX_REPAIR_ROUNDS)%N || is_nil (plan_repairs next_plan) then
              mret ("failed", round, None)
            else
              '(applied, overlay, _) ←
                apply_plan_m next_plan (path_join variant_dir ("retry-" +:+ show (round + 1)))
                  (round + 1) overlay (mk_log [] []);
              if (applied =? 0)%N then
                mret ("failed", round, Some "variant produced no additional non-overlapping repair")
              else variant_rounds child_args variant_dir rounds overlay
        end
  end.

(** [0..=MAX_REPAIR_ROUNDS] *)
Definition repair_rounds : list N := [0; 1; 2; 3; 4]%N.

Definition compile_wrapper_variant_set (args : list string) (plan : SerializedBorrowckRepairPlan)
    (variants_root : PathBuf) (name : string) (variants : list SerializedBorrowckWrapperVariant) :
    DriverM VariantResult :=
  let variant_dir := path_join variants_root name in
  let bindings := svariant_binding <$> variants in
  let strategies := (fun variant => strategy_name (svariant_strategy variant)) <$> variants in
  _ ← update_driver (remove_dir_all variant_dir) tt;
  overlay ← try_m (materialize_m plan (path_join variant_dir "sources")
                     (variant_set_edits plan variants));
  match overlay with
  | Err error =>
      mret (mk_variant_result name bindings strategies "rejected" None (Some error) variant_dir)
  | Ok overlay =>
      let child_args := redirect_variant_outputs args (path_join variant_dir "artifacts") in
      '(status, round, rejection) ← variant_rounds child_args variant_dir repair_rounds overlay;
      mret (mk_variant_result name bindings strategies status (Some round) rejection variant_dir)
  end.

Definition variant_name (variant : SerializedBorrowckWrapperVariant) : string :=
  safe_component (sbinding_name (svariant_binding variant)) +:+ "-"
  +:+ show (sbinding_byte_start (svariant_binding variant)) +:+ "-"
  +:+ strategy_name (svariant_strategy variant).

(** [for x in l { results.push(f(x)?) }] *)
Fixpoint for_m {A B} (f : A -> DriverM B) (l : list A) : DriverM (list B) :=
  match l with
  | [] => mret []
  | x :: l => y ← f x; ys ← for_m f l; mret (y :: ys)
  end.

Definition compile_wrapper_variants (args : list string)
    (plan : option SerializedBorrowckRepairPlan) (crate_dir : PathBuf) :
    DriverM (list VariantResult) :=
  match plan with
  | None => mret []
  | Some plan =>
      let variants_root := path_join crate_dir "variants" in
      results ← for_m (fun variant =>
          compile_wrapper_variant_set args plan variants_root (variant_name variant) [variant])
        (plan_wrapper_variants plan);
      if (1 <? len (plan_wrapper_variants plan))%N then
        all ← compile_wrapper_variant_set args plan variants_root "all-wrappers"
                (plan_wrapper_variants plan);
        mret (results ++ [all])
      else mret results
  end.

(** *** [run] *)

Record RunState : Type := mk_run {
  run_overlay : Overlay;
  run_crate_dir : option PathBuf;
  run_identity : option (string * N);
  run_log : RepairLog;
  run_seed_plan : option SerializedBorrowckRepairPlan
}.

Definition initial_run : RunState := mk_run [] None None (mk_log [] []) None.

Definition plan_identity (plan : SerializedBorrowckRepairPlan) : string * N :=
  (plan_crate_name plan, plan_stable_crate_id plan).

Definition identity_eqb (a b : string * N) : bool := (a.1 =s b.1) && (a.2 =? b.2)%N.

(** The block that looks at a fresh plan. *)
Definition note_plan (output_root : PathBuf) (plan : SerializedBorrowckRepairPlan) (st : RunState) :
    io RunState :=
  if match run_identity st with
     | Some expected => negb (identity_eqb expected (plan_identity plan))
     | None => false
     end
  then Failed "borrowck autofix child changed crate identity"
  else
    Done (mk_run (run_overlay st)
            (match run_crate_dir st with
             | Some dir => Some dir
             | None => Some (crate_output_dir output_root plan)
             end)
            (Some (plan_identity plan)) (run_log st)
            (match run_seed_plan st with
             | Some seed => Some seed
             | None =>
                 if negb (is_nil (plan_wrapper_variants plan))
                    || negb (is_nil (plan_wrapper_rejections plan))
                 then Some plan else None
             end)).

Definition finish_run (args : list string) (crate_dir : PathBuf)
    (plan : SerializedBorrowckRepairPlan) (status : string) (round : N) (st : RunState) :
    DriverM Manifest :=
  wrapper_results ← compile_wrapper_variants args (run_seed_plan st) crate_dir;
  mret (mk_manifest (plan_crate_name plan) (plan_stable_crate_id plan) status round
          (run_overlay st) (run_log st) wrapper_results
          (match run_seed_plan st with
           | Some plan => plan_wrapper_rejections plan
           | None => []
           end)).

Definition run_round (args : list string) (output_root : PathBuf) (round : N) (st : RunState) :
    DriverM (AutofixOutcome * option Manifest + RunState) :=
  output ← run_child args (run_overlay st);
  plan ← read_plan output;
  st ← match plan with
       | Some plan => lift_io (note_plan output_root plan st)
       | None => mret st
       end;
  if child_success output then
    match plan, run_crate_dir st with
    | Some plan, Some crate_dir =>
        manifest ← finish_run args crate_dir plan "success" round st;
        mret (inl (Success, Some manifest))
    | _, _ => mret (inl (Success, None))
    end
  else
    match plan, run_crate_dir st with
    | Some plan, Some crate_dir =>
        if (round =? MAX_REPAIR_ROUNDS)%N || is_nil (plan_repairs plan) then
          manifest ← finish_run args crate_dir plan "failed" round st;
          mret (inl (CompilationFailed, Some manifest))
        else
          '(applied, overlay, log) ←
            apply_plan_m plan crate_dir (round + 1) (run_overlay st) (run_log st);
          let st := mk_run overlay (run_crate_dir st) (run_identity st) log (run_seed_plan st) in
          if (applied =? 0)%N then
            manifest ← finish_run args crate_dir plan "failed" round st;
            mret (inl (CompilationFailed, Some manifest))
          else mret (inr st)
    | _, _ => mret (inl (CompilationFailed, None))
    end.

Fixpoint run_rounds (args : list string) (output_root : PathBuf) (rounds : list N) (st : RunState) :
    DriverM (AutofixOutcome * option Manifest) :=
  match rounds with
  | [] => lift_io (Panicked "internal error: entered unreachable code")
  | round :: rounds =>
      step ← run_round args output_root round st;
      match step with
      | inl outcome => mret outcome
      | inr st => run_rounds args output_root rounds st
      end
  end.

Definition run (args : list string) (output_root : PathBuf) :
    DriverM (AutofixOutcome * option Manifest) :=
  run_rounds args output_root repair_rounds initial_run.

(** *** Validated suggestions *)

Definition validate_wrapper_suggestion_set (args : list string)
    (plan : SerializedBorrowckRepairPlan) (work_dir : PathBuf) (name : string)
    (variants : list SerializedBorrowckWrapperVariant) :
    DriverM (option ValidatedWrapperSuggestion) :=
  let candidate_dir := path_join work_dir name in
  match normalize_variant_edits plan (variant_set_edits plan variants) with
  | Err _ => mret None
  | Ok edits =>
      if is_nil edits then mret None
      else
        overlay ← try_m (materialize_m plan (path_join candidate_dir "sources") edits);
        match overlay with
        | Err _ => mret None
        | Ok overlay =>
            output ← run_child (redirect_variant_outputs args (path_join candidate_dir "artifacts"))
                       overlay;
            if child_success output then
              mret (Some (mk_suggestion (svariant_binding <$> variants)
                            (svariant_trigger <$> variants) (svariant_strategy <$> variants) edits))
            else mret None
        end
  end.

Definition option_list {A} (o : option A) : list A :=
  match o with
  | Some a => [a]
  | None => []
  end.

Definition validate_wrapper_suggestions (args : list string) (plan : SerializedBorrowckRepairPlan)
    (work_dir : PathBuf) : DriverM (list ValidatedWrapperSuggestion) :=
  let variants := take_N MAX_EDITOR_WRAPPER_VARIANTS (plan_wrapper_variants plan) in
  suggestions ← for_m (fun entry : N * SerializedBorrowckWrapperVariant =>
      let '(index, variant) := entry in
      validate_wrapper_suggestion_set args plan work_dir ("variant-" +:+ show index) [variant])
    (enumerate variants);
  let suggestions := suggestions ≫= option_list in
  if (1 <? len variants)%N then
    all ← validate_wrapper_suggestion_set args plan work_dir "all-wrappers" variants;
    mret (suggestions ++ option_list all)
  else mret suggestions.

(** The compiler's identity, the bytes of the cache key ([serde_json]) and the
    modification times of cache files. *)
Variable compiler_cache_identity : string.
Variable cache_key : list string -> SerializedBorrowckRepairPlan -> string.
Variable modified : PathBuf -> option N.

Definition wrapper_validation_cache_path (args : list string) (plan : SerializedBorrowckRepairPlan) :
    option PathBuf :=
  (fun model_directory =>
     path_join (path_join model_directory ".validation-cache")
       (stable_bytes_hash (cache_key args plan) +:+ ".cache"))
  <$> ownership_model_directory args.

Definition usable (cached : CachedWrapperSuggestions) : bool :=
  (cached_format_version cached =? 2)%N
  && (cached_compiler_identity cached =s compiler_cache_identity).

(** The cache directory after pruning and storing an entry. *)
Definition store_cached (path : PathBuf) (cached : CachedWrapperSuggestions) (d : Driver) : Driver :=
  let removed := prune_wrapper_validation_cache modified (driver_cache d).*1 128 in
  let kept := retain (fun entry => negb (existsb (path_eqb entry.1) removed)) (driver_cache d) in
  mk_driver (driver_files d) (driver_runs d) (btree_insert path cached kept).

Definition validate_and_store (args : list string) (plan : SerializedBorrowckRepairPlan)
    (work_dir : PathBuf) (cache_path : option PathBuf) :
    DriverM (list ValidatedWrapperSuggestion) :=
  suggestions ← validate_wrapper_suggestions args plan work_dir;
  match cache_path with
  | Some path =>
      update_driver (store_cached path (mk_cached 2 compiler_cache_identity suggestions)) suggestions
  | None => mret suggestions
  end.

Definition cached_or_validate_wrapper_suggestions (args : list string)
    (plan : SerializedBorrowckRepairPlan) (work_dir : PathBuf) :
    DriverM (list ValidatedWrapperSuggestion) := fun d =>
  let cache_path := wrapper_validation_cache_path args plan in
  match cache_path ≫= fun path => btree_get path (driver_cache d) with
  | Some cached =>
      if usable cached then Done (cached_suggestions cached, d)
      else validate_and_store args plan work_dir cache_path d
  | None => validate_and_store args plan work_dir cache_path d
  end.

(** The outcome, the model file and what is printed after the child's own output. *)
Definition run_suggestions (args : list string) (work_dir : PathBuf) :
    DriverM (AutofixOutcome * option (PathBuf * SerializedBorrowckRepairPlan) * list Emitted) :=
  output ← run_child args [];
  plan ← read_plan output;
  let outcome := if child_success output then Success else CompilationFailed in
  match plan with
  | None => mret (outcome, None, [])
  | Some plan =>
      suggestions ←
        (if wrapper_suggestions_requested args
         then cached_or_validate_wrapper_suggestions args plan work_dir else mret []);
      suggested ← lift_io (emit_wrapper_suggestions args plan suggestions);
      '(model, announced) ← lift_io (emit_ownership_model args plan);
      events ← lift_io (emit_ownership_events args plan);
      mret (outcome, model, suggested ++ announced ++ events)
  end.
End driver.
