(* ===== verification/AutofixDriverSpec.v ===== *)
(** * The autofix driver: what its outcome means

    The repair loop ends within its five rounds and reports the last compilation;
    a wrapper suggestion is only reported when a child compiler accepted the
    sources its edits lead to; the children that try variants write to the
    artifacts directory only; and a cached validation is not run again. *)

From Stdlib Require Import Ascii String.
From S2P Require Import Prelude RustStr RustColl RustPath CompilerData MemoryGraph RepairPlan Autofix AutofixSpec AutofixDriver.
From stdpp Require Import options.

#[local] Arguments String.append !_ _ / : assert.

(** ** The driver monad *)

Lemma driver_bind_done {A B} (m : DriverM A) (f : A -> DriverM B) d b d' :
  (m ≫= f) d = Done (b, d') <-> exists a d1, m d = Done (a, d1) /\ f a d1 = Done (b, d').
Proof.
  unfold mbind, driver_bind. destruct (m d) as [[a d1]| |]; [|naive_solver..].
  split; [by exists a, d1|]. intros (a' & d1' & [= <- <-] & ?). done.
Qed.

Lemma driver_ret_done {A} (a : A) d b d' : mret (M:=DriverM) a d = Done (b, d') <-> b = a /\ d' = d.
Proof. unfold mret, driver_ret. naive_solver. Qed.

Lemma lift_io_done {A} (m : io A) d a d' : lift_io m d = Done (a, d') <-> m = Done a /\ d' = d.
Proof. unfold lift_io. destruct m; naive_solver. Qed.

Lemma with_files_done {A} (f : Files -> io (A * Files)) d a d' :
  with_files f d = Done (a, d') ->
  exists files, f (driver_files d) = Done (a, files) /\
    d' = mk_driver files (driver_runs d) (driver_cache d).
Proof. unfold with_files. destruct (f _) as [[]| |]; naive_solver. Qed.

Lemma try_m_done {A} (m : DriverM A) d r d' :
  try_m m d = Done (r, d') ->
  (exists a, r = Ok a /\ m d = Done (a, d')) \/ (exists e, r = Err e /\ m d = Failed e /\ d' = d).
Proof. unfold try_m. destruct (m d) as [[]| |]; naive_solver. Qed.

(** Taking a computation of the driver that ended apart. *)
Ltac driver_step :=
  match goal with
  | H : (_ ≫= _) ?d = Done (_, _) |- _ =>
      let a := fresh "a" in let d1 := fresh "d1" in
      let H1 := fresh H in let H2 := fresh H in
      apply driver_bind_done in H as (a & d1 & H1 & H2)
  | H : mret _ _ = Done (_, _) |- _ =>
      let E := fresh "E" in apply driver_ret_done in H as [E ->]; try injection E as ->
  | H : read_plan _ _ = Done (_, _) |- _ => unfold read_plan in H
  | H : lift_io _ _ = Done (_, _) |- _ => let E := fresh H in apply lift_io_done in H as [E ->]
  | H : (if ?b then _ else _) _ = Done (_, _) |- _ => destruct b eqn:?
  | H : match ?o with Some _ => _ | None => _ end _ = Done (_, _) |- _ => destruct o eqn:?
  | H : (let '(_, _) := ?a in _) _ = Done (_, _) |- _ => destruct a
  end.

Section driver.
Variable compile : N -> list string -> Overlay -> Files -> result ChildOutput.
Variable workspace : PathBuf.

(** A child ran with these arguments and overlay, over the files that led to it. *)
Definition child_ran (args : list string) (overlay : Overlay) (d : Driver) (success : bool) : Prop :=
  exists output, compile (driver_runs d) args overlay (driver_files d) = Ok output /\
    child_success output = success.

Lemma run_child_done args overlay d output d' :
  run_child compile args overlay d = Done (output, d') ->
  compile (driver_runs d) args overlay (driver_files d) = Ok output /\
  d' = mk_driver (driver_files d) (driver_runs d + 1) (driver_cache d).
Proof. unfold run_child. destruct (compile _ _ _ _); naive_solver. Qed.

Lemma apply_plan_m_runs plan dir round overlay log d r d' :
  apply_plan_m workspace plan dir round overlay log d = Done (r, d') -> driver_runs d' = driver_runs d.
Proof. unfold apply_plan_m. by intros (files & _ & ->)%with_files_done. Qed.

(** ** Variants run a bounded number of children *)

Lemma variant_rounds_runs args dir rounds overlay d r d' :
  variant_rounds compile workspace args dir rounds overlay d = Done (r, d') ->
  (driver_runs d' <= driver_runs d + len rounds)%N.
Proof.
  revert overlay d. induction rounds as [|round rounds IH]; intros overlay d H; cbn [variant_rounds] in H.
  { driver_step. lia. }
  unfold len in *. cbn [length].
  apply driver_bind_done in H as (output & d1 & [Hc ->]%run_child_done & H).
  repeat driver_step; simpl in *; try lia.
  all: match goal with
       | H : apply_plan_m _ _ _ _ _ _ _ = Done _ |- _ => apply apply_plan_m_runs in H; simpl in H
       end; try lia.
  apply IH in H3. lia.
Qed.

Lemma variant_set_runs args plan root name variants d r d' :
  compile_wrapper_variant_set compile workspace args plan root name variants d = Done (r, d') ->
  (driver_runs d' <= driver_runs d + 5)%N.
Proof.
  unfold compile_wrapper_variant_set. intros H.
  apply driver_bind_done in H as (u & d1 & [= <- <-] & H).
  apply driver_bind_done in H as (overlay & d2 & Hm & H).
  assert (driver_runs d2 = driver_runs d) as Hruns.
  { apply try_m_done in Hm as [(o & _ & (f & _ & ->)%with_files_done)|(e & _ & _ & ->)]; done. }
  destruct overlay as [overlay|].
  - apply driver_bind_done in H as (a & d3 & Hv & H). apply variant_rounds_runs in Hv.
    unfold len in Hv. simpl in Hv. repeat driver_step. lia.
  - driver_step. lia.
Qed.

Lemma for_m_runs {A B} (f : A -> DriverM B) bound l d r d' :
  (forall x d r d', f x d = Done (r, d') -> (driver_runs d' <= driver_runs d + bound)%N) ->
  for_m f l d = Done (r, d') ->
  length r = length l /\ (driver_runs d' <= driver_runs d + bound * len l)%N.
Proof.
  intros Hf. revert d r d'. induction l as [|x l IH]; intros d r d' H; cbn [for_m] in H.
  - driver_step. subst. unfold len. simpl. lia.
  - apply driver_bind_done in H as (y & d1 & Hy%Hf & H).
    apply driver_bind_done in H as (ys & d2 & [Hlen Hys]%IH & H). driver_step. subst.
    unfold len in *. simpl. lia.
Qed.

Lemma compile_variants_runs args plan dir d r d' :
  compile_wrapper_variants compile workspace args plan dir d = Done (r, d') ->
  (driver_runs d' <= driver_runs d + 5 * len r)%N.
Proof.
  unfold compile_wrapper_variants. intros H. destruct plan as [plan|]; [|driver_step; subst; lia].
  apply driver_bind_done in H as (rs & d1 & Hrs & H).
  apply (for_m_runs _ 5) in Hrs as [Hlen Hruns]; [|intros; by eapply variant_set_runs].
  driver_step.
  - apply driver_bind_done in H as (all & d2 & Hall%variant_set_runs & H). driver_step. subst.
    unfold len in *. rewrite length_app. simpl. lia.
  - driver_step. subst. unfold len in *. lia.
Qed.

Lemma finish_run_done args dir plan status round st d m d' :
  finish_run compile workspace args dir plan status round st d = Done (m, d') ->
  manifest_files m = run_overlay st /\ manifest_status m = status /\
  manifest_repair_rounds m = round /\
  (driver_runs d' <= driver_runs d + 5 * len (manifest_wrapper_variants m))%N.
Proof.
  unfold finish_run. intros H. apply driver_bind_done in H as (r & d1 & Hr%compile_variants_runs & H).
  driver_step. by subst.
Qed.

(** ** One round *)

Lemma select_applied sources repairs :
  accepted (select_groups sources repairs) <> [] -> applied_groups (select_groups sources repairs) <> [].
Proof using .
  unfold select_groups. induction repairs as [|r repairs IH] using rev_ind; [done|].
  rewrite foldl_app. simpl. unfold select_group.
  destruct (scan_edits _ _ _ _ _) as [[|e es]|]; simpl; try done. by destruct (applied_groups _).
Qed.

Lemma apply_nothing plan dir round overlay log d overlay' log' d' :
  apply_plan_m workspace plan dir round overlay log d = Done ((0%N, overlay', log'), d') ->
  overlay' = overlay.
Proof.
  unfold apply_plan_m. intros (files & H & _)%with_files_done. unfold apply_plan in H.
  destruct (plan_source_texts plan) as [sources|]; simpl in H; [|done].
  pose proof (select_applied sources (plan_repairs plan)) as Happlied.
  destruct (accepted _) as [|e es]; simpl in H; [by injection H|].
  destruct (fold_io _ _ _) as [[o f]| |]; simpl in H; try done. injection H as Hcount _ _ _. exfalso.
  destruct (applied_groups _) as [|g gs]; [by apply Happlied|].
  unfold retain, len in Hcount. rewrite List.filter_app, length_app in Hcount. simpl in Hcount.
  rewrite N.eqb_refl in Hcount. simpl in Hcount. lia.
Qed.

Definition outcome_success (outcome : AutofixOutcome) : bool :=
  match outcome with
  | Success => true
  | CompilationFailed => false
  end.

(** What a manifest says of the compilation it closes. *)
Definition describes (m : option Manifest) (success : bool) (overlay : Overlay) (d d' : Driver) : Prop :=
  match m with
  | None => driver_runs d' = (driver_runs d + 1)%N
  | Some m =>
      manifest_files m = overlay /\ manifest_status m = (if success then "success" else "failed") /\
      (driver_runs d' <= driver_runs d + 1 + 5 * len (manifest_wrapper_variants m))%N
  end.

Lemma note_plan_overlay root plan st st' :
  note_plan root plan st = Done st' -> run_overlay st' = run_overlay st.
Proof using .
  unfold note_plan. destruct (match run_identity st with Some _ => _ | None => _ end); [done|].
  by intros [= <-].
Qed.

Lemma run_round_done args root round st d r d' :
  run_round compile workspace args root round st d = Done (r, d') ->
  match r with
  | inl (outcome, m) =>
      child_ran args (run_overlay st) d (outcome_success outcome) /\
      describes m (outcome_success outcome) (run_overlay st) d d'
  | inr st' =>
      (round =? MAX_REPAIR_ROUNDS)%N = false /\ child_ran args (run_overlay st) d false /\
      driver_runs d' = (driver_runs d + 1)%N
  end.
Proof.
  unfold run_round. intros H.
  apply driver_bind_done in H as (output & d1 & [Hc ->]%run_child_done & H).
  apply driver_bind_done in H as (plan & d2 & [Hp ->]%lift_io_done & H).
  apply driver_bind_done in H as (st' & d3 & Hst & H).
  assert (run_overlay st' = run_overlay st /\
          d3 = mk_driver (driver_files d) (driver_runs d + 1) (driver_cache d)) as [Hov ->].
  { destruct plan; [|by apply driver_ret_done in Hst as [-> ->]].
    by apply lift_io_done in Hst as [?%note_plan_overlay ->]. }
  rewrite <- Hov. clear Hst.
  assert (child_ran args (run_overlay st') d (child_success output)) as Hran
    by (exists output; by rewrite Hov).
  repeat first [driver_step | match goal with
    | H : finish_run _ _ _ _ _ _ _ _ _ = Done _ |- _ =>
        apply finish_run_done in H as (? & ? & ? & ?)
    | H : match ?o with Some _ => _ | None => _ end = Done (_, _) |- _ => destruct o eqn:?
    end].
  all: repeat match goal with
    | E : child_success ?out = _, Hran : child_ran _ _ _ (child_success ?out) |- _ =>
        rewrite E in Hran
    | E : (?n =? 0)%N = true, Ha : apply_plan_m _ _ _ _ _ _ _ = Done ((?n, _, _), _) |- _ =>
        apply N.eqb_eq in E; subst n; pose proof (apply_nothing _ _ _ _ _ _ _ _ _ Ha)
    | Ha : apply_plan_m _ _ _ _ _ _ _ = Done (_, _) |- _ => apply apply_plan_m_runs in Ha
    | E : _ || _ = false |- _ => apply orb_false_iff in E as [E _]
    end.
  all: subst; unfold describes; simpl in *; split_and?; try done; try lia; try congruence.
Qed.

(** ** The loop *)

Lemma run_rounds_done args root rounds st d outcome m d' :
  run_rounds compile workspace args root rounds st d = Done ((outcome, m), d') ->
  exists overlay d1,
    child_ran args overlay d1 (outcome_success outcome) /\
    describes m (outcome_success outcome) overlay d1 d' /\
    (driver_runs d <= driver_runs d1 < driver_runs d + len rounds)%N.
Proof.
  revert st d. induction rounds as [|round rounds IH]; intros st d H; cbn [run_rounds] in H.
  { by repeat driver_step. }
  apply driver_bind_done in H as (r & d1 & Hr%run_round_done & H).
  destruct r as [[outcome' m']|st'].
  - apply driver_ret_done in H as [[= -> ->] ->]. destruct Hr as [Hran Hm].
    exists (run_overlay st), d. unfold len; simpl length. split_and!; try done; lia.
  - destruct Hr as (_ & _ & Hruns). apply IH in H as (overlay & d2 & Hran & Hm & Hle).
    exists overlay, d2. unfold len in *; simpl length. split_and!; try done; lia.
Qed.

(** C8: The outcome of the repair loop is the outcome of the last compilation of the
    user's crate, which is one of at most five; the manifest describes that
    compilation, with the overlay it was run on, and besides these only the
    reported wrapper variants were compiled, each at most five times. *)
Theorem run_reports_last_compilation args root d outcome manifest d'
    (Hrun : run compile workspace args root d = Done ((outcome, manifest), d')) :
  exists overlay d1,
    child_ran args overlay d1 (outcome_success outcome) /\
    describes manifest (outcome_success outcome) overlay d1 d' /\
    (driver_runs d <= driver_runs d1 < driver_runs d + 5)%N.
Proof. exact (run_rounds_done _ _ repair_rounds _ _ _ _ _ Hrun). Qed.

(** ** Panics *)

(** A panic of the computation has the property. *)
Definition panics_only {A} (P : string -> Prop) (m : DriverM A) : Prop :=
  forall d message, m d = Panicked message -> P message.
End driver.

Section panics.
Context (P : string -> Prop).

Lemma panics_bind {A B} (m : DriverM A) (f : A -> DriverM B) :
  panics_only P m -> (forall a, panics_only P (f a)) -> panics_only P (m ≫= f).
Proof.
  unfold panics_only, mbind, driver_bind. intros Hm Hf d message.
  destruct (m d) as [[a d1]| |msg] eqn:H; [apply Hf|done|]. intros [= <-]. eauto.
Qed.

Lemma panics_ret {A} (a : A) : panics_only P (mret (M:=DriverM) a).
Proof. done. Qed.

Lemma panics_update {A} f (a : A) : panics_only P (update_driver f a).
Proof. done. Qed.

Lemma panics_lift {A} (m : io A) : (forall message, m = Panicked message -> P message) ->
  panics_only P (lift_io m).
Proof. unfold panics_only, lift_io. intros Hm d message. destruct m; naive_solver. Qed.

Lemma panics_try {A} (m : DriverM A) : panics_only P m -> panics_only P (try_m m).
Proof. unfold panics_only, try_m. intros Hm d message H. destruct (m d) as [[]| |] eqn:E; naive_solver. Qed.

Lemma panics_files {A} (f : Files -> io (A * Files)) :
  (forall files message, f files = Panicked message -> P message) -> panics_only P (with_files f).
Proof.
  unfold panics_only, with_files. intros Hf d message H.
  destruct (f (driver_files d)) as [[]| |] eqn:E; naive_solver.
Qed.

Lemma panics_for {A B} (f : A -> DriverM B) l :
  (forall x, panics_only P (f x)) -> panics_only P (for_m f l).
Proof.
  intros Hf. induction l as [|x l IH]; cbn [for_m]; [apply panics_ret|].
  apply panics_bind; [done|]. intros y. apply panics_bind; [done|]. intros ys. apply panics_ret.
Qed.
End panics.

Definition unreachable_message : string := "internal error: entered unreachable code".
Definition reachable_panic (message : string) : Prop := message <> unreachable_message.

Create HintDb panics discriminated.
#[local] Hint Resolve panics_ret panics_update panics_try panics_for : panics.

Lemma split_str_at_err s n message : split_str_at s n = Err message -> reachable_panic message.
Proof.
  unfold split_str_at. repeat case_match; try done; by intros [= <-].
Qed.

Lemma replace_range_err text edit message :
  replace_range text edit = Err message -> reachable_panic message.
Proof.
  unfold replace_range. case_match; [by intros [= <-]|].
  destruct (split_str_at text (sedit_byte_start edit)) as [[]|] eqn:H1; simpl;
    [|intros [= <-]; by eapply split_str_at_err].
  destruct (split_str_at text (sedit_byte_end edit)) as [[]|] eqn:H2; simpl;
    [done|intros [= <-]; by eapply split_str_at_err].
Qed.

Lemma patch_source_err source edits message :
  patch_source source edits = Err message -> reachable_panic message.
Proof.
  unfold patch_source. generalize (rev (order_patch edits)). intros l. revert source.
  induction l as [|e l IH]; intros source; simpl; [done|].
  destruct (replace_range source e) eqn:H; simpl; [apply IH|].
  intros [= <-]. by eapply replace_range_err.
Qed.

Lemma write_panics workspace sources directory missing state entries message :
  (forall s m, missing s = Panicked m -> reachable_panic m) ->
  fold_io (write_patched workspace sources directory missing) state entries = Panicked message ->
  reachable_panic message.
Proof.
  intros Hmissing. revert state. induction entries as [|[original edits] entries IH]; intros state;
    cbn [fold_io]; [done|]. cbn [write_patched].
  destruct (btree_get original sources) as [source|]; simpl.
  - destruct (patch_source source edits) eqn:H; simpl; [apply IH|].
    intros [= <-]. by eapply patch_source_err.
  - destruct (missing state) eqn:H; simpl; [apply IH|done|]. intros [= <-]. eauto.
Qed.

Lemma apply_plan_panics workspace plan dir round overlay log :
  panics_only reachable_panic (apply_plan_m workspace plan dir round overlay log).
Proof.
  apply panics_files. intros files message. unfold apply_plan.
  destruct (plan_source_texts plan); simpl; [|done]. destruct (accepted _); simpl; [done|].
  destruct (fold_io _ _ _) as [[]| |] eqn:H; simpl; [done..|]. intros [= <-].
  eapply write_panics; [|exact H]. done.
Qed.

Lemma materialize_panics workspace plan dir edits :
  panics_only reachable_panic (materialize_m workspace plan dir edits).
Proof.
  apply panics_files. intros files message. unfold materialize_variant_sources.
  destruct (normalize_variant_edits plan edits); simpl; [|done].
  destruct (plan_source_texts plan); simpl; [|done].
  apply write_panics. by intros s m [= <-].
Qed.

Lemma read_plan_panics output : panics_only reachable_panic (read_plan output).
Proof. apply panics_lift. intros message. by destruct (child_plan output). Qed.

Section unreachable.
Variable compile : N -> list string -> Overlay -> Files -> result ChildOutput.
Variable workspace : PathBuf.

Lemma run_child_panics args overlay : panics_only reachable_panic (run_child compile args overlay).
Proof. unfold panics_only, run_child. intros d message. by destruct (compile _ _ _ _). Qed.

#[local] Hint Resolve apply_plan_panics materialize_panics read_plan_panics run_child_panics : panics.

(** Follows the structure of a computation. *)
Ltac panics :=
  repeat first
    [ progress intros
    | solve [auto with panics]
    | apply panics_bind
    | case_match ].

Lemma variant_rounds_panics args dir rounds overlay :
  panics_only reachable_panic (variant_rounds compile workspace args dir rounds overlay).
Proof.
  revert overlay. induction rounds as [|round rounds IH]; intros overlay; cbn [variant_rounds]; panics.
Qed.

#[local] Hint Resolve variant_rounds_panics : panics.

Lemma variant_set_panics args plan root name variants :
  panics_only reachable_panic (compile_wrapper_variant_set compile workspace args plan root name variants).
Proof. unfold compile_wrapper_variant_set. panics. Qed.

#[local] Hint Resolve variant_set_panics : panics.

Lemma finish_run_panics args dir plan status round st :
  panics_only reachable_panic (finish_run compile workspace args dir plan status round st).
Proof.
  unfold finish_run, compile_wrapper_variants. panics.
Qed.

#[local] Hint Resolve finish_run_panics : panics.

Lemma note_plan_panics root plan st : panics_only reachable_panic (lift_io (note_plan root plan st)).
Proof using . apply panics_lift. unfold note_plan. intros m. by repeat case_match. Qed.

#[local] Hint Resolve note_plan_panics : panics.

Lemma run_round_panics args root round st :
  panics_only reachable_panic (run_round compile workspace args root round st).
Proof.
  unfold run_round. panics.
Qed.

Lemma run_rounds_panics args root rounds st :
  panics_only reachable_panic
    (run_rounds compile workspace args root (rounds ++ [MAX_REPAIR_ROUNDS]) st).
Proof.
  revert st. induction rounds as [|round rounds IH]; intros st; cbn [run_rounds app].
  - intros d message. unfold mbind, driver_bind.
    destruct (run_round _ _ _ _ _ _ _) as [[r d1]| |m] eqn:H; [|done|].
    + apply run_round_done in H. destruct r; [done|]. by destruct H as [? _].
    + intros [= <-]. by eapply run_round_panics.
  - apply panics_bind; [apply run_round_panics|]. intros [|]; [apply panics_ret|apply IH].
Qed.

(** The [unreachable!()] after the repair loop is never reached: the fifth round
    always returns. *)
Theorem run_never_reaches_unreachable args root d :
  run compile workspace args root d <> Panicked "internal error: entered unreachable code".
Proof. intros H. by apply (run_rounds_panics args root [0; 1; 2; 3]%N) in H. Qed.
End unreachable.

(** ** Suggestions *)

(** Every edit a plan proposes. *)
Definition all_edits (plan : SerializedBorrowckRepairPlan) : list SerializedBorrowckRepairEdit :=
  (plan_wrapper_variants plan ≫= svariant_edits) ++ plan_edits plan.

(** Sources that are edited are written to files of their own. *)
Definition targets_distinct (workspace : PathBuf) (edits : list SerializedBorrowckRepairEdit) : Prop :=
  forall directory a b, a ∈ edits -> b ∈ edits ->
    path_eqb (sedit_path a) (sedit_path b) = false ->
    path_eqb (patched_source_path workspace directory (sedit_path a))
      (patched_source_path workspace directory (sedit_path b)) = false.

Lemma push_by_path_key k es edit groups :
  (k, es) ∈ push_by_path edit groups -> k = sedit_path edit \/ k ∈ groups.*1.
Proof.
  induction groups as [|[k' es'] groups IH]; simpl.
  - rewrite list_elem_of_singleton. intros [= -> _]. auto.
  - assert ((k, es) ∈ groups -> k ∈ groups.*1) by (intros H; by apply (list_elem_of_fmap_2 fst) in H).
    destruct (path_cmp _ k'); rewrite !elem_of_cons.
    + intros [[= -> _]|?]; auto.
    + intros [[= -> _]|[[= -> _]|?]]; auto.
    + intros [[= -> _]|[?|?]%IH]; auto.
Qed.

Lemma edits_by_path_key k es edits :
  (k, es) ∈ edits_by_path edits -> exists edit, edit ∈ edits /\ k = sedit_path edit.
Proof.
  unfold edits_by_path. revert es. induction edits as [|e edits IH] using rev_ind; intros es.
  { by intros ?%elem_of_nil. }
  rewrite foldl_app. simpl. intros [->|Hk]%push_by_path_key; [exists e; set_solver|].
  apply list_elem_of_fmap in Hk as ([k' es'] & -> & Hk).
  destruct (IH es') as (e' & He' & ->); [done|]. exists e'. set_solver.
Qed.

Lemma StronglySorted_impl_elem {A} (R S : A -> A -> Prop) l :
  (forall x y, x ∈ l -> y ∈ l -> R x y -> S x y) -> StronglySorted R l -> StronglySorted S l.
Proof.
  intros H. induction 1 as [|x l Hs IH Hx]; constructor.
  - apply IH. intros. apply H; set_solver.
  - rewrite Forall_forall in *. intros y Hy. apply H; [set_solver..|auto].
Qed.

Lemma targets_apart workspace directory all edits :
  targets_distinct workspace all -> edits ⊆ all ->
  StronglySorted (apart workspace directory) (edits_by_path edits).
Proof.
  intros Ht Hsub. destruct (edits_by_path_spec edits) as [Hs _].
  eapply StronglySorted_impl_elem; [|exact Hs]. intros [ka ea] [kb eb] Ha Hb Hlt.
  apply edits_by_path_key in Ha as (a & Ha & ->), Hb as (b & Hb & ->).
  unfold apart. apply Ht; [by apply Hsub..|]. by apply path_cmp_lt_neqb.
Qed.

Lemma normalize_edits_id sources accepted seen edits :
  seen ≡ₚ accepted -> StronglySorted compatible (accepted ++ edits) -> Forall (fits sources) edits ->
  normalize_edits sources accepted seen edits = Ok (accepted ++ edits).
Proof.
  revert accepted seen. induction edits as [|e edits IH]; intros accepted seen Hseen Hc Hf; simpl.
  { by rewrite app_nil_r. }
  apply Forall_cons in Hf as [(source & -> & ->) Hf]. simpl.
  assert (Forall (fun old => compatible old e) accepted) as Hold.
  { clear -Hc. induction accepted as [|a accepted IH]; [constructor|].
    apply StronglySorted_inv in Hc as [Hc Ha]. constructor; [|auto].
    rewrite Forall_app, Forall_cons in Ha. tauto. }
  rewrite (proj2 (existsb_false (same_edit e) seen)), (proj2 (existsb_false _ accepted)).
  - rewrite IH; [by rewrite <- app_assoc|rewrite Hseen; apply Permutation_cons_append| |done].
    by rewrite <- app_assoc.
  - eapply Forall_impl; [exact Hold|]. by intros ? [? _].
  - rewrite Hseen. eapply Forall_impl; [exact Hold|]. intros ? [_ ?]. by rewrite same_edit_sym.
Qed.

Lemma normalized plan sources edits accepted :
  plan_source_texts plan = Ok sources -> normalize_variant_edits plan edits = Ok accepted ->
  accepted ⊆ edits /\ StronglySorted compatible accepted /\ Forall (fits sources) accepted /\
  normalize_variant_edits plan accepted = Ok accepted.
Proof.
  unfold normalize_variant_edits. intros ->. simpl. intros Hok.
  pose proof (normalize_edits_ok sources [] [] edits) as H. rewrite Hok in H.
  destruct H as (added & -> & Hin & Hf & Hc & _); [done|constructor|]. simpl in *.
  assert (Forall (fits sources) added) by (rewrite Forall_forall in *; auto).
  split_and!; try done. by apply (normalize_edits_id sources []).
Qed.

(** The files a child reads for some edits: the spliced sources, and no others. *)
Definition reads_spliced (sources : list (PathBuf * string))
    (edits : list SerializedBorrowckRepairEdit) (overlay : Overlay) (files : Files) : Prop :=
  forall path text, btree_get path sources = Some text ->
    if is_nil (edits_of path edits) then btree_get path overlay = None
    else spliced (overlay, files) path text (edits_of path edits).

Lemma materialize_spliced workspace plan sources directory edits all d overlay d' :
  plan_source_texts plan = Ok sources -> normalize_variant_edits plan edits = Ok edits ->
  edits ⊆ all -> Forall replacement_is_str all -> targets_distinct workspace all ->
  materialize_m workspace plan directory edits d = Done (overlay, d') ->
  reads_spliced sources edits overlay (driver_files d') /\ driver_runs d' = driver_runs d.
Proof.
  intros Hs Hn Hsub Hstr Ht Hm. destruct (normalized plan sources edits edits Hs Hn) as (_ & Hc & Hf & _).
  unfold materialize_m in Hm. apply with_files_done in Hm as (files & Hm & ->). simpl. split; [|done].
  unfold materialize_variant_sources in Hm. rewrite Hn, Hs in Hm. simpl in Hm.
  edestruct (fold_splices workspace sources directory) as (state & Hfold & Hspliced & Hother);
    [exact Hf|exact Hc| |by eapply targets_apart|].
  { rewrite Forall_forall in *. auto. }
  rewrite Hfold in Hm. injection Hm as ->. simpl in *.
  intros path text Htext. destruct (edits_of path edits) eqn:He; simpl.
  - by rewrite (Hother path He).
  - rewrite <- He. apply Hspliced; [done|]. by rewrite He.
Qed.

Lemma variant_set_edits_sub plan variants :
  variants ⊆ plan_wrapper_variants plan -> variant_set_edits plan variants ⊆ all_edits plan.
Proof.
  intros Hsub e. unfold variant_set_edits, all_edits, plan_edits.
  rewrite !elem_of_app, !list_elem_of_bind.
  intros [(v & He & Hv)|(r & He & Hr)]; [left; eauto|right].
  exists r. split; [|done]. case_match; [by apply elem_of_nil in He|done].
Qed.

Lemma for_m_forall {A B} (P : B -> Prop) (f : A -> DriverM B) l d r d' :
  (forall x d y d', x ∈ l -> f x d = Done (y, d') -> P y) -> for_m f l d = Done (r, d') ->
  Forall P r /\ length r = length l.
Proof.
  revert d r d'. induction l as [|x l IH]; intros d r d' Hf H; cbn [for_m] in H.
  { apply driver_ret_done in H as [-> _]. split; [constructor|done]. }
  apply driver_bind_done in H as (y & d1 & Hy & H).
  apply driver_bind_done in H as (ys & d2 & Hys & H). apply driver_ret_done in H as [-> _].
  apply IH in Hys as [? ?]; [|intros; eapply Hf; [|done]; set_solver].
  split; [|simpl; lia]. constructor; [|done]. eapply Hf; [|done]. set_solver.
Qed.

Lemma option_lists_forall {A} (P : A -> Prop) (rs : list (option A)) :
  Forall (fun r => Forall P (option_list r)) rs ->
  Forall P (rs ≫= option_list) /\ length (rs ≫= option_list) <= length rs.
Proof.
  induction 1 as [|r rs Hr Hrs [IH1 IH2]]; [split; [constructor|done]|].
  rewrite bind_cons, Forall_app, length_app. split; [done|]. destruct r; cbn [option_list length]; lia.
Qed.

Section suggestions.
Variable compile : N -> list string -> Overlay -> Files -> result ChildOutput.
Variable workspace : PathBuf.
Variables (args : list string) (plan : SerializedBorrowckRepairPlan).
Variable sources : list (PathBuf * string).
Hypothesis Hsources : plan_source_texts plan = Ok sources.
Hypothesis Hstr : Forall replacement_is_str (all_edits plan).
Hypothesis Htargets : targets_distinct workspace (all_edits plan).

(** A child compiler accepted the sources with exactly the edits of the suggestion. *)
Definition validated (suggestion : ValidatedWrapperSuggestion) : Prop :=
  suggestion_edits suggestion <> [] /\
  exists artifacts overlay d,
    child_ran compile (redirect_variant_outputs args artifacts) overlay d true /\
    reads_spliced sources (suggestion_edits suggestion) overlay (driver_files d).

Lemma validate_set_validated work_dir name variants d r d' :
  variants ⊆ plan_wrapper_variants plan ->
  validate_wrapper_suggestion_set compile workspace args plan work_dir name variants d = Done (r, d') ->
  Forall validated (option_list r).
Proof using Hsources Hstr Htargets.
  intros Hsub. unfold validate_wrapper_suggestion_set.
  destruct (normalize_variant_edits plan _) as [edits|] eqn:Hn;
    [|intros [-> _]%driver_ret_done; constructor].
  destruct (is_nil edits) eqn:Hnil; [intros [-> _]%driver_ret_done; constructor|].
  intros H. apply driver_bind_done in H as (o & d1 & Ho & H).
  destruct (normalized _ _ _ _ Hsources Hn) as (Hin & _ & _ & Hid).
  apply try_m_done in Ho as [(overlay & -> & Hm)|(e & -> & _)];
    [|apply driver_ret_done in H as [-> _]; constructor].
  apply driver_bind_done in H as (output & d2 & [Hc ->]%run_child_done & H).
  destruct (child_success output) eqn:Hok; apply driver_ret_done in H as [-> _]; [|constructor].
  constructor; [|constructor]. split; [by destruct edits|].
  exists (path_join (path_join work_dir name) "artifacts"), overlay, d1. split; [by exists output|].
  eapply (materialize_spliced workspace plan sources _ edits (all_edits plan)); try done.
  etrans; [exact Hin|]. by apply variant_set_edits_sub.
Qed.

(** C7: Each suggestion that is reported has edits, and a child compiler accepted the
    crate with exactly these edits spliced into its sources and no other source
    replaced; at most thirteen suggestions are reported. *)
Theorem suggestions_are_validated work_dir d suggestions d'
    (Hrun : validate_wrapper_suggestions compile workspace args plan work_dir d
              = Done (suggestions, d')) :
  Forall validated suggestions /\ (len suggestions <= 13)%N.
Proof using Hsources Hstr Htargets.
  unfold validate_wrapper_suggestions in Hrun.
  set (variants := take_N _ _) in *.
  assert (variants ⊆ plan_wrapper_variants plan) as Hsub.
  { intros v. unfold variants. rewrite take_N_spec. intros Hv%list_elem_of_In. apply list_elem_of_In. rewrite <- (firstn_skipn (N.to_nat MAX_EDITOR_WRAPPER_VARIANTS)). apply in_or_app. by left. }
  assert (length variants <= 12) as Hlen.
  { pose proof (truncate_length MAX_EDITOR_WRAPPER_VARIANTS (plan_wrapper_variants plan)) as H.
    unfold truncate, len in H. fold variants in H. change MAX_EDITOR_WRAPPER_VARIANTS with 12%N in H. lia. }
  apply driver_bind_done in Hrun as (rs & d1 & Hrs & H).
  apply (for_m_forall (fun r => Forall validated (option_list r))) in Hrs as [Hrs Hl].
  2: { intros [i v] d2 y d3 Hin Hy. eapply validate_set_validated; [|exact Hy].
       apply enumerate_lookup in Hin. intros w ->%list_elem_of_singleton. apply Hsub.
       by eapply list_elem_of_lookup_2. }
  assert (length (enumerate variants) = length variants) as Henum.
  { unfold enumerate. generalize 0%N. clear. induction variants; intros; simpl; auto. }
  apply option_lists_forall in Hrs as [Hv Hvl]. unfold len in *.
  destruct (1 <? _)%N.
  - apply driver_bind_done in H as (all & d2 & Hall%validate_set_validated & H); [|done].
    apply driver_ret_done in H as [-> _]. rewrite Forall_app, length_app.
    split; [done|]. destruct all; simpl; lia.
  - apply driver_ret_done in H as [-> _]. split; [done|lia].
Qed.
End suggestions.

(** ** Where the children of variants write *)

(** An argument of the compiler, read: the outputs it names, the kinds of output with
    their paths, the directory of incremental state, and anything else as it is. *)
Inductive CompilerOption : Type :=
| Output (path : string)
| OutDir (directory : string)
| Emit (kinds : list (string * option string))
| Incremental (directory : string)
| OtherOption (args : list string).

Definition emit_kind (kind : string) : string * option string :=
  match split_at_char (Ascii.eqb "="%char) kind with
  | Some (kind, path) => (kind, Some path)
  | None => (kind, None)
  end.

Definition emit_kinds (value : string) : list (string * option string) := emit_kind <$> split_on ","%char value.

Definition codegen_option (arg value : string) : CompilerOption :=
  match strip_prefix "incremental=" value with
  | Some directory => Incremental directory
  | None => OtherOption [arg; value]
  end.

Definition single_option (arg : string) : CompilerOption :=
  match strip_prefix "--out-dir=" arg with
  | Some directory => OutDir directory
  | None =>
      match strip_prefix "--emit=" arg with
      | Some value => Emit (emit_kinds value)
      | None =>
          match strip_prefix "-Cincremental=" arg, strip_prefix "--codegen=incremental=" arg with
          | Some directory, _ | None, Some directory => Incremental directory
          | None, None =>
              match strip_prefix "-o" arg with
              | Some path => Output path
              | None => OtherOption [arg]
              end
          end
      end
  end.

(** The arguments as the compiler reads them. *)
Fixpoint read_options (args : list string) : list CompilerOption :=
  match args with
  | [] => []
  | arg :: rest =>
      if arg =s "-o" then
        match rest with [] => [] | value :: rest => Output value :: read_options rest end
      else if arg =s "--out-dir" then
        match rest with [] => [] | value :: rest => OutDir value :: read_options rest end
      else if arg =s "--emit" then
        match rest with [] => [] | value :: rest => Emit (emit_kinds value) :: read_options rest end
      else if (arg =s "-C") || (arg =s "--codegen") then
        match rest with [] => [] | value :: rest => codegen_option arg value :: read_options rest end
      else single_option arg :: read_options rest
  end.

(** Options that take a value have one, the value of [-C] is not itself an option, and
    [-C] is not spelled [--codegen], which is not looked at ([codegen_spelling_kept]). *)
Fixpoint supported (args : list string) : bool :=
  match args with
  | [] => true
  | arg :: rest =>
      if (arg =s "-o") || (arg =s "--out-dir") || (arg =s "--emit") then
        match rest with [] => false | _ :: rest => supported rest end
      else if arg =s "-C" then
        match rest with [] => false | value :: rest => negb (starts_with "-" value) && supported rest end
      else negb (starts_with "--codegen" arg) && supported rest
  end.

Definition names_output (option : CompilerOption) : bool :=
  match option with
  | Output _ | OutDir _ => true
  | _ => false
  end.

Fixpoint str_forall (p : ascii -> bool) (s : string) : bool :=
  match s with
  | EmptyString => true
  | String c s => p c && str_forall p s
  end.

Lemma str_forall_app p a b : str_forall p (a +:+ b) = str_forall p a && str_forall p b.
Proof. induction a; cbn; [done|]. by rewrite IHa, andb_assoc. Qed.

Lemma str_forall_rev p a : str_forall p (rev_str a) = str_forall p a.
Proof.
  induction a as [|c a IH]; [done|]. change (String c a) with (String c EmptyString +:+ a).
  rewrite rev_str_append, !str_forall_app, IH. apply andb_comm.
Qed.

Definition not_char (c : ascii) (a : ascii) : bool := negb (Ascii.eqb a c).

Lemma split_on_pieces sep current s :
  str_forall (not_char sep) current = true ->
  Forall (fun piece => str_forall (not_char sep) piece = true) (split_on_from sep current s).
Proof.
  revert current. induction s as [|c s IH]; intros current Hc; cbn.
  - constructor; [by rewrite str_forall_rev|constructor].
  - destruct (Ascii.eqb c sep) eqn:He.
    + constructor; [by rewrite str_forall_rev|]. by apply IH.
    + apply IH. cbn. unfold not_char at 1. by rewrite He.
Qed.

Lemma split_on_nonempty sep s : split_on sep s <> [].
Proof.
  unfold split_on. generalize "". induction s as [|c s IH]; intros current; cbn; [done|]. by case_match.
Qed.

Lemma split_on_piece sep current piece rest :
  str_forall (not_char sep) piece = true ->
  split_on_from sep current (piece +:+ rest) = split_on_from sep (rev_str piece +:+ current) rest.
Proof.
  revert current. induction piece as [|c piece IH]; intros current Hp; [done|].
  cbn [String.append split_on_from str_forall] in *.
  apply andb_true_iff in Hp as [Hc Hp]. apply negb_true_iff in Hc. rewrite Hc, IH by done.
  change (String c piece) with (String c EmptyString +:+ piece). by rewrite rev_str_append, append_assoc.
Qed.

(** Splitting undoes joining. *)
Lemma split_on_join sep pieces :
  pieces <> [] -> Forall (fun piece => str_forall (not_char sep) piece = true) pieces ->
  split_on sep (join (String sep EmptyString) pieces) = pieces.
Proof.
  intros Hne Hall. unfold split_on. induction Hall as [|piece pieces Hp Hall IH]; [done|]. cbn [join].
  destruct pieces as [|next pieces].
  - rewrite <- (append_nil_r piece) at 1. rewrite split_on_piece by done. cbn [split_on_from].
    by rewrite append_nil_r, rev_str_involutive.
  - rewrite split_on_piece by done. cbn [String.append split_on_from]. rewrite Ascii.eqb_refl, append_nil_r, rev_str_involutive. by rewrite IH.
Qed.

Lemma first_segment_forall p f s : str_forall p s = true -> str_forall p (first_segment f s) = true.
Proof.
  unfold first_segment. induction s as [|c s IH]; [done|]. cbn. intros [Hc Hs]%andb_true_iff.
  destruct (f c); [done|]. specialize (IH Hs). destruct (split_at_char f s) as [[]|]; cbn in *; by rewrite Hc.
Qed.

Lemma split_before f s before after : split_at_char f s = Some (before, after) -> split_at_char f before = None.
Proof.
  revert before after. induction s as [|c s IH]; intros before after; cbn; [done|].
  destruct (f c) eqn:Hc; [by intros [= <- <-]|].
  destruct (split_at_char f s) as [[b a]|]; [|done]. intros [= <- <-]. cbn. by rewrite Hc, (IH b a).
Qed.

Lemma first_segment_kind kind : emit_kind (first_segment (Ascii.eqb "="%char) kind) = ((emit_kind kind).1, None).
Proof.
  unfold emit_kind, first_segment. destruct (split_at_char _ kind) as [[before after]|] eqn:H; [|by rewrite H].
  by rewrite (split_before _ _ _ _ H).
Qed.

(** The stripped list has the same kinds and no path. *)
Lemma strip_emit_kinds value : emit_kinds (strip_emit_paths value) = (fun kind => (kind.1, None)) <$> emit_kinds value.
Proof.
  unfold emit_kinds, strip_emit_paths. rewrite split_on_join.
  - rewrite <- !list_fmap_compose. apply list_fmap_ext. intros i kind _. apply first_segment_kind.
  - intros Hnil%fmap_nil_inv. by destruct (split_on_nonempty ","%char value).
  - apply Forall_fmap. eapply Forall_impl; [by apply split_on_pieces|]. intros piece Hp. by apply first_segment_forall.
Qed.

Section outputs.
Variable artifacts : PathBuf.
Let output : PathBuf := path_join artifacts "output".

(** What becomes of an option: outputs go to the artifacts, kinds of output lose their
    paths, incremental state is left out, anything else is passed on. *)
Definition redirected (option : CompilerOption) : Datatypes.option CompilerOption :=
  match option with
  | Output _ => Some (Output (path_join artifacts "output"))
  | OutDir _ => Some (OutDir artifacts)
  | Emit kinds => Some (Emit ((fun kind => (kind.1, None)) <$> kinds))
  | Incremental _ => None
  | OtherOption args => Some (OtherOption args)
  end.

(** The option writes to the artifacts, if it says where to write. *)
Definition in_artifacts (option : CompilerOption) : Prop :=
  match option with
  | Output path => path = path_join artifacts "output"
  | OutDir directory => directory = artifacts
  | Emit kinds => Forall (fun kind => kind.2 = None) kinds
  | Incremental _ => False
  | OtherOption _ => True
  end.

Lemma output_nonempty : output <> "".
Proof.
  intros H. assert (String.length output = 0) as Hl by by rewrite H.
  unfold output, path_join in Hl. change (is_absolute "output") with false in Hl. cbv iota in Hl.
  destruct (is_empty artifacts || ends_with "/" artifacts);
    rewrite !length_append in Hl; simpl in Hl; lia.
Qed.

Lemma no_dash p arg : starts_with "-" arg = false -> strip_prefix (String "-" p) arg = None.
Proof.
  unfold starts_with. destruct arg as [|c arg]; [done|]. cbn -[Ascii.eqb]. by destruct (Ascii.eqb "-" c); [destruct arg|].
Qed.

Lemma plain_single arg : starts_with "-" arg = false -> redirect_single output artifacts arg = ([arg], false).
Proof. intros Hp. unfold redirect_single, starts_with at 1 2 3. by rewrite !no_dash. Qed.

Lemma redirect_args_plain arg rest :
  starts_with "-" arg = false ->
  redirect_args output artifacts (arg :: rest) =
    (arg :: (redirect_args output artifacts rest).1, (redirect_args output artifacts rest).2).
Proof.
  intros Hp. assert (forall p, arg <> String "-" p) as Hne.
  { intros p ->. unfold starts_with in Hp. cbn in Hp. by destruct p. }
  cbn [redirect_args]. unfold redirect_step. rewrite !(proj2 (String.eqb_neq _ _) (Hne _)), plain_single by done.
  cbn [andb]. destruct rest; by destruct (redirect_args _ _ _).
Qed.

Definition takes_value (arg : string) : bool :=
  (arg =s "-o") || (arg =s "--out-dir") || (arg =s "--emit") || (arg =s "-C") || (arg =s "--codegen").

Lemma read_single arg l : takes_value arg = false -> read_options (arg :: l) = single_option arg :: read_options l.
Proof.
  unfold takes_value. rewrite !orb_false_iff. intros [[[[H1 H2] H3] H4] H5]. cbn [read_options].
  by rewrite H1, H2, H3, H4, H5.
Qed.

(** An argument on its own. *)
Lemma redirect_single_read arg pushed named l :
  takes_value arg = false -> starts_with "--codegen" arg = false ->
  redirect_single output artifacts arg = (pushed, named) ->
  read_options (pushed ++ l) = option_list (redirected (single_option arg)) ++ read_options l /\
  named = names_output (single_option arg).
Proof.
  intros Ht Hcg. unfold redirect_single, single_option, starts_with in *.
  destruct (strip_prefix "--out-dir=" arg) eqn:E1; [by intros [= <- <-]|].
  destruct (strip_prefix "--emit=" arg) as [value|] eqn:E2.
  { intros [= <- <-]. cbn [app redirected option_list names_output]. by rewrite <- strip_emit_kinds. }
  destruct (strip_prefix "-Cincremental=" arg) as [dir|] eqn:E3; [by intros [= <- <-]|].
  assert (strip_prefix "--codegen=incremental=" arg = None) as E4.
  { destruct (strip_prefix "--codegen=incremental=" arg) as [r|] eqn:Hr; [|done].
    apply strip_prefix_Some in Hr. by subst arg. }
  rewrite E4. destruct (strip_prefix "-o" arg) as [path|] eqn:E5; cbn [andb].
  - apply strip_prefix_Some in E5 as ->. destruct path as [|c path]; [done|].
    rewrite (proj2 (N.ltb_lt _ _)) by (unfold str_len; simpl; lia). intros [= <- <-].
    cbn [app redirected option_list names_output]. split; [|done]. fold output. rewrite read_single; [done|].
    destruct output as [|d rest] eqn:He; [by destruct output_nonempty|]. done.
  - intros [= <- <-]. cbn [app redirected option_list names_output]. split; [|done].
    rewrite read_single by done. unfold single_option. by rewrite E1, E2, E3, E4, E5.
Qed.

(** The whole list, and what is appended to it. *)
Lemma redirect_args_read n args :
  length args <= n -> supported args = true ->
  let '(kept, named) := redirect_args output artifacts args in
  (forall tail, read_options (kept ++ tail) = omap redirected (read_options args) ++ read_options tail) /\
  named = existsb names_output (read_options args).
Proof.
  revert args. induction n as [|n IH]; intros [|arg rest]; try (simpl; lia); [done..|].
  intros Hlen Hs. cbn [length] in Hlen. cbn [supported] in Hs. cbn [redirect_args read_options]. unfold redirect_step.
  destruct (String.eqb_spec arg "-o") as [->|Ho]; cbn [orb] in Hs.
  { destruct rest as [|v rest]; [done|]. cbn [length] in Hlen. pose proof (IH rest ltac:(lia) Hs) as H.
    destruct (redirect_args _ _ rest) as [kept named]. destruct H as [Hr Hn]. split; [|done].
    intros tail. cbn [app read_options]. rewrite Hr. done. }
  destruct (String.eqb_spec arg "--out-dir") as [->|Hd]; cbn [orb] in Hs.
  { destruct rest as [|v rest]; [done|]. cbn [length] in Hlen. pose proof (IH rest ltac:(lia) Hs) as H.
    destruct (redirect_args _ _ rest) as [kept named]. destruct H as [Hr Hn]. split; [|done].
    intros tail. cbn [app read_options]. rewrite Hr. done. }
  destruct (String.eqb_spec arg "--emit") as [->|He].
  { destruct rest as [|v rest]; [done|]. cbn [length] in Hlen. pose proof (IH rest ltac:(lia) Hs) as H.
    destruct (redirect_args _ _ rest) as [kept named]. destruct H as [Hr Hn]. split; [|done].
    intros tail. cbn [app read_options]. rewrite strip_emit_kinds, Hr. done. }
  destruct (String.eqb_spec arg "-C") as [->|Hc].
  { destruct rest as [|v rest]; [done|]. cbn [length] in Hlen. apply andb_true_iff in Hs as [Hv%negb_true_iff Hs].
    pose proof (IH rest ltac:(lia) Hs) as H. cbn [String.eqb orb andb]. unfold codegen_option.
    unfold starts_with at 1. destruct (strip_prefix "incremental=" v) as [dir|] eqn:Hi.
    - destruct (redirect_args _ _ rest) as [kept named]. exact H.
    - change (redirect_single output artifacts "-C") with (["-C"], false).
      rewrite (redirect_args_plain v rest Hv). destruct (redirect_args _ _ rest) as [kept named].
      destruct H as [Hr Hn]. split; [|done]. intros tail. cbn [app read_options]. unfold codegen_option.
      cbn [String.eqb orb]. rewrite Hi, Hr. done. }
  apply andb_true_iff in Hs as [Hcg%negb_true_iff Hs].
  assert (takes_value arg = false) as Ht.
  { unfold takes_value. destruct (String.eqb_spec arg "--codegen") as [->|Hg]; [done|].
    by rewrite !(proj2 (String.eqb_neq _ _)). }
  pose proof (IH rest ltac:(lia) Hs) as H. pose proof Ht as Hno. unfold takes_value in Hno.
  rewrite !orb_false_iff in Hno. destruct Hno as [[[[_ _] _] _] H5]. rewrite H5. cbn [orb andb].
  destruct (redirect_single output artifacts arg) as [pushed one] eqn:Hone.
  destruct (redirect_args output artifacts rest) as [kept named] eqn:Hrest. destruct H as [Hr Hn].
  destruct rest as [|next rest]; rewrite ?Hrest; [injection Hrest as <- <-|];
    (split; [intros tail; rewrite <- app_assoc;
       rewrite (proj1 (redirect_single_read arg pushed one _ Ht Hcg Hone)), Hr; cbn [omap list_omap];
       by destruct (redirected (single_option arg))
     |rewrite (proj2 (redirect_single_read arg pushed one [] Ht Hcg Hone)); cbn [existsb]; by rewrite <- Hn]).
Qed.

Lemma redirected_in_artifacts options : Forall in_artifacts (omap redirected options).
Proof.
  apply Forall_forall. intros o (option & _ & Ho)%list_elem_of_omap.
  destruct option; cbn in Ho; simplify_eq; cbn; [done..| |done]. by apply Forall_fmap, Forall_true.
Qed.
End outputs.

(** C37: The child that tries a wrapper variant is told to write into the artifacts directory
    of the variant only.  For arguments in which options have their values and [-C] is not
    spelled [--codegen], the child's arguments, read as the compiler reads them, are the
    user's with every output replaced by the artifacts directory or its file [output], the
    kinds of output without their paths, no directory of incremental state, and everything
    else as it was; when the user names no output, the artifacts directory is added. So each
    option that says where to write says the artifacts, and some option does. *)
Theorem variants_write_to_artifacts args artifacts (Hargs : supported args = true) :
  let options := read_options args in
  let child := read_options (redirect_variant_outputs args artifacts) in
  child = omap (redirected artifacts) options
          ++ (if existsb names_output options then [] else [OutDir artifacts]) /\
  Forall (in_artifacts artifacts) child /\
  Exists (fun option => names_output option = true) child.
Proof.
  cbv zeta. unfold redirect_variant_outputs.
  pose proof (redirect_args_read artifacts (length args) args (Nat.le_refl _) Hargs) as H.
  destruct (redirect_args _ _ args) as [kept named]. destruct H as [Hr ->].
  assert (read_options (if existsb names_output (read_options args) then kept else kept ++ ["--out-dir"; artifacts])
    = omap (redirected artifacts) (read_options args)
      ++ (if existsb names_output (read_options args) then [] else [OutDir artifacts])) as ->.
  { destruct (existsb names_output _); [|by rewrite Hr]. specialize (Hr []). by rewrite app_nil_r in Hr. }
  split; [done|]. split.
  - apply Forall_app. split; [apply redirected_in_artifacts|]. destruct (existsb names_output _); by repeat constructor.
  - apply Exists_app. destruct (existsb names_output (read_options args)) eqn:Hn; [|by right; constructor].
    left. apply existsb_exists in Hn as (option & Hin%list_elem_of_In & Ho). apply Exists_exists.
    destruct option; try discriminate Ho; eexists; (split; [apply list_elem_of_omap; eexists; split; [exact Hin|reflexivity]|done]).
Qed.

(** The other spelling of [-C] is passed on: the child shares the user's incremental state. *)
Lemma codegen_spelling_kept :
  read_options (redirect_variant_outputs ["main.rs"; "--codegen"; "incremental=/target/inc"] "/v/artifacts")
  = [OtherOption ["main.rs"]; Incremental "/target/inc"; OutDir "/v/artifacts"] /\
  read_options (redirect_variant_outputs ["main.rs"; "-C"; "incremental=/target/inc"] "/v/artifacts")
  = [OtherOption ["main.rs"]; OutDir "/v/artifacts"].
Proof. split; vm_compute; reflexivity. Qed.

(** ** The cache *)

(** Once the variants of a plan were validated for some arguments, asking again
    gives the stored suggestions and runs no child. *)
Theorem cached_validation_not_rerun compile workspace identity key modified args plan
    work_dir work_dir' d suggestions d' directory
    (Hdirectory : ownership_model_directory args = Some directory)
    (Hrun : cached_or_validate_wrapper_suggestions compile workspace identity key modified args plan
              work_dir d = Done (suggestions, d')) :
  cached_or_validate_wrapper_suggestions compile workspace identity key modified args plan work_dir' d'
    = Done (suggestions, d').
Proof.
  unfold cached_or_validate_wrapper_suggestions, wrapper_validation_cache_path in *.
  rewrite Hdirectory in *. simpl in *. set (path := path_join _ _) in *.
  assert (validate_and_store compile workspace identity modified args plan work_dir (Some path) d
            = Done (suggestions, d') ->
          btree_get path (driver_cache d') = Some (mk_cached 2 identity suggestions)) as Hstore.
  { unfold validate_and_store. intros H. apply driver_bind_done in H as (s & d1 & _ & [= <- <-]).
    unfold store_cached. cbn [driver_cache]. by rewrite btree_get_insert, path_eqb_refl. }
  assert (usable identity (mk_cached 2 identity suggestions) = true) as Husable
    by (unfold usable; simpl; by rewrite String.eqb_refl).
  destruct (btree_get path (driver_cache d)) as [cached|] eqn:Hget.
  - destruct (usable identity cached) eqn:Hu.
    + injection Hrun as <- <-. by rewrite Hget, Hu.
    + apply Hstore in Hrun as ->. by rewrite Husable.
  - apply Hstore in Hrun as ->. by rewrite Husable.
Qed.

(** ** Examples *)

(** A crate that compiles once its value is cloned: the first child fails and asks
    for the clone, later ones read the patched source. *)
Definition demo_compile (run : N) (args : list string) (overlay : Overlay) (files : Files) :
    result ChildOutput :=
  match btree_get edit_path overlay with
  | None => Ok (mk_child false (Ok (Some (edit_plan [[clone_a]]))))
  | Some _ => Ok (mk_child true (Ok (Some (edit_plan []))))
  end.

Definition empty_driver : Driver := mk_driver [] 0 [].

Lemma run_reports_last_compilation_witness :
  exists manifest d,
    run demo_compile "/work" ["main.rs"] "/out" empty_driver = Done ((Success, manifest), d) /\
    exists overlay d1, child_ran demo_compile ["main.rs"] overlay d1 true /\
      (driver_runs d1 < 5)%N.
Proof.
  assert (exists manifest d,
    run demo_compile "/work" ["main.rs"] "/out" empty_driver = Done ((Success, manifest), d))
    as (manifest & d & H) by (eexists _, _; vm_compute; reflexivity).
  exists manifest, d. split; [exact H|].
  destruct (run_reports_last_compilation demo_compile "/work" ["main.rs"] "/out" empty_driver Success
    manifest d H) as (overlay & d1 & Hran & _ & _ & Hlt).
  exists overlay, d1. split; [exact Hran|exact Hlt].
Defined.

Definition rc_variant (path : PathBuf) : SerializedBorrowckWrapperVariant :=
  mk_svariant (mk_sbinding path 4 "b") (mk_sspan path 8 9) WrapperStrategy.Rc
    [mk_sedit path 8 9 "Rc::clone(&a)"].

Definition wrapper_plan (paths : list PathBuf) : SerializedBorrowckRepairPlan :=
  mk_plan 5 "x86_64" "demo" 7 ((fun path => mk_ssource path "" (Some edit_source)) <$> paths)
    [] [] [] [] (mk_sgraph [] [] [] [] false) [] (rc_variant <$> paths) [].

Lemma suggestions_are_validated_witness :
  exists suggestions d,
    validate_wrapper_suggestions demo_compile "/work" ["main.rs"] (wrapper_plan [edit_path]) "/tmp/w"
      empty_driver = Done (suggestions, d) /\
    length suggestions = 1 /\
    Forall (validated demo_compile ["main.rs"] [(edit_path, edit_source)]) suggestions.
Proof.
  assert (exists suggestions d,
    validate_wrapper_suggestions demo_compile "/work" ["main.rs"] (wrapper_plan [edit_path]) "/tmp/w"
      empty_driver = Done (suggestions, d) /\ length suggestions = 1)
    as (suggestions & d & H & Hlen) by (eexists _, _; vm_compute; split; reflexivity).
  exists suggestions, d. split; [exact H|]. split; [exact Hlen|].
  apply (suggestions_are_validated demo_compile "/work" ["main.rs"] (wrapper_plan [edit_path])
    [(edit_path, edit_source)] eq_refl) in H as [Hv _]; [exact Hv| |].
  - repeat constructor.
  - intros directory a b ->%list_elem_of_singleton ->%list_elem_of_singleton. discriminate.
Defined.

Lemma variants_write_to_artifacts_witness :
  let args := ["main.rs"; "-o/target/app"; "--emit"; "link=/target/app,metadata"; "-C"; "incremental=/target/inc";
               "-C"; "opt-level=2"] in
  read_options (redirect_variant_outputs args "/v/artifacts")
  = [OtherOption ["main.rs"]; Output "/v/artifacts/output"; Emit [("link", None); ("metadata", None)];
     OtherOption ["-C"; "opt-level=2"]].
Proof.
  intros args. etrans; [apply (variants_write_to_artifacts args "/v/artifacts")|]; vm_compute; reflexivity.
Defined.

Lemma cached_validation_not_rerun_witness :
  exists suggestions d,
    cached_or_validate_wrapper_suggestions demo_compile "/work" "rustc" (fun _ _ => "key") (fun _ => None)
      ["-Zborrowck-ownership-model=/m"] (wrapper_plan [edit_path]) "/tmp/w" d = Done (suggestions, d) /\
    length suggestions = 1.
Proof.
  assert (exists suggestions d,
    cached_or_validate_wrapper_suggestions demo_compile "/work" "rustc" (fun _ _ => "key") (fun _ => None)
      ["-Zborrowck-ownership-model=/m"] (wrapper_plan [edit_path]) "/tmp/v" empty_driver
      = Done (suggestions, d) /\ length suggestions = 1)
    as (suggestions & d & H & Hlen) by (eexists _, _; vm_compute; split; reflexivity).
  exists suggestions, d. split; [|exact Hlen].
  eapply cached_validation_not_rerun; [reflexivity|exact H].
Defined.

(** The directory of a compiled variant is named after the binding, its offset and
    the strategy but not its file, so variants of two files can share it: the manifest
    then reports both as compiled while the sources of the first are gone. *)
Theorem variant_directories_collide :
  exists results d,
    compile_wrapper_variants (fun _ _ _ _ => Ok (mk_child true (Ok None))) "/work" ["main.rs"]
      (Some (wrapper_plan ["/work/src/a.rs"; "/work/src/b.rs"])) "/out/demo" empty_driver
      = Done (results, d) /\
    result_status <$> results = ["success"; "success"; "success"] /\
    take 2 (result_directory <$> results)
      = ["/out/demo/variants/b-4-rc"; "/out/demo/variants/b-4-rc"] /\
    btree_get "/out/demo/variants/b-4-rc/sources/src/a.rs" (driver_files d) = None /\
    btree_get "/out/demo/variants/b-4-rc/sources/src/b.rs" (driver_files d)
      = Some "let b = Rc::clone(&a); f(a);".
Proof. eexists _, _. split; [vm_compute; reflexivity|]. repeat split; reflexivity. Qed.
