(* ===== verification/AnalyzerData.v ===== *)
(** * What rust-analyzer keeps of the compiler's facts

    The data of [rust-analyzer/crates/rust-analyzer/src/diagnostics.rs]: the ownership
    artifact as it is deserialized ([OwnershipModelArtifact] and its parts, fields
    prefixed [a]), the same facts tied to positions of a source (the [Tutorial]
    structs, prefixed [t]) and the events of a file.  Structs share names with those
    of the editor's protocol; [Protocol.OwnershipEvent] is the other one.

    [read_artifact] is what reading back a plan file gives: both sides derive their
    JSON from the types, with enum variants in snake case.  The analyzer keeps most
    enums as text; event kinds and states it parses, and a state it does not know
    makes the whole file unreadable. *)

From Stdlib Require Import Ascii String.
From S2P Require Import Prelude RustStr RustColl RustPath Protocol CompilerData.
From stdpp Require Import options.

Module RaEventKind.
Inductive OwnershipEventKind : Type :=
| BorrowActivate
| BorrowEnd
| BorrowMutable
| BorrowShared
| Clone
| Copy
| Drop
| InvalidUse
| LastUse
| Move
| PartialMove
| Reinitialize.
#[global] Instance ra_event_kind_eq_dec : EqDecision OwnershipEventKind.
Proof. solve_decision. Defined.
End RaEventKind.

Module RaState.
Inductive OwnershipState : Type :=
| Available
| Dropped
| Moved
| MutablyBorrowed
| PartiallyMoved
| SharedBorrowed.
#[global] Instance ra_state_eq_dec : EqDecision OwnershipState.
Proof. solve_decision. Defined.
End RaState.

Record OwnershipDiagnosticRelated : Type := mk_odrelated {
  odrelated_message : string;
  odrelated_range : Range
}.

Record OwnershipDiagnostic : Type := mk_odiag {
  odiag_code : string;
  odiag_message : string;
  odiag_range : Range;
  odiag_related : list OwnershipDiagnosticRelated
}.

Record OwnershipModelSource : Type := mk_asource {
  asource_path : PathBuf;
  asource_source_hash : string;
  asource_source : option string
}.

Record OwnershipModelBinding : Type := mk_abinding {
  abinding_path : PathBuf;
  abinding_byte_start : N;
  abinding_name : string
}.

Record OwnershipModelSpan : Type := mk_aspan {
  aspan_path : PathBuf;
  aspan_byte_start : N;
  aspan_byte_end : N
}.

Record OwnershipModelBlock : Type := mk_ablock {
  ablock_basic_block : N;
  ablock_span : OwnershipModelSpan;
  ablock_successors : list N
}.

Record OwnershipModelBody : Type := mk_abody {
  abody_body_id : N;
  abody_name : string;
  abody_span : OwnershipModelSpan;
  abody_blocks : list OwnershipModelBlock
}.

Record OwnershipModelMemoryLayer : Type := mk_alayer {
  alayer_kind : string;
  alayer_storage : string;
  alayer_label : string;
  alayer_type_name : string;
  alayer_size : option N;
  alayer_align : option N;
  alayer_provenance : string
}.

Record OwnershipModelMemoryNode : Type := mk_anode {
  anode_id : string;
  anode_body_id : N;
  anode_place : string;
  anode_kind : string;
  anode_storage : string;
  anode_label : string;
  anode_type_name : string;
  anode_size : option N;
  anode_align : option N;
  anode_span : option OwnershipModelSpan;
  anode_state : RaState.OwnershipState;
  anode_provenance : string;
  anode_physical_placement_note : string;
  anode_truncated : bool
}.

Record OwnershipModelMemoryEdge : Type := mk_aedge {
  aedge_id : string;
  aedge_source : string;
  aedge_target : string;
  aedge_relation : string;
  aedge_event_id : option string;
  aedge_loan_id : option N;
  aedge_span : option OwnershipModelSpan;
  aedge_provenance : string;
  aedge_path_marker : option string
}.

Record OwnershipModelStateDelta : Type := mk_adelta {
  adelta_node_id : string;
  adelta_from : option RaState.OwnershipState;
  adelta_to : RaState.OwnershipState;
  adelta_relation_added : option string;
  adelta_relation_removed : option string
}.

Record OwnershipModelSnapshot : Type := mk_asnapshot {
  asnapshot_id : string;
  asnapshot_event_id : string;
  asnapshot_body_id : N;
  asnapshot_basic_block : N;
  asnapshot_statement_index : N;
  asnapshot_kind : string;
  asnapshot_span : OwnershipModelSpan;
  asnapshot_place : string;
  asnapshot_loan_id : option N;
  asnapshot_path_marker : option string;
  asnapshot_deltas : list OwnershipModelStateDelta;
  asnapshot_provenance : string
}.

Record OwnershipModelAccessStep : Type := mk_astep {
  astep_kind : string;
  astep_starting_type : string;
  astep_result_type : string;
  astep_mutability : string;
  astep_explicitness : string;
  astep_fallible : bool;
  astep_may_panic : bool;
  astep_requires_unsafe : bool;
  astep_explanation : string;
  astep_provenance : string
}.

Record OwnershipModelAccessPath : Type := mk_apath {
  apath_id : string;
  apath_body_id : N;
  apath_node_id : string;
  apath_place : string;
  apath_purpose : string;
  apath_steps : list OwnershipModelAccessStep;
  apath_provenance : string
}.

Record OwnershipModelMemoryGraph : Type := mk_agraph {
  agraph_nodes : list OwnershipModelMemoryNode;
  agraph_edges : list OwnershipModelMemoryEdge;
  agraph_snapshots : list OwnershipModelSnapshot;
  agraph_access_paths : list OwnershipModelAccessPath;
  agraph_truncated : bool
}.

Record OwnershipModelBindingFact : Type := mk_afact {
  afact_body_id : N;
  afact_binding : OwnershipModelBinding;
  afact_type_name : string;
  afact_size : option N;
  afact_align : option N;
  afact_memory_layers : list OwnershipModelMemoryLayer
}.

Record OwnershipModelLoanPoint : Type := mk_apoint {
  apoint_basic_block : N;
  apoint_statement_index : N;
  apoint_span : OwnershipModelSpan
}.

Record OwnershipModelLoan : Type := mk_aloan {
  aloan_body_id : N;
  aloan_loan_id : N;
  aloan_kind : string;
  aloan_binding : OwnershipModelBinding;
  aloan_place : string;
  aloan_reserve : OwnershipModelLoanPoint;
  aloan_activation : option OwnershipModelLoanPoint;
  aloan_live_points : list OwnershipModelLoanPoint;
  aloan_end_points : list OwnershipModelLoanPoint;
  aloan_truncated : bool
}.

Record OwnershipModelDestination : Type := mk_adestination {
  adestination_kind : string;
  adestination_label : string;
  adestination_place : option string;
  adestination_span : option OwnershipModelSpan
}.

Record OwnershipModelEvent : Type := mk_aevent {
  aevent_event_id : string;
  aevent_body_id : N;
  aevent_basic_block : N;
  aevent_statement_index : N;
  aevent_kind : RaEventKind.OwnershipEventKind;
  aevent_state : RaState.OwnershipState;
  aevent_path : PathBuf;
  aevent_byte_start : N;
  aevent_byte_end : N;
  aevent_binding : OwnershipModelBinding;
  aevent_place : string;
  aevent_loan_id : option N;
  aevent_detail : option string;
  aevent_destination : option OwnershipModelDestination
}.

Record OwnershipModelArtifact : Type := mk_artifact {
  artifact_schema_version : N;
  artifact_target_triple : string;
  artifact_sources : list OwnershipModelSource;
  artifact_ownership_events : list OwnershipModelEvent;
  artifact_ownership_bodies : list OwnershipModelBody;
  artifact_ownership_bindings : list OwnershipModelBindingFact;
  artifact_ownership_loans : list OwnershipModelLoan;
  artifact_memory_graph : OwnershipModelMemoryGraph
}.

Record OwnershipTutorialMemoryEdge : Type := mk_tedge {
  tedge_edge : OwnershipModelMemoryEdge;
  tedge_range : option Range
}.

Record OwnershipTutorialMemoryNode : Type := mk_tnode {
  tnode_node : OwnershipModelMemoryNode;
  tnode_range : option Range
}.

Record OwnershipTutorialSnapshot : Type := mk_tsnapshot {
  tsnapshot_snapshot : OwnershipModelSnapshot;
  tsnapshot_range : Range
}.

Record OwnershipTutorialMemoryGraph : Type := mk_tgraph {
  tgraph_nodes : list OwnershipTutorialMemoryNode;
  tgraph_edges : list OwnershipTutorialMemoryEdge;
  tgraph_snapshots : list OwnershipTutorialSnapshot;
  tgraph_access_paths : list OwnershipModelAccessPath;
  tgraph_truncated : bool
}.

Record OwnershipTutorialBlock : Type := mk_tblock {
  tblock_basic_block : N;
  tblock_range : Range;
  tblock_successors : list N
}.

Record OwnershipTutorialBody : Type := mk_tbody {
  tbody_body_id : N;
  tbody_name : string;
  tbody_range : Range;
  tbody_blocks : list OwnershipTutorialBlock
}.

Record OwnershipTutorialBinding : Type := mk_tbinding {
  tbinding_body_id : N;
  tbinding_name : string;
  tbinding_range : Range;
  tbinding_type_name : string;
  tbinding_size : option N;
  tbinding_align : option N;
  tbinding_memory_layers : list OwnershipModelMemoryLayer
}.

Record OwnershipTutorialLoanPoint : Type := mk_tpoint {
  tpoint_basic_block : N;
  tpoint_statement_index : N;
  tpoint_range : Range
}.

Record OwnershipTutorialLoan : Type := mk_tloan {
  tloan_body_id : N;
  tloan_loan_id : N;
  tloan_kind : string;
  tloan_name : string;
  tloan_place : string;
  tloan_reserve : OwnershipTutorialLoanPoint;
  tloan_activation : option OwnershipTutorialLoanPoint;
  tloan_live_points : list OwnershipTutorialLoanPoint;
  tloan_end_points : list OwnershipTutorialLoanPoint;
  tloan_truncated : bool
}.

Record OwnershipTutorialModel : Type := mk_tmodel {
  tmodel_schema_version : N;
  tmodel_target_triple : string;
  tmodel_bodies : list OwnershipTutorialBody;
  tmodel_bindings : list OwnershipTutorialBinding;
  tmodel_loans : list OwnershipTutorialLoan;
  tmodel_memory_graph : OwnershipTutorialMemoryGraph
}.

Record OwnershipDestination : Type := mk_evdest {
  evdest_kind : string;
  evdest_label : string;
  evdest_place : option string;
  evdest_range : option Range
}.

Record OwnershipEvent : Type := mk_ev {
  ev_event_id : string;
  ev_body_id : N;
  ev_basic_block : N;
  ev_statement_index : N;
  ev_kind : RaEventKind.OwnershipEventKind;
  ev_state : RaState.OwnershipState;
  ev_range : Range;
  ev_binding_range : Range;
  ev_name : string;
  ev_place : string;
  ev_loan_id : option N;
  ev_exact : bool;
  ev_detail : option string;
  ev_destination : option OwnershipDestination
}.

#[global] Instance OwnershipDestination_eq_dec : EqDecision OwnershipDestination.
Proof. solve_decision. Defined.

#[global] Instance OwnershipEvent_eq_dec : EqDecision OwnershipEvent.
Proof. solve_decision. Defined.

#[global] Instance OwnershipDiagnosticRelated_eq_dec : EqDecision OwnershipDiagnosticRelated.
Proof. solve_decision. Defined.

#[global] Instance OwnershipDiagnostic_eq_dec : EqDecision OwnershipDiagnostic.
Proof. solve_decision. Defined.

(** ** Reading a plan file *)

Definition memory_kind_name (value : MemoryKind.BorrowckMemoryKind) : string :=
  match value with
  | MemoryKind.AggregateValue => "aggregate_value"
  | MemoryKind.ArcAllocation => "arc_allocation"
  | MemoryKind.ArcHandle => "arc_handle"
  | MemoryKind.BoxAllocation => "box_allocation"
  | MemoryKind.BoxHandle => "box_handle"
  | MemoryKind.CellState => "cell_state"
  | MemoryKind.ConditionalValue => "conditional_value"
  | MemoryKind.ContainerBuffer => "container_buffer"
  | MemoryKind.ContainerHeader => "container_header"
  | MemoryKind.FatPointerMetadata => "fat_pointer_metadata"
  | MemoryKind.GuardState => "guard_state"
  | MemoryKind.InlineValue => "inline_value"
  | MemoryKind.MutexState => "mutex_state"
  | MemoryKind.OnceState => "once_state"
  | MemoryKind.PinConstraint => "pin_constraint"
  | MemoryKind.RawPointer => "raw_pointer"
  | MemoryKind.RcAllocation => "rc_allocation"
  | MemoryKind.RcHandle => "rc_handle"
  | MemoryKind.ReferenceHandle => "reference_handle"
  | MemoryKind.RefCellState => "ref_cell_state"
  | MemoryKind.RwLockState => "rw_lock_state"
  | MemoryKind.StackBinding => "stack_binding"
  | MemoryKind.StringBuffer => "string_buffer"
  | MemoryKind.StringHeader => "string_header"
  | MemoryKind.UnsafeCellState => "unsafe_cell_state"
  | MemoryKind.VecBuffer => "vec_buffer"
  | MemoryKind.VecHeader => "vec_header"
  | MemoryKind.WeakAllocation => "weak_allocation"
  | MemoryKind.WeakHandle => "weak_handle"
  end.

Definition memory_storage_name (value : MemoryStorage.BorrowckMemoryStorage) : string :=
  match value with
  | MemoryStorage.Conceptual => "conceptual"
  | MemoryStorage.Heap => "heap"
  | MemoryStorage.Inline => "inline"
  | MemoryStorage.Stack => "stack"
  end.

Definition loan_kind_name (value : LoanKind.BorrowckLoanKind) : string :=
  match value with
  | LoanKind.Mutable => "mutable"
  | LoanKind.Shared => "shared"
  end.

Definition destination_kind_name (value : DestinationKind.BorrowckOwnershipDestinationKind) : string :=
  match value with
  | DestinationKind.FunctionArgument => "function_argument"
  | DestinationKind.LocalBinding => "local_binding"
  | DestinationKind.ProjectedPlace => "projected_place"
  | DestinationKind.ReturnValue => "return_value"
  end.

Definition storage_region_name (value : StorageRegion.BorrowckGraphStorageRegion) : string :=
  match value with
  | StorageRegion.Stack => "stack"
  | StorageRegion.Inline => "inline"
  | StorageRegion.Heap => "heap"
  | StorageRegion.Static => "static"
  | StorageRegion.ThreadLocal => "thread_local"
  | StorageRegion.Conceptual => "conceptual"
  | StorageRegion.Unknown => "unknown"
  end.

Definition node_kind_name (value : NodeKind.BorrowckGraphNodeKind) : string :=
  match value with
  | NodeKind.Binding => "binding"
  | NodeKind.Handle => "handle"
  | NodeKind.Wrapper => "wrapper"
  | NodeKind.InlineValue => "inline_value"
  | NodeKind.HeapAllocation => "heap_allocation"
  | NodeKind.Buffer => "buffer"
  | NodeKind.ControlBlock => "control_block"
  | NodeKind.BorrowFlag => "borrow_flag"
  | NodeKind.LockState => "lock_state"
  | NodeKind.BorrowedView => "borrowed_view"
  | NodeKind.ProjectedPlace => "projected_place"
  | NodeKind.Guard => "guard"
  | NodeKind.Metadata => "metadata"
  | NodeKind.Unknown => "unknown"
  end.

Definition relation_name (value : Relation.BorrowckGraphEdgeRelation) : string :=
  match value with
  | Relation.Stores => "stores"
  | Relation.Wraps => "wraps"
  | Relation.Owns => "owns"
  | Relation.Contains => "contains"
  | Relation.OwnsBuffer => "owns_buffer"
  | Relation.PointsTo => "points_to"
  | Relation.BorrowShared => "borrow_shared"
  | Relation.BorrowMutable => "borrow_mutable"
  | Relation.Reborrow => "reborrow"
  | Relation.SharesAllocation => "shares_allocation"
  | Relation.WeakReference => "weak_reference"
  | Relation.GuardsAccess => "guards_access"
  | Relation.Conditional => "conditional"
  | Relation.MovedTo => "moved_to"
  | Relation.Unknown => "unknown"
  end.

Definition provenance_name (value : Provenance.BorrowckOwnershipProvenance) : string :=
  match value with
  | Provenance.Exact => "exact"
  | Provenance.Derived => "derived"
  | Provenance.Conceptual => "conceptual"
  | Provenance.Unknown => "unknown"
  end.

Definition snapshot_kind_name (value : SnapshotKind.BorrowckSnapshotKind) : string :=
  match value with
  | SnapshotKind.Initialize => "initialize"
  | SnapshotKind.BorrowReserve => "borrow_reserve"
  | SnapshotKind.BorrowActivate => "borrow_activate"
  | SnapshotKind.Move => "move"
  | SnapshotKind.Copy => "copy"
  | SnapshotKind.Clone => "clone"
  | SnapshotKind.Reborrow => "reborrow"
  | SnapshotKind.LastUse => "last_use"
  | SnapshotKind.BorrowEnd => "borrow_end"
  | SnapshotKind.Conflict => "conflict"
  | SnapshotKind.Reinitialize => "reinitialize"
  | SnapshotKind.Drop => "drop"
  | SnapshotKind.PartialMove => "partial_move"
  | SnapshotKind.Unknown => "unknown"
  end.

Definition access_kind_name (value : AccessKind.BorrowckAccessKind) : string :=
  match value with
  | AccessKind.BuiltinDeref => "builtin_deref"
  | AccessKind.TraitDeref => "trait_deref"
  | AccessKind.TraitDerefMut => "trait_deref_mut"
  | AccessKind.AutoBorrowShared => "auto_borrow_shared"
  | AccessKind.AutoBorrowMutable => "auto_borrow_mutable"
  | AccessKind.RawPointerDeref => "raw_pointer_deref"
  | AccessKind.WrapperBorrow => "wrapper_borrow"
  | AccessKind.WrapperBorrowMut => "wrapper_borrow_mut"
  | AccessKind.GuardDeref => "guard_deref"
  | AccessKind.WeakUpgrade => "weak_upgrade"
  | AccessKind.OptionExtract => "option_extract"
  | AccessKind.ResultExtract => "result_extract"
  | AccessKind.LockAcquire => "lock_acquire"
  | AccessKind.Unknown => "unknown"
  end.

Definition access_mutability_name (value : AccessMutability.BorrowckAccessMutability) : string :=
  match value with
  | AccessMutability.Shared => "shared"
  | AccessMutability.Mutable => "mutable"
  | AccessMutability.NotApplicable => "not_applicable"
  | AccessMutability.Unknown => "unknown"
  end.

Definition access_explicitness_name (value : AccessExplicitness.BorrowckAccessExplicitness) : string :=
  match value with
  | AccessExplicitness.Automatic => "automatic"
  | AccessExplicitness.Explicit => "explicit"
  | AccessExplicitness.Either => "either"
  | AccessExplicitness.Unknown => "unknown"
  end.

(** Kinds and states travel as texts, the variant in snake case; a text that is no
    variant of the reader makes the artifact unreadable. *)
Definition event_kind_name (kind : EventKind.BorrowckOwnershipEventKind) : string :=
  match kind with
  | EventKind.BorrowActivate => "borrow_activate"
  | EventKind.BorrowEnd => "borrow_end"
  | EventKind.BorrowMutable => "borrow_mutable"
  | EventKind.BorrowShared => "borrow_shared"
  | EventKind.Clone => "clone"
  | EventKind.Copy => "copy"
  | EventKind.Drop => "drop"
  | EventKind.LastUse => "last_use"
  | EventKind.Move => "move"
  | EventKind.PartialMove => "partial_move"
  | EventKind.Reinitialize => "reinitialize"
  end.

Definition event_kind_of_name (name : string) : option RaEventKind.OwnershipEventKind :=
  if String.eqb name "borrow_activate" then Some RaEventKind.BorrowActivate
  else if String.eqb name "borrow_end" then Some RaEventKind.BorrowEnd
  else if String.eqb name "borrow_mutable" then Some RaEventKind.BorrowMutable
  else if String.eqb name "borrow_shared" then Some RaEventKind.BorrowShared
  else if String.eqb name "clone" then Some RaEventKind.Clone
  else if String.eqb name "copy" then Some RaEventKind.Copy
  else if String.eqb name "drop" then Some RaEventKind.Drop
  else if String.eqb name "invalid_use" then Some RaEventKind.InvalidUse
  else if String.eqb name "last_use" then Some RaEventKind.LastUse
  else if String.eqb name "move" then Some RaEventKind.Move
  else if String.eqb name "partial_move" then Some RaEventKind.PartialMove
  else if String.eqb name "reinitialize" then Some RaEventKind.Reinitialize
  else None.

Definition state_name (state : OwnershipState.BorrowckOwnershipState) : string :=
  match state with
  | OwnershipState.Available => "available"
  | OwnershipState.Dropped => "dropped"
  | OwnershipState.Moved => "moved"
  | OwnershipState.MutablyBorrowed => "mutably_borrowed"
  | OwnershipState.PartiallyMoved => "partially_moved"
  | OwnershipState.SharedBorrowed => "shared_borrowed"
  | OwnershipState.Unknown => "unknown"
  end.

Definition state_of_name (name : string) : option RaState.OwnershipState :=
  if String.eqb name "available" then Some RaState.Available
  else if String.eqb name "dropped" then Some RaState.Dropped
  else if String.eqb name "moved" then Some RaState.Moved
  else if String.eqb name "mutably_borrowed" then Some RaState.MutablyBorrowed
  else if String.eqb name "partially_moved" then Some RaState.PartiallyMoved
  else if String.eqb name "shared_borrowed" then Some RaState.SharedBorrowed
  else None.

Definition read_event_kind (kind : EventKind.BorrowckOwnershipEventKind) :
    option RaEventKind.OwnershipEventKind :=
  event_kind_of_name (event_kind_name kind).

Definition read_state (state : OwnershipState.BorrowckOwnershipState) :
    option RaState.OwnershipState :=
  state_of_name (state_name state).

Definition read_span (span : SerializedBorrowckSpan) : OwnershipModelSpan :=
  mk_aspan (sspan_path span) (sspan_byte_start span) (sspan_byte_end span).

Definition read_binding (binding : SerializedBorrowckBinding) : OwnershipModelBinding :=
  mk_abinding (sbinding_path binding) (sbinding_byte_start binding) (sbinding_name binding).

Definition read_source (source : SerializedBorrowckRepairSource) : OwnershipModelSource :=
  mk_asource (ssource_path source) (ssource_source_hash source) (ssource_source source).

Definition read_block (block : SerializedBorrowckOwnershipBlock) : OwnershipModelBlock :=
  mk_ablock (oblock_basic_block block) (read_span (oblock_span block)) (oblock_successors block).

Definition read_body (body : SerializedBorrowckOwnershipBody) : OwnershipModelBody :=
  mk_abody (obody_body_id body) (obody_name body) (read_span (obody_span body))
    (read_block <$> obody_blocks body).

Definition read_layer (layer : SerializedBorrowckMemoryLayer) : OwnershipModelMemoryLayer :=
  mk_alayer (memory_kind_name (slayer_kind layer)) (memory_storage_name (slayer_storage layer))
    (slayer_label layer) (slayer_type_name layer) (slayer_size layer) (slayer_align layer)
    (slayer_provenance layer).

Definition read_binding_fact (fact : SerializedBorrowckOwnershipBinding) : OwnershipModelBindingFact :=
  mk_afact (obinding_body_id fact) (read_binding (obinding_binding fact)) (obinding_type_name fact)
    (obinding_size fact) (obinding_align fact) (read_layer <$> obinding_memory_layers fact).

Definition read_point (point : SerializedBorrowckOwnershipLoanPoint) : OwnershipModelLoanPoint :=
  mk_apoint (opoint_basic_block point) (opoint_statement_index point) (read_span (opoint_span point)).

Definition read_loan (loan : SerializedBorrowckOwnershipLoan) : OwnershipModelLoan :=
  mk_aloan (oloan_body_id loan) (oloan_loan_id loan) (loan_kind_name (oloan_kind loan))
    (read_binding (oloan_binding loan)) (oloan_place loan) (read_point (oloan_reserve loan))
    (read_point <$> oloan_activation loan) (read_point <$> oloan_live_points loan)
    (read_point <$> oloan_end_points loan) (oloan_truncated loan).

Definition read_destination (destination : SerializedBorrowckOwnershipDestination) :
    OwnershipModelDestination :=
  mk_adestination (destination_kind_name (odestination_kind destination))
    (odestination_label destination) (odestination_place destination)
    (read_span <$> odestination_span destination).

Definition read_event (event : SerializedBorrowckOwnershipEvent) : option OwnershipModelEvent :=
  kind ← read_event_kind (oevent_kind event);
  state ← read_state (oevent_state event);
  Some (mk_aevent (oevent_event_id event) (oevent_body_id event) (oevent_basic_block event)
          (oevent_statement_index event) kind state
          (oevent_path event) (oevent_byte_start event) (oevent_byte_end event)
          (read_binding (oevent_binding event)) (oevent_place event) (oevent_loan_id event)
          (oevent_detail event) (read_destination <$> oevent_destination event)).

Definition read_node (node : SerializedBorrowckMemoryNode) : option OwnershipModelMemoryNode :=
  state ← read_state (snode_state node);
  Some (mk_anode (snode_id node) (snode_body_id node) (snode_place node)
          (node_kind_name (snode_kind node)) (storage_region_name (snode_storage node))
          (snode_label node) (snode_type_name node) (snode_size node) (snode_align node)
          (read_span <$> snode_span node) state (provenance_name (snode_provenance node))
          (snode_physical_placement_note node) (snode_truncated node)).

Definition read_edge (edge : SerializedBorrowckMemoryEdge) : OwnershipModelMemoryEdge :=
  mk_aedge (sedge_id edge) (sedge_source edge) (sedge_target edge)
    (relation_name (sedge_relation edge)) (sedge_event_id edge) (sedge_loan_id edge)
    (read_span <$> sedge_span edge) (provenance_name (sedge_provenance edge))
    (sedge_path_marker edge).

Definition read_delta (delta : SerializedBorrowckStateDelta) : option OwnershipModelStateDelta :=
  from ← match sdelta_from delta with
         | Some state => Some <$> read_state state
         | None => Some None
         end;
  to ← read_state (sdelta_to delta);
  Some (mk_adelta (sdelta_node_id delta) from to (relation_name <$> sdelta_relation_added delta)
          (relation_name <$> sdelta_relation_removed delta)).

Definition read_snapshot (snapshot : SerializedBorrowckOwnershipSnapshot) :
    option OwnershipModelSnapshot :=
  deltas ← mapM read_delta (ssnapshot_deltas snapshot);
  Some (mk_asnapshot (ssnapshot_id snapshot) (ssnapshot_event_id snapshot)
          (ssnapshot_body_id snapshot) (ssnapshot_basic_block snapshot)
          (ssnapshot_statement_index snapshot) (snapshot_kind_name (ssnapshot_kind snapshot))
          (read_span (ssnapshot_span snapshot)) (ssnapshot_place snapshot)
          (ssnapshot_loan_id snapshot) (ssnapshot_path_marker snapshot) deltas
          (provenance_name (ssnapshot_provenance snapshot))).

Definition read_step (step : SerializedBorrowckAccessStep) : OwnershipModelAccessStep :=
  mk_astep (access_kind_name (sstep_kind step)) (sstep_starting_type step) (sstep_result_type step)
    (access_mutability_name (sstep_mutability step))
    (access_explicitness_name (sstep_explicitness step)) (sstep_fallible step)
    (sstep_may_panic step) (sstep_requires_unsafe step) (sstep_explanation step)
    (provenance_name (sstep_provenance step)).

Definition read_path (path : SerializedBorrowckAccessPath) : OwnershipModelAccessPath :=
  mk_apath (spath_id path) (spath_body_id path) (spath_node_id path) (spath_place path)
    (spath_purpose path) (read_step <$> spath_steps path) (provenance_name (spath_provenance path)).

Definition read_graph (graph : SerializedBorrowckMemoryGraph) : option OwnershipModelMemoryGraph :=
  nodes ← mapM read_node (sgraph_nodes graph);
  snapshots ← mapM read_snapshot (sgraph_snapshots graph);
  Some (mk_agraph nodes (read_edge <$> sgraph_edges graph) snapshots
          (read_path <$> sgraph_access_paths graph) (sgraph_truncated graph)).

Definition read_artifact (plan : SerializedBorrowckRepairPlan) : option OwnershipModelArtifact :=
  events ← mapM read_event (plan_ownership_events plan);
  graph ← read_graph (plan_memory_graph plan);
  Some (mk_artifact (plan_schema_version plan) (plan_target_triple plan)
          (read_source <$> plan_sources plan) events (read_body <$> plan_ownership_bodies plan)
          (read_binding_fact <$> plan_ownership_bindings plan)
          (read_loan <$> plan_ownership_loans plan) graph).
