(* ===== verification/AnalyzerModel.v ===== *)
(** * rust-analyzer: from a compiler artifact to an answer for the editor

    [prepare_ownership_model_artifacts] and [ownership_tutorial_model_for_source] of
    [rust-analyzer/crates/rust-analyzer/src/main_loop.rs], which tie the facts of an
    artifact to positions of the live sources, and the part of
    [handle_ownership_model] ([handlers/request.rs]) that selects what the editor is
    sent of them: events, bodies, bindings, loans and the memory graph.  Repairs,
    operations, the conflict graph and the source context of the answer come from
    other analyses and are not part of this file.

    What the analyzer knows of its files (the id of a path, the live text, its
    content hash) is the record [Snapshot].  Positions count UTF-16 code units, the
    encoding of a client that negotiates nothing else. *)

From Stdlib Require Import Ascii String.
From S2P Require Import Prelude RustStr RustColl RustPath Fnv CompilerData MemoryGraph RepairPlan AnalyzerData Autofix AutofixDriver.
From S2P Require Import Protocol.
From stdpp Require Import options.

(** ** Positions *)

(** The UTF-16 code units a byte of UTF-8 stands for: the first byte of a character
    carries them. *)
Definition utf16_units (c : ascii) : N :=
  let n := N_of_ascii c in
  if (n <? 128)%N then 1 else if (n <? 192)%N then 0 else if (n <? 240)%N then 1 else 2.

Definition advance (p : Position) (c : ascii) : Position :=
  if Ascii.eqb c (ascii_of_N 10) then mk_position (position_line p + 1) 0
  else mk_position (position_line p) (position_character p + utf16_units c).

Fixpoint advance_all (p : Position) (s : string) : Position :=
  match s with
  | EmptyString => p
  | String c s => advance_all (advance p c) s
  end.

(** [to_proto::position(line_index, offset)] *)
Definition lsp_position (text : string) (offset : N) : Position :=
  advance_all default_position (take_bytes (N.to_nat offset) text).

Definition lsp_range (text : string) (start end_ : N) : Range :=
  mk_range (lsp_position text start) (lsp_position text end_).

(** [TextSize::try_from] *)
Definition text_size (n : N) : option N := if (n <? 2 ^ 32)%N then Some n else None.

Definition on_boundaries (text : string) (start end_ : N) : bool :=
  negb ((str_len text <? end_)%N || (end_ <? start)%N || negb (is_char_boundary text start)
        || negb (is_char_boundary text end_)).

Definition ownership_model_byte_range (text : string) (byte_start byte_end : N) : option Range :=
  if negb (on_boundaries text byte_start byte_end) then None
  else
    start ← text_size byte_start;
    end_ ← text_size byte_end;
    Some (lsp_range text start end_).

Definition ownership_model_span_range (source : OwnershipModelSource) (text : string)
    (span : OwnershipModelSpan) : option Range :=
  if negb (path_eqb (aspan_path span) (asource_path source)) then None
  else ownership_model_byte_range text (aspan_byte_start span) (aspan_byte_end span).

Definition byte_slice (text : string) (start end_ : N) : string :=
  take_bytes (N.to_nat (end_ - start)) (default EmptyString (drop_bytes (N.to_nat start) text)).

Definition ownership_model_event_range (text : string) (byte_start byte_end : N)
    (binding_name : string) : option (N * N) :=
  if negb (on_boundaries text byte_start byte_end) then None
  else
    match rfind binding_name (byte_slice text byte_start byte_end) with
    | Some relative =>
        Some (byte_start + relative, byte_start + relative + str_len binding_name)%N
    | None => Some (byte_start, byte_end)
    end.

(** ** The facts of one source *)

Section source.
Variables (source : OwnershipModelSource) (text : string).

Definition tutorial_point (point : OwnershipModelLoanPoint) : option OwnershipTutorialLoanPoint :=
  range ← ownership_model_span_range source text (apoint_span point);
  Some (mk_tpoint (apoint_basic_block point) (apoint_statement_index point) range).

Definition tutorial_block (block : OwnershipModelBlock) : option OwnershipTutorialBlock :=
  range ← ownership_model_span_range source text (ablock_span block);
  Some (mk_tblock (ablock_basic_block block) range (ablock_successors block)).

Definition tutorial_body (body : OwnershipModelBody) : option OwnershipTutorialBody :=
  range ← ownership_model_span_range source text (abody_span body);
  Some (mk_tbody (abody_body_id body) (abody_name body) range
          (omap tutorial_block (abody_blocks body))).

(** [checked_add] of [usize] values. *)
Definition checked_add (a b : N) : option N := if (a + b <? 2 ^ 64)%N then Some (a + b)%N else None.

Definition tutorial_binding (fact : OwnershipModelBindingFact) : option OwnershipTutorialBinding :=
  let binding := afact_binding fact in
  if negb (path_eqb (abinding_path binding) (asource_path source)) then None
  else
    byte_end ← checked_add (abinding_byte_start binding) (str_len (abinding_name binding));
    range ← ownership_model_byte_range text (abinding_byte_start binding) byte_end;
    Some (mk_tbinding (afact_body_id fact) (abinding_name binding) range (afact_type_name fact)
            (afact_size fact) (afact_align fact) (afact_memory_layers fact)).

Definition tutorial_loan (loan : OwnershipModelLoan) : option OwnershipTutorialLoan :=
  if negb (path_eqb (abinding_path (aloan_binding loan)) (asource_path source)) then None
  else
    reserve ← tutorial_point (aloan_reserve loan);
    Some (mk_tloan (aloan_body_id loan) (aloan_loan_id loan) (aloan_kind loan)
            (abinding_name (aloan_binding loan)) (aloan_place loan) reserve
            (aloan_activation loan ≫= tutorial_point) (omap tutorial_point (aloan_live_points loan))
            (omap tutorial_point (aloan_end_points loan)) (aloan_truncated loan)).

(** A node without a span is kept; one whose span is not in this source is not. *)
Definition tutorial_node (node : OwnershipModelMemoryNode) : option OwnershipTutorialMemoryNode :=
  match anode_span node with
  | Some span =>
      range ← ownership_model_span_range source text span;
      Some (mk_tnode node (Some range))
  | None => Some (mk_tnode node None)
  end.

Definition tutorial_snapshot (snapshot : OwnershipModelSnapshot) : option OwnershipTutorialSnapshot :=
  range ← ownership_model_span_range source text (asnapshot_span snapshot);
  Some (mk_tsnapshot snapshot range).

Definition tutorial_graph (graph : OwnershipModelMemoryGraph) : OwnershipTutorialMemoryGraph :=
  let nodes := omap tutorial_node (agraph_nodes graph) in
  let node_is_present id := existsb (fun node => anode_id (tnode_node node) =s id) nodes in
  mk_tgraph nodes
    ((fun edge => mk_tedge edge (aedge_span edge ≫= ownership_model_span_range source text))
       <$> retain (fun edge => node_is_present (aedge_source edge) && node_is_present (aedge_target edge))
             (agraph_edges graph))
    (omap tutorial_snapshot (agraph_snapshots graph))
    (retain (fun path => node_is_present (apath_node_id path)) (agraph_access_paths graph))
    (agraph_truncated graph).

Definition ownership_tutorial_model_for_source (artifact : OwnershipModelArtifact) :
    OwnershipTutorialModel :=
  mk_tmodel (artifact_schema_version artifact) (artifact_target_triple artifact)
    (omap tutorial_body (artifact_ownership_bodies artifact))
    (omap tutorial_binding (artifact_ownership_bindings artifact))
    (omap tutorial_loan (artifact_ownership_loans artifact))
    (tutorial_graph (artifact_memory_graph artifact)).

(** The range of a destination, which is not checked for character boundaries. *)
Definition destination_span_range (span : OwnershipModelSpan) : option Range :=
  if negb (path_eqb (aspan_path span) (asource_path source))
     || (aspan_byte_end span <? aspan_byte_start span)%N
     || (str_len text <? aspan_byte_end span)%N then None
  else
    start ← text_size (aspan_byte_start span);
    end_ ← text_size (aspan_byte_end span);
    Some (lsp_range text start end_).

Definition prepared_event (event : OwnershipModelEvent) : option AnalyzerData.OwnershipEvent :=
  if negb (path_eqb (aevent_path event) (asource_path source)) then None
  else
    let binding := aevent_binding event in
    '(event_start, event_end) ←
      ownership_model_event_range text (aevent_byte_start event) (aevent_byte_end event)
        (abinding_name binding);
    binding_end ← checked_add (abinding_byte_start binding) (str_len (abinding_name binding));
    if (str_len text <? binding_end)%N || negb (is_char_boundary text (abinding_byte_start binding))
       || negb (is_char_boundary text binding_end) then None
    else
      event_start ← text_size event_start;
      event_end ← text_size event_end;
      binding_start ← text_size (abinding_byte_start binding);
      binding_end ← text_size binding_end;
      Some (mk_ev (aevent_event_id event) (aevent_body_id event) (aevent_basic_block event)
              (aevent_statement_index event) (aevent_kind event) (aevent_state event)
              (lsp_range text event_start event_end) (lsp_range text binding_start binding_end)
              (abinding_name binding) (aevent_place event) (aevent_loan_id event) true
              (aevent_detail event)
              ((fun destination =>
                  mk_evdest (adestination_kind destination) (adestination_label destination)
                    (adestination_place destination)
                    (adestination_span destination ≫= destination_span_range))
               <$> aevent_destination event)).
End source.

(** ** Preparing artifacts *)

Definition FileId : Type := N.

(** [GlobalStateSnapshot]: what the preparation looks up. *)
Record Snapshot : Type := mk_snapshot {
  url_to_file_id : PathBuf -> option FileId;
  file_text : FileId -> option string;
  file_content_hash : FileId -> option N
}.

Record PreparedOwnershipFile : Type := mk_prepared {
  prepared_uri : PathBuf;
  prepared_file_id : FileId;
  prepared_vfs_hash : N;
  prepared_source_hash : string;
  prepared_schema_version : N;
  prepared_events : list AnalyzerData.OwnershipEvent;
  prepared_model : option OwnershipTutorialModel
}.

Definition model_is_empty (model : OwnershipTutorialModel) : bool :=
  is_nil (tmodel_bodies model) && is_nil (tmodel_bindings model) && is_nil (tmodel_loans model)
  && is_nil (tgraph_nodes (tmodel_memory_graph model)).

Definition prepare_source (snap : Snapshot) (artifact : OwnershipModelArtifact)
    (source : OwnershipModelSource) : option PreparedOwnershipFile :=
  file_id ← url_to_file_id snap (asource_path source);
  live ← file_text snap file_id;
  vfs_hash ← file_content_hash snap file_id;
  let source_hash := stable_source_hash live in
  let artifact_source_hash :=
    default (asource_source_hash source) (stable_source_hash <$> asource_source source) in
  if negb (source_hash =s artifact_source_hash) then None
  else
    let text := default live (asource_source source) in
    let model := ownership_tutorial_model_for_source source text artifact in
    Some (mk_prepared (asource_path source) file_id vfs_hash source_hash
            (artifact_schema_version artifact)
            (omap (prepared_event source text) (artifact_ownership_events artifact))
            (if model_is_empty model then None else Some model)).

Definition prepare_artifact (snap : Snapshot) (prepared : gmap FileId PreparedOwnershipFile)
    (artifact : option OwnershipModelArtifact) : gmap FileId PreparedOwnershipFile :=
  match artifact with
  | Some artifact =>
      if (2 <=? artifact_schema_version artifact)%N && (artifact_schema_version artifact <=? 7)%N then
        foldl (fun prepared source =>
                 match prepare_source snap artifact source with
                 | Some file => <[prepared_file_id file := file]> prepared
                 | None => prepared
                 end)
          prepared (artifact_sources artifact)
      else prepared
  | None => prepared
  end.

(** The artifacts are what reading the paths gives, [None] where it fails. *)
Definition prepare_ownership_model_artifacts (snap : Snapshot)
    (artifacts : list (option OwnershipModelArtifact)) : list PreparedOwnershipFile :=
  snd <$> map_to_list (foldl (prepare_artifact snap) ∅ artifacts).

(** ** What is selected *)

Definition ranges_touch (left right : Range) : bool :=
  position_leb (range_start left) (range_end right) && position_leb (range_start right) (range_end left).

Definition ownership_name_refers_to_binding (place binding : string) : bool :=
  (place =s binding)
  || match strip_prefix binding place with
     | Some suffix => starts_with "." suffix || starts_with "[" suffix
     | None => false
     end.

(** [opt.is_none_or(p)] *)
Definition is_none_or {A} (o : option A) (p : A -> bool) : bool :=
  match o with
  | Some a => p a
  | None => true
  end.

Definition ownership_selection_context (selected : option AnalyzerData.OwnershipEvent)
    (tutorial : OwnershipTutorialModel) (request_range : Range) : option N * option string :=
  let selected_binding :=
    or_else
      (event ← selected;
       find_first (fun binding =>
         ((ev_body_id event =? 0)%N || (tbinding_body_id binding =? ev_body_id event)%N)
         && (ownership_name_refers_to_binding (ev_name event) (tbinding_name binding)
             || ownership_name_refers_to_binding (ev_place event) (tbinding_name binding)))
         (tmodel_bindings tutorial))
      (fun _ => find_first (fun binding => ranges_touch (tbinding_range binding) request_range)
                  (tmodel_bindings tutorial)) in
  let body_id :=
    or_else
      (event ← selected; if (ev_body_id event =? 0)%N then None else Some (ev_body_id event))
      (fun _ => tbinding_body_id <$> selected_binding) in
  let name := or_else (tbinding_name <$> selected_binding) (fun _ => ev_name <$> selected) in
  (body_id, name).

Definition ownership_event_in_context (event : AnalyzerData.OwnershipEvent)
    (selected : option AnalyzerData.OwnershipEvent) (selected_body_id : option N)
    (selected_name : option string) : bool :=
  match selected, selected_body_id with
  | None, _ =>
      is_none_or selected_body_id (fun body_id =>
        (ev_body_id event =? 0)%N || (ev_body_id event =? body_id)%N)
      && is_none_or selected_name (fun name =>
           ownership_name_refers_to_binding (ev_name event) name
           || ownership_name_refers_to_binding (ev_place event) name
           || ownership_name_refers_to_binding name (ev_name event))
  | Some selected, None => ev_name event =s ev_name selected
  | Some _, Some body_id =>
      (ev_body_id event =? body_id)%N
      || ((ev_body_id event =? 0)%N
          && match selected_name with
             | Some name =>
                 ownership_name_refers_to_binding (ev_name event) name
                 || ownership_name_refers_to_binding (ev_place event) name
             | None => false
             end)
  end.

(** ** Codes *)

Definition ownership_kind_code (kind : RaEventKind.OwnershipEventKind) : string :=
  match kind with
  | RaEventKind.BorrowActivate => "borrow_activate"
  | RaEventKind.BorrowEnd => "borrow_end"
  | RaEventKind.BorrowMutable => "borrow_mutable"
  | RaEventKind.BorrowShared => "borrow_shared"
  | RaEventKind.Clone => "clone"
  | RaEventKind.Copy => "copy"
  | RaEventKind.Drop => "drop"
  | RaEventKind.InvalidUse => "invalid_use"
  | RaEventKind.LastUse => "last_use"
  | RaEventKind.Move => "move"
  | RaEventKind.PartialMove => "partial_move"
  | RaEventKind.Reinitialize => "reinitialize"
  end.

Definition ownership_state_code (state : RaState.OwnershipState) : string :=
  match state with
  | RaState.Available => "available"
  | RaState.Dropped => "dropped"
  | RaState.Moved => "moved"
  | RaState.MutablyBorrowed => "mutably_borrowed"
  | RaState.PartiallyMoved => "partially_moved"
  | RaState.SharedBorrowed => "shared_borrowed"
  end.

(** ** What is sent *)

Definition MAX_INTERACTIVE_EVENTS : N := 256.
Definition MAX_INTERACTIVE_BLOCKS : N := 512.
Definition MAX_INTERACTIVE_BINDINGS : N := 64.
Definition MAX_INTERACTIVE_LOANS : N := 64.
Definition MAX_INTERACTIVE_MEMORY_NODES : N := 128.
Definition MAX_INTERACTIVE_MEMORY_EDGES : N := 256.
Definition MAX_INTERACTIVE_SNAPSHOTS : N := 256.
Definition MAX_INTERACTIVE_ACCESS_PATHS : N := 64.

Definition event_to_lsp (event : AnalyzerData.OwnershipEvent) : Protocol.OwnershipEvent :=
  mk_event (ev_event_id event) (ev_body_id event) (ev_basic_block event) (ev_statement_index event)
    (ownership_kind_code (ev_kind event)) (ownership_state_code (ev_state event)) (ev_place event)
    (ev_loan_id event) (ev_range event) (ev_binding_range event) (ev_detail event)
    ((fun destination =>
        mk_destination (evdest_kind destination) (evdest_label destination) (evdest_place destination)
          (evdest_range destination))
     <$> ev_destination event).

Definition body_to_lsp (body : OwnershipTutorialBody) : OwnershipBody :=
  mk_body (tbody_body_id body) (tbody_name body) (tbody_range body)
    ((fun block => mk_block (tblock_basic_block block) (tblock_range block) (tblock_successors block))
     <$> take_N MAX_INTERACTIVE_BLOCKS (tbody_blocks body))
    "compiler_exact".

Definition layer_to_lsp (layer : OwnershipModelMemoryLayer) : OwnershipMemoryLayer :=
  mk_layer (alayer_kind layer) (alayer_storage layer) (alayer_label layer) (alayer_type_name layer)
    (alayer_size layer) (alayer_align layer) (alayer_provenance layer).

Definition binding_to_lsp (binding : OwnershipTutorialBinding) : OwnershipBinding :=
  mk_binding (format_016x (tbinding_body_id binding) +:+ "-" +:+ tbinding_name binding)
    (tbinding_body_id binding) (tbinding_name binding) (tbinding_range binding)
    (tbinding_type_name binding) (tbinding_size binding) (tbinding_align binding)
    (layer_to_lsp <$> tbinding_memory_layers binding) "compiler_exact".

Definition point_to_lsp (point : OwnershipTutorialLoanPoint) : OwnershipLoanPoint :=
  mk_loan_point (tpoint_basic_block point) (tpoint_statement_index point) (tpoint_range point).

Definition ownership_loan_to_lsp (loan : OwnershipTutorialLoan) : OwnershipLoan :=
  mk_loan (tloan_body_id loan) (tloan_loan_id loan) (tloan_kind loan) (tloan_name loan)
    (tloan_place loan) (point_to_lsp (tloan_reserve loan)) (point_to_lsp <$> tloan_activation loan)
    (point_to_lsp <$> take_N 512 (tloan_live_points loan))
    (point_to_lsp <$> take_N 64 (tloan_end_points loan))
    (tloan_truncated loan || (512 <? len (tloan_live_points loan))%N
     || (64 <? len (tloan_end_points loan))%N)
    "compiler_exact".

Definition node_to_lsp (node : OwnershipTutorialMemoryNode) : OwnershipMemoryNode :=
  let n := tnode_node node in
  mk_mnode (anode_id n) (anode_body_id n) (anode_place n) (anode_kind n) (anode_storage n)
    (anode_label n) (anode_type_name n) (anode_size n) (anode_align n) (tnode_range node)
    (ownership_state_code (anode_state n)) (anode_provenance n) (anode_physical_placement_note n)
    (anode_truncated n).

(** An edge without a range of its own takes that of its event. *)
Definition edge_to_lsp (events : list Protocol.OwnershipEvent) (edge : OwnershipTutorialMemoryEdge) :
    OwnershipMemoryEdge :=
  let e := tedge_edge edge in
  mk_medge (aedge_id e) (aedge_source e) (aedge_target e) (aedge_relation e) (aedge_event_id e)
    (aedge_loan_id e)
    (or_else (tedge_range edge) (fun _ =>
       event_id ← aedge_event_id e;
       event_range <$> find_first (fun event => event_event_id event =s event_id) events))
    (aedge_provenance e) (aedge_path_marker e).

Definition delta_to_lsp (delta : OwnershipModelStateDelta) : OwnershipStateDelta :=
  mk_delta (adelta_node_id delta) (ownership_state_code <$> adelta_from delta)
    (ownership_state_code (adelta_to delta)) (adelta_relation_added delta)
    (adelta_relation_removed delta).

Definition snapshot_to_lsp (snapshot : OwnershipTutorialSnapshot) : OwnershipMemorySnapshot :=
  let s := tsnapshot_snapshot snapshot in
  mk_msnapshot (asnapshot_id s) (asnapshot_event_id s) (asnapshot_body_id s)
    (asnapshot_basic_block s) (asnapshot_statement_index s) (asnapshot_kind s)
    (tsnapshot_range snapshot) (asnapshot_place s) (asnapshot_loan_id s) (asnapshot_path_marker s)
    (delta_to_lsp <$> asnapshot_deltas s) (asnapshot_provenance s).

Definition step_to_lsp (step : OwnershipModelAccessStep) : OwnershipAccessStep :=
  mk_step (astep_kind step) (astep_starting_type step) (astep_result_type step)
    (astep_mutability step) (astep_explicitness step) (astep_fallible step) (astep_may_panic step)
    (astep_requires_unsafe step) (astep_explanation step) (astep_provenance step).

Definition path_to_lsp (path : OwnershipModelAccessPath) : OwnershipAccessPath :=
  mk_path (apath_id path) (apath_body_id path) (apath_node_id path) (apath_place path)
    (apath_purpose path) (step_to_lsp <$> apath_steps path) (apath_provenance path).

Section answer.
Variables (tutorial : OwnershipTutorialModel) (selected_body_id : option N)
  (selected_name : option string).

Definition in_body (body_id : N) : bool :=
  is_none_or selected_body_id (fun selected => (body_id =? selected)%N).

Definition is_named (name : string) : bool :=
  is_none_or selected_name (fun selected => name =s selected).

(** A place is the selected one, part of it, or holds it. *)
Definition concerns (place : string) : bool :=
  is_none_or selected_name (fun name =>
    ownership_name_refers_to_binding name place || ownership_name_refers_to_binding place name).

(** *** The connected component of the selection *)

(** One pass over the edges, in order, both ways. *)
Definition sweep_edge (ids : gset string) (edge : OwnershipTutorialMemoryEdge) : gset string :=
  let e := tedge_edge edge in
  let ids := if bool_decide (aedge_source e ∈ ids) then {[aedge_target e]} ∪ ids else ids in
  if bool_decide (aedge_target e ∈ ids) then {[aedge_source e]} ∪ ids else ids.

Definition sweep (edges : list OwnershipTutorialMemoryEdge) (ids : gset string) : gset string :=
  foldl sweep_edge ids edges.

(** At most [rounds] passes, until one adds nothing. *)
Fixpoint sweeps (rounds : nat) (edges : list OwnershipTutorialMemoryEdge) (ids : gset string) :
    gset string :=
  match rounds with
  | O => ids
  | S rounds =>
      let next := sweep edges ids in
      if size next =? size ids then next else sweeps rounds edges next
  end.

Definition selected_node_ids : gset string :=
  list_to_set ((fun node => anode_id (tnode_node node)) <$>
    retain (fun node => in_body (anode_body_id (tnode_node node))
                        && concerns (anode_place (tnode_node node)))
      (tgraph_nodes (tmodel_memory_graph tutorial))).

Definition relevant_memory_node_ids : gset string :=
  match selected_name with
  | None =>
      list_to_set ((fun node => anode_id (tnode_node node)) <$>
        retain (fun node => in_body (anode_body_id (tnode_node node)))
          (tgraph_nodes (tmodel_memory_graph tutorial)))
      ∪ selected_node_ids
  | Some _ => sweeps 12 (tgraph_edges (tmodel_memory_graph tutorial)) selected_node_ids
  end.

Definition memory_node_matches (relevant : gset string) (node : OwnershipTutorialMemoryNode) : bool :=
  in_body (anode_body_id (tnode_node node)) && bool_decide (anode_id (tnode_node node) ∈ relevant).

Definition matching_nodes : list OwnershipTutorialMemoryNode :=
  retain (memory_node_matches relevant_memory_node_ids) (tgraph_nodes (tmodel_memory_graph tutorial)).

Definition memory_nodes : list OwnershipMemoryNode :=
  node_to_lsp <$> take_N MAX_INTERACTIVE_MEMORY_NODES matching_nodes.

Definition memory_node_is_present (nodes : list OwnershipMemoryNode) (id : string) : bool :=
  existsb (fun node => mnode_id node =s id) nodes.

Definition edge_is_present (nodes : list OwnershipMemoryNode) (edge : OwnershipTutorialMemoryEdge) : bool :=
  memory_node_is_present nodes (aedge_source (tedge_edge edge))
  && memory_node_is_present nodes (aedge_target (tedge_edge edge)).

Definition matching_edges : list OwnershipTutorialMemoryEdge :=
  retain (edge_is_present memory_nodes) (tgraph_edges (tmodel_memory_graph tutorial)).

Definition matching_snapshots : list OwnershipTutorialSnapshot :=
  retain (fun snapshot => in_body (asnapshot_body_id (tsnapshot_snapshot snapshot))
                          && concerns (asnapshot_place (tsnapshot_snapshot snapshot)))
    (tgraph_snapshots (tmodel_memory_graph tutorial)).

Definition matching_paths : list OwnershipModelAccessPath :=
  retain (compose (memory_node_is_present memory_nodes) apath_node_id)
    (tgraph_access_paths (tmodel_memory_graph tutorial)).

Definition served_memory_graph (events : list Protocol.OwnershipEvent) : OwnershipMemoryGraph :=
  mk_graph memory_nodes
    (edge_to_lsp events <$> take_N MAX_INTERACTIVE_MEMORY_EDGES matching_edges)
    (snapshot_to_lsp <$> take_N MAX_INTERACTIVE_SNAPSHOTS matching_snapshots)
    (path_to_lsp <$> take_N MAX_INTERACTIVE_ACCESS_PATHS matching_paths)
    (tgraph_truncated (tmodel_memory_graph tutorial)).

(** *** The other tables *)

Definition matching_bodies : list OwnershipTutorialBody :=
  retain (fun body => in_body (tbody_body_id body)) (tmodel_bodies tutorial).

Definition matching_bindings : list OwnershipTutorialBinding :=
  retain (fun binding => in_body (tbinding_body_id binding) && is_named (tbinding_name binding))
    (tmodel_bindings tutorial).

Definition matching_loans : list OwnershipTutorialLoan :=
  retain (fun loan => in_body (tloan_body_id loan) && is_named (tloan_name loan))
    (tmodel_loans tutorial).

Definition served_bodies : list OwnershipBody := body_to_lsp <$> matching_bodies.

Definition served_bindings : list OwnershipBinding :=
  binding_to_lsp <$> take_N MAX_INTERACTIVE_BINDINGS matching_bindings.

Definition served_loans : list OwnershipLoan :=
  ownership_loan_to_lsp <$> take_N MAX_INTERACTIVE_LOANS matching_loans.

Definition matching_events (selected : option AnalyzerData.OwnershipEvent)
    (all_events : list AnalyzerData.OwnershipEvent) : list Protocol.OwnershipEvent :=
  event_to_lsp <$>
    retain (fun event => ownership_event_in_context event selected selected_body_id selected_name)
      all_events.

Definition served_events (selected : option AnalyzerData.OwnershipEvent)
    (all_events : list AnalyzerData.OwnershipEvent) : list Protocol.OwnershipEvent :=
  truncate MAX_INTERACTIVE_EVENTS (matching_events selected all_events).

(** [response_truncated], as far as these tables set it. *)
Definition facts_truncated (selected : option AnalyzerData.OwnershipEvent)
    (all_events : list AnalyzerData.OwnershipEvent) : bool :=
  (MAX_INTERACTIVE_EVENTS <? len (matching_events selected all_events))%N
  || existsb (fun body => (MAX_INTERACTIVE_BLOCKS <? len (tbody_blocks body))%N) matching_bodies
  || (MAX_INTERACTIVE_BINDINGS <? len matching_bindings)%N
  || (MAX_INTERACTIVE_LOANS <? len matching_loans)%N
  || existsb (fun loan => (512 <? len (tloan_live_points loan))%N
                          || (64 <? len (tloan_end_points loan))%N) matching_loans
  || (MAX_INTERACTIVE_MEMORY_NODES <? len matching_nodes)%N
  || (MAX_INTERACTIVE_MEMORY_EDGES <? len matching_edges)%N
  || (MAX_INTERACTIVE_SNAPSHOTS <? len matching_snapshots)%N
  || (MAX_INTERACTIVE_ACCESS_PATHS <? len matching_paths)%N
  || tgraph_truncated (tmodel_memory_graph tutorial).
End answer.

(** ** The answer *)

(** The parts of the answer that come from other analyses. *)
Record OtherFacts : Type := mk_other {
  other_selected_problem_id : option string;
  other_selected_place : option string;
  other_value_trace : list OwnershipValueTraceStep;
  other_repairs : list OwnershipRepair;
  other_operations : list OwnershipOperationInsight;
  other_mutation_requirement : option OwnershipMutationRequirement;
  other_conflict_graph : option OwnershipConflictGraph;
  other_source_context : option OwnershipSourceContext;
  other_c_sketch : option OwnershipCSketch;
  other_truncated : bool
}.

(** The end of [handle_ownership_model]; a diagnostic is selected exactly when the
    answer names its problem. *)
Definition ownership_model_result (tutorial : OwnershipTutorialModel)
    (selected : option AnalyzerData.OwnershipEvent) (selected_body_id : option N)
    (selected_name : option string) (all_events : list AnalyzerData.OwnershipEvent)
    (source : string) (other : OtherFacts) : OwnershipModel :=
  let events := served_events selected_body_id selected_name selected all_events in
  let exact_events :=
    existsb (fun event =>
      match find_first (fun candidate => ev_event_id candidate =s event_event_id event) all_events with
      | Some event => ev_exact event
      | None => false
      end) events in
  let bodies := served_bodies tutorial selected_body_id in
  let bindings := served_bindings tutorial selected_body_id selected_name in
  let loans := served_loans tutorial selected_body_id selected_name in
  let memory_graph := served_memory_graph tutorial selected_body_id selected_name events in
  let has_tutorial_facts :=
    negb (is_nil bodies) || negb (is_nil bindings) || negb (is_nil loans)
    || negb (is_nil (graph_nodes memory_graph)) in
  let exact := exact_events || ((3 <=? tmodel_schema_version tutorial)%N && has_tutorial_facts) in
  mk_model (N.max (tmodel_schema_version tutorial) 14) (tmodel_schema_version tutorial)
    (tmodel_target_triple tutorial)
    (if exact then "compiler_exact" else "estimated")
    (if is_nil events && negb has_tutorial_facts && negb (is_some (other_selected_problem_id other))
     then "waiting_for_compiler" else "ready")
    (facts_truncated tutorial selected_body_id selected_name selected all_events
     || other_truncated other)
    (stable_source_hash source) (other_selected_problem_id other) (other_selected_place other)
    events (other_value_trace other) (other_repairs other) bodies bindings loans memory_graph
    (other_operations other) (other_mutation_requirement other) (other_conflict_graph other)
    (other_source_context other) (other_c_sketch other).
