(* ===== verification/PipelineSpec.v ===== *)
(** * From the compiler's graph to the editor's validator

    The compiler writes a memory graph, rust-analyzer reads it, ties it to a source,
    cuts it to the selection and sends it, and the editor validates what it gets
    before it shows anything.  Here is what of the editor's demands the two other
    programs guarantee, and what they do not. *)

From Stdlib Require Import Ascii String.
From S2P Require Import Prelude RustStr RustColl RustPath CompilerData MemoryGraph MemoryGraphSpec RepairPlan RepairPlanSpec AnalyzerData AnalyzerModel.
From S2P Require Import Protocol Bridge BridgeSpec.
From stdpp Require Import options.

#[local] Arguments String.append !_ _ / : assert.

(** ** What is in a graph the compiler builds *)

(** Every state is one the analyzer can read, every id is written, and deltas and
    steps are few. *)
Definition known (state : OwnershipState.BorrowckOwnershipState) : Prop :=
  state <> OwnershipState.Unknown.

Definition node_item (node : SerializedBorrowckMemoryNode) : Prop :=
  snode_id node <> "" /\ known (snode_state node).

Definition edge_item (edge : SerializedBorrowckMemoryEdge) : Prop := sedge_id edge <> "".

Definition delta_item (delta : SerializedBorrowckStateDelta) : Prop :=
  sdelta_from delta = None /\ known (sdelta_to delta).

Definition snapshot_item (snapshot : SerializedBorrowckOwnershipSnapshot) : Prop :=
  ssnapshot_id snapshot <> "" /\ (len (ssnapshot_deltas snapshot) <= 2)%N /\
  Forall delta_item (ssnapshot_deltas snapshot).

Definition path_item (path : SerializedBorrowckAccessPath) : Prop :=
  spath_id path <> "" /\ (len (spath_steps path) <= 4)%N.

Record items (g : SerializedBorrowckMemoryGraph) : Prop := {
  items_nodes : Forall node_item (sgraph_nodes g);
  items_edges : Forall edge_item (sgraph_edges g);
  items_snapshots : Forall snapshot_item (sgraph_snapshots g);
  items_paths : Forall path_item (sgraph_access_paths g)
}.

Lemma graph_id_nonempty prefix identity : graph_id prefix identity <> "".
Proof. unfold graph_id. by destruct prefix. Qed.

Lemma push_node_items node g : items g -> node_item node -> items (push_node node g).
Proof. intros []. split; simpl; rewrite ?Forall_app, ?Forall_singleton; done. Qed.
Lemma push_edge_items edge g : items g -> edge_item edge -> items (push_edge edge g).
Proof. intros []. split; simpl; rewrite ?Forall_app, ?Forall_singleton; done. Qed.
Lemma push_snapshot_items snapshot g :
  items g -> snapshot_item snapshot -> items (push_snapshot snapshot g).
Proof. intros []. split; simpl; rewrite ?Forall_app, ?Forall_singleton; done. Qed.
Lemma extend_items paths g : items g -> Forall path_item paths -> items (extend_access_paths paths g).
Proof. intros []. split; simpl; rewrite ?Forall_app; done. Qed.
Lemma or_truncated_items b g : items g -> items (or_truncated b g).
Proof. by intros []. Qed.

Lemma Forall_retain {A} (P : A -> Prop) p l : Forall P l -> Forall P (retain p l).
Proof. rewrite !Forall_forall. intros H x [_ Hx]%elem_of_retain. auto. Qed.

Lemma remove_items g allocation : items g -> items (remove_duplicate_allocation g allocation).
Proof. intros []. split; simpl; auto using Forall_retain. Qed.

Create HintDb items.
#[local] Hint Resolve push_node_items push_edge_items push_snapshot_items extend_items
  or_truncated_items remove_items graph_id_nonempty : items.
#[local] Hint Extern 1 (edge_item _) => unfold edge_item; simpl; apply graph_id_nonempty : items.

Lemma ensure_place_items g bindings body place span provenance :
  items g -> items (ensure_place_node g bindings body place span provenance).1.
Proof.
  intros H. unfold ensure_place_node. destruct (find_binding_node_id _ _ _); [|done].
  destruct (String.eqb _ _); [done|]. destruct (existsb _ _); [done|]. simpl.
  apply push_edge_items; [|auto with items]. apply push_node_items; [done|].
  split; [apply graph_id_nonempty|done].
Qed.

Lemma add_layers_items binding id index previous layers g :
  id <> "" -> items g -> items (add_layers binding id index previous layers g).
Proof.
  intros Hid. revert index previous g. induction layers as [|layer layers IH]; intros index previous g H;
    simpl; [done|]. apply IH.
  assert (items (push_node (layer_node binding (layer_id id index layer) index layer) g)).
  { apply push_node_items; [done|]. split; [|done]. simpl. unfold layer_id.
    destruct (index =? 0)%N; auto with items. }
  destruct previous; auto with items.
Qed.

Lemma access_paths_items binding id : Forall path_item (access_paths_for_binding binding id).
Proof.
  unfold access_paths_for_binding. apply Forall_fmap.
  assert (forall ty inner, Forall (fun plan : string * list SerializedBorrowckAccessStep =>
    (len plan.2 <= 4)%N) (access_plans ty inner)) as H.
  { intros ty inner. unfold access_plans.
    repeat match goal with
      | |- Forall _ (if ?b then _ else _) =>
          destruct b; [cbv zeta; repeat (apply Forall_cons; split; [unfold len; simpl; lia|]);
                       by apply Forall_nil|]
      end. by apply Forall_nil. }
  eapply Forall_impl; [apply H|]. intros plan Hp. split; [apply graph_id_nonempty|exact Hp].
Qed.

Lemma add_binding_items bindings g binding : items g -> items (add_binding bindings g binding).
Proof.
  intros H. unfold add_binding. apply extend_items; [|apply access_paths_items].
  apply push_snapshot_items.
  - apply or_truncated_items, add_layers_items; [apply graph_id_nonempty|done].
  - split_and!; simpl; [apply graph_id_nonempty|done|by repeat constructor].
Qed.

Lemma link_clone_items bindings source destination g :
  items g -> items (link_clone bindings source destination g).
Proof.
  intros H. unfold link_clone. destruct (allocation_link_for_root _ _) as [[[? ?] ?]|]; [|done].
  destruct (negb _); [done|]. destruct (allocation_link_for_root _ _) as [[[? ?] ?]|]; [|done].
  apply push_snapshot_items; [auto with items|].
  split_and!; simpl; [apply graph_id_nonempty|done|by repeat constructor].
Qed.

Lemma add_loan_items bindings g loan : items g -> items (add_loan bindings g loan).
Proof.
  intros H. unfold add_loan.
  pose proof (ensure_place_items g bindings (oloan_body_id loan) (oloan_place loan)
    (Some (opoint_span (oloan_reserve loan))) Provenance.Exact H) as Hp.
  destruct (ensure_place_node _ _ _ _ _ _) as [g' [root|]]; simpl in *; [|done].
  apply push_edge_items; [|auto with items]. apply push_node_items; [done|].
  split; [apply graph_id_nonempty|]. simpl. by destruct (oloan_kind loan).
Qed.

Lemma ensure_destination_items bindings event g :
  items g -> items (ensure_destination bindings event g).1.
Proof.
  intros H. unfold ensure_destination. destruct (oevent_destination event); [|done].
  destruct (odestination_place _); [|done]. by apply ensure_place_items.
Qed.

Lemma move_allocation_items event node target g :
  items g -> items (move_allocation event node target g).1 /\
  (len (move_allocation event node target g).2 <= 1)%N /\
  Forall delta_item (move_allocation event node target g).2.
Proof.
  intros H. unfold move_allocation.
  destruct (allocation_link_for_root _ _) as [[[? ?] ?]|]; [|by split_and!].
  destruct (allocation_link_for_root _ _) as [[[? ?] ?]|]; [|by split_and!].
  split_and!; simpl; [auto with items|done|by repeat constructor].
Qed.

Lemma add_move_items bindings event node g :
  items g -> items (add_move bindings event node g).1 /\
  (len (add_move bindings event node g).2 <= 1)%N /\
  Forall delta_item (add_move bindings event node g).2.
Proof.
  intros H. unfold add_move. pose proof (ensure_destination_items bindings event g H) as Hd.
  destruct (oevent_kind event); try by split_and!.
  all: destruct (ensure_destination _ _ _) as [g' [target|]]; simpl in *; [|by split_and!].
  all: rewrite ?bool_decide_true, ?bool_decide_false by done.
  all: first [apply move_allocation_items|split_and!; simpl; try done]; auto with items.
Qed.

Lemma add_clone_items bindings event node g : items g -> items (add_clone bindings event node g).
Proof.
  intros H. unfold add_clone. destruct (negb _); [done|].
  pose proof (ensure_destination_items bindings event g H) as Hd.
  destruct (ensure_destination _ _ _) as [g' [target|]]; simpl in *; [|done].
  destruct (allocation_link_for_root _ _) as [[[? ?] ?]|]; [|done]. destruct (negb _); [done|].
  destruct (allocation_link_for_root _ _) as [[[? ?] ?]|]; auto with items.
Qed.

Lemma add_event_items bindings g event :
  known (oevent_state event) -> items g -> items (add_event bindings g event).
Proof.
  intros Hk H. unfold add_event.
  pose proof (ensure_place_items g bindings (oevent_body_id event) (oevent_place event)
    (Some (event_span event)) Provenance.Exact H) as Hp.
  destruct (ensure_place_node _ _ _ _ _ _) as [g' [node|]]; simpl in *; [|done].
  destruct (add_move_items bindings event node g' Hp) as (Hg & Hl & Hd).
  destruct (add_move _ _ _ _) as [g2 deltas]. simpl in *.
  apply push_snapshot_items; [by apply add_clone_items|].
  split_and!; simpl; [apply graph_id_nonempty| |by constructor]. unfold len in *. simpl. lia.
Qed.

Lemma foldl_items {A} (f : SerializedBorrowckMemoryGraph -> A -> SerializedBorrowckMemoryGraph) l g :
  (forall g x, x ∈ l -> items g -> items (f g x)) -> items g -> items (foldl f g l).
Proof.
  revert g. induction l as [|x l IH]; intros g Hf H; simpl; [done|].
  apply IH; [intros; apply Hf; set_solver|]. apply Hf; [set_solver|done].
Qed.

Lemma fold_result_items {A} (f : SerializedBorrowckMemoryGraph -> A -> result SerializedBorrowckMemoryGraph)
    l g g' :
  (forall g x g', items g -> f g x = Ok g' -> items g') -> items g ->
  fold_result f g l = Ok g' -> items g'.
Proof.
  intros Hf. revert g. induction l as [|x l IH]; intros g H; simpl; [by intros [= <-]|].
  intros (g1 & Hx & Hl)%bind_ok. eauto.
Qed.

Lemma finish_items g : items g -> items (finish_graph g).
Proof.
  intros [Hn He Hs Hp]. unfold finish_graph. split; simpl.
  - rewrite Forall_forall in *. intros x Hx. apply Hn. unfold order_nodes in Hx.
    eapply elem_of_sublist in Hx; [|apply truncate_sublist].
    by apply elem_of_dedup_by, elem_of_sort_by in Hx.
  - rewrite Forall_forall in *. intros x Hx. apply He. unfold order_edges in Hx.
    eapply elem_of_sublist in Hx; [|apply truncate_sublist]. apply elem_of_retain in Hx as [_ Hx].
    by apply elem_of_dedup_by, elem_of_sort_by in Hx.
  - rewrite Forall_forall in *. intros x Hx. apply Hs.
    eapply elem_of_sublist in Hx; [|apply truncate_sublist]. by apply elem_of_sort_by in Hx.
  - rewrite Forall_forall in *. intros x Hx. apply Hp.
    eapply elem_of_sublist in Hx; [|apply truncate_sublist]. by apply elem_of_sort_by in Hx.
Qed.

Lemma build_items alphanumeric sources bindings events loans g :
  Forall (fun event => known (oevent_state event)) events ->
  build_ownership_memory_graph alphanumeric sources bindings events loans = Ok g -> items g.
Proof.
  intros Hk. unfold build_ownership_memory_graph. intros (g1 & H1 & [= <-])%bind_ok.
  apply finish_items, foldl_items.
  { intros g e He Hg. apply add_event_items; [|done]. rewrite Forall_forall in Hk. auto. }
  apply foldl_items; [auto using add_loan_items|].
  eapply fold_result_items; [| |exact H1].
  - intros g b g' Hg. unfold add_derived_clone. intros (name & _ & H)%bind_ok.
    destruct name; [|by injection H as <-]. destruct (find_first _ _); injection H as <-; [|done].
    by apply link_clone_items.
  - apply foldl_items; [auto using add_binding_items|]. split; constructor.
Qed.

(** ** Reading *)

(** Each kind the compiler writes is a text the analyzer knows. *)
Lemma read_event_kind_some kind : is_Some (read_event_kind kind).
Proof. destruct kind; by eexists. Qed.

Lemma read_state_known state : known state -> is_Some (read_state state).
Proof. unfold known. destruct state; simpl; by eauto. Qed.

Lemma mapM_some {A B} (f : A -> option B) l :
  Forall (fun x => is_Some (f x)) l -> is_Some (mapM f l).
Proof. intros H. apply mapM_is_Some_2. done. Qed.

Lemma read_graph_some g : items g -> is_Some (read_graph g).
Proof.
  intros [Hn _ Hs _]. unfold read_graph.
  destruct (mapM_some read_node (sgraph_nodes g)) as [nodes ->].
  { eapply Forall_impl; [exact Hn|]. intros node [_ Hk]. unfold read_node.
    destruct (read_state_known _ Hk) as [state ->]. by eexists. }
  destruct (mapM_some read_snapshot (sgraph_snapshots g)) as [snapshots ->]; [|by eexists].
  eapply Forall_impl; [exact Hs|]. intros snapshot (_ & _ & Hd). unfold read_snapshot.
  destruct (mapM_some read_delta (ssnapshot_deltas snapshot)) as [deltas ->]; [|by eexists].
  eapply Forall_impl; [exact Hd|]. intros delta [Hfrom Hto]. unfold read_delta. rewrite Hfrom. simpl.
  destruct (read_state_known _ Hto) as [state ->]. by eexists.
Qed.

Lemma serialized_states canonicalize source_map recorded s events s' :
  filter_map_m (serialize_event canonicalize source_map) recorded s = Ok (events, s') ->
  Forall (fun event => known (cevent_state event)) recorded ->
  Forall (fun event => known (oevent_state event)) events.
Proof.
  revert s events. induction recorded as [|e recorded IH]; intros s events; cbn [filter_map_m].
  { by intros [= <- <-]. }
  unfold mbind, planm_bind. intros ([o s1] & H1 & H2)%bind_ok.
  apply bind_ok in H2 as ([rest s2] & H2 & [= <- <-]). intros [He Hall]%Forall_cons.
  pose proof (IH _ _ H2 Hall) as Hrest. destruct o as [event|]; [|done]. constructor; [|done].
  revert H1. unfold serialize_event, and_then, mbind, planm_bind.
  intros ([[t|] s3] & _ & H3)%bind_ok; [|done].
  apply bind_ok in H3 as ([[binding|] s4] & _ & H4); [|done].
  by apply bind_ok in H4 as ([destination s5] & _ & [= <- <-]).
Qed.

Lemma plan_readable alphanumeric canonicalize source_map s c crate_name id plan
    (Hknown : Forall (fun event => known (cevent_state event)) (collector_ownership_events c))
    (Hplan : borrowck_repair_plan alphanumeric canonicalize source_map s c crate_name id = Ok plan) :
  exists artifact, read_artifact plan = Some artifact /\ (2 <= artifact_schema_version artifact <= 7)%N.
Proof.
  unfold borrowck_repair_plan in Hplan. apply bind_ok in Hplan as (r & H & Hr).
  destruct r as [[[[[[[repairs variants] rejections] bodies] bindings] loans] events] T].
  apply bind_ok in Hr as (g & Hg & [= <-]).
  unfold serialize_collector, mbind, planm_bind in H.
  repeat (apply bind_ok in H as ([? ?] & ? & H)). injection H as -> -> -> -> -> -> -> ->.
  assert (Forall (fun event => known (oevent_state event)) (order_events events)) as Hevents.
  { apply Forall_forall. intros e He. unfold order_events in He.
    apply elem_of_dedup_by, elem_of_sort_by in He.
    assert (Forall (fun event => known (oevent_state event)) events) as Hall
      by (eapply serialized_states; [|exact Hknown]; eassumption).
    rewrite Forall_forall in Hall. auto. }
  unfold read_artifact. simpl.
  destruct (mapM_some read_event (order_events events)) as [aevents ->].
  { eapply Forall_impl; [exact Hevents|]. intros e He. unfold read_event.
    destruct (read_event_kind_some (oevent_kind e)) as [kind ->].
    destruct (read_state_known _ He) as [state ->]. by eexists. }
  destruct (read_graph_some g (build_items _ _ _ _ _ _ Hevents Hg)) as [graph Hgraph].
  cbn [mbind option_bind]. rewrite Hgraph. eexists. split; [reflexivity|]. done.
Qed.

(** ** Positions are monotone *)

Lemma position_leb_trans p q r :
  Protocol.position_leb p q = true -> Protocol.position_leb q r = true ->
  Protocol.position_leb p r = true.
Proof.
  unfold Protocol.position_leb. rewrite !orb_true_iff, !andb_true_iff, !N.ltb_lt, !N.eqb_eq, !N.leb_le. lia.
Qed.

Lemma advance_all_le s p : Protocol.position_leb p (advance_all p s) = true.
Proof.
  revert p. induction s as [|c s IH]; intros p; simpl.
  - unfold Protocol.position_leb. by rewrite N.eqb_refl, N.leb_refl, orb_true_r.
  - eapply position_leb_trans; [|apply IH]. unfold advance, Protocol.position_leb.
    destruct (Ascii.eqb _ _); simpl.
    + by rewrite (proj2 (N.ltb_lt _ _)) by lia.
    + rewrite N.eqb_refl, (proj2 (N.leb_le _ _)) by lia. apply orb_true_r.
Qed.

Lemma advance_all_app a b p : advance_all p (a +:+ b) = advance_all (advance_all p a) b.
Proof. revert p. induction a; intros p; simpl; auto. Qed.

Lemma take_bytes_prefix a b s : a <= b -> exists rest, take_bytes b s = take_bytes a s +:+ rest.
Proof.
  revert b s. induction a as [|a IH]; intros b s Hab; [by exists (take_bytes b s)|].
  destruct b as [|b]; [lia|]. destruct s as [|c s]; [by exists EmptyString|].
  destruct (IH b s) as [rest H]; [lia|]. exists rest. simpl. by rewrite H.
Qed.

Lemma lsp_range_ordered text start end_ :
  (start <= end_)%N -> range_ordered (lsp_range text start end_).
Proof.
  intros Hle. apply (validate_range_ok "").
  unfold validate_range, lsp_range, lsp_position. simpl.
  destruct (take_bytes_prefix (N.to_nat start) (N.to_nat end_) text) as [rest ->]; [lia|].
  by rewrite advance_all_app, advance_all_le.
Qed.

Lemma byte_range_ordered text start end_ range :
  ownership_model_byte_range text start end_ = Some range -> range_ordered range.
Proof.
  unfold ownership_model_byte_range, on_boundaries, text_size.
  destruct (negb (negb _)) eqn:Hb; [done|]. rewrite negb_involutive, !orb_false_iff, !N.ltb_ge in Hb.
  destruct (start <? _)%N, (end_ <? _)%N; simpl; try done. intros [= <-].
  apply lsp_range_ordered. tauto.
Qed.

Lemma span_range_ordered source text span range :
  ownership_model_span_range source text span = Some range -> range_ordered range.
Proof. unfold ownership_model_span_range. case_match; [done|]. apply byte_range_ordered. Qed.

(** ** The graph that is sent *)

Lemma omap_sublist {A B C} (f : A -> option B) (h : B -> C) (k : A -> C) l :
  (forall x y, f x = Some y -> h y = k x) -> (h <$> omap f l) `sublist_of` (k <$> l).
Proof.
  intros H. induction l as [|x l IH]; simpl; [constructor|].
  destruct (f x) as [y|] eqn:Hx; simpl; [|by constructor].
  rewrite (H x y Hx). by constructor.
Qed.

Lemma mapM_fmap_eq {A B C} (f : A -> option B) (h : B -> C) (k : A -> C) l l' :
  (forall x y, f x = Some y -> h y = k x) -> mapM f l = Some l' -> h <$> l' = k <$> l.
Proof.
  intros H Hl. apply mapM_Some in Hl. induction Hl as [|x y l l' Hx _ IH]; [done|].
  rewrite !fmap_cons, (H x y Hx). by f_equal.
Qed.

(** What the analyzer has in hand after reading a graph of the compiler. *)
Record readable (graph : OwnershipModelMemoryGraph) : Prop := {
  readable_nodes : unique_ids (anode_id <$> agraph_nodes graph);
  readable_edges : unique_ids (aedge_id <$> agraph_edges graph);
  readable_snapshots : Forall (fun snapshot =>
    asnapshot_id snapshot <> "" /\ bounded (asnapshot_deltas snapshot) 128) (agraph_snapshots graph);
  readable_paths : Forall (fun path =>
    apath_id path <> "" /\ bounded (apath_steps path) 32) (agraph_access_paths graph)
}.

Lemma ids_present {A} (f : A -> string) l : Forall (fun x => f x <> "") l -> "" ∉ (f <$> l).
Proof. rewrite Forall_forall. intros H (x & Hx & Hin)%list_elem_of_fmap. by apply (H x). Qed.

Lemma read_graph_readable g graph :
  graph_wf g -> items g -> read_graph g = Some graph -> readable graph.
Proof.
  intros Hwf [Hn He Hs Hp] Hread. unfold read_graph in Hread.
  destruct (mapM read_node _) as [nodes|] eqn:Hnodes; simpl in Hread; [|done].
  destruct (mapM read_snapshot _) as [snapshots|] eqn:Hsnaps; simpl in Hread; [|done].
  injection Hread as <-. split; simpl.
  - rewrite (mapM_fmap_eq read_node anode_id snode_id _ _) by
      (done || (intros x y; unfold read_node; destruct (read_state _); naive_solver)).
    split; [apply wf_node_ids, Hwf|]. apply ids_present. eapply Forall_impl; [exact Hn|]. by intros ? [].
  - rewrite <- list_fmap_compose. split; [apply wf_edge_ids, Hwf|]. by apply ids_present.
  - apply mapM_Some in Hsnaps. clear -Hsnaps Hs. induction Hsnaps as [|x y l l' Hx _ IH]; [constructor|].
    apply Forall_cons in Hs as [(Hid & Hlen & _) Hs]. constructor; [|auto].
    unfold read_snapshot in Hx. destruct (mapM read_delta _) as [deltas|] eqn:Hd; simpl in Hx; [|done].
    injection Hx as <-. simpl. split; [done|]. apply length_mapM in Hd.
    unfold bounded, len in *. lia.
  - apply Forall_fmap. eapply Forall_impl; [exact Hp|]. intros path [Hid Hlen]. simpl. split; [done|].
    unfold bounded, len in *. rewrite length_fmap. lia.
Qed.

Lemma unique_ids_sublist ids ids' : ids `sublist_of` ids' -> unique_ids ids' -> unique_ids ids.
Proof.
  intros Hs [Hd He]. split; [by eapply sublist_NoDup|]. intros H. apply He. by eapply elem_of_sublist.
Qed.

Lemma take_N_sublist {A} n (l : list A) : take_N n l `sublist_of` l.
Proof. apply truncate_sublist. Qed.

Lemma take_N_bounded {A} n (l : list A) : bounded (take_N n l) n.
Proof. apply truncate_length. Qed.

Lemma bounded_fmap {A B} (f : A -> B) l n : bounded (f <$> l) n <-> bounded l n.
Proof. unfold bounded, len. by rewrite length_fmap. Qed.

Lemma Forall_sublist_of {A} (P : A -> Prop) l k : l `sublist_of` k -> Forall P k -> Forall P l.
Proof. rewrite !Forall_forall. intros Hs H x Hx. apply H. by eapply elem_of_sublist. Qed.

Section served.
Variables (source : OwnershipModelSource) (text : string) (graph : OwnershipModelMemoryGraph).
Variables (tutorial : OwnershipTutorialModel) (body : option N) (name : option string).
Variable events : list Protocol.OwnershipEvent.
Hypothesis Htutorial : tmodel_memory_graph tutorial = tutorial_graph source text graph.
Hypothesis Hreadable : readable graph.
Hypothesis Hevents : Forall (fun event => range_ordered (event_range event)) events.

Lemma served_nodes_sublist :
  take_N MAX_INTERACTIVE_MEMORY_NODES (matching_nodes tutorial body name)
    `sublist_of` omap (tutorial_node source text) (agraph_nodes graph).
Proof using Htutorial.
  etrans; [apply take_N_sublist|]. unfold matching_nodes. rewrite Htutorial. apply retain_sublist.
Qed.

Lemma served_node_ids :
  unique_ids (mnode_id <$> memory_nodes tutorial body name).
Proof using Htutorial Hreadable.
  unfold memory_nodes. rewrite <- list_fmap_compose.
  eapply unique_ids_sublist; [|apply (readable_nodes _ Hreadable)].
  etrans; [apply fmap_sublist, served_nodes_sublist|]. apply omap_sublist.
  intros x y. unfold tutorial_node. destruct (anode_span x); [|by intros [= <-]].
  destruct (ownership_model_span_range _ _ _); simpl; [|done]. by intros [= <-].
Qed.

Lemma served_node_ranges :
  Forall (fun node => optional range_ordered (mnode_range node)) (memory_nodes tutorial body name).
Proof using Htutorial.
  unfold memory_nodes. apply Forall_fmap. eapply Forall_sublist_of; [apply served_nodes_sublist|].
  apply Forall_forall. intros y (x & Hx & Hy)%list_elem_of_omap range Hr. simpl in Hr.
  unfold tutorial_node in Hy. destruct (anode_span x) as [span|]; [|by injection Hy as <-].
  destruct (ownership_model_span_range _ _ _) as [r|] eqn:Hspan; simpl in Hy; [|done].
  injection Hy as <-. injection Hr as <-. by eapply span_range_ordered.
Qed.

Lemma served_edges_sublist :
  take_N MAX_INTERACTIVE_MEMORY_EDGES (matching_edges tutorial body name)
    `sublist_of` tgraph_edges (tutorial_graph source text graph).
Proof using Htutorial.
  etrans; [apply take_N_sublist|]. unfold matching_edges. rewrite Htutorial. apply retain_sublist.
Qed.

Lemma served_edge_ids :
  unique_ids (medge_id <$> graph_edges (served_memory_graph tutorial body name events)).
Proof using Htutorial Hreadable.
  simpl. rewrite <- list_fmap_compose. eapply unique_ids_sublist; [|apply (readable_edges _ Hreadable)].
  etrans; [apply fmap_sublist, served_edges_sublist|]. simpl. rewrite <- list_fmap_compose.
  apply fmap_sublist, retain_sublist.
Qed.

Lemma served_edge_ranges :
  Forall (fun edge => optional range_ordered (medge_range edge))
    (graph_edges (served_memory_graph tutorial body name events)).
Proof using Htutorial Hevents.
  simpl. apply Forall_fmap. eapply Forall_sublist_of; [apply served_edges_sublist|].
  simpl. apply Forall_fmap, Forall_forall. intros edge _ range. simpl.
  destruct (aedge_span edge ≫= _) as [r|] eqn:Hr; simpl.
  - intros [= <-]. destruct (aedge_span edge); [|done]. by eapply span_range_ordered.
  - destruct (aedge_event_id edge); simpl; [|done].
    destruct (find_first _ events) as [event|] eqn:He; simpl; [|done]. intros [= <-].
    apply find_first_Some in He as [_ He]. rewrite Forall_forall in Hevents. by apply Hevents.
Qed.

Lemma served_snapshot_elem snapshot :
  snapshot ∈ graph_snapshots (served_memory_graph tutorial body name events) ->
  msnapshot_id snapshot <> "" /\ range_ordered (msnapshot_range snapshot) /\
  bounded (msnapshot_deltas snapshot) 128.
Proof using Htutorial Hreadable.
  simpl. intros (t & -> & Ht)%list_elem_of_fmap. eapply elem_of_sublist in Ht; [|apply take_N_sublist].
  unfold matching_snapshots in Ht. apply elem_of_retain in Ht as [_ Ht]. rewrite Htutorial in Ht.
  simpl in Ht. apply list_elem_of_omap in Ht as (x & Hx & Ht). unfold tutorial_snapshot in Ht.
  destruct (ownership_model_span_range _ _ _) as [r|] eqn:Hr; simpl in Ht; [|done].
  injection Ht as <-. simpl. rewrite bounded_fmap.
  pose proof (proj1 (Forall_forall _ _) (readable_snapshots _ Hreadable) x Hx) as [? ?].
  split_and!; try done. by eapply span_range_ordered.
Qed.

Lemma served_path_elem path :
  path ∈ graph_access_paths (served_memory_graph tutorial body name events) ->
  path_id path <> "" /\ bounded (path_steps path) 32.
Proof using Htutorial Hreadable.
  simpl. intros (p & -> & Hp)%list_elem_of_fmap. eapply elem_of_sublist in Hp; [|apply take_N_sublist].
  unfold matching_paths in Hp. apply elem_of_retain in Hp as [_ Hp]. rewrite Htutorial in Hp.
  simpl in Hp. apply elem_of_retain in Hp as [_ Hp]. simpl. rewrite bounded_fmap.
  apply (proj1 (Forall_forall _ _) (readable_paths _ Hreadable) p Hp).
Qed.

Lemma served_graph_well_formed :
  well_formed_graph (served_memory_graph tutorial body name events) <->
  NoDup (msnapshot_id <$> graph_snapshots (served_memory_graph tutorial body name events)) /\
  NoDup (path_id <$> graph_access_paths (served_memory_graph tutorial body name events)).
Proof using Htutorial Hreadable Hevents.
  split; [intros []; unfold unique_ids in *; naive_solver|]. intros [Hs Hp].
  split; try (simpl; unfold memory_nodes; rewrite bounded_fmap; apply take_N_bounded).
  - apply served_node_ids.
  - apply served_edge_ids.
  - split; [done|]. apply ids_present, Forall_forall. intros s ?%served_snapshot_elem. tauto.
  - split; [done|]. apply ids_present, Forall_forall. intros p ?%served_path_elem. tauto.
  - apply served_node_ranges.
  - apply served_edge_ranges.
  - apply Forall_forall. intros s ?%served_snapshot_elem. tauto.
  - apply Forall_forall. intros p ?%served_path_elem. tauto.
Qed.

Lemma served_edges_present edge :
  edge ∈ graph_edges (served_memory_graph tutorial body name events) ->
  medge_source edge ∈ mnode_id <$> memory_nodes tutorial body name /\
  medge_target edge ∈ mnode_id <$> memory_nodes tutorial body name.
Proof using .
  simpl. intros (t & -> & Ht)%list_elem_of_fmap. eapply elem_of_sublist in Ht; [|apply take_N_sublist].
  unfold matching_edges in Ht. apply elem_of_retain in Ht as [Hp _].
  apply andb_true_iff in Hp as [Hs Hd]. unfold memory_node_is_present in *.
  apply existsb_exists in Hs as (n & Hn & Hs), Hd as (m & Hm & Hd). simpl.
  apply String.eqb_eq in Hs as <-, Hd as <-. apply list_elem_of_In in Hn, Hm.
  split; by apply list_elem_of_fmap_2.
Qed.
End served.

(** The memory graph the editor is sent of a graph the compiler built passes the
    editor's validator exactly when its snapshots and its access paths have distinct
    ids; all the other demands (limits, node and edge ids, ordered ranges, few deltas
    and steps) always hold, and no edge leads to a node that was not sent. *)
Theorem served_graph_accepted_iff alphanumeric sources bindings events loans g graph source text
    tutorial body name lsp_events label
    (Hstates : Forall (fun event => known (oevent_state event)) events)
    (Hbuild : build_ownership_memory_graph alphanumeric sources bindings events loans = Ok g)
    (Hread : read_graph g = Some graph)
    (Htutorial : tmodel_memory_graph tutorial = tutorial_graph source text graph)
    (Hevents : Forall (fun event => range_ordered (event_range event)) lsp_events) :
  let served := served_memory_graph tutorial body name lsp_events in
  (validate_memory_graph label served = Ok tt <->
   NoDup (msnapshot_id <$> graph_snapshots served) /\ NoDup (path_id <$> graph_access_paths served)) /\
  (forall edge, edge ∈ graph_edges served ->
     medge_source edge ∈ mnode_id <$> graph_nodes served /\
     medge_target edge ∈ mnode_id <$> graph_nodes served).
Proof.
  intros served. pose proof (build_items _ _ _ _ _ _ Hstates Hbuild) as Hitems.
  assert (graph_wf g) as Hwf by (apply build_stages in Hbuild as (g1 & g2 & -> & _); apply finish_graph_wf).
  pose proof (read_graph_readable _ _ Hwf Hitems Hread) as Hreadable. split.
  - rewrite validate_memory_graph_ok. by apply (served_graph_well_formed source text graph).
  - intros edge. apply served_edges_present.
Qed.

(** ** The whole answer *)

(** The tutorial of a source: what the analyzer stores for a file. *)
Lemma tutorial_bodies_ordered source text artifact body :
  body ∈ tmodel_bodies (ownership_tutorial_model_for_source source text artifact) ->
  range_ordered (tbody_range body) /\ Forall (fun b => range_ordered (tblock_range b)) (tbody_blocks body).
Proof.
  intros (b & _ & H)%list_elem_of_omap. unfold tutorial_body in H.
  destruct (ownership_model_span_range _ _ _) as [r|] eqn:Hr; simpl in H; [|done]. injection H as <-. simpl.
  split; [by eapply span_range_ordered|]. apply Forall_forall.
  intros k (x & _ & Hx)%list_elem_of_omap. unfold tutorial_block in Hx.
  destruct (ownership_model_span_range _ _ (ablock_span x)) as [r'|] eqn:Hr'; simpl in Hx; [|done].
  injection Hx as <-. by eapply span_range_ordered.
Qed.

Lemma tutorial_point_ordered source text point t :
  tutorial_point source text point = Some t -> range_ordered (tpoint_range t).
Proof.
  unfold tutorial_point. destruct (ownership_model_span_range _ _ _) as [r|] eqn:Hr; simpl; [|done].
  intros [= <-]. by eapply span_range_ordered.
Qed.

Lemma tutorial_loans_ordered source text artifact loan :
  loan ∈ tmodel_loans (ownership_tutorial_model_for_source source text artifact) ->
  range_ordered (tpoint_range (tloan_reserve loan)) /\
  optional (fun p => range_ordered (tpoint_range p)) (tloan_activation loan).
Proof.
  intros (l & _ & H)%list_elem_of_omap. unfold tutorial_loan in H. case_match; [done|].
  destruct (tutorial_point _ _ (aloan_reserve l)) as [r|] eqn:Hr; simpl in H; [|done]. injection H as <-.
  simpl. split; [by eapply tutorial_point_ordered|]. intros p Hp.
  destruct (aloan_activation l); simpl in Hp; [|done]. by eapply tutorial_point_ordered.
Qed.

Lemma tutorial_bindings_ordered source text artifact binding :
  binding ∈ tmodel_bindings (ownership_tutorial_model_for_source source text artifact) ->
  range_ordered (tbinding_range binding).
Proof.
  intros (b & _ & H)%list_elem_of_omap. unfold tutorial_binding in H. case_match; [done|].
  destruct (checked_add _ _); simpl in H; [|done].
  destruct (ownership_model_byte_range _ _ _) as [r|] eqn:Hr; simpl in H; [|done]. injection H as <-.
  by eapply byte_range_ordered.
Qed.

Lemma elem_of_served {A B} (f : A -> B) n p (l : list A) y :
  y ∈ f <$> take_N n (retain p l) -> exists x, y = f x /\ x ∈ l.
Proof.
  intros (x & -> & Hx)%list_elem_of_fmap. exists x. split; [done|].
  eapply elem_of_sublist in Hx; [|apply take_N_sublist]. by apply elem_of_retain in Hx as [_ ?].
Qed.

(** The events prepared from an artifact have ordered ranges. *)
Lemma prepared_events_ordered source text events :
  Forall (fun e => range_ordered (ev_range e) /\ range_ordered (ev_binding_range e))
    (omap (prepared_event source text) events).
Proof.
  apply Forall_forall. intros e (x & _ & H)%list_elem_of_omap. unfold prepared_event in H.
  case_match; [done|].
  destruct (ownership_model_event_range _ _ _ _) as [[start end_]|] eqn:Hr; simpl in H; [|done].
  destruct (checked_add _ _) as [be|] eqn:Hadd; simpl in H; [|done]. case_match; [done|].
  unfold text_size in H. repeat (case_match; simpl in H; try done). injection H as <-. simpl.
  split; apply lsp_range_ordered.
  - unfold ownership_model_event_range, on_boundaries in Hr.
    destruct (negb (negb _)) eqn:Hb; [done|]. rewrite negb_involutive, !orb_false_iff, !N.ltb_ge in Hb.
    case_match; injection Hr as <- <-; [lia|tauto].
  - unfold checked_add in Hadd. case_match; [|done]. injection Hadd as <-. lia.
Qed.

(** The demands on the parts of an answer that other analyses supply. *)
Record other_accepted (other : OtherFacts) : Prop := {
  other_trace_ok : bounded (other_value_trace other) 64 /\
    Forall (fun t => range_ordered (trace_range t)) (other_value_trace other);
  other_repairs_ok : bounded (other_repairs other) 16 /\ unique_ids (repair_id <$> other_repairs other) /\
    Forall well_formed_repair (other_repairs other);
  other_operations_ok : bounded (other_operations other) 64 /\
    Forall well_formed_operation (other_operations other);
  other_conflict_ok : optional well_formed_conflict (other_conflict_graph other);
  other_context_ok : optional well_formed_context (other_source_context other);
  other_sketch_ok : optional (fun s => text_bounded (sketch_code s)) (other_c_sketch other)
}.

(** The demands on the compiler's facts that neither the compiler nor the analyzer
    sees to. *)
Record facts_accepted (model : OwnershipModel) : Prop := {
  facts_event_ids : unique_ids (event_event_id <$> model_events model);
  facts_bodies : bounded (model_bodies model) 512;
  facts_successors : Forall (fun body =>
    Forall (fun block => bounded (block_successors block) 32) (body_blocks body)) (model_bodies model);
  facts_layers : Forall (fun binding => bounded (binding_memory_layers binding) 32) (model_bindings model);
  facts_snapshot_ids : NoDup (msnapshot_id <$> graph_snapshots (model_memory_graph model));
  facts_path_ids : NoDup (path_id <$> graph_access_paths (model_memory_graph model))
}.

Definition events_ordered (events : list AnalyzerData.OwnershipEvent) : Prop :=
  Forall (fun e => range_ordered (ev_range e) /\ range_ordered (ev_binding_range e)) events.

Section answer.
Variables (artifact : OwnershipModelArtifact) (source : OwnershipModelSource) (text : string).
Variables (selected : option AnalyzerData.OwnershipEvent) (body : option N) (name : option string).
Variables (all_events : list AnalyzerData.OwnershipEvent) (live : string) (other : OtherFacts).
Let tutorial := ownership_tutorial_model_for_source source text artifact.
Let answer := ownership_model_result tutorial selected body name all_events live other.
Hypothesis Hschema : (artifact_schema_version artifact <= 7)%N.
Hypothesis Hreadable : readable (artifact_memory_graph artifact).
Hypothesis Hevents : events_ordered all_events.

Lemma answer_events_ordered event :
  event ∈ model_events answer -> range_ordered (event_range event) /\ range_ordered (event_binding_range event).
Proof using Hevents.
  simpl. unfold served_events, matching_events. intros Hin.
  eapply elem_of_sublist in Hin; [|apply truncate_sublist].
  apply list_elem_of_fmap in Hin as (e & -> & He). apply elem_of_retain in He as [_ He].
  apply (proj1 (Forall_forall _ _) Hevents e He).
Qed.

Lemma answer_bodies_ok : facts_accepted answer -> Forall well_formed_body (model_bodies answer).
Proof using .
  intros [_ _ Hs _ _ _]. rewrite Forall_forall in *. intros b Hin. specialize (Hs b Hin).
  apply list_elem_of_fmap in Hin as (t & -> & Ht). apply elem_of_retain in Ht as [_ Ht].
  apply tutorial_bodies_ordered in Ht as [Hr Hk]. split; simpl; [done| |].
  - rewrite bounded_fmap. apply take_N_bounded.
  - simpl in Hs. rewrite !Forall_fmap, !Forall_forall in *. intros k Hin. split; [|by apply Hs].
    simpl. apply Hk. eapply elem_of_sublist; [exact Hin|apply take_N_sublist].
Qed.

Lemma answer_loans_ok : Forall well_formed_loan (model_loans answer).
Proof using .
  apply Forall_forall. intros l (t & -> & Ht)%elem_of_served.
  apply tutorial_loans_ordered in Ht as [Hr Ha]. split; simpl; [done| | |].
  - intros a Hact. destruct (tloan_activation t); simpl in Hact; [|done]. injection Hact as <-. by apply Ha.
  - rewrite bounded_fmap. apply take_N_bounded.
  - rewrite bounded_fmap. unfold bounded. eapply N.le_trans; [apply (take_N_bounded 64)|done].
Qed.

Lemma answer_bindings_ok :
  facts_accepted answer ->
  Forall (fun b => range_ordered (binding_range b) /\ bounded (binding_memory_layers b) 32)
    (model_bindings answer).
Proof using .
  intros [_ _ _ Hl _ _]. rewrite Forall_forall in *. intros b Hin. split; [|auto].
  apply elem_of_served in Hin as (t & -> & Ht). by apply tutorial_bindings_ordered in Ht.
Qed.

Lemma answer_graph_ok :
  well_formed_graph (model_memory_graph answer) <->
  NoDup (msnapshot_id <$> graph_snapshots (model_memory_graph answer)) /\
  NoDup (path_id <$> graph_access_paths (model_memory_graph answer)).
Proof using Hreadable Hevents.
  apply (served_graph_well_formed source text (artifact_memory_graph artifact)); [done|done|].
  apply Forall_forall. intros e He. by apply answer_events_ordered.
Qed.

Lemma answer_counts_ok :
  facts_accepted answer -> other_accepted other -> well_formed_counts answer.
Proof using Hschema.
  intros [_ Hb _ _ _ _] [[Ht _] [Hr _] [Ho _] _ _ _]. split; simpl; try done.
  - apply truncate_length.
  - unfold served_bindings. rewrite bounded_fmap. apply take_N_bounded.
  - unfold served_loans. rewrite bounded_fmap. apply take_N_bounded.
Qed.

Lemma answer_status : model_status answer ∈ ["ready"; "waiting_for_compiler"; "rust_analyzer_unavailable"].
Proof using .
  simpl. case_match; [apply list_elem_of_further|]; apply list_elem_of_here.
Qed.
End answer.

(** The editor accepts the analyzer's answer about a file exactly when the parts
    from other analyses are acceptable and the compiler's facts meet the few demands
    that neither the compiler nor the analyzer sees to: distinct event, snapshot and
    access path ids, at most 512 bodies, 32 successors of a block and 32 layers of a
    binding.  Every other condition of the validator is guaranteed. *)
Theorem answer_accepted_iff artifact source text selected body name all_events live other
    (answer := ownership_model_result (ownership_tutorial_model_for_source source text artifact)
                 selected body name all_events live other)
    (Hschema : (artifact_schema_version artifact <= 7)%N)
    (Hreadable : readable (artifact_memory_graph artifact))
    (Hevents : events_ordered all_events) :
  validate_ownership_model answer = Ok tt <-> facts_accepted answer /\ other_accepted other.
Proof.
  rewrite model_ok. split.
  - intros [_ _ [] ? ? _ ? Hbo Hbi ? ? ? Hg ? ? ?]. split.
    + destruct Hg as [_ _ _ _ _ _ [] [] _ _ _ _]. split; try done.
      * eapply Forall_impl; [exact Hbo|]. intros b [_ _ Hk]. eapply Forall_impl; [exact Hk|]. by intros ? [].
      * eapply Forall_impl; [exact Hbi|]. by intros ? [].
    + split; try done.
  - intros [Hf Ho]. pose proof (answer_counts_ok artifact source text selected body name all_events live
      other Hschema Hf Ho) as Hcounts.
    pose proof Ho as [[_ Ht] (_ & Hri & Hr) [_ Hop] Hc Hx Hs]. split; try done.
    + apply answer_status.
    + right. simpl. lia.
    + apply Hf.
    + apply Forall_forall. intros e. by apply answer_events_ordered.
    + by apply answer_bodies_ok.
    + by apply answer_bindings_ok.
    + apply answer_loans_ok.
    + apply answer_graph_ok; [done..|]. split; apply Hf.
Qed.

(** ** A concrete crate *)

Definition empty_artifact : OwnershipModelArtifact :=
  mk_artifact 0 "" [] [] [] [] [] (mk_agraph [] [] [] [] false).

Definition sample_artifact : OwnershipModelArtifact :=
  default empty_artifact (read_artifact sample_plan).

Definition sample_source : OwnershipModelSource := mk_asource sample_path "" (Some sample_text).

Definition no_other_facts : OtherFacts := mk_other None None [] [] [] None None None None false.

(** The events of the crate and what the editor is sent about the binding [b]. *)
Definition sample_events : list AnalyzerData.OwnershipEvent :=
  omap (prepared_event sample_source sample_text) (artifact_ownership_events sample_artifact).

Definition sample_answer : OwnershipModel :=
  ownership_model_result
    (ownership_tutorial_model_for_source sample_source sample_text sample_artifact)
    None (Some 1%N) (Some "b") sample_events sample_text no_other_facts.

Example sample_answer_nodes :
  (length (graph_nodes (model_memory_graph sample_answer)), model_status sample_answer,
   model_precision sample_answer) = (6, "ready", "compiler_exact").
Proof. vm_compute. reflexivity. Qed.

(** What the analyzer prepares from the plan. *)
Lemma sample_readable : readable (artifact_memory_graph sample_artifact).
Proof.
  split; unfold unique_ids, bounded; apply (bool_decide_unpack _); vm_compute; exact I.
Qed.

Lemma answer_accepted_iff_witness :
  facts_accepted sample_answer /\ other_accepted no_other_facts.
Proof.
  apply (answer_accepted_iff sample_artifact sample_source sample_text None (Some 1%N) (Some "b")
    sample_events sample_text no_other_facts).
  - vm_compute. discriminate.
  - exact sample_readable.
  - apply prepared_events_ordered.
  - vm_compute. reflexivity.
Defined.

Lemma served_graph_accepted_iff_witness :
  exists g graph tutorial,
    sample_graph [sample_move] = Ok g /\ read_graph g = Some graph /\
    tmodel_memory_graph tutorial = tutorial_graph sample_source sample_text graph /\
    NoDup (msnapshot_id <$> graph_snapshots (served_memory_graph tutorial None (Some "b") [])).
Proof.
  assert (exists g, sample_graph [sample_move] = Ok g /\ is_Some (read_graph g)) as (g & Hg & graph & Hr)
    by (eexists; split; [vm_compute; reflexivity|vm_compute; by eexists]).
  set (tutorial := mk_tmodel 7 "" [] [] [] (tutorial_graph sample_source sample_text graph)).
  exists g, graph, tutorial. split; [exact Hg|]. split; [exact Hr|]. split; [reflexivity|].
  apply (served_graph_accepted_iff (fun _ => false) sample_sources sample_bindings [sample_move] [] g graph
    sample_source sample_text tutorial None (Some "b") [] "graph").
  - repeat constructor; discriminate.
  - exact Hg.
  - exact Hr.
  - reflexivity.
  - constructor.
  - assert (built (sample_graph [sample_move]) = g) as <- by by rewrite Hg.
    assert (default (mk_agraph [] [] [] [] false) (read_graph (built (sample_graph [sample_move]))) = graph)
      as <- by by rewrite Hr.
    vm_compute. reflexivity.
Defined.
