(* ===== verification/SelectionSpec.v ===== *)
(** * rust-analyzer: what a selection retains

    The nodes kept for a selection are its bounded connected component, and the
    answer says that it is truncated whenever a table was cut.  Last come answers
    the editor refuses: the two programs disagree on what a block may have. *)

From Stdlib Require Import Ascii String.
From S2P Require Import Prelude RustStr RustColl RustPath CompilerData MemoryGraph MemoryGraphSpec RepairPlan RepairPlanSpec AnalyzerData AnalyzerModel.
From S2P Require Import Protocol Bridge BridgeSpec PipelineSpec.
From stdpp Require Import options.

(** ** The connected component *)

(** Two nodes an edge joins, in either direction. *)
Definition joined (edges : list OwnershipTutorialMemoryEdge) (a b : string) : Prop :=
  exists edge, edge ∈ edges /\
    ((aedge_source (tedge_edge edge) = a /\ aedge_target (tedge_edge edge) = b) \/
     (aedge_source (tedge_edge edge) = b /\ aedge_target (tedge_edge edge) = a)).

Lemma sweep_edge_grows ids edge : ids ⊆ sweep_edge ids edge.
Proof. unfold sweep_edge. repeat case_bool_decide; set_solver. Qed.

Lemma sweep_grows edges ids : ids ⊆ sweep edges ids.
Proof.
  unfold sweep. revert ids. induction edges as [|e edges IH]; intros ids; simpl; [done|].
  etrans; [apply sweep_edge_grows|apply IH].
Qed.

Lemma sweep_edge_joins ids edge a b :
  joined [edge] a b -> a ∈ ids -> b ∈ sweep_edge ids edge.
Proof.
  intros (e & ->%list_elem_of_singleton & H) Ha. unfold sweep_edge.
  destruct H as [[<- <-]|[<- <-]]; repeat case_bool_decide; set_solver.
Qed.

Lemma sweep_joins edges ids a b : joined edges a b -> a ∈ ids -> b ∈ sweep edges ids.
Proof.
  unfold sweep. revert ids. induction edges as [|e edges IH]; intros ids; simpl.
  { by intros (? & ?%elem_of_nil & _). }
  intros (e' & [->|Hin]%elem_of_cons & H) Ha.
  - apply (sweep_grows edges). eapply sweep_edge_joins; [|done]. exists e. set_solver.
  - apply IH; [by exists e'|]. by apply sweep_edge_grows.
Qed.

Lemma sweep_edge_sound ids edge x :
  x ∈ sweep_edge ids edge -> exists y, y ∈ ids /\ rtc (joined [edge]) y x.
Proof.
  assert (joined [edge] (aedge_source (tedge_edge edge)) (aedge_target (tedge_edge edge))) as Hj
    by (exists edge; set_solver).
  assert (joined [edge] (aedge_target (tedge_edge edge)) (aedge_source (tedge_edge edge))) as Hj'
    by (exists edge; set_solver).
  unfold sweep_edge. repeat case_bool_decide; rewrite ?elem_of_union, ?elem_of_singleton in *;
    intros Hx; destruct_or?; subst; eauto using rtc_once, rtc_refl.
Qed.

Lemma joined_mono edges edges' a b : edges ⊆ edges' -> joined edges a b -> joined edges' a b.
Proof. intros Hs (e & He & H). exists e. split; [by apply Hs|done]. Qed.

Lemma sweep_sound edges all ids x :
  edges ⊆ all -> x ∈ sweep edges ids -> exists y, y ∈ ids /\ rtc (joined all) y x.
Proof.
  unfold sweep. revert ids. induction edges as [|e edges IH]; intros ids Hsub; simpl; [eauto using rtc_refl|].
  intros (y & Hy & Hyx)%IH; [|set_solver].
  apply sweep_edge_sound in Hy as (z & Hz & Hzy). exists z. split; [done|]. etrans; [|exact Hyx].
  eapply rtc_subrel; [|exact Hzy]. intros a b. apply joined_mono. set_solver.
Qed.

Lemma sweeps_sound rounds edges ids x :
  x ∈ sweeps rounds edges ids -> exists y, y ∈ ids /\ rtc (joined edges) y x.
Proof.
  revert ids. induction rounds as [|rounds IH]; intros ids; simpl; [eauto using rtc_refl|].
  case_match.
  - intros (y & ? & ?)%(sweep_sound edges edges); eauto.
  - intros (y & (z & Hz & Hzy)%(sweep_sound edges edges) & Hyx)%IH; [|done].
    exists z. split; [done|]. by etrans.
Qed.

Lemma sweeps_grow rounds edges ids : ids ⊆ sweeps rounds edges ids.
Proof.
  revert ids. induction rounds as [|rounds IH]; intros ids; simpl; [done|].
  case_match; [apply sweep_grows|]. etrans; [apply sweep_grows|apply IH].
Qed.

(** A pass that adds nothing found the whole component. *)
Lemma sweep_stable edges ids x y :
  size (sweep edges ids) = size ids -> rtc (joined edges) x y -> x ∈ ids -> y ∈ sweep edges ids.
Proof.
  intros Hsize Hxy Hx.
  assert (sweep edges ids = ids) as Heq.
  { symmetry. apply set_subseteq_size_eq; [apply sweep_grows|lia]. }
  rewrite Heq. induction Hxy as [|x z y Hxz _ IH]; [done|]. apply IH.
  rewrite <- Heq. by eapply sweep_joins.
Qed.

Lemma sweeps_reach rounds edges ids x y n :
  nsteps (joined edges) n x y -> n <= rounds -> x ∈ ids -> y ∈ sweeps rounds edges ids.
Proof.
  revert ids x n. induction rounds as [|rounds IH]; intros ids x n Hn Hle Hx; simpl.
  { assert (n = 0) as -> by lia. by inversion Hn; subst. }
  case_match eqn:Hsize.
  - apply Nat.eqb_eq in Hsize. eapply sweep_stable; [done| |exact Hx]. apply rtc_nsteps. eauto.
  - destruct n as [|n].
    + inversion Hn; subst. by apply sweeps_grow, sweep_grows.
    + inversion Hn as [|? ? z ? Hxz Hzy]; subst. eapply IH; [exact Hzy|lia|]. by eapply sweep_joins.
Qed.

(** C38: The nodes retained for a named selection are connected to it, and every node
    within twelve edges of it is retained. *)
Theorem selection_component tutorial body name
    (ids := selected_node_ids tutorial body (Some name))
    (edges := tgraph_edges (tmodel_memory_graph tutorial)) :
  (forall x, x ∈ relevant_memory_node_ids tutorial body (Some name) ->
     exists y, y ∈ ids /\ rtc (joined edges) y x) /\
  (forall x y n, y ∈ ids -> nsteps (joined edges) n y x -> n <= 12 ->
     x ∈ relevant_memory_node_ids tutorial body (Some name)).
Proof.
  split.
  - intros x. apply sweeps_sound.
  - intros x y n Hy Hn Hle. by eapply sweeps_reach.
Qed.

(** ** Truncation *)

Lemma take_N_all {A} n (l : list A) : (n <? len l)%N = false -> take_N n l = l.
Proof. rewrite N.ltb_ge. apply truncate_id. Qed.

(** An answer that does not say it is truncated leaves nothing out: it holds every
    matching event, body with all its blocks, binding, loan with all its points, node,
    edge, snapshot and access path. *)
Theorem untruncated_answer_complete tutorial body name selected all_events
    (Hwhole : facts_truncated tutorial body name selected all_events = false) :
  let events := served_events body name selected all_events in
  let graph := served_memory_graph tutorial body name events in
  events = matching_events body name selected all_events /\
  Forall (fun b => take_N MAX_INTERACTIVE_BLOCKS (tbody_blocks b) = tbody_blocks b)
    (matching_bodies tutorial body) /\
  served_bindings tutorial body name = binding_to_lsp <$> matching_bindings tutorial body name /\
  served_loans tutorial body name = ownership_loan_to_lsp <$> matching_loans tutorial body name /\
  Forall (fun loan => loan_live_points (ownership_loan_to_lsp loan) = point_to_lsp <$> tloan_live_points loan
                      /\ loan_end_points (ownership_loan_to_lsp loan) = point_to_lsp <$> tloan_end_points loan)
    (matching_loans tutorial body name) /\
  graph_nodes graph = node_to_lsp <$> matching_nodes tutorial body name /\
  graph_edges graph = edge_to_lsp events <$> matching_edges tutorial body name /\
  graph_snapshots graph = snapshot_to_lsp <$> matching_snapshots tutorial body name /\
  graph_access_paths graph = path_to_lsp <$> matching_paths tutorial body name /\
  graph_truncated graph = false.
Proof.
  unfold facts_truncated in Hwhole. rewrite !orb_false_iff in Hwhole.
  destruct Hwhole as [[[[[[[[[He Hb] Hbi] Hl] Hlp] Hn] Hed] Hs] Hp] Ht].
  split_and!; simpl; unfold served_events, memory_nodes, truncate; rewrite ?take_N_all by done; try done.
  - apply Forall_forall. intros b Hin. apply take_N_all.
    destruct (MAX_INTERACTIVE_BLOCKS <? _)%N eqn:H; [|done]. rewrite <- Hb. symmetry.
    apply existsb_exists. exists b. by rewrite <- list_elem_of_In.
  - unfold served_bindings. by rewrite take_N_all.
  - unfold served_loans. by rewrite take_N_all.
  - apply Forall_forall. intros loan Hin.
    assert ((512 <? len (tloan_live_points loan))%N || (64 <? len (tloan_end_points loan))%N = false)
      as [H1 H2]%orb_false_iff.
    { destruct (_ || _) eqn:H; [|done]. rewrite <- Hlp. symmetry. apply existsb_exists.
      exists loan. by rewrite <- list_elem_of_In. }
    by rewrite !take_N_all.
Qed.

(** ** Answers the editor refuses *)

(** The editor refuses the whole answer when a block of one of the functions has
    more than 32 successors, as a [match] with more arms than that has; the compiler
    and the analyzer pass any number on. *)
Theorem wide_branch_refused tutorial selected body name all_events live other b block
    (Hbody : b ∈ matching_bodies tutorial body)
    (Hblock : block ∈ take_N MAX_INTERACTIVE_BLOCKS (tbody_blocks b))
    (Hwide : (32 < len (tblock_successors block))%N) :
  validate_ownership_model
    (ownership_model_result tutorial selected body name all_events live other) <> Ok tt.
Proof.
  rewrite model_ok. intros H. pose proof (wfm_bodies _ H) as Hall. clear H.
  rewrite Forall_forall in Hall. specialize (Hall (body_to_lsp b)).
  destruct Hall as [_ _ Hblocks]; [by apply list_elem_of_fmap_2|].
  simpl in Hblocks. rewrite Forall_fmap, Forall_forall in Hblocks.
  destruct (Hblocks block Hblock) as [_ Hsucc]. unfold bounded in Hsucc. simpl in Hsucc. lia.
Qed.

(** A function with one block that branches 33 ways. *)
Definition wide_block : OwnershipTutorialBlock := mk_tblock 0 default_range (N.of_nat <$> seq 1 33).

Definition wide_tutorial : OwnershipTutorialModel :=
  mk_tmodel 7 "x86_64" [mk_tbody 1 "dispatch" default_range [wide_block]] [] []
    (mk_tgraph [] [] [] [] false).

Lemma wide_branch_refused_witness :
  validate_ownership_model
    (ownership_model_result wide_tutorial None None None [] "" no_other_facts) <> Ok tt.
Proof.
  apply (wide_branch_refused wide_tutorial None None None [] "" no_other_facts
    (mk_tbody 1 "dispatch" default_range [wide_block]) wide_block).
  - apply elem_of_retain. split; [reflexivity|apply list_elem_of_here].
  - apply list_elem_of_here.
  - reflexivity.
Defined.

(** A function that shadows a clone:
    <<
    let a = Rc::new(1);
    let b = Rc::clone(&a);
    let b = Rc::clone(&a);
    >> *)
Definition shadow_text : string :=
  "let a = Rc::new(1);" +:+ newline +:+ "let b = Rc::clone(&a);" +:+ newline
  +:+ "let b = Rc::clone(&a);" +:+ newline.

Definition shadow_graph : result SerializedBorrowckMemoryGraph :=
  build_ownership_memory_graph (fun _ => false)
    [(sample_path, mk_ssource sample_path "" (Some shadow_text))]
    [rc_binding "a" 4; rc_binding "b" 24; rc_binding "b" 47] [] [].

Definition shadow_artifact (graph : OwnershipModelMemoryGraph) : OwnershipModelArtifact :=
  mk_artifact 7 "x86_64" [] [] [] [] [] graph.

(** The snapshots of two derived clones have one id when the clones have one name,
    as a shadowed binding and the one that shadows it do: the editor then refuses
    everything it is sent about the function. *)
Theorem shadowed_clone_refused :
  exists g graph,
    shadow_graph = Ok g /\ read_graph g = Some graph /\
    validate_ownership_model
      (ownership_model_result
         (ownership_tutorial_model_for_source (mk_asource sample_path "" None) shadow_text
            (shadow_artifact graph))
         None (Some 1%N) (Some "a") [] shadow_text no_other_facts)
    = Err ("ownership memory graph snapshots contains duplicate id `"
           +:+ graph_id "snapshot"
                 (derived_clone_id (rc_binding "a" 4) (rc_binding "b" 24)) +:+ "`").
Proof.
  eexists _, _. split; [vm_compute; reflexivity|]. split; [vm_compute; reflexivity|].
  vm_compute. reflexivity.
Qed.
