(* ===== verification/AnalyzerState.v ===== *)
(** * rust-analyzer: the facts it keeps and how they change

    [DiagnosticCollection] of [rust-analyzer/crates/rust-analyzer/src/diagnostics.rs]
    (the per-flycheck tables of diagnostics, fixes, ownership diagnostics and ownership
    events, and the ownership models per file), the messages of a flycheck
    ([handle_flycheck_msg] of [main_loop.rs]), the scheduling and committing of compiler
    artifacts, and the part of [process_changes] ([global_state.rs]) that drops the
    facts of an edited file.  [World] puts the main loop beside what runs next to it:
    the shared file system that notifications write at once, the analysis revision
    that only [process_changes] moves, the background jobs and the tasks they send back.

    A hash map is a [gmap]; where the source iterates one, the order is that of
    [map_to_list] and no theorem depends on it.  The members of an LSP diagnostic or fix
    that this code only stores are the types [Rest] and [Action]. *)

From Stdlib Require Import Ascii String.
From S2P Require Import Prelude RustStr RustColl RustPath Fnv CompilerData MemoryGraph RepairPlan AnalyzerData Autofix AutofixDriver AnalyzerModel.
From S2P Require Import Protocol.
From stdpp Require Import options.

(** ** Keys and stored values *)

Inductive PackageSpecifier : Type :=
  | Cargo (package_id : string)
  | BuildInfo (label : string).

#[global] Instance PackageSpecifier_eq_dec : EqDecision PackageSpecifier.
Proof. solve_decision. Defined.

#[global] Instance PackageSpecifier_countable : Countable PackageSpecifier.
Proof.
  refine (inj_countable'
            (fun p => match p with Cargo id => inl id | BuildInfo label => inr label end)
            (fun s => match s with inl id => Cargo id | inr label => BuildInfo label end) _).
  by intros [].
Defined.

#[global] Instance OwnershipDiagnosticRelated_eq_dec : EqDecision OwnershipDiagnosticRelated.
Proof. solve_decision. Defined.

#[global] Instance OwnershipDiagnostic_eq_dec : EqDecision OwnershipDiagnostic.
Proof. solve_decision. Defined.

Inductive OwnershipWrapperFix : Type :=
  | WArc | WArcMutex | WArcRwLock | WMutex | WRc | WRefCell | WRcRefCell | WRwLock | WAll.

Definition preview_order (fix_ : OwnershipWrapperFix) : N :=
  match fix_ with
  | WRc => 0 | WArc => 1 | WRefCell => 2 | WMutex => 3 | WRwLock => 4
  | WRcRefCell => 5 | WArcMutex => 6 | WArcRwLock => 7 | WAll => 8
  end.

(** Tables: per flycheck, per package, per file. *)
Notation PerFile := (gmap FileId).
Notation PerPackage := (gmap (option PackageSpecifier)).
Notation Table A := (list (PerPackage (PerFile A))) (only parsing).

Notation OwnershipEvents := (Table (list AnalyzerData.OwnershipEvent)) (only parsing).
Notation OwnershipDiagnostics := (Table (list OwnershipDiagnostic)) (only parsing).
Notation OwnershipTutorialModels := (PerFile OwnershipTutorialModel) (only parsing).

(** [Vec::resize_with] when an index is past the end. *)
Definition grow {A} (empty : A) (id : nat) (l : list A) : list A :=
  if decide (length l <= id) then l ++ replicate (id + 1 - length l) empty else l.

(** [map.entry(key).or_default()], updated. *)
Definition or_default {K A} `{Countable K} (empty : A) (f : A -> A) (key : K) (m : gmap K A) : gmap K A :=
  <[key := f (default empty (m !! key))]> m.

(** Growing a table to [id] and updating the entry of a package and a file. *)
Definition update_entry {A} (empty : A) (f : A -> A) (id : nat) (package : option PackageSpecifier)
    (file : FileId) (t : Table A) : Table A :=
  alter (or_default ∅ (or_default empty f file) package) id (grow ∅ id t).

Definition position_cmp (p q : Position) : comparison :=
  match N.compare (position_line p) (position_line q) with
  | Eq => N.compare (position_character p) (position_character q)
  | c => c
  end.

(** The sort key [(range.start, range.end)]. *)
Definition range_key_leb (a b : Range) : bool :=
  lex_leb position_cmp position_leb (range_start a, range_end a) (range_start b, range_end b).

(** [result.contains] before each push. *)
Definition push_new {A} `{EqDecision A} (result : list A) (x : A) : list A :=
  if decide (x ∈ result) then result else result ++ [x].

Definition values_for {A} (t : Table (list A)) (file : FileId) : list A :=
  mbind (M := list)
    (fun flycheck : PerPackage (PerFile (list A)) =>
       mbind (M := list) (fun package => default [] (package !! file)) (map_to_list flycheck).*2) t.

Definition ownership_events_for_file (events : OwnershipEvents) (file : FileId) :
    list AnalyzerData.OwnershipEvent :=
  sort_by (on ev_range range_key_leb) (foldl push_new [] (values_for events file)).

Definition ownership_diagnostics_for_file (diagnostics : OwnershipDiagnostics) (file : FileId) :
    list OwnershipDiagnostic :=
  sort_by (on odiag_range range_key_leb) (foldl push_new [] (values_for diagnostics file)).

Definition ownership_diagnostic_file_ids (diagnostics : OwnershipDiagnostics) : list FileId :=
  dedup_by N.eqb
    (sort_by N.leb
       (mbind (M := list)
          (fun flycheck : PerPackage (PerFile (list OwnershipDiagnostic)) =>
             mbind (M := list) (fun package => (map_to_list package).*1) (map_to_list flycheck).*2)
          diagnostics)).

Definition tmodel_default : OwnershipTutorialModel := mk_tmodel 0 EmptyString [] [] [] (mk_tgraph [] [] [] [] false).

Definition ownership_tutorial_for_file (models : OwnershipTutorialModels) (file : FileId) :
    OwnershipTutorialModel :=
  default tmodel_default (models !! file).

(** ** The collection *)

Section collection.
Context {Rest Action : Type}.

Record RelatedInformation : Type := mk_related_information {
  related_uri : PathBuf;
  related_range : Range;
  related_message : string
}.

(** [lsp_types::Diagnostic]; [Some 1] is the severity [Error]. *)
Record Diagnostic : Type := mk_lsp_diagnostic {
  diagnostic_range : Range;
  diagnostic_severity : option N;
  diagnostic_source : option string;
  diagnostic_message : string;
  diagnostic_related : option (list RelatedInformation);
  diagnostic_rest : Rest
}.

Record Fix : Type := mk_fix {
  fix_ranges : list Range;
  fix_action : Action;
  fix_ownership_wrapper : option OwnershipWrapperFix
}.

Record PackageFlycheckDiagnostic : Type := mk_package_flycheck {
  pfd_generation : N;
  pfd_per_file : PerFile (list Diagnostic)
}.

Notation WorkspaceFlycheckDiagnostic := (PerPackage PackageFlycheckDiagnostic).

Record DiagnosticCollection : Type := mk_collection {
  native_syntax : PerFile (N * list Diagnostic);
  native_semantic : PerFile (N * list Diagnostic);
  check : list WorkspaceFlycheckDiagnostic;
  check_fixes : Table (list Fix);
  ownership_diagnostics : OwnershipDiagnostics;
  ownership_events : OwnershipEvents;
  ownership_tutorial_models : OwnershipTutorialModels;
  changes : gset FileId;
  generation : N
}.

Definition empty_collection : DiagnosticCollection := mk_collection ∅ ∅ [] [] [] [] ∅ ∅ 0.

(** Struct update, one function per field that operations assign. *)
Definition with_natives (c : DiagnosticCollection) syntax semantic : DiagnosticCollection :=
  mk_collection syntax semantic (check c) (check_fixes c) (ownership_diagnostics c)
    (ownership_events c) (ownership_tutorial_models c) (changes c) (generation c).

Definition with_check (c : DiagnosticCollection) checks fixes : DiagnosticCollection :=
  mk_collection (native_syntax c) (native_semantic c) checks fixes (ownership_diagnostics c)
    (ownership_events c) (ownership_tutorial_models c) (changes c) (generation c).

Definition with_ownership (c : DiagnosticCollection) diagnostics events models : DiagnosticCollection :=
  mk_collection (native_syntax c) (native_semantic c) (check c) (check_fixes c) diagnostics
    events models (changes c) (generation c).

Definition extend_changes (files : gset FileId) (c : DiagnosticCollection) : DiagnosticCollection :=
  mk_collection (native_syntax c) (native_semantic c) (check c) (check_fixes c)
    (ownership_diagnostics c) (ownership_events c) (ownership_tutorial_models c)
    (changes c ∪ files) (generation c).

Definition package_files (package : PackageFlycheckDiagnostic) : gset FileId :=
  dom (pfd_per_file package).

Definition workspace_files (packages : WorkspaceFlycheckDiagnostic) : gset FileId :=
  ⋃ (package_files <$> (map_to_list packages).*2).

Definition are_diagnostics_equal (left right : Diagnostic) : bool :=
  bool_decide (diagnostic_source left = diagnostic_source right)
  && bool_decide (diagnostic_severity left = diagnostic_severity right)
  && bool_decide (diagnostic_range left = diagnostic_range right)
  && bool_decide (diagnostic_message left = diagnostic_message right).

(** ** Invalidation *)

Definition clear_check (flycheck_id : nat) (c : DiagnosticCollection) : DiagnosticCollection :=
  match check c !! flycheck_id with
  | None => c
  | Some packages =>
      let clear {A} (t : Table A) := alter (fun _ => ∅) flycheck_id t in
      extend_changes (workspace_files packages)
        (with_ownership
           (with_check c (alter (fun _ => ∅) flycheck_id (check c)) (clear (check_fixes c)))
           (clear (ownership_diagnostics c)) (clear (ownership_events c)) ∅)
  end.

Definition clear_check_all (c : DiagnosticCollection) : DiagnosticCollection :=
  extend_changes (⋃ (workspace_files <$> check c))
    (with_ownership (with_check c ((fun _ => ∅) <$> check c) []) [] [] ∅).

(** Removing the entries of [packages] from the tables of a flycheck. *)
Definition remove_packages {A} (packages : list (option PackageSpecifier)) (flycheck_id : nat)
    (t : list (PerPackage A)) : list (PerPackage A) :=
  alter (fun m => foldl (fun m package => delete package m) m packages) flycheck_id t.

Definition clear_packages (packages : list (option PackageSpecifier)) (flycheck_id : nat)
    (c : DiagnosticCollection) : DiagnosticCollection :=
  with_ownership
    (with_check c (remove_packages packages flycheck_id (check c))
       (remove_packages packages flycheck_id (check_fixes c)))
    (remove_packages packages flycheck_id (ownership_diagnostics c))
    (remove_packages packages flycheck_id (ownership_events c))
    (ownership_tutorial_models c).

Definition clear_models (c : DiagnosticCollection) : DiagnosticCollection :=
  with_ownership c (ownership_diagnostics c) (ownership_events c) ∅.

Definition clear_check_for_package (flycheck_id : nat) (package_id : PackageSpecifier)
    (c : DiagnosticCollection) : DiagnosticCollection :=
  match check c !! flycheck_id with
  | None => c
  | Some packages =>
      extend_changes (default ∅ (package_files <$> packages !! Some package_id))
        (clear_models (clear_packages [Some package_id] flycheck_id c))
  end.

Definition clear_check_older_than (flycheck_id : nat) (older : N) (c : DiagnosticCollection) :
    DiagnosticCollection :=
  match check c !! flycheck_id with
  | None => c
  | Some flycheck =>
      let extracted := filter (fun e => (pfd_generation e.2 < older)%N) flycheck in
      let packages := (map_to_list extracted).*1 in
      let cleared := extend_changes (workspace_files extracted) (clear_packages packages flycheck_id c) in
      if is_nil packages then cleared else clear_models cleared
  end.

Definition clear_check_older_than_for_package (flycheck_id : nat) (package_id : PackageSpecifier)
    (older : N) (c : DiagnosticCollection) : DiagnosticCollection :=
  match check c !! flycheck_id with
  | None => c
  | Some packages =>
      match packages !! Some package_id with
      | Some checks =>
          if (pfd_generation checks <? older)%N then
            extend_changes (package_files checks)
              (clear_models (clear_packages [Some package_id] flycheck_id c))
          else c
      | None => c
      end
  end.

Definition clear_native_for (file : FileId) (c : DiagnosticCollection) : DiagnosticCollection :=
  extend_changes {[file]}
    (with_natives c (delete file (native_syntax c)) (delete file (native_semantic c))).

(** Removing a file from every package of every flycheck. *)
Definition remove_file {A} (file : FileId) (t : Table A) : Table A :=
  fmap (M := list) (fmap (M := gmap _) (delete file)) t.

Definition clear_ownership_for (file : FileId) (c : DiagnosticCollection) : DiagnosticCollection :=
  extend_changes {[file]}
    (with_ownership c (remove_file file (ownership_diagnostics c))
       (remove_file file (ownership_events c)) (delete file (ownership_tutorial_models c))).

(** ** Recording *)

Record RetiredOwnershipPayloads : Type := mk_retired {
  event_sets : list (list AnalyzerData.OwnershipEvent);
  tutorial_models : list OwnershipTutorialModel
}.

Definition any_exact (events : list AnalyzerData.OwnershipEvent) : bool := existsb ev_exact events.

Definition drop_exact (file : FileId) (package : PerFile (list AnalyzerData.OwnershipEvent)) :
    PerFile (list AnalyzerData.OwnershipEvent) :=
  alter (fun events => if any_exact events then retain (fun event => negb (ev_exact event)) events
                       else events) file package.

Definition retired_sets (file : FileId) (t : OwnershipEvents) : list (list AnalyzerData.OwnershipEvent) :=
  mbind (M := list)
    (fun flycheck : PerPackage (PerFile (list AnalyzerData.OwnershipEvent)) =>
       omap (fun package => events ← package !! file; if any_exact events then Some events else None)
         (map_to_list flycheck).*2) t.

Definition merge_events (new_events estimated : list AnalyzerData.OwnershipEvent) :
    list AnalyzerData.OwnershipEvent :=
  dedup_by (fun a b => bool_decide (a = b))
    (sort_by (on ev_range range_key_leb) (estimated ++ new_events)).

Definition entry_of {A} (t : Table (list A)) (flycheck_id : nat) (package_id : option PackageSpecifier)
    (file : FileId) : list A :=
  default [] (flycheck ← t !! flycheck_id; package ← (flycheck : gmap _ _) !! package_id; package !! file).

Definition replace_exact_ownership_events (flycheck_id : nat) (package_id : option PackageSpecifier)
    (file : FileId) (new_events : list AnalyzerData.OwnershipEvent) (c : DiagnosticCollection) :
    DiagnosticCollection * RetiredOwnershipPayloads :=
  let estimated_only : OwnershipEvents :=
    fmap (M := list) (fmap (M := gmap _) (drop_exact file)) (ownership_events c) in
  (extend_changes {[file]}
     (with_ownership c (ownership_diagnostics c)
        (update_entry [] (merge_events new_events) flycheck_id package_id file estimated_only)
        (delete file (ownership_tutorial_models c))),
   mk_retired
     (retired_sets file (ownership_events c) ++ [entry_of estimated_only flycheck_id package_id file])
     (option_list (ownership_tutorial_models c !! file))).

Definition set_ownership_tutorial_model (file : FileId) (model : OwnershipTutorialModel)
    (c : DiagnosticCollection) : DiagnosticCollection * option OwnershipTutorialModel :=
  (extend_changes {[file]}
     (with_ownership c (ownership_diagnostics c) (ownership_events c)
        (<[file := model]> (ownership_tutorial_models c))),
   ownership_tutorial_models c !! file).

Definition add_check_diagnostic (flycheck_id : nat) (generation : N)
    (package_id : option PackageSpecifier) (file : FileId) (diagnostic : Diagnostic)
    (fix_ : option Fix) (c : DiagnosticCollection) : DiagnosticCollection :=
  let checks := grow ∅ flycheck_id (check c) in
  let packages : WorkspaceFlycheckDiagnostic := default ∅ (checks !! flycheck_id) in
  let package := default (mk_package_flycheck generation ∅) (packages !! package_id) in
  let store package := <[flycheck_id := <[package_id := package]> packages]> checks in
  if (generation <? pfd_generation package)%N then with_check c (store package) (check_fixes c)
  else
    let diagnostics := default [] (pfd_per_file package !! file) in
    let store_file diagnostics :=
      store (mk_package_flycheck generation (<[file := diagnostics]> (pfd_per_file package))) in
    if existsb (fun existing => are_diagnostics_equal existing diagnostic) diagnostics then
      with_check c (store_file diagnostics) (check_fixes c)
    else
      let fixes :=
        match fix_ with
        | Some f =>
            let f := mk_fix (fix_ranges f ++ [diagnostic_range diagnostic]) (fix_action f)
                       (fix_ownership_wrapper f) in
            update_entry [] (fun fixes => fixes ++ [f]) flycheck_id package_id file (check_fixes c)
        | None => check_fixes c
        end in
      extend_changes {[file]} (with_check c (store_file (diagnostics ++ [diagnostic])) fixes).

(** Pushing a fact that is not there yet, kept in the order of the ranges. *)
Definition push_sorted {A} `{EqDecision A} (key : A -> Range) (x : A) (l : list A) : list A :=
  if decide (x ∈ l) then l else sort_by (on key range_key_leb) (l ++ [x]).

Definition add_ownership_event (flycheck_id : nat) (package_id : option PackageSpecifier)
    (file : FileId) (event : AnalyzerData.OwnershipEvent) (c : DiagnosticCollection) :
    DiagnosticCollection :=
  with_ownership c (ownership_diagnostics c)
    (update_entry [] (push_sorted ev_range event) flycheck_id package_id file (ownership_events c))
    (ownership_tutorial_models c).

Definition add_ownership_diagnostic (flycheck_id : nat) (package_id : option PackageSpecifier)
    (file : FileId) (diagnostic : OwnershipDiagnostic) (c : DiagnosticCollection) :
    DiagnosticCollection :=
  with_ownership c
    (update_entry [] (push_sorted odiag_range diagnostic) flycheck_id package_id file
       (ownership_diagnostics c))
    (ownership_events c) (ownership_tutorial_models c).

(** [DiagnosticsTaskKind] *)
Inductive DiagnosticsTaskKind : Type :=
  | TaskSyntax (generation : N) (diagnostics : list (FileId * list Diagnostic))
  | TaskSemantic (generation : N) (diagnostics : list (FileId * list Diagnostic)).

Fixpoint iter_eq_by {A} (eq : A -> A -> bool) (l k : list A) : bool :=
  match l, k with
  | [], [] => true
  | x :: l, y :: k => eq x y && iter_eq_by eq l k
  | _, _ => false
  end.

Definition set_native_file (generation : N) (st : PerFile (N * list Diagnostic) * gset FileId)
    (entry : FileId * list Diagnostic) : PerFile (N * list Diagnostic) * gset FileId :=
  let '(target, changed) := st in
  let '(file, diagnostics) := entry in
  let diagnostics := sort_by (on diagnostic_range range_key_leb) diagnostics in
  match target !! file with
  | Some (old_gen, existing) =>
      if (len existing =? len diagnostics)%N && iter_eq_by are_diagnostics_equal diagnostics existing then
        (target, changed)
      else if (old_gen <? generation)%N || (generation =? 0)%N then
        (<[file := (generation, diagnostics)]> target, changed ∪ {[file]})
      else
        (<[file := (old_gen, sort_by (on diagnostic_range range_key_leb) (existing ++ diagnostics))]> target,
         changed ∪ {[file]})
  | None => (<[file := (generation, diagnostics)]> target, changed ∪ {[file]})
  end.

Definition set_native_diagnostics (kind : DiagnosticsTaskKind) (c : DiagnosticCollection) :
    DiagnosticCollection :=
  match kind with
  | TaskSyntax generation diagnostics =>
      let '(target, changed) := foldl (set_native_file generation) (native_syntax c, ∅) diagnostics in
      extend_changes changed (with_natives c target (native_semantic c))
  | TaskSemantic generation diagnostics =>
      let '(target, changed) := foldl (set_native_file generation) (native_semantic c, ∅) diagnostics in
      extend_changes changed (with_natives c (native_syntax c) target)
  end.

(** ** Queries *)

Definition diagnostics_for (c : DiagnosticCollection) (file : FileId) : list Diagnostic :=
  default [] (snd <$> native_syntax c !! file)
  ++ default [] (snd <$> native_semantic c !! file)
  ++ mbind (M := list)
       (fun workspace : WorkspaceFlycheckDiagnostic =>
          mbind (M := list) (fun package => default [] (pfd_per_file package !! file))
            (map_to_list workspace).*2) (check c).

Definition take_changes (c : DiagnosticCollection) : option (gset FileId) * DiagnosticCollection :=
  if decide (changes c = ∅) then (None, c)
  else (Some (changes c),
        mk_collection (native_syntax c) (native_semantic c) (check c) (check_fixes c)
          (ownership_diagnostics c) (ownership_events c) (ownership_tutorial_models c) ∅ (generation c)).

Definition next_generation (c : DiagnosticCollection) : N * DiagnosticCollection :=
  let next := (generation c + 1)%N in
  (next,
   mk_collection (native_syntax c) (native_semantic c) (check c) (check_fixes c)
     (ownership_diagnostics c) (ownership_events c) (ownership_tutorial_models c) (changes c) next).

(** ** The main loop *)

(** The members of [GlobalState] the ownership facts depend on. *)
Record GlobalState : Type := mk_global {
  diagnostics : DiagnosticCollection;
  ownership_artifact_sequence : N;
  ownership_file_sequences : PerFile N;
  pending_ownership_artifact_paths : gmap nat (list PathBuf);
  ownership_file_hashes : PerFile N;
  last_flycheck_error : option string
}.

Definition with_diagnostics (g : GlobalState) (c : DiagnosticCollection) : GlobalState :=
  mk_global c (ownership_artifact_sequence g) (ownership_file_sequences g)
    (pending_ownership_artifact_paths g) (ownership_file_hashes g) (last_flycheck_error g).

Definition with_pending (g : GlobalState) (pending : gmap nat (list PathBuf)) (error : option string) :
    GlobalState :=
  mk_global (diagnostics g) (ownership_artifact_sequence g) (ownership_file_sequences g)
    pending (ownership_file_hashes g) error.

Record PreparedOwnershipBatch : Type := mk_batch {
  batch_id : nat;
  batch_package_id : option PackageSpecifier;
  batch_sequence : N;
  batch_files : list PreparedOwnershipFile
}.

(** A background job: [prepare_ownership_model_artifacts] over these paths. *)
Record Job : Type := mk_job {
  job_id : nat;
  job_package_id : option PackageSpecifier;
  job_sequence : N;
  job_paths : list PathBuf
}.

Definition schedule_ownership_model_artifacts (id : nat) (package_id : option PackageSpecifier)
    (paths : list PathBuf) (g : GlobalState) : GlobalState * list Job :=
  if is_nil paths then (g, [])
  else
    let sequence := ((ownership_artifact_sequence g + 1) mod 2 ^ 64)%N in
    (mk_global (diagnostics g) sequence (ownership_file_sequences g)
       (pending_ownership_artifact_paths g) (ownership_file_hashes g) (last_flycheck_error g),
     [mk_job id package_id sequence paths]).

(** One file per task. *)
Definition job_tasks (job : Job) (files : list PreparedOwnershipFile) : list PreparedOwnershipBatch :=
  (fun file => mk_batch (job_id job) (job_package_id job) (job_sequence job) [file]) <$> files.

Definition commit_file (id : nat) (package_id : option PackageSpecifier) (sequence : N)
    (g : GlobalState) (file : PreparedOwnershipFile) : GlobalState :=
  let file_id := prepared_file_id file in
  if match ownership_file_sequences g !! file_id with
     | Some latest => (sequence <? latest)%N
     | None => false
     end then g
  else if negb (bool_decide (ownership_file_hashes g !! file_id = Some (prepared_vfs_hash file))) then g
  else
    let c := (replace_exact_ownership_events id package_id file_id (prepared_events file)
                (diagnostics g)).1 in
    let c := match prepared_model file with
             | Some model => (set_ownership_tutorial_model file_id model c).1
             | None => c
             end in
    mk_global c (ownership_artifact_sequence g)
      (<[file_id := sequence]> (ownership_file_sequences g))
      (pending_ownership_artifact_paths g) (ownership_file_hashes g) (last_flycheck_error g).

(** The notification to the editor and the disposal of what was replaced leave no trace
    in the state. *)
Definition commit_ownership_model_artifacts (batch : PreparedOwnershipBatch) (g : GlobalState) :
    GlobalState :=
  foldl (commit_file (batch_id batch) (batch_package_id batch) (batch_sequence batch)) g
    (batch_files batch).

(** ** Messages of a flycheck *)

Definition ownership_state_for_kind (kind : RaEventKind.OwnershipEventKind) : RaState.OwnershipState :=
  match kind with
  | RaEventKind.BorrowActivate | RaEventKind.BorrowMutable => RaState.MutablyBorrowed
  | RaEventKind.BorrowShared => RaState.SharedBorrowed
  | RaEventKind.Clone | RaEventKind.Copy => RaState.Available
  | RaEventKind.Drop => RaState.Dropped
  | RaEventKind.InvalidUse | RaEventKind.Move => RaState.Moved
  | RaEventKind.PartialMove => RaState.PartiallyMoved
  | RaEventKind.BorrowEnd | RaEventKind.LastUse | RaEventKind.Reinitialize => RaState.Available
  end.

Definition should_record_invalid_use (severity : option N) : bool :=
  bool_decide (severity = Some 1%N).

Definition is_teachable_rust_diagnostic (code : string) : bool :=
  existsb (String.eqb code)
    ["E0106"; "E0277"; "E0308"; "E0373"; "E0382"; "E0499"; "E0502"; "E0503"; "E0505"; "E0506";
     "E0507"; "E0515"; "E0521"; "E0594"; "E0596"; "E0597"; "E0599"; "E0716"; "E0728"; "E0733"]%string.

(** [OwnershipEventPayload] and [OwnershipModelPointer], the JSON a transport
    diagnostic carries in its message. *)
Record OwnershipEventPayload : Type := mk_payload {
  payload_version : N;
  payload_kind : RaEventKind.OwnershipEventKind;
  payload_name : string;
  payload_source_hash : string;
  payload_binding_byte_start : N;
  payload_detail : option string
}.

Record OwnershipModelPointer : Type := mk_pointer {
  pointer_version : N;
  pointer_path : PathBuf
}.

Record RustDiagnostic : Type := mk_rust_diagnostic {
  rust_code : option string;
  rust_message : string;
  rust_rest : Rest
}.

(** [MappedRustDiagnostic] *)
Record MappedRustDiagnostic : Type := mk_mapped {
  mapped_url : PathBuf;
  mapped_diagnostic : Diagnostic;
  mapped_fix : option Fix
}.

Inductive ClearScope : Type :=
  | ScopeWorkspace
  | ScopePackage (package_id : PackageSpecifier).

Inductive FlycheckProgress : Type :=
  | DidStart
  | DidCheckCrate (target : string)
  | DidCancel
  | DidFailToRestart (error : string)
  | DidFinish (error : option string).

Inductive FlycheckMessage : Type :=
  | AddDiagnostic (id : nat) (generation : N) (diagnostic : RustDiagnostic)
      (package_id : option PackageSpecifier)
  | OwnershipArtifacts (id : nat) (paths : list PathBuf)
  | ClearAll (id : nat) (scope : ClearScope)
  | ClearOlderThan (id : nat) (generation : N) (scope : ClearScope)
  | Progress (id : nat) (progress : FlycheckProgress).

(** What the handler asks of the rest of the analyzer: the configuration, the conversion of
    a rustc diagnostic, the JSON decoder, the file of a path; and of the revision the
    snapshot holds, the text of a file. *)
Record FlycheckEnv : Type := mk_env {
  ownership_enabled : bool;
  map_rust_diagnostic_to_lsp : RustDiagnostic -> list MappedRustDiagnostic;
  parse_payload : string -> option OwnershipEventPayload;
  parse_pointer : string -> option OwnershipModelPointer;
  file_of : PathBuf -> option FileId
}.

Section flycheck.
Context (env : FlycheckEnv) (text_of : FileId -> option string).

(** An event of the older transport, for the file a diagnostic points into.  The sum of the
    binding's start and the length of its name is taken without overflow: both index the
    text whose hash was just compared. *)
Definition legacy_event (payload : OwnershipEventPayload) (diag : Diagnostic) (text : string) :
    option AnalyzerData.OwnershipEvent :=
  if negb (stable_source_hash text =s payload_source_hash payload) then None
  else
    binding_start ← text_size (payload_binding_byte_start payload);
    binding_len ← text_size (str_len (payload_name payload));
    if (str_len text <? binding_start + binding_len)%N then None
    else
      Some (mk_ev
              ("legacy-" +:+ show (payload_binding_byte_start payload) +:+ "-"
               +:+ show (position_line (range_start (diagnostic_range diag))))
              0 0 0 (payload_kind payload) (ownership_state_for_kind (payload_kind payload))
              (diagnostic_range diag) (lsp_range text binding_start (binding_start + binding_len))
              (payload_name payload) (payload_name payload) None true (payload_detail payload) None).

Definition add_legacy_event (id : nat) (package_id : option PackageSpecifier)
    (payload : OwnershipEventPayload) (g : GlobalState) (diag : MappedRustDiagnostic) : GlobalState :=
  match file_id ← file_of env (mapped_url diag);
        text ← text_of file_id;
        event ← legacy_event payload (mapped_diagnostic diag) text;
        Some (file_id, event) with
  | Some (file_id, event) =>
      with_diagnostics g (add_ownership_event id package_id file_id event (diagnostics g))
  | None => g
  end.

Definition invalid_use_event (name : string) (diag : Diagnostic) : AnalyzerData.OwnershipEvent :=
  mk_ev ("invalid-use-" +:+ name +:+ "-" +:+ show (position_line (range_start (diagnostic_range diag))))
    0 0 0 RaEventKind.InvalidUse RaState.Moved (diagnostic_range diag) (diagnostic_range diag)
    name name None true
    (Some "rustc rejected this use because the value was already moved"%string) None.

Definition recorded_diagnostic (code message : string) (url : PathBuf) (diag : Diagnostic) :
    OwnershipDiagnostic :=
  mk_odiag code message (diagnostic_range diag)
    ((fun related => mk_odrelated (related_message related) (related_range related)) <$>
       retain (fun related => related_uri related =s url) (default [] (diagnostic_related diag))).

Definition add_mapped_diagnostic (id : nat) (generation : N) (package_id : option PackageSpecifier)
    (teachable : option (string * string)) (invalid_use_name : option string)
    (g : GlobalState) (diag : MappedRustDiagnostic) : GlobalState :=
  match file_of env (mapped_url diag) with
  | None => g
  | Some file_id =>
      let lsp := mapped_diagnostic diag in
      let recorded := should_record_invalid_use (diagnostic_severity lsp) in
      let c := diagnostics g in
      let c := match teachable with
               | Some (code, message) =>
                   if recorded then
                     add_ownership_diagnostic id package_id file_id
                       (recorded_diagnostic code message (mapped_url diag) lsp) c
                   else c
               | None => c
               end in
      let c := match invalid_use_name with
               | Some name =>
                   if recorded then
                     add_ownership_event id package_id file_id (invalid_use_event name lsp) c
                   else c
               | None => c
               end in
      with_diagnostics g
        (add_check_diagnostic id generation package_id file_id lsp (mapped_fix diag) c)
  end.

(** The name between the last two backquotes of a message. *)
Definition invalid_use_name (message : string) : string :=
  default "value"%string (rev (split_on "`"%char message) !! 1).

Definition add_diagnostic (id : nat) (generation : N) (package_id : option PackageSpecifier)
    (diagnostic : RustDiagnostic) (g : GlobalState) : GlobalState :=
  let code_is p := match rust_code diagnostic with Some code => p code | None => false end in
  let model_transport := code_is (String.eqb "borrowck_ownership_model") in
  let transport :=
    code_is (fun code => starts_with "borrowck_ownership_" code
                         && negb (code =s "borrowck_ownership_model")) in
  if model_transport then
    match parse_pointer env (rust_message diagnostic) with
    | Some pointer =>
        if (2 <=? pointer_version pointer)%N && (pointer_version pointer <=? 4)%N then
          with_pending g
            (or_default [] (fun paths => paths ++ [pointer_path pointer]) id
               (pending_ownership_artifact_paths g)) (last_flycheck_error g)
        else g
    | None => g
    end
  else
    let mapped := map_rust_diagnostic_to_lsp env diagnostic in
    if transport then
      match parse_payload env (rust_message diagnostic) with
      | Some payload =>
          if negb (payload_version payload =? 1)%N then g
          else foldl (add_legacy_event id package_id payload) g mapped
      | None => g
      end
    else
      let teachable :=
        code ← rust_code diagnostic;
        if is_teachable_rust_diagnostic code then Some (code, rust_message diagnostic) else None in
      let name :=
        if ownership_enabled env && code_is (String.eqb "E0382")
        then Some (invalid_use_name (rust_message diagnostic)) else None in
      foldl (add_mapped_diagnostic id generation package_id teachable name) g mapped.

(** Progress reports to the editor are left out: they read the state and change none of it. *)
Definition handle_flycheck_msg (message : FlycheckMessage) (g : GlobalState) : GlobalState * list Job :=
  match message with
  | AddDiagnostic id generation diagnostic package_id =>
      (add_diagnostic id generation package_id diagnostic g, [])
  | OwnershipArtifacts id paths =>
      (with_pending g
         (or_default [] (fun pending => pending ++ paths) id (pending_ownership_artifact_paths g))
         (last_flycheck_error g), [])
  | ClearAll id ScopeWorkspace => (with_diagnostics g (clear_check id (diagnostics g)), [])
  | ClearAll id (ScopePackage package_id) =>
      (with_diagnostics g (clear_check_for_package id package_id (diagnostics g)), [])
  | ClearOlderThan id generation ScopeWorkspace =>
      (with_diagnostics g (clear_check_older_than id generation (diagnostics g)), [])
  | ClearOlderThan id generation (ScopePackage package_id) =>
      (with_diagnostics g
         (clear_check_older_than_for_package id package_id generation (diagnostics g)), [])
  | Progress id progress =>
      let pending := pending_ownership_artifact_paths g in
      match progress with
      | DidStart => (with_pending g (delete id pending) (last_flycheck_error g), [])
      | DidCheckCrate _ => (g, [])
      | DidCancel => (with_pending g (delete id pending) None, [])
      | DidFailToRestart error =>
          (with_pending g (delete id pending) (Some ("cargo check failed to start: " +:+ error)), [])
      | DidFinish error =>
          let g := with_pending g (delete id pending)
                     ((fun error => "cargo check failed to start: " +:+ error) <$> error) in
          match pending !! id with
          | Some paths => schedule_ownership_model_artifacts id None paths g
          | None => (g, [])
          end
      end
  end.
End flycheck.

(** ** Edits *)

(** What [process_changes] does for a changed file; [hash] is what the file system holds of it
    now, [None] when it is gone. *)
Definition process_file (hash : option N) (file : FileId) (g : GlobalState) : GlobalState :=
  let hashes := match hash with
                | Some hash => <[file := hash]> (ownership_file_hashes g)
                | None => delete file (ownership_file_hashes g)
                end in
  let c := clear_ownership_for file (diagnostics g) in
  let c := match hash with Some _ => c | None => clear_native_for file c end in
  mk_global c (ownership_artifact_sequence g) (ownership_file_sequences g)
    (pending_ownership_artifact_paths g) hashes (last_flycheck_error g).

(** ** The main loop beside what runs next to it *)

(** [vfs] is the shared file system, written by notifications at once, and [changed] its list
    of changes; [analysis] holds the texts of the revision that snapshots query, moved by
    [process_changes] alone, which cancels and waits for the snapshots of the revision before. *)
Record World : Type := mk_world {
  global : GlobalState;
  vfs : PerFile string;
  changed : gset FileId;
  analysis : PerFile string;
  jobs : list Job;
  tasks : list PreparedOwnershipBatch
}.

Definition empty_global : GlobalState := mk_global empty_collection 0 ∅ ∅ ∅ None.
Definition empty_world : World := mk_world empty_global ∅ ∅ ∅ [] [].

Definition with_global (w : World) (g : GlobalState) : World :=
  mk_world g (vfs w) (changed w) (analysis w) (jobs w) (tasks w).

Section world.
(** The hash of a file's bytes, and their text: UTF-8 with line endings normalised. *)
Context (env : FlycheckEnv) (content_hash : string -> N) (decode : string -> option string).

(** A snapshot answers texts from the revision it was taken of, and content hashes from the
    shared file system. *)
Definition snapshot_of (w : World) : Snapshot :=
  mk_snapshot (file_of env) (fun file => analysis w !! file)
    (fun file => content_hash <$> vfs w !! file).

(** [Vfs::set_file_contents] *)
Definition set_file_contents (file : FileId) (contents : option string) (w : World) : World :=
  if decide (content_hash <$> vfs w !! file = content_hash <$> contents) then w
  else mk_world (global w) (partial_alter (fun _ => contents) file (vfs w)) (changed w ∪ {[file]})
         (analysis w) (jobs w) (tasks w).

Definition process_changes (w : World) : World :=
  mk_world
    (foldl (fun g file => process_file (content_hash <$> vfs w !! file) file g) (global w)
       (elements (changed w)))
    (vfs w) ∅
    (foldl (fun texts file => partial_alter (fun _ => vfs w !! file ≫= decode) file texts) (analysis w)
       (elements (changed w)))
    (jobs w) (tasks w).

Definition on_flycheck (message : FlycheckMessage) (w : World) : World :=
  let '(g, scheduled) :=
    handle_flycheck_msg env (fun file => analysis w !! file) message (global w) in
  mk_world g (vfs w) (changed w) (analysis w) (jobs w ++ scheduled) (tasks w).

(** The turns of the main loop and of its workers.  A job prepares what reading its paths gives
    at that moment; the tasks of the workers arrive in any order.  With [settled], a job only
    runs while no change waits for [process_changes]. *)
Inductive step (settled : bool) : World -> World -> Prop :=
  | step_edit w file contents : step settled w (set_file_contents file contents w)
  | step_process w : step settled w (process_changes w)
  | step_flycheck w message : step settled w (on_flycheck message w)
  | step_prepare w before job after artifacts :
      jobs w = before ++ job :: after ->
      (settled = true -> changed w = ∅) ->
      step settled w
        (mk_world (global w) (vfs w) (changed w) (analysis w) (before ++ after)
           (tasks w ++ job_tasks job (prepare_ownership_model_artifacts (snapshot_of w) artifacts)))
  | step_commit w before batch after :
      tasks w = before ++ batch :: after ->
      step settled w
        (mk_world (commit_ownership_model_artifacts batch (global w)) (vfs w) (changed w)
           (analysis w) (jobs w) (before ++ after))
  | step_native w kind :
      step settled w
        (with_global w (with_diagnostics (global w)
                          (set_native_diagnostics kind (diagnostics (global w)))))
  | step_clear_native w file :
      step settled w
        (with_global w (with_diagnostics (global w) (clear_native_for file (diagnostics (global w)))))
  | step_clear_all w :
      step settled w
        (with_global w (with_diagnostics (global w) (clear_check_all (diagnostics (global w)))))
  | step_take_changes w :
      step settled w
        (with_global w (with_diagnostics (global w) (take_changes (diagnostics (global w))).2))
  | step_next_generation w :
      step settled w
        (with_global w (with_diagnostics (global w) (next_generation (diagnostics (global w))).2)).
End world.
End collection.

Arguments Diagnostic : clear implicits.
Arguments Fix : clear implicits.
Arguments PackageFlycheckDiagnostic : clear implicits.
Arguments DiagnosticCollection : clear implicits.
Arguments DiagnosticsTaskKind : clear implicits.
Arguments GlobalState : clear implicits.
Arguments RustDiagnostic : clear implicits.
Arguments MappedRustDiagnostic : clear implicits.
Arguments FlycheckMessage : clear implicits.
Arguments FlycheckEnv : clear implicits.
Arguments World : clear implicits.
