(* ===== verification/AnalyzerStateSpec.v ===== *)
(** * What the stored ownership facts are worth

    Properties of [AnalyzerState]: what the tables hold after an entry is updated, the
    exact events of a file after a commit, that the order in which background results
    arrive does not matter, and an update of native diagnostics that is forgotten. *)

From Stdlib Require Import Ascii String.
From S2P Require Import Prelude RustStr RustColl RustPath Fnv CompilerData MemoryGraph RepairPlan AnalyzerData Autofix AutofixDriver AnalyzerModel AnalyzerState.
From S2P Require Import Protocol.
From stdpp Require Import options.

(** ** Tables *)

Lemma elem_of_push_new {A} `{EqDecision A} (l result : list A) x :
  x ∈ foldl push_new result l <-> x ∈ result \/ x ∈ l.
Proof.
  revert result. induction l as [|y l IH]; intros result; simpl; [set_solver|].
  rewrite IH. unfold push_new. case_decide; set_solver.
Qed.

Lemma elem_of_events_for_file events file e :
  e ∈ ownership_events_for_file events file <-> e ∈ values_for events file.
Proof. unfold ownership_events_for_file. rewrite elem_of_sort_by, elem_of_push_new. set_solver. Qed.

(** A value is found for a file exactly when some package of some flycheck holds it. *)
Lemma elem_of_values_for {A} (t : Table (list A)) file x :
  x ∈ values_for t file <->
  exists id (flycheck : PerPackage (PerFile (list A))) package entry values,
    t !! id = Some flycheck /\ flycheck !! package = Some entry /\ entry !! file = Some values /\ x ∈ values.
Proof.
  unfold values_for. rewrite list_elem_of_bind. split.
  - intros (flycheck & Hx & [id Hid]%list_elem_of_lookup_1).
    apply list_elem_of_bind in Hx as (entry & Hx & Hentry).
    apply list_elem_of_fmap in Hentry as ([package entry'] & -> & Hp%elem_of_map_to_list); simpl in *.
    destruct (entry' !! file) as [values|] eqn:Hv; simpl in Hx; [|by apply elem_of_nil in Hx].
    naive_solver.
  - intros (id & flycheck & package & entry & values & Hid & Hp & Hv & Hx). exists flycheck.
    split; [|by eapply list_elem_of_lookup_2]. apply list_elem_of_bind. exists entry. split.
    + by rewrite Hv.
    + apply list_elem_of_fmap. exists (package, entry). split; [done|]. by apply elem_of_map_to_list.
Qed.

Lemma grow_lookup {A} (empty : A) id l i x :
  grow empty id l !! i = Some x -> l !! i = Some x \/ (l !! i = None /\ x = empty).
Proof.
  unfold grow. case_decide; [|by left]. rewrite lookup_app. destruct (l !! i) eqn:Hl; [by left|].
  intros [-> _]%lookup_replicate. by right.
Qed.

Lemma grow_lookup_id {A} (empty : A) id l : is_Some (grow empty id l !! id).
Proof.
  apply lookup_lt_is_Some_2. unfold grow. case_decide; [|lia]. rewrite length_app, length_replicate. lia.
Qed.

Lemma grow_keeps {A} (empty : A) id l i x : l !! i = Some x -> grow empty id l !! i = Some x.
Proof. intros Hx. unfold grow. case_decide; [|done]. by apply lookup_app_l_Some. Qed.

(** The entry a table holds, empty when it holds none. *)
Lemma entry_of_values {A} (t : Table (list A)) file x :
  x ∈ values_for t file <-> exists id package, x ∈ entry_of t id package file.
Proof.
  rewrite elem_of_values_for. unfold entry_of. split.
  - intros (id & flycheck & package & entry & values & Hid & Hp & Hv & Hx). exists id, package.
    by rewrite Hid; simpl; rewrite Hp; simpl; rewrite Hv.
  - intros (id & package & Hx). destruct (t !! id) as [flycheck|] eqn:Hid; simpl in Hx; [|set_solver].
    destruct (flycheck !! package) as [entry|] eqn:Hp; simpl in Hx; [|set_solver].
    destruct (entry !! file) as [values|] eqn:Hv; simpl in Hx; [|set_solver]. naive_solver.
Qed.

Lemma or_default_lookup {K A} `{Countable K} (empty : A) f (key : K) m :
  or_default empty f key m !! key = Some (f (default empty (m !! key))).
Proof. apply lookup_insert_eq. Qed.

Lemma or_default_lookup_ne {K A} `{Countable K} (empty : A) f (key k : K) m :
  key <> k -> or_default empty f key m !! k = m !! k.
Proof. apply lookup_insert_ne. Qed.

Lemma grow_entry_of {A} (t : Table (list A)) n id package file :
  entry_of (grow ∅ n t) id package file = entry_of t id package file.
Proof.
  unfold entry_of. destruct (grow ∅ n t !! id) as [m|] eqn:Hg; simpl.
  - apply grow_lookup in Hg as [->|[-> ->]]; simpl; [done|]. by rewrite lookup_empty.
  - destruct (t !! id) as [m|] eqn:Ht; simpl; [|done].
    apply (grow_keeps ∅ n) in Ht. congruence.
Qed.

Lemma entry_of_alter {A} (t : Table (list A)) g n id package file :
  id <> n -> entry_of (alter g n t) id package file = entry_of t id package file.
Proof. intros Hne. unfold entry_of. by rewrite list_lookup_alter_ne by congruence. Qed.

(** Updating an entry changes that entry and no other. *)
Lemma entry_of_update {A} (f : list A -> list A) (n : nat) (p : option PackageSpecifier) (fid : FileId)
    (t : Table (list A)) (id : nat) (package : option PackageSpecifier) (file : FileId) :
  entry_of (update_entry [] f n p fid t) id package file =
  if decide (id = n /\ package = p /\ file = fid) then f (entry_of t n p fid)
  else entry_of t id package file.
Proof.
  unfold update_entry. destruct (decide (id = n)) as [->|Hid].
  2:{ rewrite entry_of_alter by done. rewrite decide_False by tauto. apply grow_entry_of. }
  rewrite <-(grow_entry_of t n n package file), <-(grow_entry_of t n n p fid).
  generalize (grow_lookup_id ∅ n t). generalize (grow ∅ n t). clear t.
  intros t [m Hm]. unfold entry_of. rewrite list_lookup_alter_eq, Hm; simpl.
  destruct (decide (package = p)) as [->|Hp].
  - rewrite or_default_lookup; simpl. destruct (m !! p) as [entry|] eqn:Hmp; simpl.
    + destruct (decide (file = fid)) as [->|Hf].
      * rewrite or_default_lookup, decide_True by done. done.
      * rewrite or_default_lookup_ne by congruence. rewrite decide_False by tauto. done.
    + destruct (decide (file = fid)) as [->|Hf].
      * rewrite or_default_lookup, decide_True by done. done.
      * rewrite or_default_lookup_ne by congruence. rewrite decide_False by tauto. by rewrite lookup_empty.
  - rewrite or_default_lookup_ne by congruence. rewrite decide_False by tauto. done.
Qed.

(** ** Replacing the exact events of a file *)

Lemma drop_exact_lookup file package f :
  drop_exact file package !! f =
  if decide (f = file) then retain (fun e => negb (ev_exact e)) <$> package !! f else package !! f.
Proof.
  unfold drop_exact. case_decide as Hf; [subst|by apply lookup_alter_ne].
  rewrite lookup_alter_eq. destruct (package !! file) as [events|]; simpl; [|done]. f_equal.
  unfold any_exact. destruct (existsb ev_exact events) eqn:Hex; [done|]. symmetry. apply retain_all.
  intros e He. apply negb_true_iff. destruct (ev_exact e) eqn:Hee; [|done].
  rewrite <-Hex. symmetry. apply existsb_exists. exists e. by rewrite <-list_elem_of_In.
Qed.

Lemma entry_of_drop_exact (file : FileId) (t : OwnershipEvents) (id : nat)
    (package : option PackageSpecifier) (f : FileId) :
  entry_of (fmap (M := list) (fmap (M := gmap _) (drop_exact file)) t) id package f =
  if decide (f = file) then retain (fun e => negb (ev_exact e)) (entry_of t id package f)
  else entry_of t id package f.
Proof.
  unfold entry_of. rewrite list_lookup_fmap. destruct (t !! id) as [m|]; simpl; [|by case_decide].
  rewrite lookup_fmap. destruct (m !! package) as [entry|]; simpl; [|by case_decide].
  rewrite drop_exact_lookup. case_decide; [|done]. by destruct (entry !! f).
Qed.

(** [Vec::dedup] loses no value. *)
Lemma dedup_keeps_values {A} `{EqDecision A} (l : list A) x :
  x ∈ l -> x ∈ dedup_by (fun a b => bool_decide (a = b)) l.
Proof.
  destruct l as [|y l]; [done|]. simpl. revert y.
  induction l as [|z l IH]; intros y; [done|]. intros Hx; simpl. case_bool_decide as Hzy.
  - apply IH. set_solver.
  - apply elem_of_cons in Hx as [->|Hx]; [apply list_elem_of_here|]. apply list_elem_of_further, IH, Hx.
Qed.

Lemma elem_of_merge_events e new_events estimated :
  e ∈ merge_events new_events estimated <-> e ∈ estimated \/ e ∈ new_events.
Proof.
  unfold merge_events. rewrite <-elem_of_app, <-(elem_of_sort_by (on ev_range range_key_leb) e (estimated ++ new_events)). split.
  - apply elem_of_dedup_by.
  - apply dedup_keeps_values.
Qed.

Section collection.
Context {Rest Action : Type}.
Implicit Types c : DiagnosticCollection Rest Action.
Implicit Types g : GlobalState Rest Action.

Lemma replaced_entry flycheck_id package_id file new_events c (id : nat)
    (package : option PackageSpecifier) (f : FileId) :
  entry_of (ownership_events (replace_exact_ownership_events flycheck_id package_id file new_events c).1)
    id package f =
  if decide (id = flycheck_id /\ package = package_id /\ f = file)
  then merge_events new_events
         (retain (fun e => negb (ev_exact e)) (entry_of (ownership_events c) id package f))
  else if decide (f = file)
  then retain (fun e => negb (ev_exact e)) (entry_of (ownership_events c) id package f)
  else entry_of (ownership_events c) id package f.
Proof.
  simpl. rewrite entry_of_update, !entry_of_drop_exact.
  destruct (decide (id = flycheck_id /\ package = package_id /\ f = file)) as [(-> & -> & ->)|]; [|done].
  by rewrite decide_True.
Qed.

(** After the exact events of a file are replaced, the file has its estimated events and the new
    ones, and every other file the events it had. *)
Lemma replaced_values flycheck_id package_id file new_events c f e :
  e ∈ values_for (ownership_events
        (replace_exact_ownership_events flycheck_id package_id file new_events c).1) f <->
  if decide (f = file) then (ev_exact e = false /\ e ∈ values_for (ownership_events c) f) \/ e ∈ new_events
  else e ∈ values_for (ownership_events c) f.
Proof.
  rewrite (entry_of_values (ownership_events (_.1))). setoid_rewrite replaced_entry.
  set (kept id package := retain (fun e => negb (ev_exact e)) (entry_of (ownership_events c) id package f)).
  assert (forall id package, e ∈ kept id package <->
            ev_exact e = false /\ e ∈ entry_of (ownership_events c) id package f) as Hkept.
  { intros. unfold kept. by rewrite elem_of_retain, negb_true_iff. }
  destruct (decide (f = file)) as [->|Hf]; rewrite entry_of_values.
  - split.
    + intros (id & package & He).
      destruct (decide (id = flycheck_id /\ package = package_id /\ file = file)) as [H|H].
      * apply elem_of_merge_events in He as [[]%Hkept|]; [left; split; [done|by eexists _, _]|by right].
      * apply Hkept in He as []. left; split; [done|by eexists _, _].
    + intros [[Hex (id & package & He)]|He].
      * exists id, package. assert (e ∈ kept id package) as He' by by apply Hkept.
        destruct (decide (id = flycheck_id /\ package = package_id /\ file = file)) as [H|H]; [|done].
        apply elem_of_merge_events. by left.
      * exists flycheck_id, package_id. rewrite decide_True by done. apply elem_of_merge_events. by right.
  - apply exist_proper; intros id. apply exist_proper; intros package.
    by rewrite decide_False by tauto.
Qed.

(** What a file shows: the model and the exact events of a prepared file, at a sequence. *)
Definition shows g (sequence : N) (file : PreparedOwnershipFile) : Prop :=
  let file_id := prepared_file_id file in
  ownership_file_sequences g !! file_id = Some sequence /\
  ownership_tutorial_models (diagnostics g) !! file_id = prepared_model file /\
  forall e, ev_exact e = true ->
    (e ∈ ownership_events_for_file (ownership_events (diagnostics g)) file_id <->
     e ∈ prepared_events file).

Definition is_fresh g (file : PreparedOwnershipFile) : Prop :=
  ownership_file_hashes g !! prepared_file_id file = Some (prepared_vfs_hash file).

#[local] Instance is_fresh_dec g file : Decision (is_fresh g file).
Proof. unfold is_fresh. apply _. Defined.

(** A committed file is shown. *)
Lemma commit_file_shows id package_id sequence g file :
  is_fresh g file ->
  (forall latest, ownership_file_sequences g !! prepared_file_id file = Some latest ->
     (latest <= sequence)%N) ->
  shows (commit_file id package_id sequence g file) sequence file.
Proof.
  intros Hfresh Hle. unfold commit_file.
  destruct (match _ with Some _ => _ | None => false end) eqn:Hold.
  { destruct (ownership_file_sequences g !! prepared_file_id file) as [latest|]; [|done].
    apply N.ltb_lt in Hold. specialize (Hle latest eq_refl). lia. }
  rewrite (bool_decide_eq_true_2 _ Hfresh); simpl.
  unfold shows; simpl. split; [apply lookup_insert_eq|]. split.
  - destruct (prepared_model file); simpl; [apply lookup_insert_eq|apply lookup_delete_eq].
  - intros e He. rewrite elem_of_events_for_file.
    transitivity (e ∈ values_for (ownership_events
      (replace_exact_ownership_events id package_id (prepared_file_id file)
         (prepared_events file) (diagnostics g)).1) (prepared_file_id file)).
    { by destruct (prepared_model file). }
    rewrite replaced_values, decide_True by done. rewrite He. naive_solver.
Qed.

(** A commit of one file leaves what another shows. *)
Lemma commit_file_other id package_id sequence g file sequence' file' :
  prepared_file_id file' <> prepared_file_id file ->
  shows g sequence' file' -> shows (commit_file id package_id sequence g file) sequence' file'.
Proof.
  intros Hne (Hseq & Hmodel & Hevents). unfold commit_file.
  destruct (match _ with Some _ => _ | None => false end); [done|].
  destruct (bool_decide _); [simpl|done]. unfold shows; simpl. split; [|split].
  - by rewrite lookup_insert_ne by congruence.
  - rewrite <-Hmodel. destruct (prepared_model file); simpl;
      rewrite ?lookup_insert_ne, lookup_delete_ne by congruence; done.
  - intros e He. rewrite <-(Hevents e He), !elem_of_events_for_file.
    transitivity (e ∈ values_for (ownership_events
      (replace_exact_ownership_events id package_id (prepared_file_id file)
         (prepared_events file) (diagnostics g)).1) (prepared_file_id file')).
    { by destruct (prepared_model file). }
    by rewrite replaced_values, decide_False by congruence.
Qed.

Lemma commit_file_hashes id package_id sequence g file :
  ownership_file_hashes (commit_file id package_id sequence g file) = ownership_file_hashes g.
Proof.
  unfold commit_file. destruct (match _ with Some _ => _ | None => false end); [done|].
  by destruct (bool_decide _).
Qed.

(** Commits only move the sequence of a file forward. *)
Lemma commit_file_sequence id package_id sequence g file f latest :
  ownership_file_sequences (commit_file id package_id sequence g file) !! f = Some latest ->
  ownership_file_sequences g !! f = Some latest \/
  (f = prepared_file_id file /\ latest = sequence /\ is_fresh g file).
Proof.
  unfold commit_file. destruct (match _ with Some _ => _ | None => false end); [by left|].
  destruct (bool_decide _) eqn:Hfresh; [simpl|by left]. apply bool_decide_eq_true in Hfresh.
  destruct (decide (f = prepared_file_id file)) as [->|]; [|rewrite lookup_insert_ne by congruence; by left].
  rewrite lookup_insert_eq. intros [= <-]. by right.
Qed.

(** ** Results arrive in any order *)

Definition deliver g (batches : list PreparedOwnershipBatch) : GlobalState Rest Action :=
  foldl (fun g batch => commit_ownership_model_artifacts batch g) g batches.

(** The files of some batches, each with the batch it came in. *)
Definition deliveries (batches : list PreparedOwnershipBatch) :
    list (PreparedOwnershipBatch * PreparedOwnershipFile) :=
  batches ≫= (fun batch => (batch,.) <$> batch_files batch).

Definition commit_delivery g (d : PreparedOwnershipBatch * PreparedOwnershipFile) : GlobalState Rest Action :=
  commit_file (batch_id d.1) (batch_package_id d.1) (batch_sequence d.1) g d.2.

Lemma deliver_deliveries batches g : deliver g batches = foldl commit_delivery g (deliveries batches).
Proof.
  unfold deliver, deliveries. revert g. induction batches as [|batch batches IH]; intros g; [done|].
  simpl. rewrite IH, foldl_app. f_equal. unfold commit_ownership_model_artifacts.
  generalize (batch_files batch). intros files. revert g.
  induction files as [|file files IHf]; intros g; [done|]. simpl. by rewrite IHf.
Qed.

Lemma elem_of_deliveries batches batch file :
  (batch, file) ∈ deliveries batches <-> batch ∈ batches /\ file ∈ batch_files batch.
Proof.
  unfold deliveries. rewrite list_elem_of_bind. split.
  - intros (batch' & (file' & [= -> ->] & Hf)%list_elem_of_fmap & Hb). done.
  - intros [Hb Hf]. exists batch. split; [|done]. apply list_elem_of_fmap. by exists file.
Qed.

Lemma deliveries_hashes l g :
  ownership_file_hashes (foldl commit_delivery g l) = ownership_file_hashes g.
Proof.
  revert g. induction l as [|d l IH]; intros g; [done|]. simpl. rewrite IH. apply commit_file_hashes.
Qed.

(** The sequence of a file stays below a bound on what was there and what is committed. *)
Lemma deliveries_sequence l g f bound :
  (forall latest, ownership_file_sequences g !! f = Some latest -> (latest <= bound)%N) ->
  (forall d, d ∈ l -> prepared_file_id d.2 = f -> is_fresh g d.2 -> (batch_sequence d.1 <= bound)%N) ->
  forall latest, ownership_file_sequences (foldl commit_delivery g l) !! f = Some latest ->
    (latest <= bound)%N.
Proof.
  revert g. induction l as [|d l IH]; intros g Hg Hl; [done|]. simpl. apply IH.
  - intros latest [|(-> & -> & Hfresh)]%commit_file_sequence; [by apply Hg|].
    by apply Hl; [apply list_elem_of_here| |].
  - intros d' Hd' Hf Hfresh. apply Hl; [by apply list_elem_of_further|done|].
    unfold is_fresh in *. unfold commit_delivery in Hfresh. by rewrite commit_file_hashes in Hfresh.
Qed.

(** What the newest fresh result shows stays, whatever is committed after it. *)
Lemma deliveries_keep l g sequence file :
  shows g sequence file -> is_fresh g file ->
  (forall d, d ∈ l -> prepared_file_id d.2 = prepared_file_id file -> is_fresh g d.2 ->
     (batch_sequence d.1 < sequence)%N \/ (batch_sequence d.1 = sequence /\ d.2 = file)) ->
  shows (foldl commit_delivery g l) sequence file.
Proof.
  revert g. induction l as [|d l IH]; intros g Hshows Hfile Hl; [done|]. simpl.
  assert (forall f, is_fresh (commit_delivery g d) f <-> is_fresh g f) as Hsame.
  { intros f. unfold is_fresh, commit_delivery. by rewrite commit_file_hashes. }
  apply IH; [|by apply Hsame|].
  2:{ intros d' Hd' Hf Hfresh%Hsame. apply Hl; [by apply list_elem_of_further|done..]. }
  destruct (decide (prepared_file_id file = prepared_file_id d.2)) as [Heq|Hne];
    [|by apply commit_file_other].
  pose proof Hshows as (Hseq & _).
  destruct (decide (is_fresh g d.2)) as [Hfresh|Hstale].
  - destruct (Hl d ltac:(apply list_elem_of_here) (eq_sym Heq) Hfresh) as [Hlt|[Hs Hd]].
    + unfold commit_delivery, commit_file. rewrite <-Heq, Hseq. by rewrite (proj2 (N.ltb_lt _ _) Hlt).
    + unfold commit_delivery. rewrite Hs, Hd. apply commit_file_shows; [done|].
      intros latest Hlatest. rewrite Hseq in Hlatest. injection Hlatest as <-. lia.
  - unfold commit_delivery, commit_file. destruct (match _ with Some _ => _ | None => false end); [done|].
    by rewrite bool_decide_eq_false_2.
Qed.

(** C5: Background preparation finishes in any order, yet once every result is delivered each file
    shows the facts of the newest check: of the results whose content hash is the file's, the one
    with the greatest sequence is displayed, both its model and its exact events, whatever the
    order of delivery. *)
Theorem newest_facts_shown batches g batch file :
  batch ∈ batches -> file ∈ batch_files batch -> is_fresh g file ->
  (forall latest, ownership_file_sequences g !! prepared_file_id file = Some latest ->
     (latest <= batch_sequence batch)%N) ->
  (forall batch' file', batch' ∈ batches -> file' ∈ batch_files batch' ->
     prepared_file_id file' = prepared_file_id file -> is_fresh g file' ->
     (batch_sequence batch' < batch_sequence batch)%N \/
     (batch_sequence batch' = batch_sequence batch /\ file' = file)) ->
  shows (deliver g batches) (batch_sequence batch) file.
Proof.
  intros Hb Hf Hfresh Hseq Hnewest. rewrite deliver_deliveries.
  assert ((batch, file) ∈ deliveries batches) as Hd by by apply elem_of_deliveries.
  assert (forall d, d ∈ deliveries batches -> prepared_file_id d.2 = prepared_file_id file ->
            is_fresh g d.2 -> (batch_sequence d.1 < batch_sequence batch)%N \/
              (batch_sequence d.1 = batch_sequence batch /\ d.2 = file)) as Hall.
  { intros [b f] [? ?]%elem_of_deliveries; simpl. by eapply Hnewest. }
  apply list_elem_of_split in Hd as (l1 & l2 & Hl). rewrite Hl in *. rewrite foldl_app; simpl.
  set (g1 := foldl commit_delivery g l1).
  assert (forall f, is_fresh g1 f <-> is_fresh g f) as Hsame.
  { intros f. unfold is_fresh, g1. by rewrite deliveries_hashes. }
  apply deliveries_keep.
  - apply commit_file_shows; [by apply Hsame|]. apply deliveries_sequence; [done|].
    intros d Hd Hid Hfr. destruct (Hall d ltac:(set_solver) Hid Hfr) as [|[]]; lia.
  - unfold is_fresh, commit_delivery. rewrite commit_file_hashes. by apply Hsame.
  - intros d Hd Hid Hfr. apply Hall; [set_solver|done|]. apply Hsame.
    unfold is_fresh, commit_delivery in Hfr |- *. by rewrite commit_file_hashes in Hfr.
Qed.
End collection.

(** Two checks of one file whose results arrive newest first. *)
Definition older_result : PreparedOwnershipFile := mk_prepared "/w/a.rs" 1%N 7 "h" 7 [] None.
Definition newer_result : PreparedOwnershipFile :=
  mk_prepared "/w/a.rs" 1%N 7 "h" 7 [] (Some tmodel_default).
Definition swapped : list PreparedOwnershipBatch :=
  [mk_batch 0 None 2 [newer_result]; mk_batch 0 None 1 [older_result]].
Definition settled_global : GlobalState unit unit := mk_global empty_collection 2 ∅ ∅ {[1%N := 7%N]} None.

Lemma newest_facts_shown_witness : shows (deliver settled_global swapped) 2 newer_result.
Proof.
  apply (newest_facts_shown swapped settled_global (mk_batch 0 None 2 [newer_result]) newer_result).
  - apply list_elem_of_here.
  - apply list_elem_of_here.
  - reflexivity.
  - intros latest H. vm_compute in H. discriminate H.
  - intros batch' file' Hb Hf _ _. apply elem_of_cons in Hb as [->|Hb].
    + right. split; [reflexivity|]. by apply list_elem_of_singleton in Hf.
    + apply list_elem_of_singleton in Hb as ->. left. reflexivity.
Defined.

(** ** Native diagnostics of one generation *)

Definition diagnostic_at (line : N) : Diagnostic unit :=
  mk_lsp_diagnostic (mk_range (mk_position line 0) (mk_position line 1)) (Some 1%N) None "m" None tt.

Definition native_updates (updates : list (N * list N)) : DiagnosticCollection unit unit :=
  foldl (fun c update => set_native_diagnostics (TaskSemantic update.1 [(1%N, diagnostic_at <$> update.2)]) c)
    empty_collection updates.

(** An update equal to what is stored does not take over its generation, so a second update of
    the same generation replaces it instead of extending it: generation 2 reports lines 0 and 1
    but only line 1 is left, where the same two updates after any other generation-1 result
    leave both. *)
Theorem repeated_update_forgotten :
  diagnostics_for (native_updates [(1, [0]); (2, [0]); (2, [1])]%N) 1%N = [diagnostic_at 1] /\
  diagnostics_for (native_updates [(1, [5]); (2, [0]); (2, [1])]%N) 1%N = [diagnostic_at 0; diagnostic_at 1].
Proof. by vm_compute. Qed.
