(* ===== verification/FreshnessSpec.v ===== *)
(** * Stored models belong to the text they are shown on

    An invariant of [AnalyzerState.step] over every interleaving of edits, checks, background
    jobs and commits, the execution that breaks it when a job runs between an edit and
    [process_changes], an invalidation that leaves facts in place, and the announcements of
    models that the analyzer drops. *)

From Stdlib Require Import Ascii String.
From S2P Require Import Prelude RustStr RustColl RustPath Fnv CompilerData MemoryGraph RepairPlan AnalyzerData Autofix AutofixDriver AnalyzerModel AnalyzerState AnalyzerStateSpec.
From S2P Require Import Protocol.
From stdpp Require Import options.

Section fresh.
Context {Rest Action : Type}.
Implicit Types c : DiagnosticCollection Rest Action.
Implicit Types g : GlobalState Rest Action.
Implicit Types w : World Rest Action.

(** ** Operations that store no model *)

(** [keeps g g']: the hashes are the same and no model is new. *)
Definition keeps g g' : Prop :=
  ownership_file_hashes g' = ownership_file_hashes g /\
  ownership_tutorial_models (diagnostics g') ⊆ ownership_tutorial_models (diagnostics g).

#[local] Instance keeps_preorder : PreOrder keeps.
Proof.
  split; [done|]. intros g1 g2 g3 [? ?] [? ?]. split; [congruence|]. by etrans.
Qed.

Lemma keeps_collection g c :
  ownership_tutorial_models c ⊆ ownership_tutorial_models (diagnostics g) ->
  keeps g (with_diagnostics g c).
Proof. done. Qed.

Lemma keeps_foldl {A} (f : GlobalState Rest Action -> A -> GlobalState Rest Action) l g :
  (forall g x, keeps g (f g x)) -> keeps g (foldl f g l).
Proof.
  intros Hf. revert g. induction l as [|x l IH]; intros g; simpl; [done|]. by etrans; [apply Hf|].
Qed.

Lemma check_diagnostic_models id generation package file diagnostic fix_ c :
  ownership_tutorial_models (add_check_diagnostic id generation package file diagnostic fix_ c) =
  ownership_tutorial_models c.
Proof.
  unfold add_check_diagnostic.
  repeat first [progress simpl | match goal with |- context [if ?b then _ else _] => destruct b end]; done.
Qed.

Lemma native_models kind c :
  ownership_tutorial_models (set_native_diagnostics kind c) = ownership_tutorial_models c.
Proof. destruct kind; simpl; by destruct (foldl _ _ _). Qed.

Lemma clear_models_subset c (models : gmap FileId OwnershipTutorialModel) :
  models = ownership_tutorial_models c \/ models = ∅ -> models ⊆ ownership_tutorial_models c.
Proof. intros [-> | ->]; [done|apply map_empty_subseteq]. Qed.

Lemma clear_check_models id c :
  ownership_tutorial_models (clear_check id c) ⊆ ownership_tutorial_models c.
Proof. unfold clear_check. apply clear_models_subset. case_match; auto. Qed.

Lemma clear_package_models id package c :
  ownership_tutorial_models (clear_check_for_package id package c) ⊆ ownership_tutorial_models c.
Proof. unfold clear_check_for_package. apply clear_models_subset. case_match; auto. Qed.

Lemma clear_older_models id older c :
  ownership_tutorial_models (clear_check_older_than id older c) ⊆ ownership_tutorial_models c.
Proof.
  unfold clear_check_older_than. apply clear_models_subset. case_match; [|auto].
  destruct (is_nil _); auto.
Qed.

Lemma clear_older_package_models id package older c :
  ownership_tutorial_models (clear_check_older_than_for_package id package older c) ⊆
  ownership_tutorial_models c.
Proof.
  unfold clear_check_older_than_for_package. apply clear_models_subset.
  repeat (case_match; [|auto]). auto.
Qed.

Lemma take_changes_models c :
  ownership_tutorial_models (take_changes c).2 = ownership_tutorial_models c.
Proof. unfold take_changes. by case_decide. Qed.

Lemma add_mapped_keeps env id generation package teachable name g diag :
  keeps g (add_mapped_diagnostic env id generation package teachable name g diag).
Proof.
  unfold add_mapped_diagnostic. destruct (file_of env (mapped_url diag)); [|done].
  apply keeps_collection. rewrite check_diagnostic_models.
  by destruct (should_record_invalid_use _), teachable as [[]|], name.
Qed.

Lemma add_diagnostic_keeps env text_of id generation package diagnostic g :
  keeps g (add_diagnostic env text_of id generation package diagnostic g).
Proof.
  unfold add_diagnostic.
  destruct (match rust_code diagnostic with Some _ => _ | None => _ end); [by repeat case_match|].
  destruct (match rust_code diagnostic with Some _ => _ | None => _ end).
  - case_match; [|done]. case_match; [done|]. apply keeps_foldl. intros g' diag.
    unfold add_legacy_event. case_match; [|done]. by case_match.
  - apply keeps_foldl. intros g' diag. apply add_mapped_keeps.
Qed.

(** No message of a flycheck stores a model or touches a content hash. *)
Lemma flycheck_keeps env text_of message g :
  keeps g (handle_flycheck_msg env text_of message g).1.
Proof.
  destruct message as [id generation diagnostic package|id paths|id scope|id older scope|id progress]; simpl.
  - apply add_diagnostic_keeps.
  - done.
  - destruct scope; apply keeps_collection; [apply clear_check_models|apply clear_package_models].
  - destruct scope; apply keeps_collection; [apply clear_older_models|apply clear_older_package_models].
  - destruct progress; try done. case_match; [|done]. unfold schedule_ownership_model_artifacts.
    by destruct (is_nil _).
Qed.

(** ** The invariant *)

Context (env : FlycheckEnv Rest Action) (content_hash : string -> N) (decode : string -> option string).

(** The hash of the text an artifact describes. *)
Definition recorded_hash (source : OwnershipModelSource) : string :=
  default (asource_source_hash source) (stable_source_hash <$> asource_source source).

(** [model] is what an artifact says of [file] when the content of the file has this hash: some
    content with that hash decodes to the text the artifact was computed from. *)
Definition derived (file : FileId) (hash : N) (model : OwnershipTutorialModel) : Prop :=
  exists bytes live artifact source,
    content_hash bytes = hash /\ decode bytes = Some live /\
    file_of env (asource_path source) = Some file /\
    stable_source_hash live = recorded_hash source /\
    model = ownership_tutorial_model_for_source source (default live (asource_source source)) artifact.

Record consistent w : Prop := mk_consistent {
  consistent_hashes : forall file, file ∉ changed w ->
    ownership_file_hashes (global w) !! file = content_hash <$> vfs w !! file;
  consistent_texts : forall file, file ∉ changed w -> analysis w !! file = vfs w !! file ≫= decode;
  consistent_tasks : forall batch file model, batch ∈ tasks w -> file ∈ batch_files batch ->
    prepared_model file = Some model -> derived (prepared_file_id file) (prepared_vfs_hash file) model;
  consistent_models : forall file model,
    ownership_tutorial_models (diagnostics (global w)) !! file = Some model ->
    exists hash, ownership_file_hashes (global w) !! file = Some hash /\ derived file hash model
}.

Lemma prepared_from_source snap artifacts file :
  file ∈ prepare_ownership_model_artifacts snap artifacts ->
  exists artifact source, prepare_source snap artifact source = Some file.
Proof.
  unfold prepare_ownership_model_artifacts.
  assert (forall prepared : gmap FileId PreparedOwnershipFile,
    (forall id file, prepared !! id = Some file ->
       exists artifact source, prepare_source snap artifact source = Some file) ->
    forall id file, foldl (prepare_artifact snap) prepared artifacts !! id = Some file ->
       exists artifact source, prepare_source snap artifact source = Some file) as Hall.
  { induction artifacts as [|[artifact|] artifacts IH]; intros prepared Hp; simpl; [done| |by apply IH].
    apply IH. case_match; [|done]. clear IH. revert prepared Hp.
    induction (artifact_sources artifact) as [|source sources IH]; intros prepared Hp; simpl; [done|].
    apply IH. intros id f. destruct (prepare_source snap artifact source) as [f'|] eqn:Hs; [|by apply Hp].
    rewrite lookup_insert. case_decide; [intros [= <-]; by eexists _, _|by apply Hp]. }
  intros (pair & -> & Hpair)%list_elem_of_fmap. destruct pair as [id f].
  apply elem_of_map_to_list in Hpair. refine (Hall ∅ _ id f Hpair).
  intros id' f' H. rewrite lookup_empty in H. discriminate H.
Qed.

Lemma prepare_source_inv snap artifact source file :
  prepare_source snap artifact source = Some file ->
  exists live, url_to_file_id snap (asource_path source) = Some (prepared_file_id file) /\
    file_text snap (prepared_file_id file) = Some live /\
    file_content_hash snap (prepared_file_id file) = Some (prepared_vfs_hash file) /\
    stable_source_hash live = recorded_hash source /\
    forall model, prepared_model file = Some model ->
      model = ownership_tutorial_model_for_source source (default live (asource_source source)) artifact.
Proof.
  unfold prepare_source.
  destruct (url_to_file_id snap (asource_path source)) as [id|]; cbn [mbind option_bind]; [|done].
  destruct (file_text snap id) as [live|] eqn:Htext; cbn [mbind option_bind]; [|done].
  destruct (file_content_hash snap id) as [hash|] eqn:Hhash; cbn [mbind option_bind]; [|done].
  destruct (stable_source_hash live =s _) eqn:Heq; cbn [negb]; [|done].
  intros [= <-]. exists live. cbn [prepared_file_id prepared_vfs_hash prepared_model].
  apply str_eqb_eq in Heq. split_and!; [done..|]. intros model.
  destruct (model_is_empty _); [done|]. by intros [= <-].
Qed.

Lemma prepared_derived w artifacts file model :
  consistent w -> changed w = ∅ ->
  file ∈ prepare_ownership_model_artifacts (snapshot_of env content_hash w) artifacts ->
  prepared_model file = Some model ->
  derived (prepared_file_id file) (prepared_vfs_hash file) model.
Proof.
  intros Hw Hch (artifact & source & Hs)%prepared_from_source Hmodel.
  apply prepare_source_inv in Hs as (live & Hfile & Htext & Hhash & Heq & Hm). cbn in Hfile, Htext, Hhash.
  rewrite (consistent_texts _ Hw) in Htext by set_solver.
  destruct (vfs w !! prepared_file_id file) as [bytes|]; [|done]. cbn in Htext, Hhash.
  injection Hhash as Hhash. exists bytes, live, artifact, source.
  by split_and!; [..|apply Hm].
Qed.

Lemma process_files (new : FileId -> option N) l g f :
  let g' := foldl (fun g file => process_file (new file) file g) g l in
  ownership_file_hashes g' !! f = (if decide (f ∈ l) then new f else ownership_file_hashes g !! f) /\
  ownership_tutorial_models (diagnostics g') !! f =
    (if decide (f ∈ l) then None else ownership_tutorial_models (diagnostics g) !! f).
Proof.
  revert g. induction l as [|file l IH]; intros g; simpl; [done|].
  destruct (IH (process_file (new file) file g)) as [IHh IHm]. rewrite IHh, IHm. clear IH IHh IHm.
  assert (ownership_tutorial_models (diagnostics (process_file (new file) file g)) =
          delete file (ownership_tutorial_models (diagnostics g))) as -> by by destruct (new file).
  assert (ownership_file_hashes (process_file (new file) file g) !! f =
          if decide (f = file) then new f else ownership_file_hashes g !! f) as ->.
  { simpl. destruct (decide (f = file)) as [->|].
    - destruct (new file); [apply lookup_insert_eq|apply lookup_delete_eq].
    - destruct (new file); [by apply lookup_insert_ne|by apply lookup_delete_ne]. }
  destruct (decide (f ∈ l)) as [Hl|Hl].
  - by rewrite !decide_True by set_solver.
  - destruct (decide (f = file)) as [->|Hne].
    + rewrite !decide_True by set_solver. by rewrite lookup_delete_eq.
    + rewrite !decide_False by set_solver. by rewrite lookup_delete_ne.
Qed.

Lemma process_texts (new : FileId -> option string) l (texts : gmap FileId string) f :
  foldl (fun texts file => partial_alter (fun _ => new file) file texts) texts l !! f =
  if decide (f ∈ l) then new f else texts !! f.
Proof.
  revert texts. induction l as [|file l IH]; intros texts; simpl; [done|]. rewrite IH.
  destruct (decide (f ∈ l)); [by rewrite decide_True by set_solver|].
  destruct (decide (f = file)) as [->|].
  - by rewrite lookup_partial_alter_eq, decide_True by set_solver.
  - by rewrite lookup_partial_alter_ne, decide_False by set_solver.
Qed.

(** ** Every step keeps it *)

(** Replacing the global state by one that kept hashes and stored no model. *)
Lemma consistent_keeps w g scheduled :
  consistent w -> keeps (global w) g ->
  consistent (mk_world g (vfs w) (changed w) (analysis w) (jobs w ++ scheduled) (tasks w)).
Proof.
  intros [Hh Ht Hk Hm] [Hhash Hmodels]. split; simpl; [by rewrite Hhash|done|done|].
  intros file model Hf. rewrite Hhash. by eapply Hm, lookup_weaken.
Qed.

Lemma consistent_diagnostics w c :
  consistent w -> ownership_tutorial_models c ⊆ ownership_tutorial_models (diagnostics (global w)) ->
  consistent (with_global w (with_diagnostics (global w) c)).
Proof.
  intros Hw Hc. pose proof (consistent_keeps w (with_diagnostics (global w) c) [] Hw) as H.
  rewrite app_nil_r in H. by apply H.
Qed.

Lemma edit_consistent w file contents :
  consistent w -> consistent (set_file_contents content_hash file contents w).
Proof.
  intros [Hh Ht Hk Hm]. unfold set_file_contents. case_decide; [done|]. split; simpl; [| |done|done].
  - intros f Hf. rewrite lookup_partial_alter_ne by set_solver. apply Hh. set_solver.
  - intros f Hf. rewrite lookup_partial_alter_ne by set_solver. apply Ht. set_solver.
Qed.

Lemma process_consistent w : consistent w -> consistent (process_changes content_hash decode w).
Proof.
  intros [Hh Ht Hk Hm]. split; simpl; [| |done|].
  - intros f _. destruct (process_files (fun f => content_hash <$> vfs w !! f)
      (elements (changed w)) (global w) f) as [-> _].
    case_decide as Hf; [done|]. apply Hh. by rewrite <-elem_of_elements.
  - intros f _. rewrite (process_texts (fun f => vfs w !! f ≫= decode)).
    case_decide as Hf; [done|]. apply Ht. by rewrite <-elem_of_elements.
  - intros f model. destruct (process_files (fun f => content_hash <$> vfs w !! f)
      (elements (changed w)) (global w) f) as [-> ->].
    case_decide as Hf; [done|]. apply Hm.
Qed.

Lemma commit_file_models id package sequence g file f model :
  ownership_tutorial_models (diagnostics (commit_file id package sequence g file)) !! f = Some model ->
  ownership_tutorial_models (diagnostics g) !! f = Some model \/
  (f = prepared_file_id file /\ prepared_model file = Some model /\ is_fresh g file).
Proof.
  unfold commit_file. destruct (match _ with Some _ => _ | None => false end); [by left|].
  destruct (bool_decide _) eqn:Hfresh; cbn [negb]; [|by left].
  apply bool_decide_eq_true in Hfresh. destruct (prepared_model file) as [m|]; simpl.
  - destruct (decide (f = prepared_file_id file)) as [->|Hne].
    + rewrite lookup_insert_eq. intros [= ->]. by right.
    + rewrite lookup_insert_ne, lookup_delete_ne by congruence. by left.
  - intros [_ ?]%lookup_delete_Some. by left.
Qed.

(** The models of a global state fit the hashes it holds. *)
Definition models_fit g : Prop :=
  forall file model, ownership_tutorial_models (diagnostics g) !! file = Some model ->
    exists hash, ownership_file_hashes g !! file = Some hash /\ derived file hash model.

Lemma commit_files_fit id package sequence files g :
  (forall file model, file ∈ files -> prepared_model file = Some model ->
     derived (prepared_file_id file) (prepared_vfs_hash file) model) ->
  models_fit g ->
  let g' := foldl (commit_file id package sequence) g files in
  ownership_file_hashes g' = ownership_file_hashes g /\ models_fit g'.
Proof.
  revert g. induction files as [|file files IH]; intros g Hin Hg; simpl; [done|].
  edestruct (IH (commit_file id package sequence g file)) as [Hhash Hmodels]; [set_solver| |].
  - intros f model [Hf|(-> & Hf & Hfresh)]%commit_file_models; rewrite commit_file_hashes; [by apply Hg|].
    exists (prepared_vfs_hash file). split; [done|]. apply Hin; [set_solver|done].
  - by rewrite commit_file_hashes in Hhash.
Qed.

Lemma commit_consistent w before batch after :
  consistent w -> tasks w = before ++ batch :: after ->
  consistent (mk_world (commit_ownership_model_artifacts batch (global w)) (vfs w) (changed w)
                (analysis w) (jobs w) (before ++ after)).
Proof.
  intros [Hh Ht Hk Hm] Htasks.
  destruct (commit_files_fit (batch_id batch) (batch_package_id batch) (batch_sequence batch)
              (batch_files batch) (global w)) as [Hhash Hmodels]; [|done|].
  { intros. apply (Hk batch); [rewrite Htasks; set_solver|done..]. }
  unfold commit_ownership_model_artifacts. split; simpl; [by rewrite Hhash|done| |exact Hmodels].
  intros b file model Hb. apply Hk. rewrite Htasks. set_solver.
Qed.

Lemma prepare_consistent w before job after artifacts :
  consistent w -> changed w = ∅ ->
  consistent (mk_world (global w) (vfs w) (changed w) (analysis w) (before ++ after)
    (tasks w ++ job_tasks job
       (prepare_ownership_model_artifacts (snapshot_of env content_hash w) artifacts))).
Proof.
  intros Hw Hch. pose proof Hw as [Hh Ht Hk Hm]. split; simpl; [done|done| |done].
  intros batch file model [Hb|Hb]%elem_of_app; [by apply Hk|].
  apply list_elem_of_fmap in Hb as (file' & -> & Hf). simpl. intros ->%list_elem_of_singleton.
  by apply (prepared_derived w artifacts).
Qed.

Lemma step_consistent w w' : step env content_hash decode true w w' -> consistent w -> consistent w'.
Proof.
  intros Hstep Hw. destruct Hstep as [w file contents|w|w message|w before job after artifacts Hj Hset
    |w before batch after Htasks|w kind|w file|w|w|w].
  - by apply edit_consistent.
  - by apply process_consistent.
  - unfold on_flycheck.
    pose proof (flycheck_keeps env (fun file => analysis w !! file) message (global w)) as Hkeeps.
    destruct (handle_flycheck_msg _ _ _ _) as [g scheduled]. by apply consistent_keeps.
  - by apply prepare_consistent; [|apply Hset].
  - by apply commit_consistent.
  - apply consistent_diagnostics; [done|]. by rewrite native_models.
  - by apply consistent_diagnostics.
  - apply consistent_diagnostics; [done|]. apply map_empty_subseteq.
  - apply consistent_diagnostics; [done|]. by rewrite take_changes_models.
  - by apply consistent_diagnostics.
Qed.

Lemma reachable_consistent w : rtc (step env content_hash decode true) empty_world w -> consistent w.
Proof.
  intros Hr. refine (rtc_ind_r consistent empty_world _ _ w Hr).
  - split; simpl; set_solver.
  - intros w1 w2 _ Hs Hc. by eapply step_consistent.
Qed.

(** C3: Over every interleaving of edits, flycheck messages, background jobs and commits in which a
    job reads the file system while no edit waits to be processed, each stored ownership model
    is what an artifact says of a text whose content hash the analyzer currently holds for the
    file, and once edits are processed that hash is the one of the file's content. *)
Theorem stored_models_fresh w file model :
  rtc (step env content_hash decode true) empty_world w ->
  ownership_tutorial_models (diagnostics (global w)) !! file = Some model ->
  exists hash, ownership_file_hashes (global w) !! file = Some hash /\ derived file hash model /\
    (file ∉ changed w -> content_hash <$> vfs w !! file = Some hash).
Proof.
  intros Hw%reachable_consistent Hm. destruct (consistent_models _ Hw _ _ Hm) as (hash & Hh & Hd).
  exists hash. split_and!; [done..|]. intros Hf. by rewrite <-(consistent_hashes _ Hw).
Qed.
End fresh.

(** ** Executions *)

Module Run.

Definition unit_env : FlycheckEnv unit unit :=
  mk_env true (fun _ => []) (fun _ => None) (fun _ => None)
    (fun path => if path =s "/w/a.rs" then Some 1%N else None).

(** A content hash without collisions. *)
Definition exact_hash (s : string) : N := Npos (encode s).

Definition text : string := "let s = 1;".

Definition source : OwnershipModelSource :=
  mk_asource "/w/a.rs" (stable_source_hash text) (Some text).

Definition artifact : OwnershipModelArtifact :=
  mk_artifact 7 "x86_64" [source] [] [] [mk_afact 1 (mk_abinding "/w/a.rs" 4 "s") "i32" (Some 4%N) (Some 4%N) []]
    [] (mk_agraph [] [] [] [] false).

Definition edited (s : string) (w : World unit unit) : World unit unit := set_file_contents exact_hash 1%N (Some s) w.
Definition processed (w : World unit unit) : World unit unit := process_changes exact_hash Some w.
Definition noticed (w : World unit unit) : World unit unit :=
  on_flycheck unit_env (Progress 0 (DidFinish None)) (on_flycheck unit_env (OwnershipArtifacts 0 ["m.json"%string]) w).

(** The one job runs over the one artifact, and its one result is committed. *)
Definition prepared (w : World unit unit) : World unit unit :=
  mk_world (global w) (vfs w) (changed w) (analysis w) []
    (tasks w ++ job_tasks (mk_job 0 None 1 ["m.json"%string])
       (prepare_ownership_model_artifacts (snapshot_of unit_env exact_hash w) [Some artifact])).

Definition committed (w : World unit unit) : World unit unit :=
  match tasks w with
  | [] => w
  | batch :: rest =>
      mk_world (commit_ownership_model_artifacts batch (global w)) (vfs w) (changed w) (analysis w)
        (jobs w) rest
  end.

Definition checked : World unit unit := noticed (processed (edited text empty_world)).

(** The check is installed on the text it was about. *)
Definition quiet : World unit unit := committed (prepared checked).

(** The text is deleted between the check and the job, and processed before the commit. *)
Definition raced : World unit unit := committed (processed (prepared (edited "" checked))).

Definition model : OwnershipTutorialModel :=
  ownership_tutorial_model_for_source source text artifact.

Lemma reaches_checked settled : rtc (step unit_env exact_hash Some settled) empty_world checked.
Proof.
  eapply rtc_l; [exact (step_edit _ _ _ _ empty_world 1%N (Some text))|].
  eapply rtc_l; [apply step_process|]. eapply rtc_l; [apply step_flycheck|]. apply rtc_once, step_flycheck.
Qed.

Lemma prepared_step settled w :
  jobs w = [mk_job 0 None 1 ["m.json"%string]] -> (settled = true -> changed w = ∅) ->
  step unit_env exact_hash Some settled w (prepared w).
Proof.
  intros Hjobs Hset. exact (step_prepare _ _ _ settled w [] _ [] [Some artifact] Hjobs Hset).
Qed.

Lemma committed_step settled w batch rest :
  tasks w = batch :: rest -> step unit_env exact_hash Some settled w (committed w).
Proof.
  intros Htasks. unfold committed. rewrite Htasks. exact (step_commit _ _ _ settled w [] _ _ Htasks).
Qed.

Lemma reaches_quiet : rtc (step unit_env exact_hash Some true) empty_world quiet.
Proof.
  eapply rtc_r; [eapply rtc_r; [apply reaches_checked|]|].
  - apply prepared_step; vm_compute; reflexivity.
  - eapply committed_step. vm_compute. reflexivity.
Qed.

Lemma reaches_raced : rtc (step unit_env exact_hash Some false) empty_world raced.
Proof.
  apply rtc_r with (processed (prepared (edited "" checked)));
    [apply rtc_r with (prepared (edited "" checked));
       [apply rtc_r with (edited "" checked); [apply rtc_r with checked; [apply reaches_checked|]|]|]|].
  - exact (step_edit _ _ _ _ checked 1%N (Some ""%string)).
  - apply prepared_step; [vm_compute; reflexivity|done].
  - apply step_process.
  - eapply committed_step. vm_compute. reflexivity.
Qed.
End Run.

Lemma stored_models_fresh_witness :
  exists hash, ownership_file_hashes (global Run.quiet) !! 1%N = Some hash /\
    derived Run.unit_env Run.exact_hash Some 1%N hash Run.model /\
    (1%N ∉ changed Run.quiet -> Run.exact_hash <$> vfs Run.quiet !! 1%N = Some hash).
Proof.
  apply (stored_models_fresh Run.unit_env Run.exact_hash Some Run.quiet 1%N Run.model).
  - apply Run.reaches_quiet.
  - vm_compute. reflexivity.
Defined.

(** The content hash that guards a commit is read from the live file system while the text is
    read from the snapshot, so a job that runs after an edit arrived and before it is processed
    labels facts of the old text with the new hash: they are installed on the new text, although
    the hash has no collisions and every edit has been processed. *)
Theorem stale_model_installed :
  rtc (step Run.unit_env Run.exact_hash Some false) empty_world Run.raced /\
  changed Run.raced = ∅ /\
  analysis Run.raced !! 1%N = Some ""%string /\
  ownership_file_hashes (global Run.raced) !! 1%N = Some (Run.exact_hash "") /\
  ownership_tutorial_models (diagnostics (global Run.raced)) !! 1%N = Some Run.model /\
  tbinding_range <$> tmodel_bindings Run.model = [mk_range (mk_position 0 4) (mk_position 0 5)].
Proof. split; [apply Run.reaches_raced|]. by vm_compute. Qed.

(** A flycheck that reported no diagnostic has no entry in the check table, so invalidating it
    returns before the ownership models and events are cleared: the facts of the older build
    stay. *)
Theorem clean_check_not_cleared :
  rtc (step Run.unit_env Run.exact_hash Some true) empty_world Run.quiet /\
  ownership_tutorial_models
    (diagnostics (global (on_flycheck Run.unit_env (ClearAll 0 ScopeWorkspace) Run.quiet))) !! 1%N
  = Some Run.model.
Proof. split; [apply Run.reaches_quiet|]. vm_compute. reflexivity. Qed.

(** ** The pointer to a compiler model *)

(** The compiler's driver announces its model with the schema version of the plan, 7, and the
    analyzer takes announcements of the versions 2 to 4 only, so every announcement is dropped
    and leaves the state as it was: the artifact is found later or not at all. *)
Theorem model_pointer_ignored {Rest Action} (env : FlycheckEnv Rest Action) text_of id generation
    package rest g args plan written d version path crate_name text :
  plan_schema_version plan = BORROWCK_OWNERSHIP_MODEL_SCHEMA_VERSION ->
  emit_ownership_model args plan = Done (written, [Json d]) ->
  AutofixDriver.diagnostic_message d = ModelPayload version path crate_name ->
  parse_pointer env text = Some (mk_pointer version path) ->
  add_diagnostic env text_of id generation package
    (mk_rust_diagnostic (Some (AutofixDriver.diagnostic_code d)) text rest) g = g.
Proof.
  intros Hplan Hemit Hd Hparse. unfold emit_ownership_model in Hemit.
  destruct (ownership_model_directory args) as [directory|]; [|done].
  destruct (plan_ownership_events plan) as [|event events]; [done|].
  destruct (negb _); [done|]. destruct (diagnostic_span _ _ _ _ _ _ _) as [span| |]; [|done..].
  cbn [mbind] in Hemit. injection Hemit as <- <-. cbn in Hd. injection Hd as <- <- <-.
  unfold add_diagnostic; cbn [rust_code rust_message AutofixDriver.diagnostic_code].
  change (String.eqb "borrowck_ownership_model" "borrowck_ownership_model") with true. cbv iota.
  rewrite Hparse; cbn [pointer_version]. by rewrite Hplan.
Qed.

Definition announced_plan : SerializedBorrowckRepairPlan :=
  mk_plan BORROWCK_OWNERSHIP_MODEL_SCHEMA_VERSION "x86_64" "demo" 7
    [mk_ssource "/w/a.rs" "" (Some Run.text)] [] []
    [mk_oevent "e" 1 0 0 EventKind.Move OwnershipState.Moved "/w/a.rs" 4 5
       (mk_sbinding "/w/a.rs" 4 "s") "s" None None None]
    [] empty_graph [] [] [].

Definition announcing_args : list string := ["-Zborrowck-ownership-model=/m"; "--error-format=json"]%string.

Definition announced_path : PathBuf := "/m/demo-0000000000000007.json"%string.

Definition decoding_env : FlycheckEnv unit unit :=
  mk_env true (fun _ => []) (fun _ => None) (fun _ => Some (mk_pointer 7 announced_path)) (fun _ => None).

Definition announced : AutofixDriver.Diagnostic :=
  mk_diagnostic (ModelPayload 7 announced_path "demo") "borrowck_ownership_model" "note"
    [mk_dspan "/w/a.rs" 4 5 1 1 5 6 true (Some "compiler ownership model"%string) None None] [] None.

Lemma model_pointer_ignored_witness :
  add_diagnostic decoding_env (fun _ => None) 0 1 None
    (mk_rust_diagnostic (Some "borrowck_ownership_model"%string) "json"%string tt) empty_global = empty_global.
Proof.
  apply (model_pointer_ignored decoding_env (fun _ => None) 0 1 None tt empty_global announcing_args announced_plan
           (Some (announced_path, announced_plan)) announced 7 announced_path "demo" "json").
  - reflexivity.
  - vm_compute. reflexivity.
  - reflexivity.
  - reflexivity.
Defined.
