(* ===== verification/LineIndex.v ===== *)
(** * rust-analyzer: offsets and positions

    [rust-analyzer/lib/line-index/src/lib.rs] and the conversions of
    [lsp/to_proto.rs] and [lsp/from_proto.rs] built on it: a table of the offsets at
    which lines begin and of the characters of more than one byte on each line, from
    which the byte offset of a UTF-16 position and the position of an offset are
    computed.  Texts are bytes of UTF-8.  The scan is [analyze_source_file_generic];
    the vectorised variants compute the same table and are not modelled. *)

From Stdlib Require Import Ascii String.
From S2P Require Import Prelude RustStr RustColl RustPath Protocol.
From stdpp Require Import options.

Record WideChar : Type := mk_wide {
  wide_start : N;
  wide_end : N
}.

Record LineIndex : Type := mk_line_index {
  newlines : list N;
  line_wide_chars : gmap N (list WideChar);
  text_len : N
}.

Definition wide_char_len (c : WideChar) : N := wide_end c - wide_start c.

(** [WideChar::wide_len] for UTF-16 *)
Definition wide_len (c : WideChar) : N := if (wide_char_len c =? 4)%N then 2 else 1.

(** ** The scan *)

(** [char::len_utf8] of the character that starts with this byte *)
Definition char_len (c : ascii) : N :=
  let n := N_of_ascii c in
  if (n <? 128)%N then 1 else if (n <? 224)%N then 2 else if (n <? 240)%N then 3 else 4.

Definition push_wide (line : N) (c : WideChar) (wide : gmap N (list WideChar)) : gmap N (list WideChar) :=
  <[line := default [] (wide !! line) ++ [c]]> wide.

(** One byte that starts a character: a newline begins a line, a character of several
    bytes is recorded relative to the start of its line. *)
Definition scan_char (c : ascii) (i : N) (state : list N * gmap N (list WideChar)) :
    list N * gmap N (list WideChar) :=
  let '(lines, wide) := state in
  if (N_of_ascii c =? 10)%N then (lines ++ [(i + 1)%N], wide)
  else if (1 <? char_len c)%N then
    let pos := (i - default 0%N (last lines))%N in
    (lines, push_wide (len lines) (mk_wide pos (pos + char_len c)) wide)
  else state.

(** The loop; [skip] bytes of the current character are still to be passed over. *)
Fixpoint scan (skip : nat) (src : string) (i : N) (state : list N * gmap N (list WideChar)) :
    list N * gmap N (list WideChar) :=
  match src with
  | EmptyString => state
  | String c src =>
      match skip with
      | S skip => scan skip src (i + 1) state
      | O => scan (N.to_nat (char_len c) - 1) src (i + 1) (scan_char c i state)
      end
  end.

Definition line_index_new (text : string) : LineIndex :=
  let '(lines, wide) := scan 0 text 0 ([], ∅) in
  mk_line_index lines wide (str_len text).

(** ** Lines and columns *)

Record LineCol : Type := mk_line_col {
  lc_line : N;
  lc_col : N
}.

Definition start_offset (index : LineIndex) (line : N) : option N :=
  if (line =? 0)%N then Some 0%N else newlines index !! N.to_nat (line - 1).

(** [slice.partition_point(p)] of a slice partitioned by [p] *)
Fixpoint partition_point {A} (p : A -> bool) (l : list A) : N :=
  match l with
  | [] => 0
  | x :: l => if p x then N.succ (partition_point p l) else 0
  end.

Definition wide_chars_of (index : LineIndex) (line : N) : list WideChar :=
  default [] (line_wide_chars index !! line).

Definition try_line_col (index : LineIndex) (offset : N) : option LineCol :=
  if (text_len index <? offset)%N then None
  else
    let line := partition_point (fun it => (it <=? offset)%N) (newlines index) in
    start ← start_offset index line;
    let col := (offset - start)%N in
    if forallb (fun it => (col <=? wide_start it)%N || (wide_end it <=? col)%N) (wide_chars_of index line)
    then Some (mk_line_col line col)
    else None.

Definition checked_sub (a b : N) : option N := if (b <=? a)%N then Some (a - b)%N else None.

Fixpoint to_wide_loop (at_ : N) (chars : list WideChar) (col : N) : option N :=
  match chars with
  | [] => Some col
  | c :: chars =>
      if (wide_end c <=? at_)%N then
        col ← checked_sub col (wide_char_len c - wide_len c);
        to_wide_loop at_ chars col
      else Some col
  end.

(** [to_wide(Utf16, _)] *)
Definition to_wide (index : LineIndex) (lc : LineCol) : option LineCol :=
  col ← to_wide_loop (lc_col lc) (wide_chars_of index (lc_line lc)) (lc_col lc);
  Some (mk_line_col (lc_line lc) col).

Definition u32_checked_add (a b : N) : option N := if (a + b <? 2 ^ 32)%N then Some (a + b)%N else None.

Fixpoint to_utf8_loop (chars : list WideChar) (col : N) : option N :=
  match chars with
  | [] => Some col
  | c :: chars =>
      if (wide_start c <? col)%N then
        col ← u32_checked_add col (wide_char_len c - wide_len c);
        to_utf8_loop chars col
      else Some col
  end.

(** [to_utf8(Utf16, _)] *)
Definition to_utf8 (index : LineIndex) (lc : LineCol) : option LineCol :=
  col ← to_utf8_loop (wide_chars_of index (lc_line lc)) (lc_col lc);
  Some (mk_line_col (lc_line lc) col).

(** The start and the end of a line, its newline included. *)
Definition line_range (index : LineIndex) (line : N) : option (N * N) :=
  start ← start_offset index line;
  let next_newline := default (text_len index) (newlines index !! N.to_nat line) in
  Some (start, next_newline).

(** ** The protocol's positions *)

(** [to_proto::position]; [None] is a panic. *)
Definition to_proto_position (index : LineIndex) (offset : N) : option Position :=
  lc ← try_line_col index offset;
  wide ← to_wide index lc;
  Some (mk_position (lc_line wide) (lc_col wide)).

(** [from_proto::offset(..).ok()] *)
Definition from_proto_offset (index : LineIndex) (position : Position) : option N :=
  lc ← to_utf8 index (mk_line_col (position_line position) (position_character position));
  range ← line_range index (lc_line lc);
  Some (range.1 + N.min (lc_col lc) (range.2 - range.1))%N.

(** [from_proto::text_range(..).ok()] *)
Definition from_proto_text_range (index : LineIndex) (range : Range) : option (N * N) :=
  start ← from_proto_offset index (range_start range);
  end_ ← from_proto_offset index (range_end range);
  if (end_ <? start)%N then None else Some (start, end_).
