(* ===== verification/LineIndexSpec.v ===== *)
(** * rust-analyzer: positions and offsets agree

    The table of lines and wide characters gives every character boundary the position
    a walk over the text gives it (the definition [AnalyzerModel] uses), and turns that
    position back into the offset. *)

From Stdlib Require Import Ascii String.
From S2P Require Import Prelude RustStr RustColl RustPath Protocol LineIndex Autofix AnalyzerModel AutofixSpec.
From stdpp Require Import options.

(** ** UTF-8 *)

(** One character: a first byte and as many continuation bytes as it announces. *)
Definition is_utf8_char (s : string) : Prop :=
  match s with
  | String c rest =>
      is_char_start c = true /\ str_len s = char_len c /\
      Forall (fun b => is_char_start b = false) (list_ascii_of_string rest)
  | EmptyString => False
  end.

Fixpoint valid_from (skip : nat) (s : string) : bool :=
  match s, skip with
  | EmptyString, O => true
  | EmptyString, S _ => false
  | String c s, S skip => negb (is_char_start c) && valid_from skip s
  | String c s, O => is_char_start c && valid_from (N.to_nat (char_len c) - 1) s
  end.

Definition valid_utf8 (s : string) : bool := valid_from 0 s.

Definition concat_all (chars : list string) : string := foldr String.append EmptyString chars.

Lemma char_len_pos c : (1 <= char_len c <= 4)%N.
Proof. unfold char_len. repeat case_match; lia. Qed.

Lemma concat_all_app a b : concat_all (a ++ b) = concat_all a +:+ concat_all b.
Proof.
  induction a as [|x a IH]; [done|].
  change (concat_all ((x :: a) ++ b)) with (x +:+ concat_all (a ++ b)).
  change (concat_all (x :: a)) with (x +:+ concat_all a). by rewrite IH, append_assoc.
Qed.

Lemma valid_from_split skip s :
  valid_from skip s = true ->
  exists rest tail, s = rest +:+ tail /\ String.length rest = skip /\
    Forall (fun b => is_char_start b = false) (list_ascii_of_string rest) /\ valid_from 0 tail = true.
Proof.
  revert skip. induction s as [|c s IH]; intros [|skip]; cbn; try done.
  - intros _. by exists EmptyString, EmptyString.
  - intros H. exists EmptyString, (String c s). split; [done|]. split; [done|]. by split; [constructor|].
  - intros [Hc%negb_true_iff (rest & tail & -> & <- & Hr & Ht)%IH]%andb_true_iff.
    exists (String c rest), tail. split; [done|]. split; [done|]. split; [by constructor|done].
Qed.

Lemma valid_utf8_chars s :
  valid_utf8 s = true <-> exists chars, s = concat_all chars /\ Forall is_utf8_char chars.
Proof.
  split.
  - unfold valid_utf8. remember (String.length s) as n eqn:Hn. revert s Hn.
    induction n as [n IH] using (well_founded_induction lt_wf). intros [|c s] ->; [by exists []|].
    cbn. intros [Hc (rest & tail & -> & Hl & Hr & Ht)%valid_from_split]%andb_true_iff.
    destruct (IH (String.length tail)) with (s := tail) as (chars & -> & Hch); [|done..|].
    { cbn [String.length]. rewrite length_append. lia. }
    exists (String c rest :: chars). split; [done|]. constructor; [|done].
    split; [done|]. split; [|done]. unfold str_len. cbn. pose proof (char_len_pos c). lia.
  - intros (chars & -> & Hch). unfold valid_utf8. induction Hch as [|ch chars Hc _ IH]; [done|].
    destruct ch as [|c rest]; [done|]. destruct Hc as (Hc & Hl & Hr).
    change (valid_from 0 (String c (rest +:+ concat_all chars)) = true). cbn [valid_from]. rewrite Hc. cbn [andb].
    assert (N.to_nat (char_len c) - 1 = String.length rest) as -> by (unfold str_len in Hl; cbn in Hl; lia).
    clear Hl. induction rest as [|b rest IHr]; [done|].
    apply Forall_cons in Hr as [Hb Hr].
    change (valid_from (String.length (String b rest)) (String b (rest +:+ concat_all chars)) = true).
    cbn [valid_from String.length]. rewrite Hb. by apply IHr.
Qed.

(** ** The scan, character by character *)

Lemma length_append_N a b : str_len (a +:+ b) = (str_len a + str_len b)%N.
Proof. unfold str_len. rewrite length_append. lia. Qed.

Definition lead (ch : string) : ascii :=
  match ch with
  | String c _ => c
  | EmptyString => Ascii.zero
  end.

Lemma scan_skip rest s i state :
  scan (String.length rest) (rest +:+ s) i state = scan 0 s (i + str_len rest) state.
Proof.
  revert i. induction rest as [|c rest IH]; intros i.
  - change (str_len "") with 0%N. by rewrite N.add_0_r.
  - change (scan (String.length rest) (rest +:+ s) (i + 1) state = scan 0 s (i + str_len (String c rest)) state).
    rewrite IH. f_equal. unfold str_len. cbn [String.length]. lia.
Qed.

Lemma scan_one ch s i state :
  is_utf8_char ch -> scan 0 (ch +:+ s) i state = scan 0 s (i + str_len ch) (scan_char (lead ch) i state).
Proof.
  destruct ch as [|c rest]; [done|]. intros (_ & Hl & _).
  change (scan (N.to_nat (char_len c) - 1) (rest +:+ s) (i + 1) (scan_char c i state) =
    scan 0 s (i + str_len (String c rest)) (scan_char c i state)).
  assert (N.to_nat (char_len c) - 1 = String.length rest) as ->
    by (unfold str_len in Hl; cbn [String.length] in Hl; lia).
  rewrite scan_skip. f_equal. unfold str_len. cbn [String.length]. lia.
Qed.

Lemma scan_chars chars s i state :
  Forall is_utf8_char chars ->
  scan 0 (concat_all chars +:+ s) i state =
  scan 0 s (i + str_len (concat_all chars)) (scan 0 (concat_all chars) i state).
Proof.
  intros Hch. revert i state. induction Hch as [|ch chars Hc _ IH]; intros i state.
  - change (str_len (concat_all [])) with 0%N. by rewrite N.add_0_r.
  - change (concat_all (ch :: chars)) with (ch +:+ concat_all chars).
    rewrite append_assoc, (scan_one ch (concat_all chars +:+ s)), IH by done.
    by rewrite (scan_one ch (concat_all chars)), length_append_N, N.add_assoc.
Qed.

Lemma scan_snoc chars ch i state :
  Forall is_utf8_char chars -> is_utf8_char ch ->
  scan 0 (concat_all (chars ++ [ch])) i state =
  scan_char (lead ch) (i + str_len (concat_all chars)) (scan 0 (concat_all chars) i state).
Proof.
  intros Hch Hc. rewrite concat_all_app, scan_chars by done.
  change (concat_all [ch]) with (ch +:+ ""). by rewrite scan_one.
Qed.

Lemma walk_app p a b : advance_all p (a +:+ b) = advance_all (advance_all p a) b.
Proof. revert p. induction a as [|c a IH]; intros p; [done|]. apply IH. Qed.

(** The code units of a character. *)
Definition units (ch : string) : N := if (str_len ch =? 4)%N then 2 else 1.

Lemma continuation_advance p rest :
  Forall (fun b => is_char_start b = false) (list_ascii_of_string rest) -> advance_all p rest = p.
Proof.
  revert p. induction rest as [|c rest IH]; intros p Hr; [done|]. apply Forall_cons in Hr as [Hc Hr].
  cbn [advance_all]. rewrite IH by done. destruct p as [l k]. unfold advance, utf16_units, is_char_start in *.
  apply negb_false_iff, N.eqb_eq in Hc.
  assert (128 <= N_of_ascii c < 192)%N as Hb.
  { pose proof (N.Div0.mul_div_le (N_of_ascii c) 64).
    pose proof (N.mul_succ_div_gt (N_of_ascii c) 64 ltac:(lia)). rewrite Hc in *. lia. }
  destruct (Ascii.eqb_spec c (ascii_of_N 10)) as [->|_]; [done|]. cbn.
  destruct (N.ltb_spec (N_of_ascii c) 128); [lia|].
  destruct (N.ltb_spec (N_of_ascii c) 192); [|lia]. by rewrite N.add_0_r.
Qed.

Lemma char_advance p ch :
  is_utf8_char ch ->
  advance_all p ch =
  if (N_of_ascii (lead ch) =? 10)%N then mk_position (position_line p + 1) 0
  else mk_position (position_line p) (position_character p + units ch).
Proof.
  destruct ch as [|c rest]; [done|]. intros (Hc & Hl & Hr). cbn [advance_all lead].
  rewrite continuation_advance by done. unfold advance.
  destruct (Ascii.eqb_spec c (ascii_of_N 10)) as [->|Hne]; [done|].
  destruct (N.eqb_spec (N_of_ascii c) 10) as [He|_].
  { exfalso. apply Hne. by rewrite <-He, ascii_N_embedding. }
  do 2 f_equal. unfold units. rewrite Hl. unfold utf16_units, char_len, is_char_start in *.
  apply negb_true_iff, N.eqb_neq in Hc.
  destruct (N.ltb_spec (N_of_ascii c) 128); [done|].
  destruct (N.ltb_spec (N_of_ascii c) 192) as [H192|H192].
  { exfalso. apply Hc. symmetry. apply (N.div_unique _ 64 2 (N_of_ascii c - 128)); lia. }
  destruct (N.ltb_spec (N_of_ascii c) 240), (N.ltb_spec (N_of_ascii c) 224); try done; lia.
Qed.

(** ** What the scan of a prefix has found *)

Definition excess (c : WideChar) : N := wide_char_len c - wide_len c.
Definition total_excess (chars : list WideChar) : N := foldr (fun c n => excess c + n)%N 0%N chars.

(** Wide characters in order on a line, none reaching beyond [upto]. *)
Fixpoint chained (from : N) (chars : list WideChar) (upto : N) : Prop :=
  match chars with
  | [] => (from <= upto)%N
  | c :: chars =>
      (from <= wide_start c)%N /\ (wide_start c + 2 <= wide_end c)%N /\ chained (wide_end c) chars upto
  end.

Lemma excess_lt c : (wide_start c + 2 <= wide_end c)%N -> (excess c < wide_char_len c)%N.
Proof. unfold excess, wide_char_len, wide_len, wide_char_len. case_match; lia. Qed.

Lemma chained_snoc from chars upto c upto' :
  chained from chars upto -> (upto <= wide_start c)%N -> (wide_start c + 2 <= wide_end c)%N ->
  (wide_end c <= upto')%N -> chained from (chars ++ [c]) upto'.
Proof.
  revert from. induction chars as [|d chars IH]; intros from; cbn [chained app].
  - intros ????. split_and!; [lia|done|done].
  - intros (? & ? & ?) ???. auto.
Qed.

Lemma chained_mono from chars upto upto' :
  chained from chars upto -> (upto <= upto')%N -> chained from chars upto'.
Proof. revert from. induction chars as [|d chars IH]; intros from; cbn; [intros; lia|]. intuition. Qed.

Lemma total_excess_cons c chars : total_excess (c :: chars) = (excess c + total_excess chars)%N.
Proof. done. Qed.

Lemma chained_excess from chars upto : chained from chars upto -> (from + total_excess chars <= upto)%N.
Proof.
  revert from. induction chars as [|d chars IH]; intros from.
  - cbn. lia.
  - intros (Hf & Hw & Hc%IH). rewrite total_excess_cons. pose proof (excess_lt d Hw).
    unfold wide_char_len in *. lia.
Qed.

Lemma total_excess_app a b : total_excess (a ++ b) = (total_excess a + total_excess b)%N.
Proof. induction a as [|c a IH]; [done|]. cbn [app]. rewrite !total_excess_cons, IH. lia. Qed.

Definition wide_on (wide : gmap N (list WideChar)) (line : N) : list WideChar := default [] (wide !! line).

Definition line_start (lines : list N) : N := default 0%N (last lines).

(** The state of the scan after the text [pre]. *)
Record scanned (pre : string) (lines : list N) (wide : gmap N (list WideChar)) : Prop := {
  sc_line : position_line (advance_all default_position pre) = len lines;
  sc_start : (line_start lines <= str_len pre)%N;
  sc_lines : Forall (fun l => (l <= str_len pre)%N) lines;
  sc_col : (position_character (advance_all default_position pre) + total_excess (wide_on wide (len lines)) =
            str_len pre - line_start lines)%N;
  sc_chars : chained 0 (wide_on wide (len lines)) (str_len pre - line_start lines);
  sc_fresh : forall line, (len lines < line)%N -> wide !! line = None
}.

Lemma len_app_one {A} (l : list A) x : len (l ++ [x]) = (len l + 1)%N.
Proof. unfold len. rewrite length_app. cbn. lia. Qed.

Lemma wide_on_push wide line line' c :
  wide_on (push_wide line c wide) line' =
  if decide (line' = line) then wide_on wide line ++ [c] else wide_on wide line'.
Proof.
  unfold wide_on, push_wide. case_decide as H; [subst; by rewrite lookup_insert_eq|].
  by rewrite lookup_insert_ne.
Qed.

Lemma scan_char_scanned pre ch lines wide :
  is_utf8_char ch -> scanned pre lines wide ->
  let '(lines', wide') := scan_char (lead ch) (str_len pre) (lines, wide) in
  scanned (pre +:+ ch) lines' wide'.
Proof.
  intros Hch [Hl Hs Hls Hc Hw Hf]. pose proof (char_advance (advance_all default_position pre) ch Hch) as Ha.
  assert (str_len ch = char_len (lead ch)) as Hlen by (destruct ch; [done|]; apply Hch).
  pose proof (char_len_pos (lead ch)) as Hpos.
  unfold scan_char. destruct (N.eqb_spec (N_of_ascii (lead ch)) 10) as [He|He].
  - assert (char_len (lead ch) = 1%N) as H1 by (unfold char_len; by rewrite He).
    assert (wide_on wide (len (lines ++ [(str_len pre + 1)%N])) = []) as Hnone
      by (unfold wide_on; by rewrite Hf by (rewrite len_app_one; lia)).
    split; rewrite ?walk_app, ?Ha, ?length_append_N, ?Hnone; unfold line_start; rewrite ?last_snoc.
    + cbn. rewrite len_app_one. lia.
    + cbn. lia.
    + apply Forall_app. split; [|repeat constructor; lia]. eapply Forall_impl; [exact Hls|]. cbn. lia.
    + cbn. lia.
    + cbn. lia.
    + intros line. rewrite len_app_one. intros. apply Hf. lia.
  - assert (units ch = if (str_len ch =? 4)%N then 2%N else 1%N) as Hu by done. rewrite Hlen in Hu.
    destruct (N.ltb_spec 1 (char_len (lead ch))) as [Hm|Hm];
      split; rewrite ?walk_app, ?Ha, ?length_append_N; try done; try lia.
    + eapply Forall_impl; [exact Hls|]. cbn. lia.
    + rewrite wide_on_push, decide_True by done. rewrite total_excess_app. cbn.
      fold (line_start lines). unfold excess, wide_len, wide_char_len. cbn.
      rewrite Hu, Hlen. fold (line_start lines) in *.
      replace (str_len pre - line_start lines + char_len (lead ch) - (str_len pre - line_start lines))%N
        with (char_len (lead ch)) by lia.
      destruct (char_len (lead ch) =? 4)%N; lia.
    + rewrite wide_on_push, decide_True by done. fold (line_start lines).
      eapply chained_snoc; [exact Hw|cbn; lia..].
    + intros line Hline. unfold push_wide. rewrite lookup_insert_ne by lia. by apply Hf.
    + eapply Forall_impl; [exact Hls|]. cbn. lia.
    + cbn. rewrite Hu, Hlen. assert (char_len (lead ch) = 1%N) as -> by lia. cbn. lia.
    + eapply chained_mono; [exact Hw|lia].
Qed.

Lemma scan_scanned chars :
  Forall is_utf8_char chars ->
  let '(lines, wide) := scan 0 (concat_all chars) 0 ([], ∅) in scanned (concat_all chars) lines wide.
Proof.
  induction chars as [|ch chars IH] using rev_ind; intros Hch.
  - change (scan 0 (concat_all []) 0 ([], ∅)) with (@nil N, ∅ : gmap N (list WideChar)).
    split; unfold wide_on; rewrite ?lookup_empty; try done; cbn; lia.
  - apply Forall_app in Hch as [Hch [Hc _]%Forall_cons]. specialize (IH Hch).
    rewrite scan_snoc by done. destruct (scan 0 (concat_all chars) 0 ([], ∅)) as [lines wide].
    rewrite N.add_0_l, concat_all_app. change (concat_all [ch]) with (ch +:+ ""). rewrite append_nil_r.
    by apply scan_char_scanned.
Qed.

(** ** What the rest of the text adds *)

(** Lines that begin beyond [offset], and wide characters that start at or after it. *)
Record extended (offset : N) (lines : list N) (wide : gmap N (list WideChar))
    (lines' : list N) (wide' : gmap N (list WideChar)) : Prop := {
  ex_lines : exists more, lines' = lines ++ more /\ Forall (fun l => (offset < l)%N) more;
  ex_wide : exists extra, wide_on wide' (len lines) = wide_on wide (len lines) ++ extra /\
    Forall (fun c => (offset - line_start lines <= wide_start c)%N /\ (wide_start c < wide_end c)%N) extra
}.

Lemma scan_char_extended offset lines wide lines' wide' ch i :
  extended offset lines wide lines' wide' -> (offset <= i)%N ->
  let '(lines'', wide'') := scan_char (lead ch) i (lines', wide') in
  extended offset lines wide lines'' wide''.
Proof.
  intros [(more & -> & Hm) (extra & Hw & He)] Hi. unfold scan_char.
  destruct (N_of_ascii (lead ch) =? 10)%N.
  { split; [|by exists extra]. exists (more ++ [(i + 1)%N]). split; [by rewrite app_assoc|].
    apply Forall_app. split; [done|]. repeat constructor. lia. }
  destruct (N.ltb_spec 1 (char_len (lead ch))) as [Hlen|_]; [|split; [by exists more|by exists extra]].
  split; [by exists more|]. rewrite wide_on_push. case_decide as Hd; [|by exists extra].
  destruct more as [|m more]; [|unfold len in Hd; rewrite length_app in Hd; cbn in Hd; lia].
  rewrite app_nil_r in *. eexists (extra ++ [_]). split; [by rewrite Hw, app_assoc|].
  apply Forall_app. split; [done|]. repeat constructor; cbn; fold (line_start lines); lia.
Qed.

Lemma scan_extended chars offset i lines wide lines' wide' :
  Forall is_utf8_char chars -> (offset <= i)%N -> extended offset lines wide lines' wide' ->
  let '(lines'', wide'') := scan 0 (concat_all chars) i (lines', wide') in
  extended offset lines wide lines'' wide''.
Proof.
  intros Hch. revert i lines' wide'. induction Hch as [|ch chars Hc _ IH]; intros i lines' wide' Hi Hx; [done|].
  change (concat_all (ch :: chars)) with (ch +:+ concat_all chars). rewrite scan_one by done.
  pose proof (scan_char_extended offset lines wide lines' wide' ch i Hx Hi) as H.
  destruct (scan_char (lead ch) i (lines', wide')) as [lines'' wide'']. apply IH; [lia|done].
Qed.

(** ** Boundaries *)

Lemma chars_length_pos ch : is_utf8_char ch -> (0 < str_len ch)%N.
Proof. destruct ch; [done|]. intros _. unfold str_len. cbn. lia. Qed.

Lemma inner_byte rest n tail :
  Forall (fun b => is_char_start b = false) (list_ascii_of_string rest) ->
  n < String.length rest -> starts_char (skip_bytes n (rest +:+ tail)) = false.
Proof.
  revert n. induction rest as [|b rest IH]; intros n Hr Hn; [cbn in Hn; lia|].
  apply Forall_cons in Hr as [Hb Hr]. destruct n as [|n]; [done|].
  change (starts_char (skip_bytes n (rest +:+ tail)) = false). apply IH; [done|]. cbn in Hn. lia.
Qed.

(** A boundary of a text lies between two of its characters. *)
Lemma boundary_splits chars offset :
  Forall is_utf8_char chars -> is_char_boundary (concat_all chars) offset = true ->
  exists before after, chars = before ++ after /\ str_len (concat_all before) = offset.
Proof.
  rewrite is_char_boundary_spec. intros Hch [Hle Hs]. revert offset Hle Hs.
  induction Hch as [|ch chars Hc Hch IH]; intros offset Hle Hs.
  - exists [], []. split; [done|]. change (str_len (concat_all [])) with 0%N in *. lia.
  - change (concat_all (ch :: chars)) with (ch +:+ concat_all chars) in *.
    destruct (decide (offset = 0)%N) as [->|Hne]; [by exists [], (ch :: chars)|].
    destruct (decide (offset < str_len ch)%N) as [Hlt|Hge].
    + exfalso. destruct ch as [|c rest]; [done|]. destruct Hc as (_ & _ & Hr).
      destruct (N.to_nat offset) as [|n] eqn:En; [lia|].
      change (starts_char (skip_bytes n (rest +:+ concat_all chars)) = true) in Hs.
      rewrite (inner_byte rest n) in Hs; [done|done|]. unfold str_len in Hlt. cbn in Hlt. lia.
    + rewrite length_append_N in Hle.
      destruct (IH (offset - str_len ch)%N) as (before & after & -> & Hb); [lia| |].
      { revert Hs. unfold str_len in Hge.
        replace (N.to_nat offset) with (String.length ch + N.to_nat (offset - str_len ch)) by (unfold str_len; lia).
        generalize (N.to_nat (offset - str_len ch)) as k. intros k. clear.
        induction ch as [|c ch IH]; [done|]. exact IH. }
      exists (ch :: before), after. split; [done|].
      change (concat_all (ch :: before)) with (ch +:+ concat_all before). rewrite length_append_N, Hb. lia.
Qed.

(** The table of a text, seen from a boundary. *)
Lemma index_at text offset :
  valid_utf8 text = true -> is_char_boundary text offset = true ->
  exists lines wide more extra,
    newlines (line_index_new text) = lines ++ more /\
    wide_chars_of (line_index_new text) (len lines) = wide_on wide (len lines) ++ extra /\
    text_len (line_index_new text) = str_len text /\
    scanned (take_bytes (N.to_nat offset) text) lines wide /\
    Forall (fun l => (offset < l)%N) more /\
    Forall (fun c => (offset - line_start lines <= wide_start c)%N /\ (wide_start c < wide_end c)%N) extra.
Proof.
  intros (chars & -> & Hch)%valid_utf8_chars Hb.
  destruct (boundary_splits chars offset Hch Hb) as (before & after & -> & <-).
  apply Forall_app in Hch as [Hbefore Hafter]. rewrite concat_all_app.
  unfold line_index_new. rewrite scan_chars by done. rewrite N.add_0_l.
  pose proof (scan_scanned before Hbefore) as Hs.
  destruct (scan 0 (concat_all before) 0 ([], ∅)) as [lines wide].
  pose proof (scan_extended after (str_len (concat_all before)) (str_len (concat_all before)) lines wide lines wide
    Hafter ltac:(lia)) as Hx.
  destruct (scan 0 (concat_all after) _ (lines, wide)) as [lines' wide'] eqn:E.
  destruct Hx as [(more & -> & Hm) (extra & Hw & He)].
  { split; [exists []|exists []]; by rewrite app_nil_r. }
  exists lines, wide, more, extra. do 3 (split; [done|]). split; [|done].
  unfold str_len. rewrite Nat2N.id, take_bytes_app by lia. by rewrite take_bytes_all.
Qed.

Lemma partition_point_prefix {A} (p : A -> bool) l1 l2 :
  Forall (fun x => p x = true) l1 -> Forall (fun x => p x = false) l2 ->
  partition_point p (l1 ++ l2) = len l1.
Proof.
  intros H1 H2. induction H1 as [|x l1 Hx _ IH]; cbn [app partition_point].
  - destruct H2 as [|y l2 Hy _]; [done|]. cbn. by rewrite Hy.
  - rewrite Hx, IH. unfold len. cbn [length]. lia.
Qed.

Lemma start_offset_at lines more index :
  newlines index = lines ++ more -> start_offset index (len lines) = Some (line_start lines).
Proof.
  intros H. unfold start_offset, line_start. rewrite H.
  destruct (N.eqb_spec (len lines) 0) as [E|E].
  - destruct lines; [done|]. unfold len in E. cbn in E. lia.
  - destruct lines as [|l lines] using rev_ind; [done|]. rewrite last_snoc. cbn.
    rewrite <-app_assoc, lookup_app_r by (rewrite len_app_one; unfold len; lia).
    replace (N.to_nat (len (lines ++ [l]) - 1) - length lines) with 0 by (rewrite len_app_one; unfold len; lia).
    done.
Qed.

Lemma to_wide_loop_spec at_ from chars extra col :
  chained from chars at_ -> (total_excess chars <= col)%N ->
  Forall (fun c => (at_ <= wide_start c)%N /\ (wide_start c < wide_end c)%N) extra ->
  to_wide_loop at_ (chars ++ extra) col = Some (col - total_excess chars)%N.
Proof.
  revert from col. induction chars as [|c chars IH]; intros from col Hc Hle He.
  - change (total_excess []) with 0%N. rewrite N.sub_0_r.
    destruct He as [|c extra [??] _]; [done|]. cbn. by rewrite (proj2 (N.leb_gt _ _)) by lia.
  - destruct Hc as (Hf & Hw & Hc). rewrite total_excess_cons in *. cbn.
    pose proof (chained_excess _ _ _ Hc). rewrite (proj2 (N.leb_le _ _)) by lia.
    unfold checked_sub. fold (excess c). rewrite (proj2 (N.leb_le _ _)) by lia. cbn.
    rewrite (IH (wide_end c)) by (done || lia). f_equal. lia.
Qed.

Lemma to_utf8_loop_spec at_ from chars extra :
  chained from chars at_ -> (at_ < 2 ^ 32)%N -> Forall (fun c => (at_ <= wide_start c)%N) extra ->
  to_utf8_loop (chars ++ extra) (at_ - total_excess chars)%N = Some at_.
Proof.
  intros Hc Hlt He. revert from Hc. induction chars as [|c chars IH]; intros from Hc.
  - change (total_excess []) with 0%N. rewrite N.sub_0_r.
    destruct He as [|c extra ? _]; [done|]. cbn. by rewrite (proj2 (N.ltb_ge _ _)) by lia.
  - destruct Hc as (Hf & Hw & Hc). rewrite total_excess_cons. cbn [app to_utf8_loop].
    pose proof (chained_excess _ _ _ Hc). pose proof (excess_lt c Hw). unfold wide_char_len in *.
    rewrite (proj2 (N.ltb_lt _ _)) by lia. fold (wide_char_len c) (excess c).
    unfold u32_checked_add. rewrite (proj2 (N.ltb_lt _ _)) by lia. cbn [mbind option_bind].
    rewrite <-(IH (wide_end c)) by done. f_equal. lia.
Qed.

Lemma boundary_position text offset :
  valid_utf8 text = true -> is_char_boundary text offset = true ->
  to_proto_position (line_index_new text) offset = Some (lsp_position text offset).
Proof.
  intros Hv Hb. destruct (index_at text offset Hv Hb)
    as (lines & wide & more & extra & Hn & Hw & Ht & [Hl Hs Hls Hc Hch _] & Hm & He).
  apply is_char_boundary_spec in Hb as [Hle _].
  assert (str_len (take_bytes (N.to_nat offset) text) = offset) as Hlen.
  { unfold str_len in *. rewrite length_take_bytes; lia. }
  rewrite Hlen in *. unfold to_proto_position, try_line_col. rewrite Ht, (proj2 (N.ltb_ge _ _)) by done.
  rewrite Hn, partition_point_prefix.
  2: { eapply Forall_impl; [exact Hls|]. cbn. intros. by apply N.leb_le. }
  2: { eapply Forall_impl; [exact Hm|]. cbn. intros. by apply N.leb_gt. }
  rewrite (start_offset_at lines more _ Hn). cbn [mbind option_bind]. rewrite Hw.
  assert (forallb (fun it => (offset - line_start lines <=? wide_start it)%N
    || (wide_end it <=? offset - line_start lines)%N) (wide_on wide (len lines) ++ extra) = true) as ->.
  { rewrite forallb_app. apply andb_true_iff. split; apply forallb_forall; intros c Hin%list_elem_of_In.
    - apply orb_true_iff. right. apply N.leb_le. clear -Hch Hin. revert Hch. generalize 0%N as from.
      induction (wide_on wide (len lines)) as [|d l IH]; intros from; [by apply not_elem_of_nil in Hin|].
      intros (_ & _ & H). apply elem_of_cons in Hin as [->|Hin]; [|by apply (IH Hin (wide_end d))].
      apply chained_excess in H. lia.
    - apply orb_true_iff. left. apply N.leb_le. rewrite Forall_forall in He. by apply He. }
  cbn [mbind option_bind]. unfold to_wide. cbn [lc_line lc_col]. rewrite Hw.
  rewrite (to_wide_loop_spec _ 0) by (done || lia). cbn. f_equal. unfold lsp_position.
  destruct (advance_all default_position (take_bytes (N.to_nat offset) text)) as [line char]. cbn in *.
  f_equal; [done|lia].
Qed.

Lemma position_offset text offset :
  valid_utf8 text = true -> is_char_boundary text offset = true -> (str_len text < 2 ^ 32)%N ->
  from_proto_offset (line_index_new text) (lsp_position text offset) = Some offset.
Proof.
  intros Hv Hb H32. destruct (index_at text offset Hv Hb)
    as (lines & wide & more & extra & Hn & Hw & Ht & [Hl Hs _ Hc Hch _] & Hm & He).
  apply is_char_boundary_spec in Hb as [Hle _].
  assert (str_len (take_bytes (N.to_nat offset) text) = offset) as Hlen.
  { unfold str_len in *. rewrite length_take_bytes; lia. }
  rewrite Hlen in *. unfold from_proto_offset, lsp_position, to_utf8. cbn [lc_line lc_col]. rewrite Hl, Hw.
  pose proof (chained_excess _ _ _ Hch) as Hx.
  replace (position_character (advance_all default_position (take_bytes (N.to_nat offset) text)))
    with (offset - line_start lines - total_excess (wide_on wide (len lines)))%N by lia.
  rewrite (to_utf8_loop_spec _ 0); [|done|lia|eapply Forall_impl; [exact He|]; by intros ? [? _]].
  cbn [mbind option_bind lc_line lc_col]. unfold line_range. rewrite (start_offset_at lines more _ Hn).
  cbn [mbind option_bind fst snd]. f_equal.
  enough (offset <= default (text_len (line_index_new text)) (newlines (line_index_new text) !! N.to_nat (len lines)))%N
    by lia.
  rewrite Hn, Ht, lookup_app_r by (unfold len; lia).
  replace (N.to_nat (len lines) - length lines) with 0 by (unfold len; lia).
  destruct Hm as [|m more Hm _]; cbn; lia.
Qed.

(** Rust-analyzer's table of lines and wide characters gives a character boundary of
    a UTF-8 text the position a walk over the text gives it, counting newlines and
    UTF-16 code units; nothing panics. *)
Theorem to_proto_position_walk text offset :
  valid_utf8 text = true -> is_char_boundary text offset = true ->
  to_proto_position (line_index_new text) offset = Some (lsp_position text offset).
Proof. apply boundary_position. Qed.

(** C27: Turning a character boundary of a text into a position and back gives the
    boundary again. *)
Theorem position_roundtrip text offset :
  valid_utf8 text = true -> is_char_boundary text offset = true -> (str_len text < 2 ^ 32)%N ->
  (position ← to_proto_position (line_index_new text) offset;
   from_proto_offset (line_index_new text) position) = Some offset.
Proof. intros. rewrite boundary_position by done. by apply position_offset. Qed.

Lemma text_range_roundtrip text start end_ :
  valid_utf8 text = true -> (str_len text < 2 ^ 32)%N -> (start <= end_)%N ->
  is_char_boundary text start = true -> is_char_boundary text end_ = true ->
  from_proto_text_range (line_index_new text) (lsp_range text start end_) = Some (start, end_).
Proof.
  intros. unfold from_proto_text_range, lsp_range. cbn [range_start range_end].
  rewrite !position_offset by done. cbn. by rewrite (proj2 (N.ltb_ge _ _)).
Qed.

(** ** A text with characters of two, three and four bytes *)

Definition wide_text : string := "let é = 1;
let s = ✓😀x;".

Lemma to_proto_position_walk_witness :
  to_proto_position (line_index_new wide_text) 27 = Some (mk_position 1 11).
Proof.
  replace (mk_position 1 11) with (lsp_position wide_text 27) by (vm_compute; reflexivity).
  apply (to_proto_position_walk wide_text 27); vm_compute; reflexivity.
Defined.

Lemma position_roundtrip_witness :
  (position ← to_proto_position (line_index_new wide_text) 27;
   from_proto_offset (line_index_new wide_text) position) = Some 27%N.
Proof.
  apply (position_roundtrip wide_text 27); vm_compute; reflexivity.
Defined.
