(* ===== verification/AnalyzerProblems.v ===== *)
(** * rust-analyzer: the list of ownership problems of a file

    [handle_ownership_problems] of [rust-analyzer/src/handlers/request.rs] and what it
    calls: one problem per ownership diagnostic the compiler reported for the file
    ([ownership_problem_from_diagnostic]), one more for every rejected use that no
    diagnostic touches, sorted and with neighbours that say the same removed.

    The snapshot a handler works on is the record [OwnershipSnapshot]: how a URI, a
    text and a file id correspond, which files belong to the workspace, and the three
    tables of ownership facts of [AnalyzerState]. *)

From Stdlib Require Import Ascii String.
From S2P Require Import Prelude RustStr RustColl Fnv MemoryGraph AnalyzerData Protocol AnalyzerModel AnalyzerState AutofixDriver.
From stdpp Require Import options.

(** ** Names and identifiers *)

(** [s.split(f).nth(1)] *)
Definition second_segment (f : ascii -> bool) (s : string) : option string :=
  match split_at_char f s with
  | Some (_, after) => Some (first_segment f after)
  | None => None
  end.

(** [s.trim_start_matches(pat)] for a non-empty [pat]; every round removes a
    character, so the length of [s] is enough rounds. *)
Fixpoint trim_start_matches_str (fuel : nat) (pat s : string) : string :=
  match fuel, strip_prefix pat s with
  | S fuel, Some rest => trim_start_matches_str fuel pat rest
  | _, _ => s
  end.

Definition one_of_chars (chars : string) (c : ascii) : bool :=
  existsb (Ascii.eqb c) (list_ascii_of_string chars).

Definition ownership_root_name (place : string) : string :=
  let s := trim_start_matches "&" (trim_start_matches "*" (trim place)) in
  first_segment (one_of_chars ".[( ") (trim_start_matches_str (String.length s) "mut " s).

Definition ownership_name_from_message (message : string) : option string :=
  name ← second_segment (Ascii.eqb "`") message;
  if is_empty name then None else Some name.

Definition ownership_problem_id (code name : string) (range : Range) : string :=
  code +:+ "-" +:+ name +:+ "-" +:+ show (position_line (range_start range)) +:+ "-"
  +:+ show (position_character (range_start range)) +:+ "-"
  +:+ show (position_line (range_end range)) +:+ "-"
  +:+ show (position_character (range_end range)).

Definition range_eqb (a b : Range) : bool := bool_decide (a = b).

Definition sort_and_dedup_ranges (ranges : list Range) : list Range :=
  dedup_by range_eqb (sort_by range_key_leb ranges).

Definition ownership_repair_source_is_current (source expected_hash : string) : bool :=
  stable_source_hash source =s expected_hash.

(** ** One problem per diagnostic *)

Definition is_kind (kind : RaEventKind.OwnershipEventKind) (event : AnalyzerData.OwnershipEvent) : bool :=
  bool_decide (ev_kind event = kind).

(** The rules shared by every search for the events of a binding. *)
Definition ownership_events_for_binding (events : list AnalyzerData.OwnershipEvent)
    (selected : AnalyzerData.OwnershipEvent) : list AnalyzerData.OwnershipEvent :=
  retain (fun event =>
    ((ev_body_id selected =? 0)%N || (ev_body_id event =? 0)%N
     || (ev_body_id event =? ev_body_id selected)%N)
    && (ownership_name_refers_to_binding (ev_name event) (ev_name selected)
        || ownership_name_refers_to_binding (ev_place event) (ev_name selected)
        || ownership_name_refers_to_binding (ev_name selected) (ev_name event)))
    events.

(** The arms of the [match] after the two of E0382. *)
Definition category_of_code : list (string * string) :=
  [("E0499", "multiple_mutable_borrows"); ("E0502", "mutable_while_shared");
   ("E0503", "use_while_mutably_borrowed"); ("E0505", "move_while_borrowed");
   ("E0506", "assign_while_borrowed"); ("E0507", "move_out_of_borrowed_content");
   ("E0594", "immutable_mutation"); ("E0596", "immutable_mutation");
   ("E0106", "missing_lifetime"); ("E0515", "returning_local_reference");
   ("E0597", "borrowed_value_too_short"); ("E0716", "temporary_dropped_while_borrowed");
   ("E0277", "trait_requirement"); ("E0308", "type_mismatch");
   ("E0599", "method_or_trait_unavailable"); ("E0373", "closure_may_outlive_borrow");
   ("E0521", "borrowed_data_escapes"); ("E0728", "await_outside_async");
   ("E0733", "recursive_async_function")].

Definition ownership_problem_category (code : string) (events : list AnalyzerData.OwnershipEvent) : string :=
  if code =s "E0382" then
    if existsb (is_kind RaEventKind.PartialMove) events then "partial_move" else "use_after_move"
  else match find_first (fun arm => code =s arm.1) category_of_code with
       | Some (_, category) => category
       | None => "generic_borrow_error"
       end.

Section file.
Variables (events : list AnalyzerData.OwnershipEvent) (tutorial : OwnershipTutorialModel).

Definition diagnostic_name (diagnostic : OwnershipDiagnostic) : string :=
  default "value" (ownership_name_from_message (odiag_message diagnostic)).

Definition selected_event (diagnostic : OwnershipDiagnostic) : option AnalyzerData.OwnershipEvent :=
  let name := diagnostic_name diagnostic in
  find_first (fun event =>
    ranges_touch (ev_range event) (odiag_range diagnostic)
    || ownership_name_refers_to_binding (ev_name event) name
    || ownership_name_refers_to_binding (ev_place event) name
    || ownership_name_refers_to_binding name (ev_name event)) events.

Definition diagnostic_binding_name (diagnostic : OwnershipDiagnostic) : string :=
  if one_of (odiag_code diagnostic) ["E0594"; "E0596"] then diagnostic_name diagnostic
  else default (diagnostic_name diagnostic) (ev_name <$> selected_event diagnostic).

Definition diagnostic_events (diagnostic : OwnershipDiagnostic) : list AnalyzerData.OwnershipEvent :=
  default [] (ownership_events_for_binding events <$> selected_event diagnostic).

Definition diagnostic_binding (diagnostic : OwnershipDiagnostic) : option OwnershipTutorialBinding :=
  let name := diagnostic_binding_name diagnostic in
  find_first (fun binding =>
    ownership_name_refers_to_binding name (tbinding_name binding)
    || ownership_name_refers_to_binding (tbinding_name binding) name) (tmodel_bindings tutorial).

Definition diagnostic_related_ranges (diagnostic : OwnershipDiagnostic) : list Range :=
  sort_and_dedup_ranges
    ((odrelated_range <$> odiag_related diagnostic)
     ++ retain (fun range => negb (range_eqb range (odiag_range diagnostic)))
          (ev_range <$> diagnostic_events diagnostic)).

Definition precision_code (exact : bool) : string :=
  if exact then "compiler_exact" else "estimated".

Definition ownership_problem_from_diagnostic (diagnostic : OwnershipDiagnostic) : OwnershipProblem :=
  let binding_name := diagnostic_binding_name diagnostic in
  let binding := diagnostic_binding diagnostic in
  mk_problem
    (ownership_problem_id (odiag_code diagnostic) binding_name (odiag_range diagnostic))
    (ownership_problem_category (odiag_code diagnostic) (diagnostic_events diagnostic))
    (Some (odiag_code diagnostic))
    (odiag_message diagnostic)
    binding_name
    (odiag_range diagnostic)
    (default (odiag_range diagnostic)
       (or_else (tbinding_range <$> binding) (fun _ => ev_binding_range <$> selected_event diagnostic)))
    (diagnostic_related_ranges diagnostic)
    ((fun related => mk_related (odrelated_message related) (odrelated_range related))
       <$> odiag_related diagnostic)
    (range_start (odiag_range diagnostic))
    (precision_code
       (existsb ev_exact (diagnostic_events diagnostic)
        || ((3 <=? tmodel_schema_version tutorial)%N && bool_decide (is_Some binding)))).

(** ** Rejected uses without a diagnostic *)

Definition invalid_use_problem (event : AnalyzerData.OwnershipEvent) : OwnershipProblem :=
  let related_events := ownership_events_for_binding events event in
  mk_problem
    (ownership_problem_id "E0382" (ev_name event) (ev_range event))
    (if existsb (is_kind RaEventKind.PartialMove) related_events then "partial_move" else "use_after_move")
    (Some "E0382")
    ("borrow of moved value: `" +:+ ev_name event +:+ "`")
    (ev_name event)
    (ev_range event)
    (ev_binding_range event)
    (sort_and_dedup_ranges
       (retain (fun range => negb (range_eqb range (ev_range event))) (ev_range <$> related_events)))
    []
    (range_start (ev_range event))
    (precision_code (ev_exact event)).

Definition add_invalid_use (problems : list OwnershipProblem) (event : AnalyzerData.OwnershipEvent) :
    list OwnershipProblem :=
  if existsb (fun problem => ranges_touch (problem_primary_range problem) (ev_range event)) problems
  then problems
  else problems ++ [invalid_use_problem event].

Definition same_problem (left right : OwnershipProblem) : bool :=
  (problem_category left =s problem_category right)
  && (problem_binding_name left =s problem_binding_name right)
  && range_eqb (problem_primary_range left) (problem_primary_range right).

Definition collected_problems (diagnostics : list OwnershipDiagnostic) : list OwnershipProblem :=
  foldl add_invalid_use (ownership_problem_from_diagnostic <$> diagnostics)
    (retain (is_kind RaEventKind.InvalidUse) events).

Definition file_problems (diagnostics : list OwnershipDiagnostic) : list OwnershipProblem :=
  dedup_by same_problem
    (sort_by (on problem_primary_range range_key_leb) (collected_problems diagnostics)).
End file.

(** ** The handler *)

Record OwnershipSnapshot : Type := mk_osnap {
  (** [from_proto::file_id]: an error for an unknown file, [None] for an excluded one *)
  osnap_file_id : string -> result (option FileId);
  (** [analysis.file_text], an error when the query is cancelled *)
  osnap_file_text : FileId -> result string;
  (** [to_proto::url] *)
  osnap_url : FileId -> string;
  (** [source_root_id] and [is_local_source_root], [false] when they fail *)
  osnap_is_local : FileId -> bool;
  osnap_diagnostics : OwnershipDiagnostics;
  osnap_events : OwnershipEvents;
  osnap_models : OwnershipTutorialModels
}.

(** [OwnershipProblemsResult::default()], the answer for an excluded file. *)
Definition excluded_problems : OwnershipProblems := mk_problems 0 "" "" [].

Definition problems_result (source : string) (diagnostics : list OwnershipDiagnostic)
    (events : list AnalyzerData.OwnershipEvent) (tutorial : OwnershipTutorialModel) : OwnershipProblems :=
  mk_problems
    (N.max (tmodel_schema_version tutorial) 1)
    (if is_nil diagnostics && is_nil events && (tmodel_schema_version tutorial =? 0)%N
     then "waiting_for_compiler" else "ready")
    (stable_source_hash source)
    (file_problems events tutorial diagnostics).

Definition handle_ownership_problems (snap : OwnershipSnapshot) (params : TextDocumentIdentifier) :
    result OwnershipProblems :=
  file ← osnap_file_id snap (text_document_uri params);
  match file with
  | None => Ok excluded_problems
  | Some file_id =>
      source ← osnap_file_text snap file_id;
      Ok (problems_result source
            (ownership_diagnostics_for_file (osnap_diagnostics snap) file_id)
            (ownership_events_for_file (osnap_events snap) file_id)
            (ownership_tutorial_for_file (osnap_models snap) file_id))
  end.
