(* ===== verification/AnalyzerProblemsSpec.v ===== *)
(** * rust-analyzer: what the list of problems says, and when the editor takes it

    The list is sorted, accounts for every ownership diagnostic and every rejected use
    of the file and invents nothing; its identifiers determine the range of a problem,
    so problems at different ranges have different ones.  With that the editor's
    validator refuses the answer for its size only.  Last come three files whose
    whole list is refused. *)

From Stdlib Require Import Ascii String.
From S2P Require Import Prelude RustStr RustColl Fnv MemoryGraph AnalyzerData AnalyzerModel AnalyzerState AnalyzerProblems MemoryGraphSpec.
From S2P Require Import Protocol Bridge BridgeSpec.
From stdpp Require Import options.

(** ** Decimal fields *)

Definition absent (c : ascii) (s : string) : Prop := c ∉ list_ascii_of_string s.

Lemma list_ascii_app a b :
  list_ascii_of_string (a +:+ b) = list_ascii_of_string a ++ list_ascii_of_string b.
Proof. induction a as [|c a IH]; [done|]. exact (f_equal (cons c) IH). Qed.

Lemma list_ascii_inj a b : list_ascii_of_string a = list_ascii_of_string b -> a = b.
Proof.
  intros H. rewrite <-(string_of_list_ascii_of_string a), <-(string_of_list_ascii_of_string b).
  by rewrite H.
Qed.

Lemma show_no_dash n : absent "-" (show n).
Proof.
  assert (forall m s, absent "-" s -> absent "-" (pretty_N_go m s)) as H.
  { intros m. induction m as [m IH] using (well_founded_induction N.lt_wf_0). intros s Hs.
    destruct (decide (m = 0)%N) as [->|Hm]; [by rewrite pretty_N_go_0|].
    rewrite pretty_N_go_step by lia. apply IH; [apply N.div_lt; lia|].
    unfold absent. cbn [list_ascii_of_string]. rewrite not_elem_of_cons. split; [|done].
    unfold pretty_N_char. by repeat case_match. }
  unfold show, pretty, pretty_N. case_decide; [vm_compute; set_solver|].
  apply H. vm_compute. set_solver.
Qed.

Lemma last_separator {A} (c : A) (a b x y : list A) :
  c ∉ x -> c ∉ y -> a ++ c :: x = b ++ c :: y -> a = b /\ x = y.
Proof.
  intros Hx Hy [(k & Ha & Hk)|(k & Hb & Hk)]%app_eq_inv;
    destruct k as [|k0 k]; simplify_eq/=; rewrite ?app_nil_r; try done; set_solver.
Qed.

Lemma dash_field_inj a b m n :
  a +:+ "-" +:+ show m = b +:+ "-" +:+ show n -> a = b /\ m = n.
Proof.
  intros H%(f_equal list_ascii_of_string). rewrite !list_ascii_app in H.
  apply last_separator in H as [Ha Hn]; [|apply show_no_dash..].
  split; [by apply list_ascii_inj|]. by apply (inj pretty), list_ascii_inj.
Qed.

Lemma problem_id_inj code name range code' name' range' :
  ownership_problem_id code name range = ownership_problem_id code' name' range' ->
  range = range' /\ code +:+ "-" +:+ name = code' +:+ "-" +:+ name'.
Proof.
  destruct range as [[a b] [c d]], range' as [[a' b'] [c' d']].
  unfold ownership_problem_id. cbn -[String.append show]. intros H.
  rewrite <-!append_assoc in H.
  do 4 (rewrite ?(append_assoc _ "-") in H; apply dash_field_inj in H as [H <-]).
  by rewrite ?append_assoc in H.
Qed.

(** ** Orders and ranges *)

#[export] Instance position_cmp_total : TotalCmp position_cmp.
Proof.
  unfold position_cmp. split.
  - intros [a b] [a' b']; cbn. destruct (N.compare_spec a a'); [rewrite N.compare_eq_iff|..];
      subst; split; intros; simplify_eq; try done; lia.
  - intros [a b] [a' b']; cbn. rewrite (N.compare_antisym a a'), (N.compare_antisym b b').
    by destruct (N.compare a a').
  - intros [a b] [a' b'] [a'' b'']; cbn.
    destruct (N.compare_spec a a'), (N.compare_spec a' a''), (N.compare_spec a a'');
      subst; rewrite ?N.compare_lt_iff; try done; lia.
Qed.

#[export] Instance position_leb_total : TotalLeb position_leb.
Proof.
  split; intros *; rewrite !position_leb_spec; repeat match goal with p : Position |- _ => destruct p end; cbn; [lia..|].
  intros ??. f_equal; lia.
Qed.

#[export] Instance range_key_leb_total : TotalLeb range_key_leb.
Proof.
  unfold range_key_leb. split.
  - intros r r'. apply leb_total.
  - intros r r' r''. apply leb_trans.
  - intros [s e] [s' e'] H H'. pose proof (leb_antisym _ _ H H') as E. by injection E as -> ->.
Qed.

Lemma ranges_touch_refl r : range_ordered r -> ranges_touch r r = true.
Proof.
  destruct r as [s e]. intros H. unfold ranges_touch; cbn.
  by rewrite (proj2 (position_leb_spec s e) H).
Qed.

Lemma range_eqb_eq a b : range_eqb a b = true <-> a = b.
Proof. unfold range_eqb. apply bool_decide_eq_true. Qed.

Lemma elem_of_sort_and_dedup_ranges r l : r ∈ sort_and_dedup_ranges l <-> r ∈ l.
Proof.
  unfold sort_and_dedup_ranges.
  pose proof (sort_dedup_keys id range_key_leb range_eqb range_eqb_eq l r) as H.
  rewrite !list_fmap_id in H. exact H.
Qed.

Lemma sort_and_dedup_ranges_NoDup l : NoDup (sort_and_dedup_ranges l).
Proof.
  pose proof (dedup_by_NoDup id range_key_leb range_eqb range_eqb_eq (sort_by range_key_leb l)) as H.
  rewrite list_fmap_id in H. apply H, (sort_on_sorted id range_key_leb).
Qed.

(** A vector from which neighbours that are the same were removed still has one that
    is the same as any given element. *)
Lemma dedup_by_represents {A B} (f : A -> B) (same : A -> A -> bool) l x :
  (forall a b, same a b = true <-> f a = f b) ->
  x ∈ l -> exists y, y ∈ dedup_by same l /\ f y = f x.
Proof.
  intros Hs. destruct l as [|z l]; [by intros ?%not_elem_of_nil|]. cbn [dedup_by].
  revert z. induction l as [|w l IH]; intros z Hx; cbn.
  { apply list_elem_of_singleton in Hx as ->. exists z. set_solver. }
  destruct (same w z) eqn:E.
  - apply Hs in E. rewrite !elem_of_cons in Hx. destruct Hx as [->|[->|Hx]].
    + exists z. set_solver.
    + exists z. set_solver.
    + destruct (IH z) as (y & ? & ?); [set_solver|]. by exists y.
  - rewrite elem_of_cons in Hx. destruct Hx as [->|Hx]; [exists z; set_solver|].
    destruct (IH w Hx) as (y & Hy & ?). exists y. set_solver.
Qed.

(** ** What the list says *)

(** What removing neighbours compares. *)
Definition problem_key (problem : OwnershipProblem) : string * string * Range :=
  (problem_category problem, problem_binding_name problem, problem_primary_range problem).

Lemma same_problem_spec a b : same_problem a b = true <-> problem_key a = problem_key b.
Proof.
  unfold same_problem, problem_key.
  rewrite !andb_true_iff, !str_eqb_eq, range_eqb_eq. split; [|by intros [= -> -> ->]].
  by intros [[-> ->] ->].
Qed.

Section file.
Context (events : list AnalyzerData.OwnershipEvent) (tutorial : OwnershipTutorialModel).

Lemma add_invalid_uses_elem (problems : list OwnershipProblem) rejected p :
  p ∈ foldl (add_invalid_use events) problems rejected ->
  p ∈ problems \/
  exists event, event ∈ rejected /\ p = invalid_use_problem events event /\
    forall q, q ∈ problems -> ranges_touch (problem_primary_range q) (ev_range event) = false.
Proof.
  revert problems. induction rejected as [|e rejected IH]; intros problems; cbn [foldl]; [by left|].
  intros [Hp|(e' & He' & -> & Hq)]%IH.
  - unfold add_invalid_use in Hp. destruct (existsb _ problems) eqn:E; [by left|].
    apply elem_of_app in Hp as [Hp| ->%list_elem_of_singleton]; [by left|]. right.
    exists e. split; [set_solver|]. split; [done|]. intros q Hin.
    apply not_true_is_false. intros Ht. apply not_true_iff_false in E. apply E.
    apply existsb_exists. exists q. split; [by apply list_elem_of_In|done].
  - right. exists e'. split; [set_solver|]. split; [done|]. intros q Hin. apply Hq.
    unfold add_invalid_use. destruct (existsb _ problems); set_solver.
Qed.

Lemma add_invalid_uses_keeps (problems : list OwnershipProblem) rejected p :
  p ∈ problems -> p ∈ foldl (add_invalid_use events) problems rejected.
Proof.
  revert problems. induction rejected as [|e rejected IH]; intros problems Hp; cbn [foldl]; [done|].
  apply IH. unfold add_invalid_use. destruct (existsb _ problems); set_solver.
Qed.

Lemma add_invalid_uses_touch (problems : list OwnershipProblem) rejected event :
  event ∈ rejected -> range_ordered (ev_range event) ->
  exists p, p ∈ foldl (add_invalid_use events) problems rejected /\
    ranges_touch (problem_primary_range p) (ev_range event) = true.
Proof.
  revert problems. induction rejected as [|e rejected IH]; intros problems; [by intros ?%not_elem_of_nil|].
  intros [->|He]%elem_of_cons Ho; cbn [foldl]; [|by apply IH].
  assert (exists p, p ∈ add_invalid_use events problems e /\
    ranges_touch (problem_primary_range p) (ev_range e) = true) as (p & Hp & Ht).
  { unfold add_invalid_use. destruct (existsb _ problems) eqn:E.
    - apply existsb_exists in E as (p & Hp%list_elem_of_In & Ht). by exists p.
    - exists (invalid_use_problem events e). split; [set_solver|]. by apply ranges_touch_refl. }
  exists p. split; [|done]. by apply add_invalid_uses_keeps.
Qed.

Lemma file_problems_elem diagnostics p :
  p ∈ file_problems events tutorial diagnostics -> p ∈ collected_problems events tutorial diagnostics.
Proof. intros H%elem_of_dedup_by. by rewrite elem_of_sort_by in H. Qed.

Lemma file_problems_represent diagnostics p :
  p ∈ collected_problems events tutorial diagnostics ->
  exists q, q ∈ file_problems events tutorial diagnostics /\ problem_key q = problem_key p.
Proof.
  intros H. apply dedup_by_represents; [apply same_problem_spec|]. by rewrite elem_of_sort_by.
Qed.

Lemma file_problems_sorted diagnostics :
  StronglySorted (fun p q => range_key_leb (problem_primary_range p) (problem_primary_range q) = true)
    (file_problems events tutorial diagnostics).
Proof.
  eapply StronglySorted_sublist; [apply dedup_by_sublist|]. apply (sort_on_sorted problem_primary_range range_key_leb).
Qed.

Lemma file_problem_origin diagnostics p :
  p ∈ file_problems events tutorial diagnostics ->
  (exists d, d ∈ diagnostics /\ p = ownership_problem_from_diagnostic events tutorial d) \/
  (exists event, event ∈ events /\ ev_kind event = RaEventKind.InvalidUse /\
     p = invalid_use_problem events event /\
     forall d, d ∈ diagnostics -> ranges_touch (odiag_range d) (ev_range event) = false).
Proof.
  intros [(d & -> & Hd)%list_elem_of_fmap|(e & He & -> & Hq)]%file_problems_elem%add_invalid_uses_elem.
  - left. by exists d.
  - right. apply elem_of_retain in He as [Hk%bool_decide_eq_true He].
    exists e. do 3 (split; [done|]). intros d Hd.
    exact (Hq _ (list_elem_of_fmap_2 (ownership_problem_from_diagnostic events tutorial) _ _ Hd)).
Qed.
End file.

(** C28: The list of problems of a file is sorted by range; every ownership diagnostic is
    there with its category, binding and range; every use the compiler rejected is
    touched by a problem; and every problem is that of a diagnostic, or of a rejected
    use that no diagnostic touches. *)
Theorem problems_explain_file events tutorial diagnostics :
  Forall (fun event => range_ordered (ev_range event)) events ->
  let problems := file_problems events tutorial diagnostics in
  StronglySorted (fun p q => range_key_leb (problem_primary_range p) (problem_primary_range q) = true)
    problems /\
  (forall d, d ∈ diagnostics -> exists p, p ∈ problems /\
     problem_key p = problem_key (ownership_problem_from_diagnostic events tutorial d)) /\
  (forall event, event ∈ events -> ev_kind event = RaEventKind.InvalidUse ->
     exists p, p ∈ problems /\ ranges_touch (problem_primary_range p) (ev_range event) = true) /\
  (forall p, p ∈ problems ->
     (exists d, d ∈ diagnostics /\ p = ownership_problem_from_diagnostic events tutorial d) \/
     (exists event, event ∈ events /\ ev_kind event = RaEventKind.InvalidUse /\
        p = invalid_use_problem events event /\
        forall d, d ∈ diagnostics -> ranges_touch (odiag_range d) (ev_range event) = false)).
Proof.
  intros Ho. split; [apply file_problems_sorted|]. split_and!.
  - intros d Hd. apply file_problems_represent, add_invalid_uses_keeps. by apply list_elem_of_fmap_2.
  - intros event He Hk. rewrite Forall_forall in Ho.
    destruct (add_invalid_uses_touch events (ownership_problem_from_diagnostic events tutorial <$> diagnostics)
                (retain (is_kind RaEventKind.InvalidUse) events) event) as (p & Hp & Ht).
    { apply elem_of_retain. split; [by apply bool_decide_eq_true|done]. }
    { by apply Ho. }
    destruct (file_problems_represent events tutorial diagnostics p Hp) as (q & Hq & [= _ _ Hr]).
    exists q. split; [done|]. by rewrite Hr.
  - apply file_problem_origin.
Qed.

(** ** When the editor takes the answer *)

(** What holds of facts read from the compiler: ranges start before they end, and no
    text is longer than the editor accepts (a rejected use adds 26 characters to the
    name of its binding). *)
Record printable_facts (diagnostics : list OwnershipDiagnostic)
    (events : list AnalyzerData.OwnershipEvent) (tutorial : OwnershipTutorialModel) : Prop := {
  pf_diagnostics : Forall (fun d =>
    range_ordered (odiag_range d) /\ text_bounded (odiag_message d) /\
    Forall (fun r => range_ordered (odrelated_range r) /\ text_bounded (odrelated_message r))
      (odiag_related d)) diagnostics;
  pf_events : Forall (fun event =>
    range_ordered (ev_range event) /\ range_ordered (ev_binding_range event) /\
    (str_len (ev_name event) <= 262118)%N) events;
  pf_bindings : Forall (fun b => range_ordered (tbinding_range b)) (tmodel_bindings tutorial)
}.

(** A problem small enough for the editor. *)
Definition short_problem (p : OwnershipProblem) : Prop :=
  bounded (problem_related_ranges p) 64 /\ bounded (problem_related p) 64.

Section accepted.
Context (diagnostics : list OwnershipDiagnostic) (events : list AnalyzerData.OwnershipEvent)
  (tutorial : OwnershipTutorialModel) (facts : printable_facts diagnostics events tutorial).

Lemma diagnostic_event d e : selected_event events d = Some e -> e ∈ events.
Proof using Type. by intros [_ ?]%find_first_Some. Qed.

Lemma diagnostic_events_elem d e : e ∈ diagnostic_events events d -> e ∈ events.
Proof using Type.
  unfold diagnostic_events. destruct (selected_event events d); cbn; [|by intros ?%not_elem_of_nil].
  by intros [_ ?]%elem_of_retain.
Qed.

Lemma diagnostic_problem_ranges d :
  d ∈ diagnostics ->
  let p := ownership_problem_from_diagnostic events tutorial d in
  range_ordered (problem_primary_range p) /\ range_ordered (problem_binding_range p) /\
  Forall range_ordered (problem_related_ranges p) /\
  Forall (fun r => range_ordered (related_range r) /\ text_bounded (related_message r)) (problem_related p).
Proof using facts.
  intros Hd. destruct facts as [HD HE HB]. rewrite !Forall_forall in *.
  destruct (HD d Hd) as (Hr & _ & Hrel). rewrite Forall_forall in Hrel.
  cbn -[selected_event]. split; [done|]. split_and!.
  - destruct (diagnostic_binding events tutorial d) as [b|] eqn:Eb; cbn -[selected_event].
    + apply HB. by apply find_first_Some in Eb as [_ ?].
    + destruct (selected_event events d) as [e|] eqn:E; cbn; [|done].
      by apply HE, (diagnostic_event d).
  - apply Forall_forall. intros r Hin. unfold diagnostic_related_ranges in Hin.
    rewrite elem_of_sort_and_dedup_ranges in Hin.
    apply elem_of_app in Hin as [(x & -> & Hx)%list_elem_of_fmap|Hin]; [by apply Hrel|].
    apply elem_of_retain in Hin as [_ (e & -> & He)%list_elem_of_fmap].
    by apply HE, (diagnostic_events_elem d).
  - apply Forall_forall. intros r (x & -> & Hx)%list_elem_of_fmap. by apply Hrel.
Qed.

Lemma diagnostic_problem_ok d :
  d ∈ diagnostics ->
  well_formed_problem (ownership_problem_from_diagnostic events tutorial d) <->
  short_problem (ownership_problem_from_diagnostic events tutorial d).
Proof using facts.
  intros Hd. destruct (diagnostic_problem_ranges d Hd) as (? & ? & ? & ?).
  split; [by intros []|]. intros [??]. split; try done.
  pose proof (pf_diagnostics _ _ _ facts) as HD. rewrite Forall_forall in HD. by apply HD.
Qed.

Lemma invalid_use_problem_ok e :
  e ∈ events ->
  well_formed_problem (invalid_use_problem events e) <-> short_problem (invalid_use_problem events e).
Proof using facts.
  intros He. destruct facts as [_ HE _]. rewrite Forall_forall in HE.
  destruct (HE e He) as (Hr & Hb & Hn).
  split; [by intros []|]. intros [H1 H2]. split; try done; cbn.
  - apply Forall_forall. intros r Hin. rewrite elem_of_sort_and_dedup_ranges in Hin.
    apply elem_of_retain in Hin as [_ (x & -> & Hx)%list_elem_of_fmap].
    apply HE. by apply elem_of_retain in Hx as [_ ?].
  - unfold text_bounded, str_len in *. rewrite !length_append. cbn. lia.
Qed.

Lemma file_problem_ok p :
  p ∈ file_problems events tutorial diagnostics -> well_formed_problem p <-> short_problem p.
Proof using facts.
  intros [(d & Hd & ->)|(e & He & _ & -> & _)]%file_problem_origin.
  - by apply diagnostic_problem_ok.
  - by apply invalid_use_problem_ok.
Qed.

Lemma file_problem_id_range p :
  p ∈ file_problems events tutorial diagnostics ->
  exists code name, problem_id p = ownership_problem_id code name (problem_primary_range p).
Proof using Type. intros [(d & Hd & ->)|(e & He & _ & -> & _)]%file_problem_origin; eauto. Qed.

Lemma add_invalid_uses_ranges problems rejected :
  Forall (fun event => range_ordered (ev_range event)) rejected ->
  NoDup (problem_primary_range <$> problems) ->
  NoDup (problem_primary_range <$> foldl (add_invalid_use events) problems rejected).
Proof using Type.
  intros Ho. revert problems. induction Ho as [|e rejected He _ IH]; intros problems Hnd; [done|].
  apply IH. unfold add_invalid_use. destruct (existsb _ problems) eqn:E; [done|].
  rewrite fmap_app. apply NoDup_app. split; [done|]. split; [|apply NoDup_singleton].
  intros r (q & -> & Hq)%list_elem_of_fmap [= Hr]%list_elem_of_singleton.
  apply not_true_iff_false in E. apply E, existsb_exists. exists q.
  split; [by apply list_elem_of_In|]. rewrite Hr. by apply ranges_touch_refl.
Qed.

Lemma file_problem_ranges_NoDup :
  NoDup (odiag_range <$> diagnostics) ->
  NoDup (problem_primary_range <$> file_problems events tutorial diagnostics).
Proof using facts.
  intros Hnd. eapply NoDup_fmap_sublist; [apply dedup_by_sublist|].
  rewrite (sort_by_perm (on problem_primary_range range_key_leb)).
  apply add_invalid_uses_ranges; [|by rewrite <-list_fmap_compose].
  destruct facts as [_ HE _]. rewrite Forall_forall in *.
  intros e [_ ?]%elem_of_retain. by apply HE.
Qed.
End accepted.

(** Keys of which another one is a function. *)
Lemma NoDup_fmap_by {A B C} (f : A -> B) (g : A -> C) l :
  NoDup (f <$> l) -> (forall x y, x ∈ l -> y ∈ l -> g x = g y -> f x = f y) -> NoDup (g <$> l).
Proof.
  intros Hnd Hfg. induction l as [|x l IH]; cbn in *; [constructor|].
  apply NoDup_cons in Hnd as [Hx Hnd]. apply NoDup_cons. split.
  - intros (y & Hy & Hin)%list_elem_of_fmap. apply Hx, list_elem_of_fmap.
    exists y. split; [|done]. apply Hfg; [set_solver..|done].
  - apply IH; [done|]. intros; apply Hfg; set_solver.
Qed.

Lemma file_problem_ids_unique diagnostics events tutorial :
  printable_facts diagnostics events tutorial -> NoDup (odiag_range <$> diagnostics) ->
  unique_ids (problem_id <$> file_problems events tutorial diagnostics).
Proof.
  intros facts Hnd. split.
  - eapply NoDup_fmap_by; [by apply file_problem_ranges_NoDup|].
    intros p q (c & n & Hp)%file_problem_id_range (c' & n' & Hq)%file_problem_id_range Heq.
    rewrite Hp, Hq in Heq. by apply problem_id_inj in Heq as [? _].
  - intros (p & Hp & (c & n & Hid)%file_problem_id_range)%list_elem_of_fmap.
    rewrite Hid in Hp. unfold ownership_problem_id in Hp. by destruct c.
Qed.

Lemma problems_result_ok source diagnostics events tutorial :
  printable_facts diagnostics events tutorial -> NoDup (odiag_range <$> diagnostics) ->
  validate_ownership_problems (problems_result source diagnostics events tutorial) = Ok tt <->
  (tmodel_schema_version tutorial <= 7)%N /\
  bounded (file_problems events tutorial diagnostics) 512 /\
  Forall short_problem (file_problems events tutorial diagnostics).
Proof.
  intros facts Hnd. rewrite problems_ok.
  assert (forall ps, ps = file_problems events tutorial diagnostics ->
    Forall well_formed_problem ps <-> Forall short_problem ps) as Heach.
  { intros ps ->. rewrite !Forall_forall. split; intros H p Hp;
      apply (file_problem_ok _ _ _ facts p Hp); by apply H. }
  split.
  - intros [_ Hs Hc _ He]. cbn in *. rewrite <-(Heach _ eq_refl). split; [|done].
    destruct Hs as [[Hs _]|Hs]; [by case_match|lia].
  - intros (Hs & Hc & He). split; cbn.
    + case_match; set_solver.
    + right. lia.
    + done.
    + by apply file_problem_ids_unique.
    + by apply Heach.
Qed.

(** C29: When the facts of a file are printable and no two diagnostics have the same
    range, the editor takes rust-analyzer's list of the file's problems exactly when
    the schema is known, there are at most 512 problems and none has more than 64
    related ranges or messages: identifiers, status, ranges and texts never stand in
    the way. *)
Theorem problems_accepted_iff snap uri file_id source :
  osnap_file_id snap uri = Ok (Some file_id) -> osnap_file_text snap file_id = Ok source ->
  let diagnostics := ownership_diagnostics_for_file (osnap_diagnostics snap) file_id in
  let events := ownership_events_for_file (osnap_events snap) file_id in
  let tutorial := ownership_tutorial_for_file (osnap_models snap) file_id in
  printable_facts diagnostics events tutorial -> NoDup (odiag_range <$> diagnostics) ->
  (exists answer, handle_ownership_problems snap (mk_text_document uri) = Ok answer /\
     validate_ownership_problems answer = Ok tt) <->
  (tmodel_schema_version tutorial <= 7)%N /\
  bounded (file_problems events tutorial diagnostics) 512 /\
  Forall short_problem (file_problems events tutorial diagnostics).
Proof.
  intros Hf Hs * facts Hnd. rewrite <-(problems_result_ok source) by done.
  unfold handle_ownership_problems. cbn [text_document_uri]. rewrite Hf. cbn. rewrite Hs. cbn.
  split; [by intros (a & [= <-] & ?)|]. intros ?. by eexists.
Qed.

(** ** A file *)

(** [let a = s; ... s.len()] on lines 1 and 2, and a rejected use of [t] on line 4 that
    only an event records. *)
Definition at_ (line start end_ : N) : Range := mk_range (mk_position line start) (mk_position line end_).

Definition sample_event (id : string) (kind : RaEventKind.OwnershipEventKind) (name : string)
    (range : Range) : AnalyzerData.OwnershipEvent :=
  mk_ev id 0 0 0 kind RaState.Moved range (at_ 0 8 9) name name None true None None.

Definition sample_events : list AnalyzerData.OwnershipEvent :=
  [sample_event "move" RaEventKind.Move "s" (at_ 1 8 9);
   sample_event "use" RaEventKind.InvalidUse "t" (at_ 4 0 1)].

Definition sample_diagnostic : OwnershipDiagnostic :=
  mk_odiag "E0382" "borrow of moved value: `s`" (at_ 2 4 5)
    [mk_odrelated "value moved here" (at_ 1 8 9)].

Definition osnap_with (diagnostics : list OwnershipDiagnostic)
    (events : list AnalyzerData.OwnershipEvent) : OwnershipSnapshot :=
  mk_osnap (fun uri => if uri =s "file:///excluded.rs" then Ok None else Ok (Some 1%N))
    (fun _ => Ok "fn main() {}") (fun _ => "file:///main.rs") (fun _ => true)
    [{[ None := {[ 1%N := diagnostics ]} ]}] [{[ None := {[ 1%N := events ]} ]}] ∅.

(** Facts written down, one condition at a time. *)
Ltac check_facts :=
  repeat first [apply Forall_nil_2 | apply Forall_cons_2 | split];
  first [right; split; cbn; lia | vm_compute; congruence].

Lemma problems_explain_file_witness :
  exists p, p ∈ file_problems sample_events tmodel_default [sample_diagnostic] /\
    ranges_touch (problem_primary_range p) (at_ 4 0 1) = true.
Proof.
  destruct (problems_explain_file sample_events tmodel_default [sample_diagnostic]) as (_ & _ & H & _).
  { check_facts. }
  apply (H (sample_event "use" RaEventKind.InvalidUse "t" (at_ 4 0 1))); [set_solver|reflexivity].
Defined.

Lemma problems_accepted_iff_witness :
  exists answer, handle_ownership_problems (osnap_with [sample_diagnostic] sample_events)
      (mk_text_document "file:///main.rs") = Ok answer /\ validate_ownership_problems answer = Ok tt.
Proof.
  apply (problems_accepted_iff (osnap_with [sample_diagnostic] sample_events) "file:///main.rs" 1%N "fn main() {}").
  - reflexivity.
  - reflexivity.
  - replace (ownership_diagnostics_for_file _ _) with [sample_diagnostic] by (vm_compute; reflexivity).
    replace (ownership_events_for_file _ _) with sample_events by (vm_compute; reflexivity).
    check_facts.
  - vm_compute. repeat constructor; set_solver.
  - split; [vm_compute; congruence|]. split; [vm_compute; congruence|].
    apply Forall_forall. intros p Hp. revert p Hp. apply Forall_forall.
    vm_compute. check_facts.
Defined.

(** ** Lists the editor refuses *)

(** A diagnostic about a binding with 65 other events: the related ranges are not
    bounded, and the whole list of the file is refused. *)
Definition busy_events : list AnalyzerData.OwnershipEvent :=
  (fun i : nat => sample_event ("use-" +:+ show (N.of_nat i)) RaEventKind.BorrowShared "s"
                    (at_ (10 + N.of_nat i) 4 5)) <$> seq 0 65.

Lemma busy_binding_refused :
  printable_facts [sample_diagnostic] busy_events tmodel_default /\
  validate_ownership_problems
    (problems_result "fn main() {}" [sample_diagnostic] busy_events tmodel_default) =
  Err "ownership problem has too many related ranges".
Proof.
  split; [|vm_compute; reflexivity].
  split; [|apply Forall_fmap, Forall_true; intros i|constructor].
  - check_facts.
  - unfold compose. cbn. split; [right; cbn; lia|]. split; [right; cbn; lia|]. vm_compute. congruence.
Qed.

(** Two diagnostics with one code, binding and range have one identifier; with another
    diagnostic of that range between them they are not neighbours and both stay. *)
Definition clashing_diagnostics : list OwnershipDiagnostic :=
  [mk_odiag "E0502" "cannot borrow `v` as mutable because it is also borrowed as immutable" (at_ 3 4 5) [];
   mk_odiag "E0499" "cannot borrow `v` as mutable more than once at a time" (at_ 3 4 5) [];
   mk_odiag "E0502" "cannot borrow `v` as mutable because it is also borrowed as immutable" (at_ 3 4 5)
     [mk_odrelated "immutable borrow occurs here" (at_ 2 12 13)]].

Lemma interleaved_diagnostics_refused :
  printable_facts clashing_diagnostics [] tmodel_default /\
  NoDup clashing_diagnostics /\
  is_ok (validate_ownership_problems
    (problems_result "fn main() {}" clashing_diagnostics [] tmodel_default)) = false.
Proof.
  split; [|split; [|vm_compute; reflexivity]].
  - check_facts.
  - apply (bool_decide_eq_true (NoDup clashing_diagnostics)). vm_compute. reflexivity.
Qed.

(** The answer for an excluded file is the default one, whose status the editor does
    not know. *)
Lemma excluded_file_refused snap uri :
  osnap_file_id snap uri = Ok None ->
  exists answer, handle_ownership_problems snap (mk_text_document uri) = Ok answer /\
    is_ok (validate_ownership_problems answer) = false.
Proof.
  intros H. exists excluded_problems. unfold handle_ownership_problems. cbn [text_document_uri].
  by rewrite H.
Qed.
