(* ===== verification/AnalyzerGuide.v ===== *)
(** * rust-analyzer: the workspace guide

    [handle_ownership_workspace_guide] of [rust-analyzer/src/handlers/request.rs] and
    what it calls: the problems of every local file, the grouping of problems by a
    common cause ([ownership_problem_cause_id]), the root and the impacts of each
    cluster, the journey of the selected cluster's value, the question asked about it
    and the revision of the whole.

    The callers of a function come from the analyzer's call hierarchy, which is not
    part of this development: [incoming_calls] is a parameter that gives, for the
    function around a diagnostic, the calls of it.  Everything else is read from the
    snapshot of [AnalyzerProblems]. *)

From Stdlib Require Import Ascii String.
From S2P Require Import Prelude RustStr RustColl RustPath Fnv MemoryGraph AnalyzerData AnalyzerModel AnalyzerState AutofixDriver AnalyzerProblems.
From S2P Require Import Protocol.
From stdpp Require Import options.

Definition MAX_CLUSTERS : N := 100.
Definition MAX_PROBLEMS : N := 2000.
Definition MAX_IMPACTS : N := 50.
Definition MAX_RELATED_CONSTRAINTS : N := 16.
Definition MAX_JOURNEY_FRAMES : N := 16.

Record WorkspaceOwnershipProblem : Type := mk_entry {
  entry_file_id : FileId;
  entry_uri : string;
  entry_problem : OwnershipProblem;
  entry_cause_id : string
}.

(** ** Causes *)

(** The events that concern a problem. *)
Definition event_matches (problem : OwnershipProblem) (event : AnalyzerData.OwnershipEvent) : bool :=
  ranges_touch (ev_range event) (problem_primary_range problem)
  || ranges_touch (ev_binding_range event) (problem_binding_range problem)
  || ownership_name_refers_to_binding (ev_name event) (problem_binding_name problem)
  || ownership_name_refers_to_binding (ev_place event) (problem_binding_name problem).

(** The kinds that can cause a later rejection: moves and borrows. *)
Definition is_causal (event : AnalyzerData.OwnershipEvent) : bool :=
  match ev_kind event with
  | RaEventKind.Move | RaEventKind.PartialMove | RaEventKind.BorrowShared
  | RaEventKind.BorrowMutable | RaEventKind.BorrowActivate => true
  | _ => false
  end.

Definition problem_family (category : string) : string :=
  if one_of category ["use_after_move"; "partial_move"; "move_while_borrowed"; "move_out_of_borrowed_content"]
  then "move"
  else if one_of category ["multiple_mutable_borrows"; "mutable_while_shared";
                           "use_while_mutably_borrowed"; "assign_while_borrowed"]
  then "loan"
  else if category =s "immutable_mutation" then "mutability"
  else if one_of category ["missing_lifetime"; "returning_local_reference"; "borrowed_value_too_short";
                           "temporary_dropped_while_borrowed"; "borrowed_data_escapes";
                           "closure_may_outlive_borrow"]
  then "lifetime"
  else if category =s "trait_requirement" then "trait_boundary"
  else category.

(** [iter.find_map(f)] *)
Definition first_some {A B} (f : A -> option B) (l : list A) : option B := head (omap f l).

Definition cause_material (uri : string) (problem : OwnershipProblem)
    (events : list AnalyzerData.OwnershipEvent) : string :=
  let matching := retain (event_matches problem) events in
  let body_id := find_first (fun body_id => negb (body_id =? 0)%N) (ev_body_id <$> matching) in
  let loan_id := first_some ev_loan_id matching in
  let causal_range :=
    default (problem_binding_range problem)
      (min_by range_key_leb (ev_range <$> retain is_causal matching)) in
  uri +:+ "|" +:+ show (default 0%N body_id) +:+ "|" +:+ problem_family (problem_category problem) +:+ "|"
  +:+ match loan_id with Some loan => show loan | None => "none" end +:+ "|"
  +:+ show (position_line (range_start causal_range)) +:+ ":"
  +:+ show (position_character (range_start causal_range)) +:+ "|"
  +:+ ownership_root_name (problem_binding_name problem).

Definition ownership_problem_cause_id (uri : string) (problem : OwnershipProblem)
    (events : list AnalyzerData.OwnershipEvent) : string :=
  "cluster-" +:+ stable_source_hash (cause_material uri problem events).

(** ** Sites *)

Definition is_selected (selected_problem_id : option string) (entry : WorkspaceOwnershipProblem) : bool :=
  bool_decide (selected_problem_id = Some (problem_id (entry_problem entry))).

Definition ownership_problem_site (entry : WorkspaceOwnershipProblem) (role relationship : string)
    (selected_problem_id : option string) : OwnershipWorkspaceSite :=
  mk_site (Some (problem_id (entry_problem entry))) role
    (mk_location (entry_uri entry) (problem_primary_range (entry_problem entry)))
    (problem_message (entry_problem entry)) relationship
    (problem_precision (entry_problem entry)) (is_selected selected_problem_id entry).

Definition root_label (event : AnalyzerData.OwnershipEvent) : string :=
  match ev_kind event with
  | RaEventKind.Move | RaEventKind.PartialMove =>
      match ev_destination event with
      | Some destination => "`" +:+ ev_place event +:+ "` moves to " +:+ evdest_label destination
      | None => "ownership leaves `" +:+ ev_place event +:+ "` here"
      end
  | RaEventKind.BorrowShared => "a shared reference starts borrowing `" +:+ ev_place event +:+ "` here"
  | RaEventKind.BorrowMutable | RaEventKind.BorrowActivate =>
      "exclusive access to `" +:+ ev_place event +:+ "` starts here"
  | _ => "the ownership constraint on `" +:+ ev_place event +:+ "` starts here"
  end.

Definition root_relationship (event : AnalyzerData.OwnershipEvent) : string :=
  match ev_kind event with
  | RaEventKind.Move | RaEventKind.PartialMove =>
      "The destination now owns the value; the source binding is unavailable until reinitialized."
  | RaEventKind.BorrowShared =>
      "This view must keep observing a valid value, so conflicting mutation waits until its last use."
  | RaEventKind.BorrowMutable | RaEventKind.BorrowActivate =>
      "Exclusive access blocks competing readers and writers for the active loan."
  | _ => "This compiler event establishes the constraint used by the later diagnostic."
  end.

Definition causal_event (problem : OwnershipProblem) (events : list AnalyzerData.OwnershipEvent) :
    option AnalyzerData.OwnershipEvent :=
  min_by (on ev_range range_key_leb)
    (retain (fun event => event_matches problem event && is_causal event) events).

Definition ownership_problem_root_site (entry : WorkspaceOwnershipProblem)
    (events : list AnalyzerData.OwnershipEvent) (selected_problem_id : option string) :
    OwnershipWorkspaceSite :=
  match causal_event (entry_problem entry) events with
  | None =>
      ownership_problem_site entry "root" "rustc reported the ownership constraint here" selected_problem_id
  | Some event =>
      mk_site (Some (problem_id (entry_problem entry))) "root"
        (mk_location (entry_uri entry) (ev_range event))
        (root_label event) (root_relationship event) (precision_code (ev_exact event))
        (is_selected selected_problem_id entry
         && ranges_touch (ev_range event) (problem_primary_range (entry_problem entry)))
  end.

Definition related_site (request_range : Range) (root : WorkspaceOwnershipProblem)
    (related : OwnershipProblemRelated) : OwnershipWorkspaceSite :=
  mk_site None "evidence" (mk_location (entry_uri root) (related_range related)) (related_message related)
    "compiler-related span" "compiler_diagnostic" (ranges_touch (related_range related) request_range).

(** ** Texts *)

Definition ownership_cluster_title (problem : OwnershipProblem) : string :=
  let target := problem_binding_name problem in
  let category := problem_category problem in
  if one_of category ["use_after_move"; "partial_move"] then "`" +:+ target +:+ "` was transferred, then used again"
  else if category =s "multiple_mutable_borrows" then "`" +:+ target +:+ "` has two exclusive borrowers"
  else if one_of category ["mutable_while_shared"; "assign_while_borrowed"]
  then "`" +:+ target +:+ "` changes while an earlier view is still needed"
  else if category =s "move_while_borrowed" then "`" +:+ target +:+ "` moves while a view still points into it"
  else if category =s "immutable_mutation" then "`" +:+ target +:+ "` cannot provide mutable access"
  else if one_of category ["returning_local_reference"; "borrowed_value_too_short";
                           "temporary_dropped_while_borrowed"]
  then "A reference to `" +:+ target +:+ "` would outlive its value"
  else if category =s "trait_requirement" then "`" +:+ target +:+ "` cannot cross this ownership boundary"
  else problem_message problem.

Definition ownership_cluster_summary (problem : OwnershipProblem) (diagnostic_count : N) : string :=
  let category := problem_category problem in
  let count :=
    if (diagnostic_count =? 1)%N then "This is the compiler's root ownership diagnostic."
    else show diagnostic_count +:+ " diagnostics share the same compiler ownership cause; fixing the root may clear the others." in
  let explanation :=
    if one_of category ["use_after_move"; "partial_move"]
    then "Ownership left the original binding, so Rust cannot use that binding as though it still contains the value."
    else if category =s "multiple_mutable_borrows"
    then "Exclusive access already exists, so another mutable reference could create two writers to the same value."
    else if one_of category ["mutable_while_shared"; "assign_while_borrowed"]
    then "An earlier reference still needs the old value, while this operation would replace or mutate it."
    else if category =s "immutable_mutation"
    then "The operation requires exclusive mutable access, but the path to the value only supplies immutable or shared access."
    else "The sites below are connected by compiler diagnostic, ownership-event, or resolved-call evidence." in
  explanation +:+ " " +:+ count.

(** [OwnershipEventKind::label] *)
Definition kind_label (kind : RaEventKind.OwnershipEventKind) : string :=
  match kind with
  | RaEventKind.BorrowActivate => "borrow activates"
  | RaEventKind.BorrowEnd => "borrow ends"
  | RaEventKind.BorrowMutable => "&mut borrow"
  | RaEventKind.BorrowShared => "shared borrow"
  | RaEventKind.Clone => "clone shared handle"
  | RaEventKind.Copy => "copy"
  | RaEventKind.Drop => "drop"
  | RaEventKind.InvalidUse => "invalid use after move"
  | RaEventKind.LastUse => "last use"
  | RaEventKind.Move => "move"
  | RaEventKind.PartialMove => "partial move"
  | RaEventKind.Reinitialize => "reinitialized"
  end.

(** ** The journey *)

Definition binding_frame (root : WorkspaceOwnershipProblem) : OwnershipJourneyFrame :=
  let problem := entry_problem root in
  mk_frame (problem_id problem +:+ "-binding") "binding"
    (mk_location (entry_uri root) (problem_binding_range problem))
    ("`" +:+ problem_binding_name problem +:+ "` starts here")
    "This binding is the source-level name whose ownership or access state Rust is tracking."
    "binding" "available" (problem_precision problem).

Definition event_explanation (event : AnalyzerData.OwnershipEvent) : string :=
  match ev_detail event with
  | Some detail => detail
  | None =>
      match ev_kind event with
      | RaEventKind.Move | RaEventKind.PartialMove =>
          "Ownership leaves the source place; the allocation is not implicitly duplicated."
      | RaEventKind.BorrowShared =>
          "A shared view is created. Reads remain allowed, but incompatible mutation must wait until its last use."
      | RaEventKind.BorrowMutable | RaEventKind.BorrowActivate =>
          "Exclusive access is active, so no competing reader or writer may access the same place."
      | RaEventKind.BorrowEnd =>
          "The borrow is no longer used on this control-flow path, so the blocked access becomes available again."
      | kind => "Compiler MIR records `" +:+ ownership_kind_code kind +:+ "` for this place."
      end
  end.

Definition event_frame (root : WorkspaceOwnershipProblem) (event : AnalyzerData.OwnershipEvent) :
    OwnershipJourneyFrame :=
  let kind := ownership_kind_code (ev_kind event) in
  mk_frame (ev_event_id event) kind
    (mk_location (entry_uri root) (ev_range event))
    (match ev_destination event with
     | Some destination => "`" +:+ ev_place event +:+ "` → " +:+ evdest_label destination
     | None => kind_label (ev_kind event) +:+ " · `" +:+ ev_place event +:+ "`"
     end)
    (event_explanation event) kind (ownership_state_code (ev_state event)) (precision_code (ev_exact event)).

Definition diagnostic_frame (root : WorkspaceOwnershipProblem) : OwnershipJourneyFrame :=
  let problem := entry_problem root in
  mk_frame (problem_id problem +:+ "-diagnostic") "rejected_operation"
    (mk_location (entry_uri root) (problem_primary_range problem))
    (problem_message problem) (ownership_cluster_summary problem 1)
    "conflict" "operation rejected; the value itself may still be alive" "compiler_diagnostic".

(** The loop over the events, which leaves room for the last frame. *)
Fixpoint journey_loop (root : WorkspaceOwnershipProblem) (limit : N)
    (events : list AnalyzerData.OwnershipEvent) (result : list OwnershipJourneyFrame) :
    list OwnershipJourneyFrame :=
  match events with
  | [] => result
  | event :: events =>
      if (limit <=? len result + 1)%N then result
      else journey_loop root limit events (result ++ [event_frame root event])
  end.

Definition journey_events (events : list AnalyzerData.OwnershipEvent) (problem : OwnershipProblem) :
    list AnalyzerData.OwnershipEvent :=
  sort_by (on ev_range range_key_leb)
    (retain (fun event =>
       ownership_name_refers_to_binding (ev_name event) (problem_binding_name problem)
       || ownership_name_refers_to_binding (ev_place event) (problem_binding_name problem)
       || existsb (fun range => ranges_touch range (ev_range event)) (problem_related_ranges problem))
       events).

(** [events] are those of the root's file. *)
Definition ownership_workspace_journey (events : list AnalyzerData.OwnershipEvent)
    (root : WorkspaceOwnershipProblem) (limit : N) : list OwnershipJourneyFrame :=
  truncate limit
    (journey_loop root limit (journey_events events (entry_problem root)) [binding_frame root]
     ++ [diagnostic_frame root]).

(** ** Callers *)

(** One call of the function: the name of the caller, the file and the range of the
    call (converting it can fail when the query is cancelled). *)
Record CallSite : Type := mk_call {
  call_caller : string;
  call_file_id : FileId;
  call_range : result Range
}.

Fixpoint constraint_loop (snap : OwnershipSnapshot) (selected_problem_id : option string) (limit : N)
    (calls : list CallSite) (result_ : list OwnershipWorkspaceSite) : result (list OwnershipWorkspaceSite) :=
  match calls with
  | [] => Ok result_
  | call :: calls =>
      if (limit <=? len result_)%N then Ok result_
      else if negb (osnap_is_local snap (call_file_id call))
      then constraint_loop snap selected_problem_id limit calls result_
      else range ← call_range call;
           constraint_loop snap selected_problem_id limit calls
             (result_ ++
              [mk_site selected_problem_id "caller_constraint"
                 (mk_location (osnap_url snap (call_file_id call)) range)
                 ("Caller `" +:+ call_caller call +:+ "` uses this function")
                 "A signature or receiver repair may require this caller to change."
                 "resolved_call" false])
  end.

(** [incoming_calls file position]: the calls of the function that surrounds the
    position, none when there is no such function; an error when a query is
    cancelled. *)
Definition ownership_incoming_call_constraints (snap : OwnershipSnapshot)
    (incoming_calls : FileId -> Position -> result (list CallSite)) (file_id : FileId)
    (diagnostic_range : Range) (selected_problem_id : option string) (limit : N) :
    result (list OwnershipWorkspaceSite) :=
  calls ← incoming_calls file_id (range_start diagnostic_range);
  constraint_loop snap selected_problem_id limit calls [].

(** ** The question *)

Definition ownership_intent_question (category : string) : option OwnershipIntentQuestion :=
  if one_of category ["use_after_move"; "partial_move"; "move_while_borrowed"] then
    Some (mk_question "retain_after_transfer"
      "Should the original caller still use this value after the call?"
      [mk_choice "transfer" "No, transfer it" "Keep the move and stop using the original binding.";
       mk_choice "borrow" "Yes, lend it temporarily"
         "Change the call boundary to borrow when the callee does not need ownership.";
       mk_choice "duplicate_or_share" "Yes, duplicate or share"
         "Compare an independent clone with shared ownership and their runtime costs."])
  else if category =s "immutable_mutation" then
    Some (mk_question "mutation_owner" "Who should be allowed to change this value?"
      [mk_choice "unique" "One mutable owner"
         "Prefer `mut` or `&mut`; this keeps mutation checked at compile time.";
       mk_choice "shared_local" "Several same-thread owners"
         "Consider `Rc<RefCell<_>>`; borrow conflicts become runtime checks.";
       mk_choice "shared_threads" "Owners on multiple threads"
         "Consider `Arc<Mutex<_>>` or `Arc<RwLock<_>>`; locking changes runtime behavior."])
  else if one_of category ["multiple_mutable_borrows"; "mutable_while_shared"; "assign_while_borrowed"] then
    Some (mk_question "old_view_needed" "Is the earlier reference still needed after this mutation?"
      [mk_choice "end_first" "No, end it first"
         "Shorten the borrow or reorder operations before adding a wrapper.";
       mk_choice "snapshot" "Yes, keep a snapshot"
         "Copy or clone only the data that must survive the mutation.";
       mk_choice "shared_runtime" "Yes, share live state"
         "Interior mutability or locking may be appropriate, with runtime trade-offs."])
  else None.

(** ** Entries *)

Definition file_entries (snap : OwnershipSnapshot) (file_id : FileId) : list WorkspaceOwnershipProblem :=
  let uri := osnap_url snap file_id in
  let events := ownership_events_for_file (osnap_events snap) file_id in
  let tutorial := ownership_tutorial_for_file (osnap_models snap) file_id in
  (fun diagnostic =>
     let problem := ownership_problem_from_diagnostic events tutorial diagnostic in
     mk_entry file_id uri problem (ownership_problem_cause_id uri problem events))
    <$> ownership_diagnostics_for_file (osnap_diagnostics snap) file_id.

Definition collected_entries (snap : OwnershipSnapshot) : list WorkspaceOwnershipProblem :=
  mbind (M := list) (file_entries snap)
    (retain (osnap_is_local snap) (ownership_diagnostic_file_ids (osnap_diagnostics snap))).

(** [(!active, uri, start)] *)
Definition entry_key (active_file_id : FileId) (entry : WorkspaceOwnershipProblem) :
    bool * (string * Position) :=
  (negb (entry_file_id entry =? active_file_id)%N,
   (entry_uri entry, range_start (problem_primary_range (entry_problem entry)))).

Definition entry_key_leb : bool * (string * Position) -> bool * (string * Position) -> bool :=
  lex_leb bool_cmp (lex_leb String.compare position_leb).

Definition sorted_entries (snap : OwnershipSnapshot) (active_file_id : FileId) :
    list WorkspaceOwnershipProblem :=
  sort_by (on (entry_key active_file_id) entry_key_leb) (collected_entries snap).

Definition touches_request (request_range : Range) (problem : OwnershipProblem) : bool :=
  ranges_touch (problem_primary_range problem) request_range
  || existsb (fun range => ranges_touch range request_range) (problem_related_ranges problem).

Definition select_problem (params : OwnershipWorkspaceGuideParams) (active_file_id : FileId)
    (request_range : Range) (entries : list WorkspaceOwnershipProblem) : option string :=
  or_else (guide_params_selected_problem_id params) (fun _ =>
    (fun entry => problem_id (entry_problem entry)) <$>
    find_first (fun entry =>
      (entry_file_id entry =? active_file_id)%N && touches_request request_range (entry_problem entry))
      entries).

Definition select_cause (entries : list WorkspaceOwnershipProblem) (selected_problem_id : option string) :
    option string :=
  selected ← selected_problem_id;
  entry_cause_id <$> find_first (fun entry => problem_id (entry_problem entry) =s selected) entries.

(** ** Clusters *)

Definition note_cause (state : gset string * list string) (entry : WorkspaceOwnershipProblem) :
    gset string * list string :=
  let '(seen, cause_ids) := state in
  if decide (entry_cause_id entry ∈ seen) then state
  else ({[entry_cause_id entry]} ∪ seen, cause_ids ++ [entry_cause_id entry]).

(** [v.swap(i, j)]; both indices are in range where it is used. *)
Definition swap {A} (i j : nat) (l : list A) : list A :=
  match l !! i, l !! j with
  | Some x, Some y => <[i := y]> (<[j := x]> l)
  | _, _ => l
  end.

Definition promote (selected_cause_id : option string) (cause_ids : list string) : list string :=
  match selected_cause_id with
  | Some selected =>
      match position (fun cause => cause =s selected) cause_ids with
      | Some index => swap 0 (N.to_nat index) cause_ids
      | None => cause_ids
      end
  | None => cause_ids
  end.

Definition ordered_causes (entries : list WorkspaceOwnershipProblem) (selected_cause_id : option string) :
    list string :=
  promote selected_cause_id (foldl note_cause (∅, []) entries).2.

Definition grouped (entries : list WorkspaceOwnershipProblem) (cause_id : string) :
    list WorkspaceOwnershipProblem :=
  retain (fun entry => entry_cause_id entry =s cause_id) entries.

Definition site_key (site : OwnershipWorkspaceSite) : string * Position :=
  (location_uri (site_location site), range_start (location_range (site_location site))).

Definition same_site (left right : OwnershipWorkspaceSite) : bool :=
  (location_uri (site_location left) =s location_uri (site_location right))
  && range_eqb (location_range (site_location left)) (location_range (site_location right))
  && (site_label left =s site_label right).

Definition impact_sites (group : list WorkspaceOwnershipProblem) (root : WorkspaceOwnershipProblem)
    (request_range : Range) (selected_problem_id : option string) : list OwnershipWorkspaceSite :=
  dedup_by same_site
    (sort_by (on site_key (lex_leb String.compare position_leb))
       (((fun entry =>
            ownership_problem_site entry "symptom" "rustc rejected this site because of the root event above"
              selected_problem_id) <$> group)
        ++ (related_site request_range root <$> problem_related (entry_problem root)))).

Definition cluster_precision_code (group : list WorkspaceOwnershipProblem) : string :=
  if existsb (fun entry => problem_precision (entry_problem entry) =s "estimated") group then "estimated"
  else if existsb (fun entry => problem_precision (entry_problem entry) =s "compiler_diagnostic") group
  then "compiler_diagnostic"
  else "compiler_exact".

Definition affected_files (group : list WorkspaceOwnershipProblem) : N :=
  N.of_nat (size (list_to_set (entry_uri <$> group) : gset string)).

Definition group_root (group : list WorkspaceOwnershipProblem) : option WorkspaceOwnershipProblem :=
  min_by (on (fun entry => problem_primary_range (entry_problem entry)) range_key_leb) group.

Definition cluster_of (snap : OwnershipSnapshot) (entries : list WorkspaceOwnershipProblem)
    (request_range : Range) (selected_problem_id : option string) (cause_id : string) :
    option OwnershipProblemCluster :=
  let group := grouped entries cause_id in
  root ← group_root group;
  let root_events := ownership_events_for_file (osnap_events snap) (entry_file_id root) in
  let impacts := impact_sites group root request_range selected_problem_id in
  Some (mk_cluster cause_id (problem_id (entry_problem root))
    (ownership_cluster_title (entry_problem root))
    (ownership_cluster_summary (entry_problem root) (len group))
    (problem_category (entry_problem root)) (problem_diagnostic_code (entry_problem root))
    (ownership_problem_root_site root root_events selected_problem_id)
    (truncate MAX_IMPACTS impacts) [] (affected_files group) (cluster_precision_code group)
    (MAX_IMPACTS <? len impacts)%N).

(** ** The handler *)

Definition find_cluster (clusters : list OwnershipProblemCluster) (id : string) :
    option OwnershipProblemCluster :=
  find_first (fun cluster => cluster_id cluster =s id) clusters.

Definition select_cluster (selected_cause_id : option string) (clusters : list OwnershipProblemCluster) :
    option string :=
  or_else
    (cause ← selected_cause_id;
     if existsb (fun cluster => cluster_id cluster =s cause) clusters then Some cause else None)
    (fun _ => cluster_id <$> head clusters).

Definition with_constraints (constraints : list OwnershipWorkspaceSite) (c : OwnershipProblemCluster) :
    OwnershipProblemCluster :=
  mk_cluster (cluster_id c) (cluster_root_problem_id c) (cluster_title c) (cluster_summary c)
    (cluster_category c) (cluster_diagnostic_code c) (cluster_root c) (cluster_impacts c) constraints
    (cluster_affected_files c) (cluster_precision c) (cluster_truncated c).

(** [iter_mut().find(..)] followed by an assignment: the first match changes. *)
Fixpoint update_first {A} (p : A -> bool) (f : A -> A) (l : list A) : list A :=
  match l with
  | [] => []
  | x :: l => if p x then f x :: l else x :: update_first p f l
  end.

Definition root_frame (cluster : OwnershipProblemCluster) : OwnershipJourneyFrame :=
  mk_frame (cluster_id cluster +:+ "-root") "diagnostic" (site_location (cluster_root cluster))
    (site_label (cluster_root cluster)) (cluster_summary cluster) "compiler diagnostic"
    "operation rejected" (site_precision (cluster_root cluster)).

(** The entry of the selected cluster's root. *)
Definition root_entry (entries : list WorkspaceOwnershipProblem) (clusters : list OwnershipProblemCluster)
    (cluster : string) : option WorkspaceOwnershipProblem :=
  find_first (fun entry =>
    (entry_cause_id entry =s cluster)
    && (problem_id (entry_problem entry)
        =s default "" (cluster_root_problem_id <$> find_cluster clusters cluster))) entries.

(** The journey and the constraints of the selected cluster. *)
Definition visit_selected (snap : OwnershipSnapshot)
    (incoming_calls : FileId -> Position -> result (list CallSite))
    (entries : list WorkspaceOwnershipProblem) (selected_problem_id selected_cluster_id : option string)
    (clusters : list OwnershipProblemCluster) :
    result (list OwnershipProblemCluster * list OwnershipJourneyFrame) :=
  match selected_cluster_id with
  | None => Ok (clusters, [])
  | Some id =>
      match root_entry entries clusters id with
      | None => Ok (clusters, [])
      | Some root =>
          let journey :=
            ownership_workspace_journey
              (ownership_events_for_file (osnap_events snap) (entry_file_id root)) root MAX_JOURNEY_FRAMES in
          constraints ← ownership_incoming_call_constraints snap incoming_calls (entry_file_id root)
            (problem_primary_range (entry_problem root)) selected_problem_id MAX_RELATED_CONSTRAINTS;
          match find_cluster clusters id with
          | None => Ok (clusters, journey)
          | Some cluster =>
              Ok (update_first (fun candidate => cluster_id candidate =s id) (with_constraints constraints) clusters,
                  if is_nil journey then [root_frame cluster] else journey)
          end
      end
  end.

Definition guide_revision_of (entries : list WorkspaceOwnershipProblem) (active_source : string) : string :=
  stable_source_hash
    (join "|" (((fun entry => entry_uri entry +:+ ":" +:+ problem_id (entry_problem entry)) <$> entries)
               ++ [stable_source_hash active_source])).

Definition guide_status_of (expected_revision : option string) (revision : string)
    (entries : list WorkspaceOwnershipProblem) : string :=
  if match expected_revision with Some expected => negb (expected =s revision) | None => false end
  then "refreshed"
  else if is_nil entries then "ready_empty" else "ready".

Definition guide_result (snap : OwnershipSnapshot)
    (incoming_calls : FileId -> Position -> result (list CallSite)) (params : OwnershipWorkspaceGuideParams)
    (active_file_id : FileId) (active_source : string) : result OwnershipWorkspaceGuide :=
  let request_range := mk_range (guide_params_position params) (guide_params_position params) in
  let all_entries := sorted_entries snap active_file_id in
  let entries := truncate MAX_PROBLEMS all_entries in
  let selected_problem_id := select_problem params active_file_id request_range entries in
  let selected_cause_id := select_cause entries selected_problem_id in
  let cause_ids := ordered_causes entries selected_cause_id in
  let clusters :=
    omap (cluster_of snap entries request_range selected_problem_id) (truncate MAX_CLUSTERS cause_ids) in
  let selected_cluster_id := select_cluster selected_cause_id clusters in
  visited ← visit_selected snap incoming_calls entries selected_problem_id selected_cluster_id clusters;
  let journey := visited.2 in
  let revision := guide_revision_of entries active_source in
  Ok (mk_guide 1 (guide_status_of (guide_params_expected_revision params) revision entries) revision
    selected_cluster_id visited.1 (truncate MAX_JOURNEY_FRAMES journey)
    (id ← selected_cluster_id;
     cluster ← find_cluster clusters id;
     ownership_intent_question (cluster_category cluster))
    ((MAX_PROBLEMS <? len all_entries)%N || (MAX_CLUSTERS <? len cause_ids)%N
     || (MAX_JOURNEY_FRAMES <? len journey)%N)).

Definition handle_ownership_workspace_guide (snap : OwnershipSnapshot)
    (incoming_calls : FileId -> Position -> result (list CallSite)) (params : OwnershipWorkspaceGuideParams) :
    result OwnershipWorkspaceGuide :=
  file ← osnap_file_id snap (text_document_uri (guide_params_text_document params));
  match file with
  | None => Ok (mk_guide 0 "" "" None [] [] None false)
  | Some active_file_id =>
      active_source ← osnap_file_text snap active_file_id;
      guide_result snap incoming_calls params active_file_id active_source
  end.
