(* ===== verification/AnalyzerGuideSpec.v ===== *)
(** * rust-analyzer: what the workspace guide shows

    The clusters partition the problems: one per cause, with the earliest problem of
    the cause as its root, the cause of the selected problem first.  The journey starts
    at the binding and ends at the rejected operation whatever lies between.  With
    facts read from the compiler the editor takes the guide unless there are more than
    64 causes or two frames of the journey have one identifier.  Both happen, and the
    last section shows with what. *)

From Stdlib Require Import Ascii String.
From S2P Require Import Prelude RustStr RustColl RustPath Fnv MemoryGraph MemoryGraphSpec AnalyzerData AnalyzerModel AnalyzerState AnalyzerStateSpec AnalyzerProblems AnalyzerProblemsSpec AnalyzerGuide.
From S2P Require Import Protocol Bridge BridgeSpec.
From stdpp Require Import options.

(** ** Causes *)

Lemma note_causes_spec entries seen ids :
  (forall c, c ∈ seen <-> c ∈ ids) -> NoDup ids ->
  let '(seen', ids') := foldl note_cause (seen, ids) entries in
  NoDup ids' /\ forall c, c ∈ ids' <-> c ∈ ids \/ c ∈ entry_cause_id <$> entries.
Proof.
  revert seen ids. induction entries as [|e entries IH]; intros seen ids Hs Hnd; cbn [foldl].
  { split; [done|]. set_solver. }
  cbn [note_cause]. case_decide as He.
  - specialize (IH seen ids Hs Hnd). destruct (foldl note_cause _ _) as [seen' ids'].
    destruct IH as [Hnd' H']. split; [done|]. intros c. rewrite H'. set_solver.
  - assert (entry_cause_id e ∉ ids) as Hn by (by rewrite <-Hs).
    assert (NoDup (ids ++ [entry_cause_id e])) as Hnd2.
    { apply NoDup_app. split; [done|]. split; [set_solver|apply NoDup_singleton]. }
    specialize (IH ({[entry_cause_id e]} ∪ seen) (ids ++ [entry_cause_id e])).
    destruct (foldl note_cause _ _) as [seen' ids']. destruct IH as [Hnd' H'].
    { intros c. rewrite elem_of_union, elem_of_app, elem_of_singleton, list_elem_of_singleton, Hs. tauto. }
    { done. }
    split; [done|]. intros c. rewrite H'. set_solver.
Qed.

Lemma swap_head {A} (x y : A) l k :
  (x :: l) !! k = Some y ->
  swap 0 k (x :: l) ≡ₚ x :: l /\ head (swap 0 k (x :: l)) = Some y.
Proof.
  intros Hy. unfold swap. cbn. rewrite Hy. destruct k as [|k]; cbn in *; [by simplify_eq|].
  split; [|done].
  rewrite (insert_take_drop _ _ _ (lookup_lt_Some _ _ _ Hy)).
  rewrite <-(take_drop_middle l k y Hy) at 3. rewrite <-!Permutation_middle. apply Permutation_swap.
Qed.

Lemma promote_spec selected ids :
  promote selected ids ≡ₚ ids /\
  (forall c, selected = Some c -> c ∈ ids -> head (promote selected ids) = Some c).
Proof.
  unfold promote. destruct selected as [c|]; [|by split].
  destruct (position _ ids) as [i|] eqn:Hi.
  - apply position_Some in Hi as (y & Hy & Hc & _). apply str_eqb_eq in Hc as ->.
    destruct ids as [|x ids]; [by rewrite lookup_nil in Hy|].
    destruct (swap_head x c ids (N.to_nat i) Hy) as [Hp Hh]. split; [done|]. by intros ? [= <-].
  - split; [done|]. intros ? [= <-] Hin. exfalso.
    assert (forall l, c ∈ l -> position (fun cause => cause =s c) l <> None) as H; [|by apply (H ids)].
    clear. induction l as [|x l IH]; cbn; [by intros ?%not_elem_of_nil|].
    intros Hin. destruct (x =s c) eqn:E; [done|]. apply str_eqb_neq in E.
    destruct (position _ l) eqn:Ep; [done|]. exfalso. apply IH; [set_solver|done].
Qed.

Lemma ordered_causes_spec entries selected :
  NoDup (ordered_causes entries selected) /\
  (forall c, c ∈ ordered_causes entries selected <-> c ∈ entry_cause_id <$> entries) /\
  (forall c, selected = Some c -> c ∈ entry_cause_id <$> entries ->
     head (ordered_causes entries selected) = Some c).
Proof.
  unfold ordered_causes.
  pose proof (note_causes_spec entries ∅ [] ltac:(set_solver) ltac:(constructor)) as H.
  destruct (foldl note_cause _ _) as [seen ids]. cbn [snd]. destruct H as [Hnd H].
  destruct (promote_spec selected ids) as [Hp Hh]. split_and!.
  - by rewrite Hp.
  - intros c. rewrite Hp, H. set_solver.
  - intros c -> Hc. apply Hh; [done|]. apply H. by right.
Qed.

(** ** Clusters *)

(** What a cluster says of its cause: its root is a problem of the cause at the least
    range. *)
Definition represents (entries : list WorkspaceOwnershipProblem) (cluster : OwnershipProblemCluster) : Prop :=
  exists root, root ∈ entries /\ entry_cause_id root = cluster_id cluster /\
    problem_id (entry_problem root) = cluster_root_problem_id cluster /\
    problem_category (entry_problem root) = cluster_category cluster /\
    forall entry, entry ∈ entries -> entry_cause_id entry = cluster_id cluster ->
      range_key_leb (problem_primary_range (entry_problem root))
        (problem_primary_range (entry_problem entry)) = true.

Lemma elem_of_grouped entries cause e :
  e ∈ grouped entries cause <-> e ∈ entries /\ entry_cause_id e = cause.
Proof. unfold grouped. rewrite elem_of_retain, str_eqb_eq. tauto. Qed.

Lemma group_root_spec group root :
  group_root group = Some root ->
  root ∈ group /\ forall e, e ∈ group ->
    range_key_leb (problem_primary_range (entry_problem root)) (problem_primary_range (entry_problem e)) = true.
Proof. intros H%(min_by_spec (fun e => problem_primary_range (entry_problem e)) range_key_leb). exact H. Qed.

Section clusters.
Context (snap : OwnershipSnapshot) (entries : list WorkspaceOwnershipProblem) (request_range : Range)
  (selected : option string).

Lemma cluster_of_Some cause cluster :
  cluster_of snap entries request_range selected cause = Some cluster ->
  cluster_id cluster = cause /\ represents entries cluster.
Proof.
  unfold cluster_of. intros (root & Hr & [= <-])%bind_Some. cbn. split; [done|].
  apply group_root_spec in Hr as [[Hin Hc]%elem_of_grouped Hmin].
  exists root. cbn. do 4 (split; [done|]). intros e He Hce. apply Hmin. by apply elem_of_grouped.
Qed.

Lemma cluster_of_total cause :
  cause ∈ entry_cause_id <$> entries ->
  is_Some (cluster_of snap entries request_range selected cause).
Proof.
  intros (e & -> & He)%list_elem_of_fmap. unfold cluster_of.
  destruct (group_root (grouped entries (entry_cause_id e))) as [root|] eqn:E; [by eexists|].
  apply min_by_None in E. exfalso. apply (not_elem_of_nil e). rewrite <-E. by apply elem_of_grouped.
Qed.

Lemma clusters_ids (causes : list string) :
  (forall c, c ∈ causes -> c ∈ entry_cause_id <$> entries) ->
  cluster_id <$> omap (cluster_of snap entries request_range selected) causes = causes.
Proof.
  induction causes as [|c causes IH]; intros H; [done|]. cbn.
  destruct (cluster_of_total c) as [cluster Hc]; [apply H; set_solver|]. rewrite Hc. cbn.
  apply cluster_of_Some in Hc as [-> _]. f_equal. apply IH. intros. apply H. set_solver.
Qed.

Lemma clusters_represent (causes : list string) :
  Forall (represents entries) (omap (cluster_of snap entries request_range selected) causes).
Proof.
  apply Forall_forall. intros c (cause & _ & Hc)%list_elem_of_omap. by apply cluster_of_Some in Hc as [_ ?].
Qed.
End clusters.

Lemma update_first_fmap {A B} (f : A -> B) p g (l : list A) :
  (forall x, f (g x) = f x) -> f <$> update_first p g l = f <$> l.
Proof.
  intros H. induction l as [|x l IH]; [done|]. cbn. destruct (p x); cbn; [by rewrite H|by rewrite IH].
Qed.

Lemma update_first_elem {A} p g (l : list A) x :
  x ∈ update_first p g l -> x ∈ l \/ exists y, y ∈ l /\ x = g y.
Proof.
  induction l as [|y l IH]; cbn; [by left|]. destruct (p y); intros [->|Hx]%elem_of_cons.
  - right. exists y. set_solver.
  - left. set_solver.
  - left. set_solver.
  - destruct (IH Hx) as [?|(z & ? & ->)]; [left; set_solver|]. right. exists z. set_solver.
Qed.

(** Visiting the selected cluster changes its constraints only. *)
Lemma visit_selected_spec snap incoming_calls entries selected id clusters clusters' journey :
  visit_selected snap incoming_calls entries selected id clusters = Ok (clusters', journey) ->
  clusters' = clusters \/
  exists cluster constraints, id = Some cluster /\
    clusters' = update_first (fun c => cluster_id c =s cluster) (with_constraints constraints) clusters.
Proof.
  unfold visit_selected. destruct id as [id|]; [|intros [= <- _]; by left].
  destruct (root_entry _ _ _) as [root|]; [|intros [= <- _]; by left].
  destruct (ownership_incoming_call_constraints _ _ _ _ _ _) as [constraints|]; cbn; [|done].
  destruct (find_cluster _ _); intros [= <- _]; [right; eauto|by left].
Qed.

Lemma visit_selected_ids snap incoming_calls entries selected id clusters clusters' journey :
  visit_selected snap incoming_calls entries selected id clusters = Ok (clusters', journey) ->
  cluster_id <$> clusters' = cluster_id <$> clusters.
Proof.
  intros [->|(c & k & _ & ->)]%visit_selected_spec; [done|]. by apply update_first_fmap.
Qed.

Lemma visit_selected_represents snap incoming_calls entries selected id clusters clusters' journey :
  visit_selected snap incoming_calls entries selected id clusters = Ok (clusters', journey) ->
  Forall (represents entries) clusters -> Forall (represents entries) clusters'.
Proof.
  intros [->|(c & k & _ & ->)]%visit_selected_spec H; [done|].
  rewrite Forall_forall in *. intros x [Hx|(y & Hy & ->)]%update_first_elem; [by apply H|].
  apply (H y Hy).
Qed.

(** ** The guide *)

(** The problems a guide is about, and the one and the cause it selects. *)
Definition kept_entries (snap : OwnershipSnapshot) (active_file_id : FileId) : list WorkspaceOwnershipProblem :=
  truncate MAX_PROBLEMS (sorted_entries snap active_file_id).

Definition request_of (params : OwnershipWorkspaceGuideParams) : Range :=
  mk_range (guide_params_position params) (guide_params_position params).

Definition selected_problem_of (snap : OwnershipSnapshot) (params : OwnershipWorkspaceGuideParams)
    (active_file_id : FileId) : option string :=
  select_problem params active_file_id (request_of params) (kept_entries snap active_file_id).

Definition selected_cause_of (snap : OwnershipSnapshot) (params : OwnershipWorkspaceGuideParams)
    (active_file_id : FileId) : option string :=
  select_cause (kept_entries snap active_file_id) (selected_problem_of snap params active_file_id).

Lemma select_cause_elem entries selected cause :
  select_cause entries selected = Some cause -> cause ∈ entry_cause_id <$> entries.
Proof.
  unfold select_cause. intros (s & _ & (e & [_ He]%find_first_Some & ->)%fmap_Some)%bind_Some.
  by apply list_elem_of_fmap_2.
Qed.

Lemma collected_entries_elem snap e :
  e ∈ collected_entries snap <->
  exists file, file ∈ ownership_diagnostic_file_ids (osnap_diagnostics snap) /\
    osnap_is_local snap file = true /\ e ∈ file_entries snap file.
Proof.
  unfold collected_entries. rewrite list_elem_of_bind. setoid_rewrite elem_of_retain. naive_solver.
Qed.

Lemma elem_of_truncate {A} n (l : list A) x : x ∈ truncate n l -> x ∈ l.
Proof. intros H. eapply elem_of_sublist; [exact H|apply truncate_sublist]. Qed.

Lemma kept_entries_elem snap active e : e ∈ kept_entries snap active -> e ∈ collected_entries snap.
Proof. intros H%elem_of_truncate. by apply elem_of_sort_by in H. Qed.

Section guide.
Context (snap : OwnershipSnapshot) (incoming_calls : FileId -> Position -> result (list CallSite))
  (params : OwnershipWorkspaceGuideParams) (active : FileId) (source : string)
  (guide : OwnershipWorkspaceGuide)
  (served : guide_result snap incoming_calls params active source = Ok guide).

Let entries := kept_entries snap active.
Let problem := selected_problem_of snap params active.
Let cause := selected_cause_of snap params active.
Let causes := ordered_causes entries cause.
Let clusters := omap (cluster_of snap entries (request_of params) problem) (truncate MAX_CLUSTERS causes).

Lemma guide_parts :
  exists journey,
    visit_selected snap incoming_calls entries problem (select_cluster cause clusters) clusters =
      Ok (guide_clusters guide, journey) /\
    guide_journey guide = truncate MAX_JOURNEY_FRAMES journey /\
    guide_selected_cluster_id guide = select_cluster cause clusters /\
    guide_schema_version guide = 1%N /\
    guide_status guide =
      guide_status_of (guide_params_expected_revision params) (guide_revision guide) entries /\
    guide_intent_question guide =
      (id ← select_cluster cause clusters;
       cluster ← find_cluster clusters id;
       ownership_intent_question (cluster_category cluster)) /\
    guide_truncated guide =
      (MAX_PROBLEMS <? len (sorted_entries snap active))%N || (MAX_CLUSTERS <? len causes)%N
      || (MAX_JOURNEY_FRAMES <? len journey)%N.
Proof using served.
  revert served. unfold guide_result. cbv zeta.
  change (truncate MAX_PROBLEMS (sorted_entries snap active)) with entries.
  change (select_problem params active _ entries) with problem.
  change (select_cause entries problem) with cause. fold causes.
  change (omap (cluster_of snap entries _ problem) (truncate MAX_CLUSTERS causes)) with clusters.
  destruct (visit_selected _ _ _ _ _ _) as [[clusters' journey]|] eqn:Hv; [|done].
  intros [= <-]. exists journey. by cbn.
Qed.

Lemma causes_covered c : c ∈ truncate MAX_CLUSTERS causes -> c ∈ entry_cause_id <$> entries.
Proof using Type. intros H%elem_of_truncate. by apply ordered_causes_spec in H. Qed.

Lemma guide_cluster_ids : cluster_id <$> guide_clusters guide = truncate MAX_CLUSTERS causes.
Proof using served.
  destruct guide_parts as (journey & Hv & _). rewrite (visit_selected_ids _ _ _ _ _ _ _ _ Hv).
  apply clusters_ids, causes_covered.
Qed.

Lemma guide_represents : Forall (represents entries) (guide_clusters guide).
Proof using served.
  destruct guide_parts as (journey & Hv & _).
  eapply visit_selected_represents; [exact Hv|]. apply clusters_represent.
Qed.

Lemma guide_covers e :
  e ∈ entries ->
  entry_cause_id e ∈ cluster_id <$> guide_clusters guide \/ guide_truncated guide = true.
Proof using served.
  intros He. rewrite guide_cluster_ids.
  destruct (decide (len causes <= MAX_CLUSTERS)%N) as [Hle|Hgt].
  - left. rewrite truncate_id by done. by apply ordered_causes_spec, list_elem_of_fmap_2.
  - right. destruct guide_parts as (journey & _ & _ & _ & _ & _ & _ & ->).
    rewrite (proj2 (N.ltb_lt MAX_CLUSTERS (len causes))) by lia. by rewrite orb_true_r.
Qed.

Lemma guide_complete : guide_truncated guide = false -> entries ≡ₚ collected_entries snap.
Proof using served.
  destruct guide_parts as (journey & _ & _ & _ & _ & _ & _ & ->).
  intros [[Hle%N.ltb_ge _]%orb_false_iff _]%orb_false_iff. unfold entries, kept_entries.
  rewrite truncate_id by done. apply sort_by_perm.
Qed.

Lemma guide_selection c :
  cause = Some c ->
  guide_selected_cluster_id guide = Some c /\ head (cluster_id <$> guide_clusters guide) = Some c.
Proof using served.
  intros Hc. pose proof (select_cause_elem _ _ _ Hc) as Hin.
  assert (head (truncate MAX_CLUSTERS causes) = Some c) as Hh.
  { unfold causes. destruct (ordered_causes_spec entries cause) as (_ & _ & H). specialize (H c Hc Hin).
    destruct (ordered_causes entries cause) as [|x l]; [done|]. exact H. }
  split; [|by rewrite guide_cluster_ids].
  destruct guide_parts as (journey & _ & _ & -> & _).
  unfold select_cluster. rewrite Hc. cbn.
  assert (existsb (fun cluster => cluster_id cluster =s c) clusters = true) as ->; [|done].
  pose proof (clusters_ids snap entries (request_of params) problem _ causes_covered) as Hids.
  fold clusters in Hids. destruct clusters as [|x l]; [by rewrite <-Hids in Hh|].
  rewrite <-Hids in Hh. injection Hh as Hh. cbn. by rewrite Hh, str_eqb_refl.
Qed.
End guide.

Lemma handler_result snap incoming_calls params active guide :
  osnap_file_id snap (text_document_uri (guide_params_text_document params)) = Ok (Some active) ->
  handle_ownership_workspace_guide snap incoming_calls params = Ok guide ->
  exists source, guide_result snap incoming_calls params active source = Ok guide.
Proof.
  unfold handle_ownership_workspace_guide. intros ->. cbn.
  destruct (osnap_file_text snap active) as [source|]; cbn; [eauto|done].
Qed.

(** C17: In the guide of a workspace every cluster stands for one cause, no two for the
    same one, and its root is the earliest problem of that cause; unless the guide says
    it is truncated, it is about every ownership diagnostic of every local file and
    each of them is in a cluster; the cause of the selected problem is the selected
    cluster, and comes first. *)
Theorem guide_partitions_problems snap incoming_calls params active guide :
  osnap_file_id snap (text_document_uri (guide_params_text_document params)) = Ok (Some active) ->
  handle_ownership_workspace_guide snap incoming_calls params = Ok guide ->
  NoDup (cluster_id <$> guide_clusters guide) /\
  Forall (represents (kept_entries snap active)) (guide_clusters guide) /\
  (guide_truncated guide = false ->
   kept_entries snap active ≡ₚ collected_entries snap /\
   forall entry, entry ∈ collected_entries snap ->
     exists cluster, cluster ∈ guide_clusters guide /\ cluster_id cluster = entry_cause_id entry) /\
  (forall cause, selected_cause_of snap params active = Some cause ->
     guide_selected_cluster_id guide = Some cause /\
     head (cluster_id <$> guide_clusters guide) = Some cause).
Proof.
  intros Hf (source & Hg)%(handler_result _ _ _ _ _ Hf). split_and!.
  - rewrite (guide_cluster_ids _ _ _ _ _ _ Hg).
    eapply sublist_NoDup; [|apply truncate_sublist]. apply ordered_causes_spec.
  - by apply (guide_represents _ _ _ _ _ _ Hg).
  - intros Ht. pose proof (guide_complete _ _ _ _ _ _ Hg Ht) as Hp. split; [done|].
    intros e He. rewrite <-Hp in He.
    destruct (guide_covers _ _ _ _ _ _ Hg e He) as [(c & ? & ?)%list_elem_of_fmap|]; [by eauto|congruence].
  - intros c Hc. by apply (guide_selection _ _ _ _ _ _ Hg).
Qed.

(** ** The journey *)

Lemma truncate_take {A} n (l : list A) : truncate n l = take (N.to_nat n) l.
Proof. apply take_N_spec. Qed.

Lemma journey_loop_spec root limit events frames :
  journey_loop root limit events frames =
  frames ++ (event_frame root <$> truncate (limit - 1 - len frames) events).
Proof.
  revert frames. induction events as [|e events IH]; intros frames; cbn [journey_loop].
  { rewrite truncate_take, take_nil. by rewrite app_nil_r. }
  destruct (N.leb_spec limit (len frames + 1)) as [Hle|Hgt].
  - replace (limit - 1 - len frames)%N with 0%N by lia. cbn. by rewrite app_nil_r.
  - rewrite IH, <-app_assoc, !truncate_take. f_equal.
    replace (N.to_nat (limit - 1 - len frames)) with (S (N.to_nat (limit - 1 - len (frames ++ [event_frame root e])))).
    { done. }
    unfold len in *. rewrite length_app. cbn [length]. lia.
Qed.

Lemma journey_spec events root limit :
  (2 <= limit)%N ->
  ownership_workspace_journey events root limit =
  binding_frame root ::
  (event_frame root <$> truncate (limit - 2) (journey_events events (entry_problem root))) ++
  [diagnostic_frame root].
Proof.
  intros Hl. unfold ownership_workspace_journey. rewrite journey_loop_spec.
  replace (limit - 1 - len [binding_frame root])%N with (limit - 2)%N by (unfold len; cbn; lia).
  cbn [app]. apply truncate_id. unfold len. cbn [length]. rewrite length_app, length_fmap. cbn [length].
  pose proof (truncate_length (limit - 2) (journey_events events (entry_problem root))) as H.
  unfold len in H. lia.
Qed.

(** What the events of the root's file contribute. *)
Definition root_events (snap : OwnershipSnapshot) (root : WorkspaceOwnershipProblem) :
    list AnalyzerData.OwnershipEvent :=
  ownership_events_for_file (osnap_events snap) (entry_file_id root).

Definition journey_of (snap : OwnershipSnapshot) (root : WorkspaceOwnershipProblem) : list OwnershipJourneyFrame :=
  binding_frame root ::
  (event_frame root <$> truncate 14 (journey_events (root_events snap root) (entry_problem root))) ++
  [diagnostic_frame root].

Lemma root_entry_Some entries clusters id :
  Forall (represents entries) clusters -> id ∈ cluster_id <$> clusters ->
  exists root, root_entry entries clusters id = Some root /\ root ∈ entries /\ entry_cause_id root = id.
Proof.
  intros Hr (cluster & -> & Hin)%list_elem_of_fmap. unfold root_entry, find_cluster.
  destruct (find_first (fun c => cluster_id c =s cluster_id cluster) clusters) as [c|] eqn:Ec.
  2: { rewrite find_first_None in Ec. specialize (Ec _ Hin). by rewrite str_eqb_refl in Ec. }
  apply find_first_Some in Ec as [Hid%str_eqb_eq Hc]. rewrite Forall_forall in Hr.
  destruct (Hr c Hc) as (root & Hroot & Hcause & Hpid & _). cbn [fmap option_fmap option_map default from_option].
  destruct (find_first _ entries) as [root'|] eqn:E.
  - apply find_first_Some in E as [[Hid'%str_eqb_eq _]%andb_true_iff Hin']. by exists root'.
  - rewrite find_first_None in E. specialize (E _ Hroot). cbn in E.
    by rewrite Hcause, Hid, Hpid, !str_eqb_refl in E.
Qed.

Lemma selected_cluster_cases cause clusters :
  (select_cluster cause clusters = None /\ clusters = []) \/
  exists id, select_cluster cause clusters = Some id /\ id ∈ cluster_id <$> clusters.
Proof.
  destruct clusters as [|x l].
  { left. by destruct cause. }
  right. destruct cause as [c|]; [|exists (cluster_id x); split; [done|set_solver]].
  unfold select_cluster. cbn -[existsb]. destruct (existsb _ (x :: l)) eqn:E.
  - exists c. split; [done|]. apply existsb_exists in E as (y & Hy%list_elem_of_In & <-%str_eqb_eq).
    exact (list_elem_of_fmap_2 cluster_id _ _ Hy).
  - exists (cluster_id x). split; [done|]. set_solver.
Qed.

Section visited.
Context (snap : OwnershipSnapshot) (incoming_calls : FileId -> Position -> result (list CallSite))
  (params : OwnershipWorkspaceGuideParams) (active : FileId) (source : string)
  (guide : OwnershipWorkspaceGuide)
  (served : guide_result snap incoming_calls params active source = Ok guide).

Let entries := kept_entries snap active.
Let problem := selected_problem_of snap params active.
Let cause := selected_cause_of snap params active.
Let causes := ordered_causes entries cause.
Let clusters := omap (cluster_of snap entries (request_of params) problem) (truncate MAX_CLUSTERS causes).

(** The frames of the journey are those of the selected cluster's root. *)
Lemma guide_journey_cases :
  (guide_journey guide = [] /\ guide_clusters guide = [] /\
   guide_truncated guide =
     (MAX_PROBLEMS <? len (sorted_entries snap active))%N || (MAX_CLUSTERS <? len causes)%N) \/
  (exists root constraints, root ∈ entries /\ guide_selected_cluster_id guide = Some (entry_cause_id root) /\
     guide_journey guide = journey_of snap root /\
     ownership_incoming_call_constraints snap incoming_calls (entry_file_id root)
       (problem_primary_range (entry_problem root)) problem MAX_RELATED_CONSTRAINTS = Ok constraints /\
     guide_clusters guide =
       update_first (fun c => cluster_id c =s entry_cause_id root) (with_constraints constraints) clusters /\
     guide_truncated guide =
       (MAX_PROBLEMS <? len (sorted_entries snap active))%N || (MAX_CLUSTERS <? len causes)%N).
Proof using served.
  destruct (guide_parts _ _ _ _ _ _ served) as (journey & Hv & Hj & Hs & _ & _ & _ & Ht).
  fold entries problem cause causes clusters in Hv, Hs, Ht. fold causes in Ht. fold clusters in Hv, Hs.
  destruct (selected_cluster_cases cause clusters) as [[Hn Hc]|(id & Hid & Hin)].
  - left. rewrite Hn in Hv. cbn in Hv. injection Hv as <- <-. rewrite Hj, Ht, Hc. by rewrite orb_false_r.
  - right. rewrite Hid in Hv, Hs. cbn [visit_selected] in Hv.
    destruct (root_entry_Some entries clusters id) as (root & Hroot & Hre & <-); [apply clusters_represent|done|].
    rewrite Hroot in Hv.
    destruct (ownership_incoming_call_constraints _ _ _ _ _ _) as [constraints|] eqn:Ek; cbn -[MAX_JOURNEY_FRAMES] in Hv; [|done].
    rewrite journey_spec in Hv by (unfold MAX_JOURNEY_FRAMES; lia).
    change (MAX_JOURNEY_FRAMES - 2)%N with 14%N in Hv. fold (root_events snap root) (journey_of snap root) in Hv.
    destruct (find_cluster clusters (entry_cause_id root)) as [c|] eqn:Ec.
    2: { exfalso. unfold find_cluster in Ec. rewrite find_first_None in Ec.
         apply list_elem_of_fmap in Hin as (x & Hx & Hin). specialize (Ec x Hin).
         by rewrite Hx, str_eqb_refl in Ec. }
    cbn in Hv. injection Hv as Hv <-. exists root, constraints. split; [done|]. split; [done|].
    assert (len (journey_of snap root) <= MAX_JOURNEY_FRAMES)%N as Hlen.
    { unfold journey_of, len. cbn [length]. rewrite length_app, length_fmap. cbn [length].
      pose proof (truncate_length 14 (journey_events (root_events snap root) (entry_problem root))) as H.
      unfold len in H. unfold MAX_JOURNEY_FRAMES. lia. }
    rewrite Hj, truncate_id by done. split; [done|]. split; [done|]. split; [done|].
    rewrite Ht. rewrite (proj2 (N.ltb_ge _ _) Hlen). by rewrite orb_false_r.
Qed.
End visited.

(** A guide with clusters shows the journey of its selected cluster: first the
    binding of a problem of that cause, then up to 14 of the events that concern it in
    source order, and last the rejected operation, which is never dropped. *)
Theorem guide_journey_shape snap incoming_calls params active guide :
  osnap_file_id snap (text_document_uri (guide_params_text_document params)) = Ok (Some active) ->
  handle_ownership_workspace_guide snap incoming_calls params = Ok guide ->
  guide_clusters guide <> [] ->
  exists root, root ∈ kept_entries snap active /\
    guide_selected_cluster_id guide = Some (entry_cause_id root) /\
    guide_journey guide =
      binding_frame root ::
      (event_frame root <$> truncate 14 (journey_events (root_events snap root) (entry_problem root))) ++
      [diagnostic_frame root].
Proof.
  intros Hf (source & Hg)%(handler_result _ _ _ _ _ Hf) Hne.
  destruct (guide_journey_cases _ _ _ _ _ _ Hg) as [(_ & ? & _)|(root & k & ? & ? & ? & _)]; [done|].
  by exists root.
Qed.

(** The number of frames never reaches the point where the guide reports it. *)
Lemma dropped_frames_not_reported snap incoming_calls params active guide :
  osnap_file_id snap (text_document_uri (guide_params_text_document params)) = Ok (Some active) ->
  handle_ownership_workspace_guide snap incoming_calls params = Ok guide ->
  guide_truncated guide =
    (2000 <? len (sorted_entries snap active))%N
    || (100 <? len (ordered_causes (kept_entries snap active) (selected_cause_of snap params active)))%N.
Proof.
  intros Hf (source & Hg)%(handler_result _ _ _ _ _ Hf).
  by destruct (guide_journey_cases _ _ _ _ _ _ Hg) as [(_ & _ & Ht)|(root & k & _ & _ & _ & _ & _ & Ht)].
Qed.

(** ** When the editor takes the guide *)

(** Facts of the compiler are printable in every file, and calls have ranges. *)
Record printable_workspace (snap : OwnershipSnapshot)
    (incoming_calls : FileId -> Position -> result (list CallSite)) : Prop := {
  pw_files : forall file, printable_facts
    (ownership_diagnostics_for_file (osnap_diagnostics snap) file)
    (ownership_events_for_file (osnap_events snap) file)
    (ownership_tutorial_for_file (osnap_models snap) file);
  pw_calls : forall file position calls, incoming_calls file position = Ok calls ->
    Forall (fun call => forall range, call_range call = Ok range -> range_ordered range) calls
}.

Definition site_ordered (site : OwnershipWorkspaceSite) : Prop :=
  range_ordered (location_range (site_location site)).

Lemma constraint_loop_spec snap selected limit calls sites sites' :
  Forall (fun call => forall range, call_range call = Ok range -> range_ordered range) calls ->
  constraint_loop snap selected limit calls sites = Ok sites' ->
  (len sites <= limit)%N -> Forall site_ordered sites ->
  (len sites' <= limit)%N /\ Forall site_ordered sites'.
Proof.
  intros Hc. revert sites. induction Hc as [|call calls Hcall _ IH]; intros sites; cbn [constraint_loop].
  { by intros [= <-]. }
  destruct (N.leb_spec limit (len sites)) as [Hle|Hgt]; [by intros [= <-]|].
  destruct (negb _); [by apply IH|].
  destruct (call_range call) as [range|] eqn:Er; cbn; [|done].
  intros H Hl Hs. apply (IH _ H).
  - unfold len in *. rewrite length_app. cbn. lia.
  - apply Forall_app. split; [done|]. apply Forall_singleton. by apply Hcall.
Qed.

Section accepted.
Context (snap : OwnershipSnapshot) (incoming_calls : FileId -> Position -> result (list CallSite))
  (printable : printable_workspace snap incoming_calls).

Lemma file_entry_problem file e :
  e ∈ file_entries snap file ->
  entry_file_id e = file /\
  exists d, d ∈ ownership_diagnostics_for_file (osnap_diagnostics snap) file /\
    entry_problem e = ownership_problem_from_diagnostic
      (ownership_events_for_file (osnap_events snap) file)
      (ownership_tutorial_for_file (osnap_models snap) file) d.
Proof using Type. intros (d & -> & Hd)%list_elem_of_fmap. split; [done|]. by exists d. Qed.

Lemma kept_entry_ranges active e :
  e ∈ kept_entries snap active ->
  range_ordered (problem_primary_range (entry_problem e)) /\
  range_ordered (problem_binding_range (entry_problem e)) /\
  Forall (fun r => range_ordered (related_range r)) (problem_related (entry_problem e)).
Proof using printable.
  intros (file & _ & _ & (_ & d & Hd & ->)%file_entry_problem)%kept_entries_elem%collected_entries_elem.
  destruct (diagnostic_problem_ranges _ _ _ (pw_files _ _ printable file) d Hd) as (? & ? & _ & Hr).
  split; [done|]. split; [done|]. eapply Forall_impl; [exact Hr|]. by intros ? [? _].
Qed.

Lemma root_event_ordered root event :
  event ∈ root_events snap root -> range_ordered (ev_range event).
Proof using printable.
  intros He. destruct (pw_files _ _ printable (entry_file_id root)) as [_ HE _].
  rewrite Forall_forall in HE. by apply HE.
Qed.

Lemma journey_ordered active root :
  root ∈ kept_entries snap active ->
  Forall (fun f => range_ordered (location_range (frame_location f))) (journey_of snap root).
Proof using printable.
  intros (Hp & Hb & _)%kept_entry_ranges. apply Forall_cons. split; [done|].
  apply Forall_app. split; [|by apply Forall_singleton]. apply Forall_fmap, Forall_forall.
  intros e He%elem_of_truncate. unfold journey_events in He. rewrite elem_of_sort_by in He.
  apply elem_of_retain in He as [_ He]. by apply (root_event_ordered root).
Qed.

Lemma cluster_of_ok active request_range selected cause cluster :
  cluster_of snap (kept_entries snap active) request_range selected cause = Some cluster ->
  well_formed_cluster cluster.
Proof using printable.
  unfold cluster_of. intros (root & Hr & [= <-])%bind_Some.
  apply group_root_spec in Hr as [[Hroot _]%elem_of_grouped _].
  pose proof (kept_entry_ranges _ _ Hroot) as (Hp & _ & Hrel). rewrite Forall_forall in Hrel.
  assert (bounded (truncate MAX_IMPACTS
    (impact_sites (grouped (kept_entries snap active) cause) root request_range selected)) 64) as Hb.
  { unfold bounded. etrans; [apply truncate_length|]. done. }
  split; cbn -[impact_sites truncate]; [done|done| |rewrite app_nil_r].
  - unfold ownership_problem_root_site. destruct (causal_event _ _) as [e|] eqn:Ee; [|done]. cbn.
    apply (min_by_spec ev_range range_key_leb) in Ee as [[_ He]%elem_of_retain _].
    by apply (root_event_ordered root).
  - apply Forall_forall. intros s Hs%elem_of_truncate. unfold impact_sites in Hs.
    apply elem_of_dedup_by in Hs. rewrite elem_of_sort_by in Hs.
    apply elem_of_app in Hs as [(e & -> & He)%list_elem_of_fmap|(r & -> & Hin)%list_elem_of_fmap]; cbn.
    + apply elem_of_grouped in He as [He _]. by apply (kept_entry_ranges active).
    + by apply Hrel.
Qed.

Lemma with_constraints_ok cluster constraints :
  well_formed_cluster cluster -> bounded constraints 64 -> Forall site_ordered constraints ->
  well_formed_cluster (with_constraints constraints cluster).
Proof using Type.
  intros [Hi _ Hr Hs] Hb Ho. split; cbn; [done..|]. apply Forall_app in Hs as [Hs _].
  by apply Forall_app.
Qed.

Lemma call_constraints_ok file range selected constraints :
  ownership_incoming_call_constraints snap incoming_calls file range selected MAX_RELATED_CONSTRAINTS =
    Ok constraints ->
  bounded constraints 64 /\ Forall site_ordered constraints.
Proof using printable.
  unfold ownership_incoming_call_constraints.
  destruct (incoming_calls file (range_start range)) as [calls|] eqn:Ec; cbn; [|done]. intros H.
  destruct (constraint_loop_spec snap selected MAX_RELATED_CONSTRAINTS calls [] constraints) as [Hl Ho].
  - exact (pw_calls _ _ printable _ _ _ Ec).
  - exact H.
  - done.
  - constructor.
  - split; [|done]. unfold bounded, MAX_RELATED_CONSTRAINTS in *. lia.
Qed.
End accepted.

Section taken.
Context (snap : OwnershipSnapshot) (incoming_calls : FileId -> Position -> result (list CallSite))
  (params : OwnershipWorkspaceGuideParams) (active : FileId) (source : string)
  (guide : OwnershipWorkspaceGuide)
  (served : guide_result snap incoming_calls params active source = Ok guide).

Lemma guide_cluster_ids_unique : unique_ids (cluster_id <$> guide_clusters guide).
Proof using served.
  rewrite (guide_cluster_ids _ _ _ _ _ _ served). split.
  - eapply sublist_NoDup; [|apply truncate_sublist]. apply ordered_causes_spec.
  - intros (e & He & Hin%kept_entries_elem)%causes_covered%list_elem_of_fmap.
    apply collected_entries_elem in Hin as (file & _ & _ & (d & -> & _)%list_elem_of_fmap). done.
Qed.

Lemma guide_status_known :
  guide_status guide ∈ ["ready"; "ready_empty"; "refreshed"; "rust_analyzer_unavailable"].
Proof using served.
  destruct (guide_parts _ _ _ _ _ _ served) as (_ & _ & _ & _ & _ & -> & _).
  unfold guide_status_of. repeat case_match; set_solver.
Qed.

Lemma guide_question_bounded :
  optional (fun q => bounded (question_choices q) 16) (guide_intent_question guide).
Proof using served.
  destruct (guide_parts _ _ _ _ _ _ served) as (_ & _ & _ & _ & _ & _ & -> & _).
  intros q (id & _ & (c & _ & Hq)%bind_Some)%bind_Some. revert Hq.
  unfold ownership_intent_question. repeat case_match; intros [= <-]; vm_compute; congruence.
Qed.

Lemma guide_parts_ok :
  printable_workspace snap incoming_calls ->
  Forall well_formed_cluster (guide_clusters guide) /\
  Forall (fun f => range_ordered (location_range (frame_location f))) (guide_journey guide) /\
  bounded (guide_journey guide) 64.
Proof using served.
  intros printable. split_and!.
  - destruct (guide_journey_cases _ _ _ _ _ _ served) as [(_ & -> & _)|(root & k & _ & _ & _ & Hk & -> & _)]; [done|].
    destruct (call_constraints_ok _ _ printable _ _ _ _ Hk) as [Hb Ho].
    apply Forall_forall. intros c Hc. apply update_first_elem in Hc.
    assert (forall x, x ∈ omap (cluster_of snap (kept_entries snap active) (request_of params)
      (selected_problem_of snap params active))
      (truncate MAX_CLUSTERS (ordered_causes (kept_entries snap active) (selected_cause_of snap params active))) ->
      well_formed_cluster x) as H.
    { intros x (cause & _ & Hx)%list_elem_of_omap. by eapply (cluster_of_ok _ _ printable). }
    destruct Hc as [Hc|(y & Hy & ->)]; [by apply H|]. apply with_constraints_ok; [by apply H|done..].
  - destruct (guide_journey_cases _ _ _ _ _ _ served) as [(-> & _)|(root & k & Hr & _ & -> & _)]; [done|].
    by apply (journey_ordered _ _ printable active).
  - destruct (guide_parts _ _ _ _ _ _ served) as (journey & _ & -> & _).
    unfold bounded. etrans; [apply truncate_length|]. done.
Qed.

Lemma guide_well_formed_iff :
  printable_workspace snap incoming_calls ->
  well_formed_guide guide <->
  bounded (guide_clusters guide) 64 /\ unique_ids (frame_id <$> guide_journey guide).
Proof using served.
  intros printable. split; [by intros []|]. intros [Hc Hj].
  destruct (guide_parts_ok printable) as (H1 & H2 & H3).
  split; try done.
  - apply guide_status_known.
  - destruct (guide_parts _ _ _ _ _ _ served) as (_ & _ & _ & _ & -> & _). by right.
  - apply guide_cluster_ids_unique.
  - apply guide_question_bounded.
Qed.
End taken.

(** C30: With facts read from the compiler, the editor takes rust-analyzer's workspace
    guide exactly when it has at most 64 clusters and the frames of its journey have
    distinct, non-empty identifiers: statuses, cluster identifiers, ranges, impacts,
    constraints and choices are always in order. *)
Theorem guide_accepted_iff snap incoming_calls params active guide :
  printable_workspace snap incoming_calls ->
  osnap_file_id snap (text_document_uri (guide_params_text_document params)) = Ok (Some active) ->
  handle_ownership_workspace_guide snap incoming_calls params = Ok guide ->
  validate_workspace_guide guide = Ok tt <->
  (len (guide_clusters guide) <= 64)%N /\ unique_ids (frame_id <$> guide_journey guide).
Proof.
  intros printable Hf (source & Hg)%(handler_result _ _ _ _ _ Hf). rewrite guide_ok.
  by apply (guide_well_formed_iff _ _ _ _ _ _ Hg).
Qed.

(** ** The selected problem *)

Lemma find_first_sorted {A} (R : A -> A -> Prop) (p : A -> bool) l x :
  StronglySorted R l -> x ∈ l -> p x = true ->
  exists y, find_first p l = Some y /\ p y = true /\ y ∈ l /\ (y = x \/ R y x).
Proof.
  induction 1 as [|z l _ IH Hz]; [by intros ?%not_elem_of_nil|]. cbn. intros Hx Hp.
  destruct (p z) eqn:Ez.
  - exists z. do 2 (split; [done|]). split; [set_solver|].
    apply elem_of_cons in Hx as [->|Hx]; [by left|right]. rewrite Forall_forall in Hz. by apply Hz.
  - apply elem_of_cons in Hx as [->|Hx]; [congruence|].
    destruct (IH Hx Hp) as (y & ? & ? & ? & ?). exists y. set_solver.
Qed.

Lemma diagnosed_file diagnostics file d :
  d ∈ ownership_diagnostics_for_file diagnostics file -> file ∈ ownership_diagnostic_file_ids diagnostics.
Proof.
  unfold ownership_diagnostics_for_file. rewrite elem_of_sort_by, elem_of_push_new.
  intros [?%not_elem_of_nil|Hd]; [done|].
  apply elem_of_values_for in Hd as (i & flycheck & package & entry & values & Hi & Hp & Hv & _).
  unfold ownership_diagnostic_file_ids.
  pose proof (sort_dedup_keys id N.leb N.eqb N.eqb_eq) as H. setoid_rewrite list_fmap_id in H. apply H.
  apply list_elem_of_bind. exists flycheck. split; [|by eapply list_elem_of_lookup_2].
  apply list_elem_of_bind. exists entry. split.
  - apply list_elem_of_fmap. exists (file, values). split; [done|]. by apply elem_of_map_to_list.
  - apply list_elem_of_fmap. exists (package, entry). split; [done|]. by apply elem_of_map_to_list.
Qed.

#[export] Instance entry_key_leb_total : TotalLeb entry_key_leb.
Proof. unfold entry_key_leb. apply _. Qed.

(** The entry of a diagnostic. *)
Definition entry_of_diagnostic (snap : OwnershipSnapshot) (file : FileId) (d : OwnershipDiagnostic) :
    WorkspaceOwnershipProblem :=
  let events := ownership_events_for_file (osnap_events snap) file in
  let problem := ownership_problem_from_diagnostic events
    (ownership_tutorial_for_file (osnap_models snap) file) d in
  mk_entry file (osnap_url snap file) problem
    (ownership_problem_cause_id (osnap_url snap file) problem events).

(** A problem of the active file that the editor names by its identifier is the
    one that is selected, although identifiers do not name the file and another file
    may have a problem with the same one: the guide is about the cause of that very
    diagnostic. *)
Theorem selected_problem_found snap params active d :
  osnap_is_local snap active = true ->
  d ∈ ownership_diagnostics_for_file (osnap_diagnostics snap) active ->
  NoDup (odiag_range <$> ownership_diagnostics_for_file (osnap_diagnostics snap) active) ->
  (len (collected_entries snap) <= 2000)%N ->
  guide_params_selected_problem_id params =
    Some (problem_id (entry_problem (entry_of_diagnostic snap active d))) ->
  selected_cause_of snap params active = Some (entry_cause_id (entry_of_diagnostic snap active d)).
Proof.
  intros Hl Hd Hnd Hlen Hs. set (e := entry_of_diagnostic snap active d) in *.
  assert (e ∈ collected_entries snap) as Hc.
  { apply collected_entries_elem. exists active. split; [by eapply diagnosed_file|].
    split; [done|]. exact (list_elem_of_fmap_2 (entry_of_diagnostic snap active) _ _ Hd). }
  assert (kept_entries snap active = sorted_entries snap active) as Hk.
  { apply truncate_id. unfold sorted_entries, len in *. by rewrite sort_by_length. }
  unfold selected_cause_of, selected_problem_of, select_problem, select_cause. rewrite Hs. cbn [or_else mbind option_bind].
  rewrite Hk.
  destruct (find_first_sorted _ (fun entry => problem_id (entry_problem entry) =s problem_id (entry_problem e))
    (sorted_entries snap active) e (sort_on_sorted (entry_key active) entry_key_leb _))
    as (y & -> & Hid & Hy & Hle); [by apply elem_of_sort_by|apply str_eqb_refl|].
  cbn. f_equal. destruct Hle as [->|Hle]; [done|]. f_equal.
  apply str_eqb_eq in Hid. unfold sorted_entries in Hy. rewrite elem_of_sort_by in Hy.
  apply collected_entries_elem in Hy as (file & _ & _ & (d' & -> & Hd')%list_elem_of_fmap).
  assert (file = active) as ->.
  { revert Hle. unfold entry_key_leb, entry_key, lex_leb. cbn. rewrite N.eqb_refl.
    destruct (N.eqb_spec file active); [done|]. by cbn. }
  apply problem_id_inj in Hid as [Hr _]. cbn in Hr.
  by rewrite (NoDup_fmap_inj odiag_range _ d' d Hnd Hd' Hd Hr).
Qed.

(** ** Workspaces *)

Definition no_calls (file : FileId) (position : Position) : result (list CallSite) := Ok [].

Definition sample_params : OwnershipWorkspaceGuideParams :=
  mk_guide_params (mk_text_document "file:///main.rs") (mk_position 2 4) None None.

Definition served_guide (diagnostics : list OwnershipDiagnostic) (events : list AnalyzerData.OwnershipEvent) :
    result OwnershipWorkspaceGuide :=
  handle_ownership_workspace_guide (osnap_with diagnostics events) no_calls sample_params.

Lemma values_for_one {A} (values : list A) (file : FileId) :
  values_for [{[ None := {[ 1%N := values ]} ]}] file = if decide (file = 1%N) then values else [].
Proof.
  unfold values_for. cbn. rewrite app_nil_r, map_to_list_singleton. cbn. rewrite app_nil_r.
  case_decide as H; [subst; by rewrite lookup_singleton_eq|by rewrite lookup_singleton_ne].
Qed.

Lemma printable_sample diagnostics events :
  printable_facts diagnostics events tmodel_default ->
  printable_workspace (osnap_with diagnostics events) no_calls.
Proof.
  intros [HD HE HB]. split; [|intros ??? [= <-]; constructor]. intros file.
  unfold ownership_diagnostics_for_file, ownership_events_for_file, ownership_tutorial_for_file.
  cbn [osnap_with osnap_diagnostics osnap_events osnap_models].
  rewrite lookup_empty, !values_for_one. rewrite !Forall_forall in *.
  split; [| |done]; apply Forall_forall; intros x; rewrite elem_of_sort_by, elem_of_push_new;
    case_decide; intros [?%not_elem_of_nil|Hx]; try done; try (by apply not_elem_of_nil in Hx); auto.
Qed.

Lemma guide_partitions_problems_witness :
  match served_guide [sample_diagnostic] sample_events with
  | Ok guide => NoDup (cluster_id <$> guide_clusters guide) /\ guide_truncated guide = false /\
      exists cluster, cluster ∈ guide_clusters guide /\
        cluster_id cluster = entry_cause_id
          (entry_of_diagnostic (osnap_with [sample_diagnostic] sample_events) 1%N sample_diagnostic)
  | Err _ => False
  end.
Proof.
  destruct (served_guide [sample_diagnostic] sample_events) as [guide|] eqn:E; [|by vm_compute in E].
  destruct (guide_partitions_problems (osnap_with [sample_diagnostic] sample_events) no_calls sample_params
    1%N guide eq_refl E) as (H1 & _ & H3 & _).
  assert (guide_truncated guide = false) as Ht by (vm_compute in E; injection E as <-; reflexivity).
  split; [exact H1|]. split; [exact Ht|]. apply H3; [exact Ht|].
  vm_compute. left.
Defined.

Lemma guide_journey_shape_witness :
  match served_guide [sample_diagnostic] sample_events with
  | Ok guide => exists root,
      guide_selected_cluster_id guide = Some (entry_cause_id root) /\
      last (guide_journey guide) = Some (diagnostic_frame root)
  | Err _ => False
  end.
Proof.
  destruct (served_guide [sample_diagnostic] sample_events) as [guide|] eqn:E; [|by vm_compute in E].
  destruct (guide_journey_shape (osnap_with [sample_diagnostic] sample_events) no_calls sample_params
    1%N guide eq_refl E) as (root & _ & Hs & Hj).
  { vm_compute in E. injection E as <-. discriminate. }
  exists root. split; [exact Hs|]. rewrite Hj, app_comm_cons. apply last_snoc.
Defined.

Lemma guide_accepted_iff_witness :
  match served_guide [sample_diagnostic] sample_events with
  | Ok guide => validate_workspace_guide guide = Ok tt
  | Err _ => False
  end.
Proof.
  destruct (served_guide [sample_diagnostic] sample_events) as [guide|] eqn:E; [|by vm_compute in E].
  apply (guide_accepted_iff (osnap_with [sample_diagnostic] sample_events) no_calls sample_params 1%N guide).
  - apply printable_sample. check_facts.
  - reflexivity.
  - exact E.
  - vm_compute in E. injection E as <-. split; [vm_compute; congruence|]. split.
    + apply (bool_decide_eq_true (NoDup _)). vm_compute. reflexivity.
    + apply (bool_decide_eq_false (_ ∈ _)). vm_compute. reflexivity.
Defined.

Lemma selected_problem_found_witness :
  let snap := osnap_with [sample_diagnostic] sample_events in
  selected_cause_of snap
    (mk_guide_params (mk_text_document "file:///main.rs") (mk_position 0 0) (Some "E0382-s-2-4-2-5") None) 1%N =
  Some (entry_cause_id (entry_of_diagnostic snap 1%N sample_diagnostic)).
Proof.
  apply (selected_problem_found (osnap_with [sample_diagnostic] sample_events)
    (mk_guide_params (mk_text_document "file:///main.rs") (mk_position 0 0) (Some "E0382-s-2-4-2-5") None)
    1%N sample_diagnostic).
  - reflexivity.
  - vm_compute. left.
  - vm_compute. repeat constructor. set_solver.
  - vm_compute. congruence.
  - vm_compute. reflexivity.
Defined.

(** ** Guides the editor refuses *)

(** Two rejected uses of a moved value on one line, [f(x, x)], as the main loop records
    them: the identifier of the event of a rejected use has its line but not its
    column, both are frames of the journey, and the guide of the whole workspace is
    refused. *)
Definition rejected_use (start : N) : Diagnostic unit :=
  mk_lsp_diagnostic (at_ 3 start (start + 1)) (Some 1%N) None "use of moved value: `x`" None tt.

Definition rejected_uses : list OwnershipDiagnostic * list AnalyzerData.OwnershipEvent :=
  let uses := [rejected_use 6; rejected_use 9] in
  (recorded_diagnostic "E0382" "use of moved value: `x`" "file:///main.rs" <$> uses,
   invalid_use_event "x" <$> uses).

Lemma two_uses_on_a_line_refused :
  printable_facts rejected_uses.1 rejected_uses.2 tmodel_default /\
  match served_guide rejected_uses.1 rejected_uses.2 with
  | Ok guide => validate_workspace_guide guide =
      Err "workspace guide journey contains duplicate id `invalid-use-x-3`"
  | Err _ => False
  end.
Proof. split; [check_facts|]. vm_compute. reflexivity. Qed.

(** Sixty-five bindings moved and used again, one diagnostic each: the handler shows up
    to 100 causes and does not say that it left any out, the editor takes 64. *)
Definition many_diagnostics : list OwnershipDiagnostic :=
  (fun i : nat =>
     let name := "v" +:+ show (N.of_nat i) in
     mk_odiag "E0382" ("use of moved value: `" +:+ name +:+ "`") (at_ (N.of_nat i) 4 6) []) <$> seq 0 65.

Lemma workspace_of_65_causes_refused :
  match served_guide many_diagnostics [] with
  | Ok guide => guide_truncated guide = false /\
      validate_workspace_guide guide = Err "workspace guide contains too many clusters"
  | Err _ => False
  end.
Proof. vm_compute. split; reflexivity. Qed.
