(* ===== verification/AnalyzerPreview.v ===== *)
(** * rust-analyzer: the preview of a repair

    [ownership_workspace_fix_diff], [ownership_fix_diff] and [ownership_diff_hunk] of
    [rust-analyzer/src/handlers/request.rs]: the edits a code action makes to each file,
    grouped by neighbouring lines, each group shown as a hunk with the old and the new
    lines.  Only what the code reads of a code action is modelled: its title, whether it
    is preferred, and its edit. *)

From Stdlib Require Import Ascii String.
From S2P Require Import Prelude RustStr RustColl RustPath LineIndex Autofix AutofixDriver AnalyzerModel AnalyzerState AnalyzerProblems.
From S2P Require Import Protocol.
From stdpp Require Import options.

(** ** Edits of the protocol *)

Record TextEdit : Type := mk_text_edit {
  text_edit_range : Range;
  text_edit_new_text : string
}.

(** [lsp_types::Edit] *)
Inductive Edit : Type :=
| EditTextEdit (edit : TextEdit)
| EditAnnotatedTextEdit (edit : TextEdit)
| EditSnippetTextEdit (range : Range) (snippet_value : string).

(** [lsp_types::DocumentChange]; files that are created, renamed or deleted have no
    text edits. *)
Inductive DocumentChange : Type :=
| TextDocumentEdit (uri : string) (edits : list Edit)
| ResourceOperation.

(** [lsp_ext::SnippetDocumentChangeOperation] *)
Inductive SnippetDocumentChangeOperation : Type :=
| OpChange (change : DocumentChange)
| OpEdit (uri : string) (edits : list TextEdit).

Record SnippetWorkspaceEdit : Type := mk_workspace_edit {
  edit_changes : option (gmap string (list TextEdit));
  edit_document_changes : option (list SnippetDocumentChangeOperation)
}.

Record CodeAction : Type := mk_code_action {
  action_title : string;
  action_edit : option SnippetWorkspaceEdit;
  action_is_preferred : option bool
}.

Definition RepairFix : Type := Fix CodeAction.

(** ** Text *)

(** [s.get(start..end)] *)
Definition str_get (s : string) (start end_ : N) : option string :=
  if (start <=? end_)%N && is_char_boundary s start && is_char_boundary s end_
  then Some (byte_slice s start end_) else None.

Fixpoint find_char (c : ascii) (s : string) : option N :=
  match s with
  | EmptyString => None
  | String a s => if Ascii.eqb a c then Some 0%N else N.succ <$> find_char c s
  end.

Fixpoint rfind_char (c : ascii) (s : string) : option N :=
  match s with
  | EmptyString => None
  | String a s =>
      match rfind_char c s with
      | Some i => Some (N.succ i)
      | None => if Ascii.eqb a c then Some 0%N else None
      end
  end.

(** [s.char_indices().next_back()?.0] *)
Fixpoint last_char_start (s : string) : option N :=
  match s with
  | EmptyString => None
  | String a s =>
      match last_char_start s with
      | Some i => Some (N.succ i)
      | None => if is_char_start a then Some 0%N else None
      end
  end.

Definition newline : ascii := ascii_of_N 10.

(** [text.replace_range(start..end, replacement)] where [text.get(start..end)] is some *)
Definition replace_bytes (text : string) (start end_ : N) (replacement : string) : string :=
  take_bytes (N.to_nat start) text +:+ replacement +:+ default EmptyString (drop_bytes (N.to_nat end_) text).

(** ** One hunk *)

Record OwnershipPreviewEdit : Type := mk_preview_edit {
  preview_start : N;
  preview_end : N;
  preview_replacement : string;
  preview_start_line : N;
  preview_end_line : N
}.

(** One turn of the loop from the last edit to the first. *)
Definition patch_core (core_start : N) (patched : string) (edit : OwnershipPreviewEdit) : option string :=
  edit_start ← checked_sub (preview_start edit) core_start;
  edit_end ← checked_sub (preview_end edit) core_start;
  _ ← str_get patched edit_start edit_end;
  Some (replace_bytes patched edit_start edit_end (preview_replacement edit)).

Fixpoint fold_option {A B} (f : B -> A -> option B) (acc : B) (l : list A) : option B :=
  match l with
  | [] => Some acc
  | x :: l => acc ← f acc x; fold_option f acc l
  end.

(** The lines the edits touch: from the line of the first byte to the end of the line
    of the last character. *)
Definition core_range (source : string) (start end_ : N) : option (N * N) :=
  end_anchor ← (if (start <? end_)%N then text ← str_get source 0 end_; last_char_start text else Some end_);
  before ← str_get source 0 start;
  after ← str_get source end_anchor (str_len source);
  let core_start := default 0%N (N.succ <$> rfind_char newline before) in
  let core_end := default (str_len source) (N.add end_anchor <$> find_char newline after) in
  Some (core_start, core_end).

Definition context_before (source : string) (core_start : N) : option (list string) :=
  if (0 <? core_start)%N then
    let context_end := (core_start - 1)%N in
    before ← str_get source 0 context_end;
    line ← str_get source (default 0%N (N.succ <$> rfind_char newline before)) context_end;
    Some [" " +:+ line]
  else Some [].

Definition context_after (source : string) (core_end : N) : option (list string) :=
  if (core_end <? str_len source)%N then
    let context_start := (core_end + 1)%N in
    after ← str_get source context_start (str_len source);
    line ← str_get source context_start
      (default (str_len source) (N.add context_start <$> find_char newline after));
    Some [" " +:+ line]
  else Some [].

Definition ownership_diff_hunk (source : string) (edits : list OwnershipPreviewEdit) : option (list string) :=
  first ← head edits;
  start ← min_by N.leb (preview_start <$> edits);
  end_ ← min_by (fun a b => N.leb b a) (preview_end <$> edits);
  core ← core_range source start end_;
  let '(core_start, core_end) := core in
  old ← str_get source core_start core_end;
  patched ← fold_option (patch_core core_start) old (rev edits);
  if old =s patched then None
  else
    before ← context_before source core_start;
    after ← context_after source core_end;
    Some (["@@ line " +:+ show (preview_start_line first + 1) +:+ " @@"]
          ++ before
          ++ (String.append "-" <$> split_on newline old)
          ++ (String.append "+" <$> split_on newline patched)
          ++ after).

(** ** The edits of a file *)

Definition edit_of (edit : Edit) : Range * string :=
  match edit with
  | EditTextEdit edit | EditAnnotatedTextEdit edit => (text_edit_range edit, text_edit_new_text edit)
  | EditSnippetTextEdit range value => (range, value)
  end.

Definition text_edit_of (edit : TextEdit) : Range * string := (text_edit_range edit, text_edit_new_text edit).

Definition operation_edits (uri : string) (operation : SnippetDocumentChangeOperation) :
    list (Range * string) :=
  match operation with
  | OpEdit u edits => if u =s uri then text_edit_of <$> edits else []
  | OpChange (TextDocumentEdit u edits) => if u =s uri then edit_of <$> edits else []
  | OpChange ResourceOperation => []
  end.

Definition source_edits (fix_ : RepairFix) (uri : string) : option (list (Range * string)) :=
  match action_edit (fix_action fix_) with
  | None => None
  | Some edit =>
      match edit_changes edit with
      | Some changes => option_map (fun edits : list TextEdit => text_edit_of <$> edits) (changes !! uri)
      | None => option_map (mbind (M := list) (operation_edits uri)) (edit_document_changes edit)
      end
  end.

Definition preview_edit (index : LineIndex) (edit : Range * string) : option OwnershipPreviewEdit :=
  let '(edit_range, replacement) := edit in
  range ← from_proto_text_range index edit_range;
  let end_ := range_end edit_range in
  let end_line :=
    if (position_character end_ =? 0)%N && (position_line (range_start edit_range) <? position_line end_)%N
    then (position_line end_ - 1)%N else position_line end_ in
  Some (mk_preview_edit range.1 range.2 replacement (position_line (range_start edit_range)) end_line).

(** Two edits that touch the same text, or two insertions at one place. *)
Definition overlap (a b : OwnershipPreviewEdit) : bool :=
  (preview_start b <? preview_end a)%N
  || ((preview_start a =? preview_end a)%N && (preview_start b =? preview_end b)%N
      && (preview_start a =? preview_start b)%N).

Fixpoint any_window {A} (p : A -> A -> bool) (l : list A) : bool :=
  match l with
  | x :: ((y :: _) as l') => p x y || any_window p l'
  | _ => false
  end.

Definition preview_key (edit : OwnershipPreviewEdit) : N * N := (preview_start edit, preview_end edit).

Definition max_end_line (group : list OwnershipPreviewEdit) : N :=
  default 0%N (min_by (fun a b => N.leb b a) (preview_end_line <$> group)).

Definition add_to_groups (groups : list (list OwnershipPreviewEdit)) (edit : OwnershipPreviewEdit) :
    list (list OwnershipPreviewEdit) :=
  match last groups with
  | Some group =>
      if (preview_start_line edit <=? max_end_line group + 1)%N
      then take (length groups - 1) groups ++ [group ++ [edit]]
      else groups ++ [[edit]]
  | None => groups ++ [[edit]]
  end.

Definition MAX_DIFF_LINES : N := 24.

Definition bounded_lines (lines : list string) : list string :=
  if (MAX_DIFF_LINES <? len lines)%N
  then truncate (MAX_DIFF_LINES - 1) lines
       ++ [" ... preview truncated; use Ctrl+. to apply the complete rewrite ..."]
  else lines.

(** The edits of a file in order, or none of them when one cannot be placed or two
    overlap. *)
Definition ordered_edits (index : LineIndex) (edits : list (Range * string)) :
    option (list OwnershipPreviewEdit) :=
  edits ← mapM (preview_edit index) edits;
  let edits := sort_by (on preview_key (lex_leb N.compare N.leb)) edits in
  if any_window overlap edits then None else Some edits.

Definition diff_lines (source : string) (edits : list OwnershipPreviewEdit) : list string :=
  bounded_lines (concat (omap (ownership_diff_hunk source) (foldl add_to_groups [] edits))).

Definition newline_str : string := String newline EmptyString.

Definition ownership_fix_diff (source : string) (index : LineIndex) (uri : string) (fix_ : RepairFix) :
    option string :=
  edits ← source_edits fix_ uri;
  edits ← ordered_edits index edits;
  let lines := diff_lines source edits in
  if is_nil lines then None else Some (join newline_str lines).

(** ** Several files *)

Definition operation_uri (operation : SnippetDocumentChangeOperation) : option string :=
  match operation with
  | OpEdit uri _ | OpChange (TextDocumentEdit uri _) => Some uri
  | OpChange ResourceOperation => None
  end.

Definition ownership_fix_uris (fix_ : RepairFix) : list string :=
  match action_edit (fix_action fix_) with
  | None => []
  | Some edit =>
      dedup_by String.eqb
        (sort_by String.leb
           (default [] ((fun changes : gmap string (list TextEdit) => (map_to_list changes).*1) <$> edit_changes edit)
            ++ omap operation_uri (default [] (edit_document_changes edit))))
  end.

Record OwnershipFixPreview : Type := mk_fix_preview {
  fix_preview_diff : string;
  fix_preview_affected_files : list string;
  fix_preview_complete : bool
}.

Section workspace.
(** [ownership_fix_file_label]: the last component of the path a URI names *)
Context (file_label : string -> string).
Context (snap : OwnershipSnapshot) (current_source current_uri : string).

Definition uri_diff (fix_ : RepairFix) (uri : string) : option string :=
  if uri =s current_uri then ownership_fix_diff current_source (line_index_new current_source) uri fix_
  else
    match osnap_file_id snap uri with
    | Ok (Some file_id) =>
        match osnap_file_text snap file_id with
        | Ok source => ownership_fix_diff source (line_index_new source) uri fix_
        | Err _ => None
        end
    | _ => None
    end.

Definition diff_section (several : bool) (uri diff : string) : string :=
  if several
  then "--- " +:+ file_label uri +:+ newline_str +:+ "+++ " +:+ file_label uri +:+ newline_str +:+ diff
  else diff.

Definition ownership_workspace_fix_diff (fix_ : RepairFix) : option OwnershipFixPreview :=
  let uris := ownership_fix_uris fix_ in
  if is_nil uris then None
  else
    let sections :=
      omap (fun uri => diff_section (1 <? len uris)%N uri <$> uri_diff fix_ uri) uris in
    if is_nil sections then None
    else Some (mk_fix_preview (join (newline_str +:+ newline_str) sections) (file_label <$> uris)
                 (forallb (fun uri => bool_decide (is_Some (uri_diff fix_ uri))) uris)).
End workspace.
