(* ===== verification/AnalyzerPreviewSpec.v ===== *)
(** * rust-analyzer: a preview shows what the repair does

    A hunk of a preview is a patch: the lines it removes are in the file, and putting
    the lines it adds in their place gives the file with the edits made.  The edits of a
    group that reaches beyond its last newline are not shown at all, while the preview
    still says that it is complete. *)

From Stdlib Require Import Ascii String.
From S2P Require Import Prelude RustStr RustColl RustPath CompilerData MemoryGraph RepairPlan LineIndex Autofix AutofixDriver AutofixSpec AnalyzerModel LineIndexSpec AnalyzerState AnalyzerProblems AnalyzerProblemsSpec AnalyzerPreview.
From S2P Require Import Protocol.
From stdpp Require Import options.

(** ** Bytes *)

Lemma get_length s i c : String.get i s = Some c -> i < String.length s.
Proof.
  revert i. induction s as [|a s IH]; intros [|i] H; cbn in *; try done; try lia. apply IH in H. lia.
Qed.

Lemma get_skip n s i : String.get i (skip_bytes n s) = String.get (n + i) s.
Proof. revert s. induction n as [|n IH]; intros [|a s]; try done; apply IH. Qed.

Lemma get_take n s i : i < n -> String.get i (take_bytes n s) = String.get i s.
Proof.
  revert s i. induction n as [|n IH]; intros [|a s] [|i]; cbn; try done; try lia. intros. apply IH. lia.
Qed.

Lemma starts_char_get s : starts_char s = match String.get 0 s with Some c => is_char_start c | None => true end.
Proof. by destruct s. Qed.

Lemma boundary_get s n :
  is_char_boundary s n = true <->
  (n <= str_len s)%N /\ match String.get (N.to_nat n) s with Some c => is_char_start c = true | None => True end.
Proof.
  rewrite is_char_boundary_spec, starts_char_get, get_skip, Nat.add_0_r.
  destruct (String.get (N.to_nat n) s); naive_solver.
Qed.

Lemma newline_starts_char : is_char_start newline = true.
Proof. done. Qed.

(** In UTF-8 a character of one byte is followed by the start of another. *)
Lemma next_boundary skip s i c :
  valid_from skip s = true -> String.get i s = Some c -> is_char_start c = true -> char_len c = 1%N ->
  match String.get (S i) s with Some b => is_char_start b = true | None => True end.
Proof.
  revert skip i. induction s as [|a s IH]; intros skip i; [by destruct i|].
  destruct i as [|i]; cbn [String.get].
  - intros Hv [= ->] Hc H1. destruct skip; cbn in Hv; [|by rewrite Hc in Hv].
    apply andb_true_iff in Hv as [_ Hv]. rewrite H1 in Hv. cbn in Hv.
    destruct s as [|b s]; [done|]. cbn in *. by apply andb_true_iff in Hv as [? _].
  - intros Hv. destruct skip; cbn in Hv; apply andb_true_iff in Hv as [_ Hv]; by apply (IH _ i Hv).
Qed.

Lemma boundary_after_newline s i :
  valid_utf8 s = true -> String.get (N.to_nat i) s = Some newline -> is_char_boundary s (i + 1) = true.
Proof.
  intros Hv Hg. apply boundary_get. pose proof (get_length _ _ _ Hg). split; [unfold str_len; lia|].
  replace (N.to_nat (i + 1)) with (S (N.to_nat i)) by lia.
  exact (next_boundary 0 s (N.to_nat i) newline Hv Hg eq_refl eq_refl).
Qed.

Lemma boundary_newline s i : String.get (N.to_nat i) s = Some newline -> is_char_boundary s i = true.
Proof.
  intros Hg. apply boundary_get. rewrite Hg. split; [|done]. apply get_length in Hg. unfold str_len. lia.
Qed.


Lemma rfind_char_spec c s :
  match rfind_char c s with
  | Some i => String.get (N.to_nat i) s = Some c /\ forall j, N.to_nat i < j -> String.get j s <> Some c
  | None => forall j, String.get j s <> Some c
  end.
Proof.
  induction s as [|a s IH]; cbn; [by intros []|].
  destruct (rfind_char c s) as [k|].
  - rewrite N2Nat.inj_succ. destruct IH as [Hg Hb]. split; [done|]. intros [|j] Hj; cbn; [lia|]. apply Hb. lia.
  - destruct (Ascii.eqb_spec a c) as [->|Hne].
    + split; [done|]. intros [|j] Hj; cbn in *; [lia|apply IH].
    + intros [|j]; cbn; [congruence|apply IH].
Qed.

Lemma last_char_start_spec s :
  match last_char_start s with
  | Some i => (exists c, String.get (N.to_nat i) s = Some c /\ is_char_start c = true) /\
      forall j c, N.to_nat i < j -> String.get j s = Some c -> is_char_start c = false
  | None => forall j c, String.get j s = Some c -> is_char_start c = false
  end.
Proof.
  induction s as [|a s IH]; cbn; [by intros []|].
  destruct (last_char_start s) as [i|].
  - destruct IH as [(c & Hc & Hs) Hb]. rewrite N2Nat.inj_succ. split; [by exists c|].
    intros [|j] b Hj; cbn; [lia|]. apply Hb. lia.
  - destruct (is_char_start a) eqn:Ea.
    + split; [by exists a|]. intros [|j] c Hj; cbn; [cbn in Hj; lia|]. apply IH.
    + intros [|j] c; cbn; [by intros [= <-]|apply IH].
Qed.

(** ** Slices *)

Lemma byte_slice_slice s a b : (a <= str_len s)%N -> byte_slice s a b = slice s a b.
Proof. intros H. unfold byte_slice, slice. by rewrite drop_skip by (unfold str_len in *; lia). Qed.

Lemma str_get_ok s a b :
  (a <= b)%N -> is_char_boundary s a = true -> is_char_boundary s b = true ->
  str_get s a b = Some (slice s a b).
Proof.
  intros Hab Ha Hb. unfold str_get. rewrite (proj2 (N.leb_le _ _) Hab), Ha, Hb. cbn.
  rewrite byte_slice_slice; [done|]. by apply is_char_boundary_spec in Ha as [? _].
Qed.

Lemma slice_from_start s b : slice s 0 b = take_bytes (N.to_nat b) s.
Proof. unfold slice. by rewrite N.sub_0_r. Qed.

Lemma slice_to_end s a : (a <= str_len s)%N -> slice s a (str_len s) = skip_bytes (N.to_nat a) s.
Proof.
  intros Ha. unfold slice, str_len in *.
  assert (String.length (skip_bytes (N.to_nat a) s) = N.to_nat (N.of_nat (String.length s) - a)) as <-.
  { pose proof (take_skip (N.to_nat a) s ltac:(lia)) as H. apply (f_equal String.length) in H.
    rewrite length_append, length_take_bytes in H by lia. lia. }
  apply take_bytes_all.
Qed.

Lemma boundary_0 s : valid_utf8 s = true -> is_char_boundary s 0 = true.
Proof.
  intros Hv. apply boundary_get. split; [lia|]. destruct s as [|c s]; [done|]. cbn in *.
  by apply andb_true_iff in Hv as [? _].
Qed.

Lemma boundary_end s : is_char_boundary s (str_len s) = true.
Proof.
  apply boundary_get. split; [done|]. destruct (String.get _ s) eqn:E; [|done].
  apply get_length in E. unfold str_len in E. lia.
Qed.

(** ** The lines around the edits *)



Section text.
Context (source : string) (valid : valid_utf8 source = true).

Lemma line_start_ok n :
  is_char_boundary source n = true ->
  exists before, str_get source 0 n = Some before /\
    let at_ := default 0%N (N.succ <$> rfind_char newline before) in
    (at_ <= n)%N /\ is_char_boundary source at_ = true /\
    (at_ = 0%N \/ String.get (N.to_nat (at_ - 1)) source = Some newline) /\
    (forall j, (at_ <= j < n)%N -> String.get (N.to_nat j) source <> Some newline).
Proof using valid.
  intros Hn. exists (slice source 0 n). split; [apply str_get_ok; [lia|by apply boundary_0|done]|].
  rewrite slice_from_start. apply is_char_boundary_spec in Hn as [Hle _].
  pose proof (rfind_char_spec newline (take_bytes (N.to_nat n) source)) as Hr.
  destruct (rfind_char newline _) as [i|]; cbn.
  - destruct Hr as [E Hno]. pose proof (get_length _ _ _ E) as Hlt.
    rewrite length_take_bytes in Hlt by (unfold str_len in Hle; lia).
    rewrite get_take in E by lia. split; [lia|]. rewrite <-N.add_1_r.
    split; [by apply boundary_after_newline|]. split; [right; by replace (i + 1 - 1)%N with i by lia|].
    intros j Hj. rewrite <- (get_take (N.to_nat n)) by lia. apply Hno. lia.
  - split; [lia|]. split; [by apply boundary_0|]. split; [by left|].
    intros j Hj. rewrite <- (get_take (N.to_nat n)) by lia. apply Hr.
Qed.



End text.

(** ** Patching the lines *)

(** An edit as a replacement of bytes, relative to [offset]. *)
Definition as_edit (offset : N) (edit : OwnershipPreviewEdit) : SerializedBorrowckRepairEdit :=
  mk_sedit "" (preview_start edit - offset) (preview_end edit - offset) (preview_replacement edit).


(** Edits in order, on boundaries of the text, none reaching into another. *)
Record placed (source : string) (edits : list OwnershipPreviewEdit) : Prop := {
  placed_separated : separated 0 (as_edit 0 <$> edits);
  placed_boundaries : Forall (fun e => (preview_start e <= preview_end e)%N /\
    is_char_boundary source (preview_start e) = true /\ is_char_boundary source (preview_end e) = true) edits;
  placed_text : Forall (fun e => starts_char (preview_replacement e) = true) edits
}.







Lemma slice_length s a b : (a <= b)%N -> (b <= str_len s)%N -> str_len (slice s a b) = (b - a)%N.
Proof.
  intros Hab Hb. unfold slice, str_len in *. rewrite length_take_bytes; [lia|].
  pose proof (take_skip (N.to_nat a) s ltac:(lia)) as H. apply (f_equal String.length) in H.
  rewrite length_append, length_take_bytes in H by lia. lia.
Qed.




Section splice.
Context (source : string) (core_start core_end : N) (core_ok : (core_start <= core_end)%N /\ (core_end <= str_len source)%N).



End splice.

(** ** The hunk *)

Lemma separated_from edits from :
  separated from (as_edit 0 <$> edits) -> Forall (fun e => (preview_start e <= preview_end e)%N) edits ->
  Forall (fun e => (from <= preview_start e)%N) edits /\
  (forall last_edit, last edits = Some last_edit -> Forall (fun e => (preview_end e <= preview_end last_edit)%N) edits).
Proof.
  intros Hsep He. revert from Hsep. induction He as [|e edits He Hes IH]; intros from; [done|].
  cbn. rewrite !N.sub_0_r. intros [Hs Hsep]. destruct (IH _ Hsep) as [Hb Hl]. split.
  - constructor; [done|]. eapply Forall_impl; [exact Hb|]. cbn. lia.
  - intros last_edit Hlast. destruct edits as [|e' edits]; cbn in Hlast; [injection Hlast as ->; repeat constructor; lia|].
    specialize (Hl last_edit Hlast). constructor; [|done].
    apply Forall_cons in Hb as [Hb _], Hl as [Hl _], Hes as [Hes _]. lia.
Qed.

Lemma least l x : x ∈ l -> Forall (fun y => (x <= y)%N) l -> min_by N.leb l = Some x.
Proof.
  intros Hx Hle. destruct (min_by N.leb l) as [m|] eqn:E.
  - apply (min_by_spec id N.leb) in E as [Hm Hmin]. rewrite Forall_forall in Hle.
    specialize (Hle m Hm). specialize (Hmin x Hx). apply N.leb_le in Hmin. unfold id in Hmin. f_equal. lia.
  - apply min_by_None in E as ->. by apply not_elem_of_nil in Hx.
Qed.

Lemma greatest l x : x ∈ l -> Forall (fun y => (y <= x)%N) l -> min_by (fun a b => N.leb b a) l = Some x.
Proof.
  intros Hx Hle. assert (forall a b l, min_by (fun a b => N.leb b a) (a :: b :: l) =
    min_by (fun a b => N.leb b a) ((if N.leb b a then a else b) :: l)) as Hstep by done.
  destruct l as [|y l]; [by apply not_elem_of_nil in Hx|].
  revert y Hx Hle. induction l as [|z l IH]; intros y Hx Hle.
  - apply list_elem_of_singleton in Hx as ->. done.
  - rewrite Hstep. apply Forall_cons in Hle as [Hy [Hz Hl]%Forall_cons].
    apply IH; [|destruct (N.leb_spec z y); by constructor].
    rewrite !elem_of_cons in Hx. rewrite elem_of_cons.
    destruct Hx as [->|[->|Hx]]; [left|left|by right]; destruct (N.leb_spec z y); lia.
Qed.









(** ** What a preview leaves out *)

Lemma last_char_newline source end_ :
  (0 < end_)%N -> (end_ <= str_len source)%N -> String.get (N.to_nat (end_ - 1)) source = Some newline ->
  last_char_start (take_bytes (N.to_nat end_) source) = Some (end_ - 1)%N.
Proof.
  intros Hpos Hle Hg. pose proof (last_char_start_spec (take_bytes (N.to_nat end_) source)) as Hl.
  assert (String.get (N.to_nat (end_ - 1)) (take_bytes (N.to_nat end_) source) = Some newline) as Hg'
    by (by rewrite get_take by lia).
  destruct (last_char_start _) as [i|].
  - destruct Hl as [(c & Hc & _) Hlater]. apply get_length in Hc. rewrite length_take_bytes in Hc
      by (unfold str_len in Hle; lia).
    destruct (decide (i < end_ - 1)%N) as [Hlt|]; [|f_equal; lia].
    specialize (Hlater (N.to_nat (end_ - 1)) newline ltac:(lia) Hg'). done.
  - specialize (Hl _ _ Hg'). done.
Qed.

(** Edits that end just after a newline, as the deletion of a whole line does, have
    no hunk: the lines to patch stop before that newline, so the last edit does not fit
    in them. *)
Theorem line_deletion_not_shown source edits first last_edit :
  valid_utf8 source = true -> placed source edits ->
  head edits = Some first -> last edits = Some last_edit ->
  (preview_start first < preview_end last_edit)%N ->
  String.get (N.to_nat (preview_end last_edit - 1)) source = Some newline ->
  ownership_diff_hunk source edits = None.
Proof.
  intros Hv [Hsep Hb Ht] Hfirst Hlast Hlt Hn.
  assert (Forall (fun e => (preview_start e <= preview_end e)%N) edits) as Hle
    by (eapply Forall_impl; [exact Hb|]; by intros ? (? & _)).
  destruct (separated_from _ _ Hsep Hle) as [_ Hends]. specialize (Hends _ Hlast).
  assert (first ∈ edits) as Hfe by (destruct edits; [done|]; injection Hfirst as ->; left).
  assert (last_edit ∈ edits) as Hlin by (by apply last_Some_elem_of).
  rewrite Forall_forall in Hb. destruct (Hb _ Hfe) as (_ & Hfs & _). destruct (Hb _ Hlin) as (Hl1 & _ & Hls).
  pose proof Hls as [Hlen _]%is_char_boundary_spec.
  unfold ownership_diff_hunk. rewrite Hfirst. cbn [mbind option_bind].
  assert (Forall (fun e => (preview_start first <= preview_start e)%N) edits) as Hstarts.
  { destruct edits as [|e edits]; [done|]. injection Hfirst as ->.
    assert (separated (preview_start first) (as_edit 0 <$> first :: edits)) as Hs2
      by (destruct Hsep as [_ ?]; split; [cbn; lia|done]).
    by destruct (separated_from _ _ Hs2 Hle). }
  rewrite (least _ (preview_start first)); [|by apply list_elem_of_fmap_2|by apply Forall_fmap].
  cbn [mbind option_bind].
  rewrite (greatest _ (preview_end last_edit)); [|by apply list_elem_of_fmap_2|by apply Forall_fmap].
  cbn [mbind option_bind]. unfold core_range. rewrite (proj2 (N.ltb_lt _ _) Hlt).
  rewrite (str_get_ok source 0 (preview_end last_edit)) by (done || lia || by apply boundary_0).
  cbn [mbind option_bind]. rewrite slice_from_start, last_char_newline by (done || lia). cbn [mbind option_bind].
  destruct (line_start_ok source Hv _ Hfs) as (before & -> & Hc1 & Hc2 & _). cbn [mbind option_bind].
  set (cs := default 0%N (N.succ <$> rfind_char newline before)) in *.
  rewrite str_get_ok by (lia || apply boundary_end || by apply boundary_newline). cbn [mbind option_bind].
  rewrite slice_to_end by lia.
  assert (find_char newline (skip_bytes (N.to_nat (preview_end last_edit - 1)) source) = Some 0%N) as ->.
  { assert (String.get 0 (skip_bytes (N.to_nat (preview_end last_edit - 1)) source) = Some newline) as Hg
      by (by rewrite get_skip, Nat.add_0_r).
    destruct (skip_bytes _ source) as [|a s]; [done|]. cbn in Hg. injection Hg as ->. done. }
  cbn [fmap option_fmap option_map default from_option id]. rewrite N.add_0_r.
  rewrite str_get_ok by (lia || done || by apply boundary_newline). cbn [mbind option_bind].
  assert (fold_option (patch_core cs) (slice source cs (preview_end last_edit - 1)) (rev edits) = None) as ->; [|done].
  destruct edits as [|e edits] using rev_ind; [done|]. rewrite last_snoc in Hlast. injection Hlast as ->.
  rewrite Forall_forall in Hstarts. specialize (Hstarts _ Hlin).
  assert (patch_core cs (slice source cs (preview_end last_edit - 1)) last_edit = None) as Hnone.
  { unfold patch_core, checked_sub. rewrite !(proj2 (N.leb_le _ _)) by lia. cbn [mbind option_bind].
    unfold str_get.
    assert (is_char_boundary (slice source cs (preview_end last_edit - 1)) (preview_end last_edit - cs) = false) as ->.
    { apply not_true_iff_false. rewrite is_char_boundary_spec, slice_length by lia. lia. }
    by rewrite andb_false_r. }
  rewrite rev_app_distr. cbn [rev app fold_option]. by rewrite Hnone.
Qed.



(** A preview of a file never has more than 24 lines. *)
Lemma preview_bounded source edits : (len (diff_lines source edits) <= 24)%N.
Proof.
  unfold diff_lines, bounded_lines. destruct (N.ltb_spec MAX_DIFF_LINES (len (concat (omap (ownership_diff_hunk source)
    (foldl add_to_groups [] edits))))) as [|Hle]; [|done].
  rewrite len_app_one. pose proof (truncate_length (MAX_DIFF_LINES - 1) (concat (omap (ownership_diff_hunk source)
    (foldl add_to_groups [] edits)))) as H'. unfold MAX_DIFF_LINES in *. lia.
Qed.

(** ** The groups of a file *)

Lemma groups_cover edits groups :
  Forall (fun group => group <> []) groups ->
  concat (foldl add_to_groups groups edits) = concat groups ++ edits /\
  Forall (fun group => group <> []) (foldl add_to_groups groups edits).
Proof.
  revert groups. induction edits as [|e edits IH]; intros groups Hne; cbn [foldl]; [by rewrite app_nil_r|].
  assert (concat (add_to_groups groups e) = concat groups ++ [e] /\
    Forall (fun group => group <> []) (add_to_groups groups e)) as [Hc Hn].
  { unfold add_to_groups. destruct groups as [|g groups] using rev_ind.
    - cbn. split; [done|]. by repeat constructor.
    - rewrite last_snoc. pose proof Hne as [Hne' _]%Forall_app. destruct (_ <=? _)%N.
      + rewrite length_app. cbn [length]. replace (length groups + 1 - 1) with (length groups) by lia.
        rewrite take_app_length, !concat_app. cbn. rewrite !app_nil_r, app_assoc. split; [done|].
        apply Forall_app. split; [done|]. repeat constructor. by destruct g.
      + rewrite !concat_app. cbn. rewrite !app_nil_r. split; [done|].
        apply Forall_app. split; [done|by repeat constructor]. }
  destruct (IH _ Hn) as [-> ?]. rewrite Hc, <-app_assoc. done.
Qed.

Lemma preview_key_start a b :
  lex_leb N.compare N.leb (preview_key a) (preview_key b) = true -> (preview_start a <= preview_start b)%N.
Proof. unfold lex_leb, preview_key. cbn. destruct (N.compare_spec (preview_start a) (preview_start b)); [lia|lia|done]. Qed.

Lemma windows_separated edits from :
  StronglySorted (fun a b => lex_leb N.compare N.leb (preview_key a) (preview_key b) = true) edits ->
  any_window overlap edits = false -> (forall e, head edits = Some e -> (from <= preview_start e)%N) ->
  separated from (as_edit 0 <$> edits).
Proof.
  intros Hs. revert from. induction Hs as [|e edits Hs IH He]; intros from Hw Hf; [done|].
  cbn. rewrite !N.sub_0_r. split; [by apply Hf|]. destruct edits as [|e' edits]; [done|].
  cbn -[any_window] in Hw. change (overlap e e' || any_window overlap (e' :: edits) = false) in Hw.
  apply orb_false_iff in Hw as [Ho Hw]. apply IH; [done|]. intros ? [= <-].
  unfold overlap in Ho. apply orb_false_iff in Ho as [Ho _]. by apply N.ltb_ge in Ho.
Qed.

(** The edits a preview is made of come in order, do not reach into one another, and
    each of them is in one group. *)
Lemma ordered_edits_spec index edits ordered :
  ordered_edits index edits = Some ordered ->
  separated 0 (as_edit 0 <$> ordered) /\ length ordered = length edits /\
  concat (foldl add_to_groups [] ordered) = ordered /\
  Forall (fun group => group <> []) (foldl add_to_groups [] ordered).
Proof.
  unfold ordered_edits. intros (l & Hl & H)%bind_Some.
  destruct (any_window _ _) eqn:Hw; [done|]. injection H as <-.
  pose proof (groups_cover (sort_by (on preview_key (lex_leb N.compare N.leb)) l) []) as Hg.
  destruct Hg as [Hc Hn]; [constructor|]. split_and!; [|  |done|done].
  - apply windows_separated; [apply (sort_on_sorted preview_key (lex_leb N.compare N.leb))|done|lia].
  - rewrite sort_by_length. symmetry. by apply length_mapM in Hl.
Qed.

(** ** Files *)

Definition listing : string := "fn main() {
    let a = s;
    drop(a);

    let t = 1;
    drop(s);
}
".

Definition edit_at (line start end_line end_ : N) (text : string) : Range * string :=
  (mk_range (mk_position line start) (mk_position end_line end_), text).

Definition fix_of (edits : list (Range * string)) : RepairFix :=
  mk_fix [] (mk_code_action "rewrite" (Some (mk_workspace_edit None
    (Some [OpEdit "file:///main.rs" ((fun e => mk_text_edit e.1 e.2) <$> edits)]))) (Some true)) None.

Definition listing_edits (edits : list (Range * string)) : list OwnershipPreviewEdit :=
  default [] (ordered_edits (line_index_new listing) edits).


Ltac check_placed :=
  split; vm_compute; repeat first [apply Forall_nil_2 | apply Forall_cons_2 | split];
  first [exact I | reflexivity | discriminate].


(** The line [drop(a);] is deleted and [s] is cloned: two groups of edits, one hunk. *)
Definition delete_edits : list (Range * string) := [edit_at 2 0 3 0 ""; edit_at 5 9 5 10 "s.clone()"].

Lemma line_deletion_not_shown_witness :
  ownership_diff_hunk listing (listing_edits [edit_at 2 0 3 0 ""]) = None.
Proof.
  apply (line_deletion_not_shown listing (listing_edits [edit_at 2 0 3 0 ""])
    (mk_preview_edit 27 40 "" 2 2) (mk_preview_edit 27 40 "" 2 2)).
  - vm_compute. reflexivity.
  - check_placed.
  - vm_compute. reflexivity.
  - vm_compute. reflexivity.
  - vm_compute. reflexivity.
  - vm_compute. reflexivity.
Defined.

(** The preview that leaves the deletion out calls itself complete. *)
Lemma incomplete_preview_called_complete :
  len (foldl add_to_groups [] (listing_edits delete_edits)) = 2%N /\
  match ownership_workspace_fix_diff id (osnap_with [] []) listing "file:///main.rs" (fix_of delete_edits) with
  | Some preview => fix_preview_complete preview = true /\ contains "drop(a)" (fix_preview_diff preview) = false
  | None => False
  end.
Proof. vm_compute. repeat split. Qed.
