(* ===== verification/AnalyzerRepairs.v ===== *)
(** * rust-analyzer: the repairs of an answer, and what the editor gets for one

    The repairs [handle_ownership_model] offers ([rust-analyzer/src/handlers/request.rs]):
    the compiler's own suggestions for the selected diagnostic, the wrapper rewrites the
    driver compiled, and the rewrites the analyzer proposes without compiling them, each
    with a preview.  [handle_ownership_repair] turns the identifier of a repair back into
    a code action, [handle_ownership_validate_repair] starts a check of the package.

    The proposals come from the analyzer's assists at the binding, which are a parameter
    ([assists]); so is what starts a check ([run_flycheck]) and the label of a file
    ([file_label]). *)

From Stdlib Require Import Ascii String.
From S2P Require Import Prelude RustStr RustColl RustPath MemoryGraph LineIndex AnalyzerData AnalyzerModel AnalyzerState AnalyzerProblems AnalyzerPreview.
From S2P Require Import Protocol.
From stdpp Require Import options.

#[global] Instance OwnershipWrapperFix_eq_dec : EqDecision OwnershipWrapperFix.
Proof. solve_decision. Defined.

(** ** Descriptions *)

Definition ownership_wrapper_code (strategy : OwnershipWrapperFix) : string :=
  match strategy with
  | WArc => "arc"
  | WArcMutex => "arc_mutex"
  | WArcRwLock => "arc_rw_lock"
  | WMutex => "mutex"
  | WRc => "rc"
  | WRefCell => "ref_cell"
  | WRcRefCell => "rc_ref_cell"
  | WRwLock => "rw_lock"
  | WAll => "all"
  end.

Definition ownership_repair_id (strategy : OwnershipWrapperFix) (index : N) : string :=
  ownership_wrapper_code strategy +:+ "-" +:+ show index.

Definition ownership_language_repair_id (index : N) : string := "language-fix-" +:+ show index.

Definition runtime_semantics (strategy : OwnershipWrapperFix) : string :=
  match strategy with
  | WRc => "single-threaded shared ownership; cloning increments a reference count"
  | WArc => "thread-safe shared ownership; cloning increments an atomic reference count"
  | WRefCell => "single-threaded interior mutability; conflicting borrows panic at runtime"
  | WMutex => "exclusive synchronized mutation; access locks and can report poisoning"
  | WRwLock => "synchronized mutation with multiple readers or one writer; access can report poisoning"
  | WRcRefCell => "single-threaded shared mutation; cloning shares runtime-checked interior state"
  | WArcMutex => "thread-safe shared mutation; every access takes an exclusive lock"
  | WArcRwLock => "thread-safe shared mutation; reads share a lock while writes are exclusive"
  | WAll => "compiler-validated ownership-wrapper rewrite"
  end.

Definition ownership_repair_effects (strategy : OwnershipWrapperFix) : OwnershipRepairEffects :=
  match strategy with
  | WRc =>
      mk_repair_effects "shared by non-atomic reference counting"
        "immutable unless the inner type provides mutation" "single-thread only" "cycles can leak"
        "clone/drop updates counters"
  | WArc =>
      mk_repair_effects "shared by atomic reference counting"
        "immutable unless the inner type provides synchronization"
        "may cross threads when the inner type permits" "cycles can leak" "atomic counter operations"
  | WRefCell | WRcRefCell =>
      mk_repair_effects "single owner or Rc-shared owner" "checked dynamically with borrow/borrow_mut"
        "single-thread only" "conflicting borrows panic" "runtime borrow-flag checks"
  | WMutex | WArcMutex =>
      mk_repair_effects "single owner or Arc-shared owner" "exclusive mutation through a lock guard"
        "thread-safe when the inner type permits" "locking can block and poisoning must be handled"
        "lock acquisition on access"
  | WRwLock | WArcRwLock =>
      mk_repair_effects "single owner or Arc-shared owner"
        "multiple readers or one writer through lock guards" "thread-safe when the inner type permits"
        "locking can block and poisoning must be handled" "reader/writer lock acquisition"
  | WAll =>
      mk_repair_effects "multiple compiler-validated rewrites" "depends on selected rewrite"
        "depends on selected rewrite" "review every candidate's runtime semantics"
        "depends on selected rewrite"
  end.

Definition ownership_language_repair_effects (title : string) : OwnershipRepairEffects :=
  let title := to_ascii_lowercase title in
  if contains "mutable reference" title || contains "mut" title then
    mk_repair_effects "keeps ordinary unique ownership"
      "grants compile-time checked exclusive mutable access"
      "unchanged; callers must satisfy the existing Send/Sync constraints"
      "none added; borrow conflicts remain compile-time errors"
      "zero-cost access change; callers may need mutable bindings"
  else
    mk_repair_effects "follows the compiler-proposed source change" "depends on the compiler suggestion"
      "must be rechecked at affected callers" "no wrapper runtime behavior is assumed"
      "validated by a fresh Cargo check before the result is claimed".

(** ** The memory a wrapper makes *)

(** The handle's type, whether the value is shared, and what guards access to it. *)
Definition wrapper_shape (strategy : OwnershipWrapperFix) : option (string * bool * option string) :=
  match strategy with
  | WRc => Some ("Rc<T>", true, None)
  | WArc => Some ("Arc<T>", true, None)
  | WRefCell => Some ("RefCell<T>", false, Some "runtime borrow flag")
  | WMutex => Some ("Mutex<T>", false, Some "exclusive lock gate")
  | WRwLock => Some ("RwLock<T>", false, Some "reader/writer lock gate")
  | WRcRefCell => Some ("Rc<RefCell<T>>", true, Some "runtime borrow flag")
  | WArcMutex => Some ("Arc<Mutex<T>>", true, Some "exclusive lock gate")
  | WArcRwLock => Some ("Arc<RwLock<T>>", true, Some "reader/writer lock gate")
  | WAll => None
  end.

Section graph.
Variables (place : string) (range : Range) (provenance : string).

Definition preview_node (id label type_name kind storage : string) : OwnershipMemoryNode :=
  mk_mnode ("preview-" +:+ id) 0 place kind storage label type_name None None (Some range)
    "available_after_rewrite" provenance
    "Counterfactual source-level topology; runtime addresses, counts, and lock/borrow state remain unknown."
    false.

Definition preview_edge (id source target relation : string) : OwnershipMemoryEdge :=
  mk_medge ("preview-" +:+ id) ("preview-" +:+ source) ("preview-" +:+ target) relation None None
    (Some range) provenance (Some "counterfactual_rewrite").

Definition shape_graph (handle_type : string) (shared : bool) (gate : option string) : OwnershipMemoryGraph :=
  let shared_nodes :=
    if shared then
      [preview_node "allocation" "shared control block and allocation" "shared allocation; count is symbolic"
         "control_block" "heap"]
    else [] in
  let shared_edges := if shared then [preview_edge "shares" "handle" "allocation" "shares_allocation"] else [] in
  let parent := if shared then "allocation" else "handle" in
  let gate_nodes :=
    match gate with
    | Some gate =>
        [preview_node "gate" gate "runtime access state is not sampled"
           (if contains "lock" gate then "lock_state" else "borrow_flag") "inline"]
    | None => []
    end in
  let gate_edges := match gate with Some _ => [preview_edge "gate" parent "gate" "guards_access"] | None => [] end in
  let value_parent := match gate with Some _ => "gate" | None => parent end in
  mk_graph
    ([preview_node "handle" ("rewritten `" +:+ place +:+ "`") handle_type "binding" "stack"]
     ++ shared_nodes ++ gate_nodes
     ++ [preview_node "value" "inner value" "T" "inline_value" (if shared then "heap" else "inline")])
    (shared_edges ++ gate_edges ++ [preview_edge "value" value_parent "value" "contains"])
    [] [] false.
End graph.

Definition ownership_repair_preview_graph (strategy : OwnershipWrapperFix) (place : string) (range : Range)
    (compiler_validated : bool) : option OwnershipMemoryGraph :=
  match wrapper_shape strategy with
  | Some (handle_type, shared, gate) =>
      Some (shape_graph place range
        (if compiler_validated then "derived_from_compiler_validated_rewrite" else "conceptual_candidate")
        handle_type shared gate)
  | None => None
  end.

(** ** Which fixes apply *)

Definition ownership_fixes_at (check_fixes : Table (list RepairFix)) (file_id : FileId) (request_range : Range)
    (selected : option AnalyzerData.OwnershipEvent) : list RepairFix :=
  sort_by (on (fun f : RepairFix => preview_order <$> fix_ownership_wrapper f) (option_leb N.leb))
    (retain (fun f : RepairFix =>
       match fix_ownership_wrapper f with
       | Some strategy => negb (bool_decide (strategy = WAll))
       | None => false
       end
       && existsb (fun range =>
            ranges_touch range request_range
            || match selected with
               | Some event => ranges_touch range (ev_range event) || ranges_touch range (ev_binding_range event)
               | None => false
               end) (fix_ranges f))
       (values_for check_fixes file_id)).

Definition is_preferred (f : RepairFix) : bool := default false (action_is_preferred (fix_action f)).

(** Preferred fixes first, then by title. *)
Definition language_key (f : RepairFix) : bool * string := (negb (is_preferred f), action_title (fix_action f)).

Definition ownership_language_fixes_for_diagnostic (check_fixes : Table (list RepairFix)) (file_id : FileId)
    (diagnostic : option OwnershipDiagnostic) : list RepairFix :=
  match diagnostic with
  | None => []
  | Some diagnostic =>
      sort_by (on language_key (lex_leb bool_cmp String.leb))
        (retain (fun f : RepairFix =>
           bool_decide (fix_ownership_wrapper f = None)
           && bool_decide (is_Some (action_edit (fix_action f)))
           && existsb (fun range =>
                ranges_touch range (odiag_range diagnostic)
                || existsb (fun related => ranges_touch range (odrelated_range related)) (odiag_related diagnostic))
                (fix_ranges f))
           (values_for check_fixes file_id))
  end.

Definition heuristic_ownership_strategy (title : string) : option OwnershipWrapperFix :=
  if title =s "Use Rc for shared ownership (unvalidated)" then Some WRc
  else if title =s "Use RefCell for interior mutability (unvalidated)" then Some WRefCell
  else if title =s "Use Rc<RefCell<_>> for shared mutable ownership (unvalidated)" then Some WRcRefCell
  else None.

(** [assists]: the code actions of the analyzer's assists at the binding. *)
Definition ownership_candidate_fixes (assists : list CodeAction) (request_range : Range) : list RepairFix :=
  sort_by (on (fun f : RepairFix => preview_order <$> fix_ownership_wrapper f) (option_leb N.leb))
    (omap (fun action =>
       strategy ← heuristic_ownership_strategy (action_title action);
       Some (mk_fix [request_range] action (Some strategy) : RepairFix)) assists).

(** ** The repairs of an answer *)

Section repairs.
Context (file_label : string -> string) (snap : OwnershipSnapshot).
Context (check_fixes : Table (list RepairFix)) (assists : result (list CodeAction)).

(** [" (unvalidated)"] removed from the end, as often as it is there. *)
Definition trim_end_matches_str (pat s : string) : string :=
  rev_str (trim_start_matches_str (String.length s) (rev_str pat) (rev_str s)).

Definition language_repair (source uri : string) (entry : N * RepairFix) : option OwnershipRepair :=
  let '(index, f) := entry in
  preview ← ownership_workspace_fix_diff file_label snap source uri f;
  let compiler_validated := is_preferred f && fix_preview_complete preview in
  Some (mk_repair (ownership_language_repair_id index) (action_title (fix_action f)) "language_fix"
    "ordinary Rust ownership and compile-time checked access"
    (fix_preview_diff preview) (fix_preview_affected_files preview) (fix_preview_complete preview)
    compiler_validated (if compiler_validated then "validated" else "candidate")
    (ownership_language_repair_effects (action_title (fix_action f))) None).

Definition validated_repair (source uri place : string) (request_range : Range) (entry : N * RepairFix) :
    option OwnershipRepair :=
  let '(index, f) := entry in
  strategy ← fix_ownership_wrapper f;
  preview ← ownership_workspace_fix_diff file_label snap source uri f;
  Some (mk_repair (ownership_repair_id strategy index) (action_title (fix_action f))
    (ownership_wrapper_code strategy) (runtime_semantics strategy)
    (fix_preview_diff preview) (fix_preview_affected_files preview) (fix_preview_complete preview)
    (fix_preview_complete preview) (if fix_preview_complete preview then "validated" else "incomplete_preview")
    (ownership_repair_effects strategy)
    (ownership_repair_preview_graph strategy place request_range true)).

Definition candidate_repair (source uri place : string) (request_range : Range)
    (validated_strategies : list OwnershipWrapperFix) (entry : N * RepairFix) : option OwnershipRepair :=
  let '(index, f) := entry in
  strategy ← fix_ownership_wrapper f;
  if bool_decide (strategy ∈ validated_strategies) then None
  else
    preview ← ownership_workspace_fix_diff file_label snap source uri f;
    Some (mk_repair (ownership_repair_id strategy index)
      (trim_end_matches_str " (unvalidated)" (action_title (fix_action f)))
      (ownership_wrapper_code strategy) (runtime_semantics strategy)
      (fix_preview_diff preview) (fix_preview_affected_files preview) (fix_preview_complete preview)
      false "candidate" (ownership_repair_effects strategy)
      (ownership_repair_preview_graph strategy place request_range false)).

Definition selected_diagnostic_at (diagnostics : list OwnershipDiagnostic) (request_range : Range) :
    option OwnershipDiagnostic :=
  find_first (fun diagnostic =>
    ranges_touch (odiag_range diagnostic) request_range
    || existsb (fun related => ranges_touch (odrelated_range related) request_range) (odiag_related diagnostic))
    diagnostics.

Definition selected_event_at (events : list AnalyzerData.OwnershipEvent) (request_range : Range) :
    option AnalyzerData.OwnershipEvent :=
  find_first (fun event =>
    ranges_touch (ev_range event) request_range || ranges_touch (ev_binding_range event) request_range) events.

(** The selection of [handle_ownership_model]. *)
Definition selected_name_at (file_id : FileId) (request_range : Range) : option string :=
  let tutorial := ownership_tutorial_for_file (osnap_models snap) file_id in
  let selected := selected_event_at (ownership_events_for_file (osnap_events snap) file_id) request_range in
  let name := (ownership_selection_context selected tutorial request_range).2 in
  match selected with
  | Some _ => name
  | None =>
      or_else name (fun _ =>
        diagnostic ← selected_diagnostic_at (ownership_diagnostics_for_file (osnap_diagnostics snap) file_id) request_range;
        ownership_root_name <$> ownership_name_from_message (odiag_message diagnostic))
  end.

Definition compiled_repairs (file_id : FileId) (source uri : string) (request_range : Range) :
    list OwnershipRepair :=
  let diagnostic :=
    selected_diagnostic_at (ownership_diagnostics_for_file (osnap_diagnostics snap) file_id) request_range in
  let selected := selected_event_at (ownership_events_for_file (osnap_events snap) file_id) request_range in
  let place := default "value" (selected_name_at file_id request_range) in
  omap (language_repair source uri)
    (enumerate (ownership_language_fixes_for_diagnostic check_fixes file_id diagnostic))
  ++ omap (validated_repair source uri place request_range)
       (enumerate (ownership_fixes_at check_fixes file_id request_range selected)).

(** The strategies whose compiled rewrite was considered, shown or not. *)
Definition validated_strategies (file_id : FileId) (request_range : Range) : list OwnershipWrapperFix :=
  omap fix_ownership_wrapper
    (ownership_fixes_at check_fixes file_id request_range
       (selected_event_at (ownership_events_for_file (osnap_events snap) file_id) request_range)).

Definition ownership_repairs (file_id : FileId) (source uri : string) (request_range : Range) :
    result (list OwnershipRepair) :=
  actions ← assists;
  let place := default "value" (selected_name_at file_id request_range) in
  Ok (compiled_repairs file_id source uri request_range
      ++ omap (candidate_repair source uri place request_range (validated_strategies file_id request_range))
           (enumerate (ownership_candidate_fixes actions request_range))).

(** ** From an identifier to a code action *)

(** [from_proto::file_range] *)
Definition file_range (uri : string) (range : Range) : result (option (FileId * string)) :=
  file ← osnap_file_id snap uri;
  match file with
  | None => Ok None
  | Some file_id =>
      source ← osnap_file_text snap file_id;
      match from_proto_text_range (line_index_new source) range with
      | Some _ => Ok (Some (file_id, source))
      | None => Err "Invalid Range"
      end
  end.

Definition named_language_fix (repair_id : string) (entry : N * RepairFix) : option CodeAction :=
  if ownership_language_repair_id entry.1 =s repair_id then Some (fix_action entry.2) else None.

Definition named_wrapper_fix (repair_id : string) (entry : N * RepairFix) : option CodeAction :=
  strategy ← fix_ownership_wrapper entry.2;
  if ownership_repair_id strategy entry.1 =s repair_id then Some (fix_action entry.2) else None.

Definition handle_ownership_repair (params : OwnershipRepairParams) : result (option CodeAction) :=
  let request_range := mk_range (repair_params_position params) (repair_params_position params) in
  file ← file_range (text_document_uri (repair_params_text_document params)) request_range;
  match file with
  | None => Ok None
  | Some (file_id, source) =>
      if negb (ownership_repair_source_is_current source (repair_params_source_hash params)) then Ok None
      else
        let diagnostic :=
          selected_diagnostic_at (ownership_diagnostics_for_file (osnap_diagnostics snap) file_id) request_range in
        let selected := selected_event_at (ownership_events_for_file (osnap_events snap) file_id) request_range in
        Ok (or_else
              (head (omap (named_language_fix (repair_params_repair_id params))
                 (enumerate (ownership_language_fixes_for_diagnostic check_fixes file_id diagnostic))))
              (fun _ =>
                 head (omap (named_wrapper_fix (repair_params_repair_id params))
                   (enumerate (ownership_fixes_at check_fixes file_id request_range selected)))))
  end.

(** ** Starting a check *)

(** [run_flycheck(state, path, true)] says whether it started a check. *)
Definition handle_ownership_validate_repair {State : Type} (run_flycheck : State -> string -> State * bool)
    (state : State) (params : OwnershipRepairParams) : State * result OwnershipRepairValidationResult :=
  let uri := text_document_uri (repair_params_text_document params) in
  match osnap_file_id snap uri with
  | Err e => (state, Err e)
  | Ok None =>
      (state, Ok (mk_validation "unavailable" "The file is not part of the currently loaded Rust workspace."))
  | Ok (Some file_id) =>
      match osnap_file_text snap file_id with
      | Err e => (state, Err e)
      | Ok source =>
          if negb (stable_source_hash source =s repair_params_source_hash params) then
            (state, Ok (mk_validation "stale" "The source changed before compiler validation started."))
          else
            let '(state, started) := run_flycheck state uri in
            (state,
             Ok (if started
                 then mk_validation "checking" "Compiler-checking ownership repair candidates for this package."
                 else mk_validation "unavailable" "No Cargo flycheck target was available for this file."))
      end
  end.
End repairs.
