(* ===== verification/AnalyzerRepairsSpec.v ===== *)
(** * rust-analyzer: repairs and their identifiers

    The repairs of an answer have different identifiers, and the identifier of a
    compiled one leads back to the code action whose preview was shown; a proposal that
    was not compiled leads nowhere.  The editor takes the repairs unless there are more
    than 16 of them or a preview is too long. *)

From Stdlib Require Import Ascii String.
From S2P Require Import Prelude RustStr RustColl RustPath MemoryGraph LineIndex AnalyzerData AnalyzerModel AnalyzerState AnalyzerProblems AnalyzerProblemsSpec AnalyzerPreview AnalyzerRepairs.
From S2P Require Import Protocol Bridge BridgeSpec.
From stdpp Require Import options.

(** ** Identifiers *)

Lemma wrapper_code_inj a b : ownership_wrapper_code a = ownership_wrapper_code b -> a = b.
Proof. by destruct a, b. Qed.

Lemma wrapper_id_inj a i b j : ownership_repair_id a i = ownership_repair_id b j -> a = b /\ i = j.
Proof. intros [Hc ->]%dash_field_inj. split; [by apply wrapper_code_inj|done]. Qed.

Lemma language_id_spec i : ownership_language_repair_id i = "language-fix" +:+ "-" +:+ show i.
Proof. done. Qed.

Lemma language_id_inj i j : ownership_language_repair_id i = ownership_language_repair_id j -> i = j.
Proof. rewrite !language_id_spec. by intros [_ ->]%dash_field_inj. Qed.

Lemma language_wrapper_id i b j : ownership_language_repair_id i <> ownership_repair_id b j.
Proof. rewrite language_id_spec. intros [H _]%dash_field_inj. by destruct b. Qed.

(** ** Numbered lists *)

Lemma enumerate_index {A} (l : list A) i x y : (i, x) ∈ enumerate l -> (i, y) ∈ enumerate l -> x = y.
Proof. intros H%enumerate_lookup H'%enumerate_lookup. congruence. Qed.

Lemma enumerate_index_of {A} (l : list A) x : x ∈ l -> exists i, (i, x) ∈ enumerate l.
Proof. intros [i Hi]%list_elem_of_lookup. exists (N.of_nat i). by apply enumerate_elem. Qed.

Lemma enumerate_from_indices {A} n (l : list A) : NoDup (enumerate_from n l).*1 /\ Forall (fun i => (n <= i)%N) (enumerate_from n l).*1.
Proof.
  revert n. induction l as [|x l IH]; intros n; cbn; [split; constructor|].
  destruct (IH (N.succ n)) as [Hn Hf]. split.
  - constructor; [|done]. intros Hin. rewrite Forall_forall in Hf. specialize (Hf n Hin). lia.
  - constructor; [done|]. eapply Forall_impl; [exact Hf|]. cbn. lia.
Qed.

Lemma enumerate_indices {A} (l : list A) : NoDup (enumerate l).*1.
Proof. apply enumerate_from_indices. Qed.

(** The first entry that passes a test only entries of one index pass. *)
Lemma head_omap_indexed {A B} (f : N * A -> option B) (l : list A) i x b :
  (i, x) ∈ enumerate l -> f (i, x) = Some b -> (forall j y, is_Some (f (j, y)) -> j = i) ->
  head (omap f (enumerate l)) = Some b.
Proof.
  intros Hin Hf Hi. destruct (omap f (enumerate l)) as [|b' rest] eqn:E.
  { exfalso. apply (not_elem_of_nil b). rewrite <-E. apply list_elem_of_omap. by exists (i, x). }
  assert (b' ∈ omap f (enumerate l)) as Hb by (rewrite E; left).
  apply list_elem_of_omap in Hb as ([j y] & Hy & Hfy). assert (j = i) as -> by (apply (Hi j y); by eexists).
  rewrite (enumerate_index _ _ _ _ Hy Hin) in Hfy. cbn. congruence.
Qed.

Lemma head_omap_none {A B} (f : A -> option B) (l : list A) :
  (forall x, x ∈ l -> f x = None) -> head (omap f l) = None.
Proof.
  induction l as [|x l IH]; intros H; [done|]. cbn. rewrite (H x) by set_solver. apply IH. set_solver.
Qed.

(** Results of numbered entries have different keys when keys determine numbers. *)
Lemma omap_keys_NoDup {A B K} (f : N * A -> option B) (key : B -> K) (l : list A) :
  (forall i x j y b c, f (i, x) = Some b -> f (j, y) = Some c -> key b = key c -> i = j) ->
  NoDup (key <$> omap f (enumerate l)).
Proof.
  intros Hk. pose proof (enumerate_indices l) as Hnd. revert Hnd. generalize (enumerate l) as entries.
  induction entries as [|[i x] entries IH]; intros Hnd; cbn in *; [constructor|].
  apply NoDup_cons in Hnd as [Hi Hnd]. destruct (f (i, x)) as [b|] eqn:E; [|by apply IH].
  constructor; [|by apply IH]. intros (c & Hkey & Hc)%list_elem_of_fmap.
  apply list_elem_of_omap in Hc as ([j y] & Hy & Hfy). apply Hi.
  rewrite (Hk _ _ _ _ _ _ E Hfy Hkey). by apply (list_elem_of_fmap_2 fst _ (j, y)).
Qed.

(** ** From a repair to its code action *)

Section resolve.
Context (file_label : string -> string) (snap : OwnershipSnapshot).
Context (check_fixes : Table (list RepairFix)) (assists : result (list CodeAction)).

(** A repair shows the preview of a fix. *)
Definition previews (source uri : string) (repair : OwnershipRepair) (f : RepairFix) : Prop :=
  exists preview, ownership_workspace_fix_diff file_label snap source uri f = Some preview /\
    repair_diff repair = fix_preview_diff preview /\
    repair_affected_files repair = fix_preview_affected_files preview /\
    repair_preview_complete repair = fix_preview_complete preview.

Lemma language_repair_Some source uri i f repair :
  language_repair file_label snap source uri (i, f) = Some repair ->
  repair_id repair = ownership_language_repair_id i /\ repair_title repair = action_title (fix_action f) /\
  previews source uri repair f /\ repair_preview_graph repair = None.
Proof. intros (preview & Hp & [= <-])%bind_Some. do 2 (split; [done|]). split; [by exists preview|done]. Qed.

Lemma validated_repair_Some source uri place range i f repair :
  validated_repair file_label snap source uri place range (i, f) = Some repair ->
  exists strategy, fix_ownership_wrapper f = Some strategy /\
    repair_id repair = ownership_repair_id strategy i /\ repair_title repair = action_title (fix_action f) /\
    previews source uri repair f /\
    repair_preview_graph repair = ownership_repair_preview_graph strategy place range true.
Proof.
  intros (strategy & Hs & (preview & Hp & [= <-])%bind_Some)%bind_Some. exists strategy.
  do 3 (split; [done|]). split; [by exists preview|done].
Qed.

Lemma candidate_repair_Some source uri place range strategies i f repair :
  candidate_repair file_label snap source uri place range strategies (i, f) = Some repair ->
  exists strategy, fix_ownership_wrapper f = Some strategy /\ (strategy ∉ strategies) /\
    repair_id repair = ownership_repair_id strategy i /\ previews source uri repair f /\
    repair_compiler_validated repair = false /\
    repair_preview_graph repair = ownership_repair_preview_graph strategy place range false /\
    repair_strategy repair = ownership_wrapper_code strategy /\ repair_validation_state repair = "candidate".
Proof.
  intros (strategy & Hs & H)%bind_Some. case_bool_decide as Hin; [done|].
  apply bind_Some in H as (preview & Hp & [= <-]). exists strategy.
  do 3 (split; [done|]). split; [by exists preview|done].
Qed.

Definition request_at (position : Position) : Range := mk_range position position.

Definition ask (uri id source : string) (position : Position) : OwnershipRepairParams :=
  mk_repair_params (mk_text_document uri) position id (stable_source_hash source).

Lemma ask_current uri id source position file_id :
  file_range snap uri (request_at position) = Ok (Some (file_id, source)) ->
  handle_ownership_repair snap check_fixes (ask uri id source position) =
  Ok (or_else
        (head (omap (named_language_fix id)
           (enumerate (ownership_language_fixes_for_diagnostic check_fixes file_id
              (selected_diagnostic_at (ownership_diagnostics_for_file (osnap_diagnostics snap) file_id) (request_at position))))))
        (fun _ => head (omap (named_wrapper_fix id)
           (enumerate (ownership_fixes_at check_fixes file_id (request_at position)
              (selected_event_at (ownership_events_for_file (osnap_events snap) file_id) (request_at position))))))).
Proof using Type.
  intros Hf. unfold handle_ownership_repair, ask. cbn [repair_params_text_document repair_params_position
    repair_params_repair_id repair_params_source_hash text_document_uri]. fold (request_at position).
  rewrite Hf. cbn [mbind result_bind]. unfold ownership_repair_source_is_current. by rewrite str_eqb_refl.
Qed.

Lemma named_language_index id i j y :
  id = ownership_language_repair_id i -> is_Some (named_language_fix id (j, y)) -> j = i.
Proof using Type.
  intros -> [a Ha]. unfold named_language_fix in Ha. cbn in Ha.
  destruct (String.eqb_spec (ownership_language_repair_id j) (ownership_language_repair_id i)) as [H|]; [|done].
  by apply language_id_inj.
Qed.

Lemma named_wrapper_spec id j y a :
  named_wrapper_fix id (j, y) = Some a ->
  exists strategy, fix_ownership_wrapper y = Some strategy /\ ownership_repair_id strategy j = id /\ a = fix_action y.
Proof using Type.
  unfold named_wrapper_fix. cbn [fst snd]. intros (s & Hs & H)%bind_Some.
  destruct (String.eqb_spec (ownership_repair_id s j) id); [|done]. injection H as <-. by exists s.
Qed.

Lemma no_language_fix strategy i (fixes : list RepairFix) :
  head (omap (named_language_fix (ownership_repair_id strategy i)) (enumerate fixes)) = None.
Proof using Type.
  apply head_omap_none. intros [j y] _. unfold named_language_fix. cbn.
  destruct (String.eqb_spec (ownership_language_repair_id j) (ownership_repair_id strategy i)) as [H|]; [|done].
  by apply language_wrapper_id in H.
Qed.

(** A repair shows a fix, and its identifier leads to the code action of that fix. *)
Definition leads_to (uri source : string) (position : Position) (repair : OwnershipRepair) (f : RepairFix) : Prop :=
  previews source uri repair f /\ repair_title repair = action_title (fix_action f) /\
  handle_ownership_repair snap check_fixes (ask uri (repair_id repair) source position) = Ok (Some (fix_action f)).

(** The fixes of the compiler for the selected diagnostic and for the position. *)
Definition language_fixes (file_id : FileId) (position : Position) : list RepairFix :=
  ownership_language_fixes_for_diagnostic check_fixes file_id
    (selected_diagnostic_at (ownership_diagnostics_for_file (osnap_diagnostics snap) file_id) (request_at position)).

Definition wrapper_fixes (file_id : FileId) (position : Position) : list RepairFix :=
  ownership_fixes_at check_fixes file_id (request_at position)
    (selected_event_at (ownership_events_for_file (osnap_events snap) file_id) (request_at position)).

Lemma language_repair_leads uri source position file_id i f repair :
  file_range snap uri (request_at position) = Ok (Some (file_id, source)) ->
  (i, f) ∈ enumerate (language_fixes file_id position) ->
  language_repair file_label snap source uri (i, f) = Some repair -> leads_to uri source position repair f.
Proof using Type.
  intros Hf Hif (Hid & Ht & Hp & _)%language_repair_Some. do 2 (split; [done|]).
  rewrite (ask_current _ _ _ _ _ Hf).
  rewrite (head_omap_indexed (named_language_fix (repair_id repair)) _ i f (fix_action f)); [done|done| |].
  - unfold named_language_fix. cbn. by rewrite Hid, str_eqb_refl.
  - intros j y. by apply named_language_index.
Qed.

Lemma wrapper_repair_leads uri source position file_id place i f repair :
  file_range snap uri (request_at position) = Ok (Some (file_id, source)) ->
  (i, f) ∈ enumerate (wrapper_fixes file_id position) ->
  validated_repair file_label snap source uri place (request_at position) (i, f) = Some repair ->
  leads_to uri source position repair f.
Proof using Type.
  intros Hf Hif (s & Hs & Hid & Ht & Hp & _)%validated_repair_Some. do 2 (split; [done|]).
  rewrite (ask_current _ _ _ _ _ Hf), Hid, no_language_fix. cbn [or_else].
  rewrite (head_omap_indexed (named_wrapper_fix (ownership_repair_id s i)) _ i f (fix_action f)); [done|done| |].
  - unfold named_wrapper_fix. cbn. rewrite Hs. cbn. by rewrite str_eqb_refl.
  - intros j y [a (s' & _ & H & _)%named_wrapper_spec]. by apply wrapper_id_inj in H as [_ ->].
Qed.

(** Each compiled repair leads to a fix of the compiler, and each fix that can be
    previewed is led to by a compiled repair. *)
Lemma compiled_repairs_lead uri source position file_id :
  file_range snap uri (request_at position) = Ok (Some (file_id, source)) ->
  let compiled := compiled_repairs file_label snap check_fixes file_id source uri (request_at position) in
  let fixes := language_fixes file_id position ++ wrapper_fixes file_id position in
  Forall (fun repair => exists f, f ∈ fixes /\ leads_to uri source position repair f) compiled /\
  Forall (fun f => is_Some (ownership_workspace_fix_diff file_label snap source uri f) ->
    exists repair, repair ∈ compiled /\ leads_to uri source position repair f) fixes.
Proof using Type.
  intros Hf. unfold compiled_repairs. cbv zeta.
  fold (language_fixes file_id position) (wrapper_fixes file_id position).
  set (place := default _ _). split; apply Forall_app; split; apply Forall_forall.
  - intros repair ([i f] & Hif & Hr)%list_elem_of_omap. exists f.
    split; [|by eapply language_repair_leads].
    apply elem_of_app. left. apply enumerate_lookup in Hif. by eapply list_elem_of_lookup_2.
  - intros repair ([i f] & Hif & Hr)%list_elem_of_omap. exists f.
    split; [|by eapply wrapper_repair_leads].
    apply elem_of_app. right. apply enumerate_lookup in Hif. by eapply list_elem_of_lookup_2.
  - intros f [i Hi]%enumerate_index_of [preview Hp].
    destruct (language_repair file_label snap source uri (i, f)) as [repair|] eqn:Hr;
      [|unfold language_repair in Hr; rewrite Hp in Hr; discriminate Hr].
    exists repair. split; [|by eapply language_repair_leads].
    apply elem_of_app. left. apply list_elem_of_omap. by exists (i, f).
  - intros f Hin [preview Hp]. destruct (enumerate_index_of _ _ Hin) as [i Hi].
    assert (is_Some (fix_ownership_wrapper f)) as [strategy Hs].
    { unfold wrapper_fixes, ownership_fixes_at in Hin. rewrite sort_by_perm in Hin.
      apply elem_of_retain in Hin as [Hin _]. by destruct (fix_ownership_wrapper f). }
    destruct (validated_repair file_label snap source uri place (request_at position) (i, f)) as [repair|] eqn:Hr;
      [|unfold validated_repair in Hr; rewrite Hs in Hr; cbn in Hr; rewrite Hp in Hr; discriminate Hr].
    exists repair. split; [|by eapply wrapper_repair_leads].
    apply elem_of_app. right. apply list_elem_of_omap. by exists (i, f).
Qed.

(** A proposal the compiler has not seen resolves to nothing. *)
Lemma candidate_repair_unresolved uri source position file_id place candidates repair :
  file_range snap uri (request_at position) = Ok (Some (file_id, source)) ->
  repair ∈ omap (candidate_repair file_label snap source uri place (request_at position)
    (validated_strategies snap check_fixes file_id (request_at position))) (enumerate candidates) ->
  handle_ownership_repair snap check_fixes (ask uri (repair_id repair) source position) = Ok None.
Proof using Type.
  intros Hf ([i f] & _ & (s & _ & Hns & Hid & _)%candidate_repair_Some)%list_elem_of_omap.
  rewrite (ask_current _ _ _ _ _ Hf), Hid, no_language_fix. cbn [or_else]. f_equal.
  apply head_omap_none. intros [j y] Hy. destruct (named_wrapper_fix _ (j, y)) as [a|] eqn:E; [|done].
  exfalso. apply named_wrapper_spec in E as (s' & Hs' & [-> ->]%wrapper_id_inj & _). apply Hns.
  apply list_elem_of_omap. exists y. split; [|done].
  apply enumerate_lookup in Hy. by eapply list_elem_of_lookup_2.
Qed.
End resolve.

(** C18: The identifier of a repair leads back to it.  The repairs of an answer are the
    compiled ones followed by proposals.  Asked with the hash of the text the answer was
    about, rust-analyzer returns for each compiled repair the code action of the fix of
    the compiler whose title and preview it shows, preferred or not; each such fix that
    can be previewed has its repair.  A proposal is a candidate that is not validated, is
    an action of an assist for a strategy no compiled fix has, and is answered with
    nothing. *)
Theorem repair_id_roundtrip file_label snap check_fixes actions uri source position file_id repairs :
  file_range snap uri (request_at position) = Ok (Some (file_id, source)) ->
  ownership_repairs file_label snap check_fixes (Ok actions) file_id source uri (request_at position) = Ok repairs ->
  let fixes := language_fixes snap check_fixes file_id position ++ wrapper_fixes snap check_fixes file_id position in
  let compiled := compiled_repairs file_label snap check_fixes file_id source uri (request_at position) in
  exists proposed, repairs = compiled ++ proposed /\
    Forall (fun repair => exists f, f ∈ fixes /\ leads_to file_label snap check_fixes uri source position repair f)
      compiled /\
    Forall (fun f => is_Some (ownership_workspace_fix_diff file_label snap source uri f) ->
      exists repair, repair ∈ compiled /\ leads_to file_label snap check_fixes uri source position repair f) fixes /\
    Forall (fun repair =>
      repair_compiler_validated repair = false /\ repair_validation_state repair = "candidate" /\
      (exists f strategy, f ∈ ownership_candidate_fixes actions (request_at position) /\
         fix_ownership_wrapper f = Some strategy /\ repair_strategy repair = ownership_wrapper_code strategy /\
         Forall (fun compiled => fix_ownership_wrapper compiled <> Some strategy)
           (wrapper_fixes snap check_fixes file_id position)) /\
      handle_ownership_repair snap check_fixes (ask uri (repair_id repair) source position) = Ok None) proposed.
Proof.
  intros Hf [= <-]. eexists. split; [reflexivity|].
  destruct (compiled_repairs_lead file_label snap check_fixes uri source position file_id Hf) as [H1 H2].
  do 2 (split; [done|]). apply Forall_forall. intros repair Hin.
  assert (handle_ownership_repair snap check_fixes (ask uri (repair_id repair) source position) = Ok None) as Hn
    by by eapply candidate_repair_unresolved.
  apply list_elem_of_omap in Hin as ([i f] & Hif & (s & Hs & Hns & _ & _ & Hv & _ & Hst & Hstate)%candidate_repair_Some).
  do 2 (split; [done|]). split; [|done]. exists f, s. split.
  { apply enumerate_lookup in Hif. by eapply list_elem_of_lookup_2. }
  do 2 (split; [done|]). apply Forall_forall. intros g Hg Hgs. apply Hns.
  apply list_elem_of_omap. by exists g.
Qed.

(** ** When the editor takes the repairs *)

Lemma point_ordered position : range_ordered (request_at position).
Proof. right. done. Qed.

Lemma preview_graph_ok strategy place position validated graph :
  ownership_repair_preview_graph strategy place (request_at position) validated = Some graph ->
  well_formed_graph graph.
Proof.
  pose proof (point_ordered position) as Ho. unfold ownership_repair_preview_graph.
  destruct strategy; cbn [wrapper_shape]; intros [= <-]; split;
    first [ by apply Forall_nil_2 | by vm_compute
          | split; [apply (bool_decide_eq_true (NoDup _)); reflexivity | apply (bool_decide_eq_false (_ ∈ _)); reflexivity]
          | repeat (apply Forall_cons; split; [by intros ? [= <-]|]); apply Forall_nil_2 ].
Qed.

Section accepted.
Context (file_label : string -> string) (snap : OwnershipSnapshot).
Context (check_fixes : Table (list RepairFix)) (assists : result (list CodeAction)).
Context (file_id : FileId) (source uri : string) (position : Position) (repairs : list OwnershipRepair).
Context (served : ownership_repairs file_label snap check_fixes assists file_id source uri (request_at position) =
  Ok repairs).

Lemma repair_ids_unique : unique_ids (repair_id <$> repairs).
Proof using served.
  revert served. unfold ownership_repairs, compiled_repairs. destruct assists as [actions|]; cbn; [|done]. intros [= <-].
  rewrite !fmap_app.
  split.
  - apply NoDup_app. split_and!; [apply NoDup_app; split_and!| |].
    + apply omap_keys_NoDup. intros i x j y b c (Hb & _)%language_repair_Some (Hc & _)%language_repair_Some H.
      rewrite Hb, Hc in H. by apply language_id_inj.
    + intros id (b & -> & ([i x] & _ & (Hb & _)%language_repair_Some)%list_elem_of_omap)%list_elem_of_fmap.
      rewrite Hb. intros (c & H & ([j y] & _ & (s & _ & Hc & _)%validated_repair_Some)%list_elem_of_omap)%list_elem_of_fmap.
      rewrite Hc in H. by apply language_wrapper_id in H.
    + apply omap_keys_NoDup.
      intros i x j y b c (s & _ & Hb & _)%validated_repair_Some (s' & _ & Hc & _)%validated_repair_Some H.
      rewrite Hb, Hc in H. by apply wrapper_id_inj in H as [_ ->].
    + intros id Hid (c & -> & ([j y] & _ & (s & _ & Hns & Hc & _)%candidate_repair_Some)%list_elem_of_omap)%list_elem_of_fmap.
      rewrite Hc in Hid. apply elem_of_app in Hid as [(b & H & ([i x] & _ & (Hb & _)%language_repair_Some)%list_elem_of_omap)%list_elem_of_fmap
        |(b & H & ([i x] & Hx & (s' & Hs' & Hb & _)%validated_repair_Some)%list_elem_of_omap)%list_elem_of_fmap].
      * rewrite Hb in H. symmetry in H. by apply language_wrapper_id in H.
      * rewrite Hb in H. apply wrapper_id_inj in H as [-> _]. apply Hns. apply list_elem_of_omap. exists x.
        split; [|done]. apply enumerate_lookup in Hx. by eapply list_elem_of_lookup_2.
    + apply omap_keys_NoDup.
      intros i x j y b c (s & _ & _ & Hb & _)%candidate_repair_Some (s' & _ & _ & Hc & _)%candidate_repair_Some H.
      rewrite Hb, Hc in H. by apply wrapper_id_inj in H as [_ ->].
  - rewrite !elem_of_app. intros [[H|H]|H]; apply list_elem_of_fmap in H as (b & H & ([i x] & _ & Hr)%list_elem_of_omap).
    + apply language_repair_Some in Hr as (Hb & _). by rewrite Hb in H.
    + apply validated_repair_Some in Hr as (s & _ & Hb & _). rewrite Hb in H. by destruct s.
    + apply candidate_repair_Some in Hr as (s & _ & _ & Hb & _). rewrite Hb in H. by destruct s.
Qed.

Lemma repair_graphs_ok : Forall (fun r => optional well_formed_graph (repair_preview_graph r)) repairs.
Proof using served.
  revert served. unfold ownership_repairs, compiled_repairs. destruct assists as [actions|]; cbn; [|done]. intros [= <-].
  rewrite !Forall_app. split_and!; apply Forall_forall; intros r ([i x] & _ & Hr)%list_elem_of_omap g Hg.
  - apply language_repair_Some in Hr as (_ & _ & _ & Hn). congruence.
  - apply validated_repair_Some in Hr as (s & _ & _ & _ & _ & Hn). rewrite Hn in Hg. by eapply preview_graph_ok.
  - apply candidate_repair_Some in Hr as (s & _ & _ & _ & _ & _ & Hn & _). rewrite Hn in Hg. by eapply preview_graph_ok.
Qed.
End accepted.

Lemma repairs_shape file_label snap check_fixes assists file_id source uri position repairs :
  ownership_repairs file_label snap check_fixes assists file_id source uri (request_at position) = Ok repairs ->
  (bounded repairs 16 /\ unique_ids (repair_id <$> repairs) /\ Forall well_formed_repair repairs) <->
  bounded repairs 16 /\
  Forall (fun r => text_bounded (repair_diff r) /\ bounded (repair_affected_files r) 64) repairs.
Proof.
  intros H. pose proof (repair_graphs_ok _ _ _ _ _ _ _ _ _ H) as Hg. split.
  - intros (Hb & _ & Hw). split; [done|]. eapply Forall_impl; [exact Hw|]. by intros r [].
  - intros (Hb & Hw). split; [done|]. split; [by eapply repair_ids_unique|].
    rewrite Forall_forall in *. intros r Hr. destruct (Hw r Hr). split; [done..|by apply Hg].
Qed.

(** The repairs rust-analyzer computes always have different identifiers and
    well-formed preview graphs, so the editor accepts them exactly when there are at
    most 16, and each preview is at most 256 KiB long and names at most 64 files. *)
Theorem repairs_accepted_iff file_label snap check_fixes assists file_id source uri position repairs :
  ownership_repairs file_label snap check_fixes assists file_id source uri (request_at position) = Ok repairs ->
  (bounded repairs 16 /\ unique_ids (repair_id <$> repairs) /\ Forall well_formed_repair repairs) <->
  bounded repairs 16 /\
  Forall (fun r => text_bounded (repair_diff r) /\ bounded (repair_affected_files r) 64) repairs.
Proof. apply repairs_shape. Qed.

(** ** Stale requests *)

(** A request about another text resolves to nothing and starts no check. *)
Lemma stale_request_refused snap check_fixes {State} (run_flycheck : State -> string -> State * bool) state uri
    position id hash file_id source :
  file_range snap uri (request_at position) = Ok (Some (file_id, source)) ->
  stable_source_hash source <> hash ->
  let params := mk_repair_params (mk_text_document uri) position id hash in
  handle_ownership_repair snap check_fixes params = Ok None /\
  handle_ownership_validate_repair snap run_flycheck state params =
    (state, Ok (mk_validation "stale" "The source changed before compiler validation started.")).
Proof.
  intros Hf Hh. assert (String.eqb (stable_source_hash source) hash = false) as Hn.
  { by destruct (String.eqb_spec (stable_source_hash source) hash). }
  unfold handle_ownership_repair, handle_ownership_validate_repair.
  cbn [repair_params_text_document repair_params_position repair_params_source_hash text_document_uri].
  fold (request_at position). rewrite Hf. cbn [mbind result_bind].
  unfold ownership_repair_source_is_current. rewrite Hn. split; [done|].
  unfold file_range in Hf. destruct (osnap_file_id snap uri) as [[id'|]|]; cbn in Hf; try done.
  destruct (osnap_file_text snap id') as [text|]; cbn in Hf; [|done].
  destruct (from_proto_text_range _ _); [|done]. injection Hf as -> ->. by rewrite Hn.
Qed.

(** ** A file with a compiled repair and a proposal *)

Definition call_site : Position := mk_position 0 3.

Definition wrapper_fix (strategy : OwnershipWrapperFix) (title : string) : RepairFix :=
  mk_fix [at_ 0 0 5] (mk_code_action title (Some (mk_workspace_edit None
    (Some [OpEdit "file:///main.rs" [mk_text_edit (at_ 0 11 11) "s.clone()"]]))) None) (Some strategy).

Definition fix_table (fixes : list RepairFix) : Table (list RepairFix) := [{[ None := {[ 1%N := fixes ]} ]}].

Definition proposals : list CodeAction :=
  fix_action <$> [wrapper_fix WRc "Use Rc for shared ownership (unvalidated)";
                  wrapper_fix WRefCell "Use RefCell for interior mutability (unvalidated)"].

Definition offered (fixes : list RepairFix) : list OwnershipRepair :=
  match ownership_repairs id (osnap_with [] []) (fix_table fixes) (Ok proposals) 1%N "fn main() {}"
          "file:///main.rs" (request_at call_site) with
  | Ok repairs => repairs
  | Err _ => []
  end.

(** The proposal of [Rc] is left out, since the compiled rewrite to [Rc] is offered. *)
Lemma offered_ids : repair_id <$> offered [wrapper_fix WRc "Use Rc"] = ["rc-0"; "ref_cell-1"].
Proof. vm_compute. reflexivity. Qed.

Lemma repair_id_roundtrip_witness :
  (exists a, handle_ownership_repair (osnap_with [] []) (fix_table [wrapper_fix WRc "Use Rc"])
     (ask "file:///main.rs" "rc-0" "fn main() {}" call_site) = Ok (Some a) /\ action_title a = "Use Rc") /\
  handle_ownership_repair (osnap_with [] []) (fix_table [wrapper_fix WRc "Use Rc"])
    (ask "file:///main.rs" "ref_cell-1" "fn main() {}" call_site) = Ok None.
Proof.
  destruct (repair_id_roundtrip id (osnap_with [] []) (fix_table [wrapper_fix WRc "Use Rc"]) proposals
    "file:///main.rs" "fn main() {}" call_site 1%N (offered [wrapper_fix WRc "Use Rc"]))
    as (proposed & Hr & Hc & _ & Hp); [vm_compute; reflexivity|vm_compute; reflexivity|].
  set (compiled := compiled_repairs _ _ _ _ _ _ _) in *.
  assert (repair_id <$> compiled = ["rc-0"] /\ repair_title <$> compiled = ["Use Rc"]) as [Hci Hct]
    by (vm_compute; split; reflexivity).
  assert (repair_id <$> proposed = ["ref_cell-1"]) as Hpi.
  { pose proof offered_ids as Hids. rewrite Hr, fmap_app, Hci in Hids. by injection Hids as ?. }
  clearbody compiled.
  destruct compiled as [|c [|]]; try discriminate Hci. destruct proposed as [|q [|]]; try discriminate Hpi.
  apply Forall_cons in Hc as [(f & _ & _ & Hft & Ha) _]. apply Forall_cons in Hp as [(_ & _ & _ & Hq) _].
  injection Hci as Hci. injection Hct as Hct. injection Hpi as Hpi. split.
  - exists (fix_action f). rewrite <-Hci. split; [exact Ha|congruence].
  - rewrite <-Hpi. exact Hq.
Defined.

Lemma repairs_accepted_iff_witness :
  bounded (offered [wrapper_fix WRc "Use Rc"]) 16 /\ unique_ids (repair_id <$> offered [wrapper_fix WRc "Use Rc"]) /\
  Forall well_formed_repair (offered [wrapper_fix WRc "Use Rc"]).
Proof.
  apply (repairs_accepted_iff id (osnap_with [] []) (fix_table [wrapper_fix WRc "Use Rc"]) (Ok proposals)
    1%N "fn main() {}" "file:///main.rs" call_site).
  - vm_compute. reflexivity.
  - split; [apply N.leb_le; vm_compute; reflexivity|].
    assert (forallb (fun r => (str_len (repair_diff r) <=? 262144)%N && (len (repair_affected_files r) <=? 64)%N)
      (offered [wrapper_fix WRc "Use Rc"]) = true) as H by (vm_compute; reflexivity).
    apply Forall_forall. intros r Hr%list_elem_of_In. rewrite forallb_forall in H. specialize (H r Hr).
    apply andb_true_iff in H as [H1%N.leb_le H2%N.leb_le]. split; assumption.
Defined.

(** ** Repairs the editor refuses *)

(** Nothing bounds the number of rewrites at a position: with 17 of them the list is
    refused, and the answer with it. *)
Lemma too_many_repairs_refused :
  len (offered (replicate 17 (wrapper_fix WRc "Use Rc"))) = 18%N /\
  unique_ids (repair_id <$> offered (replicate 17 (wrapper_fix WRc "Use Rc"))) /\
  forall m, model_repairs m = offered (replicate 17 (wrapper_fix WRc "Use Rc")) ->
    validate_ownership_model m <> Ok tt.
Proof.
  assert (len (offered (replicate 17 (wrapper_fix WRc "Use Rc"))) = 18%N) as Hl by (vm_compute; reflexivity).
  split; [exact Hl|]. split.
  - split; [apply (bool_decide_eq_true (NoDup _)); vm_compute; reflexivity
           |apply (bool_decide_eq_false (_ ∈ _)); vm_compute; reflexivity].
  - intros m Hm Hv%model_ok. pose proof (wfn_repairs _ (wfm_counts _ Hv)) as H. rewrite Hm in H.
    unfold bounded in H. rewrite Hl in H. lia.
Qed.
