(* ===== verification/AnalyzerSyntax.v ===== *)
(** * rust-analyzer: reading a syntax tree

    The analyzer explains a diagnostic with the [let] statement, the method call or the
    item around it.  The trees are those of the [rowan] library: what its operations give
    is a type class ([SyntaxTree]), and its documented behaviour another
    ([SyntaxTreeLaws]).  The typed views of [syntax/src/ast/] are definitions over the
    first. *)

From Stdlib Require Import Ascii String.
From S2P Require Import Prelude RustStr RustColl RustPath Autofix LineIndex.
From S2P Require Import Protocol.
From stdpp Require Import options.

(** The kinds the analyzer's casts tell apart. *)
Inductive SyntaxKind : Type :=
  (* expressions *)
  | ARRAY_EXPR | ASM_EXPR | AWAIT_EXPR | BECOME_EXPR | BIN_EXPR | BLOCK_EXPR | BREAK_EXPR
  | CALL_EXPR | CAST_EXPR | CLOSURE_EXPR | CONTINUE_EXPR | FIELD_EXPR | FOR_EXPR | FORMAT_ARGS_EXPR
  | IF_EXPR | INCLUDE_BYTES_EXPR | INDEX_EXPR | LET_EXPR | LITERAL | LOOP_EXPR | MACRO_EXPR
  | MATCH_EXPR | METHOD_CALL_EXPR | OFFSET_OF_EXPR | PAREN_EXPR | PATH_EXPR | PREFIX_EXPR
  | RANGE_EXPR | RECORD_EXPR | REF_EXPR | RETURN_EXPR | TRY_EXPR | TUPLE_EXPR | UNDERSCORE_EXPR
  | WHILE_EXPR | YEET_EXPR | YIELD_EXPR
  (* patterns *)
  | BOX_PAT | CONST_BLOCK_PAT | DEREF_PAT | IDENT_PAT | LITERAL_PAT | MACRO_PAT | NOT_NULL | OR_PAT
  | PAREN_PAT | PATH_PAT | RANGE_PAT | RECORD_PAT | REF_PAT | REST_PAT | SLICE_PAT | TUPLE_PAT
  | TUPLE_STRUCT_PAT | WILDCARD_PAT
  (* types *)
  | ARRAY_TYPE | DYN_TRAIT_TYPE | FN_PTR_TYPE | FOR_TYPE | IMPL_TRAIT_TYPE | INFER_TYPE | MACRO_TYPE
  | NEVER_TYPE | PAREN_TYPE | PATH_TYPE | PATTERN_TYPE | PTR_TYPE | REF_TYPE | SLICE_TYPE
  | TUPLE_TYPE
  (* items and their parts *)
  | ARG_LIST | ENUM | EXPR_STMT | FN | IMPL | LET_ELSE | LET_STMT | MODULE | NAME | NAME_REF | PARAM_LIST | PATH
  | PATH_SEGMENT | SELF_PARAM | STRUCT | TRAIT
  | GENERIC_ARG_LIST | ASSOC_TYPE_ARG | CONST_ARG | LIFETIME_ARG | TYPE_ARG
  (* tokens *)
  | ASYNC_KW | FOR_KW | MUT_KW | WHITESPACE | COMMENT
  | PIPE2 | AMP2 | EQ2 | NEQ | LTEQ | GTEQ | L_ANGLE | R_ANGLE | PLUS | STAR | MINUS | SLASH | PERCENT
  | SHL | SHR | CARET | PIPE | AMP
  | EQ | PLUSEQ | STAREQ | MINUSEQ | SLASHEQ | PERCENTEQ | SHLEQ | SHREQ | CARETEQ | PIPEEQ | AMPEQ
  | OTHER_KIND.

#[global] Instance SyntaxKind_eq_dec : EqDecision SyntaxKind.
Proof. solve_decision. Defined.

Definition expr_can_cast (kind : SyntaxKind) : bool :=
  match kind with
  | ARRAY_EXPR | ASM_EXPR | AWAIT_EXPR | BECOME_EXPR | BIN_EXPR | BLOCK_EXPR | BREAK_EXPR
  | CALL_EXPR | CAST_EXPR | CLOSURE_EXPR | CONTINUE_EXPR | FIELD_EXPR | FOR_EXPR | FORMAT_ARGS_EXPR
  | IF_EXPR | INCLUDE_BYTES_EXPR | INDEX_EXPR | LET_EXPR | LITERAL | LOOP_EXPR | MACRO_EXPR
  | MATCH_EXPR | METHOD_CALL_EXPR | OFFSET_OF_EXPR | PAREN_EXPR | PATH_EXPR | PREFIX_EXPR
  | RANGE_EXPR | RECORD_EXPR | REF_EXPR | RETURN_EXPR | TRY_EXPR | TUPLE_EXPR | UNDERSCORE_EXPR
  | WHILE_EXPR | YEET_EXPR | YIELD_EXPR => true
  | _ => false
  end.

Definition pat_can_cast (kind : SyntaxKind) : bool :=
  match kind with
  | BOX_PAT | CONST_BLOCK_PAT | DEREF_PAT | IDENT_PAT | LITERAL_PAT | MACRO_PAT | NOT_NULL | OR_PAT
  | PAREN_PAT | PATH_PAT | RANGE_PAT | RECORD_PAT | REF_PAT | REST_PAT | SLICE_PAT | TUPLE_PAT
  | TUPLE_STRUCT_PAT | WILDCARD_PAT => true
  | _ => false
  end.

Definition type_can_cast (kind : SyntaxKind) : bool :=
  match kind with
  | ARRAY_TYPE | DYN_TRAIT_TYPE | FN_PTR_TYPE | FOR_TYPE | IMPL_TRAIT_TYPE | INFER_TYPE | MACRO_TYPE
  | NEVER_TYPE | PAREN_TYPE | PATH_TYPE | PATTERN_TYPE | PTR_TYPE | REF_TYPE | SLICE_TYPE
  | TUPLE_TYPE => true
  | _ => false
  end.

(** What a tree of the library offers: ranges are offsets of bytes, [child_tokens] the
    tokens right below a node, [descendants] the node and all below it in the order of
    the text, [tokens_at root offset] the tokens at an offset of the file, two where it
    lies between tokens, each with the nodes around it, innermost first
    ([token_at_offset] and [parent_ancestors]). *)
Class SyntaxTree (Node : Type) : Type := {
  node_kind : Node -> SyntaxKind;
  node_range : Node -> N * N;
  node_text : Node -> string;
  first_token_text : Node -> string;
  node_children : Node -> list Node;
  child_tokens : Node -> list (SyntaxKind * (N * N));
  descendants : Node -> list Node;
  tokens_at : Node -> N -> list (SyntaxKind * list Node);
  node_height : Node -> nat
}.

(** A range of a file: its ends are in order and between characters. *)
Definition range_in (text : string) (range : N * N) : Prop :=
  (range.1 <= range.2)%N /\ is_char_boundary text range.1 = true /\ is_char_boundary text range.2 = true.

(** The tree of a file: its nodes have ranges of the file, and are finite. *)
Class SyntaxTreeLaws {Node : Type} `{SyntaxTree Node} (text : string) (root : Node) : Type := {
  belongs : Node -> Prop;
  root_belongs : belongs root;
  child_belongs : forall n c, belongs n -> c ∈ node_children n -> belongs c;
  descendant_belongs : forall n d, belongs n -> d ∈ descendants n -> belongs d;
  ancestor_belongs : forall offset token a, token ∈ tokens_at root offset -> a ∈ token.2 -> belongs a;
  belongs_range : forall n, belongs n -> range_in text (node_range n);
  child_height : forall n c, c ∈ node_children n -> node_height c < node_height n
}.

Section views.
Context {Node : Type} `{SyntaxTree Node}.

Definition has_kind (kind : SyntaxKind) (node : Node) : bool := bool_decide (node_kind node = kind).

(** [support::child] *)
Definition support_child (can_cast : SyntaxKind -> bool) (parent : Node) : option Node :=
  find_first (fun child => can_cast (node_kind child)) (node_children parent).

(** [support::token] *)
Definition support_token (kind : SyntaxKind) (parent : Node) : option (SyntaxKind * (N * N)) :=
  find_first (fun token => bool_decide (token.1 = kind)) (child_tokens parent).

Definition kind_is (kind : SyntaxKind) (k : SyntaxKind) : bool := bool_decide (k = kind).

Definition expr_of (node : Node) : option Node := support_child expr_can_cast node.
Definition pat_of (node : Node) : option Node := support_child pat_can_cast node.
Definition name_of (node : Node) : option Node := support_child (kind_is NAME) node.

Definition args_of (node : Node) : list Node :=
  default [] (retain (fun child => expr_can_cast (node_kind child)) ∘ node_children
    <$> support_child (kind_is ARG_LIST) node).

(** [token_at_offset(offset).right_biased()] and its [parent_ancestors] *)
Definition token_ancestors (root : Node) (offset : N) : option (list Node) := snd <$> last (tokens_at root offset).

Definition is_trivia (kind : SyntaxKind) : bool :=
  match kind with
  | WHITESPACE | COMMENT => true
  | _ => false
  end.

(** [BinExpr::op_kind], as far as assignments are told from other operators. *)
Definition assignment_token (kind : SyntaxKind) : option bool :=
  match kind with
  | PIPE2 | AMP2 | EQ2 | NEQ | LTEQ | GTEQ | L_ANGLE | R_ANGLE | PLUS | STAR | MINUS | SLASH | PERCENT
  | SHL | SHR | CARET | PIPE | AMP => Some false
  | EQ | PLUSEQ | STAREQ | MINUSEQ | SLASHEQ | PERCENTEQ | SHLEQ | SHREQ | CARETEQ | PIPEEQ | AMPEQ => Some true
  | _ => None
  end.

Definition is_assignment (node : Node) : bool :=
  default false (head (omap (fun token => assignment_token token.1) (child_tokens node))).

(** [pattern.syntax().descendants().filter_map(ast::IdentPat::cast)] *)
Definition ident_pats (node : Node) : list Node := retain (has_kind IDENT_PAT) (descendants node).

(** [ast::Impl::self_ty]: the type after [for], or the only one. *)
Definition impl_self_ty (node : Node) : option Node :=
  let types := retain (fun child => type_can_cast (node_kind child)) (node_children node) in
  match types with
  | [] => None
  | first :: rest =>
      match support_token FOR_KW node with
      | Some (_, (for_start, _)) => if ((node_range first).1 <? for_start)%N then head rest else Some first
      | None => Some first
      end
  end.

Inductive SelfParamKind : Type := SelfOwned | SelfRef | SelfMutRef.

Definition self_param_kind (node : Node) : SelfParamKind :=
  match support_token AMP node with
  | Some _ => match support_token MUT_KW node with Some _ => SelfMutRef | None => SelfRef end
  | None => SelfOwned
  end.

(** [Fn::param_list()?.self_param()?.kind()] *)
Definition fn_self_kind (node : Node) : option SelfParamKind :=
  params ← support_child (kind_is PARAM_LIST) node;
  self_param_kind <$> support_child (kind_is SELF_PARAM) params.

(** [ownership_root_place]: the loop follows the operand of the outermost operator. *)
Definition root_operand (expression : Node) : option (option Node) :=
  match node_kind expression with
  | REF_EXPR | METHOD_CALL_EXPR | INDEX_EXPR | PAREN_EXPR | TRY_EXPR | AWAIT_EXPR | CAST_EXPR | PREFIX_EXPR =>
      Some (expr_of expression)
  | _ => None
  end.

Fixpoint root_place_loop (fuel : nat) (expression : Node) : option Node :=
  match fuel with
  | O => None
  | S fuel =>
      match root_operand expression with
      | None => Some expression
      | Some operand => expression ← operand; root_place_loop fuel expression
      end
  end.

Definition ownership_root_place (expression : Node) : option Node :=
  root_place_loop (S (node_height expression)) expression.
End views.

(** ** Labels *)

(** The length of the whitespace character a text starts with, 0 when it starts with
    another character. *)
Definition whitespace_len (s : string) : nat :=
  match s with
  | String a s1 =>
      if is_ws1 a then 1
      else match s1 with
           | String b s2 =>
               if is_ws2 a b then 2
               else match s2 with String c _ => if is_ws3 a b c then 3 else 0 | EmptyString => 0 end
           | EmptyString => 0
           end
  | EmptyString => 0
  end.

Definition nonempty_word (word : string) : list string := if is_empty word then [] else [word].

Fixpoint split_whitespace_from (skip : nat) (word s : string) : list string :=
  match s with
  | EmptyString => nonempty_word word
  | String a rest =>
      match skip with
      | S skip => split_whitespace_from skip word rest
      | O =>
          match whitespace_len s with
          | O => split_whitespace_from 0 (word +:+ String a EmptyString) rest
          | S more => nonempty_word word ++ split_whitespace_from more EmptyString rest
          end
      end
  end.

Definition split_whitespace (s : string) : list string := split_whitespace_from 0 EmptyString s.

(** [s.chars().count()] and [s.chars().take(n).collect()] *)
Fixpoint char_count (s : string) : N :=
  match s with
  | EmptyString => 0
  | String a s => ((if is_char_start a then 1 else 0) + char_count s)%N
  end.

Fixpoint take_chars (n : N) (s : string) : string :=
  match s with
  | EmptyString => EmptyString
  | String a s =>
      if is_char_start a then
        if (n =? 0)%N then EmptyString else String a (take_chars (n - 1) s)
      else String a (take_chars n s)
  end.

Definition bounded_source_label (source : string) : string :=
  let normalized := join " " (split_whitespace source) in
  let label := take_chars 96 normalized in
  if (96 <? char_count normalized)%N then label +:+ "…" else label.

Definition reference_referent_type (type_name : string) : option string :=
  trim <$> or_else (strip_prefix "&mut " type_name) (fun _ => strip_prefix "&" type_name).

(** [to_proto::range]; [None] is a panic. *)
Definition to_proto_range (index : LineIndex) (range : N * N) : option Range :=
  start ← to_proto_position index range.1;
  end_ ← to_proto_position index range.2;
  Some (mk_range start end_).

(** A value the analyzer panics without. *)
Definition expect {A} (o : option A) : result A :=
  match o with
  | Some a => Ok a
  | None => Err "panic"
  end.

(** [Option::map] of a step that may panic. *)
Definition map_ok {A B} (f : A -> result B) (o : option A) : result (option B) :=
  match o with
  | Some a => b ← f a; Ok (Some b)
  | None => Ok None
  end.
