(* ===== verification/AnalyzerSyntaxSpec.v ===== *)
(** * rust-analyzer: syntax trees that behave

    The walk to the root of an expression ends, ranges of a tree become ordered ranges of
    the protocol, labels stay short; and trees made of tokens and nodes, with offsets
    counted from the left as [rowan] does, satisfy the laws the other files rely on. *)

From Stdlib Require Import Ascii String.
From S2P Require Import Prelude RustStr RustColl RustPath Autofix AnalyzerModel AutofixSpec PipelineSpec BridgeSpec LineIndex LineIndexSpec AnalyzerSyntax.
From S2P Require Import Protocol.
From stdpp Require Import options.

Lemma length_enumerate {A} (l : list A) : length (enumerate l) = length l.
Proof. unfold enumerate. generalize 0%N. induction l as [|x l IH]; intros n; cbn; [done|]. by rewrite IH. Qed.

(** ** Ranges *)

Lemma to_proto_range_in text range :
  valid_utf8 text = true -> range_in text range ->
  to_proto_range (line_index_new text) range = Some (lsp_range text range.1 range.2).
Proof.
  intros Hv (_ & H1 & H2). unfold to_proto_range. by rewrite !boundary_position by done.
Qed.

Lemma to_proto_range_ordered text range :
  valid_utf8 text = true -> range_in text range ->
  exists r, to_proto_range (line_index_new text) range = Some r /\ range_ordered r.
Proof.
  intros Hv Hr. rewrite to_proto_range_in by done. eexists. split; [done|]. apply lsp_range_ordered. apply Hr.
Qed.

(** ** The root of an expression *)

Section tree.
Context {Node : Type} `{SyntaxTree Node} (text : string) (root : Node) `{!SyntaxTreeLaws text root}.

Lemma support_child_Some can_cast (parent child : Node) :
  support_child can_cast parent = Some child -> child ∈ node_children parent /\ can_cast (node_kind child) = true.
Proof using Type. intros [? ?]%find_first_Some. done. Qed.

Lemma support_child_belongs can_cast (parent child : Node) :
  belongs (root:=root) parent -> support_child can_cast parent = Some child -> belongs (root:=root) child.
Proof using Type. intros Hp [Hc _]%support_child_Some. by eapply child_belongs. Qed.

Lemma ident_pats_belong (node pat : Node) : belongs (root:=root) node -> pat ∈ ident_pats node -> belongs (root:=root) pat.
Proof using Type. intros Hn [_ Hp]%elem_of_retain. by eapply descendant_belongs. Qed.

Lemma ancestors_belong offset l (a : Node) : token_ancestors root offset = Some l -> a ∈ l -> belongs (root:=root) a.
Proof using Type.
  unfold token_ancestors. intros (token & Ht & ->)%fmap_Some Ha. eapply ancestor_belongs; [|exact Ha].
  apply last_Some in Ht as [rest ->]. set_solver.
Qed.

Lemma root_operand_height (e operand : Node) : root_operand e = Some (Some operand) -> node_height operand < node_height e.
Proof using SyntaxTreeLaws0.
  intros Hr. assert (expr_of e = Some operand) as [Hc _]%support_child_Some.
  { unfold root_operand in Hr. destruct (node_kind e); congruence. }
  by eapply child_height.
Qed.

(** The walk ends before the fuel does. *)
Lemma root_place_fuel fuel (e : Node) : node_height e < fuel -> root_place_loop fuel e = ownership_root_place e.
Proof using SyntaxTreeLaws0.
  unfold ownership_root_place.
  enough (forall f g e, node_height e < f -> node_height e < g -> root_place_loop f e = root_place_loop g (e : Node)) as He
    by (intros ?; apply He; lia).
  induction f as [|f IH]; intros g e' Hf Hg; [lia|]. destruct g as [|g]; [lia|]. cbn.
  destruct (root_operand e') as [[operand|]|] eqn:E; [|done..]. cbn.
  apply root_operand_height in E. apply IH; lia.
Qed.

Lemma root_place_belongs (e place : Node) :
  belongs (root:=root) e -> ownership_root_place e = Some place ->
  belongs (root:=root) place /\ root_operand place = None.
Proof using Type.
  unfold ownership_root_place. generalize (S (node_height e)) as fuel. intros fuel. revert e.
  induction fuel as [|fuel IH]; intros e He; [done|]. cbn.
  destruct (root_operand e) as [[operand|]|] eqn:E; cbn; [|done|by intros [= <-]].
  apply IH. apply (support_child_belongs expr_can_cast e); [exact He|]. unfold root_operand in E.
  unfold expr_of in E. destruct (node_kind e); congruence.
Qed.
End tree.

(** ** Labels *)

Lemma char_count_app a b : char_count (a +:+ b) = (char_count a + char_count b)%N.
Proof.
  induction a as [|c a IH]; [done|]. change (char_count (String c a +:+ b)) with
    ((if is_char_start c then 1 else 0) + char_count (a +:+ b))%N. rewrite IH. cbn [char_count]. lia.
Qed.

Lemma take_chars_count n s : (char_count (take_chars n s) <= n)%N.
Proof.
  revert n. induction s as [|c s IH]; intros n; cbn; [lia|].
  destruct (is_char_start c) eqn:Hc; cbn; [|rewrite Hc; apply IH].
  destruct (N.eqb_spec n 0); cbn; [lia|]. rewrite Hc. pose proof (IH (n - 1)%N). lia.
Qed.

(** At most 97 characters, the dots included. *)
Lemma source_label_bounded source : (char_count (bounded_source_label source) <= 97)%N.
Proof.
  unfold bounded_source_label. pose proof (take_chars_count 96 (join " " (split_whitespace source))).
  case_match; [|lia]. rewrite char_count_app. change (char_count "…") with 1%N. lia.
Qed.

(** ** Trees of tokens and nodes *)

Inductive Green : Type :=
  | GToken (kind : SyntaxKind) (text : string)
  | GNode (kind : SyntaxKind) (children : list Green).

Definition Green_nested_ind (P : Green -> Prop) (Htoken : forall k s, P (GToken k s))
    (Hnode : forall k l, Forall P l -> P (GNode k l)) : forall g, P g :=
  fix go g :=
    match g with
    | GToken k s => Htoken k s
    | GNode k l => Hnode k l ((fix all l : Forall P l :=
        match l with
        | [] => List.Forall_nil P
        | g :: l => List.Forall_cons P g l (go g) (all l)
        end) l)
    end.

Fixpoint green_text (g : Green) : string :=
  match g with
  | GToken _ s => s
  | GNode _ l => foldr (fun g s => green_text g +:+ s) EmptyString l
  end.

Fixpoint green_height (g : Green) : nat :=
  match g with
  | GToken _ _ => 0
  | GNode _ l => S (foldr (fun g h => max (green_height g) h) 0 l)
  end.

Definition green_kind (g : Green) : SyntaxKind :=
  match g with
  | GToken k _ => k
  | GNode k _ => k
  end.

(** A tree at an offset; its elements from left to right, tokens and nodes. *)
Definition Red : Type := N * Green.

Fixpoint placed_from (offset : N) (l : list Green) : list Red :=
  match l with
  | [] => []
  | g :: l => (offset, g) :: placed_from (offset + str_len (green_text g)) l
  end.

Definition elements (n : Red) : list Red :=
  match n.2 with
  | GToken _ _ => []
  | GNode _ l => placed_from n.1 l
  end.

Definition is_token (n : Red) : bool :=
  match n.2 with
  | GToken _ _ => true
  | GNode _ _ => false
  end.

Definition red_range (n : Red) : N * N := (n.1, n.1 + str_len (green_text n.2))%N.

(** Walking down: the height bounds the recursion. *)
Fixpoint red_nodes (fuel : nat) (n : Red) : list Red :=
  match fuel with
  | O => []
  | S fuel => if is_token n then [] else n :: concat (red_nodes fuel <$> elements n)
  end.

Fixpoint red_tokens (fuel : nat) (ancestors : list Red) (n : Red) : list (Red * list Red) :=
  match fuel with
  | O => []
  | S fuel => if is_token n then [(n, ancestors)] else concat (red_tokens fuel (n :: ancestors) <$> elements n)
  end.

Definition at_offset (offset : N) (n : Red) : bool :=
  let '(start, end_) := red_range n in
  ((start <? end_) && (start <=? offset) && (offset <=? end_))%N.

Definition red_height (n : Red) : nat := green_height n.2.

#[export] Instance red_tree : SyntaxTree Red := {
  node_kind n := green_kind n.2;
  node_range := red_range;
  node_text n := green_text n.2;
  first_token_text n := default EmptyString (green_text ∘ snd <$> head (elements n));
  node_children n := retain (fun e => negb (is_token e)) (elements n);
  child_tokens n := (fun e => (green_kind e.2, red_range e)) <$> retain is_token (elements n);
  descendants n := red_nodes (S (red_height n)) n;
  tokens_at root offset :=
    (fun t => (green_kind t.1.2, t.2)) <$>
      retain (fun t => at_offset offset t.1) (red_tokens (S (red_height root)) [] root);
  node_height := red_height
}.

Lemma placed_from_green offset l e : e ∈ placed_from offset l -> e.2 ∈ l.
Proof.
  revert offset. induction l as [|g l IH]; intros offset; cbn; [set_solver|].
  intros [->|H]%elem_of_cons; [set_solver|]. apply IH in H. set_solver.
Qed.

Lemma max_height (l : list Green) g : g ∈ l -> green_height g <= foldr (fun g h => max (green_height g) h) 0 l.
Proof. induction l as [|x l IH]; [set_solver|]. intros [->|H%IH]%elem_of_cons; cbn; lia. Qed.

Lemma element_height n e : e ∈ elements n -> red_height e < red_height n.
Proof.
  destruct n as [o [k s|k l]]; cbn; [set_solver|]. intros H%placed_from_green%max_height. unfold red_height. cbn. lia.
Qed.

(** More fuel than the height changes nothing. *)
Lemma red_nodes_fuel f g n : red_height n < f -> red_height n < g -> red_nodes f n = red_nodes g n.
Proof.
  revert g n. induction f as [|f IH]; intros [|g] n Hf Hg; try lia. cbn. destruct (is_token n); [done|]. do 2 f_equal.
  apply list_fmap_ext. intros i e He%list_elem_of_lookup_2%element_height. apply IH; lia.
Qed.

Lemma red_nodes_step n e :
  is_token n = false -> e ∈ descendants n <-> e = n \/ exists c, c ∈ elements n /\ e ∈ descendants c.
Proof.
  intros Hn. cbn [descendants red_tree]. cbn [red_nodes]. rewrite Hn, elem_of_cons, list_elem_of_In, in_concat.
  apply or_iff_compat_l. split.
  - intros (l & Hl & He). apply list_elem_of_In, list_elem_of_fmap in Hl as (c & -> & Hc). exists c. split; [done|].
    change (e ∈ red_nodes (S (red_height c)) c).
    rewrite (red_nodes_fuel _ (red_height n)); [by apply list_elem_of_In|lia|by apply element_height].
  - intros (c & Hc & He). exists (red_nodes (red_height n) c). split.
    + apply list_elem_of_In, list_elem_of_fmap. by exists c.
    + apply list_elem_of_In. rewrite (red_nodes_fuel _ (S (red_height c))); [done|by apply element_height|lia].
Qed.

Lemma red_nodes_token n : is_token n = true -> descendants n = [].
Proof. intros H. cbn. by rewrite H. Qed.

Lemma descendants_trans n d e : d ∈ descendants n -> e ∈ descendants d -> e ∈ descendants n.
Proof.
  remember (red_height n) as h eqn:Hh. revert n Hh. induction (lt_wf h) as [h _ IH]. intros n -> Hd He.
  destruct (is_token n) eqn:Hn; [rewrite red_nodes_token in Hd by done; set_solver|].
  apply (red_nodes_step n d Hn) in Hd as [->|(c & Hc & Hd)]; [done|]. apply red_nodes_step; [done|]. right. exists c.
  split; [done|]. by eapply (IH _ (element_height _ _ Hc)).
Qed.

Lemma self_descendant n : is_token n = false -> n ∈ descendants n.
Proof. intros H. apply red_nodes_step; [done|by left]. Qed.

Lemma children_descend n c : c ∈ node_children n -> c ∈ descendants n.
Proof.
  intros [Ht Hc]%elem_of_retain. apply negb_true_iff in Ht.
  destruct (is_token n) eqn:Hn; [by destruct n as [? []]; cbn in *; set_solver|].
  apply red_nodes_step; [done|]. right. exists c. split; [done|]. by apply self_descendant.
Qed.

Lemma red_tokens_ancestors fuel root ancestors n t :
  (is_token n = false -> n ∈ descendants root) -> (forall a, a ∈ ancestors -> a ∈ descendants root) ->
  t ∈ red_tokens fuel ancestors n -> forall a, a ∈ t.2 -> a ∈ descendants root.
Proof.
  revert ancestors n. induction fuel as [|fuel IH]; intros ancestors n Hn Ha Ht; cbn in Ht; [set_solver|].
  destruct (is_token n) eqn:E.
  - apply list_elem_of_singleton in Ht as ->. done.
  - apply list_elem_of_In, in_concat in Ht as (l & (c & -> & Hc)%list_elem_of_In%list_elem_of_fmap & Ht%list_elem_of_In).
    eapply (IH (n :: ancestors) c); [| |exact Ht].
    + intros Hct. eapply descendants_trans; [by apply Hn|]. apply children_descend. apply elem_of_retain.
      by rewrite Hct.
    + intros a [->|H]%elem_of_cons; auto.
Qed.

(** Such a tree obeys the laws when its nodes have ranges of the text. *)
Definition red_laws (text : string) (root : Red) (Hroot : is_token root = false)
    (Hranges : Forall (fun n => range_in text (red_range n)) (descendants root)) : SyntaxTreeLaws text root.
Proof.
  refine {| belongs n := n ∈ descendants root |}.
  - by apply self_descendant.
  - intros n c Hn Hc. eapply descendants_trans; [exact Hn|]. by apply children_descend.
  - intros n d Hn Hd. by eapply descendants_trans.
  - intros offset token a Ht Ha. cbn [tokens_at red_tree] in Ht. apply list_elem_of_fmap in Ht as (t & -> & [_ Ht]%elem_of_retain).
    eapply (red_tokens_ancestors _ root [] root t); [| |exact Ht|exact Ha].
    + apply self_descendant.
    + set_solver.
  - intros n Hn. rewrite Forall_forall in Hranges. by apply Hranges.
  - intros n c [_ Hc]%elem_of_retain. by apply element_height.
Defined.

(** ** A function with a borrow *)

Definition other_token (s : string) : Green := GToken OTHER_KIND s.
Definition space : Green := GToken WHITESPACE " ".
Definition path_expr (name : string) : Green := GNode PATH_EXPR [other_token name].
Definition literal (text : string) : Green := GNode LITERAL [other_token text].
Definition named_node (name : string) : Green := GNode NAME [other_token name].

Definition method_call (receiver : Green) (name : string) (argument : Green) : Green :=
  GNode METHOD_CALL_EXPR
    [receiver; other_token "."; other_token name; GNode ARG_LIST [other_token "("; argument; other_token ")"]].

Definition borrow_statement : Green :=
  GNode LET_STMT
    [other_token "let"; space; GNode IDENT_PAT [named_node "r"]; space; GToken EQ "="; space;
     GNode REF_EXPR
       [GToken AMP "&"; GNode INDEX_EXPR [path_expr "v"; other_token "["; literal "0"; other_token "]"]];
     other_token ";"].

Definition push_statement : Green := GNode EXPR_STMT [method_call (path_expr "v") "push" (literal "1"); other_token ";"].

Definition function_of (statements : list Green) : Green :=
  GNode OTHER_KIND
    [GNode FN
       [other_token "fn"; space; named_node "f"; GNode PARAM_LIST [other_token "("; other_token ")"]; space;
        GNode BLOCK_EXPR ([other_token "{"] ++ statements ++ [other_token "}"])]].

Definition borrow_tree : Red := (0%N, function_of [borrow_statement; push_statement]).
Definition borrow_text : string := green_text borrow_tree.2.

Lemma borrow_text_eq : borrow_text = "fn f() {let r = &v[0];v.push(1);}".
Proof. reflexivity. Qed.

(** The ranges of a concrete tree, checked one by one. *)
Ltac check_ranges :=
  repeat first [apply Forall_nil_2 | apply Forall_cons_2];
  (split; [vm_compute; congruence | split; vm_compute; reflexivity]).

Definition borrow_tree_laws : SyntaxTreeLaws borrow_text borrow_tree.
Proof. apply red_laws; [reflexivity|]. unfold descendants, red_tree, borrow_tree. cbn -[red_range]. check_ranges. Defined.
