(* ===== verification/AnalyzerConflict.v ===== *)
(** * rust-analyzer: explaining a diagnostic from the syntax around it

    [handlers/request.rs] adds three explanations to an answer: the graph of a borrow
    conflict (who borrows what, and which access is refused), the access a mutation
    needs and does not have, and where in the file the cursor is.  They read the file's
    syntax tree ([AnalyzerSyntax]); a step that panics is an error here. *)

From Stdlib Require Import Ascii String.
From S2P Require Import Prelude RustStr RustColl RustPath MemoryGraph Autofix AnalyzerData AnalyzerModel AnalyzerState AnalyzerProblems LineIndex AnalyzerSyntax.
From S2P Require Import Protocol.
From stdpp Require Import options.

(** [iter().max_by_key(key)]: the last of the elements with the greatest key. *)
Definition max_by {A} (leb : A -> A -> bool) (l : list A) : option A :=
  match l with
  | [] => None
  | x :: l => Some (fold_left (fun best y => if leb best y then y else best) l x)
  end.

(** A test of a label by the words in it, in lower case. *)
Definition says (words : list string) (message : string) : bool :=
  forallb (fun word => contains word (to_ascii_lowercase message)) words.

Record OwnershipSourcePlace : Type := mk_place {
  place_label : string;
  place_range : Range
}.

Record OwnershipBindingOwner : Type := mk_binding_owner {
  owner_binding_range : Range;
  owner_place_of : OwnershipSourcePlace
}.

Section tree.
Context {Node : Type} `{SyntaxTree Node} (file : Node) (index : LineIndex).

Definition source_place (expression : Node) : result OwnershipSourcePlace :=
  range ← expect (to_proto_range index (node_range expression));
  Ok (mk_place (bounded_source_label (node_text expression)) range).

(** The [let] statement a range starts in: the first name it binds, and its initializer. *)
Definition let_at (range : Range) : option (string * Node * option Node) :=
  text_range ← from_proto_text_range index range;
  ancestors ← token_ancestors file text_range.1;
  let_statement ← find_first (has_kind LET_STMT) ancestors;
  pattern ← pat_of let_statement;
  identifier ← head (ident_pats pattern);
  name ← name_of identifier;
  Some (first_token_text name, identifier, expr_of let_statement).

Definition ownership_binding_at_range (range : Range) : result (option (string * Range * option Node)) :=
  map_ok (fun '(name, identifier, initializer) =>
    range ← expect (to_proto_range index (node_range identifier));
    Ok (name, range, initializer)) (let_at range).

(** [identifier.name().is_some_and(|name| name.text() == binding_name)] *)
Definition has_name (binding_name : string) (identifier : Node) : bool :=
  match name_of identifier with
  | Some name => first_token_text name =s binding_name
  | None => false
  end.

Definition binds_name (binding_name : string) (statement : Node) : bool :=
  match pat_of statement with
  | Some pattern => existsb (has_name binding_name) (ident_pats pattern)
  | None => false
  end.

(** The last declaration of a name before an offset in the function around it, among
    the first 2048 [let] statements of the function: its pattern and its root place. *)
Definition prior_declaration (before : N) (binding_name : string) : option (Node * Node) :=
  ancestors ← token_ancestors file before;
  scope ← find_first (fun node => has_kind FN node || has_kind CLOSURE_EXPR node) ancestors;
  declaration ←
    max_by (on (fun statement => (node_range statement).1) N.leb)
      (retain (binds_name binding_name)
         (retain (fun statement => ((node_range statement).1 <? before)%N)
            (take_N 2048 (retain (has_kind LET_STMT) (descendants scope)))));
  pattern ← pat_of declaration;
  identifier ← find_first (has_name binding_name) (ident_pats pattern);
  initializer ← expr_of declaration;
  expression ← ownership_root_place initializer;
  Some (identifier, expression).

Definition ownership_prior_binding_owner (before : Range) (binding_name : string) :
    result (option OwnershipBindingOwner) :=
  map_ok (fun '(identifier, expression) =>
    range ← expect (to_proto_range index (node_range identifier));
    owner ← source_place expression;
    Ok (mk_binding_owner range owner))
    (before ← from_proto_offset index (range_start before); prior_declaration before binding_name).

(** ** The graph of a conflict *)

Definition borrow_origin (diagnostic : OwnershipDiagnostic) : option OwnershipDiagnosticRelated :=
  or_else
    (find_first (fun related =>
       let message := odrelated_message related in
       says ["borrow"] message && negb (says ["later"] message) && (says ["here"] message || says ["occurs"] message))
       (odiag_related diagnostic))
    (fun _ => head (odiag_related diagnostic)).

Definition last_use (diagnostic : OwnershipDiagnostic) : option OwnershipDiagnosticRelated :=
  find_first (fun related => says ["borrow"; "later"; "used"] (odrelated_message related)) (odiag_related diagnostic).

Definition origin_range (diagnostic : OwnershipDiagnostic) : Range :=
  default (odiag_range diagnostic) (odrelated_range <$> borrow_origin diagnostic).

Definition origin_is_mutable (diagnostic : OwnershipDiagnostic) : bool :=
  match borrow_origin diagnostic with
  | Some related =>
      says ["mutable borrow"] (odrelated_message related) && negb (says ["immutable borrow"] (odrelated_message related))
  | None => false
  end.

(** The requested access, the operation, and the state of the value meanwhile. *)
Definition conflict_access (code : string) : option (string * string * string) :=
  if code =s "E0499" then
    Some ("second mutable borrow", "create another exclusive borrow of", "alive · exclusive access blocked")
  else if code =s "E0502" then Some ("mutable borrow", "borrow mutably from", "alive · write access blocked")
  else if code =s "E0505" then Some ("move", "move ownership out of", "alive · move blocked")
  else if code =s "E0506" then Some ("replacement", "replace", "alive · replacement blocked")
  else None.

(** The reference a place is reached through: [r] in [*r], [*r.field] and [*r[i]]. *)
Definition reference_binding (attempted_place : string) : option string :=
  place ← strip_prefix "*" attempted_place;
  let name := trim (first_segment (one_of_chars ".[") place) in
  if is_empty name then None else Some name.

Section graph.
Context (tutorial : OwnershipTutorialModel) (selected_body_id : option N) (diagnostic : OwnershipDiagnostic).

Definition attempted_place : string := default "value" (ownership_name_from_message (odiag_message diagnostic)).

(** Of the bindings of a name, the one of the selected body nearest to the borrow. *)
Definition binding_distance (binding : OwnershipTutorialBinding) : bool * (N * N) :=
  (match selected_body_id with
   | Some body_id => negb (tbinding_body_id binding =? body_id)%N
   | None => false
   end,
   (abs_diff (position_line (range_start (tbinding_range binding))) (position_line (range_start (origin_range diagnostic))),
    abs_diff (position_character (range_start (tbinding_range binding)))
      (position_character (range_start (origin_range diagnostic))))).

Definition binding_for_name (name : string) : option OwnershipTutorialBinding :=
  min_by (on binding_distance (lex_leb bool_cmp (lex_leb N.compare N.leb)))
    (retain (fun binding => tbinding_name binding =s name) (tmodel_bindings tutorial)).

Definition binding_type (name : string) : option string := tbinding_type_name <$> binding_for_name name.

(** What the graph is drawn from: the borrower's binding, the place it borrows from, and
    the declaration of the reference the refused access goes through. *)
Record ConflictParts : Type := mk_parts {
  parts_origin : option (string * Range * option Node);
  parts_origin_place : option OwnershipSourcePlace;
  parts_reference_owner : option OwnershipBindingOwner
}.

Definition conflict_parts : result ConflictParts :=
  origin ← ownership_binding_at_range (origin_range diagnostic);
  origin_place ← map_ok source_place (initializer ← (origin ≫= snd); ownership_root_place initializer);
  reference_owner ←
    match reference_binding attempted_place with
    | Some binding => ownership_prior_binding_owner (origin_range diagnostic) binding
    | None => Ok None
    end;
  Ok (mk_parts origin origin_place reference_owner).

Section drawn.
Context (parts : ConflictParts).

Definition borrower_name : string := default "temporary reference" ((fun o => o.1.1) <$> parts_origin parts).

Definition borrowed_label : string :=
  match parts_origin_place parts with
  | Some place =>
      if negb (starts_with "*" attempted_place)
         && (ownership_root_name (place_label place) =s ownership_root_name attempted_place)
      then place_label place else attempted_place
  | None => attempted_place
  end.

Definition borrowed_range : Range := default (origin_range diagnostic) (place_range <$> parts_origin_place parts).

Definition owner_place : option OwnershipSourcePlace :=
  or_else (owner_place_of <$> parts_reference_owner parts)
    (fun _ =>
       let root := ownership_root_name borrowed_label in
       if negb (root =s borrowed_label) then Some (mk_place root borrowed_range) else None).

(** The reference, when it is not the borrower itself. *)
Definition shown_reference : option string :=
  binding ← reference_binding attempted_place;
  if negb (binding =s borrower_name) then Some binding else None.

Definition shown_owner : option OwnershipSourcePlace :=
  owner ← owner_place;
  if negb (place_label owner =s borrowed_label) then Some owner else None.

Definition reference_type : option string := reference_binding attempted_place ≫= binding_type.

Definition conflict_graph_nodes : list OwnershipConflictNode :=
  [mk_cnode "borrower" borrower_name (binding_type borrower_name) "borrower_reference"
     "stack reference binding; it does not own the referenced value"
     (or_else ((fun o => o.1.2) <$> parts_origin parts) (fun _ => Some (origin_range diagnostic)))]
  ++ match shown_reference with
     | Some binding =>
         [mk_cnode "reference" binding reference_type "reference_handle"
            "stack reference handle pointing at the borrowed value"
            (or_else (owner_binding_range <$> parts_reference_owner parts)
               (fun _ => tbinding_range <$> binding_for_name binding))]
     | None => []
     end
  ++ [mk_cnode "referent" borrowed_label (reference_type ≫= reference_referent_type) "borrowed_value"
        "live borrowed value; its owner and storage remain intact" (Some borrowed_range)]
  ++ match shown_owner with
     | Some owner =>
         [mk_cnode "owner" (place_label owner) (binding_type (ownership_root_name (place_label owner))) "owner_path"
            "owner or container path that keeps the borrowed storage alive" (Some (place_range owner))]
     | None => []
     end.

Definition conflict_graph_edges : list OwnershipConflictEdge :=
  [mk_cedge "borrower" "referent"
     (if origin_is_mutable diagnostic then "borrows_mutable" else "borrows_shared")
     (if origin_is_mutable diagnostic then "holds a live exclusive borrow of" else "holds a live shared view into")
     "compiler_diagnostic"]
  ++ match shown_reference with
     | Some _ => [mk_cedge "reference" "referent" "points_to" "is the reference handle for" "compiler_type_and_source"]
     | None => []
     end
  ++ match shown_owner with
     | Some _ => [mk_cedge "referent" "owner" "stored_in" "is reached through storage owned by" "source_semantics"]
     | None => []
     end.

Definition has_node (id : string) : bool := existsb (fun node => cnode_id node =s id) conflict_graph_nodes.

Definition node_states (borrower_state referent_state owner_state : string) : list OwnershipConflictNodeState :=
  [mk_cstate "borrower" borrower_state "The reference is alive and usable.";
   mk_cstate "referent" referent_state "The value is alive; only incompatible access is restricted."]
  ++ (if has_node "reference" then
        [mk_cstate "reference" "alive · reference handle valid"
           "The reference variable and the value it points to are different places."]
      else [])
  ++ (if has_node "owner" then
        [mk_cstate "owner" owner_state
           "The owner remains alive while access to the overlapping path is restricted."]
      else []).

Definition conflict_graph_snapshots (requested_access operation blocked_state : string) : list OwnershipConflictSnapshot :=
  [mk_csnapshot "borrow_created" ("`" +:+ borrower_name +:+ "` starts borrowing")
     ("`" +:+ borrower_name +:+ "` now points into `" +:+ borrowed_label +:+
      "`. The value remains alive, but incompatible writes or moves must wait.")
     (origin_range diagnostic)
     (node_states
        (if origin_is_mutable diagnostic then "alive · holds exclusive borrow" else "alive · holds shared borrow")
        blocked_state "alive · overlapping path restricted");
   mk_csnapshot "operation_rejected" ("Rust rejects the " +:+ requested_access)
     ("This line tries to " +:+ operation +:+ " `" +:+ attempted_place +:+ "`, but `" +:+ borrower_name +:+
      "` still needs its view of the existing value.")
     (odiag_range diagnostic)
     (node_states "alive · still needed later" blocked_state "alive · overlapping path restricted");
   mk_csnapshot "borrow_ended" ("`" +:+ borrower_name +:+ "` reaches its last use")
     (match last_use diagnostic with
      | Some _ =>
          "After this use, the borrow held by `" +:+ borrower_name +:+ "` ends and `" +:+ borrowed_label +:+
          "` can grant the previously blocked access again."
      | None =>
          "The compiler did not provide a source-level final-use span; the borrow ends at its compiler-calculated endpoint."
      end)
     (default (odiag_range diagnostic) (odrelated_range <$> last_use diagnostic))
     (node_states "last use · borrow ends afterward" "alive · blocked access available afterward"
        "alive · normal access available afterward")].

Definition drawn_graph (requested_access operation blocked_state : string) : OwnershipConflictGraph :=
  mk_conflict
    ("Cannot " +:+ operation +:+ " `" +:+ attempted_place +:+ "`: `" +:+ borrower_name +:+ "` still borrows from it")
    ("`" +:+ borrower_name +:+ "` is the borrower; `" +:+ borrowed_label +:+
     "` is the borrowed value. Borrowing does not make either one dead.")
    requested_access conflict_graph_nodes conflict_graph_edges
    (conflict_graph_snapshots requested_access operation blocked_state)
    (match parts_origin parts with
     | Some _ => "compiler_diagnostic_and_source_semantics"
     | None => "compiler_diagnostic"
     end)
    false.
End drawn.

Definition ownership_conflict_graph : result (option OwnershipConflictGraph) :=
  if negb (one_of (odiag_code diagnostic) ["E0499"; "E0502"; "E0505"; "E0506"]) then Ok None
  else
    parts ← conflict_parts;
    '(requested_access, operation, blocked_state) ← expect (conflict_access (odiag_code diagnostic));
    Ok (Some (drawn_graph parts requested_access operation blocked_state)).
End graph.
End tree.
