(* ===== verification/AnalyzerConflictSpec.v ===== *)
(** * rust-analyzer: the graph of a borrow conflict is sound

    For the four diagnostics about conflicting borrows the analyzer always draws a graph,
    without panicking; the editor accepts it, its edges connect its nodes, and every
    snapshot says what state each node is in. *)

From Stdlib Require Import Ascii String.
From S2P Require Import Prelude RustStr RustColl RustPath MemoryGraph RepairPlan Autofix AnalyzerData AnalyzerModel AnalyzerState AnalyzerProblems AnalyzerProblemsSpec PipelineSpec LineIndex LineIndexSpec AnalyzerSyntax AnalyzerSyntaxSpec AnalyzerConflict.
From S2P Require Import Protocol Bridge BridgeSpec.
From stdpp Require Import options.

Definition is_conflict_code (code : string) : bool := one_of code ["E0499"; "E0502"; "E0505"; "E0506"].

Definition diagnostic_ordered (diagnostic : OwnershipDiagnostic) : Prop :=
  range_ordered (odiag_range diagnostic) /\
  Forall (fun related => range_ordered (odrelated_range related)) (odiag_related diagnostic).

Definition bindings_ordered (tutorial : OwnershipTutorialModel) : Prop :=
  Forall (fun binding => range_ordered (tbinding_range binding)) (tmodel_bindings tutorial).

Lemma conflict_access_code code : is_conflict_code code = true -> is_Some (conflict_access code).
Proof.
  unfold is_conflict_code, one_of, conflict_access. cbn.
  destruct (code =s "E0499"), (code =s "E0502"), (code =s "E0505"), (code =s "E0506"); cbn; by eauto.
Qed.

Lemma min_by_elem {A} (leb : A -> A -> bool) l x : min_by leb l = Some x -> x ∈ l.
Proof.
  destruct l as [|y l]; cbn; [done|]. intros [= <-]. revert y.
  induction l as [|z l IH]; intros y; cbn; [set_solver|]. case_match; set_solver.
Qed.

Lemma max_by_elem {A} (leb : A -> A -> bool) l x : max_by leb l = Some x -> x ∈ l.
Proof.
  destruct l as [|y l]; cbn; [done|]. intros [= <-]. revert y.
  induction l as [|z l IH]; intros y; cbn; [set_solver|]. case_match; set_solver.
Qed.

Section sound.
Context {Node : Type} `{SyntaxTree Node} (text : string) (root : Node) `{!SyntaxTreeLaws text root}.
Context (utf8 : valid_utf8 text = true).

Lemma inside_range (n : Node) :
  belongs (root:=root) n -> exists r, expect (to_proto_range (line_index_new text) (node_range n)) = Ok r /\ range_ordered r.
Proof using utf8 SyntaxTreeLaws0.
  intros Hn%belongs_range. destruct (to_proto_range_ordered text _ utf8 Hn) as (r & -> & Hr). by exists r.
Qed.

Lemma source_place_ok (n : Node) : belongs (root:=root) n -> exists p, source_place (line_index_new text) n = Ok p /\ range_ordered (place_range p).
Proof using utf8 SyntaxTreeLaws0.
  intros Hn. unfold source_place. destruct (inside_range n Hn) as (r & -> & Hr). cbn. by eexists.
Qed.

Lemma let_at_inside range name (identifier : Node) initializer :
  let_at root (line_index_new text) range = Some (name, identifier, initializer) ->
  belongs (root:=root) identifier /\ forall e, initializer = Some e -> belongs (root:=root) e.
Proof using SyntaxTreeLaws0.
  unfold let_at. intros (r & _ & (l & Hl & (s & Hs & (p & Hp & (i & Hi & (n & _ & [= _ <- <-])%bind_Some)%bind_Some)%bind_Some)%bind_Some)%bind_Some)%bind_Some.
  apply find_first_Some in Hs as [_ Hs]. pose proof (ancestors_belong text root _ _ s Hl Hs) as Hin. split.
  - eapply ident_pats_belong; [|apply head_Some_elem_of; exact Hi]. by eapply support_child_belongs.
  - intros e He. by eapply support_child_belongs.
Qed.

Lemma binding_at_range_ok range :
  exists o, ownership_binding_at_range root (line_index_new text) range = Ok o /\
    forall name r initializer, o = Some (name, r, initializer) ->
      range_ordered r /\ forall e, initializer = Some e -> belongs (root:=root) e.
Proof using utf8 SyntaxTreeLaws0.
  unfold ownership_binding_at_range. destruct (let_at root (line_index_new text) range) as [[[name identifier] initializer]|] eqn:E.
  - apply let_at_inside in E as [Hi He]. cbn. destruct (inside_range identifier Hi) as (r & -> & Hr). cbn.
    eexists. split; [done|]. intros ??? [= <- <- <-]. done.
  - cbn. by eexists.
Qed.

Lemma prior_declaration_inside before name (identifier expression : Node) :
  prior_declaration root before name = Some (identifier, expression) -> belongs (root:=root) identifier /\ belongs (root:=root) expression.
Proof using SyntaxTreeLaws0.
  unfold prior_declaration. intros (l & Hl & (scope & Hs & (d & Hd & (p & Hp & (i & Hi & (e & He & (x & Hx & [= <- <-])%bind_Some)%bind_Some)%bind_Some)%bind_Some)%bind_Some)%bind_Some)%bind_Some.
  apply find_first_Some in Hs as [_ Hs]. pose proof (ancestors_belong text root _ _ _ Hl Hs) as Hscope.
  apply max_by_elem in Hd. apply elem_of_retain in Hd as [_ Hd]. apply elem_of_retain in Hd as [_ Hd].
  eapply elem_of_sublist in Hd; [|apply take_N_sublist]. apply elem_of_retain in Hd as [_ Hd].
  assert (belongs (root:=root) d) as Hin by by eapply descendant_belongs. split.
  - apply find_first_Some in Hi as [_ Hi]. eapply ident_pats_belong; [|exact Hi]. by eapply support_child_belongs.
  - eapply root_place_belongs; [|exact Hx]. by eapply support_child_belongs.
Qed.

Lemma prior_owner_ok before name :
  exists o, ownership_prior_binding_owner root (line_index_new text) before name = Ok o /\
    forall owner, o = Some owner ->
      range_ordered (owner_binding_range owner) /\ range_ordered (place_range (owner_place_of owner)).
Proof using utf8 SyntaxTreeLaws0.
  unfold ownership_prior_binding_owner.
  destruct (from_proto_offset (line_index_new text) (range_start before)) as [offset|]; cbn; [|by eexists].
  destruct (prior_declaration root offset name) as [[identifier expression]|] eqn:E; cbn; [|by eexists].
  apply prior_declaration_inside in E as [Hi He]. destruct (inside_range _ Hi) as (r & -> & Hr). cbn.
  destruct (source_place_ok _ He) as (p & -> & Hp). cbn. eexists. split; [done|]. by intros ? [= <-].
Qed.

Section drawn.
Context (tutorial : OwnershipTutorialModel) (body : option N) (diagnostic : OwnershipDiagnostic).
Context (ordered : diagnostic_ordered diagnostic) (bindings : bindings_ordered tutorial).

Lemma origin_ordered : range_ordered (origin_range diagnostic).
Proof using ordered.
  destruct ordered as [Hd Hr]. unfold origin_range, borrow_origin. rewrite Forall_forall in Hr.
  destruct (find_first _ _) as [r|] eqn:E; cbn; [apply find_first_Some in E as [_ E]; by apply Hr|].
  destruct (odiag_related diagnostic) as [|r l]; cbn; [done|]. apply Hr, list_elem_of_here.
Qed.

Lemma last_use_ordered : range_ordered (default (odiag_range diagnostic) (odrelated_range <$> last_use diagnostic)).
Proof using ordered.
  destruct ordered as [Hd Hr]. rewrite Forall_forall in Hr. unfold last_use.
  destruct (find_first _ _) as [r|] eqn:E; cbn; [apply find_first_Some in E as [_ E]; by apply Hr|done].
Qed.

Record parts_ordered (parts : ConflictParts (Node:=Node)) : Prop := {
  parts_origin_ok : forall o, parts_origin parts = Some o -> range_ordered o.1.2;
  parts_place_ok : forall p, parts_origin_place parts = Some p -> range_ordered (place_range p);
  parts_owner_ok : forall o, parts_reference_owner parts = Some o ->
    range_ordered (owner_binding_range o) /\ range_ordered (place_range (owner_place_of o))
}.

Lemma conflict_parts_ok : exists parts, conflict_parts root (line_index_new text) diagnostic = Ok parts /\ parts_ordered parts.
Proof using utf8 SyntaxTreeLaws0.
  unfold conflict_parts. destruct (binding_at_range_ok (origin_range diagnostic)) as (o & -> & Ho). cbn [mbind result_bind].
  assert (exists p, map_ok (source_place (line_index_new text)) (initializer ← (o ≫= snd); ownership_root_place initializer) = Ok p /\
    forall q, p = Some q -> range_ordered (place_range q)) as (p & -> & Hp).
  { destruct o as [[[name r] [e|]]|]; cbn [mbind option_bind snd map_ok]; [|by eexists..]. destruct (Ho _ _ _ eq_refl) as [_ He].
    destruct (ownership_root_place e) as [place|] eqn:E; cbn [mbind option_bind map_ok]; [|by eexists].
    destruct (root_place_belongs text root e place (He e eq_refl) E) as [Hin _].
    destruct (source_place_ok place Hin) as (q & -> & Hq). cbn. eexists. split; [done|]. by intros ? [= <-]. }
  cbn [mbind result_bind].
  assert (exists w, match reference_binding (attempted_place diagnostic) with
    | Some binding => ownership_prior_binding_owner root (line_index_new text) (origin_range diagnostic) binding
    | None => Ok None end = Ok w /\ forall owner, w = Some owner ->
      range_ordered (owner_binding_range owner) /\ range_ordered (place_range (owner_place_of owner))) as (w & -> & Hw).
  { destruct (reference_binding _); [apply prior_owner_ok|by eexists]. }
  cbn [mbind result_bind]. eexists. split; [done|]. split; cbn; [|done..].
  intros [[name r] i] ->. by destruct (Ho _ _ _ eq_refl).
Qed.

Section nodes.
Context (parts : ConflictParts (Node:=Node)) (parts_ok : parts_ordered parts).

Lemma borrowed_ordered : range_ordered (borrowed_range diagnostic parts).
Proof using parts_ok ordered.
  unfold borrowed_range. destruct (parts_origin_place parts) as [p|] eqn:E; cbn; [by eapply parts_place_ok|apply origin_ordered].
Qed.

Lemma conflict_nodes_ordered :
  Forall (fun n => optional range_ordered (cnode_range n)) (conflict_graph_nodes tutorial body diagnostic parts).
Proof using parts_ok ordered bindings.
  pose proof origin_ordered as Ho. pose proof borrowed_ordered as Hb. unfold conflict_graph_nodes.
  repeat apply Forall_app_2; repeat (case_match; try apply Forall_nil_2); apply Forall_singleton; cbn; intros r Hr.
  - destruct (parts_origin parts) as [o|] eqn:E; cbn in Hr; injection Hr as <-; [by eapply parts_origin_ok|done].
  - destruct (parts_reference_owner parts) as [w|] eqn:E; cbn in Hr.
    + injection Hr as <-. by eapply parts_owner_ok.
    + apply fmap_Some in Hr as (b & Hb' & ->). apply min_by_elem in Hb'. apply elem_of_retain in Hb' as [_ Hb'].
      unfold bindings_ordered in bindings. rewrite Forall_forall in bindings. by apply bindings.
  - by injection Hr as <-.
  - injection Hr as <-. match goal with E : shown_owner _ _ = Some _ |- _ => unfold shown_owner, owner_place in E;
      apply bind_Some in E as (w & Hw & E) end. case_match; [|done]. simplify_eq.
    destruct (parts_reference_owner parts) as [v|] eqn:E; cbn in Hw; [injection Hw as <-; by eapply parts_owner_ok|].
    case_match; [|done]. by injection Hw as <-.
Qed.

(** The nodes there are. *)
Lemma conflict_node_ids :
  cnode_id <$> conflict_graph_nodes tutorial body diagnostic parts =
  ["borrower"] ++ (if is_some (shown_reference diagnostic parts) then ["reference"] else []) ++ ["referent"]
  ++ (if is_some (shown_owner diagnostic parts) then ["owner"] else []).
Proof using Type.
  unfold conflict_graph_nodes. rewrite !fmap_app. by destruct (shown_reference _ _), (shown_owner _ _).
Qed.

Lemma has_node_spec id :
  has_node tutorial body diagnostic parts id = true <->
  id ∈ cnode_id <$> conflict_graph_nodes tutorial body diagnostic parts.
Proof using Type.
  unfold has_node. rewrite existsb_exists, list_elem_of_fmap. split.
  - intros (n & Hn & He%String.eqb_eq). exists n. split; [done|]. by apply list_elem_of_In.
  - intros (n & -> & Hn). exists n. split; [by apply list_elem_of_In|apply String.eqb_refl].
Qed.

(** Every snapshot has a state for each node, and for nothing else. *)
Lemma node_states_ids a b c :
  cstate_node_id <$> node_states tutorial body diagnostic parts a b c ≡ₚ
  cnode_id <$> conflict_graph_nodes tutorial body diagnostic parts.
Proof using Type.
  clear parts_ok ordered bindings utf8. unfold node_states. rewrite !fmap_app.
  assert (has_node tutorial body diagnostic parts "reference" = if is_some (shown_reference diagnostic parts) then true else false) as ->.
  { apply eq_iff_eq_true. rewrite has_node_spec, conflict_node_ids.
    destruct (shown_reference _ _), (shown_owner _ _); cbn; set_solver. }
  assert (has_node tutorial body diagnostic parts "owner" = if is_some (shown_owner diagnostic parts) then true else false) as ->.
  { apply eq_iff_eq_true. rewrite has_node_spec, conflict_node_ids.
    destruct (shown_reference _ _), (shown_owner _ _); cbn; set_solver. }
  rewrite conflict_node_ids. destruct (shown_reference _ _), (shown_owner _ _); cbn; apply perm_skip; try done.
  all: apply perm_swap.
Qed.

Lemma conflict_edges_connect :
  Forall (fun e => cedge_from e ∈ cnode_id <$> conflict_graph_nodes tutorial body diagnostic parts /\
                   cedge_to e ∈ cnode_id <$> conflict_graph_nodes tutorial body diagnostic parts)
    (conflict_graph_edges diagnostic parts).
Proof using Type.
  clear parts_ok ordered bindings utf8. rewrite conflict_node_ids. unfold conflict_graph_edges.
  destruct (shown_reference _ _), (shown_owner _ _); repeat apply Forall_cons_2; try apply Forall_nil_2; cbn; set_solver.
Qed.

Lemma drawn_well_formed access operation blocked :
  well_formed_conflict (drawn_graph tutorial body diagnostic parts access operation blocked).
Proof using parts_ok ordered bindings.
  clear utf8. assert (bounded (conflict_graph_nodes tutorial body diagnostic parts) 4) as Hn.
  { unfold bounded, len. rewrite <-(length_fmap cnode_id), conflict_node_ids.
    destruct (shown_reference _ _), (shown_owner _ _); cbn; lia. }
  split; cbn [drawn_graph conflict_nodes conflict_edges conflict_snapshots].
  - unfold bounded in *. lia.
  - unfold bounded, len, conflict_graph_edges. destruct (shown_reference _ _), (shown_owner _ _); cbn; lia.
  - unfold bounded, len. cbn. lia.
  - rewrite conflict_node_ids. split.
    + destruct (shown_reference _ _), (shown_owner _ _); apply (bool_decide_unpack _); vm_compute; exact I.
    + destruct (shown_reference _ _), (shown_owner _ _); cbn; set_solver.
  - apply conflict_nodes_ordered.
  - assert (forall a b c, bounded (node_states tutorial body diagnostic parts a b c) 64) as Hs.
    { intros a b c. unfold bounded, len. rewrite <-(length_fmap cstate_node_id), node_states_ids, length_fmap.
      unfold bounded, len in Hn. lia. }
    repeat apply Forall_cons_2; try apply Forall_nil_2; cbn; (split; [|apply Hs]).
    + apply origin_ordered.
    + apply ordered.
    + apply last_use_ordered.
Qed.
End nodes.
End drawn.
End sound.

(** The part of the next theorem about the editor. *)
Lemma conflict_graph_ok {Node} `{SyntaxTree Node} text (root : Node) `{!SyntaxTreeLaws text root}
    tutorial body diagnostic :
  valid_utf8 text = true -> diagnostic_ordered diagnostic -> bindings_ordered tutorial ->
  exists g, ownership_conflict_graph root (line_index_new text) tutorial body diagnostic = Ok g /\
    optional well_formed_conflict g.
Proof.
  intros Hv Ho Hb. unfold ownership_conflict_graph. fold (is_conflict_code (odiag_code diagnostic)).
  destruct (is_conflict_code (odiag_code diagnostic)) eqn:Hc; [|by exists None]. cbn [negb].
  destruct (conflict_parts_ok text root Hv diagnostic) as (parts & -> & Hp). cbn [mbind result_bind].
  destruct (conflict_access_code _ Hc) as [[[access operation] blocked] ->]. cbn.
  eexists. split; [done|]. intros ? [= <-]. by apply drawn_well_formed.
Qed.

(** C26: For a diagnostic about conflicting borrows the analyzer draws a graph, for any
    other none; it never panics.  The editor accepts the graph, the edges connect nodes
    of it, and each of its three snapshots gives the state of exactly its nodes. *)
Theorem conflict_graph_sound {Node} `{SyntaxTree Node} text (root : Node) `{!SyntaxTreeLaws text root}
    tutorial body diagnostic :
  valid_utf8 text = true -> diagnostic_ordered diagnostic -> bindings_ordered tutorial ->
  if is_conflict_code (odiag_code diagnostic) then
    exists g, ownership_conflict_graph root (line_index_new text) tutorial body diagnostic = Ok (Some g) /\
      well_formed_conflict g /\
      Forall (fun e => cedge_from e ∈ cnode_id <$> conflict_nodes g /\ cedge_to e ∈ cnode_id <$> conflict_nodes g)
        (conflict_edges g) /\
      (csnapshot_phase <$> conflict_snapshots g) = ["borrow_created"; "operation_rejected"; "borrow_ended"] /\
      Forall (fun s => cstate_node_id <$> csnapshot_states s ≡ₚ cnode_id <$> conflict_nodes g) (conflict_snapshots g)
  else ownership_conflict_graph root (line_index_new text) tutorial body diagnostic = Ok None.
Proof.
  intros Hv Ho Hb. unfold ownership_conflict_graph. fold (is_conflict_code (odiag_code diagnostic)).
  destruct (is_conflict_code (odiag_code diagnostic)) eqn:Hc; [|done]. cbn [negb].
  destruct (conflict_parts_ok text root Hv diagnostic) as (parts & -> & Hp). cbn [mbind result_bind].
  destruct (conflict_access_code _ Hc) as [[[access operation] blocked] ->]. cbn.
  eexists. split; [done|]. split; [by apply drawn_well_formed|]. split; [apply conflict_edges_connect|].
  split; [done|]. repeat apply Forall_cons_2; try apply Forall_nil_2; apply node_states_ids.
Qed.

(** ** A conflict *)

Definition borrow_conflict : OwnershipDiagnostic :=
  mk_odiag "E0502" "cannot borrow `v` as mutable because it is also borrowed as immutable" (at_ 0 22 23)
    [mk_odrelated "immutable borrow occurs here" (at_ 0 16 17)].

Lemma borrow_conflict_ordered : diagnostic_ordered borrow_conflict.
Proof. split; [|constructor; [|constructor]]; right; split; cbn; lia. Qed.

(** [r] borrows from [v]. *)
Lemma borrow_conflict_nodes :
  (fun g => (fun n => (cnode_id n, cnode_label n)) <$> conflict_nodes g) <$>
    match ownership_conflict_graph borrow_tree (line_index_new borrow_text) tmodel_default None borrow_conflict with
    | Ok g => g
    | Err _ => None
    end = Some [("borrower", "r"); ("referent", "v")].
Proof. vm_compute. reflexivity. Qed.

Lemma conflict_graph_sound_witness :
  exists g, ownership_conflict_graph borrow_tree (line_index_new borrow_text) tmodel_default None borrow_conflict =
    Ok (Some g) /\ well_formed_conflict g.
Proof.
  assert (H : exists g, ownership_conflict_graph borrow_tree (line_index_new borrow_text) tmodel_default None
      borrow_conflict = Ok (Some g) /\ well_formed_conflict g /\
      Forall (fun e => cedge_from e ∈ cnode_id <$> conflict_nodes g /\ cedge_to e ∈ cnode_id <$> conflict_nodes g)
        (conflict_edges g) /\
      (csnapshot_phase <$> conflict_snapshots g) = ["borrow_created"; "operation_rejected"; "borrow_ended"] /\
      Forall (fun s => cstate_node_id <$> csnapshot_states s ≡ₚ cnode_id <$> conflict_nodes g) (conflict_snapshots g)).
  { refine (conflict_graph_sound borrow_text borrow_tree (SyntaxTreeLaws0 := borrow_tree_laws) tmodel_default None
      borrow_conflict _ borrow_conflict_ordered _); [vm_compute; reflexivity|constructor]. }
  destruct H as (g & Hg & Hw & _). exists g. split; [exact Hg|exact Hw].
Defined.
