(* ===== verification/AnalyzerInsight.v ===== *)
(** * rust-analyzer: what a call does with its arguments

    [ide/src/ownership_insight.rs] explains the calls at a position: what they need of
    their receiver, how each argument crosses the call, what comes back and what the body
    does, followed through the workspace.  Name resolution and types are rust-analyzer's
    own analyses; what they answer is a record ([Semantics]). *)

From Stdlib Require Import Ascii String.
From S2P Require Import Prelude RustStr RustColl RustPath RepairPlan AutofixDriver LineIndex AnalyzerSyntax.
From stdpp Require Import options.

Definition MAX_CALLS : N := 16.
Definition MAX_BODY_DEPTH : nat := 4.
Definition MAX_BODY_FUNCTIONS : N := 64.
Definition MAX_EFFECTS : N := 256.
Definition MAX_DOC_CHARS : N := 600.
Definition MAX_EXPRESSION_CHARS : N := 120.
Definition MAX_RANGE_CALLS : N := 64.
Definition MAX_RANGE_CANDIDATES : N := 256.

(** ** Data *)

Record OwnershipCallAlternative : Type := mk_calt {
  calt_name : string;
  calt_signature : string;
  calt_access : string;
  calt_behavior : string;
  calt_difference : string
}.

Record OwnershipCallEffect : Type := mk_ceffect {
  ceffect_kind : string;
  ceffect_summary : string;
  ceffect_certainty : string
}.

Record OwnershipCallReceiver : Type := mk_creceiver {
  creceiver_expression : string;
  creceiver_range : N * N;
  creceiver_transfer : string;
  creceiver_after : string;
  creceiver_provenance : string
}.

Record OwnershipCallArgument : Type := mk_cargument {
  cargument_index : N;
  cargument_expression : string;
  cargument_range : N * N;
  cargument_parameter_type : string;
  cargument_transfer : string;
  cargument_after : string;
  cargument_provenance : string
}.

Record OwnershipCallReturn : Type := mk_creturn {
  creturn_type_name : string;
  creturn_kind : string;
  creturn_borrowed_from : option string;
  creturn_after : string;
  creturn_provenance : string
}.

Record OwnershipCallInsight : Type := mk_insight {
  insight_range : N * N;
  insight_name : string;
  insight_signature : string;
  insight_receiver_type : option string;
  insight_required_access : string;
  insight_available_access : string;
  insight_why_required : string;
  insight_documentation : option string;
  insight_effects : list string;
  insight_effect_facts : list OwnershipCallEffect;
  insight_call_chain : list string;
  insight_alternatives : list OwnershipCallAlternative;
  insight_provenance : string;
  insight_truncated : bool;
  insight_summary : string;
  insight_ownership_relevant : bool;
  insight_receiver_flow : option OwnershipCallReceiver;
  insight_argument_flows : list OwnershipCallArgument;
  insight_return_flow : OwnershipCallReturn
}.

(** ** Descriptions *)

(** A text on one line, cut after [max] characters. *)
Definition cut_chars (max : N) (text : string) : string :=
  if (max <? char_count text)%N then take_chars max text +:+ "…" else take_chars max text.

Definition bounded_expression (expression : string) : string :=
  cut_chars MAX_EXPRESSION_CHARS (join " " (split_whitespace expression)).

(** [text.split(pat).next()] *)
Fixpoint before_str (pat s : string) : string :=
  if starts_with pat s then EmptyString
  else match s with
       | EmptyString => EmptyString
       | String a s => String a (before_str pat s)
       end.

Definition paragraph_break : string := String (ascii_of_N 10) (String (ascii_of_N 10) EmptyString).

Definition bounded_first_paragraph (documentation : string) (max_chars : N) : string :=
  cut_chars max_chars (trim (before_str paragraph_break documentation)).

Definition parameter_transfer (parameter_type : string) (is_copy : bool) : string :=
  let parameter_type := trim_start parameter_type in
  if starts_with "&mut " parameter_type then "mutable_borrow"
  else if starts_with "&" parameter_type then "shared_borrow"
  else if parameter_type =s "unknown" then "unknown"
  else if is_copy then "copy"
  else "move".

Definition transfer_after (transfer : string) : string :=
  if transfer =s "mutable_borrow" then "Exclusively borrowed during the call; usable again after the borrow ends."
  else if transfer =s "shared_borrow" then "Shared-borrowed during the call; ownership stays with the caller."
  else if transfer =s "copy" then "Copied into the parameter; the original remains usable."
  else if transfer =s "move" then "Ownership moves into the parameter; the original place is unavailable."
  else "The analyzer could not prove how this argument crosses the call boundary.".

Definition return_kind (return_type : string) (receiver_type : option string) (name : string) : string :=
  let ty := trim return_type in
  if ty =s "()" then "unit"
  else if existsb (fun guard => contains guard ty) ["RefMut<"; "Ref<"; "MutexGuard<"; "RwLockReadGuard<"; "RwLockWriteGuard<"]
  then "guard"
  else if contains "&mut " ty then "mutable_reference"
  else if contains "&" ty then "shared_reference"
  else if one_of name ["iter"; "iter_mut"; "drain"] && is_some receiver_type then "iterator_borrow"
  else if starts_with "Option<" ty then "option"
  else if starts_with "Result<" ty then "result"
  else if ty =s "unknown" then "unknown"
  else "owned".

Definition return_explanation (kind return_type : string) : string :=
  if kind =s "unit" then "Returns no value; any observable result is an effect on existing state."
  else if kind =s "shared_reference" then
    "Returns shared access tied to an input lifetime; it does not create a new owner."
  else if kind =s "mutable_reference" then
    "Returns exclusive access tied to an input lifetime; the source remains borrowed while it is live."
  else if kind =s "guard" then
    "Returns a runtime access guard; keep it only as long as the protected access is needed."
  else if kind =s "iterator_borrow" then
    "Returns an iterator that keeps its source borrowed while the iterator is live."
  else if kind =s "option" then "Returns `" +:+ return_type +:+ "` so absence is represented explicitly."
  else if kind =s "result" then "Returns `" +:+ return_type +:+ "` so failure is represented explicitly."
  else if kind =s "owned" then "Returns a new owned value of type `" +:+ return_type +:+ "`."
  else "The analyzer could not classify the returned value.".

Definition call_is_ownership_relevant (required_access : string) (arguments : list OwnershipCallArgument)
    (returned : OwnershipCallReturn) (effects : list OwnershipCallEffect) (name : string) : bool :=
  if (required_access =s "shared_borrow") && is_nil arguments
     && one_of name ["len"; "is_empty"; "capacity"; "strong_count"; "weak_count"]
  then false
  else
    negb (required_access =s "shared_borrow")
    || existsb (fun argument => one_of (cargument_transfer argument) ["move"; "mutable_borrow"]) arguments
    || one_of (creturn_kind returned) ["shared_reference"; "mutable_reference"; "guard"; "iterator_borrow"]
    || existsb (fun effect =>
         negb (ceffect_kind effect =s "behavior")
         && negb ((required_access =s "shared_borrow") && (ceffect_kind effect =s "borrow")
                  && (ceffect_certainty effect =s "signature_contract"))) effects
    || one_of name ["clone"; "downgrade"; "upgrade"; "make_mut"].

Definition call_summary (name required_access : string) (arguments : list OwnershipCallArgument)
    (returned : OwnershipCallReturn) : string :=
  let receiver :=
    if required_access =s "mutable_borrow" then "temporarily needs exclusive access"
    else if required_access =s "move" then "takes ownership of its receiver"
    else if required_access =s "shared_borrow" then "reads through shared access"
    else "follows its parameter ownership contracts" in
  let moved := len (retain (fun argument => cargument_transfer argument =s "move") arguments) in
  let moved := if (moved =? 0)%N then EmptyString else " and moves " +:+ show moved +:+ " argument(s)" in
  "`" +:+ name +:+ "` " +:+ receiver +:+ moved +:+ "; it returns `" +:+ creturn_type_name returned +:+ "`.".

Definition effect_kind_of (effect required_access : string) : string :=
  let effect := to_ascii_lowercase effect in
  let has word := contains word effect in
  if has "allocate" || has "capacity" || has "reallocate" then "allocation"
  else if has "drop" || has "remove" then "destruction"
  else if has "block" || has "lock" || has "atomic" then "synchronization"
  else if has "panic" || has "runtime" then "runtime_check"
  else if has "consume" || (required_access =s "move") then "ownership_transfer"
  else if has "borrow" then "borrow"
  else if has "mutat" || has "assign" || has "replace" then "mutation"
  else "behavior".

Definition why_required (required : string) (receiver_type : option string) (name : string) : string :=
  let receiver := default "the receiver" receiver_type in
  if required =s "shared_borrow" then
    "`" +:+ name +:+ "` takes `&self`: it borrows " +:+ receiver +:+
    " for shared access. Interior-mutability types may still change runtime-managed state."
  else if required =s "mutable_borrow" then
    "`" +:+ name +:+ "` takes `&mut self`: the operation may change the observable state of " +:+ receiver +:+
    ", so Rust requires exclusive access for the call."
  else if required =s "move" then
    "`" +:+ name +:+
    "` takes ownership of its receiver, so the old receiver place is unavailable after the call unless its type is Copy."
  else
    "Each argument follows its declared parameter contract: `&T` reads, `&mut T` borrows exclusively, and `T` receives ownership.".

Definition contract_effects (required : string) (is_async : bool) : list string :=
  [if required =s "shared_borrow" then
     "May read through a shared borrow; the signature alone does not prove logical immutability."
   else if required =s "mutable_borrow" then "May mutate through an exclusive borrow."
   else if required =s "move" then "Consumes the receiver and may run Drop for owned state."
   else "Effects depend on the ownership contracts of the call arguments."]
  ++ if is_async then
       ["Calling this async function constructs a future; body effects occur when that future is polled."]
     else [].

(** The effects of well-known methods. *)
Definition known_effect (receiver_type : option string) (name : string) : option string :=
  let has pat := contains pat (default EmptyString receiver_type) in
  if (name =s "clear") && (has "Vec<" || has "VecDeque<") then
    Some "Removes and drops every element, sets length to zero, and retains the collection's allocated capacity."
  else if (name =s "clear") && has "String" then
    Some "Removes all text, sets the byte length to zero, and retains the String allocation for reuse."
  else if (name =s "clear") && (has "Map<" || has "Set<") then
    Some "Removes and drops every entry while retaining allocation according to the collection implementation."
  else if one_of name ["push"; "push_back"; "push_front"] then
    Some "Adds one element and may reallocate if the collection has insufficient spare capacity."
  else if one_of name ["extend"; "append"] then
    Some "Adds multiple elements and may grow the destination allocation; `append` also empties its mutable source collection."
  else if one_of name ["pop"; "pop_back"; "pop_front"] then
    Some "Removes at most one element and returns it as an Option without shrinking capacity."
  else if (name =s "truncate") then
    Some "Drops elements after the requested length and retains capacity."
  else if one_of name ["resize"; "resize_with"] && has "Vec<" then
    Some "Changes the vector length by dropping tail elements or constructing new elements; growth may reallocate."
  else if one_of name ["reserve"; "reserve_exact"] then
    Some "Ensures additional capacity and may allocate or reallocate without changing the logical elements."
  else if one_of name ["shrink_to_fit"; "shrink_to"] then
    Some "Requests a smaller allocation while preserving elements; the allocator may retain extra capacity."
  else if (name =s "split_off") && (has "Vec<" || has "String") then
    Some "Keeps the prefix in the original value and returns ownership of an independently allocated suffix."
  else if one_of name ["sort"; "sort_by"; "sort_by_key"; "sort_unstable"; "sort_unstable_by"; "sort_unstable_by_key"] then
    Some "Reorders elements in place; stable variants may allocate and unstable variants do not preserve equal-element order."
  else if one_of name ["dedup"; "dedup_by"; "dedup_by_key"] then
    Some "Removes consecutive duplicate elements in place and drops removed values without shrinking capacity."
  else if (name =s "retain") then
    Some "Keeps only elements accepted by a predicate and drops the others in place."
  else if (name =s "drain") then
    Some "Removes a range and yields the removed elements; its mutable borrow remains active while the drain iterator is live."
  else if (name =s "insert") then
    Some "Adds or replaces an element and may allocate or move existing elements."
  else if (name =s "entry") && has "Map<" then
    Some "Returns a vacant-or-occupied entry handle that keeps exclusive access to the map for the handle's lifetime."
  else if (name =s "remove") then
    Some "Removes an element or entry and returns ownership of the removed value when present."
  else if (name =s "swap_remove") && has "Vec<" then
    Some "Removes and returns one element in constant time by moving the final element into its slot; order changes."
  else if (name =s "swap") && (has "Vec<" || has "slice") then
    Some "Exchanges two elements in place without allocating or changing length."
  else if one_of name ["len"; "is_empty"; "capacity"] then
    Some "Observes collection metadata without changing its contents."
  else if one_of name ["iter"; "get"; "first"; "last"; "contains"] then
    Some "Creates shared access to existing contents without transferring ownership."
  else if one_of name ["iter_mut"; "get_mut"; "first_mut"; "last_mut"] && negb (has "RefCell<") && negb (has "Mutex<") then
    Some "Creates exclusive mutable access to part of the collection for the returned borrow's lifetime."
  else if one_of name ["as_slice"; "as_str"; "as_bytes"; "as_ref"] then
    Some "Creates a borrowed view of existing storage without transferring ownership."
  else if one_of name ["into_iter"; "into_inner"] then
    Some "Consumes the wrapper or collection and transfers ownership of the contained value or yielded elements."
  else if (name =s "take") && (has "Option<" || has "RefCell<") then
    Some "Replaces the stored value with its default empty state and returns ownership of the previous value."
  else if (name =s "replace") && (has "Option<" || has "RefCell<") then
    Some "Replaces the stored value and returns ownership of the previous value, using the wrapper's access checks."
  else if one_of name ["map"; "and_then"; "or_else"] && (has "Option<" || has "Result<") then
    Some "Consumes the Option or Result and conditionally transforms its contained owned value while preserving the empty or error path."
  else if one_of name ["unwrap"; "expect"] && (has "Option<" || has "Result<") then
    Some "Consumes the wrapper and returns the success value, panicking on the empty or error variant."
  else if (name =s "borrow") && has "RefCell<" then
    Some "Performs a runtime shared-borrow check and returns a guard; it panics if a mutable borrow is active."
  else if (name =s "borrow_mut") && has "RefCell<" then
    Some "Performs a runtime exclusive-borrow check and returns a mutable guard; it panics if any borrow is active."
  else if (name =s "try_borrow") && has "RefCell<" then
    Some "Performs a runtime shared-borrow check and returns an error instead of panicking on conflict."
  else if (name =s "try_borrow_mut") && has "RefCell<" then
    Some "Performs a runtime exclusive-borrow check and returns an error instead of panicking on conflict."
  else if (name =s "get_mut") && (has "RefCell<" || has "Mutex<") then
    Some "Uses an ordinary exclusive borrow of the wrapper to access the inner value without a runtime borrow or lock check."
  else if (name =s "lock") && has "Mutex<" then
    Some "Waits for exclusive runtime access and returns a guard; the call may block and may report poisoning."
  else if (name =s "try_lock") && has "Mutex<" then
    Some "Attempts exclusive runtime access without waiting and reports contention or poisoning."
  else if (name =s "read") && has "RwLock<" then
    Some "Waits for shared runtime access and returns a read guard; the call may block and may report poisoning."
  else if (name =s "write") && has "RwLock<" then
    Some "Waits for exclusive runtime access and returns a write guard; the call may block and may report poisoning."
  else if (name =s "clone") && has "Rc<" then
    Some "Adds one non-atomic shared-owner count."
  else if (name =s "clone") && has "Arc<" then
    Some "Adds one atomic shared-owner count."
  else if (name =s "downgrade") && (has "Rc<" || has "Arc<") then
    Some "Creates a weak non-owning handle and increments the weak count without keeping the value alive."
  else if (name =s "upgrade") && has "Weak<" then
    Some "Attempts to create a strong shared owner and returns None when the allocation's value was already dropped."
  else if one_of name ["strong_count"; "weak_count"] && (has "Rc<" || has "Arc<") then
    Some "Reads a momentary reference-count value; concurrent Arc counts may change immediately afterward."
  else if (name =s "make_mut") && (has "Rc<" || has "Arc<") then
    Some "Provides mutable access using clone-on-write when other strong owners exist; this may clone the inner value."
  else if one_of name ["next"; "next_back"] then
    Some "Mutates iterator state and returns ownership of or a borrow to the next item according to the iterator's Item type."
  else if (name =s "collect") then
    Some "Consumes an iterator and builds a destination collection selected by the expected type; allocation depends on that collection."
  else if (name =s "push_str") && has "String" then
    Some "Copies UTF-8 bytes into the String and may reallocate when spare capacity is insufficient."
  else if (name =s "replace_range") && has "String" then
    Some "Replaces a UTF-8 boundary-aligned byte range in place and may move bytes or reallocate."
  else None.

Definition alternative_rows (receiver_type : option string) (name : string) : list (string * string * string * string) :=
  let has pat := contains pat (default EmptyString receiver_type) in
  if (name =s "clear") && (has "Vec<" || has "VecDeque<") then
    [("truncate", "truncate(n)", "mutable_borrow", "Keep the first n elements and drop only the tail.");
     ("retain", "retain(predicate)", "mutable_borrow", "Keep elements selected by a predicate.");
     ("drain", "drain(range)", "mutable_borrow", "Remove a range while receiving the removed elements.");
     ("pop", "pop()", "mutable_borrow", "Remove and return one element at a time.");
     ("mem::take", "std::mem::take(&mut value)", "mutable_borrow", "Replace the collection and return the complete old allocation.")]
  else if one_of name ["push"; "push_back"; "push_front"] then
    [("extend", "extend(iter)", "mutable_borrow", "Add several elements from an iterator.");
     ("insert", "insert(index, value)", "mutable_borrow", "Add at a chosen position or key.");
     ("append", "append(&mut other)", "mutable_borrow", "Move every element from another compatible collection.")]
  else if (name =s "remove") then
    [("retain", "retain(predicate)", "mutable_borrow", "Remove everything that fails a predicate.");
     ("drain", "drain(range)", "mutable_borrow", "Remove and iterate over a range.");
     ("swap_remove", "swap_remove(index)", "mutable_borrow", "Remove in constant time when order need not be preserved.")]
  else if (name =s "borrow_mut") && has "RefCell<" then
    [("get_mut", "get_mut()", "mutable_borrow", "Use compile-time exclusive access when the RefCell itself is mutably borrowed.");
     ("try_borrow_mut", "try_borrow_mut()", "shared_borrow", "Return an error instead of panicking on a borrow conflict.");
     ("replace", "replace(value)", "shared_borrow", "Swap the stored value under a runtime borrow check.")]
  else [].

Definition known_alternatives (receiver_type : option string) (name : string) : list OwnershipCallAlternative :=
  (fun '(alternative, signature, access, behavior) =>
     mk_calt alternative signature access behavior
       ("Unlike `" +:+ name +:+ "`, choose this only when that behavior matches the program's intent."))
  <$> alternative_rows receiver_type name.

(** ** Calls *)

Inductive Access : Type := Shared | Exclusive | Owned.

Definition access_code (access : option Access) : string :=
  match access with
  | Some Shared => "shared_borrow"
  | Some Exclusive => "mutable_borrow"
  | Some Owned => "move"
  | None => "call_arguments"
  end.

(** What rust-analyzer's semantic analyses say: the function a method call and the callee
    of a call expression resolve to, the type of an expression (as the crate of a function
    displays it) and whether it is [Copy], and of a function its name, signature, receiver,
    documentation, parameters, return type and body. *)
Record Semantics (Node Function : Type) : Type := mk_semantics {
  resolve_method_call : Node -> option Function;
  resolve_function : Node -> option Function;
  display_type_of : Function -> Node -> option string;
  is_copy : Node -> bool;
  function_name : Function -> string;
  function_signature : Function -> string;
  function_self_access : Function -> option Access;
  function_docs : Function -> option string;
  function_is_async : Function -> bool;
  function_is_local : Function -> bool;
  function_params : Function -> list string;
  function_ret_type : Function -> string;
  function_body : Function -> option Node
}.
#[global] Arguments resolve_method_call {_ _}.
#[global] Arguments resolve_function {_ _}.
#[global] Arguments display_type_of {_ _}.
#[global] Arguments is_copy {_ _}.
#[global] Arguments function_name {_ _}.
#[global] Arguments function_signature {_ _}.
#[global] Arguments function_self_access {_ _}.
#[global] Arguments function_docs {_ _}.
#[global] Arguments function_is_async {_ _}.
#[global] Arguments function_is_local {_ _}.
#[global] Arguments function_params {_ _}.
#[global] Arguments function_ret_type {_ _}.
#[global] Arguments function_body {_ _}.

Definition range_pair_leb : N * N -> N * N -> bool := lex_leb N.compare N.leb.
Definition same_range (a b : N * N) : bool := bool_decide (a = b).

Section calls.
Context {Node Function : Type} `{SyntaxTree Node} `{EqDecision Function} (sema : Semantics Node Function).

(** [CallSyntax]: a method call or a call, the node itself. *)
Definition is_call (node : Node) : bool := has_kind METHOD_CALL_EXPR node || has_kind CALL_EXPR node.

Definition token_calls (ancestors : list Node) : list Node :=
  match retain is_call ancestors with
  | [] =>
      match find_first (fun node => has_kind EXPR_STMT node || has_kind LET_STMT node) ancestors with
      | Some statement => retain is_call (descendants statement)
      | None => []
      end
  | calls => calls
  end.

Definition calls_at_position (file : Node) (offset : N) : list Node :=
  let tokens :=
    sort_by (on (fun token : SyntaxKind * list Node => is_trivia token.1) (fun a b => implb a b))
      (tokens_at file offset) in
  let calls := concat ((fun token => token_calls token.2) <$> tokens) in
  let calls := sort_by (on (fun call => (node_range call).2 - (node_range call).1)%N N.leb) calls in
  take_N MAX_CALLS (dedup_by (fun a b => same_range (node_range a) (node_range b)) calls).

(** ** The body of a function *)

(** What the walk over the bodies has found so far. *)
Record BodySummary : Type := mk_summary {
  summary_seen : list Function;
  summary_effects : list string;
  summary_call_chain : list string;
  summary_truncated : bool
}.

Definition set_truncated (s : BodySummary) : BodySummary :=
  mk_summary (summary_seen s) (summary_effects s) (summary_call_chain s) true.

Definition push_effect (effect : string) (s : BodySummary) : BodySummary :=
  mk_summary (summary_seen s) (summary_effects s ++ [effect]) (summary_call_chain s) (summary_truncated s).

Definition push_call (name : string) (s : BodySummary) : BodySummary :=
  mk_summary (summary_seen s) (summary_effects s) (summary_call_chain s ++ [name]) (summary_truncated s).

Definition see (function : Function) (s : BodySummary) : BodySummary :=
  mk_summary (function :: summary_seen s) (summary_effects s) (summary_call_chain s) (summary_truncated s).

Definition effects_full (s : BodySummary) : bool := (MAX_EFFECTS <=? len (summary_effects s))%N.

Section node.
Context (recurse : Function -> BodySummary -> BodySummary).

Definition follow (callee : Function) (s : BodySummary) : BodySummary :=
  if function_is_local sema callee then recurse callee (push_call (function_name sema callee) s) else s.

Definition visit_method_call (node : Node) (s : BodySummary) : BodySummary :=
  match (if has_kind METHOD_CALL_EXPR node then resolve_method_call sema node else None) with
  | None => s
  | Some callee =>
      let effect :=
        receiver ← expr_of node;
        type_name ← display_type_of sema callee receiver;
        known_effect (Some type_name) (function_name sema callee) in
      follow callee
        match effect with
        | Some effect => push_effect ("Via `" +:+ function_name sema callee +:+ "`: " +:+ effect) s
        | None => s
        end
  end.

Definition visit_call (node : Node) (s : BodySummary) : BodySummary :=
  match (if has_kind CALL_EXPR node then expr_of node ≫= resolve_function sema else None) with
  | None => s
  | Some callee => follow callee s
  end.

Definition visit_node (node : Node) (s : BodySummary) : BodySummary :=
  let s :=
    if has_kind BIN_EXPR node && is_assignment node
    then push_effect "May assign to or replace a place in this workspace-local body." s else s in
  let s :=
    if has_kind REF_EXPR node && is_some (support_token MUT_KW node)
    then push_effect "May create an exclusive mutable borrow in this workspace-local body." s else s in
  visit_call node (visit_method_call node s).

Fixpoint visit_nodes (nodes : list Node) (s : BodySummary) : BodySummary :=
  match nodes with
  | [] => s
  | node :: nodes => if effects_full s then set_truncated s else visit_nodes nodes (visit_node node s)
  end.
End node.

(** [remaining] is what is left of the depth. *)
Fixpoint summarize_function_body (remaining : nat) (function : Function) (s : BodySummary) : BodySummary :=
  match remaining with
  | O => set_truncated s
  | S remaining =>
      if (MAX_BODY_FUNCTIONS <=? len (summary_seen s))%N || effects_full s then set_truncated s
      else if negb (function_is_local sema function) || bool_decide (function ∈ summary_seen s) then s
      else
        let s := see function s in
        match function_body sema function with
        | None => s
        | Some body => visit_nodes (summarize_function_body remaining) (descendants body) s
        end
  end.

(** ** The explanation of a call *)

(** The function, the receiver and the arguments of a call. *)
Definition resolve_call (call : Node) : option (Function * option Node) :=
  if has_kind METHOD_CALL_EXPR call then
    function ← resolve_method_call sema call;
    Some (function, expr_of call)
  else
    callee ← expr_of call;
    function ← resolve_function sema callee;
    Some (function, None).

Definition available_access (receiver : option Node) (receiver_type : option string) (required : string) : string :=
  let receiver_text := default EmptyString (node_text <$> receiver) in
  let shared_owner :=
    match receiver_type with Some ty => starts_with "Rc<" ty || starts_with "Arc<" ty | None => false end in
  if negb (required =s "mutable_borrow") then
    "The call site can supply this contract if each argument satisfies its parameter type."
  else if shared_owner then
    "The receiver is a shared owner. It dereferences for reading but does not provide DerefMut to the inner value."
  else if starts_with "self." receiver_text || (receiver_text =s "self") then
    "Access is rooted at `self`; an `&self` method supplies only shared access, while `&mut self` can supply the required exclusive borrow."
  else
    "This operation needs an exclusive mutable path from the binding through every wrapper to the receiver.".

Definition receiver_flow (required_access : string) (receiver : Node) : OwnershipCallReceiver :=
  mk_creceiver (bounded_expression (node_text receiver)) (node_range receiver) required_access
    (if required_access =s "move" then
       if is_copy sema receiver then "Copied into the call; the original receiver remains usable."
       else "Moved into the call; this receiver place is unavailable afterward."
     else if required_access =s "mutable_borrow" then
       "Exclusively borrowed for the call, then usable again when that borrow ends."
     else "Shared-borrowed for the call, then usable again when that borrow ends.")
    "resolved_self_parameter".

Definition argument_flow (function : Function) (entry : N * Node) : OwnershipCallArgument :=
  let '(index, argument) := entry in
  let parameter_type := default "unknown" (function_params sema function !! N.to_nat index) in
  let transfer := parameter_transfer parameter_type (is_copy sema argument) in
  mk_cargument index (bounded_expression (node_text argument)) (node_range argument) parameter_type transfer
    (transfer_after transfer)
    (if transfer =s "unknown" then "unresolved_argument_contract" else "resolved_parameter_type").

Definition return_flow_of (function : Function) (receiver : option Node) (receiver_type : option string) : OwnershipCallReturn :=
  let return_type := function_ret_type sema function in
  let kind := return_kind return_type receiver_type (function_name sema function) in
  mk_creturn return_type kind
    (if one_of kind ["shared_reference"; "mutable_reference"; "guard"; "iterator_borrow"]
     then (fun receiver => bounded_expression (node_text receiver)) <$> receiver else None)
    (return_explanation kind return_type) "resolved_return_type".

(** The effects of the body, or else of the signature, after the known one. *)
Definition call_effects (function : Function) (receiver_type : option string) (summary : BodySummary) : list string :=
  let effects :=
    if is_nil (summary_effects summary)
    then contract_effects (access_code (function_self_access sema function)) (function_is_async sema function)
    else summary_effects summary in
  let effects :=
    match known_effect receiver_type (function_name sema function) with
    | Some effect => effect :: effects
    | None => effects
    end in
  truncate MAX_EFFECTS (dedup_by String.eqb effects).

Definition effect_fact (function : Function) (receiver_type : option string) (summary : BodySummary) (effect : string) :
    OwnershipCallEffect :=
  mk_ceffect (effect_kind_of effect (access_code (function_self_access sema function))) effect
    (if str_opt_eqb (known_effect receiver_type (function_name sema function)) (Some effect)
     then "trusted_standard_library_catalog"
     else if is_nil (summary_effects summary) then "signature_contract"
     else if function_is_local sema function then "workspace_source_analysis"
     else "signature_contract").

Definition function_summary (function : Function) : BodySummary :=
  summarize_function_body MAX_BODY_DEPTH function (mk_summary [] [] [function_name sema function] false).

Definition explain_call (call : Node) : option OwnershipCallInsight :=
  '(function, receiver) ← resolve_call call;
  let name := function_name sema function in
  let receiver_type := receiver ≫= display_type_of sema function in
  let required_access := access_code (function_self_access sema function) in
  let summary := function_summary function in
  let effects := call_effects function receiver_type summary in
  let effect_facts := effect_fact function receiver_type summary <$> effects in
  let argument_flows := argument_flow function <$> enumerate (args_of call) in
  let return_flow := return_flow_of function receiver receiver_type in
  Some (mk_insight (node_range call) name (function_signature sema function) receiver_type required_access
    (available_access receiver receiver_type required_access)
    (why_required required_access receiver_type name)
    ((fun docs => bounded_first_paragraph docs MAX_DOC_CHARS) <$> function_docs sema function)
    effects effect_facts (summary_call_chain summary) (known_alternatives receiver_type name)
    (if function_is_local sema function then "signature_and_workspace_body" else "signature_docs_and_trusted_catalog")
    (summary_truncated summary)
    (call_summary name required_access argument_flows return_flow)
    (call_is_ownership_relevant required_access argument_flows return_flow effect_facts name)
    (receiver_flow required_access <$> receiver) argument_flows return_flow).

(** Calls in the order of the text, each once. *)
Definition sorted_calls (calls : list Node) : list Node :=
  dedup_by (fun a b => same_range (node_range a) (node_range b)) (sort_by (on node_range range_pair_leb) calls).

Definition ownership_call_insights_for_positions (file : Node) (positions : list N) : list OwnershipCallInsight :=
  omap explain_call
    (take_N (MAX_CALLS * N.min (len positions) 64) (sorted_calls (concat (calls_at_position file <$> positions)))).

Definition ranges_overlap (left_ right_ : N * N) : bool :=
  ((left_.1 <=? right_.2) && (right_.1 <=? left_.2))%N.

Definition ownership_call_insights_in_range (file : Node) (range : N * N) : list OwnershipCallInsight :=
  take_N MAX_RANGE_CALLS
    (retain insight_ownership_relevant
       (omap explain_call
          (take_N MAX_RANGE_CANDIDATES
             (sorted_calls (retain (fun call => ranges_overlap (node_range call) range)
                (retain is_call (descendants file))))))).
End calls.
