(* ===== verification/AnalyzerInsightSpec.v ===== *)
(** * rust-analyzer: what is said about a call covers what the call can do

    When the walk over the bodies was not cut short, it has seen exactly the functions of
    the workspace the call can reach, and the effects it lists are exactly those of their
    bodies.  What it says stays within the analyzer's own limits, which are wider than
    the editor's. *)

From Stdlib Require Import Ascii String.
From S2P Require Import Prelude RustStr RustColl RustPath RepairPlan AutofixDriver LineIndex AnalyzerSyntax AnalyzerSyntaxSpec AnalyzerInsight.
From stdpp Require Import relations options.

(** Membership in a list that is written out. *)
Ltac here := rewrite ?elem_of_app, ?elem_of_cons; auto.

Section walk.
Context {Node Function : Type} `{SyntaxTree Node} `{EqDecision Function} (sema : Semantics Node Function).

(** The function of the workspace a node calls. *)
Definition method_callee (node : Node) : option Function :=
  if has_kind METHOD_CALL_EXPR node then resolve_method_call sema node else None.

Definition call_callee (node : Node) : option Function :=
  if has_kind CALL_EXPR node then expr_of node ≫= resolve_function sema else None.

Definition local_callee (node : Node) (callee : Function) : Prop :=
  function_is_local sema callee = true /\ (method_callee node = Some callee \/ call_callee node = Some callee).

(** The effect of a call to a well-known method. *)
Definition method_effect (node : Node) : list string :=
  option_list
    (callee ← method_callee node;
     receiver ← expr_of node;
     type_name ← display_type_of sema callee receiver;
     effect ← known_effect (Some type_name) (function_name sema callee);
     Some ("Via `" +:+ function_name sema callee +:+ "`: " +:+ effect)).

(** The effects a node shows on its own. *)
Definition node_effects (node : Node) : list string :=
  (if has_kind BIN_EXPR node && is_assignment node
   then ["May assign to or replace a place in this workspace-local body."] else [])
  ++ (if has_kind REF_EXPR node && is_some (support_token MUT_KW node)
      then ["May create an exclusive mutable borrow in this workspace-local body."] else [])
  ++ method_effect node.

Definition in_body (f : Function) (node : Node) : Prop :=
  exists body, function_body sema f = Some body /\ node ∈ descendants body.

Definition calls (f g : Function) : Prop := exists node, in_body f node /\ local_callee node g.

(** [g] can be reached from [f] by calls between functions of the workspace. *)
Definition reaches : Function -> Function -> Prop := rtc calls.

Context (start : Function).

Definition known_to (s : BodySummary (Function:=Function)) (f : Function) : Prop := f ∈ summary_seen s.

Definition handled (s : BodySummary (Function:=Function)) (node : Node) : Prop :=
  (forall g, local_callee node g -> known_to s g) /\ (forall e, e ∈ node_effects node -> e ∈ summary_effects s).

Definition explored (s : BodySummary (Function:=Function)) (f : Function) : Prop :=
  forall node, in_body f node -> handled s node.

Definition reachable_effect (e : string) : Prop :=
  exists g node, reaches start g /\ in_body g node /\ e ∈ node_effects node.

(** From [s] to [s'] only reachable things are added, and new functions are explored
    unless the walk is cut short. *)
Record walks (s s' : BodySummary (Function:=Function)) : Prop := {
  walks_seen : forall f, known_to s f -> known_to s' f;
  walks_effects : forall e, e ∈ summary_effects s -> e ∈ summary_effects s';
  walks_truncated : summary_truncated s = true -> summary_truncated s' = true;
  walks_only_seen : forall f, known_to s' f -> known_to s f \/ reaches start f;
  walks_only_effects : forall e, e ∈ summary_effects s' -> e ∈ summary_effects s \/ reachable_effect e;
  walks_explored : summary_truncated s' = false -> forall f, known_to s' f -> known_to s f \/ explored s' f
}.

Lemma walks_refl s : walks s s.
Proof using Type. split; auto. Qed.

Lemma handled_mono s s' node : walks s s' -> handled s node -> handled s' node.
Proof using Type. intros [Hs He _ _ _ _] [H1 H2]. split; eauto. Qed.

Lemma walks_trans s1 s2 s3 : walks s1 s2 -> walks s2 s3 -> walks s1 s3.
Proof using Type.
  intros H12 H23. pose proof H12 as [A1 A2 A3 A4 A5 A6]. pose proof H23 as [B1 B2 B3 B4 B5 B6]. split; eauto.
  - intros f [Hf|Hf]%B4; eauto.
  - intros e [He|He]%B5; eauto.
  - intros Ht f Hf. destruct (B6 Ht f Hf) as [Hf'|]; [|by right].
    assert (summary_truncated s2 = false) as Ht2 by (destruct (summary_truncated s2) eqn:E; [rewrite B3 in Ht|]; done).
    destruct (A6 Ht2 f Hf') as [|Hx]; [by left|]. right. intros node Hn. by eapply handled_mono; [|apply Hx].
Qed.

Lemma walks_set_truncated s : walks s (set_truncated s).
Proof using Type. split; cbn; auto. Qed.

Lemma walks_push_effect e s : reachable_effect e -> walks s (push_effect e s).
Proof using Type.
  intros He. split; cbn; auto; unfold known_to; cbn; auto.
  - intros. apply elem_of_app. by left.
  - intros e' [H'|H']%elem_of_app; [by left|]. apply list_elem_of_singleton in H' as ->. by right.
Qed.

Lemma walks_push_call name s : walks s (push_call name s).
Proof using Type. split; auto. Qed.

Section node.
Context (recurse : Function -> BodySummary (Function:=Function) -> BodySummary (Function:=Function)).
Hypothesis recurse_ok : forall f s, reaches start f ->
  walks s (recurse f s) /\
  (summary_truncated (recurse f s) = false -> function_is_local sema f = true -> known_to (recurse f s) f).

Lemma follow_ok callee s :
  (function_is_local sema callee = true -> reaches start callee) ->
  walks s (follow sema recurse callee s) /\
  (summary_truncated (follow sema recurse callee s) = false -> function_is_local sema callee = true ->
   known_to (follow sema recurse callee s) callee).
Proof using recurse_ok.
  intros Hr. unfold follow. destruct (function_is_local sema callee) eqn:Hl; [|by split; [apply walks_refl|]].
  destruct (recurse_ok callee (push_call (function_name sema callee) s) (Hr eq_refl)) as [Hw Hk].
  split; [by eapply walks_trans; [apply walks_push_call|]|]. intros Ht _. by apply Hk.
Qed.

Lemma visit_method_call_ok node s :
  (forall g, local_callee node g -> reaches start g) -> (forall e, e ∈ method_effect node -> reachable_effect e) ->
  walks s (visit_method_call sema recurse node s) /\
  (forall e, e ∈ method_effect node -> e ∈ summary_effects (visit_method_call sema recurse node s)) /\
  (summary_truncated (visit_method_call sema recurse node s) = false -> forall g, function_is_local sema g = true ->
   method_callee node = Some g -> known_to (visit_method_call sema recurse node s) g).
Proof using recurse_ok.
  intros Hg He. unfold visit_method_call. fold (method_callee node). unfold method_effect in *.
  destruct (method_callee node) as [callee|] eqn:Hc; [|by split; [apply walks_refl|]; split; [by intros e ?%not_elem_of_nil|]].
  cbn [mbind option_bind] in *.
  set (effect := receiver ← expr_of node; type_name ← display_type_of sema callee receiver;
         known_effect (Some type_name) (function_name sema callee)).
  set (s1 := match effect with Some effect => push_effect ("Via `" +:+ function_name sema callee +:+ "`: " +:+ effect) s | None => s end).
  assert (walks s s1 /\ forall e, e ∈ option_list (receiver ← expr_of node; type_name ← display_type_of sema callee receiver;
      effect ← known_effect (Some type_name) (function_name sema callee);
      Some ("Via `" +:+ function_name sema callee +:+ "`: " +:+ effect)) -> e ∈ summary_effects s1) as [Hw1 He1].
  { subst s1 effect. destruct (expr_of node) as [r|]; cbn [mbind option_bind] in *; [|split; [apply walks_refl|by intros e ?%not_elem_of_nil]].
    destruct (display_type_of sema callee r) as [ty|]; cbn [mbind option_bind] in *; [|split; [apply walks_refl|by intros e ?%not_elem_of_nil]].
    destruct (known_effect (Some ty) (function_name sema callee)) as [k|]; cbn [mbind option_bind option_list] in *;
      [|split; [apply walks_refl|by intros e ?%not_elem_of_nil]].
    split; [apply walks_push_effect, He, list_elem_of_here|]. intros e ->%list_elem_of_singleton. cbn. here. }
  destruct (follow_ok callee s1) as [Hw2 Hk].
  { intros Hl. apply Hg. split; [done|]. left. done. }
  split; [by eapply walks_trans|]. split.
  - intros e Hin. apply (walks_effects _ _ Hw2), He1, Hin.
  - intros Ht g Hl [= <-]. by apply Hk.
Qed.

Lemma visit_call_ok node s :
  (forall g, local_callee node g -> reaches start g) ->
  walks s (visit_call sema recurse node s) /\
  (summary_truncated (visit_call sema recurse node s) = false -> forall g, function_is_local sema g = true ->
   call_callee node = Some g -> known_to (visit_call sema recurse node s) g).
Proof using recurse_ok.
  intros Hg. unfold visit_call. fold (call_callee node).
  destruct (call_callee node) as [callee|] eqn:Hc; [|by split; [apply walks_refl|]].
  destruct (follow_ok callee s) as [Hw Hk].
  { intros Hl. apply Hg. split; [done|]. by right. }
  split; [done|]. intros Ht g Hl [= <-]. by apply Hk.
Qed.

(** One push, made when a test holds. *)
Lemma walks_push_if (b : bool) e s :
  (b = true -> reachable_effect e) -> walks s (if b then push_effect e s else s).
Proof using Type. intros He. destruct b; [by apply walks_push_effect, He|apply walks_refl]. Qed.

Lemma visit_node_ok node s :
  (forall g, local_callee node g -> reaches start g) -> (forall e, e ∈ node_effects node -> reachable_effect e) ->
  walks s (visit_node sema recurse node s) /\
  (summary_truncated (visit_node sema recurse node s) = false -> handled (visit_node sema recurse node s) node).
Proof using recurse_ok.
  intros Hg He. unfold visit_node. cbv zeta.
  set (assigns := has_kind BIN_EXPR node && is_assignment node).
  set (borrows := has_kind REF_EXPR node && is_some (support_token MUT_KW node)).
  set (s1 := if assigns then _ else s). set (s2 := if borrows then _ else s1).
  assert (walks s s1) as W1.
  { apply walks_push_if. intros Ha. apply He. unfold node_effects. fold assigns. rewrite Ha. here. }
  assert (walks s1 s2) as W2.
  { apply walks_push_if. intros Ha. apply He. unfold node_effects. fold borrows. rewrite Ha. here. }
  destruct (visit_method_call_ok node s2 Hg) as (W3 & He3 & Hk3).
  { intros e Hin. apply He. unfold node_effects. here. }
  destruct (visit_call_ok node (visit_method_call sema recurse node s2) Hg) as [W4 Hk4].
  set (s4 := visit_call sema recurse node (visit_method_call sema recurse node s2)) in *.
  split; [by do 3 (eapply walks_trans; [eassumption|])|]. intros Ht. split.
  - intros g [Hl [Hm|Hc]]; [|by apply Hk4]. apply (walks_seen _ _ W4), Hk3; [|done..].
    destruct (summary_truncated (visit_method_call sema recurse node s2)) eqn:E; [|done].
    by rewrite (walks_truncated _ _ W4) in Ht.
  - intros e Hin. unfold node_effects in Hin. rewrite !elem_of_app in Hin. fold assigns borrows in Hin.
    destruct Hin as [Hin|[Hin|Hin]].
    + apply (walks_effects _ _ W4), (walks_effects _ _ W3), (walks_effects _ _ W2). subst s1.
      destruct assigns; [|by apply not_elem_of_nil in Hin]. cbn. apply elem_of_app. by right.
    + apply (walks_effects _ _ W4), (walks_effects _ _ W3). subst s2. destruct borrows; [|by apply not_elem_of_nil in Hin]. cbn. apply elem_of_app. by right.
    + apply (walks_effects _ _ W4). by apply He3.
Qed.

Lemma visit_nodes_ok nodes s :
  (forall node g, node ∈ nodes -> local_callee node g -> reaches start g) ->
  (forall node e, node ∈ nodes -> e ∈ node_effects node -> reachable_effect e) ->
  walks s (visit_nodes sema recurse nodes s) /\
  (summary_truncated (visit_nodes sema recurse nodes s) = false ->
   forall node, node ∈ nodes -> handled (visit_nodes sema recurse nodes s) node).
Proof using recurse_ok.
  revert s. induction nodes as [|node nodes IH]; intros s Hg He; cbn; [by split; [apply walks_refl|by intros _ n ?%not_elem_of_nil]|].
  destruct (effects_full s); [by split; [apply walks_set_truncated|]|].
  destruct (visit_node_ok node s) as [W1 H1]; [intros g; apply Hg; here|intros e; apply He; here|].
  destruct (IH (visit_node sema recurse node s)) as [W2 H2].
  { intros n g Hn. apply Hg. here. }
  { intros n e Hn. apply He. here. }
  split; [by eapply walks_trans|]. intros Ht n [->|Hn]%elem_of_cons; [|by apply H2].
  eapply handled_mono; [exact W2|]. apply H1.
  destruct (summary_truncated (visit_node sema recurse node s)) eqn:E; [|done].
  by rewrite (walks_truncated _ _ W2) in Ht.
Qed.
End node.

Lemma summarize_ok remaining f s :
  reaches start f ->
  walks s (summarize_function_body sema remaining f s) /\
  (summary_truncated (summarize_function_body sema remaining f s) = false -> function_is_local sema f = true ->
   known_to (summarize_function_body sema remaining f s) f).
Proof using Type.
  revert f s. induction remaining as [|remaining IH]; intros f s Hf; [by split; [apply walks_set_truncated|]|].
  cbn [summarize_function_body]. case_match; [by split; [apply walks_set_truncated|]|].
  destruct (function_is_local sema f) eqn:Hl; cbn [negb orb]; [|by split; [apply walks_refl|]].
  case_bool_decide as Hseen; [by split; [apply walks_refl|]|].
  destruct (function_body sema f) as [body|] eqn:Hb.
  - destruct (visit_nodes_ok (summarize_function_body sema remaining) IH (descendants body) (see f s)) as [W Hh].
    + intros node g Hn Hc. eapply rtc_r; [exact Hf|]. exists node. split; [by exists body|done].
    + intros node e Hn He. exists f, node. split; [done|]. split; [by exists body|done].
    + set (s' := visit_nodes sema (summarize_function_body sema remaining) (descendants body) (see f s)) in *.
      assert (known_to s' f) as Hkf by (apply (walks_seen _ _ W); unfold known_to; cbn; here).
      split; [|done]. destruct W as [A1 A2 A3 A4 A5 A6]. split; auto.
      * intros g Hg. apply A1. unfold known_to. cbn. here.
      * intros g [Hg|]%A4; [|by right]. unfold known_to in Hg. cbn in Hg. apply elem_of_cons in Hg as [->|]; [by right|by left].
      * intros Ht g Hg. destruct (A6 Ht g Hg) as [Hg'|]; [|by right]. unfold known_to in Hg'. cbn in Hg'.
        apply elem_of_cons in Hg' as [->|]; [|by left]. right. intros node (b & Hb' & Hn). rewrite Hb in Hb'.
        injection Hb' as <-. by apply Hh.
  - split; [|intros _ _; unfold known_to; cbn; here]. split; auto.
    + intros g Hg. unfold known_to. cbn. here.
    + unfold known_to. cbn. intros g [->|]%elem_of_cons; [by right|by left].
    + unfold known_to. cbn. intros _ g [->|]%elem_of_cons; [|by left]. right. intros node (b & Hb' & Hn). congruence.
Qed.
End walk.

(** C25: When the walk over the bodies is not cut short, what is said about a function of
    the workspace is complete and nothing more: the functions seen are those reachable
    from it by calls inside the workspace, and the effects listed are those of the nodes
    in their bodies. *)
Theorem untruncated_summary_complete {Node Function} `{SyntaxTree Node} `{EqDecision Function}
    (sema : Semantics Node Function) (f : Function) :
  function_is_local sema f = true -> summary_truncated (function_summary sema f) = false ->
  (forall g, g ∈ summary_seen (function_summary sema f) <-> reaches sema f g) /\
  (forall e, e ∈ summary_effects (function_summary sema f) <->
     exists g node, reaches sema f g /\ in_body sema g node /\ e ∈ node_effects sema node).
Proof.
  intros Hl Ht. destruct (summarize_ok sema f MAX_BODY_DEPTH f (mk_summary [] [] [function_name sema f] false)) as [W Hk];
    [apply rtc_refl|]. fold (function_summary sema f) in W, Hk. destruct W as [_ _ _ Hs He Hx].
  assert (forall g, known_to (function_summary sema f) g -> explored sema (function_summary sema f) g) as Hexp.
  { intros g [Hg|Hg]%(Hx Ht); [|done]. unfold known_to in Hg. cbn in Hg. by apply not_elem_of_nil in Hg. }
  assert (forall g, reaches sema f g -> known_to (function_summary sema f) g) as Hr.
  { intros g Hg. apply rtc_ind_r with (P := known_to (function_summary sema f)) (z := g) in Hg; [done|by apply Hk|].
    intros a b _ (node & Hn & Hc) Ha. by apply (Hexp a Ha node Hn). }
  split.
  - intros g. split; [|apply Hr]. intros [Hg|]%Hs; [|done]. unfold known_to in Hg. cbn in Hg. by apply not_elem_of_nil in Hg.
  - intros e. split; [intros [Hg|]%He; [cbn in Hg; by apply not_elem_of_nil in Hg|done]|]. intros (g & node & Hg & Hn & Hin).
    by apply (Hexp g (Hr g Hg) node Hn).
Qed.

(** ** Limits *)

Section limits.
Context {Node Function : Type} `{SyntaxTree Node} `{EqDecision Function} (sema : Semantics Node Function).

Record within (s : BodySummary (Function:=Function)) : Prop := {
  within_seen : (len (summary_seen s) <= MAX_BODY_FUNCTIONS)%N;
  within_nodup : NoDup (summary_seen s);
  within_effects : (len (summary_effects s) <= MAX_EFFECTS)%N
}.

Lemma len_snoc_le {A} (l : list A) x n : (len l < n)%N -> (len (l ++ [x]) <= n)%N.
Proof using Type. unfold len. rewrite length_app. cbn. lia. Qed.

Lemma within_push_effect e s : within s -> effects_full s = false -> within (push_effect e s).
Proof using Type. intros [A B C] Hf%N.leb_gt. split; cbn [push_effect summary_seen summary_effects]; [done..|by apply len_snoc_le]. Qed.

Section node.
Context (recurse : Function -> BodySummary (Function:=Function) -> BodySummary (Function:=Function)).
Hypothesis recurse_within : forall f s, within s -> within (recurse f s).

Lemma follow_within callee s : within s -> within (follow sema recurse callee s).
Proof using recurse_within. intros Hw. unfold follow. case_match; [|done]. apply recurse_within. by destruct Hw. Qed.

Lemma visit_method_call_within node s : within s -> effects_full s = false -> within (visit_method_call sema recurse node s).
Proof using recurse_within.
  intros Hw Hf. unfold visit_method_call. fold (method_callee sema node).
  destruct (method_callee sema node); [|done]. apply follow_within. destruct (_ ≫= _); [by apply within_push_effect|done].
Qed.

Lemma visit_call_within node s : within s -> within (visit_call sema recurse node s).
Proof using recurse_within.
  intros Hw. unfold visit_call. fold (call_callee sema node). destruct (call_callee sema node); [by apply follow_within|done].
Qed.

(** A node has one kind, so that at most one effect is pushed before the next check. *)
Lemma visit_node_within node s : within s -> effects_full s = false -> within (visit_node sema recurse node s).
Proof using recurse_within.
  intros Hw Hf. unfold visit_node. cbv zeta. apply visit_call_within. unfold has_kind.
  destruct (decide (node_kind node = METHOD_CALL_EXPR)) as [Hm|Hm].
  { rewrite Hm. cbn. by apply visit_method_call_within. }
  assert (forall s, visit_method_call sema recurse node s = s) as Hv.
  { intros s'. unfold visit_method_call, has_kind. by rewrite bool_decide_eq_false_2. }
  rewrite Hv. destruct (decide (node_kind node = BIN_EXPR)) as [Hb|Hb].
  - rewrite Hb. cbn. destruct (is_assignment node); [by apply within_push_effect|done].
  - rewrite (bool_decide_eq_false_2 _ Hb). cbn. case_match; [by apply within_push_effect|done].
Qed.

Lemma visit_nodes_within nodes s : within s -> within (visit_nodes sema recurse nodes s).
Proof using recurse_within.
  revert s. induction nodes as [|node nodes IH]; intros s Hw; cbn; [done|].
  destruct (effects_full s) eqn:Hf; [by destruct Hw|]. by apply IH, visit_node_within.
Qed.
End node.

Lemma summarize_within remaining f s : within s -> within (summarize_function_body sema remaining f s).
Proof using Type.
  revert f s. induction remaining as [|remaining IH]; intros f s Hw; [by destruct Hw|]. cbn [summarize_function_body].
  destruct (N.leb_spec MAX_BODY_FUNCTIONS (len (summary_seen s))) as [|Hn]; [by destruct Hw|]. cbn [orb].
  destruct (effects_full s); [by destruct Hw|]. destruct (function_is_local sema f); [|done]. cbn [negb orb].
  case_bool_decide as Hnew; [done|].
  assert (within (see f s)) as Hs.
  { destruct Hw as [A B C]. split; cbn [see summary_seen summary_effects]; [unfold len in *; cbn; lia|by constructor|done]. }
  case_match; [|done]. by apply visit_nodes_within.
Qed.
End limits.

(** The longest text a call is explained with, in characters. *)
Lemma cut_chars_count max text : (char_count (cut_chars max text) <= max + 1)%N.
Proof.
  unfold cut_chars. pose proof (take_chars_count max text). case_match; [|lia].
  rewrite char_count_app. change (char_count "…") with 1%N. lia.
Qed.

Lemma alternatives_bounded receiver_type name : (len (known_alternatives receiver_type name) <= 5)%N.
Proof.
  unfold known_alternatives, alternative_rows, len. rewrite length_fmap. repeat case_match; cbn; lia.
Qed.

(** What the editor is told about a call, in numbers. *)
Record insight_within (arguments : N) (insight : OwnershipCallInsight) : Prop := {
  within_insight_effects : (len (insight_effects insight) <= MAX_EFFECTS)%N;
  within_insight_facts : len (insight_effect_facts insight) = len (insight_effects insight);
  within_insight_arguments : len (insight_argument_flows insight) = arguments;
  within_insight_alternatives : (len (insight_alternatives insight) <= 5)%N;
  within_insight_docs : forall docs, insight_documentation insight = Some docs -> (char_count docs <= MAX_DOC_CHARS + 1)%N;
  within_insight_expressions : Forall (fun a => (char_count (cargument_expression a) <= MAX_EXPRESSION_CHARS + 1)%N)
    (insight_argument_flows insight)
}.

Lemma explain_call_within {Node Function} `{SyntaxTree Node} `{EqDecision Function} (sema : Semantics Node Function)
    (call : Node) insight :
  explain_call sema call = Some insight -> insight_within (len (args_of call)) insight /\ insight_range insight = node_range call.
Proof.
  unfold explain_call. intros ([f receiver] & _ & [= <-])%bind_Some. split; [|done]. split;
    cbn [insight_effects insight_effect_facts insight_argument_flows insight_alternatives insight_documentation].
  - apply truncate_length.
  - unfold len. by rewrite length_fmap.
  - unfold len. by rewrite length_fmap, length_enumerate.
  - apply alternatives_bounded.
  - intros docs (d & _ & ->)%fmap_Some. apply cut_chars_count.
  - apply Forall_fmap, Forall_forall. intros [i a] _. apply cut_chars_count.
Qed.

(** The walk sees at most 64 functions, none twice, and collects at most 256
    effects, however many the bodies have. *)
Theorem summary_within_limits {Node Function} `{SyntaxTree Node} `{EqDecision Function} (sema : Semantics Node Function)
    (f : Function) :
  let s := function_summary sema f in
  (len (summary_seen s) <= 64)%N /\ NoDup (summary_seen s) /\ (len (summary_effects s) <= 256)%N.
Proof.
  destruct (summarize_within sema MAX_BODY_DEPTH f (mk_summary [] [] [function_name sema f] false)) as [A B C].
  - split; cbn; [done|constructor|done].
  - done.
Qed.

(** ** A workspace of two functions *)

Definition assign_tree : Red :=
  (0%N, function_of [GNode EXPR_STMT [GNode BIN_EXPR [path_expr "n"; GToken PLUSEQ "+="; literal "1"]; other_token ";"]]).

(** [f] calls [v.push(1)], and [push] is [n += 1]. *)
Definition sample_semantics : Semantics Red string := {|
  resolve_method_call n := if contains ".push" (node_text n) then Some "push" else None;
  resolve_function _ := None;
  display_type_of _ _ := Some "Stack";
  is_copy _ := false;
  function_name f := f;
  function_signature f := f;
  function_self_access _ := Some Exclusive;
  function_docs _ := None;
  function_is_async _ := false;
  function_is_local _ := true;
  function_params _ := ["i32"];
  function_ret_type _ := "()";
  function_body f := if f =s "f" then Some borrow_tree else if f =s "push" then Some assign_tree else None
|}.

Lemma sample_summary :
  function_summary sample_semantics "f" =
  mk_summary ["push"; "f"]
    ["Via `push`: Adds one element and may reallocate if the collection has insufficient spare capacity.";
     "May assign to or replace a place in this workspace-local body."] ["f"; "push"] false.
Proof. vm_compute. reflexivity. Qed.

Lemma untruncated_summary_complete_witness : reaches sample_semantics "f" "push".
Proof.
  apply (untruncated_summary_complete sample_semantics "f").
  - reflexivity.
  - vm_compute. reflexivity.
  - rewrite sample_summary. left.
Defined.
