(* ===== verification/AnalyzerContext.v ===== *)
(** * rust-analyzer: the other explanations of an answer

    What a refused mutation needs ([ownership_mutation_requirement]), where in the file
    the cursor is ([ownership_source_context]), the steps a value goes through
    ([ownership_value_trace], [ownership_conflict_value_trace]) and a sketch of them in C
    ([ownership_c_sketch]), all of [handlers/request.rs]. *)

From Stdlib Require Import Ascii String.
From S2P Require Import Prelude RustStr RustColl RustPath MemoryGraph Autofix AutofixDriver AnalyzerData AnalyzerModel AnalyzerState AnalyzerProblems LineIndex AnalyzerSyntax AnalyzerConflict.
From S2P Require Import Protocol.
From stdpp Require Import options.

(** ** The access a mutation needs *)

Definition needs_mutable (operation : OwnershipOperationInsight) : bool :=
  operation_required_access operation =s "mutable_borrow".

Definition pair_leb : N * N -> N * N -> bool := lex_leb N.compare N.leb.

Definition operation_extent (operation : OwnershipOperationInsight) : N * N :=
  let range := operation_range operation in
  (position_line (range_end range) - position_line (range_start range),
   position_character (range_end range) - position_character (range_start range))%N.

Definition distance_to_diagnostic (diagnostic : OwnershipDiagnostic) (operation : OwnershipOperationInsight) : N * N :=
  let start := range_start (operation_range operation) in
  let anchor := range_start (odiag_range diagnostic) in
  (abs_diff (position_line start) (position_line anchor),
   abs_diff (position_character start) (position_character anchor)).

(** The smallest mutating call at the diagnostic, or else the nearest one. *)
Definition mutating_operation (diagnostic : OwnershipDiagnostic) (operations : list OwnershipOperationInsight) :
    option OwnershipOperationInsight :=
  or_else
    (min_by (on operation_extent pair_leb)
       (retain (fun operation => needs_mutable operation && ranges_touch (operation_range operation) (odiag_range diagnostic))
          operations))
    (fun _ => min_by (on (distance_to_diagnostic diagnostic) pair_leb) (retain needs_mutable operations)).

Section tree.
Context {Node : Type} `{SyntaxTree Node} (index : LineIndex).

(** The receiver of the call an operation was resolved from. *)
Definition receiver_label (file : Node) (operation : OwnershipOperationInsight) : option string :=
  operation_range ← from_proto_text_range index (operation_range operation);
  ancestors ← token_ancestors file operation_range.1;
  call ← find_first (fun node => has_kind METHOD_CALL_EXPR node && bool_decide (node_range node = operation_range)) ancestors;
  (fun receiver => bounded_source_label (node_text receiver)) <$> expr_of call.

(** The receiver of the function a diagnostic is in. *)
Definition self_kind_at (file : Node) (diagnostic : OwnershipDiagnostic) : option SelfParamKind :=
  range ← from_proto_text_range index (odiag_range diagnostic);
  ancestors ← token_ancestors file range.1;
  function ← find_first (has_kind FN) ancestors;
  fn_self_kind function.

(** Where the access comes from, what it allows, and why that is not enough. *)
Definition access_explanation (file : option Node) (diagnostic : OwnershipDiagnostic)
    (operation : OwnershipOperationInsight) (target_place : string) : string * string * string :=
  let receiver_type := default EmptyString (operation_receiver_type operation) in
  let message := to_ascii_lowercase (odiag_message diagnostic) in
  let needed := "required by `" +:+ operation_name operation +:+ "`." in
  if starts_with "Rc<" receiver_type || starts_with "Arc<" receiver_type then
    (target_place +:+ " through a shared-owner handle", "shared_owner",
     "`" +:+ target_place +:+ "` is reached through `" +:+ receiver_type +:+
     "`. Shared ownership permits reading through the handle, but it does not provide the exclusive mutable access "
     +:+ needed)
  else if (target_place =s "self") || starts_with "self." target_place then
    match file ≫= (fun file => self_kind_at file diagnostic) with
    | Some SelfRef =>
        ("&self", "shared_borrow",
         "`" +:+ target_place +:+
         "` is reached through `&self`. That permits shared reads, but it cannot create the exclusive mutable borrow "
         +:+ needed)
    | Some SelfMutRef =>
        if contains "behind a `&`" message then
          ("a shared reference inside " +:+ target_place, "shared_borrow",
           "The method has `&mut self`, but `" +:+ target_place +:+
           "` is still reached through a shared reference. That inner reference cannot provide the exclusive mutable borrow "
           +:+ needed)
        else ("&mut self", "mutable_receiver_with_blocked_path", odiag_message diagnostic)
    | Some SelfOwned => ("self", "owned_receiver_with_blocked_path", odiag_message diagnostic)
    | None => ("the path through self", "insufficient_mutable_access", odiag_message diagnostic)
    end
  else if contains "not declared as mutable" message then
    let root := ownership_root_name target_place in
    ("immutable binding " +:+ root, "immutable_binding",
     "`" +:+ root +:+ "` was not declared with `mut`, so `" +:+ target_place +:+
     "` cannot provide the exclusive mutable borrow " +:+ needed)
  else if contains "behind a `&`" message then
    ("shared reference to " +:+ target_place, "shared_borrow",
     "`" +:+ target_place +:+
     "` is reached through a shared reference, which cannot provide the exclusive mutable borrow " +:+ needed)
  else ("the path to " +:+ target_place, "insufficient_mutable_access", odiag_message diagnostic).

Definition ownership_mutation_requirement (diagnostic : option OwnershipDiagnostic) (file : option Node)
    (operations : list OwnershipOperationInsight) : option OwnershipMutationRequirement :=
  diagnostic ← diagnostic;
  if negb (one_of (odiag_code diagnostic) ["E0594"; "E0596"]) then None
  else
    diagnostic_target ← ownership_name_from_message (odiag_message diagnostic);
    operation ← mutating_operation diagnostic operations;
    let target_place := default diagnostic_target (file ≫= (fun file => receiver_label file operation)) in
    let '(access_source, available_access, explanation) :=
      access_explanation file diagnostic operation target_place in
    Some (mk_requirement target_place access_source available_access (operation_required_access operation)
      (operation_id operation) (operation_name operation) explanation
      "compiler_diagnostic_and_resolved_signature").

(** ** Where the cursor is *)

Definition MAX_BREADCRUMBS : N := 8.
Definition MAX_CALL_PATHS : N := 12.
Definition MAX_RELATED_TYPES : N := 16.

(** An item with a name, of those a breadcrumb is shown for. *)
Definition source_item (node : Node) : option (string * string * (N * N)) :=
  let named kind := (fun name => (kind, first_token_text name, node_range node)) <$> name_of node in
  match node_kind node with
  | FN => named "function"
  | IMPL =>
      (fun self_type => ("implementation", "impl " +:+ node_text self_type, node_range node)) <$> impl_self_ty node
  | TRAIT => named "trait"
  | MODULE => named "module"
  | STRUCT => named "struct"
  | ENUM => named "enum"
  | _ => None
  end.

Definition context_item (item : string * string * (N * N)) : result OwnershipContextItem :=
  let '(kind, label, range) := item in
  range ← expect (to_proto_range index range);
  Ok (mk_context_item kind label (Some range)).

Definition breadcrumb_items (file : Node) (request_range : Range) : list (string * string * (N * N)) :=
  default []
    (offset ← from_proto_offset index (range_start request_range);
     ancestors ← token_ancestors file offset;
     Some (take_N (MAX_BREADCRUMBS - 1) (rev (omap source_item ancestors)))).

(** [sort] and [dedup] *)
Definition sorted_strings (l : list string) : list string := dedup_by String.eqb (sort_by String.leb l).

Definition path_leb (a b : list string) : bool :=
  match list_cmp String.compare a b with
  | Gt => false
  | _ => true
  end.

Definition sorted_paths (l : list (list string)) : list (list string) :=
  dedup_by (fun a b => bool_decide (a = b)) (sort_by path_leb l).

(** [file_name]: the last component of the path a URI names *)
Definition ownership_source_context (file_name : string -> option string) (uri : string) (file : Node)
    (request_range : Range) (operations : list OwnershipOperationInsight) (bindings : list OwnershipBinding) :
    result OwnershipSourceContext :=
  let file_label := default "Rust source file" (file_name uri) in
  items ← mapM context_item (breadcrumb_items file request_range);
  let call_paths := sorted_paths (retain (fun path => negb (is_nil path)) (operation_call_chain <$> operations)) in
  let related_types := sorted_strings ((binding_type_name <$> bindings) ++ omap operation_receiver_type operations) in
  Ok (mk_context file_label (mk_context_item "file" file_label None :: items)
    (truncate MAX_CALL_PATHS call_paths) (truncate MAX_RELATED_TYPES related_types)
    "source_syntax_resolved_calls_and_compiler_types"
    ((MAX_CALL_PATHS <? len call_paths)%N || (MAX_RELATED_TYPES <? len related_types)%N)).
End tree.

(** ** The steps of a value *)

Definition MAX_VALUE_TRACE_STEPS : N := 24.

(** The state of the source and of the destination, the effect on the allocation, and
    the explanation; [None] for the kinds that make no step. *)
Definition event_effect (event : OwnershipEvent) : option (string * option string * string * string) :=
  let kind := event_kind event in
  let place := event_place event in
  if one_of kind ["move"; "partial_move"] then
    let target := default "the receiving operation" (destination_label <$> event_destination event) in
    Some (if kind =s "partial_move" then "partially moved" else "unavailable through this name",
          Some "owns the transferred value",
          "Ownership changes hands; the underlying allocation is not copied by the move.",
          "Ownership of `" +:+ place +:+ "` flows to " +:+ target +:+
          ". The old name no longer owns that value on this path.")
  else if kind =s "copy" then
    Some ("still available", Some "receives a copied value",
          "Copy duplicates the value representation; it does not create shared ownership.",
          "`" +:+ place +:+ "` implements Copy, so using it leaves the source available.")
  else if kind =s "clone" then
    Some ("still available as one shared owner", Some "new handle to the same allocation",
          "Clone duplicates the Rc/Arc handle and increments its symbolic strong count; the inner allocation is shared, not copied.",
          "`" +:+ place +:+ "` remains usable while the destination becomes another owner of the same allocation.")
  else if kind =s "borrow_shared" then
    Some ("shared-borrowed", Some "temporary shared reference",
          "No ownership or allocation moves; a temporary non-owning reference is created.",
          "A shared reference temporarily reads `" +:+ place +:+ "`.")
  else if one_of kind ["borrow_mutable"; "borrow_activate"] then
    Some ("mutably borrowed", Some "temporary exclusive reference",
          "No ownership or allocation moves; access is exclusive for the loan's live range.",
          "An exclusive mutable reference temporarily accesses `" +:+ place +:+ "`.")
  else if kind =s "borrow_end" then
    Some ("available after this point", None, "No allocation changes; the compiler loan ends.",
          "The temporary borrow of `" +:+ place +:+ "` is no longer live.")
  else if kind =s "invalid_use" then
    Some ("unavailable", None, "No runtime operation occurs because rustc rejects the program.",
          "This use asks `" +:+ place +:+ "` for a value that this name no longer owns.")
  else if kind =s "reinitialize" then
    Some ("available with a new value", None,
          "A new value is assigned to the binding; this does not restore the old moved value.",
          "`" +:+ place +:+ "` receives a new value and becomes usable again.")
  else if kind =s "drop" then
    Some ("dropped", None, "The owned value is destroyed; owned resources are released according to Drop.",
          "`" +:+ place +:+ "` reaches its drop point.")
  else None.

Definition introduction_step (first : OwnershipEvent) : OwnershipValueTraceStep :=
  mk_trace ("binding-" +:+ event_event_id first) "binding_introduced" (event_binding_range first)
    (event_place first) None "available" None
    "No allocation claim: this marks where the source binding is introduced."
    ("`" +:+ event_place first +:+
     "` is the name rustc tracks. A binding is a name for a value; it is not necessarily the heap allocation itself.")
    "compiler_exact" None.

Definition event_step (event : OwnershipEvent) : option OwnershipValueTraceStep :=
  '(source_state, destination_state, allocation_effect, explanation) ← event_effect event;
  Some (mk_trace (event_event_id event) (event_kind event) (event_range event) (event_place event)
    (destination_label <$> event_destination event) source_state destination_state allocation_effect explanation
    "compiler_exact"
    (Some ("MIR bb" +:+ show (event_basic_block event) +:+ ", statement " +:+ show (event_statement_index event)))).

Definition is_step_kind (event : OwnershipEvent) : bool :=
  one_of (event_kind event)
    ["move"; "partial_move"; "clone"; "copy"; "borrow_shared"; "borrow_mutable"; "borrow_activate"; "borrow_end";
     "invalid_use"; "reinitialize"; "drop"].

Definition clone_step (operation : OwnershipOperationInsight) : OwnershipValueTraceStep :=
  let receiver := default "the receiver" (operation_receiver_type operation) in
  let shared_handle := contains "Rc<" receiver || contains "Arc<" receiver in
  mk_trace ("clone-" +:+ operation_id operation) "clone" (operation_range operation) receiver
    (Some "the new clone result") "still available"
    (Some (if shared_handle then "new handle to the same allocation" else "independent cloned value"))
    (if shared_handle
     then "Rc::clone/Arc::clone keeps the allocation and increases the symbolic strong count by one."
     else "Clone behavior and allocation cost come from this type's Clone implementation.")
    ("Resolved `" +:+ receiver +:+ "::clone` returns another usable value.")
    (operation_provenance operation) None.

(** The loops stop when the trace is full. *)
Fixpoint event_steps (trace : list OwnershipValueTraceStep) (events : list OwnershipEvent) : list OwnershipValueTraceStep :=
  match events with
  | [] => trace
  | event :: events =>
      if (MAX_VALUE_TRACE_STEPS <=? len trace)%N then trace
      else
        match event_step event with
        | None => event_steps trace events
        | Some step => event_steps (trace ++ [step]) events
        end
  end.

Fixpoint clone_steps (trace : list OwnershipValueTraceStep) (operations : list OwnershipOperationInsight) :
    list OwnershipValueTraceStep :=
  match operations with
  | [] => trace
  | operation :: operations =>
      if (MAX_VALUE_TRACE_STEPS <=? len trace)%N then trace
      else clone_steps (trace ++ [clone_step operation]) operations
  end.

Definition ownership_value_trace (events : list OwnershipEvent) (operations : list OwnershipOperationInsight) :
    list OwnershipValueTraceStep :=
  let trace := match events with first :: _ => [introduction_step first] | [] => [] end in
  let trace := event_steps trace (retain is_step_kind events) in
  clone_steps trace (retain (fun operation => operation_name operation =s "clone") operations).

(** ** The steps of a conflict *)

Definition node_with_id (graph : OwnershipConflictGraph) (id : string) : option OwnershipConflictNode :=
  find_first (fun node => cnode_id node =s id) (conflict_nodes graph).

Definition state_of (snapshot : OwnershipConflictSnapshot) (node_id : string) : option string :=
  cstate_state <$> find_first (fun state => cstate_node_id state =s node_id) (csnapshot_states snapshot).

Definition conflict_step (graph : OwnershipConflictGraph) (borrower referent : OwnershipConflictNode)
    (borrow_kind : string) (entry : N * OwnershipConflictSnapshot) : OwnershipValueTraceStep :=
  let '(index, snapshot) := entry in
  let phase := csnapshot_phase snapshot in
  let '(kind, from_label, to_label, allocation_effect) :=
    if phase =s "borrow_created" then
      (if borrow_kind =s "borrows_mutable" then "borrow_mutable" else "borrow_shared",
       cnode_label borrower, cnode_label referent,
       "A reference is created. Ownership and the underlying allocation stay where they are.")
    else if phase =s "operation_rejected" then
      ("invalid_use", cnode_label referent, cnode_label borrower,
       "No write, move, or allocation occurs because rustc rejects the incompatible access.")
    else if phase =s "borrow_ended" then
      ("borrow_end", cnode_label borrower, cnode_label referent,
       "The reference reaches its last use. Ownership is unchanged and the blocked access becomes available afterward.")
    else
      ("state", cnode_label borrower, cnode_label referent,
       "No ownership or allocation change is implied by this compiler snapshot.") in
  let rejected := phase =s "operation_rejected" in
  mk_trace ("conflict-" +:+ show index +:+ "-" +:+ phase) kind (csnapshot_range snapshot) from_label (Some to_label)
    (default "alive" (state_of snapshot (if rejected then "referent" else "borrower")))
    (state_of snapshot (if rejected then "borrower" else "referent"))
    allocation_effect
    (match node_with_id graph "owner" with
     | Some owner =>
         csnapshot_explanation snapshot +:+ " `" +:+ cnode_label owner +:+
         "` remains the owner path throughout this step."
     | None => csnapshot_explanation snapshot
     end)
    (conflict_provenance graph) None.

Definition ownership_conflict_value_trace (graph : OwnershipConflictGraph) : list OwnershipValueTraceStep :=
  match node_with_id graph "borrower", node_with_id graph "referent" with
  | Some borrower, Some referent =>
      let borrow_kind :=
        default "borrows_shared"
          (cedge_kind <$> find_first (fun edge => (cedge_from edge =s "borrower") && (cedge_to edge =s "referent"))
             (conflict_edges graph)) in
      conflict_step graph borrower referent borrow_kind <$> enumerate (conflict_snapshots graph)
  | _, _ => []
  end.

(** The trace of an answer: that of the conflict, if it has steps. *)
Definition answer_trace (conflict_graph : option OwnershipConflictGraph) (events : list OwnershipEvent)
    (operations : list OwnershipOperationInsight) : list OwnershipValueTraceStep :=
  match ownership_conflict_value_trace <$> conflict_graph with
  | Some ((_ :: _) as trace) => trace
  | _ => ownership_value_trace events operations
  end.

(** ** The sketch *)

Definition nl : string := String (ascii_of_N 10) EmptyString.

Definition sketch_text (name type_name : string) (strategy : option string) (moves : bool) : string :=
  let is_one l := match strategy with Some s => one_of s l | None => false end in
  join nl
    (if is_one ["rc"; "arc"] then
       ["// Operational sketch: shared ownership, not Rust ABI";
        "Shared *" +:+ name +:+ " = shared_new(value);   // count = 1";
        "Shared *alias = shared_retain(" +:+ name +:+ "); // count += 1";
        "use(alias->value);";
        "shared_release(alias);";
        "shared_release(" +:+ name +:+ ");                // free at count == 0"]
     else if is_one ["ref_cell"; "rc_ref_cell"] then
       ["// Operational sketch: dynamic borrow checking";
        "Cell " +:+ name +:+ " = cell_new(value);";
        "if (!cell_try_borrow_mut(&" +:+ name +:+ ")) panic_conflicting_borrow();";
        "mutate(" +:+ name +:+ ".value);";
        "cell_release_mut(&" +:+ name +:+ ");"]
     else if is_one ["mutex"; "arc_mutex"; "rw_lock"; "arc_rw_lock"] then
       ["// Operational sketch: synchronized interior mutation";
        "Lock " +:+ name +:+ " = lock_new(value);";
        "Guard guard = lock_acquire(&" +:+ name +:+ ");";
        "mutate(guard.value);";
        "lock_release(guard);"]
     else if moves then
       ["// Operational sketch: Rust move as ownership transfer";
        type_name +:+ " *owner = make_value();";
        type_name +:+ " *new_owner = owner;";
        "owner = NULL;              // old name must not be used";
        "use(new_owner);";
        "destroy(new_owner);"]
     else
       ["// Operational sketch: a borrow is a temporary non-owning view";
        type_name +:+ " *" +:+ name +:+ " = make_value();";
        "const " +:+ type_name +:+ " *view = " +:+ name +:+ ";";
        "use(view);                  // borrow ends after last use";
        "destroy(" +:+ name +:+ ");"]).

Definition ownership_c_sketch (selected_name : option string) (bindings : list OwnershipBinding)
    (events : list OwnershipEvent) (repairs : list OwnershipRepair) : option OwnershipCSketch :=
  name ← selected_name;
  Some (mk_sketch ("C-like intent sketch for `" +:+ name +:+ "`")
    (sketch_text name (default "T" (binding_type_name <$> head bindings)) (repair_strategy <$> head repairs)
       (existsb (fun event => event_kind event =s "move") events))
    "Explanatory pseudocode only: not Rust ABI-equivalent and not guaranteed to compile as C."
    (event_event_id <$> events) "conceptual").
