(* ===== verification/AnalyzerContextSpec.v ===== *)
(** * rust-analyzer: traces and contexts

    The loops that build a value's trace compute the first 24 of the steps there are; the
    trace of a conflict has a step for each of its snapshots; the context of a position
    is within the editor's limits, but for the length of a chain of calls. *)

From Stdlib Require Import Ascii String.
From S2P Require Import Prelude RustStr RustColl RustPath MemoryGraph RepairPlan Autofix AutofixDriver AnalyzerData AnalyzerModel AnalyzerState AnalyzerProblems PipelineSpec LineIndex LineIndexSpec AnalyzerSyntax AnalyzerSyntaxSpec AnalyzerConflict AnalyzerConflictSpec AnalyzerContext.
From S2P Require Import Protocol Bridge BridgeSpec.
From stdpp Require Import options.

(** ** The trace of a value *)

Lemma step_kind_effect event : is_step_kind event = true <-> is_Some (event_step event).
Proof.
  unfold is_step_kind, event_step, event_effect, one_of. cbn [existsb].
  repeat match goal with |- context [?k =s ?s] => destruct (String.eqb_spec k s) as [->|]; [cbn; naive_solver|] end.
  cbn. split; [done|]. by intros [? ?].
Qed.

Lemma event_steps_retain trace events :
  event_steps trace (retain is_step_kind events) = take (length trace + (24 - length trace)) (trace ++ omap event_step events).
Proof.
  revert trace. induction events as [|event events IH]; intros trace.
  - cbn. rewrite app_nil_r. symmetry. apply take_ge. lia.
  - assert (retain is_step_kind (event :: events) =
      if is_step_kind event then event :: retain is_step_kind events else retain is_step_kind events) as -> by done.
    assert (omap event_step (event :: events) =
      match event_step event with Some s => s :: omap event_step events | None => omap event_step events end) as -> by done.
    destruct (event_step event) as [step|] eqn:Hs.
    + rewrite (proj2 (step_kind_effect event)) by (by eexists). cbn [event_steps].
      destruct (N.leb_spec MAX_VALUE_TRACE_STEPS (len trace)) as [Hf|Hf]; unfold MAX_VALUE_TRACE_STEPS, len in Hf.
      * rewrite take_app_le by lia. symmetry. apply take_ge. lia.
      * rewrite Hs, IH, <-app_assoc, length_app. cbn. f_equal. lia.
    + destruct (is_step_kind event) eqn:Hk; [|apply IH]. apply step_kind_effect in Hk as [? ?]. congruence.
Qed.

Lemma clone_steps_take trace operations :
  clone_steps trace operations = take (length trace + (24 - length trace)) (trace ++ (clone_step <$> operations)).
Proof.
  revert trace. induction operations as [|operation operations IH]; intros trace; cbn.
  - rewrite app_nil_r. symmetry. apply take_ge. lia.
  - destruct (N.leb_spec MAX_VALUE_TRACE_STEPS (len trace)) as [Hf|Hf]; unfold MAX_VALUE_TRACE_STEPS, len in Hf.
    + rewrite take_app_le by lia. symmetry. apply take_ge. lia.
    + rewrite IH, <-app_assoc, length_app. cbn. f_equal. lia.
Qed.

(** All the steps there are: where the binding is introduced, the events that say
    something about the value, and the calls of [clone]. *)
Definition all_steps (events : list OwnershipEvent) (operations : list OwnershipOperationInsight) :
    list OwnershipValueTraceStep :=
  (introduction_step <$> option_list (head events)) ++ omap event_step events
  ++ (clone_step <$> retain (fun operation => operation_name operation =s "clone") operations).

Lemma value_trace_take events operations :
  ownership_value_trace events operations = take 24 (all_steps events operations).
Proof.
  unfold ownership_value_trace, all_steps.
  set (first := match events with first :: _ => [introduction_step first] | [] => [] end).
  assert (introduction_step <$> option_list (head events) = first) as -> by by destruct events.
  assert (length first <= 1) as Hl by (subst first; destruct events; cbn; lia).
  rewrite event_steps_retain, clone_steps_take. replace (length first + (24 - length first)) with 24 by lia.
  set (l1 := first ++ omap event_step events). set (l2 := clone_step <$> _). rewrite app_assoc.
  change (first ++ omap event_step events) with l1. rewrite length_take.
  destruct (le_lt_dec (length l1) 24) as [H|H].
  - rewrite (take_ge l1 24) by done. f_equal. lia.
  - replace (24 `min` length l1) with 24 by lia. rewrite (take_app_le l1 l2 24) by lia.
    rewrite take_app_le by (rewrite length_take; lia). by rewrite take_take.
Qed.

(** The trace of a value, which is built by loops that stop when it is full, is the
    first 24 of all the steps: the introduction of the binding, one step for each event
    about the value, and one for each call of [clone]. *)
Theorem value_trace_is_prefix events operations :
  ownership_value_trace events operations = take 24 (all_steps events operations).
Proof. apply value_trace_take. Qed.

Lemma value_trace_bounded events operations : bounded (ownership_value_trace events operations) 24.
Proof. rewrite value_trace_take. unfold bounded, len. rewrite length_take. lia. Qed.

Lemma elem_of_take_sub {A} n (l : list A) x : x ∈ take n l -> x ∈ l.
Proof. rewrite <-(take_drop n l) at 2. set_solver. Qed.

Lemma value_trace_ordered events operations :
  Forall (fun e => range_ordered (event_range e) /\ range_ordered (event_binding_range e)) events ->
  Forall (fun o => range_ordered (operation_range o)) operations ->
  Forall (fun t => range_ordered (trace_range t)) (ownership_value_trace events operations).
Proof.
  rewrite !Forall_forall. intros He Ho t Ht. rewrite value_trace_take in Ht.
  apply elem_of_take_sub, elem_of_app in Ht as [Ht|Ht].
  - destruct events as [|e events]; cbn in Ht; [set_solver|]. apply list_elem_of_singleton in Ht as ->.
    apply (He e). set_solver.
  - apply elem_of_app in Ht as [Ht|Ht].
    + apply list_elem_of_omap in Ht as (e & Hin & ([[[? ?] ?] ?] & _ & [= <-])%bind_Some). by apply (He e).
    + apply list_elem_of_fmap in Ht as (o & -> & [_ Hin]%elem_of_retain). by apply Ho.
Qed.

(** ** The trace of a conflict *)

Lemma conflict_trace_ranges g : Forall (fun s => range_ordered (csnapshot_range s)) (conflict_snapshots g) ->
  Forall (fun t => range_ordered (trace_range t)) (ownership_conflict_value_trace g).
Proof.
  rewrite !Forall_forall. intros Hs t. unfold ownership_conflict_value_trace.
  destruct (node_with_id g "borrower") as [b|], (node_with_id g "referent") as [r|]; cbn; try set_solver.
  intros (entry & -> & He)%list_elem_of_fmap. destruct entry as [i s].
  assert (trace_range (conflict_step g b r
    (default "borrows_shared" (cedge_kind <$> find_first (fun edge => (cedge_from edge =s "borrower")
       && (cedge_to edge =s "referent")) (conflict_edges g))) (i, s)) = csnapshot_range s) as ->.
  { unfold conflict_step. repeat case_match; by simplify_eq. }
  apply Hs. apply enumerate_lookup in He. by eapply list_elem_of_lookup_2.
Qed.

Lemma conflict_trace_length g : length (ownership_conflict_value_trace g) <= length (conflict_snapshots g).
Proof.
  unfold ownership_conflict_value_trace. do 2 (case_match; cbn; [|lia]). by rewrite length_fmap, length_enumerate.
Qed.

(** The trace of any answer is one the editor accepts. *)
Lemma answer_trace_ok graph events operations :
  optional well_formed_conflict graph ->
  Forall (fun e => range_ordered (event_range e) /\ range_ordered (event_binding_range e)) events ->
  Forall (fun o => range_ordered (operation_range o)) operations ->
  bounded (answer_trace graph events operations) 64 /\
  Forall (fun t => range_ordered (trace_range t)) (answer_trace graph events operations).
Proof.
  intros Hg He Ho. unfold answer_trace.
  pose proof (value_trace_bounded events operations) as Hb. unfold bounded, len in *.
  destruct graph as [g|]; cbn [fmap option_fmap option_map]; [|split; [lia|by apply value_trace_ordered]].
  destruct (ownership_conflict_value_trace g) as [|t l] eqn:E; [split; [lia|by apply value_trace_ordered]|].
  destruct (Hg g eq_refl) as [_ _ Hn _ _ Hs]. split.
  - pose proof (conflict_trace_length g) as Hl. rewrite E in Hl. unfold bounded, len in *. lia.
  - rewrite <-E. apply conflict_trace_ranges. eapply Forall_impl; [exact Hs|]. by intros s [].
Qed.

(** ** The context of a position *)

Lemma mapM_ok {A B} (f : A -> result B) (l : list A) :
  (forall x, x ∈ l -> exists y, f x = Ok y) -> exists l', mapM f l = Ok l' /\ Forall2 (fun x y => f x = Ok y) l l'.
Proof.
  induction l as [|x l IH]; intros Hf; [by exists []|]. destruct (Hf x) as [y Hy]; [set_solver|].
  destruct IH as (l' & Hl & H2); [set_solver|]. exists (y :: l'). cbn. rewrite Hy. cbn. rewrite Hl. cbn. by repeat constructor.
Qed.

Section context.
Context {Node : Type} `{SyntaxTree Node} (text : string) (root : Node) `{!SyntaxTreeLaws text root}.
Context (utf8 : valid_utf8 text = true).

Lemma source_item_range (node : Node) item : source_item node = Some item -> item.2 = node_range node.
Proof using Type.
  unfold source_item. destruct (node_kind node); intros Hs; try done; apply fmap_Some in Hs as (? & _ & ->); done.
Qed.

Lemma breadcrumb_items_inside range item :
  item ∈ breadcrumb_items (line_index_new text) root range -> range_in text item.2.
Proof using SyntaxTreeLaws0.
  clear utf8. unfold breadcrumb_items.
  destruct (from_proto_offset _ _) as [offset|]; cbn [mbind option_bind default]; [|set_solver].
  destruct (token_ancestors root offset) as [l|] eqn:Hl; cbn [mbind option_bind default from_option id]; [|set_solver].
  intros Hin. eapply elem_of_sublist in Hin; [|apply take_N_sublist].
  rewrite list_elem_of_In, <-in_rev, <-list_elem_of_In in Hin. apply list_elem_of_omap in Hin as (node & Hn & ->%source_item_range).
  apply belongs_range. by eapply ancestors_belong.
Qed.

(** The lengths of the chains of calls are all the editor can object to. *)
Lemma source_context_ok file_name uri range operations bindings :
  exists c, ownership_source_context (line_index_new text) file_name uri root range operations bindings = Ok c /\
    bounded (context_breadcrumbs c) 8 /\ bounded (context_call_paths c) 12 /\ bounded (context_related_types c) 16 /\
    (forall path, path ∈ context_call_paths c ->
       exists operation, operation ∈ operations /\ path = operation_call_chain operation) /\
    (well_formed_context c <-> Forall (fun p : list string => bounded p 32) (context_call_paths c)).
Proof using utf8 SyntaxTreeLaws0.
  unfold ownership_source_context.
  destruct (mapM_ok (context_item (line_index_new text)) (breadcrumb_items (line_index_new text) root range)) as (items & -> & Hi).
  { intros [[kind label] r] Hin%breadcrumb_items_inside. unfold context_item.
    destruct (to_proto_range_ordered text r utf8 Hin) as (p & -> & _). cbn. by eexists. }
  cbn [mbind result_bind]. eexists. split; [reflexivity|]. cbn [context_breadcrumbs context_call_paths context_related_types].
  apply Forall2_length in Hi.
  assert (length (breadcrumb_items (line_index_new text) root range) <= 7) as H7.
  { unfold breadcrumb_items. destruct (from_proto_offset _ _); cbn [mbind option_bind default from_option id]; [|cbn; lia].
    destruct (token_ancestors _ _); cbn [mbind option_bind default from_option id]; [|cbn; lia].
    pose proof (take_N_bounded (MAX_BREADCRUMBS - 1) (rev (omap source_item l))) as Hb. unfold bounded, len in Hb.
    unfold MAX_BREADCRUMBS in *. lia. }
  assert (bounded (mk_context_item "file" (default "Rust source file" (file_name uri)) None :: items) 8) as H8.
  { unfold bounded, len. cbn [length]. lia. }
  pose proof (truncate_length MAX_CALL_PATHS (sorted_paths (retain (fun path => negb (is_nil path)) (operation_call_chain <$> operations)))) as Hc.
  pose proof (truncate_length MAX_RELATED_TYPES (sorted_strings ((binding_type_name <$> bindings) ++ omap operation_receiver_type operations))) as Hr.
  split; [done|]. split; [done|]. split; [done|]. split.
  - intros path Hp. eapply elem_of_sublist in Hp; [|apply truncate_sublist].
    eapply elem_of_sublist in Hp; [|apply dedup_by_sublist].
    rewrite sort_by_perm in Hp. apply elem_of_retain in Hp as [_ (o & -> & Ho)%list_elem_of_fmap]. by exists o.
  - split; [by intros []|]. intros Hd. unfold bounded, MAX_CALL_PATHS, MAX_RELATED_TYPES in *. split; cbn; unfold bounded; try lia. done.
Qed.
End context.
