(* ===== verification/AnalyzerAnswer.v ===== *)
(** * rust-analyzer: the whole answer about a position

    [handle_ownership_model] of [handlers/request.rs], put together: the selection, the
    repairs ([AnalyzerRepairs]), the calls on the selected flow ([AnalyzerInsight]), the
    explanations ([AnalyzerConflict], [AnalyzerContext]) and the compiler's facts
    ([AnalyzerModel]).  The file's syntax tree, the semantic analyses and the assists are
    parameters. *)

From Stdlib Require Import Ascii String.
From S2P Require Import Prelude RustStr RustColl RustPath MemoryGraph RepairPlan Autofix AutofixDriver AnalyzerData AnalyzerModel AnalyzerState AnalyzerProblems AnalyzerPreview AnalyzerRepairs LineIndex AnalyzerSyntax AnalyzerConflict AnalyzerInsight AnalyzerContext.
From S2P Require Import Protocol Bridge.
From stdpp Require Import options.

Section operations.
Context (index : LineIndex).

(** The offsets the calls are looked up at: the cursor, the ends of the diagnostic's
    ranges and the starts of the events; the first 24 of them. *)
Definition operation_positions (cursor : N) (diagnostic : option OwnershipDiagnostic) (events : list OwnershipEvent) :
    list N :=
  let ends (range : Range) := [range_start range; range_end range] in
  let diagnostic_positions :=
    match diagnostic with
    | Some diagnostic =>
        ends (odiag_range diagnostic)
        ++ concat ((fun related => ends (odrelated_range related)) <$> odiag_related diagnostic)
    | None => []
    end in
  let event_positions := (fun event => range_start (event_range event)) <$> take_N MAX_INTERACTIVE_EVENTS events in
  take_N 24
    (dedup_by N.eqb
       (sort_by N.leb
          ([cursor] ++ omap (from_proto_offset index) diagnostic_positions
           ++ omap (from_proto_offset index) event_positions))).

(** Calls at the cursor first. *)
Definition insight_key (cursor : N) (insight : OwnershipCallInsight) : bool * (N * N) :=
  let range := insight_range insight in
  (negb ((range.1 <=? cursor) && (cursor <=? range.2))%N, range).

Definition ordered_insights (cursor : N) (insights : list OwnershipCallInsight) : list OwnershipCallInsight :=
  dedup_by (fun a b => same_range (insight_range a) (insight_range b))
    (sort_by (on (insight_key cursor) (lex_leb bool_cmp range_pair_leb)) insights).

Definition effect_to_lsp (effect : OwnershipCallEffect) : OwnershipOperationEffect :=
  mk_effect (ceffect_kind effect) (ceffect_summary effect) (ceffect_certainty effect).

Definition alternative_to_lsp (alternative : OwnershipCallAlternative) : OwnershipOperationAlternative :=
  mk_alternative (calt_name alternative) (calt_signature alternative) (calt_access alternative)
    (calt_behavior alternative) (calt_difference alternative).

Definition receiver_to_lsp (receiver : OwnershipCallReceiver) : result OwnershipOperationReceiver :=
  range ← expect (to_proto_range index (creceiver_range receiver));
  Ok (mk_receiver (creceiver_expression receiver) range (creceiver_transfer receiver) (creceiver_after receiver)
    (creceiver_provenance receiver)).

Definition argument_to_lsp (argument : OwnershipCallArgument) : result OwnershipOperationArgument :=
  range ← expect (to_proto_range index (cargument_range argument));
  Ok (mk_argument (cargument_index argument) (cargument_expression argument) range
    (cargument_parameter_type argument) (cargument_transfer argument) (cargument_after argument)
    (cargument_provenance argument)).

Definition return_to_lsp (returned : OwnershipCallReturn) : OwnershipOperationReturn :=
  mk_return (creturn_type_name returned) (creturn_kind returned) (creturn_borrowed_from returned)
    (creturn_after returned) (creturn_provenance returned).

Definition operation_to_lsp (entry : N * OwnershipCallInsight) : result OwnershipOperationInsight :=
  let '(i, insight) := entry in
  range ← expect (to_proto_range index (insight_range insight));
  receiver ← map_ok receiver_to_lsp (insight_receiver_flow insight);
  arguments ← mapM argument_to_lsp (insight_argument_flows insight);
  Ok (mk_operation
    ("operation-" +:+ show i +:+ "-" +:+ show (insight_range insight).1 +:+ "-" +:+ insight_name insight)
    range (insight_name insight) (insight_signature insight) (insight_receiver_type insight)
    (insight_required_access insight) (insight_available_access insight) (insight_why_required insight)
    (insight_documentation insight) (insight_effects insight) (effect_to_lsp <$> insight_effect_facts insight)
    (insight_call_chain insight) (alternative_to_lsp <$> insight_alternatives insight) (insight_provenance insight)
    (insight_truncated insight) (insight_summary insight) (insight_ownership_relevant insight)
    receiver arguments (Some (return_to_lsp (insight_return_flow insight)))).
End operations.

Section answer.
Context {Node Function : Type} `{SyntaxTree Node} `{EqDecision Function}.
Context (snap : OwnershipSnapshot) (check_fixes : Table (list RepairFix)).

(** [analysis.parse(file).ok()], the tree the semantic analyses read (an error when the
    query is cancelled), their answers, and the assists at a range. *)
Context (parse : FileId -> option Node) (analyzed : FileId -> result Node) (sema : Semantics Node Function).
Context (assists : FileId -> N * N -> result (list CodeAction)).

(** [ownership_fix_file_label] and the last component of the path a URI names *)
Context (file_label : string -> string) (file_name : string -> option string).

Definition selected_body_at (file_id : FileId) (request_range : Range) : option N :=
  let tutorial := ownership_tutorial_for_file (osnap_models snap) file_id in
  let selected := selected_event_at (ownership_events_for_file (osnap_events snap) file_id) request_range in
  let body := (ownership_selection_context selected tutorial request_range).1 in
  match selected with
  | Some _ => body
  | None =>
      or_else body (fun _ =>
        tbody_body_id <$> find_first (fun body => ranges_touch (tbody_range body) request_range) (tmodel_bodies tutorial))
  end.

(** Where the assists are asked for: at the nearest binding of the name in the tree, at
    the compiler's binding, at the event's, or at the cursor. *)
Definition candidate_name (diagnostic : option OwnershipDiagnostic) (selected_name : option string) : option string :=
  ownership_root_name <$>
    or_else (diagnostic ≫= (fun diagnostic => ownership_name_from_message (odiag_message diagnostic)))
      (fun _ => selected_name).

Definition syntax_candidate_range (file : option Node) (name : option string) (cursor : N) : option (N * N) :=
  name ← name;
  file ← file;
  min_by (on (fun range : N * N => abs_diff range.1 cursor) N.leb)
    (omap (fun pattern =>
       pattern_name ← name_of pattern;
       if first_token_text pattern_name =s name then Some (node_range pattern_name) else None) (ident_pats file)).

Definition binding_candidate (tutorial : OwnershipTutorialModel) (selected_body_id : option N) (selected_name : option string) :
    option OwnershipTutorialBinding :=
  find_first (fun binding =>
    match selected_body_id with Some body_id => (tbinding_body_id binding =? body_id)%N | None => true end
    && match selected_name with
       | Some name =>
           ownership_name_refers_to_binding name (tbinding_name binding)
           || ownership_name_refers_to_binding (tbinding_name binding) name
       | None => false
       end) (tmodel_bindings tutorial).

Definition candidate_range (file_id : FileId) (source : string) (request_range : Range) (cursor : N) : N * N :=
  let index := line_index_new source in
  let tutorial := ownership_tutorial_for_file (osnap_models snap) file_id in
  let diagnostic :=
    selected_diagnostic_at (ownership_diagnostics_for_file (osnap_diagnostics snap) file_id) request_range in
  let selected := selected_event_at (ownership_events_for_file (osnap_events snap) file_id) request_range in
  let selected_name := selected_name_at snap file_id request_range in
  default (cursor, cursor)
    (or_else (syntax_candidate_range (parse file_id) (candidate_name diagnostic selected_name) cursor) (fun _ =>
     or_else
       (binding ← binding_candidate tutorial (selected_body_at file_id request_range) selected_name;
        from_proto_text_range index (tbinding_range binding)) (fun _ =>
     event ← selected;
     from_proto_text_range index (ev_binding_range event)))).

(** The answer about a position of a file; [cursor] is its offset. *)
Definition model_answer (file_id : FileId) (source uri : string) (request_range : Range) (cursor : N) :
    result OwnershipModel :=
  let index := line_index_new source in
  let tutorial := ownership_tutorial_for_file (osnap_models snap) file_id in
  let all_events := ownership_events_for_file (osnap_events snap) file_id in
  let diagnostic :=
    selected_diagnostic_at (ownership_diagnostics_for_file (osnap_diagnostics snap) file_id) request_range in
  let selected := selected_event_at all_events request_range in
  let selected_body_id := selected_body_at file_id request_range in
  let selected_name := selected_name_at snap file_id request_range in
  let events := served_events selected_body_id selected_name selected all_events in
  let bindings := served_bindings tutorial selected_body_id selected_name in
  conflict_graph ←
    match diagnostic, parse file_id with
    | Some diagnostic, Some file => ownership_conflict_graph file index tutorial selected_body_id diagnostic
    | _, _ => Ok None
    end;
  repairs ←
    ownership_repairs file_label snap check_fixes
      (assists file_id (candidate_range file_id source request_range cursor)) file_id source uri request_range;
  tree ← analyzed file_id;
  let insights :=
    ordered_insights cursor
      (ownership_call_insights_for_positions sema tree (operation_positions index cursor diagnostic events)) in
  operations ← mapM (operation_to_lsp index) (enumerate (take_N 64 insights));
  let mutation_requirement := ownership_mutation_requirement index diagnostic (parse file_id) operations in
  source_context ←
    map_ok (fun file => ownership_source_context index file_name uri file request_range operations bindings) (parse file_id);
  let selected_place :=
    or_else (requirement_target_place <$> mutation_requirement) (fun _ =>
    or_else (ev_place <$> selected) (fun _ =>
    diagnostic ≫= (fun diagnostic => ownership_name_from_message (odiag_message diagnostic)))) in
  Ok (ownership_model_result tutorial selected selected_body_id selected_name all_events source
    (mk_other
       ((fun diagnostic => problem_id (ownership_problem_from_diagnostic all_events tutorial diagnostic)) <$> diagnostic)
       selected_place (answer_trace conflict_graph events operations) repairs operations mutation_requirement
       conflict_graph source_context (ownership_c_sketch selected_name bindings events repairs)
       (64 <? len insights)%N)).

Definition handle_ownership_model (uri : string) (position : Position) : result OwnershipModel :=
  let request_range := mk_range position position in
  file ← file_range snap uri request_range;
  match file with
  | None => Ok (default_model EmptyString)
  | Some (file_id, source) =>
      cursor ← expect (from_proto_offset (line_index_new source) position);
      model_answer file_id source uri request_range cursor
  end.
End answer.
