(* ===== verification/AnalyzerAnswerSpec.v ===== *)
(** * rust-analyzer: when the editor accepts the whole answer

    The answer about a position never fails for a file of the workspace, and nearly
    everything the editor demands of it is guaranteed: what can still be refused is
    listed, and shown to happen. *)

From Stdlib Require Import Ascii String.
From S2P Require Import Prelude RustStr RustColl RustPath MemoryGraph RepairPlan Autofix AutofixDriver AnalyzerData AnalyzerModel AnalyzerState AnalyzerProblems AnalyzerProblemsSpec AnalyzerPreview AnalyzerRepairs AnalyzerRepairsSpec PipelineSpec LineIndex LineIndexSpec AnalyzerSyntax AnalyzerSyntaxSpec AnalyzerConflict AnalyzerConflictSpec AnalyzerInsight AnalyzerInsightSpec AnalyzerContext AnalyzerContextSpec AnalyzerAnswer.
From S2P Require Import Protocol Bridge BridgeSpec.
From stdpp Require Import options.

(** ** Operations *)

Section operations.
Context {Node Function : Type} `{SyntaxTree Node} `{EqDecision Function} (sema : Semantics Node Function).
Context (text : string) (root : Node) `{!SyntaxTreeLaws text root} (utf8 : valid_utf8 text = true).

Lemma token_calls_belong ancestors (call : Node) :
  (forall a, a ∈ ancestors -> belongs (root:=root) a) -> call ∈ token_calls ancestors -> belongs (root:=root) call.
Proof using Type.
  intros Ha Hc. unfold token_calls in Hc.
  assert (forall c, c ∈ retain is_call ancestors -> belongs (root:=root) c) as Hr.
  { intros c [_ Hin]%elem_of_retain. by apply Ha. }
  destruct (retain is_call ancestors) as [|x l]; [|by apply Hr].
  destruct (find_first _ _) as [s|] eqn:E; [|by apply not_elem_of_nil in Hc].
  apply find_first_Some in E as [_ E]. apply elem_of_retain in Hc as [_ Hc]. eapply descendant_belongs; [|exact Hc]. by apply Ha.
Qed.

Lemma calls_at_belong offset (call : Node) : call ∈ calls_at_position root offset -> belongs (root:=root) call.
Proof using SyntaxTreeLaws0.
  clear utf8. unfold calls_at_position. intros Hc. eapply elem_of_sublist in Hc; [|apply take_N_sublist].
  eapply elem_of_sublist in Hc; [|apply dedup_by_sublist]. rewrite sort_by_perm in Hc.
  apply list_elem_of_In, in_concat in Hc as (l & (token & -> & Ht)%list_elem_of_In%list_elem_of_fmap & Hc%list_elem_of_In).
  rewrite sort_by_perm in Ht. eapply token_calls_belong; [|exact Hc]. intros a. by apply ancestor_belongs with (offset := offset).
Qed.

Lemma insights_of_calls positions insight :
  insight ∈ ownership_call_insights_for_positions sema root positions ->
  exists call, belongs (root:=root) call /\ explain_call sema call = Some insight.
Proof using SyntaxTreeLaws0.
  clear utf8. unfold ownership_call_insights_for_positions. intros (call & Hc & He)%list_elem_of_omap. exists call. split; [|done].
  eapply elem_of_sublist in Hc; [|apply take_N_sublist]. unfold sorted_calls in Hc.
  eapply elem_of_sublist in Hc; [|apply dedup_by_sublist]. rewrite sort_by_perm in Hc.
  apply list_elem_of_In, in_concat in Hc as (l & (offset & -> & _)%list_elem_of_In%list_elem_of_fmap & Hc%list_elem_of_In).
  by eapply calls_at_belong.
Qed.

Lemma args_belong (call a : Node) : belongs (root:=root) call -> a ∈ args_of call -> belongs (root:=root) a.
Proof using Type.
  unfold args_of. intros Hc Ha. destruct (support_child (kind_is ARG_LIST) call) as [args|] eqn:E; cbn in Ha;
    [|by apply not_elem_of_nil in Ha].
  apply elem_of_retain in Ha as [_ Ha]. eapply child_belongs; [|exact Ha]. by eapply support_child_belongs.
Qed.

(** What the editor can object to in an operation. *)
Definition operation_fits (o : OwnershipOperationInsight) : Prop :=
  bounded (operation_effects o) 64 /\ bounded (operation_argument_flows o) 32.

Lemma operation_ok i (call : Node) insight :
  belongs (root:=root) call -> explain_call sema call = Some insight ->
  exists o, operation_to_lsp (line_index_new text) (i, insight) = Ok o /\ range_ordered (operation_range o) /\
    operation_effects o = insight_effects insight /\ operation_call_chain o = insight_call_chain insight /\
    len (operation_argument_flows o) = len (args_of call) /\
    (well_formed_operation o <-> operation_fits o).
Proof using utf8 SyntaxTreeLaws0.
  intros Hc He. destruct (explain_call_within sema call insight He) as [[W1 W2 W3 W4 _ _] Hrange].
  unfold operation_to_lsp. rewrite Hrange.
  destruct (to_proto_range_ordered text (node_range call) utf8 (belongs_range call Hc)) as (range & -> & Hr). cbn [expect mbind result_bind].
  assert (exists r, map_ok (receiver_to_lsp (line_index_new text)) (insight_receiver_flow insight) = Ok r) as [receiver ->].
  { unfold explain_call in He. apply bind_Some in He as ([f r] & Hres & [= <-]). cbn [insight_receiver_flow].
    destruct r as [r|]; cbn [fmap option_fmap option_map map_ok]; [|by eexists]. unfold receiver_to_lsp, receiver_flow.
    cbn [creceiver_range]. assert (belongs (root:=root) r) as Hb.
    { unfold resolve_call in Hres. destruct (has_kind METHOD_CALL_EXPR call).
      - apply bind_Some in Hres as (g & _ & [= _ Hx]). eapply support_child_belongs; [exact Hc|exact Hx].
      - by apply bind_Some in Hres as (g & _ & (h & _ & [=])%bind_Some). }
    destruct (to_proto_range_ordered text (node_range r) utf8 (belongs_range r Hb)) as (x & -> & _). cbn. by eexists. }
  cbn [mbind result_bind].
  destruct (mapM_ok (argument_to_lsp (line_index_new text)) (insight_argument_flows insight)) as (arguments & -> & H2).
  { intros a Ha. unfold explain_call in He. apply bind_Some in He as ([f r] & Hres & [= <-]). cbn [insight_argument_flows] in Ha.
    apply list_elem_of_fmap in Ha as ([j node] & -> & Hn). apply enumerate_lookup, list_elem_of_lookup_2 in Hn.
    unfold argument_to_lsp, argument_flow. cbn [cargument_range].
    destruct (to_proto_range_ordered text (node_range node) utf8 (belongs_range node (args_belong _ _ Hc Hn))) as (x & -> & _).
    cbn. by eexists. }
  cbn [mbind result_bind]. eexists. split; [reflexivity|].
  cbn [operation_range operation_effects operation_call_chain operation_argument_flows].
  apply Forall2_length in H2. split; [done|]. split; [done|]. split; [done|].
  split; [unfold len in *; rewrite <-H2; lia|]. unfold operation_fits.
  cbn [operation_effects operation_argument_flows]. split; [by intros []|]. intros [Ha Hb]. split; cbn; try done.
  - rewrite bounded_fmap. unfold bounded in *. lia.
  - rewrite bounded_fmap. unfold bounded. lia.
Qed.
End operations.

(** ** The answer *)

(** The state the analyzer answers from: the file is open and its text is UTF-8, its tree
    is at hand, the compiler's facts come from an artifact, and the ranges the compiler
    reported are in order. *)
Record file_ready {Node} `{SyntaxTree Node} (snap : OwnershipSnapshot) (parse : FileId -> option Node)
    (analyzed : FileId -> result Node) (uri live : string) (position : Position) (file_id : FileId) (root : Node)
    (artifact : OwnershipModelArtifact) (source : OwnershipModelSource) (text : string) : Prop := {
  ready_file : file_range snap uri (request_at position) = Ok (Some (file_id, live));
  ready_utf8 : valid_utf8 live = true;
  ready_parse : parse file_id = Some root;
  ready_analyzed : analyzed file_id = Ok root;
  ready_tutorial : ownership_tutorial_for_file (osnap_models snap) file_id =
    ownership_tutorial_model_for_source source text artifact;
  ready_schema : (artifact_schema_version artifact <= 7)%N;
  ready_graph : readable (artifact_memory_graph artifact);
  ready_events : events_ordered (ownership_events_for_file (osnap_events snap) file_id);
  ready_diagnostics : Forall diagnostic_ordered (ownership_diagnostics_for_file (osnap_diagnostics snap) file_id)
}.

(** What the editor can still refuse an answer for. *)
Record answer_fits (answer : OwnershipModel) : Prop := {
  fits_facts : facts_accepted answer;
  fits_repairs : bounded (model_repairs answer) 16;
  fits_previews : Forall (fun r => text_bounded (repair_diff r) /\ bounded (repair_affected_files r) 64) (model_repairs answer);
  fits_operations : Forall operation_fits (model_operations answer);
  fits_call_paths : optional (fun c => Forall (fun p : list string => bounded p 32) (context_call_paths c))
    (model_source_context answer);
  fits_sketch : optional (fun s => text_bounded (sketch_code s)) (model_c_sketch answer)
}.

Lemma elem_of_enumerate {A} (l : list A) i x : (i, x) ∈ enumerate l -> x ∈ l.
Proof. intros H%enumerate_lookup. by eapply list_elem_of_lookup_2. Qed.

Lemma served_event_ranges body name selected all_events :
  events_ordered all_events ->
  Forall (fun e => range_ordered (event_range e) /\ range_ordered (event_binding_range e))
    (served_events body name selected all_events).
Proof.
  unfold events_ordered. rewrite !Forall_forall. intros He e Hin. unfold served_events, matching_events in Hin.
  eapply elem_of_sublist in Hin; [|apply truncate_sublist]. apply list_elem_of_fmap in Hin as (x & -> & [_ Hx]%elem_of_retain).
  by apply He.
Qed.

Section answer.
Context {Node Function : Type} `{SyntaxTree Node} `{EqDecision Function}.
Context (snap : OwnershipSnapshot) (check_fixes : Table (list RepairFix)).
Context (parse : FileId -> option Node) (analyzed : FileId -> result Node) (sema : Semantics Node Function).
Context (assists : FileId -> N * N -> result (list CodeAction)).
Context (file_label : string -> string) (file_name : string -> option string).
Context (uri live : string) (position : Position) (file_id : FileId) (root : Node) `{!SyntaxTreeLaws live root}.
Context (artifact : OwnershipModelArtifact) (source : OwnershipModelSource) (text : string).
Context (ready : file_ready snap parse analyzed uri live position file_id root artifact source text).
Context (assisted : forall range, exists actions, assists file_id range = Ok actions).

Lemma ready_cursor : exists cursor, from_proto_offset (line_index_new live) position = Some cursor.
Proof using ready SyntaxTreeLaws0.
  destruct ready as [Hf _ _ _ _ _ _ _ _]. unfold file_range in Hf.
  destruct (osnap_file_id snap uri) as [[id|]|]; cbn in Hf; try done.
  destruct (osnap_file_text snap id) as [s|]; cbn in Hf; [|done].
  destruct (from_proto_text_range (line_index_new s) (request_at position)) as [r|] eqn:E; [|done].
  injection Hf as _ <-. apply bind_Some in E as (c & Hc & _). by exists c.
Qed.

Lemma conflict_of_answer :
  exists g, match selected_diagnostic_at (ownership_diagnostics_for_file (osnap_diagnostics snap) file_id)
                    (request_at position), parse file_id with
            | Some diagnostic, Some file =>
                ownership_conflict_graph file (line_index_new live)
                  (ownership_tutorial_for_file (osnap_models snap) file_id) (selected_body_at snap file_id (request_at position)) diagnostic
            | _, _ => Ok None
            end = Ok g /\ optional well_formed_conflict g.
Proof using ready SyntaxTreeLaws0.
  destruct ready as [_ Hu Hp _ Ht _ _ _ Hd]. rewrite Hp.
  destruct (selected_diagnostic_at _ _) as [d|] eqn:E; [|by exists None].
  apply find_first_Some in E as [_ E]. rewrite Forall_forall in Hd. specialize (Hd d E).
  apply (conflict_graph_ok live root (ownership_tutorial_for_file (osnap_models snap) file_id)
    (selected_body_at snap file_id (request_at position)) d Hu Hd).
  rewrite Ht. apply Forall_forall. intros b. apply tutorial_bindings_ordered.
Qed.

Lemma operations_of_answer insights :
  (forall insight, insight ∈ insights -> exists call, belongs (root:=root) call /\ explain_call sema call = Some insight) ->
  exists operations, mapM (operation_to_lsp (line_index_new live)) (enumerate (take_N 64 insights)) = Ok operations /\
    bounded operations 64 /\ Forall (fun o => range_ordered (operation_range o)) operations /\
    (Forall well_formed_operation operations <-> Forall operation_fits operations).
Proof using ready SyntaxTreeLaws0.
  intros Hi. pose proof (ready_utf8 _ _ _ _ _ _ _ _ _ _ _ ready) as Hu.
  assert (forall i insight, (i, insight) ∈ enumerate (take_N 64 insights) ->
    exists o, operation_to_lsp (line_index_new live) (i, insight) = Ok o /\ range_ordered (operation_range o) /\
      (well_formed_operation o <-> operation_fits o)) as Ho.
  { intros i insight Hin%elem_of_enumerate. eapply elem_of_sublist in Hin; [|apply take_N_sublist].
    destruct (Hi insight Hin) as (call & Hc & He). destruct (operation_ok sema live root Hu i call insight Hc He) as (o & H1 & H2 & _ & _ & _ & H3).
    by exists o. }
  destruct (mapM_ok (operation_to_lsp (line_index_new live)) (enumerate (take_N 64 insights))) as (operations & Hm & H2).
  { intros [i insight] Hin. destruct (Ho i insight Hin) as (o & Hx & _). by exists o. }
  assert (forall o, o ∈ operations -> range_ordered (operation_range o) /\ (well_formed_operation o <-> operation_fits o)) as Hall.
  { intros o (k & Hk)%list_elem_of_lookup. destruct (Forall2_lookup_r _ _ _ _ _ H2 Hk) as ([i insight] & Hl & He).
    destruct (Ho i insight) as (o' & He' & Hr & Hw); [by eapply list_elem_of_lookup_2|]. assert (o' = o) as -> by congruence. done. }
  exists operations. split; [done|]. split; [|split].
  - apply Forall2_length in H2. rewrite length_enumerate in H2. pose proof (take_N_bounded 64 insights) as Hb.
    unfold bounded, len in *. lia.
  - apply Forall_forall. intros o Hin. exact (proj1 (Hall o Hin)).
  - rewrite !Forall_forall. split; intros Hf o Hin; by apply (proj2 (Hall o Hin)), Hf.
Qed.

Lemma answer_served :
  exists answer, handle_ownership_model snap check_fixes parse analyzed sema assists file_label file_name uri position = Ok answer /\
    (validate_ownership_model answer = Ok tt <-> answer_fits answer).
Proof using ready assisted SyntaxTreeLaws0.
  destruct ready_cursor as [cursor Hcur]. destruct conflict_of_answer as (g & Hg & Hgw).
  unfold handle_ownership_model. fold (request_at position). rewrite (ready_file _ _ _ _ _ _ _ _ _ _ _ ready).
  cbn [mbind result_bind]. rewrite Hcur. cbn [expect mbind result_bind]. unfold model_answer. rewrite Hg.
  cbn [mbind result_bind]. match goal with |- context [assists file_id ?r] => destruct (assisted r) as [actions ->] end.
  destruct (ownership_repairs file_label snap check_fixes (Ok actions) file_id live uri (request_at position)) as [repairs|] eqn:Hrep;
    [|by unfold ownership_repairs in Hrep; cbn in Hrep].
  cbn [mbind result_bind]. rewrite (ready_analyzed _ _ _ _ _ _ _ _ _ _ _ ready). cbn [mbind result_bind].
  set (events := served_events _ _ _ _). set (insights := ordered_insights cursor _).
  destruct (operations_of_answer insights) as (operations & -> & Hob & Hor & How).
  { intros insight Hin. unfold insights, ordered_insights in Hin. eapply elem_of_sublist in Hin; [|apply dedup_by_sublist].
    rewrite sort_by_perm in Hin. by eapply insights_of_calls. }
  cbn [mbind result_bind]. rewrite (ready_parse _ _ _ _ _ _ _ _ _ _ _ ready). cbn [map_ok].
  destruct (source_context_ok live root (ready_utf8 _ _ _ _ _ _ _ _ _ _ _ ready) file_name uri (request_at position) operations
    (served_bindings (ownership_tutorial_for_file (osnap_models snap) file_id)
       (selected_body_at snap file_id (request_at position)) (selected_name_at snap file_id (request_at position))))
    as (context & -> & _ & _ & _ & _ & Hcx).
  cbn [mbind result_bind]. eexists. split; [reflexivity|].
  rewrite (ready_tutorial _ _ _ _ _ _ _ _ _ _ _ ready), answer_accepted_iff; [|apply ready..].
  pose proof (repairs_shape _ _ _ _ _ _ _ _ _ Hrep) as Hrs.
  destruct (answer_trace_ok g events operations Hgw (served_event_ranges _ _ _ _ (ready_events _ _ _ _ _ _ _ _ _ _ _ ready)) Hor) as [Htb Hto].
  split.
  - intros [Hf [_ Hr [_ Ho] _ Hx Hs]]. cbn in Hr, Ho, Hx, Hs. split; cbn [ownership_model_result model_repairs model_operations model_source_context model_c_sketch]; try done.
    + by apply Hrs in Hr as [? _].
    + by apply Hrs in Hr as [_ ?].
    + by apply How.
    + intros c [= <-]. by apply Hcx, Hx.
  - intros [Hf Hr Hp Ho Hx Hs]. cbn [ownership_model_result model_repairs model_operations model_source_context model_c_sketch] in *.
    split; [done|]. split; cbn; try done.
    + by apply Hrs.
    + split; [done|]. by apply How.
    + intros c [= <-]. by apply Hcx, Hx.
Qed.
End answer.

(** C1: For a file of the workspace the analyzer answers, and the editor accepts the
    answer exactly when the compiler's facts meet the demands that neither side sees to,
    there are at most 16 repairs with previews of at most 256 KiB and 64 files, each call
    has at most 64 effects and 32 arguments, no chain of calls is longer than 32, and the
    sketch is at most 256 KiB long.  Everything else the editor checks -- the conflict
    graph, the trace, the context, the preview graphs, all ranges and identifiers -- is
    guaranteed. *)
Theorem model_answer_accepted_iff {Node Function} `{SyntaxTree Node} `{EqDecision Function} snap check_fixes parse analyzed
    (sema : Semantics Node Function) assists file_label file_name uri live position file_id (root : Node)
    `{!SyntaxTreeLaws live root} artifact source text :
  file_ready snap parse analyzed uri live position file_id root artifact source text ->
  (forall range, exists actions, assists file_id range = Ok actions) ->
  exists answer,
    handle_ownership_model snap check_fixes parse analyzed sema assists file_label file_name uri position = Ok answer /\
    (validate_ownership_model answer = Ok tt <-> answer_fits answer).
Proof. intros Hr Ha. by eapply answer_served. Qed.

(** ** A file with a borrow conflict *)

Definition borrow_snap : OwnershipSnapshot :=
  mk_osnap (fun _ => Ok (Some 1%N)) (fun _ => Ok borrow_text) (fun _ => "file:///main.rs") (fun _ => true)
    [{[ None := {[ 1%N := [borrow_conflict] ]} ]}] [{[ None := {[ 1%N := [] ]} ]}] ∅.

Definition conflict_site : Position := mk_position 0 22.

(** The answer at the conflict, with the semantics of a workspace. *)
Definition answer_at_conflict (sema : Semantics Red string) : result OwnershipModel :=
  handle_ownership_model borrow_snap (fix_table []) (fun _ => Some borrow_tree) (fun _ => Ok borrow_tree) sema
    (fun _ _ => Ok []) id (fun _ => Some "main.rs") "file:///main.rs" conflict_site.

Definition is_accepted (answer : result OwnershipModel) : bool :=
  match answer with
  | Ok answer => is_ok (validate_ownership_model answer)
  | Err _ => false
  end.

Lemma borrow_diagnostics :
  ownership_diagnostics_for_file (osnap_diagnostics borrow_snap) 1%N = [borrow_conflict].
Proof. vm_compute. reflexivity. Qed.

Lemma borrow_ready :
  file_ready borrow_snap (fun _ => Some borrow_tree) (fun _ => Ok borrow_tree) "file:///main.rs" borrow_text conflict_site 1%N
    borrow_tree empty_artifact sample_source EmptyString.
Proof.
  split; try reflexivity.
  - vm_compute. congruence.
  - split; unfold unique_ids, bounded; apply (bool_decide_unpack _); vm_compute; exact I.
  - vm_compute. constructor.
  - rewrite borrow_diagnostics. constructor; [apply borrow_conflict_ordered|constructor].
Qed.

Lemma model_answer_accepted_iff_witness :
  exists answer, answer_at_conflict sample_semantics = Ok answer /\ answer_fits answer.
Proof.
  destruct (model_answer_accepted_iff borrow_snap (fix_table []) (fun _ => Some borrow_tree) (fun _ => Ok borrow_tree)
    sample_semantics (fun _ _ => Ok []) id (fun _ => Some "main.rs") "file:///main.rs" borrow_text conflict_site 1%N borrow_tree
    (SyntaxTreeLaws0 := borrow_tree_laws) empty_artifact sample_source EmptyString borrow_ready) as (answer & Ha & Hiff).
  { intros range. exists []. reflexivity. }
  exists answer. split; [exact Ha|]. apply Hiff.
  assert (is_accepted (answer_at_conflict sample_semantics) = true) as Hv by (vm_compute; reflexivity).
  unfold answer_at_conflict in Hv. rewrite Ha in Hv. unfold is_accepted in Hv.
  destruct (validate_ownership_model answer) as [[]|]; [reflexivity|discriminate].
Defined.

(** ** Answers the editor refuses *)

(** [push] with another body. *)
Definition push_with (body : Red) : Semantics Red string :=
  mk_semantics _ _
    (fun n => if contains ".push" (node_text n) then Some "push" else if contains ".step" (node_text n) then Some "step" else None)
    (fun _ => None) (fun _ _ => Some "Stack") (fun _ => false) (fun f => f) (fun f => f) (fun _ => Some Exclusive)
    (fun _ => None) (fun _ => false) (fun _ => true) (fun _ => ["i32"]) (fun _ => "()")
    (fun f => if f =s "push" then Some body else None).

(** A function of the workspace that makes 32 calls inside the workspace: the chain of
    calls has 33 names, and the whole answer is refused. *)
Definition stepping_body : Red :=
  (0%N, function_of (replicate 32 (GNode EXPR_STMT [method_call (path_expr "s") "step" (literal "1"); other_token ";"]))).

Lemma long_call_chain_refused :
  is_accepted (answer_at_conflict (push_with assign_tree)) = true /\
  is_accepted (answer_at_conflict (push_with stepping_body)) = false.
Proof. split; vm_compute; reflexivity. Qed.

(** A body with 65 effects, no two alike in a row: the analyzer keeps up to 256, the
    editor takes 64. *)
Definition busy_body : Red :=
  (0%N, function_of (concat (replicate 33
     [GNode EXPR_STMT [GNode BIN_EXPR [path_expr "n"; GToken EQ "="; literal "1"]; other_token ";"];
      GNode EXPR_STMT [GNode REF_EXPR [GToken AMP "&"; GToken MUT_KW "mut "; path_expr "n"]; other_token ";"]]))).

Lemma many_effects_refused : is_accepted (answer_at_conflict (push_with busy_body)) = false.
Proof. vm_compute. reflexivity. Qed.
