(* ===== verification/AnalyzerTokens.v ===== *)
(** * rust-analyzer: semantic tokens

    The colours of a file: [lsp/semantic_tokens.rs] encodes tokens relative to each other
    and computes what changed since the last answer; [enrich_ownership_tokens] of
    [handlers/request.rs] decodes them again and marks those that ownership events are
    about; the handlers keep the last answer of each file, so that the editor can ask for
    the changes only.  Numbers are 32 bits wide and wrap around. *)

From Stdlib Require Import Ascii String.
From S2P Require Import Prelude RustStr RustColl MemoryGraph AutofixDriver AnalyzerData AnalyzerModel AnalyzerState.
From S2P Require Import Protocol.
From stdpp Require Import options.

Definition wrapping_add (a b : N) : N := (a + b) mod 2 ^ 32.
Definition wrapping_sub (a b : N) : N := (a + 2 ^ 32 - b) mod 2 ^ 32.

(** ** Modifiers *)

Inductive SupportedModifiers : Type :=
  | Async | Documentation | Declaration | Static | DefaultLibrary | Deprecated | Dropped | Associated
  | AttributeModifier | BorrowEnd | Borrowed | BorrowedMut | Callable | Constant | Consuming | ControlFlow
  | CrateRoot | Injected | IntraDocLink | InvalidUse | Library | LastUse | MacroModifier | Moved | Mutable
  | PartialMove | ProcMacroModifier | Public | Reference | Reinitialized | TraitModifier | Unsafe.

#[global] Instance SupportedModifiers_eq_dec : EqDecision SupportedModifiers.
Proof. solve_decision. Defined.

(** [SupportedModifiers::iter()] *)
Definition all_modifiers : list SupportedModifiers :=
  [Async; Documentation; Declaration; Static; DefaultLibrary; Deprecated; Dropped; Associated;
   AttributeModifier; BorrowEnd; Borrowed; BorrowedMut; Callable; Constant; Consuming; ControlFlow;
   CrateRoot; Injected; IntraDocLink; InvalidUse; Library; LastUse; MacroModifier; Moved; Mutable;
   PartialMove; ProcMacroModifier; Public; Reference; Reinitialized; TraitModifier; Unsafe].

(** [Display]; the names of the standard modifiers are the protocol's. *)
Definition modifier_name (modifier : SupportedModifiers) : string :=
  match modifier with
  | Async => "async"
  | Documentation => "documentation"
  | Declaration => "declaration"
  | Static => "static"
  | DefaultLibrary => "defaultLibrary"
  | Deprecated => "deprecated"
  | Dropped => "dropped"
  | Associated => "associated"
  | AttributeModifier => "attribute"
  | BorrowEnd => "borrowEnd"
  | Borrowed => "borrowed"
  | BorrowedMut => "borrowedMut"
  | Callable => "callable"
  | Constant => "constant"
  | Consuming => "consuming"
  | ControlFlow => "controlFlow"
  | CrateRoot => "crateRoot"
  | Injected => "injected"
  | IntraDocLink => "intraDocLink"
  | InvalidUse => "invalidUse"
  | Library => "library"
  | LastUse => "lastUse"
  | MacroModifier => "macro"
  | Moved => "moved"
  | Mutable => "mutable"
  | PartialMove => "partialMove"
  | ProcMacroModifier => "procMacro"
  | Public => "public"
  | Reference => "reference"
  | Reinitialized => "reinitialized"
  | TraitModifier => "trait"
  | Unsafe => "unsafe"
  end.

Definition modifier_bit (name : string) : option N :=
  (fun index => N.shiftl 1 index) <$> position (fun modifier => modifier_name modifier =s name) all_modifiers.

(** [OwnershipEventKind::modifier] *)
Definition kind_modifier (kind : RaEventKind.OwnershipEventKind) : string :=
  match kind with
  | RaEventKind.BorrowActivate => "borrowedMut"
  | RaEventKind.BorrowEnd => "borrowEnd"
  | RaEventKind.BorrowMutable => "borrowedMut"
  | RaEventKind.BorrowShared => "borrowed"
  | RaEventKind.Clone => "clone"
  | RaEventKind.Copy => "copy"
  | RaEventKind.Drop => "dropped"
  | RaEventKind.InvalidUse => "invalidUse"
  | RaEventKind.LastUse => "lastUse"
  | RaEventKind.Move => "moved"
  | RaEventKind.PartialMove => "partialMove"
  | RaEventKind.Reinitialize => "reinitialized"
  end.

Definition STANDARD_MOD : list SupportedModifiers :=
  [Async; Documentation; Declaration; Static; DefaultLibrary; Deprecated].
Definition LAST_STANDARD_MOD : N := len STANDARD_MOD - 1.

(** [ModifierSet::standard_fallback] *)
Definition standard_fallback (set : N) : N :=
  N.land set (N.lxor (N.ones 32) (N.shiftl (N.ones 32) LAST_STANDARD_MOD mod 2 ^ 32)).

(** [mods |= modifier] *)
Definition add_modifier (set : N) (modifier : SupportedModifiers) : N :=
  match position (fun it => bool_decide (it = modifier)) all_modifiers with
  | Some index => N.lor set (N.shiftl 1 index)
  | None => set
  end.

(** ** Tokens *)

Record SemanticToken : Type := mk_token {
  delta_line : N;
  delta_start : N;
  token_length : N;
  token_type : N;
  token_modifiers_bitset : N
}.

#[global] Instance SemanticToken_eq_dec : EqDecision SemanticToken.
Proof. solve_decision. Defined.

Record SemanticTokens : Type := mk_tokens {
  tokens_result_id : option string;
  tokens_data : list SemanticToken
}.

Record SemanticTokensBuilder : Type := mk_builder {
  builder_id : string;
  prev_line : N;
  prev_char : N;
  builder_data : list SemanticToken
}.

Definition builder_new (id : string) : SemanticTokensBuilder := mk_builder id 0 0 [].

(** The subtractions of [u32] wrap, as they do in a release build; a debug build panics on
    tokens that are not in order. *)
Definition builder_push (builder : SemanticTokensBuilder) (range : Range) (token_index modifier_bitset : N) :
    SemanticTokensBuilder :=
  let line := position_line (range_start range) in
  let char := position_character (range_start range) in
  let '(push_line, push_char) :=
    match builder_data builder with
    | [] => (line, char)
    | _ =>
        let push_line := wrapping_sub line (prev_line builder) in
        (push_line, if (push_line =? 0)%N then wrapping_sub char (prev_char builder) else char)
    end in
  let token_len := wrapping_sub (position_character (range_end range)) char in
  mk_builder (builder_id builder) line char
    (builder_data builder ++ [mk_token push_line push_char token_len token_index modifier_bitset]).

Definition build (builder : SemanticTokensBuilder) : SemanticTokens :=
  mk_tokens (Some (builder_id builder)) (builder_data builder).

(** ** What changed *)

Record SemanticTokensEdit : Type := mk_token_edit {
  edit_start : N;
  edit_delete_count : N;
  edit_data : option (list N)
}.

(** [<[u32; 5]>::from] *)
Definition token_words (token : SemanticToken) : list N :=
  [delta_line token; delta_start token; token_length token; token_type token; token_modifiers_bitset token].

Definition token_stream (tokens : list SemanticToken) : list N := concat (token_words <$> tokens).

(** [zip], [take_while] equal, [count] *)
Fixpoint common_prefix (new old : list SemanticToken) : nat :=
  match new, old with
  | n :: new, p :: old => if bool_decide (n = p) then S (common_prefix new old) else 0
  | _, _ => 0
  end.

Definition diff_tokens (old new : list SemanticToken) : list SemanticTokensEdit :=
  let offset := common_prefix new old in
  let old := drop offset old in
  let new := drop offset new in
  let offset_from_end := common_prefix (rev new) (rev old) in
  let old := take (length old - offset_from_end) old in
  let new := take (length new - offset_from_end) new in
  if is_nil old && is_nil new then []
  else
    [mk_token_edit (5 * N.of_nat offset mod 2 ^ 32) (5 * len old mod 2 ^ 32) (Some (token_stream new))].

(** ** Marking ownership events *)

Definition lsp_ranges_overlap (left_ right_ : Range) : bool :=
  position_leb (range_start left_) (range_end right_) && position_leb (range_start right_) (range_end left_).

Definition mark_token (token_range : Range) (bitset : N) (event : AnalyzerData.OwnershipEvent) : N :=
  if lsp_ranges_overlap (ev_range event) token_range then
    match modifier_bit (kind_modifier (ev_kind event)) with
    | Some bit => N.lor bitset bit
    | None => bitset
    end
  else bitset.

Definition with_modifiers (token : SemanticToken) (bitset : N) : SemanticToken :=
  mk_token (delta_line token) (delta_start token) (token_length token) (token_type token) bitset.

(** Where the tokens are: the position of one from that of the one before. *)
Definition decode_step (at_ : Position) (token : SemanticToken) : Position :=
  mk_position (wrapping_add (position_line at_) (delta_line token))
    (if (delta_line token =? 0)%N then wrapping_add (position_character at_) (delta_start token)
     else delta_start token).

Definition range_of_token (start : Position) (token : SemanticToken) : Range :=
  mk_range start
    (mk_position (position_line start) (wrapping_add (position_character start) (token_length token))).

Fixpoint enrich_from (at_ : Position) (tokens : list SemanticToken) (events : list AnalyzerData.OwnershipEvent) :
    list SemanticToken :=
  match tokens with
  | [] => []
  | token :: tokens =>
      let start := decode_step at_ token in
      with_modifiers token
        (foldl (mark_token (range_of_token start token)) (token_modifiers_bitset token) events)
      :: enrich_from start tokens events
  end.

Definition enrich_ownership_tokens (tokens : SemanticTokens) (events : list AnalyzerData.OwnershipEvent) :
    SemanticTokens :=
  mk_tokens (tokens_result_id tokens) (enrich_from (mk_position 0 0) (tokens_data tokens) events).

(** ** The handlers

    [TOKEN_RESULT_COUNTER] and [semantic_tokens_cache]; what the highlighter says of the
    file at the moment of a request is part of the request. *)
Record TokenState : Type := mk_tstate {
  token_counter : N;
  token_cache : gmap string SemanticTokens
}.

(** A highlighted range on one line, with its type and modifiers. *)
Record Highlight : Type := mk_highlight {
  hl_range : Range;
  hl_type : N;
  hl_modifiers : N
}.

Inductive TokensResponse : Type :=
  | FullTokens (tokens : SemanticTokens)
  | TokensDelta (result_id : option string) (edits : list SemanticTokensEdit).

(** [to_proto::semantic_tokens], from where the highlights are split into lines. *)
Definition semantic_tokens (state : TokenState) (highlights : list Highlight) : TokenState * SemanticTokens :=
  let builder := builder_new (show (token_counter state)) in
  (mk_tstate (wrapping_add (token_counter state) 1) (token_cache state),
   build (foldl (fun builder hl => builder_push builder (hl_range hl) (hl_type hl) (hl_modifiers hl)) builder highlights)).

Definition enriched_tokens (state : TokenState) (highlights : list Highlight)
    (events : list AnalyzerData.OwnershipEvent) : TokenState * SemanticTokens :=
  let '(state, tokens) := semantic_tokens state highlights in
  (state, enrich_ownership_tokens tokens events).

Definition cache_tokens (uri : string) (tokens : SemanticTokens) (state : TokenState) : TokenState :=
  mk_tstate (token_counter state) (<[uri := tokens]> (token_cache state)).

Definition forget_tokens (uri : string) (state : TokenState) : TokenState :=
  mk_tstate (token_counter state) (delete uri (token_cache state)).

Definition handle_semantic_tokens_full (state : TokenState) (uri : string) (highlights : list Highlight)
    (events : list AnalyzerData.OwnershipEvent) : TokenState * SemanticTokens :=
  let '(state, tokens) := enriched_tokens state highlights events in
  (cache_tokens uri tokens state, tokens).

Definition handle_semantic_tokens_full_delta (state : TokenState) (uri previous_result_id : string)
    (highlights : list Highlight) (events : list AnalyzerData.OwnershipEvent) : TokenState * TokensResponse :=
  let '(state, tokens) := enriched_tokens state highlights events in
  let cached := token_cache state !! uri in
  let state := cache_tokens uri tokens (forget_tokens uri state) in
  let full := FullTokens tokens in
  match cached with
  | Some cached_tokens =>
      match tokens_result_id cached_tokens with
      | Some prev_id =>
          if prev_id =s previous_result_id then
            (state, TokensDelta (tokens_result_id tokens) (diff_tokens (tokens_data cached_tokens) (tokens_data tokens)))
          else (state, full)
      | None => (state, full)
      end
  | None => (state, full)
  end.

Definition handle_semantic_tokens_range (state : TokenState) (highlights : list Highlight)
    (events : list AnalyzerData.OwnershipEvent) : TokenState * SemanticTokens :=
  enriched_tokens state highlights events.
