(* ===== verification/AnalyzerTokensSpec.v ===== *)
(** * rust-analyzer: semantic tokens are decoded as they were encoded

    Tokens encoded relative to each other decode to the ranges they were made from, marks
    of ownership events go to the tokens the events are about, an editor that applies the
    changes it is sent has the tokens of the server, and what falls between the lists of
    modifiers. *)

From Stdlib Require Import Ascii String.
From S2P Require Import Prelude RustStr RustColl MemoryGraph AutofixDriver AnalyzerData AnalyzerModel AnalyzerState AnalyzerTokens.
From S2P Require Import Protocol.
From stdpp Require Import options.

(** ** Arithmetic that wraps around *)

Lemma wrapping_add_sub a b : (a < 2 ^ 32)%N -> (b < 2 ^ 32)%N -> wrapping_add b (wrapping_sub a b) = a.
Proof.
  intros Ha Hb. unfold wrapping_add, wrapping_sub.
  rewrite N.Div0.add_mod_idemp_r. replace (b + (a + 2 ^ 32 - b))%N with (a + 1 * 2 ^ 32)%N by lia.
  rewrite N.Div0.mod_add. by apply N.mod_small.
Qed.

Lemma wrapping_sub_0 a : (a < 2 ^ 32)%N -> wrapping_sub a 0 = a.
Proof.
  intros Ha. unfold wrapping_sub. replace (a + 2 ^ 32 - 0)%N with (a + 1 * 2 ^ 32)%N by lia.
  rewrite N.Div0.mod_add. by apply N.mod_small.
Qed.

(** ** Encoding and decoding *)

Definition short_position (p : Position) : Prop := (position_line p < 2 ^ 32)%N /\ (position_character p < 2 ^ 32)%N.

(** A highlight as the protocol has it: 32 bits wide and on one line. *)
Definition one_line (hl : Highlight) : Prop :=
  short_position (range_start (hl_range hl)) /\ short_position (range_end (hl_range hl)) /\
  position_line (range_start (hl_range hl)) = position_line (range_end (hl_range hl)).

Definition push_highlight (builder : SemanticTokensBuilder) (hl : Highlight) : SemanticTokensBuilder :=
  builder_push builder (hl_range hl) (hl_type hl) (hl_modifiers hl).

Definition encode (highlights : list Highlight) : list SemanticToken :=
  builder_data (foldl push_highlight (builder_new "") highlights).

(** The tokens of highlights that follow a token at a position. *)
Definition token_after (at_ : Position) (hl : Highlight) : SemanticToken :=
  let line := position_line (range_start (hl_range hl)) in
  let char := position_character (range_start (hl_range hl)) in
  let push_line := wrapping_sub line (position_line at_) in
  mk_token push_line
    (if (push_line =? 0)%N then wrapping_sub char (position_character at_) else char)
    (wrapping_sub (position_character (range_end (hl_range hl))) char) (hl_type hl) (hl_modifiers hl).

Fixpoint tokens_after (at_ : Position) (highlights : list Highlight) : list SemanticToken :=
  match highlights with
  | [] => []
  | hl :: highlights => token_after at_ hl :: tokens_after (range_start (hl_range hl)) highlights
  end.

Lemma push_after builder highlights :
  builder_data builder <> [] ->
  builder_data (foldl push_highlight builder highlights) =
  builder_data builder ++ tokens_after (mk_position (prev_line builder) (prev_char builder)) highlights.
Proof.
  revert builder. induction highlights as [|hl rest IH]; intros builder Hne; cbn [foldl]; [by rewrite app_nil_r|].
  rewrite IH.
  - destruct builder as [id l c [|t ts]]; [done|]. destruct hl as [[[? ?] ?] ? ?]. cbn. by rewrite <- app_assoc.
  - unfold push_highlight, builder_push. case_match. cbn. by intros [? ?]%app_eq_nil.
Qed.

Lemma encode_tokens highlights :
  Forall one_line highlights -> encode highlights = tokens_after (mk_position 0 0) highlights.
Proof.
  intros Hall. destruct highlights as [|hl rest]; [done|]. unfold encode. cbn [foldl].
  rewrite push_after by done. inversion_clear Hall as [|? ? ((Hl & Hc) & _) _].
  destruct hl as [[[l c] [l' e]] ty mods]. cbn in Hl, Hc.
  cbn [tokens_after]. unfold token_after, push_highlight, builder_push, builder_new.
  cbn [builder_data prev_line prev_char hl_range hl_type hl_modifiers range_start range_end position_line position_character app].
  rewrite !wrapping_sub_0 by done. by destruct (N.eqb l 0).
Qed.

Lemma decode_token at_ hl :
  short_position at_ -> one_line hl ->
  decode_step at_ (token_after at_ hl) = range_start (hl_range hl) /\
  range_of_token (range_start (hl_range hl)) (token_after at_ hl) = hl_range hl.
Proof.
  intros [Hal Hac] ((Hl & Hc) & (_ & He) & Heq). destruct hl as [[[l c] [l' e]] ty mods]; cbn in *. subst l'.
  unfold decode_step, range_of_token. cbn. split; [|by rewrite wrapping_add_sub].
  rewrite wrapping_add_sub by done. f_equal.
  destruct (N.eqb_spec (wrapping_sub l (position_line at_)) 0); [|done]. by apply wrapping_add_sub.
Qed.

(** ** Marks *)

(** The modifiers of a token of the range after the events. *)
Definition marks (range : Range) (modifiers : N) (events : list AnalyzerData.OwnershipEvent) : N :=
  foldl (mark_token range) modifiers events.

Definition mark_highlight (events : list AnalyzerData.OwnershipEvent) (hl : Highlight) : Highlight :=
  mk_highlight (hl_range hl) (hl_type hl) (marks (hl_range hl) (hl_modifiers hl) events).

Lemma enrich_after at_ highlights events :
  short_position at_ -> Forall one_line highlights ->
  enrich_from at_ (tokens_after at_ highlights) events = tokens_after at_ (mark_highlight events <$> highlights).
Proof.
  intros Hat Hall. revert at_ Hat. induction Hall as [|hl rest Hhl _ IH]; intros at_ Hat; [done|].
  cbn [tokens_after enrich_from fmap list_fmap]. destruct (decode_token at_ hl Hat Hhl) as [-> ->].
  rewrite IH by apply Hhl. done.
Qed.

Lemma mark_one_line events highlights : Forall one_line highlights -> Forall one_line (mark_highlight events <$> highlights).
Proof. intros H. rewrite Forall_fmap. exact H. Qed.

(** Marking the encoded tokens of a file is encoding the marked tokens: the decoder of
    [enrich_ownership_tokens] finds the range each token was made from, and changes nothing
    but the modifiers of the tokens that events touch. *)
Lemma enrichment_commutes highlights events :
  Forall one_line highlights ->
  enrich_from (mk_position 0 0) (encode highlights) events = encode (mark_highlight events <$> highlights).
Proof.
  intros H. rewrite !encode_tokens by (try apply mark_one_line; done). by apply enrich_after.
Qed.

Lemma testbit_marks range modifiers events i :
  N.testbit (marks range modifiers events) i = true <->
  N.testbit modifiers i = true \/
  exists event, event ∈ events /\ lsp_ranges_overlap (ev_range event) range = true /\
    position (fun m => modifier_name m =s kind_modifier (ev_kind event)) all_modifiers = Some i.
Proof.
  unfold marks. revert modifiers. induction events as [|event events IH]; intros modifiers; cbn [foldl].
  { split; [by left|]. intros [?|(e & He & _)]; [done|]. by apply not_elem_of_nil in He. }
  rewrite IH. unfold mark_token at 1, modifier_bit.
  split.
  - intros [H|(e & He & ?)]; [|right; exists e; split; [by right|done]].
    destruct (lsp_ranges_overlap (ev_range event) range) eqn:Ho; [|by left].
    destruct (position _ all_modifiers) as [index|] eqn:Hp; cbn in H; [|by left].
    rewrite N.lor_spec, N.shiftl_1_l, N.pow2_bits_eqb, orb_true_iff, N.eqb_eq in H.
    destruct H as [H| ->]; [by left|]. right. exists event. split; [by left|done].
  - intros [H|(e & He & Ho & Hp)].
    + left. repeat case_match; [|done..]. by rewrite N.lor_spec, H.
    + apply elem_of_cons in He as [-> |He]; [|right; by exists e].
      left. rewrite Ho, Hp. cbn. rewrite N.lor_spec, N.shiftl_1_l, N.pow2_bits_true. apply orb_true_r.
Qed.

(** Every kind of event has a modifier of its own, but for two. *)
Lemma kind_has_bit kind :
  kind <> RaEventKind.Clone -> kind <> RaEventKind.Copy -> is_Some (modifier_bit (kind_modifier kind)).
Proof. destruct kind; try done; intros _ _; vm_compute; eauto. Qed.

(** Events that clone a handle or copy a value mark nothing: the names of their
    modifiers are not among the supported ones, whatever the file and the event. *)
Theorem clones_and_copies_not_marked at_ tokens events :
  Forall (fun event => ev_kind event = RaEventKind.Clone \/ ev_kind event = RaEventKind.Copy) events ->
  enrich_from at_ tokens events = tokens.
Proof.
  intros Hall. revert at_. induction tokens as [|token tokens IH]; intros at_; [done|]. cbn [enrich_from].
  rewrite IH. f_equal. set (r := range_of_token _ _). clearbody r. clear IH.
  enough (forall bits, foldl (mark_token r) bits events = bits) as -> by by destruct token.
  induction Hall as [|event events He _ IH]; intros bits; [done|]. cbn [foldl]. rewrite IH.
  unfold mark_token. case_match; [|done]. destruct He as [-> | ->]; done.
Qed.

(** The fallback to standard modifiers also drops one of them. *)
Lemma fallback_drops_deprecated :
  Deprecated ∈ STANDARD_MOD /\ add_modifier 0 Deprecated <> 0%N /\ standard_fallback (add_modifier 0 Deprecated) = 0%N.
Proof. split; [set_solver|]. split; vm_compute; done. Qed.

Lemma fallback_keeps_others modifier :
  modifier ∈ STANDARD_MOD -> modifier <> Deprecated ->
  standard_fallback (add_modifier 0 modifier) = add_modifier 0 modifier.
Proof. intros H Hd. destruct modifier; try done; exfalso; revert H; clear; set_solver. Qed.

(** A move of five characters on the fourth line. *)
Definition sample_move : AnalyzerData.OwnershipEvent :=
  let range := mk_range (mk_position 3 4) (mk_position 3 9) in
  mk_ev "move" 0 0 0 RaEventKind.Move RaState.Moved range range "value" "value" None true None None.

(** ** Applying what changed *)

(** What the protocol says an editor does with an edit of a token stream. *)
Definition apply_edit (stream : list N) (edit : SemanticTokensEdit) : list N :=
  take (N.to_nat (edit_start edit)) stream ++ default [] (edit_data edit)
  ++ drop (N.to_nat (edit_start edit + edit_delete_count edit)) stream.

Lemma token_stream_app a b : token_stream (a ++ b) = token_stream a ++ token_stream b.
Proof. unfold token_stream. by rewrite fmap_app, concat_app. Qed.

Lemma token_stream_length a : length (token_stream a) = 5 * length a.
Proof. induction a as [|t a IH]; [done|]. change (t :: a) with ([t] ++ a). rewrite token_stream_app, !length_app, IH. cbn. lia. Qed.

Lemma common_prefix_take new old : take (common_prefix new old) new = take (common_prefix new old) old.
Proof.
  revert old. induction new as [|n new IH]; intros [|p old]; [done..|]. cbn. case_bool_decide; [|done].
  cbn. by rewrite IH; subst.
Qed.

Lemma common_prefix_le new old : common_prefix new old <= length new /\ common_prefix new old <= length old.
Proof.
  revert old. induction new as [|n new IH]; intros [|p old]; cbn; [lia..|]. case_bool_decide; [|lia].
  specialize (IH old). lia.
Qed.

Lemma common_suffix (new old : list SemanticToken) :
  let k := common_prefix (rev new) (rev old) in
  drop (length new - k) new = drop (length old - k) old.
Proof.
  cbn. pose proof (common_prefix_take (rev new) (rev old)) as H.
  rewrite !List.firstn_rev in H. by apply (f_equal (@rev _)) in H; rewrite !List.rev_involutive in H.
Qed.

Lemma splice_edit (a o n s : list SemanticToken) :
  (5 * len (a ++ o ++ s) < 2 ^ 32)%N ->
  apply_edit (token_stream (a ++ o ++ s))
    (mk_token_edit (5 * len a mod 2 ^ 32) (5 * len o mod 2 ^ 32) (Some (token_stream n))) =
  token_stream (a ++ n ++ s).
Proof.
  intros Hlen. unfold len in *. rewrite !length_app in Hlen. unfold apply_edit. cbn [edit_start edit_delete_count edit_data default].
  rewrite !N.mod_small by lia. rewrite !token_stream_app, take_app_length' by (rewrite token_stream_length; lia).
  do 2 f_equal. rewrite app_assoc, drop_app_length'; [done|]. rewrite length_app, !token_stream_length. lia.
Qed.

(** The changes between two answers lead from the one to the other: an editor that
    splices the edits into the words it has gets the words of the new tokens. *)
Lemma diff_applies old new :
  (5 * len old < 2 ^ 32)%N ->
  foldl apply_edit (token_stream old) (diff_tokens old new) = token_stream new.
Proof.
  intros Hlen. unfold diff_tokens. set (k := common_prefix new old).
  set (e := common_prefix (rev (drop k new)) (rev (drop k old))).
  set (o := take (length (drop k old) - e) (drop k old)). set (n := take (length (drop k new) - e) (drop k new)).
  set (s := drop (length (drop k old) - e) (drop k old)).
  assert (old = take k old ++ o ++ s) as Hold by (unfold o, s; by rewrite take_drop, take_drop).
  assert (new = take k old ++ n ++ s) as Hnew.
  { pose proof (common_suffix (drop k new) (drop k old)) as Hs. cbv zeta in Hs. fold e s in Hs. rewrite <- Hs. unfold n.
    rewrite take_drop. pose proof (common_prefix_take new old) as Hp. fold k in Hp. rewrite <- Hp. by rewrite take_drop. }
  assert (N.of_nat k = len (take k old)) as Hk.
  { unfold len. rewrite length_take. destruct (common_prefix_le new old) as [_ Hle]. fold k in Hle. lia. }
  destruct (is_nil o && is_nil n) eqn:Hnil.
  - destruct o; [|done]. destruct n; [|done]. cbn in *. congruence.
  - cbn [foldl]. rewrite Hk. rewrite Hold at 1. rewrite splice_edit by by rewrite <- Hold. by rewrite <- Hnew.
Qed.

(** ** The editor and the server *)

(** The answers of an editor's files: identifier and words. *)
Abbreviation Editors := (gmap string (string * list N)).

Definition receive (id : option string) (words : list N) : option (string * list N) := (fun id => (id, words)) <$> id.

Definition receive_response (words : list N) (response : TokensResponse) : option (string * list N) :=
  match response with
  | FullTokens tokens => receive (tokens_result_id tokens) (token_stream (tokens_data tokens))
  | TokensDelta id edits => receive id (foldl apply_edit words edits)
  end.

(** An answer arrives, or it is dropped (the request was cancelled) and the editor keeps
    what it had. *)
Definition arrives (delivered : bool) (uri : string) (answer : option (string * list N)) (editors : Editors) : Editors :=
  if delivered then partial_alter (fun _ => answer) uri editors else editors.

(** A highlighted file is shorter than 4 GiB. *)
Definition fits (highlights : list Highlight) : Prop := (5 * len highlights < 2 ^ 32)%N.

Inductive token_step : TokenState * Editors -> TokenState * Editors -> Prop :=
  | TokensAsked state editors uri highlights events delivered state' tokens :
      fits highlights -> handle_semantic_tokens_full state uri highlights events = (state', tokens) ->
      token_step (state, editors)
        (state', arrives delivered uri (receive (tokens_result_id tokens) (token_stream (tokens_data tokens))) editors)
  | ChangesAsked state editors uri id words highlights events delivered state' response :
      fits highlights -> editors !! uri = Some (id, words) ->
      handle_semantic_tokens_full_delta state uri id highlights events = (state', response) ->
      token_step (state, editors) (state', arrives delivered uri (receive_response words response) editors)
  | RangeAsked state editors highlights events state' tokens :
      handle_semantic_tokens_range state highlights events = (state', tokens) ->
      token_step (state, editors) (state', editors)
  | FileClosed state editors uri : token_step (state, editors) (forget_tokens uri state, delete uri editors)
  | CacheCleared state editors : token_step (state, editors) (mk_tstate (token_counter state) ∅, editors).

Definition start_tokens : TokenState * Editors := (mk_tstate 1 ∅, ∅).

Inductive token_run : nat -> TokenState * Editors -> Prop :=
  | run_start : token_run 0 start_tokens
  | run_step n s s' : token_run n s -> token_step s s' -> token_run (S n) s'.

(** Identifiers are those handed out so far; what the server keeps under the identifier an
    editor has is what the editor has. *)
Record in_sync (n : nat) (s : TokenState * Editors) : Prop := {
  sync_counter : (1 <= token_counter s.1 <= 1 + N.of_nat n)%N;
  sync_ids : forall uri id words, s.2 !! uri = Some (id, words) ->
    exists m, (m < token_counter s.1)%N /\ id = show m;
  sync_words : forall uri tokens, token_cache s.1 !! uri = Some tokens ->
    (5 * len (tokens_data tokens) < 2 ^ 32)%N /\
    forall id words, s.2 !! uri = Some (id, words) -> tokens_result_id tokens = Some id ->
      words = token_stream (tokens_data tokens)
}.

Lemma foldl_push_id builder highlights : builder_id (foldl push_highlight builder highlights) = builder_id builder.
Proof.
  revert builder. induction highlights as [|hl rest IH]; intros builder; [done|]. cbn [foldl]. rewrite IH.
  unfold push_highlight, builder_push. by case_match.
Qed.

(** The identifier of a builder has no part in its tokens. *)
Lemma push_data_ext b b' highlights :
  prev_line b = prev_line b' -> prev_char b = prev_char b' -> builder_data b = builder_data b' ->
  builder_data (foldl push_highlight b highlights) = builder_data (foldl push_highlight b' highlights).
Proof.
  revert b b'. induction highlights as [|hl rest IH]; intros [i l c d] [i' l' c' d'] H1 H2 H3; cbn in H1, H2, H3; subst; [done|].
  cbn [foldl]. apply IH; unfold push_highlight, builder_push; cbn; by destruct d'.
Qed.

Lemma foldl_push_length builder highlights :
  length (builder_data (foldl push_highlight builder highlights)) = length (builder_data builder) + length highlights.
Proof.
  revert builder. induction highlights as [|hl rest IH]; intros builder; cbn [foldl length]; [lia|]. rewrite IH.
  unfold push_highlight, builder_push. case_match. cbn. rewrite length_app. cbn. lia.
Qed.

Lemma enrich_from_length at_ tokens events : length (enrich_from at_ tokens events) = length tokens.
Proof. revert at_. induction tokens as [|t tokens IH]; intros at_; cbn; [done|]. by rewrite IH. Qed.

(** What a request computes. *)
Lemma enriched_tokens_spec state highlights events state' tokens :
  enriched_tokens state highlights events = (state', tokens) ->
  state' = mk_tstate (wrapping_add (token_counter state) 1) (token_cache state) /\
  tokens_result_id tokens = Some (show (token_counter state)) /\ length (tokens_data tokens) = length highlights.
Proof.
  unfold enriched_tokens, semantic_tokens. intros [= <- <-]. split; [done|].
  change (fun builder hl => builder_push builder (hl_range hl) (hl_type hl) (hl_modifiers hl)) with push_highlight.
  cbn. rewrite enrich_from_length, foldl_push_length, foldl_push_id. done.
Qed.

Lemma sync_start : in_sync 0 start_tokens.
Proof.
  split; cbn [start_tokens fst snd token_counter token_cache]; [lia|intros ? ? ?; by rewrite lookup_empty|].
  intros ? ?; by rewrite lookup_empty.
Qed.

(** The state after a request: one more identifier, the answer in the cache. *)
Lemma sync_answer n state editors uri tokens delivered :
  (N.of_nat n + 2 < 2 ^ 32)%N -> in_sync n (state, editors) ->
  tokens_result_id tokens = Some (show (token_counter state)) -> (5 * len (tokens_data tokens) < 2 ^ 32)%N ->
  forall cache, cache = <[uri := tokens]> (token_cache state) ->
  in_sync (S n) (mk_tstate (wrapping_add (token_counter state) 1) cache,
    arrives delivered uri (receive (tokens_result_id tokens) (token_stream (tokens_data tokens))) editors).
Proof.
  intros Hn [Hc Hi Hw] Hid Hlen cache ->. cbn in *.
  assert (wrapping_add (token_counter state) 1 = token_counter state + 1)%N as Hnext.
  { unfold wrapping_add. apply N.mod_small. lia. }
  assert (forall id words, editors !! uri = Some (id, words) -> id <> show (token_counter state)) as Hfresh.
  { intros id words Hl. destruct (Hi _ _ _ Hl) as (m & Hm & ->). intros ->%(inj _). lia. }
  rewrite Hid. cbn.
  split; cbn; rewrite ?Hnext; [lia| |].
  - intros uri' id words. unfold arrives. destruct delivered.
    + destruct (decide (uri = uri')) as [<-|Hne].
      * rewrite lookup_partial_alter_eq. intros [= <- <-]. eexists. split; [|done]. lia.
      * rewrite lookup_partial_alter_ne by done. intros (m & ? & ->)%Hi. exists m. split; [lia|done].
    + intros (m & ? & ->)%Hi. exists m. split; [lia|done].
  - intros uri' tokens' Hl. destruct (decide (uri = uri')) as [<-|Hne].
    + rewrite lookup_insert_eq in Hl. injection Hl as <-. split; [done|]. intros id words He Hid'.
      rewrite Hid in Hid'. injection Hid' as <-. unfold arrives in He. destruct delivered.
      * rewrite lookup_partial_alter_eq in He. by injection He as <-.
      * by apply Hfresh in He.
    + rewrite lookup_insert_ne in Hl by done. destruct (Hw _ _ Hl) as [? Hwords]. split; [done|].
      intros id words He. apply Hwords. unfold arrives in He. destruct delivered; [|done].
      by rewrite lookup_partial_alter_ne in He.
Qed.

(** An editor whose answer was kept gets the words of the new tokens from the changes. *)
Lemma delta_words n state editors uri id words highlights events state' response tokens :
  in_sync n (state, editors) -> editors !! uri = Some (id, words) ->
  enriched_tokens state highlights events =
    (mk_tstate (wrapping_add (token_counter state) 1) (token_cache state), tokens) ->
  handle_semantic_tokens_full_delta state uri id highlights events = (state', response) ->
  state' = mk_tstate (wrapping_add (token_counter state) 1) (<[uri := tokens]> (token_cache state)) /\
  receive_response words response = receive (tokens_result_id tokens) (token_stream (tokens_data tokens)).
Proof.
  intros [_ _ Hw] Hl He. unfold handle_semantic_tokens_full_delta. rewrite He.
  unfold cache_tokens, forget_tokens. cbn [token_counter token_cache]. rewrite insert_delete_eq.
  destruct (token_cache state !! uri) as [cached|] eqn:Hc; [|intros [= <- <-]; done].
  destruct (tokens_result_id cached) as [prev|] eqn:Hp; [|intros [= <- <-]; done].
  destruct (prev =s id) eqn:Hid; intros [= <- <-]; [|done]. apply str_eqb_eq in Hid as ->.
  destruct (Hw _ _ Hc) as [Hlen Hwords]. split; [done|]. cbn.
  rewrite (Hwords _ _ Hl Hp). by rewrite diff_applies.
Qed.

Lemma sync_step n s s' : (N.of_nat n + 2 < 2 ^ 32)%N -> in_sync n s -> token_step s s' -> in_sync (S n) s'.
Proof.
  intros Hn Hs Hstep. destruct Hstep as [st eds uri hls evs del st' toks Hf Hh|st eds uri id words hls evs del st' resp Hf Hl Hh
    |st eds hls evs st' toks Hh|st eds uri|st eds].
  - unfold handle_semantic_tokens_full in Hh. destruct (enriched_tokens st hls evs) as [s1 t1] eqn:He.
    apply enriched_tokens_spec in He as (-> & Hid & Hlen). injection Hh as <- <-.
    eapply sync_answer; [done|done|done| |done]. unfold fits, len in *. by rewrite Hlen.
  - destruct (enriched_tokens st hls evs) as [s1 t1] eqn:He.
    destruct (enriched_tokens_spec _ _ _ _ _ He) as (-> & Hid & Hlen).
    destruct (delta_words _ _ _ _ _ _ _ _ _ _ _ Hs Hl He Hh) as [-> ->].
    eapply sync_answer; [done|done|done| |done]. unfold fits, len in *. by rewrite Hlen.
  - apply enriched_tokens_spec in Hh as (-> & _ & _). destruct Hs as [Hc Hi Hw]. cbn in *.
    assert (wrapping_add (token_counter st) 1 = token_counter st + 1)%N as Hnext by (apply N.mod_small; lia).
    split; cbn; rewrite ?Hnext; [lia| |exact Hw].
    intros uri id words (m & ? & ->)%Hi. exists m. split; [lia|done].
  - destruct Hs as [Hc Hi Hw]. cbn in *. split; cbn; [lia| |].
    + intros uri' id words [_ H]%lookup_delete_Some. eauto.
    + intros uri' tokens [_ H]%lookup_delete_Some. destruct (Hw _ _ H) as [? Hwords]. split; [done|].
      intros id words [_ ?]%lookup_delete_Some. eauto.
  - destruct Hs as [Hc Hi Hw]. cbn in *. split; cbn; [lia|exact Hi|]. intros uri tokens. by rewrite lookup_empty.
Qed.

Lemma run_in_sync n s : (N.of_nat n + 1 < 2 ^ 32)%N -> token_run n s -> in_sync n s.
Proof. intros Hn Hr. induction Hr; [apply sync_start|]. eapply sync_step; [|apply IHHr|done]; lia. Qed.

(** C20: In every run of an editor and a server -- with requests for all tokens, for
    changes and for ranges, answers that are dropped, files that are closed and caches that
    are cleared -- the changes an editor is sent turn the words it has into those of the
    tokens of the file as it is, marked with its ownership events. *)
Theorem changes_update_editor n state editors uri id words highlights events state' response :
  (N.of_nat n + 1 < 2 ^ 32)%N -> token_run n (state, editors) -> editors !! uri = Some (id, words) ->
  Forall one_line highlights ->
  handle_semantic_tokens_full_delta state uri id highlights events = (state', response) ->
  receive_response words response =
    Some (show (token_counter state), token_stream (encode (mark_highlight events <$> highlights))).
Proof.
  intros Hn Hr Hl Hall Hh. destruct (enriched_tokens state highlights events) as [s1 tokens] eqn:He.
  destruct (enriched_tokens_spec _ _ _ _ _ He) as (-> & Hid & _).
  destruct (delta_words _ _ _ _ _ _ _ _ _ _ _ (run_in_sync _ _ Hn Hr) Hl He Hh) as [_ ->].
  rewrite Hid. cbn. do 3 f_equal. rewrite <- enrichment_commutes by done.
  injection He as <-. cbn. f_equal. by apply push_data_ext.
Qed.

Lemma changes_update_editor_witness :
  let highlights := [mk_highlight (mk_range (mk_position 3 4) (mk_position 3 9)) 2 0] in
  let first := handle_semantic_tokens_full start_tokens.1 "file:///main.rs" highlights [] in
  let second := handle_semantic_tokens_full_delta first.1 "file:///main.rs" "1" highlights [sample_move] in
  receive_response (token_stream (tokens_data first.2)) second.2 =
  Some ("2", [3; 4; 5; 2; 2 ^ 23])%N.
Proof.
  intros highlights first second.
  assert (Forall one_line highlights) as Hall by (repeat constructor).
  apply (changes_update_editor 1 first.1
    (arrives true "file:///main.rs" (receive (tokens_result_id first.2) (token_stream (tokens_data first.2))) ∅)
    "file:///main.rs" "1" (token_stream (tokens_data first.2)) highlights [sample_move] second.1 second.2 eq_refl).
  - apply (run_step 0 start_tokens); [apply run_start|].
    apply (TokensAsked _ _ "file:///main.rs" highlights [] true first.1 first.2); [|done]. vm_compute. reflexivity.
  - reflexivity.
  - exact Hall.
  - apply surjective_pairing.
Defined.

Lemma clones_and_copies_not_marked_witness :
  let token := mk_token 3 4 5 2 0 in
  let clone := mk_ev "clone" 0 0 0 RaEventKind.Clone RaState.Available (mk_range (mk_position 3 4) (mk_position 3 9))
                 (mk_range (mk_position 3 4) (mk_position 3 9)) "handle" "handle" None true None None in
  enrich_from (mk_position 0 0) [token] [clone] = [token] /\ enrich_from (mk_position 0 0) [token] [sample_move] <> [token].
Proof.
  intros token clone. split; [|vm_compute; discriminate].
  apply (clones_and_copies_not_marked _ _ [clone]). constructor; [by left|constructor].
Defined.
