(* ===== verification/AnalyzerHints.v ===== *)
(** * rust-analyzer: inlay hints and code actions about ownership

    What [handlers/request.rs] shows in the text itself: [handle_inlay_hints] merges the
    analyzer's own hints with the compiler's ownership events, the memory facts of bindings
    ([ownership_mechanics_hints]) and a clue at each call that matters for ownership
    ([ownership_method_coach_hints]); [handle_inlay_hints_resolve] computes the text of a
    clue when it is hovered; [handle_code_action] puts compiled rewrites in the place of
    guesses.  The analyzer's own hints, before [to_proto::inlay_hint] adds its metadata
    to their data, and the JSON form of a range are parameters. *)

From Stdlib Require Import Ascii String.
From S2P Require Import Prelude RustStr RustColl RustPath Fnv MemoryGraph RepairPlan AutofixDriver AnalyzerData AnalyzerModel AnalyzerState AnalyzerProblems AnalyzerGuide AnalyzerPreview AnalyzerRepairs LineIndex AnalyzerSyntax AnalyzerInsight AnalyzerTokens.
From S2P Require Import Protocol.
From stdpp Require Import options.

(** ** JSON values *)

Inductive Value : Type :=
  | VNull
  | VNumber (n : Z)
  | VString (s : string)
  | VArray (values : list Value)
  | VObject (fields : list (string * Value)).

(** [Value::get] with a key *)
Definition get (key : string) (value : Value) : option Value :=
  match value with
  | VObject fields => snd <$> find_first (fun field => field.1 =s key) fields
  | _ => None
  end.

Definition as_str (value : Value) : option string :=
  match value with VString s => Some s | _ => None end.

Definition as_u64 (value : Value) : option N :=
  match value with
  | VNumber n => if (0 <=? n)%Z && (n <? 2 ^ 64)%Z then Some (Z.to_N n) else None
  | _ => None
  end.

Definition as_i64 (value : Value) : option Z :=
  match value with
  | VNumber n => if (- 2 ^ 63 <=? n)%Z && (n <? 2 ^ 63)%Z then Some n else None
  | _ => None
  end.

(** [json!] of an option *)
Definition or_null (value : option Value) : Value := default VNull value.

(** The JSON form of a range, read back as it was written ([serde]). *)
Class RangeCodec : Type := {
  range_to_value : Range -> Value;
  range_from_value : Value -> result Range;
  range_roundtrip : forall range, range_from_value (range_to_value range) = Ok range
}.

(** ** Hints *)

Inductive Tooltip : Type := PlainTooltip (text : string) | MarkdownTooltip (text : string).

(** A label is a text, or parts of which [Rest] is what is not text. *)
Inductive Label (Rest : Type) : Type :=
  | LabelString (label : string)
  | LabelParts (parts : list (string * Rest)).
#[global] Arguments LabelString {_} _.
#[global] Arguments LabelParts {_} _.

Inductive InlayHintKind : Type := TypeHint | ParameterHint.
#[global] Instance InlayHintKind_eq_dec : EqDecision InlayHintKind.
Proof. solve_decision. Defined.

Record InlayHint (Rest : Type) : Type := mk_hint {
  hint_position : Position;
  hint_label : Label Rest;
  hint_kind : option InlayHintKind;
  hint_text_edits : option (list TextEdit);
  hint_tooltip : option Tooltip;
  hint_padding_left : option bool;
  hint_padding_right : option bool;
  hint_data : option Value
}.
#[global] Arguments mk_hint {_} _ _ _ _ _ _ _ _.
#[global] Arguments hint_position {_} _.
#[global] Arguments hint_label {_} _.
#[global] Arguments hint_kind {_} _.
#[global] Arguments hint_text_edits {_} _.
#[global] Arguments hint_tooltip {_} _.
#[global] Arguments hint_padding_left {_} _.
#[global] Arguments hint_padding_right {_} _.
#[global] Arguments hint_data {_} _.

Definition label_contains {Rest} (text : string) (label : Label Rest) : bool :=
  match label with
  | LabelString label => contains text label
  | LabelParts parts => existsb (fun part => contains text part.1) parts
  end.

(** ** The analyzer's own hints *)

Module InlayKind.
Inductive InlayKind : Type :=
  | Adjustment | BindingMode | Chaining | ClosingBrace | ClosureCapture | Discriminant | GenericParamList
  | Lifetime | Ownership | Parameter_ | GenericParameter | Type_ | Dyn | Drop | RangeExclusive | ExternUnsafety.
#[global] Instance InlayKind_eq_dec : EqDecision InlayKind.
Proof. solve_decision. Defined.
End InlayKind.

(** A hint of the analyzer on its way to the editor: its kind, the text of its label, and
    what [to_proto::inlay_hint] makes of it, with what is needed to resolve it as data. *)
Record NativeHint (Rest : Type) : Type := mk_native {
  native_kind : InlayKind.InlayKind;
  native_label : string;
  native_hint : InlayHint Rest
}.
#[global] Arguments mk_native {_} _ _ _.
#[global] Arguments native_kind {_} _.
#[global] Arguments native_label {_} _.
#[global] Arguments native_hint {_} _.

Definition inlay_category (kind : InlayKind.InlayKind) : string :=
  match kind with
  | InlayKind.Adjustment | InlayKind.BindingMode | InlayKind.ClosureCapture => "adjustment"
  | InlayKind.Lifetime => "lifetime"
  | InlayKind.Ownership => "ownership"
  | InlayKind.Drop => "drop"
  | InlayKind.Parameter_ | InlayKind.GenericParameter => "parameter"
  | InlayKind.Type_ | InlayKind.Chaining => "type"
  | _ => "other"
  end.

Definition event_markers : list (string * string) :=
  [("partial move", "partial_move"); ("move", "move"); ("&mut", "borrow_mutable"); ("&?", "borrow_shared");
   ("reinit", "reinitialize"); ("last", "last_use")].

Definition rust_workbench_inlay_metadata (kind : InlayKind.InlayKind) (label : string) : Value :=
  let ownership := bool_decide (kind = InlayKind.Ownership) in
  let event_kinds :=
    if ownership then
      foldl (fun kinds marker =>
        if contains marker.1 label && negb (one_of marker.2 kinds) then kinds ++ [marker.2] else kinds) [] event_markers
    else [] in
  VObject
    [("version", VNumber 1);
     ("category", VString (inlay_category kind));
     ("precision", if ownership then VString "analyzer_estimate" else VNull);
     ("eventKinds", VArray (VString <$> event_kinds))].

(** [Map::insert], in the order of insertion *)
Fixpoint map_insert (key : string) (value : Value) (fields : list (string * Value)) : list (string * Value) :=
  match fields with
  | [] => [(key, value)]
  | field :: fields => if field.1 =s key then (key, value) :: fields else field :: map_insert key value fields
  end.

(** The end of [to_proto::inlay_hint]: the data of every hint has its metadata. *)
Definition with_metadata {Rest} (hint : NativeHint Rest) : InlayHint Rest :=
  let metadata := rust_workbench_inlay_metadata (native_kind hint) (native_label hint) in
  let lsp := native_hint hint in
  let data :=
    match default (VObject []) (hint_data lsp) with
    | VObject fields => VObject (map_insert "rustWorkbench" metadata fields)
    | data => data
    end in
  mk_hint (hint_position lsp) (hint_label lsp) (hint_kind lsp) (hint_text_edits lsp) (hint_tooltip lsp)
    (hint_padding_left lsp) (hint_padding_right lsp) (Some data).

(** ** Settings *)

Record OwnershipConfig : Type := mk_oconfig {
  ownership_enable : bool;
  ownership_mechanics_enable : bool;
  ownership_mechanics_layout : bool;
  ownership_mechanics_storage : bool;
  ownership_mechanics_access : bool;
  ownership_mechanics_wrappers : bool;
  ownership_methodCoach_enable : bool
}.

Definition ownership_mechanics_enabled (config : OwnershipConfig) : bool :=
  ownership_enable config && ownership_mechanics_enable config.

Definition ownership_method_coach_enabled (config : OwnershipConfig) : bool :=
  ownership_enable config && ownership_methodCoach_enable config.

Definition ownership_mechanics_category_enabled (config : OwnershipConfig) (category : string) : bool :=
  if category =s "layout" then ownership_mechanics_layout config
  else if category =s "storage" then ownership_mechanics_storage config
  else if category =s "access" then ownership_mechanics_access config
  else if category =s "wrapper" then ownership_mechanics_wrappers config
  else false.

Record OwnershipMechanicsCategories : Type := mk_categories {
  category_layout : bool;
  category_storage : bool;
  category_access : bool;
  category_wrapper : bool
}.

Definition enabled_categories (config : OwnershipConfig) : OwnershipMechanicsCategories :=
  mk_categories (ownership_mechanics_category_enabled config "layout")
    (ownership_mechanics_category_enabled config "storage") (ownership_mechanics_category_enabled config "access")
    (ownership_mechanics_category_enabled config "wrapper").

(** [itertools]' [unique]: the first of each *)
Fixpoint unique_from (seen l : list string) : list string :=
  match l with
  | [] => []
  | x :: l => if one_of x seen then unique_from seen l else x :: unique_from (x :: seen) l
  end.

Definition unique (l : list string) : list string := unique_from [] l.

(** ** Memory facts of bindings *)

Definition MAX_MECHANICS_HINTS : N := 128.

Record MechanicsPart : Type := mk_part {
  part_category : string;
  part_label : string;
  part_tooltip : string;
  part_binding_id : option string;
  part_graph_node_id : option string
}.

Abbreviation Groups := (list (Position * list MechanicsPart)).

Definition same_part (a b : MechanicsPart) : bool :=
  (part_category a =s part_category b) && (part_label a =s part_label b).

Definition add_part (part : MechanicsPart) (group : Position * list MechanicsPart) : Position * list MechanicsPart :=
  if existsb (same_part part) group.2 then group else (group.1, group.2 ++ [part]).

Definition anchored (position : Position) (group : Position * list MechanicsPart) : bool :=
  bool_decide (group.1 = position).

(** The closure [push] *)
Definition push_part (grouped : Groups) (entry : Position * MechanicsPart) : Groups :=
  let '(position, part) := entry in
  if existsb (anchored position) grouped then update_first (anchored position) (add_part part) grouped
  else if (len grouped <? MAX_MECHANICS_HINTS)%N then grouped ++ [(position, [part])]
  else grouped.

Section mechanics.
Context (tutorial : OwnershipTutorialModel) (requested_range : Range) (categories : OwnershipMechanicsCategories).

Definition target_triple : string :=
  if is_empty (tmodel_target_triple tutorial) then "unknown target" else tmodel_target_triple tutorial.

Definition spaced (code : string) : string := replace_char "_" " " code.

Definition layout_part (binding : OwnershipTutorialBinding) (binding_id : string) : option MechanicsPart :=
  if category_layout categories then
    size ← tbinding_size binding;
    align ← tbinding_align binding;
    let inline := forallb (fun layer => negb (alayer_storage layer =s "heap")) (tbinding_memory_layers binding) in
    Some (mk_part "layout"
      (show size +:+ " B · align " +:+ show align +:+ " · " +:+ (if inline then "inline" else "handle"))
      ("**Layout of `" +:+ tbinding_name binding +:+ "`**" +:+ newline_str +:+ newline_str
       +:+ "- Type: `" +:+ tbinding_type_name binding +:+ "`" +:+ newline_str
       +:+ "- Handle/value size: **" +:+ show size +:+ " bytes**" +:+ newline_str
       +:+ "- Alignment: **" +:+ show align +:+ " bytes**" +:+ newline_str
       +:+ "- Target: `" +:+ target_triple +:+ "`" +:+ newline_str
       +:+ "- Precision: **compiler exact target layout**" +:+ newline_str +:+ newline_str
       +:+ "Runtime allocation sizes are kept separate.")
      (Some binding_id) None)
  else None.

Definition heap_layers (binding : OwnershipTutorialBinding) : string :=
  join " + " (take_N 2 (unique (alayer_label <$>
    retain (fun layer => alayer_storage layer =s "heap") (tbinding_memory_layers binding)))).

Definition storage_part (binding : OwnershipTutorialBinding) (binding_id : string) : option MechanicsPart :=
  if category_storage categories && negb (is_empty (heap_layers binding)) then
    Some (mk_part "storage" ("handle → " +:+ heap_layers binding)
      ("**Storage reached from `" +:+ tbinding_name binding +:+ "`**" +:+ newline_str +:+ newline_str
       +:+ "`" +:+ tbinding_type_name binding +:+ "` is the local handle. It reaches **" +:+ heap_layers binding
       +:+ "**. Moving the handle does not copy the allocation. Runtime addresses, lengths, capacities, and reference counts are unknown.")
      (Some binding_id) None)
  else None.

Definition wrapper_route (binding : OwnershipTutorialBinding) : string :=
  join " → " (take_N 3 (unique ((fun layer => spaced (alayer_kind layer)) <$>
    retain (fun layer => negb (alayer_kind layer =s "stack_binding")) (tbinding_memory_layers binding)))).

Definition wrapper_part (binding : OwnershipTutorialBinding) (binding_id : string) : option MechanicsPart :=
  if category_wrapper categories && negb (is_empty (wrapper_route binding)) then
    Some (mk_part "wrapper" (wrapper_route binding)
      ("**Wrapper route for `" +:+ tbinding_name binding +:+ "`**" +:+ newline_str +:+ newline_str
       +:+ "`" +:+ tbinding_type_name binding +:+ "`" +:+ newline_str +:+ newline_str +:+ wrapper_route binding
       +:+ newline_str +:+ newline_str
       +:+ "This is a source-level ownership model, not a sampled runtime memory address or counter.")
      (Some binding_id) None)
  else None.

Definition binding_parts (binding : OwnershipTutorialBinding) : list (Position * MechanicsPart) :=
  let binding_id := format_016x (tbinding_body_id binding) +:+ "-" +:+ tbinding_name binding in
  pair (range_end (tbinding_range binding)) <$>
    (omap id [layout_part binding binding_id; storage_part binding binding_id; wrapper_part binding binding_id]).

Definition step_constraints (step : OwnershipModelAccessStep) : list string :=
  (if astep_fallible step then ["fallible"] else [])
  ++ (if astep_may_panic step then ["may panic"] else [])
  ++ (if astep_requires_unsafe step then ["requires unsafe"] else []).

Definition step_detail (step : OwnershipModelAccessStep) : string :=
  "- `" +:+ astep_starting_type step +:+ "` → `" +:+ astep_result_type step +:+ "` via **" +:+ spaced (astep_kind step)
  +:+ "** (" +:+ spaced (astep_mutability step) +:+ ", " +:+ spaced (astep_explicitness step)
  +:+ (if is_nil (step_constraints step) then EmptyString else ", " +:+ join ", " (step_constraints step))
  +:+ ") — " +:+ astep_explanation step.

Definition access_part (path : OwnershipModelAccessPath) : option (Position * MechanicsPart) :=
  node ← find_first (fun node => anode_id (tnode_node node) =s apath_node_id path) (tgraph_nodes (tmodel_memory_graph tutorial));
  range ← tnode_range node;
  if negb (lsp_ranges_overlap range requested_range) || is_nil (apath_steps path) then None
  else
    Some (range_end range,
      mk_part "access"
        (join " · " (take_N 2 ((fun step => spaced (astep_kind step) +:+ " → " +:+ astep_result_type step) <$> apath_steps path)))
        ("**How `" +:+ apath_place path +:+ "` becomes usable**" +:+ newline_str +:+ newline_str
         +:+ join newline_str (step_detail <$> apath_steps path))
        None (Some (apath_node_id path))).

(** What is pushed, in order. *)
Definition mechanics_parts : list (Position * MechanicsPart) :=
  concat (binding_parts <$>
    retain (fun binding => lsp_ranges_overlap (tbinding_range binding) requested_range) (tmodel_bindings tutorial))
  ++ (if category_access categories
      then omap access_part (take_N MAX_MECHANICS_HINTS (tgraph_access_paths (tmodel_memory_graph tutorial)))
      else []).

Definition grouped_parts : Groups := foldl push_part [] mechanics_parts.
End mechanics.

Section hints.
Context {Rest : Type} `{RangeCodec}.

Definition group_hint (group : Position * list MechanicsPart) : InlayHint Rest :=
  let '(position, parts) := group in
  mk_hint position (LabelString (join " · " (part_label <$> parts))) None None None (Some true) (Some false)
    (Some (VObject
      [("rustWorkbench", VObject
         [("version", VNumber 3);
          ("category", VString "mechanics");
          ("categories", VArray (VString ∘ part_category <$> parts));
          ("segments", VArray ((fun part =>
             VObject [("category", VString (part_category part)); ("label", VString (part_label part))]) <$> parts));
          ("precision", VString "compiler_exact");
          ("problemId", VNull);
          ("bindingId", or_null (VString <$> head (omap part_binding_id parts)));
          ("graphNodeId", or_null (VString <$> head (omap part_graph_node_id parts)));
          ("focusRange", range_to_value (mk_range position position))]);
       ("rustWorkbenchTooltip",
          VString (join (newline_str +:+ newline_str +:+ "---" +:+ newline_str +:+ newline_str) (part_tooltip <$> parts)))])).

Definition ownership_mechanics_hints (tutorial : OwnershipTutorialModel) (requested_range : Range)
    (categories : OwnershipMechanicsCategories) : list (InlayHint Rest) :=
  group_hint <$> grouped_parts tutorial requested_range categories.

(** ** Clues at calls *)

Definition is_moved (argument : OwnershipCallArgument) : bool := cargument_transfer argument =s "move".

Definition method_coach_label (insight : OwnershipCallInsight) : string :=
  let access :=
    if insight_required_access insight =s "mutable_borrow" then "needs &mut"
    else if insight_required_access insight =s "move" then "takes self"
    else if existsb is_moved (insight_argument_flows insight) then "moves an input"
    else if one_of (creturn_kind (insight_return_flow insight))
              ["shared_reference"; "mutable_reference"; "guard"; "iterator_borrow"]
    then "returns access"
    else "ownership effect" in
  let detail :=
    default EmptyString
      ((fun argument => " · moves " +:+ cargument_expression argument) <$> find_first is_moved (insight_argument_flows insight)) in
  "Explain · " +:+ access +:+ detail.

Definition coach_hint (index : LineIndex) (file_id : FileId) (file_version : option Z) (insight : OwnershipCallInsight) :
    result (InlayHint Rest) :=
  call_range ← expect (to_proto_range index (insight_range insight));
  let operation_id :=
    "method-coach-" +:+ show (insight_range insight).1 +:+ "-" +:+ show (insight_range insight).2 +:+ "-"
    +:+ insight_name insight in
  Ok (mk_hint (range_end call_range) (LabelString (method_coach_label insight)) None None None (Some true) (Some false)
    (Some (VObject
      [("rustWorkbench", VObject
         [("version", VNumber 4);
          ("category", VString "method_coach");
          ("precision", VString (insight_provenance insight));
          ("operationId", VString operation_id);
          ("operationName", VString (insight_name insight));
          ("fileId", VNumber (Z.of_N file_id));
          ("fileVersion", or_null (VNumber <$> file_version));
          ("focusRange", range_to_value call_range)])]))).

Definition markdown_cell (value : string) : string := replace_char newline " " (replace_char "|" "\|" value).

Definition receiver_row (receiver : OwnershipCallReceiver) : string :=
  "| receiver `" +:+ markdown_cell (creceiver_expression receiver) +:+ "` | **"
  +:+ spaced (creceiver_transfer receiver) +:+ "** | " +:+ markdown_cell (creceiver_after receiver) +:+ " |" +:+ newline_str.

Definition argument_row (argument : OwnershipCallArgument) : string :=
  "| argument `" +:+ show (cargument_index argument + 1) +:+ "`: `" +:+ markdown_cell (cargument_expression argument)
  +:+ "` | **" +:+ spaced (cargument_transfer argument) +:+ "** into `" +:+ markdown_cell (cargument_parameter_type argument)
  +:+ "` | " +:+ markdown_cell (cargument_after argument) +:+ " |" +:+ newline_str.

Definition effect_row (effect : OwnershipCallEffect) : string :=
  "- **" +:+ spaced (ceffect_kind effect) +:+ ":** " +:+ ceffect_summary effect +:+ " _(" +:+ spaced (ceffect_certainty effect)
  +:+ ")_" +:+ newline_str.

Definition format_method_coach_tooltip (insight : OwnershipCallInsight) : string :=
  let returned := insight_return_flow insight in
  "**Rust Workbench · Method effect**" +:+ newline_str +:+ newline_str +:+ "`" +:+ insight_signature insight +:+ "`"
  +:+ newline_str +:+ newline_str +:+ insight_summary insight +:+ newline_str +:+ newline_str
  +:+ "| Value before the call | Crossing the call boundary | After the call |" +:+ newline_str
  +:+ "|---|---|---|" +:+ newline_str
  +:+ default EmptyString (receiver_row <$> insight_receiver_flow insight)
  +:+ join EmptyString (argument_row <$> take_N 6 (insight_argument_flows insight))
  +:+ newline_str +:+ "**Returned path**" +:+ newline_str +:+ newline_str +:+ "`" +:+ creturn_type_name returned
  +:+ "` → **" +:+ spaced (creturn_kind returned) +:+ "**"
  +:+ default EmptyString ((fun source => " → borrows from `" +:+ source +:+ "`") <$> creturn_borrowed_from returned)
  +:+ newline_str +:+ newline_str +:+ creturn_after returned +:+ newline_str +:+ newline_str
  +:+ (if is_nil (insight_effect_facts insight) then EmptyString
       else "**What the operation can do**" +:+ newline_str +:+ newline_str
            +:+ join EmptyString (effect_row <$> take_N 3 (insight_effect_facts insight)) +:+ newline_str)
  +:+ "Click this clue to open the full **Rust Learning Debugger** at this exact call.".

(** ** The handlers *)

Context {Node Function : Type} `{SyntaxTree Node} `{EqDecision Function}.
Context (snap : OwnershipSnapshot) (analyzed : FileId -> result Node) (sema : Semantics Node Function).

(** [file_version] and [file_exists] *)
Context (file_version : FileId -> option Z) (file_exists : FileId -> bool).

(** The analyzer's own hints of a range ([analysis.inlay_hints], and [to_proto::inlay_hint]
    up to the metadata) and the resolution of one from its data. *)
Context (native_hints : FileId -> N * N -> result (list (NativeHint Rest))).
Context (native_resolve : Value -> InlayHint Rest -> result (InlayHint Rest)).

(** The order in which a hash map gives its entries. *)
Context (iteration : list (Position * list AnalyzerData.OwnershipEvent) -> list (Position * list AnalyzerData.OwnershipEvent)).

Definition ownership_method_coach_hints (file_id : FileId) (source : string) (range : N * N) : result (list (InlayHint Rest)) :=
  tree ← analyzed file_id;
  mapM (coach_hint (line_index_new source) file_id (file_version file_id))
    (take_N 64 (ownership_call_insights_in_range sema tree range)).

(** [grouped.entry(event.range.end).or_default().push(event)] *)
Fixpoint group_event (event : AnalyzerData.OwnershipEvent)
    (grouped : list (Position * list AnalyzerData.OwnershipEvent)) : list (Position * list AnalyzerData.OwnershipEvent) :=
  match grouped with
  | [] => [(range_end (ev_range event), [event])]
  | (position, events) :: grouped =>
      if bool_decide (position = range_end (ev_range event)) then (position, events ++ [event]) :: grouped
      else (position, events) :: group_event event grouped
  end.

Definition events_in (requested : Range) (events : list AnalyzerData.OwnershipEvent) : list AnalyzerData.OwnershipEvent :=
  retain (fun event => lsp_ranges_overlap (ev_range event) requested) events.

Definition event_groups (events : list AnalyzerData.OwnershipEvent) : list (Position * list AnalyzerData.OwnershipEvent) :=
  foldl (fun grouped event => group_event event grouped) [] events.

Definition event_line (event : AnalyzerData.OwnershipEvent) : string :=
  "- `" +:+ ev_name event +:+ "`: **" +:+ kind_label (ev_kind event) +:+ "**"
  +:+ default EmptyString ((fun detail => " — " +:+ detail) <$> ev_detail event).

Definition event_hint (group : Position * list AnalyzerData.OwnershipEvent) : InlayHint Rest :=
  let '(position, events) := group in
  mk_hint position (LabelString (join " · " (unique ((fun event => kind_label (ev_kind event)) <$> events)))) None None
    (Some (MarkdownTooltip ("**Compiler ownership flow (MIR)**" +:+ newline_str +:+ newline_str
       +:+ join newline_str (event_line <$> events))))
    (Some true) (Some false)
    (Some (VObject
      [("rustWorkbench", VObject
         [("version", VNumber 1);
          ("category", VString "ownership");
          ("precision", VString "compiler_exact");
          ("eventKinds", VArray (VString <$> unique ((fun event => ownership_kind_code (ev_kind event)) <$> events)))])])).

(** An estimate of the analyzer at the end of an event the compiler reported. *)
Definition is_replaced (exact_positions : list Position) (hint : InlayHint Rest) : bool :=
  bool_decide (hint_position hint ∈ exact_positions) && label_contains "?" (hint_label hint).

Definition handle_inlay_hints (config : OwnershipConfig) (uri : string) (range : Range) : result (option (list (InlayHint Rest))) :=
  file ← file_range snap uri range;
  match file with
  | None => Ok None
  | Some (file_id, source) =>
      let index := line_index_new source in
      text_range ← expect (from_proto_text_range index range);
      let text_range := (N.min text_range.1 (text_len index), N.min text_range.2 (text_len index)) in
      native ← native_hints file_id text_range;
      let events := events_in range (ownership_events_for_file (osnap_events snap) file_id) in
      let kept := retain (fun hint => negb (is_replaced ((fun event => range_end (ev_range event)) <$> events) hint))
                    (with_metadata <$> native) in
      let exact := event_hint <$> iteration (event_groups events) in
      let mechanics :=
        if ownership_mechanics_enabled config then
          ownership_mechanics_hints (ownership_tutorial_for_file (osnap_models snap) file_id) range (enabled_categories config)
        else [] in
      coach ← (if ownership_method_coach_enabled config then ownership_method_coach_hints file_id source text_range else Ok []);
      Ok (Some (sort_by (on hint_position position_leb) (kept ++ exact ++ mechanics ++ coach)))
  end.

(** [?] on an option, ending with [Ok(None)] *)
Definition or_nothing {A B} (o : option A) (f : A -> result (option B)) : result (option B) :=
  match o with
  | Some a => f a
  | None => Ok None
  end.

Definition is_coach (metadata : Value) : bool :=
  bool_decide ((get "version" metadata ≫= as_u64) = Some 4%N)
  && bool_decide ((get "category" metadata ≫= as_str) = Some "method_coach").

Definition resolve_method_coach_tooltip (data : Value) : result (option string) :=
  or_nothing (get "rustWorkbench" data) (fun metadata =>
  if negb (is_coach metadata) then Ok None
  else
    or_nothing (get "fileId" metadata ≫= as_u64) (fun file_id =>
    if negb (file_id <? 2 ^ 32)%N then Ok None
    else if negb (file_exists file_id) then Ok None
    else if negb (bool_decide ((get "fileVersion" metadata ≫= as_i64) = file_version file_id)) then Ok None
    else
      or_nothing (get "focusRange" metadata) (fun focus_range =>
      focus_range ← range_from_value focus_range;
      source ← osnap_file_text snap file_id;
      match from_proto_text_range (line_index_new source) focus_range with
      | None => Err "Invalid Range"
      | Some source_range =>
          tree ← analyzed file_id;
          let operation_name := get "operationName" metadata ≫= as_str in
          Ok (format_method_coach_tooltip <$>
            find_first (fun insight =>
              same_range (insight_range insight) source_range
              && is_none_or operation_name (fun name => insight_name insight =s name))
              (ownership_call_insights_for_positions sema tree [source_range.1]))
      end))).

Definition rust_workbench_metadata_only_inlay_data (data : Value) : bool :=
  is_some (get "rustWorkbench" data) && negb (is_some (get "file_id" data)) && negb (is_some (get "hash" data))
  && negb (is_some (get "resolve_range" data)).

Definition with_tooltip (hint : InlayHint Rest) (tooltip : option Tooltip) (data : option Value) : InlayHint Rest :=
  mk_hint (hint_position hint) (hint_label hint) (hint_kind hint) (hint_text_edits hint) tooltip
    (hint_padding_left hint) (hint_padding_right hint) data.

Definition handle_inlay_hints_resolve (original_hint : InlayHint Rest) : result (InlayHint Rest) :=
  match hint_data original_hint with
  | None => Ok original_hint
  | Some data =>
      coach ← resolve_method_coach_tooltip data;
      match coach with
      | Some tooltip => Ok (with_tooltip original_hint (Some (MarkdownTooltip tooltip)) (Some data))
      | None =>
          match get "rustWorkbenchTooltip" data ≫= as_str with
          | Some tooltip => Ok (with_tooltip original_hint (Some (MarkdownTooltip tooltip)) (Some data))
          | None =>
              if rust_workbench_metadata_only_inlay_data data then Ok original_hint
              else native_resolve data (with_tooltip original_hint (hint_tooltip original_hint) None)
          end
      end
  end.
End hints.

(** ** Code actions *)

(** [TextRange::intersect(..).is_some()] *)
Definition intersects (a b : N * N) : bool := (N.max a.1 b.1 <=? N.min a.2 b.2)%N.

Definition fixes_in (index : LineIndex) (check_fixes : Table (list RepairFix)) (file_id : FileId) (range : N * N) :
    list RepairFix :=
  retain (fun f : RepairFix => existsb (fun r => intersects r range) (omap (from_proto_text_range index) (fix_ranges f)))
    (values_for check_fixes file_id).

(** The actions of [handle_code_action]: [res] are those of the assists. *)
Definition merged_actions (res : list CodeAction) (fixes : list RepairFix) : list CodeAction :=
  let validated_wrappers :=
    retain (fun strategy => negb (bool_decide (strategy = WAll))) (omap fix_ownership_wrapper fixes) in
  retain (fun action =>
    negb match heuristic_ownership_strategy (action_title action) with
         | Some heuristic => existsb (fun strategy => bool_decide (strategy = heuristic)) validated_wrappers
         | None => false
         end) res
  ++ (fix_action <$> fixes).
