(* ===== verification/AnalyzerHintsSpec.v ===== *)
(** * rust-analyzer: what the hints show, and that clues lead to their texts

    A clue at a call is resolved, when it is hovered, to the explanation it was made from;
    memory facts are bounded and repeat nothing; the compiler's events take the place of the
    analyzer's estimates, in the order of the text and whatever order a hash map has. *)

From Stdlib Require Import Ascii String.
From S2P Require Import Prelude RustStr RustColl RustPath MemoryGraph RepairPlan Autofix AutofixDriver AnalyzerData AnalyzerModel AnalyzerState AutofixSpec PipelineSpec BridgeSpec AnalyzerProblems AnalyzerProblemsSpec AnalyzerGuide AnalyzerPreview AnalyzerRepairs LineIndex LineIndexSpec AnalyzerSyntax AnalyzerSyntaxSpec AnalyzerInsight AnalyzerInsightSpec AnalyzerTokens AnalyzerHints.
From S2P Require Import Protocol.
From stdpp Require Import options.

Lemma mapM_elem {A B} (f : A -> result B) l l' y :
  mapM f l = Ok l' -> y ∈ l' -> exists x, x ∈ l /\ f x = Ok y.
Proof.
  revert l'. induction l as [|x l IH]; intros l' H Hy; cbn in H.
  { injection H as <-. by apply not_elem_of_nil in Hy. }
  apply bind_ok in H as (z & Hz & (zs & Hzs & [= <-])%bind_ok).
  apply elem_of_cons in Hy as [->|Hy]; [exists x; split; [by left|done]|].
  destruct (IH zs Hzs Hy) as (x' & ? & ?). exists x'. split; [by right|done].
Qed.

Lemma elem_of_take_N {A} n (l : list A) x : x ∈ take_N n l -> x ∈ l.
Proof. rewrite take_N_spec. intros Hx. eapply elem_of_sublist; [exact Hx|apply sublist_take]. Qed.

(** ** Calls at a position *)

Section clues.
Context {Node Function : Type} `{SyntaxTree Node} `{EqDecision Function} (sema : Semantics Node Function).

(** The calls around the tokens at an offset, before their number is bounded. *)
Definition calls_around (root : Node) (offset : N) : list Node :=
  concat ((fun token => token_calls token.2) <$> tokens_at root offset).

(** What a tree of Rust has: a call has tokens, so one of those at its start is inside it;
    and it has parentheses of its own, so no other call has its range. *)
Record calls_apart (root : Node) : Prop := {
  call_has_token : forall call, call ∈ retain is_call (descendants root) ->
    exists token, token ∈ tokens_at root (node_range call).1 /\ call ∈ token.2;
  call_range_unique : forall call other, call ∈ retain is_call (descendants root) ->
    other ∈ calls_around root (node_range call).1 -> node_range other = node_range call -> other = call
}.

#[local] Instance range_pair_total : TotalLeb range_pair_leb.
Proof using Type. unfold range_pair_leb. apply _. Qed.

Lemma same_range_spec {A} (f : A -> N * N) (a b : A) : same_range (f a) (f b) = true <-> f a = f b.
Proof using Type. unfold same_range. apply bool_decide_eq_true. Qed.

Lemma sorted_calls_covers (calls : list Node) call :
  call ∈ calls -> exists other, other ∈ sorted_calls calls /\ node_range other = node_range call.
Proof using Type.
  intros Hc. assert (node_range call ∈ node_range <$> sorted_calls calls) as Hr.
  { apply (dedup_by_covers node_range range_pair_leb); [apply same_range_spec|]. by rewrite elem_of_sort_by. }
  apply list_elem_of_fmap in Hr as (other & ? & ?). by exists other.
Qed.

Lemma elem_of_sorted_calls (calls : list Node) call : call ∈ sorted_calls calls -> call ∈ calls.
Proof using Type. intros Hc%elem_of_dedup_by. by rewrite elem_of_sort_by in Hc. Qed.

Lemma elem_of_calls_at (root : Node) offset call : call ∈ calls_at_position root offset -> call ∈ calls_around root offset.
Proof using Type.
  unfold calls_at_position, calls_around. intros Hc%elem_of_take_N%elem_of_dedup_by.
  rewrite elem_of_sort_by in Hc. apply list_elem_of_In, in_concat in Hc as (l & Hl & Hc).
  apply list_elem_of_In, list_elem_of_fmap in Hl as (token & -> & Ht). rewrite elem_of_sort_by in Ht.
  apply list_elem_of_In, in_concat. eexists. split; [|exact Hc]. apply list_elem_of_In, list_elem_of_fmap. by exists token.
Qed.

(** The bound on calls is not reached. *)
Definition few_calls (root : Node) (offset : N) : Prop := (len (calls_around root offset) <= MAX_CALLS)%N.

Lemma calls_at_covers (root : Node) offset call :
  few_calls root offset -> call ∈ calls_around root offset ->
  exists other, other ∈ calls_at_position root offset /\ node_range other = node_range call.
Proof using Type.
  unfold few_calls, calls_around, calls_at_position. intros Hfew Hc.
  set (tokens := sort_by _ (tokens_at root offset)).
  assert (concat ((fun token => token_calls token.2) <$> tokens) ≡ₚ
          concat ((fun token => token_calls token.2) <$> tokens_at root offset)) as Hp.
  { unfold tokens. by rewrite sort_by_perm. }
  set (sorted := sort_by _ (concat _)).
  assert (sorted ≡ₚ concat ((fun token => token_calls token.2) <$> tokens_at root offset)) as Hs.
  { unfold sorted. by rewrite sort_by_perm. }
  assert (node_range call ∈ node_range <$> dedup_by (fun a b => same_range (node_range a) (node_range b)) sorted) as Hr.
  { apply (dedup_by_covers node_range range_pair_leb); [apply same_range_spec|]. by rewrite Hs. }
  apply list_elem_of_fmap in Hr as (other & ? & Ho). exists other. split; [|done].
  rewrite take_N_spec, take_ge; [done|].
  etrans; [apply dedup_by_length|]. rewrite Hs. unfold len in Hfew. lia.
Qed.

Lemma explain_range call insight : explain_call sema call = Some insight -> insight_range insight = node_range call.
Proof using Type. intros Hc. by apply explain_call_within in Hc as [_ ?]. Qed.

Lemma call_around (root : Node) call :
  calls_apart root -> call ∈ retain is_call (descendants root) -> call ∈ calls_around root (node_range call).1.
Proof using Type.
  intros [Ht _] Hc. destruct (Ht call Hc) as (token & Htok & Ha). apply elem_of_retain in Hc as [Hc _].
  apply list_elem_of_In, in_concat. eexists. split; [apply list_elem_of_In, list_elem_of_fmap; by exists token|].
  apply list_elem_of_In. unfold token_calls. assert (call ∈ retain is_call token.2) as Hr by by apply elem_of_retain.
  destruct (retain is_call token.2); [by apply not_elem_of_nil in Hr|done].
Qed.

(** The calls at the start of a call are explained one by one, the call itself among them. *)
Lemma insight_found (root : Node) call insight :
  calls_apart root -> few_calls root (node_range call).1 -> call ∈ retain is_call (descendants root) ->
  explain_call sema call = Some insight ->
  find_first (fun i => same_range (insight_range i) (node_range call) && (insight_name i =s insight_name insight))
    (ownership_call_insights_for_positions sema root [(node_range call).1]) = Some insight.
Proof using Type.
  intros Hapart Hfew Hc He. set (offset := (node_range call).1) in *. unfold ownership_call_insights_for_positions. cbn [fmap list_fmap concat].
  rewrite app_nil_r. set (calls := sorted_calls (calls_at_position root offset)).
  assert (take_N (MAX_CALLS * N.min (len [offset]) 64) calls = calls) as ->.
  { rewrite take_N_spec, take_ge; [done|]. change (N.to_nat (MAX_CALLS * N.min (len [offset]) 64)) with 16. unfold calls, sorted_calls.
    etrans; [apply dedup_by_length|]. rewrite sort_by_length. unfold calls_at_position. rewrite take_N_spec, length_take.
    change (N.to_nat MAX_CALLS) with 16. lia. }
  assert (forall other, other ∈ calls -> node_range other = node_range call -> other = call) as Huniq.
  { intros other Ho%elem_of_sorted_calls%elem_of_calls_at. by apply (call_range_unique root Hapart). }
  destruct (find_first _ _) as [i|] eqn:Hf.
  - apply find_first_Some in Hf as [[Hr _]%andb_true_iff Hi]. apply list_elem_of_omap in Hi as (other & Ho & Heo).
    apply bool_decide_eq_true in Hr. rewrite (explain_range _ _ Heo) in Hr. apply Huniq in Hr as ->; [|done]. congruence.
  - exfalso. destruct (calls_at_covers root offset call) as (c1 & Hc1 & Hr1); [done|by apply call_around|].
    destruct (sorted_calls_covers _ _ Hc1) as (c2 & Hc2 & Hr2). fold calls in Hc2.
    assert (c2 = call) as -> by (apply Huniq; [done|congruence]).
    rewrite find_first_None in Hf. specialize (Hf insight). rewrite (explain_range _ _ He) in Hf.
    rewrite (proj2 (same_range_spec node_range call call) eq_refl), str_eqb_refl in Hf.
    discriminate Hf. apply list_elem_of_omap. by exists call.
Qed.
End clues.

(** ** Clues and their texts *)

Section resolve.
Context {Rest : Type} `{RangeCodec} {Node Function : Type} `{SyntaxTree Node} `{EqDecision Function}.
Context (snap : OwnershipSnapshot) (analyzed : FileId -> result Node) (sema : Semantics Node Function).
Context (file_version : FileId -> option Z) (file_exists : FileId -> bool).
Context (native_resolve : Value -> InlayHint Rest -> result (InlayHint Rest)).

(** The file of a clue: there, of a version of 32 bits, and analysed as the tree [root]. *)
Record clue_file (file_id : FileId) (source : string) (root : Node) : Prop := {
  clue_id : (file_id < 2 ^ 32)%N;
  clue_exists : file_exists file_id = true;
  clue_version : match file_version file_id with Some v => (- 2 ^ 31 <= v < 2 ^ 31)%Z | None => True end;
  clue_text : osnap_file_text snap file_id = Ok source;
  clue_tree : analyzed file_id = Ok root;
  clue_utf8 : valid_utf8 source = true;
  clue_length : (str_len source < 2 ^ 32)%N
}.

Abbreviation resolve_tooltip := (resolve_method_coach_tooltip snap analyzed sema file_version file_exists).
Abbreviation resolve_hint := (handle_inlay_hints_resolve snap analyzed sema file_version file_exists native_resolve).

Lemma version_back file_id :
  match file_version file_id with Some v => (- 2 ^ 31 <= v < 2 ^ 31)%Z | None => True end ->
  as_i64 (or_null (VNumber <$> file_version file_id)) = file_version file_id.
Proof using Type.
  destruct (file_version file_id) as [v|]; [|done]. intros Hv. cbn.
  rewrite (proj2 (Z.leb_le _ _)), (proj2 (Z.ltb_lt _ _)) by lia. done.
Qed.

(** What is computed from the data of a clue, up to the search for its call. *)
Lemma resolve_clue file_id source (root : Node) insight (hint : InlayHint Rest) data :
  clue_file file_id source root -> range_in source (insight_range insight) ->
  coach_hint (line_index_new source) file_id (file_version file_id) insight = Ok hint -> hint_data hint = Some data ->
  resolve_tooltip data =
    Ok (format_method_coach_tooltip <$>
      find_first (fun i => same_range (insight_range i) (insight_range insight) && (insight_name i =s insight_name insight))
        (ownership_call_insights_for_positions sema root [(insight_range insight).1])).
Proof using Type.
  intros [Hid Hex Hv Ht Htree Hu Hl] Hr. unfold coach_hint. rewrite to_proto_range_in by done. cbn [expect mbind result_bind].
  intros [= <-] [= <-]. destruct Hr as (Hle & H1 & H2). unfold resolve_method_coach_tooltip. cbn -[N.ltb N.pow Z.leb Z.ltb Z.pow].
  unfold as_u64. rewrite (proj2 (Z.leb_le 0 (Z.of_N file_id))), (proj2 (Z.ltb_lt (Z.of_N file_id) (2 ^ 64))) by lia.
  cbn -[N.ltb N.pow]. rewrite N2Z.id, (proj2 (N.ltb_lt _ _) Hid), Hex. cbn.
  match goal with |- context [is_coach ?m] => replace (is_coach m) with true by reflexivity end. cbn [negb].
  rewrite version_back, bool_decide_true by done. cbn [negb]. rewrite range_roundtrip. cbn [mbind result_bind].
  rewrite Ht. cbn [mbind result_bind]. rewrite text_range_roundtrip by done. rewrite Htree. cbn.
  by destruct (insight_range insight).
Qed.

(** Another hint is no clue at a call. *)
Lemma not_coach data metadata :
  get "rustWorkbench" data = Some metadata -> (get "version" metadata ≫= as_u64) <> Some 4%N -> resolve_tooltip data = Ok None.
Proof using Type.
  intros Hm Hv. unfold resolve_method_coach_tooltip. rewrite Hm. cbn [or_nothing]. unfold is_coach.
  by rewrite bool_decide_false.
Qed.

(** A merged hint about memory is resolved to the text it carries, without any analysis. *)
Lemma mechanics_resolved group :
  resolve_hint (group_hint group) =
    Ok (with_tooltip (group_hint group)
          (Some (MarkdownTooltip (join (newline_str +:+ newline_str +:+ "---" +:+ newline_str +:+ newline_str)
                                    (part_tooltip <$> group.2)))) (hint_data (group_hint (Rest:=Rest) group))).
Proof using Type.
  destruct group as [position parts]. unfold handle_inlay_hints_resolve. cbn [group_hint hint_data].
  rewrite not_coach with (metadata := default VNull (get "rustWorkbench" (default VNull (hint_data (group_hint (Rest:=Rest) (position, parts))))));
    [reflexivity|reflexivity|]. by vm_compute.
Qed.

(** A hint about compiler events keeps its text, and asking again changes nothing. *)
Lemma event_resolved group : resolve_hint (event_hint group) = Ok (event_hint group).
Proof using Type.
  destruct group as [position events]. unfold handle_inlay_hints_resolve. cbn [event_hint hint_data].
  rewrite not_coach with (metadata := default VNull (get "rustWorkbench" (default VNull (hint_data (event_hint (Rest:=Rest) (position, events))))));
    [reflexivity|reflexivity|]. by vm_compute.
Qed.

Lemma clue_of_call (root : Node) range source hints hint file_id :
  analyzed file_id = Ok root -> ownership_method_coach_hints (Rest:=Rest) analyzed sema file_version file_id source range = Ok hints ->
  hint ∈ hints ->
  exists call insight, call ∈ retain is_call (descendants root) /\ explain_call sema call = Some insight /\
    ranges_overlap (node_range call) range = true /\
    coach_hint (line_index_new source) file_id (file_version file_id) insight = Ok hint.
Proof using Type.
  intros Htree. unfold ownership_method_coach_hints. rewrite Htree. cbn [mbind result_bind]. intros Hm Hh.
  destruct (mapM_elem _ _ _ _ Hm Hh) as (insight & Hi & Hc). apply elem_of_take_N in Hi. unfold ownership_call_insights_in_range in Hi.
  apply elem_of_take_N, elem_of_retain in Hi as [_ Hi]. apply list_elem_of_omap in Hi as (call & Hcall & He).
  apply elem_of_take_N, elem_of_sorted_calls, elem_of_retain in Hcall as [Ho Hcall]. by exists call, insight.
Qed.
End resolve.

(** C22: The clue at a call leads back to it.  A clue of the visible range, hovered while its
    file is unchanged, gets the explanation of the very call it stands at, as long as no
    more than 16 calls are around that place; its position, label and data stay as they
    were. *)
Theorem clue_explains_its_call {Rest} `{RangeCodec} {Node Function} `{SyntaxTree Node} `{EqDecision Function} snap analyzed
    (sema : Semantics Node Function) file_version file_exists native_resolve file_id source (root : Node)
    `{!SyntaxTreeLaws source root} range (hints : list (InlayHint Rest)) :
  clue_file snap analyzed file_version file_exists file_id source root -> calls_apart root ->
  ownership_method_coach_hints analyzed sema file_version file_id source range = Ok hints ->
  Forall (fun hint => exists call insight,
    call ∈ retain is_call (descendants root) /\ explain_call sema call = Some insight /\
    ranges_overlap (node_range call) range = true /\
    hint_position hint = range_end (lsp_range source (node_range call).1 (node_range call).2) /\
    (few_calls root (node_range call).1 ->
     handle_inlay_hints_resolve snap analyzed sema file_version file_exists native_resolve hint =
       Ok (with_tooltip hint (Some (MarkdownTooltip (format_method_coach_tooltip insight))) (hint_data hint)))) hints.
Proof.
  intros Hfile Hapart Hhints. apply Forall_forall. intros hint Hh.
  destruct (clue_of_call analyzed sema file_version root range source hints hint file_id) as (call & insight & Hc & He & Ho & Hh');
    [apply Hfile|done|done|].
  exists call, insight. pose proof (explain_range sema call insight He) as Hr.
  assert (range_in source (insight_range insight)) as Hin.
  { rewrite Hr. apply (belongs_range (root:=root)), (descendant_belongs (root:=root) root); [apply root_belongs|].
    by apply elem_of_retain in Hc as [_ ?]. }
  split; [done|]. split; [done|]. split; [done|].
  pose proof Hh' as Hshape. unfold coach_hint in Hshape. rewrite to_proto_range_in in Hshape by (try apply Hfile; done).
  cbn [expect mbind result_bind] in Hshape. injection Hshape as Hshape. rewrite <- Hr. split; [by rewrite <- Hshape|].
  intros Hfew. unfold handle_inlay_hints_resolve. destruct (hint_data hint) as [data|] eqn:Hd; [|by rewrite <- Hshape in Hd].
  rewrite (resolve_clue snap analyzed sema file_version file_exists file_id source root insight hint data) by done.
  rewrite Hr in Hfew |- *. rewrite insight_found by done. reflexivity.
Qed.

(** ** A chain of calls *)

Definition position_value (p : Position) : Value :=
  VObject [("line", VNumber (Z.of_N (position_line p))); ("character", VNumber (Z.of_N (position_character p)))].

Definition value_number (value : Value) : option N :=
  match value with VNumber n => Some (Z.to_N n) | _ => None end.

Definition value_position (value : Value) : option Position :=
  line ← get "line" value ≫= value_number;
  character ← get "character" value ≫= value_number;
  Some (mk_position line character).

Definition value_range (value : Value) : option Range :=
  start ← get "start" value ≫= value_position;
  end_ ← get "end" value ≫= value_position;
  Some (mk_range start end_).

(** The JSON form of the protocol. *)
Program Definition object_codec : RangeCodec := {|
  range_to_value range := VObject [("start", position_value (range_start range)); ("end", position_value (range_end range))];
  range_from_value value := match value_range value with Some range => Ok range | None => Err "missing field" end
|}.
Next Obligation. intros [[l c] [l' c']]. cbn. by rewrite !N2Z.id. Qed.

Fixpoint call_chain (n : nat) : Green :=
  match n with
  | O => path_expr "v"
  | S n => method_call (call_chain n) "push" (literal "1")
  end.

Definition chain_tree (n : nat) : Red := (0%N, function_of [GNode EXPR_STMT [call_chain n; other_token ";"]]).
Definition chain_text (n : nat) : string := green_text (chain_tree n).2.

Definition chain_snap (n : nat) : OwnershipSnapshot :=
  mk_osnap (fun _ => Ok (Some 1%N)) (fun _ => Ok (chain_text n)) (fun _ => "file:///main.rs") (fun _ => true) [] [] ∅.

Definition chain_hints (n : nat) : result (list (InlayHint unit)) :=
  ownership_method_coach_hints (H := object_codec) (fun _ => Ok (chain_tree n)) sample_semantics (fun _ => Some 1%Z) 1%N
    (chain_text n) (0, str_len (chain_text n))%N.

Definition chain_resolve (n : nat) (hint : InlayHint unit) : result (InlayHint unit) :=
  handle_inlay_hints_resolve (H := object_codec) (chain_snap n) (fun _ => Ok (chain_tree n)) sample_semantics (fun _ => Some 1%Z)
    (fun _ => true) (fun _ hint => Ok hint) hint.

Definition is_explained (hint : result (InlayHint unit)) : bool :=
  match hint with
  | Ok hint => is_some (hint_tooltip hint)
  | Err _ => false
  end.

(** One answer per clue: whether hovering it shows a text. *)
Definition chain_explained (n : nat) : list bool :=
  match chain_hints n with
  | Ok hints => is_explained ∘ chain_resolve n <$> hints
  | Err _ => []
  end.

(** In a chain of 17 calls every call has a clue, but hovering the last one shows nothing:
    of the calls that start there the 16 shortest are considered. *)
Lemma long_chain_not_explained : chain_explained 16 = replicate 16 true /\ chain_explained 17 = replicate 16 true ++ [false].
Proof. split; vm_compute; reflexivity. Qed.

Definition chain_laws : SyntaxTreeLaws (chain_text 2) (chain_tree 2).
Proof. apply red_laws; [reflexivity|]. unfold descendants, red_tree, chain_tree. cbn -[red_range]. check_ranges. Defined.

(** Membership in concrete lists, to show and to split. *)
Ltac find_elem := vm_compute; repeat (apply elem_of_cons; first [left; reflexivity | right]).
Ltac each_elem H := vm_compute in H; repeat (apply elem_of_cons in H as [->|H]); [..|by apply not_elem_of_nil in H].

Lemma chain_apart : calls_apart (chain_tree 2).
Proof.
  split.
  - intros call Hc. each_elem Hc; (eexists; split; [vm_compute; apply elem_of_cons; right; apply elem_of_cons; left; reflexivity|find_elem]).
  - intros call other Hc. each_elem Hc; (intros Ho; each_elem Ho; vm_compute; congruence).
Qed.

Lemma clue_explains_its_call_witness : chain_explained 2 = [true; true].
Proof.
  unfold chain_explained. destruct (chain_hints 2) as [hints|] eqn:Hh; [|vm_compute in Hh; discriminate Hh].
  pose proof (clue_explains_its_call (H := object_codec) (chain_snap 2) (fun _ => Ok (chain_tree 2)) sample_semantics
    (fun _ => Some 1%Z) (fun _ => true) (fun _ hint => Ok hint) 1%N (chain_text 2) (chain_tree 2)
    (SyntaxTreeLaws0 := chain_laws) (0, str_len (chain_text 2))%N hints) as Hall.
  assert (length hints = 2) as Hlen by (vm_compute in Hh; injection Hh as <-; reflexivity).
  assert (forall call, call ∈ retain is_call (descendants (chain_tree 2)) -> few_calls (chain_tree 2) (node_range call).1) as Hfew.
  { clear. intros call Hc. each_elem Hc; vm_compute; intros Hx; discriminate Hx. }
  assert (clue_file (chain_snap 2) (fun _ => Ok (chain_tree 2)) (fun _ => Some 1%Z) (fun _ => true) 1%N (chain_text 2) (chain_tree 2))
    as Hfile by (clear; split; try reflexivity; lia).
  specialize (Hall Hfile chain_apart Hh).
  assert (Forall (fun hint => is_explained (chain_resolve 2 hint) = true) hints) as Hex.
  { eapply Forall_impl; [exact Hall|]. intros hint (call & insight & Hc & _ & _ & _ & Hr).
    unfold chain_resolve. rewrite (Hr (Hfew call Hc)). reflexivity. }
  clear Hall Hh Hfew. destruct hints as [|a [|b [|c hints]]]; try discriminate Hlen. inversion_clear Hex as [|? ? Ha Hex']. inversion_clear Hex' as [|? ? Hb _].
  change ((is_explained ∘ chain_resolve 2 <$> [a; b]) = [true; true]).
  cbn [fmap list_fmap compose]. rewrite Ha, Hb. reflexivity.
Defined.

(** ** Memory facts *)




















Definition every_category : OwnershipMechanicsCategories := mk_categories true true true true.


(** A path to a node on line 3, and one to a node that is not there. *)
Definition visible_path : OwnershipModelAccessPath :=
  mk_apath "p" 7 "n" "v" "read"
    [mk_astep "deref" "&Vec<i32>" "Vec<i32>" "shared" "implicit" false false false "reads through the reference" "exact"] "exact".

Definition hidden_path : OwnershipModelAccessPath := mk_apath "h" 7 "elsewhere" "w" "read" [] "exact".

Definition path_facts (paths : list OwnershipModelAccessPath) : OwnershipTutorialModel :=
  let range := mk_range (mk_position 3 4) (mk_position 3 5) in
  mk_tmodel 7 "x86_64" [] [] []
    (mk_tgraph [mk_tnode (mk_anode "n" 7 "v" "binding" "stack" "v" "&Vec<i32>" None None None RaState.Available "exact" EmptyString false)
                  (Some range)] [] [] paths false).

(** A path of the visible range after 128 others is not shown, although not one hint is
    served; the compiler writes up to 256 paths. *)
Lemma late_access_path_not_shown :
  let range := mk_range (mk_position 0 0) (mk_position 9 0) in
  let hints paths := ownership_mechanics_hints (Rest:=unit) (H:=object_codec) (path_facts paths) range every_category in
  hints (replicate 128 hidden_path ++ [visible_path]) = [] /\
  len (hints (replicate 127 hidden_path ++ [visible_path])) = 1%N.
Proof. split; vm_compute; reflexivity. Qed.

(** ** Exact events and estimates *)

Section order.
Context {A B : Type} (f : A -> B) (leb : B -> B -> bool) `{!TotalLeb leb}.

(** Elements with different keys can be inserted in either order. *)
Lemma insert_sorted_comm x y l :
  f x <> f y -> insert_sorted (on f leb) x (insert_sorted (on f leb) y l) = insert_sorted (on f leb) y (insert_sorted (on f leb) x l).
Proof using TotalLeb0.
  intros Hne. assert (leb (f x) (f y) = true -> leb (f y) (f x) = true -> False) as Hanti by (intros; by apply Hne, leb_antisym).
  pose proof (leb_total (f x) (f y)) as Htot.
  induction l as [|z l IH]; cbn; unfold on in *.
  - destruct (leb (f x) (f y)), (leb (f y) (f x)); naive_solver.
  - pose proof (leb_trans (f x) (f y) (f z)). pose proof (leb_trans (f y) (f x) (f z)).
    destruct (leb (f x) (f z)) eqn:Hxz, (leb (f y) (f z)) eqn:Hyz; cbn; rewrite ?Hxz, ?Hyz;
      destruct (leb (f x) (f y)), (leb (f y) (f x)); try rewrite IH; naive_solver.
Qed.

Lemma insert_all_perm p q l :
  p ≡ₚ q -> NoDup (f <$> p) -> foldr (insert_sorted (on f leb)) l p = foldr (insert_sorted (on f leb)) l q.
Proof using TotalLeb0.
  induction 1 as [|x p q _ IH|x y p|p q r Hpq IH1 Hqr IH2]; intros Hnd; cbn; [done| | |].
  - inversion_clear Hnd. by rewrite IH.
  - apply insert_sorted_comm. cbn in Hnd. inversion_clear Hnd as [|? ? Hx _]. intros Heq. apply Hx. rewrite Heq. by left.
  - rewrite IH1 by done. apply IH2. by rewrite <- Hpq.
Qed.

(** The order of the middle does not matter when its keys are distinct. *)
Lemma sort_by_middle a p q c :
  p ≡ₚ q -> NoDup (f <$> p) -> sort_by (on f leb) (a ++ p ++ c) = sort_by (on f leb) (a ++ q ++ c).
Proof using TotalLeb0. intros Hp Hnd. unfold sort_by. rewrite !foldr_app. f_equal. by apply insert_all_perm. Qed.
End order.

Definition ends_at (position : Position) (event : AnalyzerData.OwnershipEvent) : bool :=
  bool_decide (range_end (ev_range event) = position).

(** The groups made so far: one per end of an event, with the events that end there. *)
Record groups_of (events : list AnalyzerData.OwnershipEvent) (grouped : list (Position * list AnalyzerData.OwnershipEvent)) : Prop := {
  groups_positions : NoDup (fst <$> grouped);
  groups_events : Forall (fun g => g.2 = retain (ends_at g.1) events) grouped;
  groups_cover : forall event, event ∈ events -> range_end (ev_range event) ∈ fst <$> grouped
}.

Lemma group_event_keys event grouped :
  (fst <$> group_event event grouped) =
  (fst <$> grouped) ++ (if decide (range_end (ev_range event) ∈ fst <$> grouped) then [] else [range_end (ev_range event)]).
Proof.
  induction grouped as [|[p es] grouped IH]; [done|]. cbn. case_bool_decide as Hp; cbn.
  - rewrite decide_True by (subst; by left). by rewrite app_nil_r.
  - rewrite IH. destruct (decide (range_end (ev_range event) ∈ fst <$> grouped)).
    + rewrite decide_True by (by right). done.
    + rewrite decide_False; [done|]. intros [?|?]%elem_of_cons; congruence.
Qed.

Lemma group_event_events events event grouped :
  Forall (fun g => g.2 = retain (ends_at g.1) events) grouped ->
  (range_end (ev_range event) ∉ fst <$> grouped -> retain (ends_at (range_end (ev_range event))) events = []) ->
  NoDup (fst <$> grouped) ->
  Forall (fun g => g.2 = retain (ends_at g.1) (events ++ [event])) (group_event event grouped).
Proof.
  intros Hall Hnew Hnd. induction Hall as [|[p es] grouped Hg Hall IH]; cbn.
  { constructor; [|constructor]. cbn. rewrite retain_app, Hnew by apply not_elem_of_nil. cbn. unfold ends_at.
    by rewrite bool_decide_true. }
  cbn in Hg, Hnd. inversion_clear Hnd as [|? ? Hp Hnd']. case_bool_decide as He.
  - constructor.
    + cbn. rewrite retain_app, <- Hg. cbn. unfold ends_at. by rewrite bool_decide_true.
    + rewrite Forall_forall in Hall |- *. intros g Hin. rewrite (Hall g Hin), retain_app. cbn. unfold ends_at at 3.
      rewrite bool_decide_false; [by rewrite app_nil_r|]. intros Heq. apply Hp. rewrite He, Heq. by apply list_elem_of_fmap_2.
  - constructor; [|apply IH; [|done]].
    + cbn. rewrite retain_app, <- Hg. cbn. unfold ends_at. rewrite bool_decide_false by done. by rewrite app_nil_r.
    + intros Hnin. apply Hnew. by intros [?|?]%elem_of_cons.
Qed.

Lemma group_event_of events event grouped : groups_of events grouped -> groups_of (events ++ [event]) (group_event event grouped).
Proof.
  intros [Hp He Hc]. split.
  - rewrite group_event_keys. apply NoDup_app. split; [done|]. case_decide; (split; [|by repeat constructor; apply not_elem_of_nil]).
    + intros x _ Hx. by apply not_elem_of_nil in Hx.
    + intros x Hx Hs. apply list_elem_of_singleton in Hs as ->. done.
  - apply group_event_events; [done| |done]. intros Hnin. destruct (retain _ events) as [|e es] eqn:Hr; [done|].
    assert (e ∈ retain (ends_at (range_end (ev_range event))) events) as Hin by (rewrite Hr; by left).
    apply elem_of_retain in Hin as [Hend Hin]. apply bool_decide_eq_true in Hend. apply Hc in Hin. congruence.
  - intros e He'. rewrite group_event_keys. apply elem_of_app in He' as [?|He']; [apply elem_of_app; left; auto|].
    apply list_elem_of_singleton in He' as ->. apply elem_of_app. case_decide; [by left|right; by left].
Qed.

Lemma event_groups_of events : groups_of events (event_groups events).
Proof.
  unfold event_groups. enough (forall done_ grouped, groups_of done_ grouped ->
    groups_of (done_ ++ events) (foldl (fun grouped event => group_event event grouped) grouped events)) as H.
  { apply (H [] []). split; [constructor|constructor|]. intros e He. by apply not_elem_of_nil in He. }
  induction events as [|event events IH]; intros done_ grouped Hg; cbn; [by rewrite app_nil_r|].
  change (event :: events) with ([event] ++ events). rewrite app_assoc. apply IH. by apply group_event_of.
Qed.


Lemma event_hint_position {Rest} group : hint_position (event_hint (Rest:=Rest) group) = group.1.
Proof. by destruct group. Qed.

(** The answer does not depend on the order in which the hash map of events gives its
    entries: any two orders lead to the same list of hints. *)
Theorem hints_independent_of_map_order {Rest} `{RangeCodec} {Node Function} `{SyntaxTree Node} `{EqDecision Function} snap analyzed
    (sema : Semantics Node Function) file_version native_hints iteration iteration' config uri range :
  (forall l, iteration l ≡ₚ l) -> (forall l, iteration' l ≡ₚ l) ->
  handle_inlay_hints (Rest:=Rest) snap analyzed sema file_version native_hints iteration config uri range =
  handle_inlay_hints snap analyzed sema file_version native_hints iteration' config uri range.
Proof.
  intros H1 H2. unfold handle_inlay_hints. destruct (file_range snap uri range) as [[[file_id source]|]|]; [|done..].
  cbn [mbind result_bind]. destruct (expect _) as [text_range|]; [|done]. cbn [mbind result_bind].
  destruct (native_hints file_id _) as [native|]; [|done]. cbn [mbind result_bind].
  match goal with |- (?c ≫= _) = _ => destruct c as [coach|]; [|done] end. cbn [mbind result_bind].
  set (groups := event_groups _). do 2 f_equal. apply (sort_by_middle hint_position position_leb); [by rewrite H1, H2|].
  assert (NoDup (fst <$> iteration groups)) as Hnd by (rewrite H1; apply event_groups_of).
  rewrite <- list_fmap_compose. erewrite list_fmap_ext; [exact Hnd|]. intros i g _. apply event_hint_position.
Qed.

Definition sample_event (kind : RaEventKind.OwnershipEventKind) (name : string) (first last : N) : AnalyzerData.OwnershipEvent :=
  let range := mk_range (mk_position 0 first) (mk_position 0 last) in
  mk_ev name 7 0 0 kind RaState.Moved range range name name None true None None.

Definition event_snap : OwnershipSnapshot :=
  mk_osnap (fun _ => Ok (Some 1%N)) (fun _ => Ok "let a = b; c") (fun _ => "file:///main.rs") (fun _ => true) []
    [{[ None := {[ 1%N := [sample_event RaEventKind.Copy "c" 11 12; sample_event RaEventKind.Move "b" 8 9;
                          sample_event RaEventKind.Drop "b" 8 9] ]} ]}] ∅.

(** Two estimates of the analyzer, one where the compiler reported an event. *)
Definition estimate (character : N) : NativeHint unit :=
  mk_native InlayKind.Ownership "move?"
    (mk_hint (mk_position 0 character) (LabelString "move?") None None None None None None).

Definition show_all : OwnershipConfig := mk_oconfig true true true true true true true.

Definition sample_answer (iteration : list (Position * list AnalyzerData.OwnershipEvent) -> list (Position * list AnalyzerData.OwnershipEvent)) :
    result (option (list (InlayHint unit))) :=
  handle_inlay_hints (H := object_codec) event_snap (fun _ => Ok (chain_tree 0)) sample_semantics (fun _ => Some 1%Z)
    (fun _ _ => Ok [estimate 9; estimate 5]) iteration show_all "file:///main.rs" (mk_range (mk_position 0 0) (mk_position 0 12)).

Definition label_text (hint : InlayHint unit) : string :=
  match hint_label hint with LabelString label => label | LabelParts _ => EmptyString end.

Definition answer_labels (answer : result (option (list (InlayHint unit)))) : list string :=
  match answer with
  | Ok (Some hints) => label_text <$> hints
  | _ => []
  end.

Lemma hints_independent_of_map_order_witness :
  answer_labels (sample_answer (@rev _)) = ["move?"; "move · drop"; "copy"] /\
  sample_answer id = sample_answer (@rev _).
Proof.
  split; [vm_compute; reflexivity|]. unfold sample_answer. apply hints_independent_of_map_order.
  - intros l. reflexivity.
  - intros l. symmetry. apply Permutation_rev.
Defined.

(** The data of every hint of the analyzer, estimates included, is an object with its
    metadata. *)
Lemma map_insert_get key value fields : snd <$> find_first (fun field => field.1 =s key) (map_insert key value fields) = Some value.
Proof.
  induction fields as [|[k v] fields IH]; cbn; [by rewrite str_eqb_refl|].
  destruct (k =s key) eqn:Hk; cbn; [by rewrite str_eqb_refl|]. by rewrite Hk.
Qed.

Lemma native_has_metadata {Rest} (hint : NativeHint Rest) fields :
  default (VObject []) (hint_data (native_hint hint)) = VObject fields ->
  (hint_data (with_metadata hint) ≫= get "rustWorkbench") =
    Some (rust_workbench_inlay_metadata (native_kind hint) (native_label hint)).
Proof. intros Hd. unfold with_metadata. rewrite Hd. cbn [hint_data mbind option_bind get]. apply map_insert_get. Qed.

Section answer.
Context {Rest : Type} `{RangeCodec} {Node Function : Type} `{SyntaxTree Node} `{EqDecision Function}.
Context (snap : OwnershipSnapshot) (analyzed : FileId -> result Node) (sema : Semantics Node Function).
Context (file_version : FileId -> option Z) (native_hints : FileId -> N * N -> result (list (NativeHint Rest))).




End answer.


