(* ===== verification/Mir.v ===== *)
(** * The compiler's mid-level representation

    What the ownership recorder reads of a function body under borrow check
    ([rustc_middle/src/mir/syntax.rs], [mod.rs], [terminator.rs], [basic_blocks.rs]): places,
    operands, statements and terminators with every constructor, the control-flow graph they
    make, and the traversal of [visit.rs] with the methods a visitor can override as
    arguments.  Fields nothing here reads are left out (types inside places, operators, casts,
    regions, scopes, and the debug information optimisations attach to statements, which
    the traversal visits as no use); every block has its terminator, as in any body that is
    borrow checked. *)

From S2P Require Import Prelude RustStr RustColl CompilerData.
From stdpp Require Import options.

Definition Local : Type := N.
Definition BasicBlock : Type := N.
Bind Scope N_scope with Local BasicBlock.
Definition RETURN_PLACE : Local := 0%N.

Record Location : Type := mk_location {
  location_block : BasicBlock;
  location_statement_index : N
}.
#[global] Instance Location_eq_dec : EqDecision Location.
Proof. solve_decision. Defined.

Definition location_key (location : Location) : N * N := (location_block location, location_statement_index location).

Definition START : Location := mk_location 0%N 0%N.

Definition successor_within_block (location : Location) : Location :=
  mk_location (location_block location) (location_statement_index location + 1).

(** ** Places and operands *)

Module Proj.
Inductive ProjectionElem : Type :=
| Deref
| Field (field : N)
| Index (local : Local)
| ConstantIndex (offset min_length : N) (from_end : bool)
| Subslice (from to : N) (from_end : bool)
| Downcast (name : option string) (variant : N)
| OpaqueCast
| UnwrapUnsafeBinder.
End Proj.

Record Place : Type := mk_place {
  place_local : Local;
  place_projection : list Proj.ProjectionElem
}.

Definition place_from (local : Local) : Place := mk_place local [].

Module Op.
Inductive Operand : Type :=
| Copy (place : Place)
| Move (place : Place)
| Constant
| RuntimeChecks.
End Op.

Inductive Mutability : Type := Not | Mut.

Module Borrow.
Inductive BorrowKind : Type :=
| Shared
| Fake
| Mut.
End Borrow.

Module RawPtr.
Inductive RawPtrKind : Type :=
| Mut
| Const
| FakeForPtrMetadata.
End RawPtr.

Module Rv.
Inductive Rvalue : Type :=
| Use (operand : Op.Operand)
| Repeat (operand : Op.Operand)
| Ref (kind : Borrow.BorrowKind) (place : Place)
| ThreadLocalRef
| RawPtr (kind : RawPtr.RawPtrKind) (place : Place)
| Cast (operand : Op.Operand)
| BinaryOp (lhs rhs : Op.Operand)
| UnaryOp (operand : Op.Operand)
| Discriminant (place : Place)
| Aggregate (operands : list Op.Operand)
| CopyForDeref (place : Place)
| WrapUnsafeBinder (operand : Op.Operand)
| Reborrow (mutability : Mutability) (place : Place).
End Rv.

(** ** Statements *)

Inductive NonDivergingIntrinsic : Type :=
| Assume (operand : Op.Operand)
| CopyNonOverlapping (src dst count : Op.Operand).

Module Stmt.
Inductive StatementKind : Type :=
| Assign (place : Place) (rvalue : Rv.Rvalue)
| FakeRead (place : Place)
| SetDiscriminant (place : Place)
| StorageLive (local : Local)
| StorageDead (local : Local)
| PlaceMention (place : Place)
| AscribeUserType (place : Place)
| Coverage
| Intrinsic (intrinsic : NonDivergingIntrinsic)
| BackwardIncompatibleDropHint (place : Place)
| ConstEvalCounter
| Nop.
End Stmt.

Record Statement : Type := mk_statement {
  statement_span : Span;
  statement_kind : Stmt.StatementKind
}.

(** ** Terminators *)

Module Unwind.
Inductive UnwindAction : Type :=
| Continue
| Unreachable
| Terminate
| Cleanup (block : BasicBlock).
End Unwind.

Module Assert.
Inductive AssertKind : Type :=
| BoundsCheck (len index : Op.Operand)
| Overflow (left right : Op.Operand)
| OverflowNeg (operand : Op.Operand)
| DivisionByZero (operand : Op.Operand)
| RemainderByZero (operand : Op.Operand)
| ResumedAfterReturn
| ResumedAfterPanic
| ResumedAfterDrop
| MisalignedPointerDereference (required found : Op.Operand)
| NullPointerDereference
| NullReferenceConstructed
| InvalidEnumConstruction (operand : Op.Operand).
End Assert.

Module Asm.
Inductive InlineAsmOperand : Type :=
| In (value : Op.Operand)
| Out (place : option Place)
| InOut (in_value : Op.Operand) (out_place : option Place)
| Const
| SymFn
| SymStatic
| Label.
End Asm.

Module Term.
Inductive TerminatorKind : Type :=
| Goto (target : BasicBlock)
| SwitchInt (discr : Op.Operand) (targets : list BasicBlock)
| UnwindResume
| UnwindTerminate
| Return
| Unreachable
| Drop (place : Place) (target : BasicBlock) (unwind : Unwind.UnwindAction) (drop : option BasicBlock)
| Call (func : Op.Operand) (args : list Op.Operand) (destination : Place) (target : option BasicBlock)
    (unwind : Unwind.UnwindAction)
| TailCall (func : Op.Operand) (args : list Op.Operand)
| Assert (cond : Op.Operand) (msg : Assert.AssertKind) (target : BasicBlock) (unwind : Unwind.UnwindAction)
| Yield (value : Op.Operand) (resume : BasicBlock) (resume_arg : Place) (drop : option BasicBlock)
| CoroutineDrop
| FalseEdge (real_target imaginary_target : BasicBlock)
| FalseUnwind (real_target : BasicBlock) (unwind : Unwind.UnwindAction)
| InlineAsm (operands : list Asm.InlineAsmOperand) (targets : list BasicBlock) (unwind : Unwind.UnwindAction).
End Term.

Record Terminator : Type := mk_terminator {
  terminator_span : Span;
  terminator_kind : Term.TerminatorKind
}.

(** ** Bodies *)

Record BasicBlockData : Type := mk_block_data {
  statements : list Statement;
  terminator : Terminator
}.

Inductive VarDebugInfoContents : Type :=
| DebugPlace (place : Place)
| DebugConst.

Record VarDebugInfo : Type := mk_debug_info {
  debug_name : string;
  debug_span : Span;
  debug_value : VarDebugInfoContents
}.

Record Body (Ty : Type) : Type := mk_body {
  basic_blocks : list BasicBlockData;
  local_decls : list Ty;
  var_debug_info : list VarDebugInfo
}.
#[global] Arguments mk_body {_} _ _ _.
#[global] Arguments basic_blocks {_} _.
#[global] Arguments local_decls {_} _.
#[global] Arguments var_debug_info {_} _.

(** [TerminatorKind::successors], with [mk_successors] *)
Definition mk_successors (slice : list BasicBlock) (option1 option2 : option BasicBlock) : list BasicBlock :=
  slice ++ option_list option1 ++ option_list option2.

Definition successors (kind : Term.TerminatorKind) : list BasicBlock :=
  match kind with
  | Term.Drop _ t (Unwind.Cleanup u) (Some d) => mk_successors [t] (Some u) (Some d)
  | Term.Call _ _ _ (Some t) (Unwind.Cleanup u)
  | Term.Yield _ t _ (Some u)
  | Term.Drop _ t (Unwind.Cleanup u) None
  | Term.Drop _ t _ (Some u)
  | Term.Assert _ _ t (Unwind.Cleanup u)
  | Term.FalseUnwind t (Unwind.Cleanup u) => mk_successors [t] (Some u) None
  | Term.Goto t
  | Term.Call _ _ _ None (Unwind.Cleanup t)
  | Term.Call _ _ _ (Some t) _
  | Term.Yield _ t _ None
  | Term.Drop _ t _ _
  | Term.Assert _ _ t _
  | Term.FalseUnwind t _ => mk_successors [t] None None
  | Term.UnwindResume
  | Term.UnwindTerminate
  | Term.CoroutineDrop
  | Term.Return
  | Term.Unreachable
  | Term.TailCall _ _
  | Term.Call _ _ _ None _ => mk_successors [] None None
  | Term.InlineAsm _ targets (Unwind.Cleanup u) => mk_successors targets (Some u) None
  | Term.InlineAsm _ targets _ => mk_successors targets None None
  | Term.SwitchInt _ targets => mk_successors targets None None
  | Term.FalseEdge real_target imaginary_target => mk_successors [real_target] (Some imaginary_target) None
  end.

Section body.
Context {Ty : Type} (body : Body Ty).

Definition block_data (block : BasicBlock) : option BasicBlockData := get_N (basic_blocks body) block.

Definition block_successors (data : BasicBlockData) : list BasicBlock := successors (terminator_kind (terminator data)).

(** The entry of [BasicBlocks::predecessors] for a block: once per edge. *)
Definition predecessors (block : BasicBlock) : list BasicBlock :=
  concat ((fun entry => (fun _ => entry.1) <$> retain (N.eqb block) (block_successors entry.2)) <$> enumerate (basic_blocks body)).

(** [Body::source_info], [None] where it panics *)
Definition source_span (location : Location) : option Span :=
  data ← block_data (location_block location);
  match get_N (statements data) (location_statement_index location) with
  | Some statement => Some (statement_span statement)
  | None =>
      if (location_statement_index location =? len (statements data))%N then Some (terminator_span (terminator data))
      else None
  end.

(** The loop of [Location::is_predecessor_of]; the end of the list is the top of the stack. *)
Fixpoint predecessor_loop (fuel : nat) (target : BasicBlock) (queue visited : list BasicBlock) : option bool :=
  match fuel with
  | O => None
  | S fuel =>
      match last queue with
      | None => Some false
      | Some block =>
          let queue := removelast queue in
          if decide (block ∈ visited) then predecessor_loop fuel target queue visited
          else if (target =? block)%N then Some true
          else predecessor_loop fuel target (queue ++ predecessors block) (block :: visited)
      end
  end.

(** Each edge is pushed at most once, after the edges into the block asked about. *)
Definition predecessor_fuel (block : BasicBlock) : nat :=
  S (length (predecessors block) + length (concat (block_successors <$> basic_blocks body))).

Definition is_predecessor_of (self other : Location) : bool :=
  if (location_block self =? location_block other)%N
     && (location_statement_index self <? location_statement_index other)%N then true
  else
    default false
      (predecessor_loop (predecessor_fuel (location_block other)) (location_block self)
         (predecessors (location_block other)) []).
End body.

(** ** Contexts and traversal *)

Module Ctx.
Inductive NonMutatingUseContext : Type :=
| Inspect
| Copy
| Move
| SharedBorrow
| FakeBorrow
| RawBorrow
| PlaceMention
| Projection.
End Ctx.

Module MutCtx.
Inductive MutatingUseContext : Type :=
| Store
| SetDiscriminant
| AsmOutput
| Call
| Yield
| Drop
| Borrow
| RawBorrow
| Projection
| Retag.
End MutCtx.

Module NonUseCtx.
Inductive NonUseContext : Type :=
| StorageLive
| StorageDead
| AscribeUserTy
| VarDebugInfo
| BackwardIncompatibleDropHint.
End NonUseCtx.

Inductive PlaceContext : Type :=
| NonMutatingUse (context : Ctx.NonMutatingUseContext)
| MutatingUse (context : MutCtx.MutatingUseContext)
| NonUse (context : NonUseCtx.NonUseContext).

Definition is_drop (context : PlaceContext) : bool :=
  match context with MutatingUse MutCtx.Drop => true | _ => false end.

Definition is_use (context : PlaceContext) : bool :=
  match context with NonUse _ => false | _ => true end.

Definition is_place_assignment (context : PlaceContext) : bool :=
  match context with
  | MutatingUse (MutCtx.Store | MutCtx.Call | MutCtx.AsmOutput) => true
  | _ => false
  end.

Section visitor.
Context {S : Type} (visit_place : Place -> PlaceContext -> Location -> S -> S).
Context (visit_operand : Op.Operand -> Location -> S -> S).

Definition super_operand (operand : Op.Operand) (location : Location) (s : S) : S :=
  match operand with
  | Op.Copy place => visit_place place (NonMutatingUse Ctx.Copy) location s
  | Op.Move place => visit_place place (NonMutatingUse Ctx.Move) location s
  | Op.Constant | Op.RuntimeChecks => s
  end.

Definition visit_operands (operands : list Op.Operand) (location : Location) (s : S) : S :=
  foldl (fun s operand => visit_operand operand location s) s operands.

Definition borrow_context (kind : Borrow.BorrowKind) : PlaceContext :=
  match kind with
  | Borrow.Shared => NonMutatingUse Ctx.SharedBorrow
  | Borrow.Fake => NonMutatingUse Ctx.FakeBorrow
  | Borrow.Mut => MutatingUse MutCtx.Borrow
  end.

Definition raw_context (kind : RawPtr.RawPtrKind) : PlaceContext :=
  match kind with
  | RawPtr.Mut => MutatingUse MutCtx.RawBorrow
  | RawPtr.Const => NonMutatingUse Ctx.RawBorrow
  | RawPtr.FakeForPtrMetadata => NonMutatingUse Ctx.Inspect
  end.

Definition reborrow_context (mutability : Mutability) : PlaceContext :=
  match mutability with
  | Not => NonMutatingUse Ctx.SharedBorrow
  | Mut => MutatingUse MutCtx.Borrow
  end.

Definition super_rvalue (rvalue : Rv.Rvalue) (location : Location) (s : S) : S :=
  match rvalue with
  | Rv.Use operand | Rv.Repeat operand | Rv.Cast operand | Rv.UnaryOp operand | Rv.WrapUnsafeBinder operand =>
      visit_operand operand location s
  | Rv.ThreadLocalRef => s
  | Rv.Ref kind place => visit_place place (borrow_context kind) location s
  | Rv.Reborrow mutability place => visit_place place (reborrow_context mutability) location s
  | Rv.CopyForDeref place | Rv.Discriminant place => visit_place place (NonMutatingUse Ctx.Inspect) location s
  | Rv.RawPtr kind place => visit_place place (raw_context kind) location s
  | Rv.BinaryOp lhs rhs => visit_operand rhs location (visit_operand lhs location s)
  | Rv.Aggregate operands => visit_operands operands location s
  end.

Definition super_assign (place : Place) (rvalue : Rv.Rvalue) (location : Location) (s : S) : S :=
  super_rvalue rvalue location (visit_place place (MutatingUse MutCtx.Store) location s).

Definition super_assert_message (msg : Assert.AssertKind) (location : Location) (s : S) : S :=
  match msg with
  | Assert.BoundsCheck len index => visit_operand index location (visit_operand len location s)
  | Assert.Overflow l r => visit_operand r location (visit_operand l location s)
  | Assert.OverflowNeg op | Assert.DivisionByZero op | Assert.RemainderByZero op
  | Assert.InvalidEnumConstruction op => visit_operand op location s
  | Assert.ResumedAfterReturn | Assert.ResumedAfterPanic | Assert.NullPointerDereference
  | Assert.NullReferenceConstructed | Assert.ResumedAfterDrop => s
  | Assert.MisalignedPointerDereference required found =>
      visit_operand found location (visit_operand required location s)
  end.

Definition visit_asm_operand (location : Location) (s : S) (operand : Asm.InlineAsmOperand) : S :=
  match operand with
  | Asm.In value => visit_operand value location s
  | Asm.Out (Some place) => visit_place place (MutatingUse MutCtx.AsmOutput) location s
  | Asm.InOut in_value out_place =>
      let s := visit_operand in_value location s in
      match out_place with
      | Some place => visit_place place (MutatingUse MutCtx.AsmOutput) location s
      | None => s
      end
  | Asm.Out None | Asm.Const | Asm.SymFn | Asm.SymStatic | Asm.Label => s
  end.

Definition super_terminator (terminator : Terminator) (location : Location) (s : S) : S :=
  match terminator_kind terminator with
  | Term.Goto _ | Term.UnwindResume | Term.UnwindTerminate | Term.CoroutineDrop | Term.Unreachable
  | Term.FalseEdge _ _ | Term.FalseUnwind _ _ | Term.Return => s
  | Term.SwitchInt discr _ => visit_operand discr location s
  | Term.Drop place _ _ _ => visit_place place (MutatingUse MutCtx.Drop) location s
  | Term.Call func args destination _ _ =>
      visit_place destination (MutatingUse MutCtx.Call) location
        (visit_operands args location (visit_operand func location s))
  | Term.TailCall func args => visit_operands args location (visit_operand func location s)
  | Term.Assert cond msg _ _ => super_assert_message msg location (visit_operand cond location s)
  | Term.Yield value _ resume_arg _ =>
      visit_place resume_arg (MutatingUse MutCtx.Yield) location (visit_operand value location s)
  | Term.InlineAsm operands _ _ => foldl (visit_asm_operand location) s operands
  end.

Context (visit_assign : Place -> Rv.Rvalue -> Location -> S -> S).
Context (visit_terminator : Terminator -> Location -> S -> S).

Definition super_statement (statement : Statement) (location : Location) (s : S) : S :=
  match statement_kind statement with
  | Stmt.Assign place rvalue => visit_assign place rvalue location s
  | Stmt.FakeRead place => visit_place place (NonMutatingUse Ctx.Inspect) location s
  | Stmt.SetDiscriminant place => visit_place place (MutatingUse MutCtx.SetDiscriminant) location s
  | Stmt.PlaceMention place => visit_place place (NonMutatingUse Ctx.PlaceMention) location s
  | Stmt.AscribeUserType place => visit_place place (NonUse NonUseCtx.AscribeUserTy) location s
  | Stmt.Intrinsic (Assume operand) => visit_operand operand location s
  | Stmt.Intrinsic (CopyNonOverlapping src dst count) =>
      visit_operand count location (visit_operand dst location (visit_operand src location s))
  | Stmt.BackwardIncompatibleDropHint place => visit_place place (NonUse NonUseCtx.BackwardIncompatibleDropHint) location s
  | Stmt.StorageLive _ | Stmt.StorageDead _ | Stmt.Coverage | Stmt.ConstEvalCounter | Stmt.Nop => s
  end.

Definition super_basic_block_data (block : BasicBlock) (data : BasicBlockData) (s : S) : S :=
  let s := foldl (fun s entry => super_statement entry.2 (mk_location block entry.1) s) s (enumerate (statements data)) in
  visit_terminator (terminator data) (mk_location block (len (statements data))) s.

Definition super_var_debug_info (info : VarDebugInfo) (s : S) : S :=
  match debug_value info with
  | DebugPlace place => visit_place place (NonUse NonUseCtx.VarDebugInfo) START s
  | DebugConst => s
  end.

(** [super_body]: the parts of it that lead to places and operands *)
Definition super_body {Ty} (body : Body Ty) (s : S) : S :=
  let s := foldl (fun s info => super_var_debug_info info s) s (var_debug_info body) in
  foldl (fun s entry => super_basic_block_data entry.1 entry.2 s) s (enumerate (basic_blocks body)).
End visitor.
