(* ===== verification/MirSpec.v ===== *)
(** * The control-flow graph and the traversal of bodies

    [Location::is_predecessor_of] decides whether a path of the control-flow graph leads from
    one location to the other; and a visitor that is simulated method by method is simulated
    on whole bodies, which is how properties of the recorder's two visitors are shown. *)

From S2P Require Import Prelude RustStr RustColl CompilerData Mir.
From stdpp Require Import options.

Section graph.
Context {Ty : Type} (body : Body Ty).

Definition edge (a b : BasicBlock) : Prop :=
  exists data, block_data body a = Some data /\ b ∈ block_successors data.

(** Edges as pairs, in the order of the blocks. *)
Definition edges : list (BasicBlock * BasicBlock) :=
  concat ((fun entry => pair entry.1 <$> block_successors entry.2) <$> enumerate (basic_blocks body)).

Definition enters (block : BasicBlock) (e : BasicBlock * BasicBlock) : bool := (block =? e.2)%N.

Lemma block_edges block i ss :
  ((fun _ => i) <$> retain (N.eqb block) ss) = fst <$> retain (enters block) (pair i <$> ss).
Proof using Type.
  unfold retain. induction ss as [|s ss IH]; [done|]. cbn. unfold enters at 1. cbn.
  destruct (block =? s)%N; cbn; [by f_equal|done].
Qed.

Lemma predecessors_edges block : predecessors body block = fst <$> retain (enters block) edges.
Proof using Type.
  unfold predecessors, edges. induction (enumerate (basic_blocks body)) as [|[i data] l IH]; [done|].
  cbn [fmap list_fmap concat]. rewrite retain_app, fmap_app, <- IH. f_equal. apply block_edges.
Qed.

Lemma length_edges : length edges = length (concat (block_successors <$> basic_blocks body)).
Proof using Type.
  unfold edges, enumerate. generalize 0%N. induction (basic_blocks body) as [|data l IH]; intros n; [done|]. cbn.
  rewrite !length_app, length_fmap. f_equal. apply IH.
Qed.

Lemma elem_of_edges a b : (a, b) ∈ edges <-> edge a b.
Proof.
  unfold edges, edge, block_data. rewrite list_elem_of_In, in_concat. split.
  - intros (l & Hl & Hin). apply list_elem_of_In, list_elem_of_fmap in Hl as ([i data] & -> & He).
    apply list_elem_of_In, list_elem_of_fmap in Hin as (s & [= -> ->] & Hs). exists data. split; [|done].
    apply enumerate_lookup in He. by rewrite get_N_spec.
  - intros (data & Hd & Hs). exists (pair a <$> block_successors data). split.
    + apply list_elem_of_In, list_elem_of_fmap. exists (a, data). split; [done|]. rewrite get_N_spec in Hd. apply enumerate_elem in Hd. by rewrite N2Nat.id in Hd.
    + apply list_elem_of_In, list_elem_of_fmap. by exists b.
Qed.

Lemma elem_of_predecessors a b : a ∈ predecessors body b <-> edge a b.
Proof.
  rewrite predecessors_edges, list_elem_of_fmap, <- elem_of_edges. split.
  - intros ([x y] & -> & [He Hin]%elem_of_retain). unfold enters in He. apply N.eqb_eq in He. cbn in *. by subst.
  - intros Hin. exists (a, b). split; [done|]. apply elem_of_retain. split; [|done]. apply N.eqb_refl.
Qed.

(** Edges into blocks not met yet, the most that can still be pushed. *)
Definition unvisited (visited : list BasicBlock) : list (BasicBlock * BasicBlock) :=
  retain (fun e => negb (bool_decide (e.2 ∈ visited))) edges.

Lemma unvisited_visit visited block :
  block ∉ visited ->
  length (unvisited visited) = length (predecessors body block) + length (unvisited (block :: visited)).
Proof using Type.
  intros Hb. rewrite predecessors_edges, length_fmap. unfold unvisited, retain.
  induction edges as [|[a b] l IH]; [done|]. cbn. unfold enters at 1. cbn.
  destruct (N.eqb_spec block b) as [<-|Hne].
  - rewrite bool_decide_false, (bool_decide_true (block ∈ block :: visited)) by (done || by left). cbn. lia.
  - destruct (decide (b ∈ visited)) as [Hv|Hv].
    + rewrite bool_decide_true, (bool_decide_true (b ∈ block :: visited)) by (done || by right). cbn. exact IH.
    + rewrite bool_decide_false, (bool_decide_false (b ∈ block :: visited)) by (done || intros [?|?]%elem_of_cons; congruence).
      cbn. lia.
Qed.

Lemma last_removelast {A} (l : list A) x : last l = Some x -> l = removelast l ++ [x].
Proof using Type.
  intros H. apply last_Some in H as [l' ->]. by rewrite removelast_last.
Qed.

Lemma predecessor_loop_ends fuel target queue visited :
  length queue + length (unvisited visited) < fuel -> is_Some (predecessor_loop body fuel target queue visited).
Proof using Type.
  revert queue visited. induction fuel as [|fuel IH]; intros queue visited Hf; [lia|]. cbn.
  destruct (last queue) as [block|] eqn:Hl; [|by eexists]. apply last_removelast in Hl.
  assert (length queue = S (length (removelast queue))) as Hlen by (rewrite Hl at 1; rewrite length_app; cbn; lia).
  case_decide as Hv; [apply IH; lia|]. destruct (target =? block)%N; [by eexists|]. apply IH.
  rewrite length_app. pose proof (unvisited_visit visited block Hv). lia.
Qed.

Abbreviation leads := (tc edge).

(** What is on the stack leads to the block asked about. *)
Lemma predecessor_loop_sound fuel target other queue visited :
  (forall block, block ∈ queue -> leads block other) ->
  predecessor_loop body fuel target queue visited = Some true -> leads target other.
Proof using Type.
  revert queue visited. induction fuel as [|fuel IH]; intros queue visited Hq; [done|]. cbn.
  destruct (last queue) as [block|] eqn:Hl; [|done]. apply last_removelast in Hl.
  assert (forall b, b ∈ removelast queue -> leads b other) as Hq' by (intros b Hb; apply Hq; rewrite Hl; apply elem_of_app; by left).
  assert (leads block other) as Hblock by (apply Hq; rewrite Hl; apply elem_of_app; right; by left).
  case_decide; [by apply IH|]. destruct (N.eqb_spec target block) as [->|_]; [done|]. apply IH.
  intros b [Hb|Hb]%elem_of_app; [by apply Hq'|]. apply elem_of_predecessors in Hb. by eapply tc_l.
Qed.

(** What leads to a block already taken from the stack is on it or was taken too. *)
Lemma predecessor_loop_complete fuel target other queue visited :
  (forall a, edge a other -> a ∈ visited \/ a ∈ queue) ->
  (forall a b, b ∈ visited -> edge a b -> a ∈ visited \/ a ∈ queue) -> target ∉ visited ->
  predecessor_loop body fuel target queue visited = Some false -> ~ leads target other.
Proof using Type.
  revert queue visited. induction fuel as [|fuel IH]; intros queue visited Hother Hclosed Ht; [done|]. cbn.
  destruct (last queue) as [block|] eqn:Hl.
  - apply last_removelast in Hl.
    assert (forall a, a ∈ queue -> a ∈ removelast queue \/ a = block) as Hq.
    { intros a Ha. rewrite Hl in Ha. apply elem_of_app in Ha as [?|Ha%list_elem_of_singleton]; auto. }
    case_decide as Hv.
    + apply IH; [..|done].
      * intros a Ha. destruct (Hother a Ha) as [?|[?| ->]%Hq]; auto.
      * intros a b Hb Ha. destruct (Hclosed a b Hb Ha) as [?|[?| ->]%Hq]; auto.
    + destruct (N.eqb_spec target block) as [->|Hne]; [done|]. apply IH.
      * intros a Ha. rewrite elem_of_cons, elem_of_app. destruct (Hother a Ha) as [?|[?| ->]%Hq]; auto.
      * intros a b Hb Ha. rewrite elem_of_cons, elem_of_app. apply elem_of_cons in Hb as [->|Hb].
        -- apply elem_of_predecessors in Ha. auto.
        -- destruct (Hclosed a b Hb Ha) as [?|[?| ->]%Hq]; auto.
      * intros [?|?]%elem_of_cons; [done|auto].
  - intros _ Hr. apply last_None in Hl as ->.
    assert (forall a, leads a other -> a ∈ visited) as Hall; [|by apply Ht, Hall].
    intros a Ha. clear Hr. induction Ha as [a b Hab|a b c Hab Hbc IHbc].
    + destruct (Hother a Hab) as [?|Hn%not_elem_of_nil]; done.
    + destruct (Hclosed a b) as [?|Hn%not_elem_of_nil]; try done. by apply IHbc.
Qed.

(** [Location::is_predecessor_of] in terms of paths. *)
Definition precedes (self other : Location) : Prop :=
  (location_block self = location_block other /\ (location_statement_index self < location_statement_index other)%N)
  \/ leads (location_block self) (location_block other).

Lemma search_spec target other :
  default false (predecessor_loop body (predecessor_fuel body other) target (predecessors body other) []) = true <-> leads target other.
Proof using Type.
  assert (length (predecessors body other) + length (unvisited []) < predecessor_fuel body other) as Hf.
  { unfold predecessor_fuel. rewrite <- length_edges. assert (length (unvisited []) <= length edges) by apply List.filter_length_le. lia. }
  destruct (predecessor_loop_ends _ target _ _ Hf) as [[] Hr]; rewrite Hr; cbn.
  - split; [intros _|done]. eapply predecessor_loop_sound; [|exact Hr]. intros a Ha%elem_of_predecessors. by apply tc_once.
  - split; [done|]. intros Hl. exfalso. revert Hl. eapply predecessor_loop_complete; [| | |exact Hr].
    + intros a Ha. right. by apply elem_of_predecessors.
    + intros a b Hb. by apply not_elem_of_nil in Hb.
    + apply not_elem_of_nil.
Qed.

Lemma is_predecessor_spec self other : is_predecessor_of body self other = true <-> precedes self other.
Proof using Type.
  unfold is_predecessor_of, precedes. destruct (N.eqb_spec (location_block self) (location_block other)) as [Hb|Hb];
    [destruct (N.ltb_spec (location_statement_index self) (location_statement_index other)) as [Hs|Hs]|]; cbn [andb]; [tauto| |];
    rewrite search_spec; (split; [auto|]); intros [[? ?]|?]; done || lia.
Qed.
End graph.

(** ** Traversals *)

(** The locations of the statements and terminators of a body. *)
Definition location_in {Ty} (body : Body Ty) (location : Location) : Prop :=
  exists data, block_data body (location_block location) = Some data /\
    (location_statement_index location <= len (statements data))%N.

Lemma location_in_span {Ty} (body : Body Ty) location : location_in body location -> is_Some (source_span body location).
Proof.
  intros (data & Hd & Hi). unfold source_span. rewrite Hd. cbn [mbind option_bind].
  destruct (get_N (statements data) (location_statement_index location)) eqn:Hg; [by eexists|].
  rewrite get_N_spec in Hg. apply lookup_ge_None in Hg. unfold len in *. rewrite (proj2 (N.eqb_eq _ _)) by lia. by eexists.
Qed.

(** Two visitors whose methods keep their states related, at the locations [P], do so on
    whole bodies. *)
Section simulation.
Context {S1 S2 : Type} (P : Location -> Prop) (R : S1 -> S2 -> Prop).
Context (place1 : Place -> PlaceContext -> Location -> S1 -> S1) (place2 : Place -> PlaceContext -> Location -> S2 -> S2).
Context (operand1 : Op.Operand -> Location -> S1 -> S1) (operand2 : Op.Operand -> Location -> S2 -> S2).
Hypothesis place_sim : forall place context location s1 s2,
  P location -> R s1 s2 -> R (place1 place context location s1) (place2 place context location s2).

Lemma super_operand_sim operand location s1 s2 :
  P location -> R s1 s2 -> R (super_operand place1 operand location s1) (super_operand place2 operand location s2).
Proof using place_sim. destruct operand; cbn; auto. Qed.

Hypothesis operand_sim : forall operand location s1 s2,
  P location -> R s1 s2 -> R (operand1 operand location s1) (operand2 operand location s2).

Lemma foldl_sim {A} (f1 : S1 -> A -> S1) (f2 : S2 -> A -> S2) l s1 s2 :
  (forall x s1 s2, x ∈ l -> R s1 s2 -> R (f1 s1 x) (f2 s2 x)) -> R s1 s2 -> R (foldl f1 s1 l) (foldl f2 s2 l).
Proof using Type.
  revert s1 s2. induction l as [|x l IH]; intros s1 s2 Hf Hs; cbn; [done|]. apply IH.
  - intros y t1 t2 Hy. apply Hf. by right.
  - apply Hf; [by left|done].
Qed.

Lemma super_rvalue_sim rvalue location s1 s2 :
  P location -> R s1 s2 -> R (super_rvalue place1 operand1 rvalue location s1) (super_rvalue place2 operand2 rvalue location s2).
Proof using place_sim operand_sim. destruct rvalue; cbn; auto. intros. apply foldl_sim; auto. Qed.

Lemma super_assign_sim place rvalue location s1 s2 :
  P location -> R s1 s2 ->
  R (super_assign place1 operand1 place rvalue location s1) (super_assign place2 operand2 place rvalue location s2).
Proof using place_sim operand_sim. intros. apply super_rvalue_sim; auto. Qed.

Lemma super_terminator_sim terminator location s1 s2 :
  P location -> R s1 s2 ->
  R (super_terminator place1 operand1 terminator location s1) (super_terminator place2 operand2 terminator location s2).
Proof using place_sim operand_sim.
  intros Hl Hs. unfold super_terminator, visit_operands. destruct (terminator_kind terminator); auto.
  - apply place_sim; [done|]. apply foldl_sim; auto.
  - apply foldl_sim; auto.
  - destruct msg; cbn; auto.
  - apply foldl_sim; [|done]. intros [] t1 t2 _ Ht; cbn; auto; case_match; auto.
Qed.

Context (assign1 : Place -> Rv.Rvalue -> Location -> S1 -> S1) (assign2 : Place -> Rv.Rvalue -> Location -> S2 -> S2).
Context (terminator1 : Terminator -> Location -> S1 -> S1) (terminator2 : Terminator -> Location -> S2 -> S2).
Hypothesis assign_sim : forall place rvalue location s1 s2,
  P location -> R s1 s2 -> R (assign1 place rvalue location s1) (assign2 place rvalue location s2).
Hypothesis terminator_sim : forall terminator location s1 s2,
  P location -> R s1 s2 -> R (terminator1 terminator location s1) (terminator2 terminator location s2).

Lemma super_body_sim {Ty} (body : Body Ty) s1 s2 :
  P START -> (forall location, location_in body location -> P location) -> R s1 s2 ->
  R (super_body place1 operand1 assign1 terminator1 body s1) (super_body place2 operand2 assign2 terminator2 body s2).
Proof using place_sim operand_sim assign_sim terminator_sim.
  intros Hstart Hin Hs. unfold super_body. apply foldl_sim.
  - intros [block data] t1 t2 Hb Ht. apply enumerate_lookup in Hb. unfold super_basic_block_data.
    assert (forall index, (index <= len (statements data))%N -> P (mk_location block index)) as HP.
    { intros index Hi. apply Hin. exists data. unfold block_data. by rewrite get_N_spec. }
    apply terminator_sim; [by apply HP|]. apply foldl_sim; [|done].
    intros [index statement] u1 u2 Hi%enumerate_lookup Hu. cbn.
    assert (P (mk_location block index)) by (apply HP; apply lookup_lt_Some in Hi; cbn in Hi; unfold len; lia).
    unfold super_statement. destruct (statement_kind statement); auto. case_match; auto.
  - apply foldl_sim; [|done]. intros info t1 t2 _ Ht. unfold super_var_debug_info. case_match; auto.
Qed.
End simulation.

(** The same for visitors that override [visit_place] only. *)
Definition visit_places {S Ty} (visit_place : Place -> PlaceContext -> Location -> S -> S) (body : Body Ty) (s : S) : S :=
  let visit_operand := super_operand visit_place in
  super_body visit_place visit_operand (super_assign visit_place visit_operand) (super_terminator visit_place visit_operand) body s.

Lemma visit_places_sim {S1 S2 Ty} (P : Location -> Prop) (R : S1 -> S2 -> Prop) place1 place2 (body : Body Ty) s1 s2 :
  (forall place context location s1 s2,
     P location -> R s1 s2 -> R (place1 place context location s1) (place2 place context location s2)) ->
  P START -> (forall location, location_in body location -> P location) -> R s1 s2 ->
  R (visit_places place1 body s1) (visit_places place2 body s2).
Proof.
  intros Hp. pose proof (super_operand_sim P R place1 place2 Hp) as Ho. apply (super_body_sim P R); [done|done| |].
  - intros. by apply (super_assign_sim P R).
  - intros. by apply (super_terminator_sim P R).
Qed.

(** *** Operands and places, enumerated *)

Definition rvalue_operands (rvalue : Rv.Rvalue) : list Op.Operand :=
  match rvalue with
  | Rv.Use operand | Rv.Repeat operand | Rv.Cast operand | Rv.UnaryOp operand | Rv.WrapUnsafeBinder operand => [operand]
  | Rv.BinaryOp lhs rhs => [lhs; rhs]
  | Rv.Aggregate operands => operands
  | Rv.Ref _ _ | Rv.ThreadLocalRef | Rv.RawPtr _ _ | Rv.Discriminant _ | Rv.CopyForDeref _ | Rv.Reborrow _ _ => []
  end.

Definition statement_operands (kind : Stmt.StatementKind) : list Op.Operand :=
  match kind with
  | Stmt.Assign _ rvalue => rvalue_operands rvalue
  | Stmt.Intrinsic (Assume operand) => [operand]
  | Stmt.Intrinsic (CopyNonOverlapping src dst count) => [src; dst; count]
  | _ => []
  end.

Definition assert_operands (msg : Assert.AssertKind) : list Op.Operand :=
  match msg with
  | Assert.BoundsCheck a b | Assert.Overflow a b | Assert.MisalignedPointerDereference a b => [a; b]
  | Assert.OverflowNeg a | Assert.DivisionByZero a | Assert.RemainderByZero a | Assert.InvalidEnumConstruction a => [a]
  | _ => []
  end.

Definition asm_operands (operand : Asm.InlineAsmOperand) : list Op.Operand :=
  match operand with
  | Asm.In value | Asm.InOut value _ => [value]
  | _ => []
  end.

Definition terminator_operands (kind : Term.TerminatorKind) : list Op.Operand :=
  match kind with
  | Term.SwitchInt discr _ => [discr]
  | Term.Call func args _ _ _ | Term.TailCall func args => func :: args
  | Term.Assert cond msg _ _ => cond :: assert_operands msg
  | Term.Yield value _ _ _ => [value]
  | Term.InlineAsm operands _ _ => concat (asm_operands <$> operands)
  | _ => []
  end.

(** Every operand of a body with its location, in the order of the blocks. *)
Definition block_operands (entry : N * BasicBlockData) : list (Op.Operand * Location) :=
  let '(block, data) := entry in
  concat ((fun e => (fun operand => (operand, mk_location block e.1)) <$> statement_operands (statement_kind e.2))
    <$> enumerate (statements data))
  ++ ((fun operand => (operand, mk_location block (len (statements data)))) <$> terminator_operands (terminator_kind (terminator data))).

Definition body_operands {Ty} (body : Body Ty) : list (Op.Operand * Location) :=
  concat (block_operands <$> enumerate (basic_blocks body)).

Lemma foldl_concat {A B} (f : A -> list B) (l : list A) acc : foldl (fun acc x => acc ++ f x) acc l = acc ++ concat (f <$> l).
Proof.
  revert acc. induction l as [|x l IH]; intros acc; cbn; [by rewrite app_nil_r|]. by rewrite IH, <- app_assoc.
Qed.

(** What a visitor lists of a body when each method appends to its list. *)
Lemma super_body_listing {A Ty} (place : Place -> PlaceContext -> Location -> list A -> list A) operand assign visit_terminator
    (of_statement : Stmt.StatementKind -> Location -> list A) (of_terminator : Term.TerminatorKind -> Location -> list A)
    (body : Body Ty) l :
  (forall info l, super_var_debug_info place info l = l) ->
  (forall statement location l,
     super_statement place operand assign statement location l = l ++ of_statement (statement_kind statement) location) ->
  (forall t location l, visit_terminator t location l = l ++ of_terminator (terminator_kind t) location) ->
  super_body place operand assign visit_terminator body l =
  l ++ concat ((fun entry =>
    concat ((fun e => of_statement (statement_kind e.2) (mk_location entry.1 e.1)) <$> enumerate (statements entry.2))
    ++ of_terminator (terminator_kind (terminator entry.2)) (mk_location entry.1 (len (statements entry.2))))
    <$> enumerate (basic_blocks body)).
Proof.
  intros Hi Hs Ht. unfold super_body.
  assert (forall infos, foldl (fun l info => super_var_debug_info place info l) l infos = l) as ->.
  { induction infos as [|info infos IH]; [done|]. cbn. by rewrite Hi. }
  rewrite <- foldl_concat. generalize (enumerate (basic_blocks body)). intros blocks. revert l.
  induction blocks as [|[block data] blocks IH]; intros l; [done|]. cbn [foldl]. rewrite IH. f_equal.
  unfold super_basic_block_data. rewrite Ht, app_assoc. f_equal. rewrite <- foldl_concat. cbn [fst snd].
  generalize (enumerate (statements data)). intros stmts. revert l.
  induction stmts as [|[index statement] stmts IHs]; intros l; [done|]. cbn [foldl]. rewrite IHs. f_equal. apply Hs.
Qed.

(** The traversal that lists operands. *)
Section operands.
Abbreviation Listed := (list (Op.Operand * Location)).

Definition list_operand (operand : Op.Operand) (location : Location) (l : Listed) : Listed := l ++ [(operand, location)].
Definition list_place (place : Place) (context : PlaceContext) (location : Location) (l : Listed) : Listed := l.
Definition at_location (location : Location) (operand : Op.Operand) : Op.Operand * Location := (operand, location).
Definition list_assign (place : Place) (rvalue : Rv.Rvalue) (location : Location) (l : Listed) : Listed :=
  l ++ (at_location location <$> rvalue_operands rvalue).
Definition list_terminator (terminator : Terminator) (location : Location) (l : Listed) : Listed :=
  l ++ (at_location location <$> terminator_operands (terminator_kind terminator)).

Lemma list_operands operands location l :
  foldl (fun l operand => list_operand operand location l) l operands = l ++ (at_location location <$> operands).
Proof.
  revert l. induction operands as [|o operands IH]; intros l; cbn; [by rewrite app_nil_r|].
  rewrite IH. unfold list_operand. by rewrite <- app_assoc.
Qed.

Lemma list_rvalue rvalue location l :
  super_rvalue list_place list_operand rvalue location l = l ++ (at_location location <$> rvalue_operands rvalue).
Proof.
  destruct rvalue; cbn; unfold list_operand, list_place; try by rewrite ?app_nil_r, <- ?app_assoc. apply list_operands.
Qed.

Lemma list_super_terminator terminator location l :
  super_terminator list_place list_operand terminator location l = list_terminator terminator location l.
Proof.
  unfold super_terminator, list_terminator, visit_operands.
  destruct (terminator_kind terminator); cbn; unfold list_place; rewrite ?list_operands; unfold list_operand; rewrite <- ?app_assoc, ?app_nil_r;
    try done.
  - destruct msg; cbn; unfold list_operand; by rewrite <- ?app_assoc, ?app_nil_r.
  - revert l. induction operands as [|o operands IH]; intros l; cbn; [by rewrite app_nil_r|]. rewrite IH, fmap_app, app_assoc. f_equal.
    destruct o as [?|[]|? []| | | |]; cbn; unfold list_operand, list_place; by rewrite ?app_nil_r.
Qed.

Lemma list_statement statement location l :
  super_statement list_place list_operand list_assign statement location l =
  l ++ (at_location location <$> statement_operands (statement_kind statement)).
Proof.
  unfold super_statement. destruct (statement_kind statement); cbn; unfold list_place, list_operand; try by rewrite app_nil_r.
  - done.
  - case_match; cbn; by rewrite <- ?app_assoc.
Qed.

Lemma list_body {Ty} (body : Body Ty) l :
  super_body list_place list_operand list_assign list_terminator body l = l ++ body_operands body.
Proof.
  rewrite (super_body_listing list_place list_operand list_assign list_terminator
    (fun kind location => at_location location <$> statement_operands kind)
    (fun kind location => at_location location <$> terminator_operands kind)).
  - f_equal. unfold body_operands. f_equal. apply list_fmap_ext. by intros i [block data] _.
  - intros info l'. unfold super_var_debug_info. by case_match.
  - apply list_statement.
  - done.
Qed.
End operands.

(** Enumerated parts are at locations of the body. *)
Lemma listed_in {A Ty} (body : Body Ty) (of_statement : Stmt.StatementKind -> list A) (of_terminator : Term.TerminatorKind -> list A)
    block data x location :
  (block, data) ∈ enumerate (basic_blocks body) ->
  (x, location) ∈ concat ((fun e => (fun y => (y, mk_location block e.1)) <$> of_statement (statement_kind e.2)) <$> enumerate (statements data))
    ++ ((fun y => (y, mk_location block (len (statements data)))) <$> of_terminator (terminator_kind (terminator data))) ->
  location_in body location.
Proof.
  intros Hb Hx. exists data. apply enumerate_lookup in Hb. rewrite <- get_N_spec in Hb. unfold block_data.
  apply elem_of_app in Hx as [Hx|Hx].
  - apply list_elem_of_In, in_concat in Hx as (l & Hl & Hx). apply list_elem_of_In, list_elem_of_fmap in Hl as ([i st] & -> & Hi).
    apply list_elem_of_In, list_elem_of_fmap in Hx as (y & [= -> ->] & _). cbn. split; [done|].
    apply enumerate_lookup, lookup_lt_Some in Hi. unfold len. lia.
  - apply list_elem_of_fmap in Hx as (y & [= -> ->] & _). cbn. split; [done|lia].
Qed.

Lemma body_operands_in {Ty} (body : Body Ty) operand location : (operand, location) ∈ body_operands body -> location_in body location.
Proof.
  intros Hx. apply list_elem_of_In, in_concat in Hx as (l & Hl & Hx). apply list_elem_of_In, list_elem_of_fmap in Hl as ([block data] & -> & Hb).
  apply list_elem_of_In in Hx. by apply (listed_in body statement_operands terminator_operands block data operand).
Qed.

(** *** Uses, enumerated *)

Definition operand_place (operand : Op.Operand) : list Place :=
  match operand with
  | Op.Copy place | Op.Move place => [place]
  | Op.Constant | Op.RuntimeChecks => []
  end.

Definition operand_places (operands : list Op.Operand) : list Place := concat (operand_place <$> operands).

Definition rvalue_uses (rvalue : Rv.Rvalue) : list Place :=
  match rvalue with
  | Rv.Ref _ place | Rv.RawPtr _ place | Rv.Discriminant place | Rv.CopyForDeref place | Rv.Reborrow _ place => [place]
  | _ => operand_places (rvalue_operands rvalue)
  end.

(** The places read, borrowed or inspected; what is assigned, dropped or only named is not. *)
Definition statement_uses (kind : Stmt.StatementKind) : list Place :=
  match kind with
  | Stmt.Assign _ rvalue => rvalue_uses rvalue
  | Stmt.FakeRead place | Stmt.SetDiscriminant place | Stmt.PlaceMention place => [place]
  | _ => operand_places (statement_operands kind)
  end.

Definition terminator_uses (kind : Term.TerminatorKind) : list Place :=
  match kind with
  | Term.Yield value _ resume_arg _ => operand_place value ++ [resume_arg]
  | _ => operand_places (terminator_operands kind)
  end.

Definition block_uses (entry : N * BasicBlockData) : list (Place * Location) :=
  let '(block, data) := entry in
  concat ((fun e => (fun place => (place, mk_location block e.1)) <$> statement_uses (statement_kind e.2)) <$> enumerate (statements data))
  ++ ((fun place => (place, mk_location block (len (statements data)))) <$> terminator_uses (terminator_kind (terminator data))).

Definition body_uses {Ty} (body : Body Ty) : list (Place * Location) := concat (block_uses <$> enumerate (basic_blocks body)).

Lemma body_uses_in {Ty} (body : Body Ty) place location : (place, location) ∈ body_uses body -> location_in body location.
Proof.
  intros Hx. apply list_elem_of_In, in_concat in Hx as (l & Hl & Hx). apply list_elem_of_In, list_elem_of_fmap in Hl as ([block data] & -> & Hb).
  apply list_elem_of_In in Hx. by apply (listed_in body statement_uses terminator_uses block data place).
Qed.
