(* ===== verification/OwnershipEvents.v ===== *)
(** * The compiler's ownership recorder

    [rustc_borrowck/src/ownership_events.rs]: for a body that was borrow checked,
    [record_ownership_events] hands the session its control-flow graph, its bindings with
    their memory layers, its loans with the points where they are live and end, and its
    ownership events.  The loans, their regions and the initialisations are those of the
    borrow checker; types are seen through [TyCtxt].  An index out of a table, a panic in the
    compiler, is the error of a [result]. *)

From S2P Require Import Prelude RustStr RustColl CompilerData MemoryGraph RepairPlan Mir.
From stdpp Require Import options.

Definition MAX_EVENTS_PER_BODY : N := 4096.
Definition MAX_LOAN_POINTS_PER_BODY : N := 4096.

(** [as u32] *)
Definition as_u32 (n : N) : N := (n mod 2 ^ 32)%N.

Definition indexed {A} (l : list A) (index : N) : result A :=
  match get_N l index with
  | Some x => Ok x
  | None => Err "index out of bounds"
  end.

(** ** Bindings *)

Record Binding : Type := mk_local_binding {
  local_name : string;
  local_span : Span
}.

Abbreviation Bindings := (list (option Binding)).

Definition declare_binding (bindings : Bindings) (info : VarDebugInfo) : result Bindings :=
  match debug_value info with
  | DebugConst => Ok bindings
  | DebugPlace place =>
      match place_projection place with
      | [] =>
          declared ← indexed bindings (place_local place);
          Ok (if is_some declared then bindings
              else <[N.to_nat (place_local place) := Some (mk_local_binding (debug_name info) (debug_span info))]> bindings)
      | _ => Ok bindings
      end
  end.

Definition body_bindings {Ty} (body : Body Ty) : result Bindings :=
  fold_result declare_binding (replicate (length (local_decls body)) None) (var_debug_info body).

Definition push_projection (result : string) (projection : Proj.ProjectionElem) : string :=
  match projection with
  | Proj.Deref => "*" +:+ result
  | Proj.Field field => result +:+ "." +:+ show field
  | Proj.Index _ => result +:+ "[_]"
  | Proj.ConstantIndex offset _ from_end =>
      if from_end then result +:+ "[-" +:+ show offset +:+ "]" else result +:+ "[" +:+ show offset +:+ "]"
  | Proj.Subslice _ _ _ => result +:+ "[..]"
  | Proj.Downcast (Some name) _ => result +:+ "::" +:+ name
  | Proj.Downcast None variant => result +:+ "::variant" +:+ show variant
  | Proj.OpaqueCast => result +:+ "::<opaque>"
  | Proj.UnwrapUnsafeBinder => result +:+ "::<unsafe-binder>"
  end.

Definition place_name (binding : Binding) (place : Place) : string :=
  foldl push_projection (local_name binding) (place_projection place).

Definition ownership_state (kind : EventKind.BorrowckOwnershipEventKind) : OwnershipState.BorrowckOwnershipState :=
  match kind with
  | EventKind.BorrowActivate | EventKind.BorrowMutable => OwnershipState.MutablyBorrowed
  | EventKind.BorrowShared => OwnershipState.SharedBorrowed
  | EventKind.Clone | EventKind.Copy => OwnershipState.Available
  | EventKind.Drop => OwnershipState.Dropped
  | EventKind.Move => OwnershipState.Moved
  | EventKind.PartialMove => OwnershipState.PartiallyMoved
  | EventKind.BorrowEnd | EventKind.LastUse | EventKind.Reinitialize => OwnershipState.Available
  end.

(** ** Transfers *)

Definition is_empty_projection (place : Place) : bool :=
  match place_projection place with
  | [] => true
  | _ => false
  end.

Definition local_destination (place : Place) (binding : Binding) : BorrowckOwnershipDestination :=
  mk_cdestination
    (if is_empty_projection place then DestinationKind.LocalBinding else DestinationKind.ProjectedPlace)
    (place_name binding place) (Some (place_name binding place)) (Some (local_span binding)).

Definition ownership_destination (bindings : Bindings) (place : Place) : result (option BorrowckOwnershipDestination) :=
  if (place_local place =? RETURN_PLACE)%N then
    Ok (Some (mk_cdestination DestinationKind.ReturnValue "the function return value" (Some "return value") None))
  else
    binding ← indexed bindings (place_local place);
    Ok (option_map (local_destination place) binding).

Record Transfer : Type := mk_transfer {
  transfer_kind : EventKind.BorrowckOwnershipEventKind;
  transfer_source : Place;
  transfer_location : Location;
  transfer_destination : option BorrowckOwnershipDestination;
  transfer_destination_local : option Local
}.

Record TransferCollector : Type := mk_transfers {
  transfers : list Transfer;
  collector_destination : option BorrowckOwnershipDestination;
  collector_destination_local : option Local
}.

(** The last element that passes the test is changed. *)
Fixpoint update_last {A} (p : A -> bool) (f : A -> A) (l : list A) : list A :=
  match l with
  | [] => []
  | x :: l => if existsb p l then x :: update_last p f l else if p x then f x :: l else x :: l
  end.

Definition with_transfers (ts : list Transfer) (c : TransferCollector) : TransferCollector :=
  mk_transfers ts (collector_destination c) (collector_destination_local c).

Definition with_destination (destination : option BorrowckOwnershipDestination) (local : option Local) (c : TransferCollector) :
    TransferCollector :=
  mk_transfers (transfers c) destination local.

Definition transfer_of (operand : Op.Operand) : option (EventKind.BorrowckOwnershipEventKind * Place) :=
  match operand with
  | Op.Move place => Some (if is_empty_projection place then EventKind.Move else EventKind.PartialMove, place)
  | Op.Copy place => Some (EventKind.Copy, place)
  | Op.Constant | Op.RuntimeChecks => None
  end.

Definition collect_operand (operand : Op.Operand) (location : Location) (c : TransferCollector) : TransferCollector :=
  match transfer_of operand with
  | None => c
  | Some (kind, source) =>
      if (len (transfers c) <? MAX_EVENTS_PER_BODY)%N then
        with_transfers
          (transfers c ++ [mk_transfer kind source location (collector_destination c) (collector_destination_local c)]) c
      else c
  end.

(** The visitor's methods work on a collector that may have panicked. *)
Abbreviation Collecting := (result TransferCollector).

Definition visit_transfer_operand (operand : Op.Operand) (location : Location) (c : Collecting) : Collecting :=
  c ← c; Ok (collect_operand operand location c).

Definition ignore_place {S} (place : Place) (context : PlaceContext) (location : Location) (s : S) : S := s.

Definition visit_transfer_assign (bindings : Bindings) (destination : Place) (rvalue : Rv.Rvalue) (location : Location)
    (c : Collecting) : Collecting :=
  before ← c;
  into ← ownership_destination bindings destination;
  after ← super_rvalue ignore_place visit_transfer_operand rvalue location
    (Ok (with_destination into (Some (place_local destination)) before));
  Ok (with_destination (collector_destination before) (collector_destination_local before) after).

Definition into_local (local : Local) (transfer : Transfer) : bool :=
  bool_decide (transfer_destination_local transfer = Some local).

Definition retarget (destination : BorrowckOwnershipDestination) (transfer : Transfer) : Transfer :=
  mk_transfer (transfer_kind transfer) (transfer_source transfer) (transfer_location transfer) (Some destination)
    (transfer_destination_local transfer).

(** What was moved or copied into a temporary that is now an argument goes to the call. *)
Definition retarget_argument (arg : Op.Operand) (destination : BorrowckOwnershipDestination) (ts : list Transfer) : list Transfer :=
  match arg with
  | Op.Move place | Op.Copy place => update_last (into_local (place_local place)) (retarget destination) ts
  | Op.Constant | Op.RuntimeChecks => ts
  end.

Definition call_destination (span : Span) (of_ : string) (index : N) : BorrowckOwnershipDestination :=
  mk_cdestination DestinationKind.FunctionArgument ("argument " +:+ show (index + 1) +:+ of_) None (Some span).

Definition visit_call_argument (span : Span) (location : Location) (c : TransferCollector) (entry : N * Op.Operand) : TransferCollector :=
  let '(index, arg) := entry in
  let destination := call_destination span " of this call" index in
  let c' := with_destination (Some destination) None (with_transfers (retarget_argument arg destination (transfers c)) c) in
  with_destination (collector_destination c) (collector_destination_local c) (collect_operand arg location c').

Definition visit_tail_argument (span : Span) (location : Location) (c : TransferCollector) (entry : N * Op.Operand) : TransferCollector :=
  let '(index, arg) := entry in
  let c' := with_destination (Some (call_destination span " of this tail call" index)) None c in
  with_destination (collector_destination c) (collector_destination_local c) (collect_operand arg location c').

Definition visit_transfer_terminator (terminator : Terminator) (location : Location) (c : Collecting) : Collecting :=
  match terminator_kind terminator with
  | Term.Call func args _ _ _ =>
      c ← c;
      Ok (foldl (visit_call_argument (terminator_span terminator) location) (collect_operand func location c) (enumerate args))
  | Term.TailCall func args =>
      c ← c;
      Ok (foldl (visit_tail_argument (terminator_span terminator) location) (collect_operand func location c) (enumerate args))
  | _ => super_terminator ignore_place visit_transfer_operand terminator location c
  end.

Definition collect_transfers {Ty} (bindings : Bindings) (body : Body Ty) : result (list Transfer) :=
  c ← super_body ignore_place visit_transfer_operand (visit_transfer_assign bindings) visit_transfer_terminator body
    (Ok (mk_transfers [] None None));
  Ok (transfers c).

(** ** Uses *)

Abbreviation Uses := (list (Local * list Location)).

(** [uses.entry(local).or_default()], in order of first insertion *)
Fixpoint add_use (local : Local) (location : Location) (uses : Uses) : Uses :=
  match uses with
  | [] => [(local, [location])]
  | (l, locations) :: uses =>
      if (l =? local)%N then
        (l, if bool_decide (last locations = Some location) then locations else locations ++ [location]) :: uses
      else (l, locations) :: add_use local location uses
  end.

Definition counts_as_use (context : PlaceContext) : bool :=
  is_use context && negb (is_drop context) && negb (is_place_assignment context).

Definition visit_use_place (bindings : Bindings) (place : Place) (context : PlaceContext) (location : Location)
    (uses : result Uses) : result Uses :=
  uses ← uses;
  binding ← indexed bindings (place_local place);
  Ok (if is_some binding && counts_as_use context then add_use (place_local place) location uses else uses).

Definition collect_uses {Ty} (bindings : Bindings) (body : Body Ty) : result Uses :=
  let visit_place := visit_use_place bindings in
  let visit_operand := super_operand visit_place in
  super_body visit_place visit_operand (super_assign visit_place visit_operand) (super_terminator visit_place visit_operand)
    body (Ok []).

(** ** Loans *)

Inductive TwoPhaseActivation : Type :=
| NotTwoPhase
| NotActivated
| ActivatedAt (location : Location).

(** A borrow with the points of its region. *)
Record BorrowData : Type := mk_borrow {
  borrow_kind : Borrow.BorrowKind;
  borrowed_place : Place;
  reserve_location : Location;
  activation_location : TwoPhaseActivation;
  region_locations : list Location
}.

Inductive InitLocation : Type :=
| InitArgument
| InitStatement (location : Location).

(** An initialisation and [move_data.base_local] of its path. *)
Record Init : Type := mk_init {
  init_local : Local;
  init_location : InitLocation
}.

(** The arguments of [push]. *)
Record Candidate : Type := mk_candidate {
  cand_kind : EventKind.BorrowckOwnershipEventKind;
  cand_place : Place;
  cand_location : Location;
  cand_detail : option string;
  cand_loan_id : option N;
  cand_destination : option BorrowckOwnershipDestination
}.

Definition activation_of (borrow : BorrowData) : option Location :=
  match activation_location borrow with
  | ActivatedAt location => Some location
  | NotActivated | NotTwoPhase => None
  end.

Definition location_leb : Location -> Location -> bool := on location_key (lex_leb N.compare N.leb).

Definition live_locations (borrow : BorrowData) : list Location :=
  dedup_by (fun a b => bool_decide (a = b)) (sort_by location_leb (region_locations borrow)).

Section recorder.
Context {Ty : Type} (body : Body Ty) (bindings : Bindings) (body_id : N).

Definition source_info (location : Location) : result Span :=
  match source_span body location with
  | Some span => Ok span
  | None => Err "index out of bounds"
  end.

Definition loan_point (location : Location) : result BorrowckOwnershipLoanPoint :=
  span ← source_info location;
  Ok (mk_cpoint (as_u32 (location_block location)) (as_u32 (location_statement_index location)) span).

Definition is_live (live : list Location) (location : Location) : bool := bool_decide (location ∈ live).

Definition ends_here (live : list Location) (location : Location) : result bool :=
  data ← indexed (basic_blocks body) (location_block location);
  Ok (if (location_statement_index location <? len (statements data))%N then
        negb (is_live live (successor_within_block location))
      else
        match block_successors data with
        | [] => true
        | successor :: successors =>
            negb (is_live live (mk_location successor 0))
            || existsb (fun successor => negb (is_live live (mk_location successor 0))) successors
        end).

(** The locations of the loop at which [ends_here] is set. *)
Fixpoint ending_locations (live locations : list Location) : result (list Location) :=
  match locations with
  | [] => Ok []
  | location :: locations =>
      ends ← ends_here live location;
      rest ← ending_locations live locations;
      Ok (if ends : bool then location :: rest else rest)
  end.

Definition loan_event_kind (kind : Borrow.BorrowKind) : option EventKind.BorrowckOwnershipEventKind :=
  match kind with
  | Borrow.Shared => Some EventKind.BorrowShared
  | Borrow.Mut => Some EventKind.BorrowMutable
  | Borrow.Fake => None
  end.

Definition loan_kind (kind : Borrow.BorrowKind) : LoanKind.BorrowckLoanKind :=
  match kind with
  | Borrow.Shared => LoanKind.Shared
  | _ => LoanKind.Mutable
  end.

Definition borrow_candidates (loan_index : N) (borrow : BorrowData) (kind : EventKind.BorrowckOwnershipEventKind)
    (ends : list Location) : list Candidate :=
  let loan_id := Some (as_u32 loan_index) in
  mk_candidate kind (borrowed_place borrow) (reserve_location borrow) None loan_id None
  :: match activation_of borrow with
     | Some location =>
         [mk_candidate EventKind.BorrowActivate (borrowed_place borrow) location
            (Some "two-phase mutable borrow activates here") loan_id None]
     | None => []
     end
  ++ ((fun location =>
       mk_candidate EventKind.BorrowEnd (borrowed_place borrow) location (Some "non-lexical borrow ends after this use")
         loan_id None) <$> ends).

Definition optional_point (location : option Location) : result (option BorrowckOwnershipLoanPoint) :=
  match location with
  | Some location => point ← loan_point location; Ok (Some point)
  | None => Ok None
  end.

Definition loan_record (loan_index : N) (borrow : BorrowData) (live : list Location)
    (live_points end_points : list BorrowckOwnershipLoanPoint) (binding : Binding) : result BorrowckOwnershipLoan :=
  reserve ← loan_point (reserve_location borrow);
  activation ← optional_point (activation_of borrow);
  Ok (mk_cloan body_id (as_u32 loan_index) (loan_kind (borrow_kind borrow)) (local_span binding) (local_name binding)
    (place_name binding (borrowed_place borrow)) reserve activation live_points end_points
    (MAX_LOAN_POINTS_PER_BODY <? len live)%N).

(** One round of the loop over the borrows: what it pushes and the loan it records. *)
Definition borrow_facts (entry : N * BorrowData) : result (list Candidate * option BorrowckOwnershipLoan) :=
  let '(loan_index, borrow) := entry in
  match loan_event_kind (borrow_kind borrow) with
  | None => Ok ([], None)
  | Some kind =>
      let live := live_locations borrow in
      ends ← ending_locations live live;
      live_points ← mapM loan_point (take_N MAX_LOAN_POINTS_PER_BODY live);
      end_points ← mapM loan_point ends;
      binding ← indexed bindings (place_local (borrowed_place borrow));
      loan ← match binding with
             | Some binding => loan ← loan_record loan_index borrow live live_points end_points binding; Ok (Some loan)
             | None => Ok None
             end;
      Ok (borrow_candidates loan_index borrow kind ends, loan)
  end.

(** ** Events *)

Definition transfer_candidate (transfer : Transfer) : Candidate :=
  mk_candidate (transfer_kind transfer) (transfer_source transfer) (transfer_location transfer) None None
    (transfer_destination transfer).

Definition is_move_kind (kind : EventKind.BorrowckOwnershipEventKind) : bool :=
  match kind with
  | EventKind.Move | EventKind.PartialMove => true
  | _ => false
  end.

(** The value was moved out on some way to the location. *)
Definition moved_before (ts : list Transfer) (local : Local) (location : Location) : bool :=
  existsb (fun transfer =>
    is_move_kind (transfer_kind transfer) && (place_local (transfer_source transfer) =? local)%N
    && is_predecessor_of body (transfer_location transfer) location) ts.

Definition init_candidate (ts : list Transfer) (init : Init) : option Candidate :=
  match init_location init with
  | InitArgument => None
  | InitStatement location =>
      if moved_before ts (init_local init) location then
        Some (mk_candidate EventKind.Reinitialize (place_from (init_local init)) location None None None)
      else None
  end.

Definition drop_candidate (entry : N * BasicBlockData) : option Candidate :=
  let '(block, data) := entry in
  match terminator_kind (terminator data) with
  | Term.Drop place _ _ _ =>
      if is_empty_projection place then
        Some (mk_candidate EventKind.Drop place (mk_location block (len (statements data))) None None None)
      else None
  | _ => None
  end.

(** No other use can follow. *)
Definition is_last_use (locations : list Location) (location : Location) : bool :=
  negb (existsb (fun later => negb (bool_decide (later = location)) && is_predecessor_of body location later) locations).

Definition use_candidates (entry : Local * list Location) : list Candidate :=
  let '(local, locations) := entry in
  (fun location =>
     mk_candidate EventKind.LastUse (place_from local) location (Some "last use on this control-flow path") None None)
  <$> retain (is_last_use locations) locations.

(** The closure [push] *)
Definition push_event (events : list BorrowckOwnershipEvent) (c : Candidate) : result (list BorrowckOwnershipEvent) :=
  binding ← indexed bindings (place_local (cand_place c));
  match binding with
  | None => Ok events
  | Some binding =>
      if (len events <? MAX_EVENTS_PER_BODY)%N then
        span ← source_info (cand_location c);
        Ok (events ++ [mk_cevent body_id (as_u32 (location_block (cand_location c)))
              (as_u32 (location_statement_index (cand_location c))) (cand_kind c) (ownership_state (cand_kind c)) span
              (local_span binding) (local_name binding) (place_name binding (cand_place c)) (cand_loan_id c) (cand_detail c)
              (cand_destination c)])
      else Ok events
  end.

(** All that is pushed, in order. *)
Definition body_candidates (ts : list Transfer) (loans : list Candidate) (inits : list Init) (uses : Uses) : list Candidate :=
  (transfer_candidate <$> ts) ++ loans ++ omap (init_candidate ts) inits
  ++ omap drop_candidate (enumerate (basic_blocks body)) ++ concat (use_candidates <$> uses).
End recorder.

(** ** Memory layers *)

Module TyKind.
Inductive TyKind (Ty : Type) : Type :=
| Ref (pointee : Ty) (mutability : Mutability)
| RawPtr (pointee : Ty) (mutability : Mutability)
| Array
| Tuple
| Str
| Slice
| Dynamic
| Adt (did : N) (types : list Ty)
| Other.
#[global] Arguments Ref {_} _ _.
#[global] Arguments RawPtr {_} _ _.
#[global] Arguments Array {_}.
#[global] Arguments Tuple {_}.
#[global] Arguments Str {_}.
#[global] Arguments Slice {_}.
#[global] Arguments Dynamic {_}.
#[global] Arguments Adt {_} _ _.
#[global] Arguments Other {_}.
End TyKind.

(** What is asked of types and definitions; [layout_of] has the size and the alignment. *)
Record TyCtxt (Ty : Type) : Type := mk_tcx {
  ty_kind : Ty -> TyKind.TyKind Ty;
  ty_to_string : Ty -> string;
  layout_of : Ty -> option (N * N);
  def_path_str : N -> string
}.
#[global] Arguments ty_kind {_} _ _.
#[global] Arguments ty_to_string {_} _ _.
#[global] Arguments layout_of {_} _ _.
#[global] Arguments def_path_str {_} _ _.

Section layers.
Context {Ty : Type} (tcx : TyCtxt Ty).

Definition type_layout (ty : Ty) : option N * option N :=
  match layout_of tcx ty with
  | Some (size, align) => (Some size, Some align)
  | None => (None, None)
  end.

(** A layer named after [named], with the layout of [laid_out] if there is one to give. *)
Definition memory_layer (kind : MemoryKind.BorrowckMemoryKind) (storage : MemoryStorage.BorrowckMemoryStorage) (label : string)
    (named : Ty) (laid_out : option Ty) : BorrowckMemoryLayer :=
  let '(size, align) := match laid_out with Some ty => type_layout ty | None => (None, None) end in
  mk_clayer kind storage label (ty_to_string tcx named) size align.

(** The closure [push] *)
Definition adt_layer (kind : MemoryKind.BorrowckMemoryKind) (storage : MemoryStorage.BorrowckMemoryStorage) (label : string)
    (layer_ty : Ty) (exact_layout : bool) : BorrowckMemoryLayer :=
  memory_layer kind storage label layer_ty (if exact_layout then Some layer_ty else None).

Definition is_unsized (kind : TyKind.TyKind Ty) : bool :=
  match kind with
  | TyKind.Str | TyKind.Slice | TyKind.Dynamic => true
  | _ => false
  end.

Definition ends_with_one_of (suffixes : list string) (path : string) : bool :=
  existsb (fun suffix => ends_with suffix path) suffixes.

(** A handle and what it owns, with the inner type the layers go on with. *)
Definition owner_layers (ty : Ty) (handle : MemoryKind.BorrowckMemoryKind) (handle_label : string)
    (allocation : MemoryKind.BorrowckMemoryKind) (allocation_label : string) (exact : bool) (inner : Ty) : list BorrowckMemoryLayer :=
  [adt_layer handle MemoryStorage.Inline handle_label ty true;
   adt_layer allocation MemoryStorage.Heap allocation_label inner exact].

(** What the arm for the path of a type pushes, and the type it goes on with. *)
Definition adt_layers (ty : Ty) (path : string) (inner : option Ty) : list BorrowckMemoryLayer * option Ty :=
  let with_inner layers := match inner with Some i => (layers i, Some i) | None => ([], None) end in
  let state kind label := with_inner (fun _ => [adt_layer kind MemoryStorage.Inline label ty true]) in
  if ends_with "::boxed::Box" path then
    with_inner (owner_layers ty MemoryKind.BoxHandle "Box handle (unique owner)"
      MemoryKind.BoxAllocation "Box allocation containing the owned value" true)
  else if ends_with "::rc::Rc" path then
    with_inner (owner_layers ty MemoryKind.RcHandle "Rc handle (shared owner)"
      MemoryKind.RcAllocation "Rc allocation containing the value and strong/weak counters" false)
  else if ends_with "::sync::Arc" path then
    with_inner (owner_layers ty MemoryKind.ArcHandle "Arc handle (thread-safe shared owner)"
      MemoryKind.ArcAllocation "Arc allocation containing the value and atomic counters" false)
  else if ends_with "::rc::Weak" path || ends_with "::sync::Weak" path then
    ((with_inner (owner_layers ty MemoryKind.WeakHandle "Weak handle (non-owning shared reference)"
        MemoryKind.WeakAllocation "shared control block (the value may already be dropped)" false)).1, None)
  else if ends_with "::pin::Pin" path then
    with_inner (fun inner =>
      [adt_layer MemoryKind.PinConstraint MemoryStorage.Conceptual "pinning constraint (not a storage location)" inner false])
  else if ends_with "::ptr::non_null::NonNull" path then
    ((with_inner (fun inner =>
        [adt_layer MemoryKind.RawPointer MemoryStorage.Inline "non-null raw pointer (non-owning; unsafe access contract)" inner
           false])).1, None)
  else if ends_with "::cell::Cell" path then state MemoryKind.CellState "interior-mutable inline value (copy in/out)"
  else if ends_with "::cell::RefCell" path then state MemoryKind.RefCellState "runtime borrow flag and interior value"
  else if ends_with "::cell::UnsafeCell" path then state MemoryKind.UnsafeCellState "unsafe interior-mutation boundary"
  else if ends_with_one_of ["::cell::OnceCell"; "::cell::once::OnceCell"; "::sync::once_lock::OnceLock"] path then
    state MemoryKind.OnceState "one-time initialization state and conditional value"
  else if ends_with_one_of ["::sync::poison::mutex::Mutex"; "::sync::Mutex"] path then
    state MemoryKind.MutexState "exclusive lock state and interior value"
  else if ends_with_one_of ["::sync::poison::rwlock::RwLock"; "::sync::RwLock"] path then
    state MemoryKind.RwLockState "reader/writer lock state and interior value"
  else if ends_with_one_of
    ["::sync::poison::mutex::MutexGuard"; "::sync::MutexGuard"; "::sync::poison::rwlock::RwLockReadGuard";
     "::sync::RwLockReadGuard"; "::sync::poison::rwlock::RwLockWriteGuard"; "::sync::RwLockWriteGuard"; "::cell::Ref";
     "::cell::RefMut"] path then
    ([adt_layer MemoryKind.GuardState MemoryStorage.Inline "temporary guard; access ends when this value is dropped" ty true], None)
  else if ends_with "::vec::Vec" path then
    (adt_layer MemoryKind.VecHeader MemoryStorage.Inline "pointer, length, and capacity" ty true
     :: match inner with
        | Some inner => [adt_layer MemoryKind.VecBuffer MemoryStorage.Heap "element buffer (capacity is runtime data)" inner false]
        | None => []
        end, None)
  else if ends_with "::string::String" path then
    ([adt_layer MemoryKind.StringHeader MemoryStorage.Inline "UTF-8 pointer, length, and capacity" ty true;
      adt_layer MemoryKind.StringBuffer MemoryStorage.Heap "UTF-8 byte buffer (capacity is runtime data)" ty false], None)
  else if ends_with_one_of
    ["::collections::vec_deque::VecDeque"; "::collections::binary_heap::BinaryHeap"; "::path::PathBuf"; "::ffi::os_str::OsString";
     "::collections::hash::map::HashMap"; "::collections::hash::set::HashSet"; "::collections::btree::map::BTreeMap";
     "::collections::btree::set::BTreeSet"; "::collections::linked_list::LinkedList"] path then
    ([adt_layer MemoryKind.ContainerHeader MemoryStorage.Inline
        "fixed-size container handle; private fields are not a stable API" ty true;
      adt_layer MemoryKind.ContainerBuffer MemoryStorage.Heap
        "conceptual allocation; runtime length/capacity/node count is unknown" ty false], None)
  else if ends_with_one_of ["::option::Option"; "::result::Result"; "::borrow::Cow"] path then
    ([adt_layer MemoryKind.ConditionalValue MemoryStorage.Inline "conditional variant; active runtime branch is unknown" ty true],
     inner)
  else
    ([adt_layer MemoryKind.AggregateValue MemoryStorage.Inline
        "inline aggregate (field ownership is opaque unless proven)" ty true], None).

(** [remaining] is 12 less the [depth] of the source. *)
Fixpoint push_memory_layers (remaining : nat) (ty : Ty) : list BorrowckMemoryLayer :=
  match remaining with
  | O => []
  | S remaining =>
      match ty_kind tcx ty with
      | TyKind.Ref pointee mutability =>
          memory_layer MemoryKind.ReferenceHandle MemoryStorage.Inline
            (match mutability with Mut => "mutable reference handle" | Not => "shared reference handle" end) ty (Some ty)
          :: (if is_unsized (ty_kind tcx pointee) then
                [memory_layer MemoryKind.FatPointerMetadata MemoryStorage.Inline
                   "fat-pointer metadata (runtime length or vtable)" pointee None]
              else [])
      | TyKind.RawPtr pointee mutability =>
          [memory_layer MemoryKind.RawPointer MemoryStorage.Inline
             (match mutability with
              | Mut => "mutable raw pointer (non-owning; unsafe to dereference)"
              | Not => "const raw pointer (non-owning; unsafe to dereference)"
              end) pointee (Some ty)]
      | TyKind.Array | TyKind.Tuple =>
          [memory_layer MemoryKind.AggregateValue MemoryStorage.Inline "inline aggregate value" ty (Some ty)]
      | TyKind.Adt did types =>
          let '(layers, next) := adt_layers ty (def_path_str tcx did) (head types) in
          layers ++ match next with Some inner => push_memory_layers remaining inner | None => [] end
      | TyKind.Str | TyKind.Slice | TyKind.Dynamic | TyKind.Other =>
          [memory_layer MemoryKind.InlineValue MemoryStorage.Inline "inline value" ty (Some ty)]
      end
  end.

Definition memory_layers (binding_name : string) (ty : Ty) : list BorrowckMemoryLayer :=
  memory_layer MemoryKind.StackBinding MemoryStorage.Stack ("stack binding `" +:+ binding_name +:+ "`") ty (Some ty)
  :: push_memory_layers 12 ty.

(** ** The recorder *)

(** What the queries say of the definition. *)
Record BodyDef : Type := mk_body_def {
  definition_span : Span;
  definition_body_id : N;
  definition_name : string
}.

Definition binding_record (body_id : N) (entry : option Binding * Ty) : option BorrowckOwnershipBinding :=
  let '(binding, ty) := entry in
  match binding with
  | None => None
  | Some binding =>
      let '(size, align) := type_layout ty in
      Some (mk_cbinding body_id (local_span binding) (local_name binding) (ty_to_string tcx ty) size align
        (memory_layers (local_name binding) ty))
  end.

Definition block_record (body : Body Ty) (entry : N * BasicBlockData) : result BorrowckOwnershipBlock :=
  let '(block, data) := entry in
  span ← source_info body (mk_location block 0);
  Ok (mk_cblock (as_u32 block) span (as_u32 <$> block_successors data)).

(** What is recorded of a body, in the order of the calls. *)
Record BodyFacts : Type := mk_facts {
  facts_body : BorrowckOwnershipBody;
  facts_bindings : list BorrowckOwnershipBinding;
  facts_loans : list BorrowckOwnershipLoan;
  facts_events : list BorrowckOwnershipEvent
}.

Definition body_facts (def : BodyDef) (body : Body Ty) (inits : list Init) (borrow_set : list BorrowData) : result BodyFacts :=
  let body_id := definition_body_id def in
  blocks ← mapM (block_record body) (enumerate (basic_blocks body));
  bindings ← body_bindings body;
  ts ← collect_transfers bindings body;
  loans ← mapM (borrow_facts body bindings body_id) (enumerate borrow_set);
  uses ← collect_uses bindings body;
  events ← fold_result (push_event body bindings body_id) []
    (body_candidates body ts (concat (fst <$> loans)) inits uses);
  Ok (mk_facts (mk_cbody body_id (definition_name def) (definition_span def) blocks)
    (omap (binding_record body_id) (zip bindings (local_decls body))) (omap snd loans) events).

Definition record_facts (s : Session) (facts : BodyFacts) (c : BorrowckRepairCollector) : BorrowckRepairCollector :=
  let c := record_borrowck_ownership_body s (facts_body facts) c in
  let c := foldl (fun c binding => record_borrowck_ownership_binding s binding c) c (facts_bindings facts) in
  let c := foldl (fun c loan => record_borrowck_ownership_loan s loan c) c (facts_loans facts) in
  foldl (fun c event => record_borrowck_ownership_event s event c) c (facts_events facts).

Definition record_ownership_events (s : Session) (def : BodyDef) (body : Body Ty) (inits : list Init)
    (borrow_set : list BorrowData) (c : BorrowckRepairCollector) : result BorrowckRepairCollector :=
  if negb (borrowck_ownership_model_enabled s) then Ok c
  else if from_expansion (definition_span def) then Ok c
  else
    facts ← body_facts def body inits borrow_set;
    Ok (record_facts s facts c).
End layers.
