(* ===== verification/OwnershipEventsSpec.v ===== *)
(** * What the compiler records of a body

    The recorder does not panic on well-formed bodies; the moves and copies it records are
    those of the operands, last uses and reinitialisations are those of the control-flow
    graph, the points of a loan are the points of its region and its ends the exits of the
    region; memory layers are bounded. *)

From S2P Require Import Prelude RustStr RustColl CompilerData MemoryGraph MemoryGraphSpec RepairPlan Mir MirSpec OwnershipEvents.
From stdpp Require Import options.

(** ** Transfers *)

Definition transfer_key (transfer : Transfer) : EventKind.BorrowckOwnershipEventKind * Place * Location :=
  (transfer_kind transfer, transfer_source transfer, transfer_location transfer).

Definition operand_key (entry : Op.Operand * Location) : option (EventKind.BorrowckOwnershipEventKind * Place * Location) :=
  (fun kind_place => (kind_place, entry.2)) <$> transfer_of entry.1.

Definition cap : nat := N.to_nat MAX_EVENTS_PER_BODY.

(** The transfers collected so far are those of the operands seen so far. *)
Definition collected (c : Collecting) (seen : list (Op.Operand * Location)) : Prop :=
  match c with
  | Ok c => (transfer_key <$> transfers c) = take cap (omap operand_key seen)
  | Err _ => True
  end.

Lemma collect_operand_keys operand location c seen :
  (transfer_key <$> transfers c) = take cap (omap operand_key seen) ->
  (transfer_key <$> transfers (collect_operand operand location c)) = take cap (omap operand_key (seen ++ [(operand, location)])).
Proof.
  intros Hc. unfold collect_operand. rewrite omap_app. cbn [omap list_omap]. unfold operand_key at 2. cbn [fst snd].
  destruct (transfer_of operand) as [[kind source]|]; cbn; [|by rewrite app_nil_r].
  assert (length (transfers c) = min cap (length (omap operand_key seen))) as Hlen
    by (by rewrite <- (length_fmap transfer_key), Hc, length_take).
  unfold len. change (N.to_nat MAX_EVENTS_PER_BODY) with cap in *. destruct (N.ltb_spec (N.of_nat (length (transfers c))) MAX_EVENTS_PER_BODY).
  - cbn. rewrite fmap_app, Hc. cbn. assert (length (omap operand_key seen) < cap) by (unfold cap in *; lia).
    rewrite !take_ge; [done|rewrite length_app; cbn; lia|lia].
  - rewrite Hc. symmetry. apply take_app_le. unfold cap in *. lia.
Qed.

Lemma update_last_map {A B} (p : A -> bool) (f : A -> A) (g : A -> B) l :
  (forall x, g (f x) = g x) -> g <$> update_last p f l = g <$> l.
Proof.
  intros Hf. induction l as [|x l IH]; [done|]. cbn. destruct (existsb p l); cbn; [by rewrite IH|].
  destruct (p x); cbn; by rewrite ?Hf.
Qed.

Lemma retarget_keys arg destination ts : (transfer_key <$> retarget_argument arg destination ts) = transfer_key <$> ts.
Proof. destruct arg; cbn; [by apply update_last_map..|done|done]. Qed.

Lemma visit_arguments_keys {A} (visit : TransferCollector -> A -> TransferCollector) (operand : A -> Op.Operand) location args c seen :
  (forall c seen arg, (transfer_key <$> transfers c) = take cap (omap operand_key seen) ->
     (transfer_key <$> transfers (visit c arg)) = take cap (omap operand_key (seen ++ [(operand arg, location)]))) ->
  (transfer_key <$> transfers c) = take cap (omap operand_key seen) ->
  (transfer_key <$> transfers (foldl visit c args)) = take cap (omap operand_key (seen ++ (at_location location <$> (operand <$> args)))).
Proof.
  intros Hv. revert c seen. induction args as [|arg args IH]; intros c seen Hc; cbn; [by rewrite app_nil_r|].
  erewrite IH by (by apply Hv). by rewrite <- app_assoc.
Qed.

Lemma enumerate_snd {A} (l : list A) : (snd <$> enumerate l) = l.
Proof. unfold enumerate. generalize 0%N. induction l as [|x l IH]; intros n; cbn; [done|]. by rewrite IH. Qed.

Lemma visit_call_argument_keys span location c seen arg :
  (transfer_key <$> transfers c) = take cap (omap operand_key seen) ->
  (transfer_key <$> transfers (visit_call_argument span location c arg)) = take cap (omap operand_key (seen ++ [(arg.2, location)])).
Proof.
  intros Hc. destruct arg as [index arg]. cbn. apply collect_operand_keys. cbn. by rewrite retarget_keys.
Qed.

Lemma visit_tail_argument_keys span location c seen arg :
  (transfer_key <$> transfers c) = take cap (omap operand_key seen) ->
  (transfer_key <$> transfers (visit_tail_argument span location c arg)) = take cap (omap operand_key (seen ++ [(arg.2, location)])).
Proof. intros Hc. destruct arg as [index arg]. by apply (collect_operand_keys arg). Qed.

Lemma collected_operand operand location c seen :
  collected c seen -> collected (visit_transfer_operand operand location c) (list_operand operand location seen).
Proof. destruct c as [c|]; [|done]. apply collect_operand_keys. Qed.

Lemma collected_rvalue rvalue location c seen :
  collected c seen ->
  collected (super_rvalue ignore_place visit_transfer_operand rvalue location c) (seen ++ (at_location location <$> rvalue_operands rvalue)).
Proof.
  intros Hc. rewrite <- list_rvalue. apply (super_rvalue_sim (fun _ => True)); auto.
  intros. by apply collected_operand.
Qed.

Lemma collected_assign bindings place rvalue location c seen :
  collected c seen -> collected (visit_transfer_assign bindings place rvalue location c) (list_assign place rvalue location seen).
Proof.
  intros Hc. unfold visit_transfer_assign. destruct c as [before|]; [|done]. cbn [mbind result_bind].
  destruct (ownership_destination bindings place) as [into|]; [|done]. cbn [mbind result_bind].
  pose proof (collected_rvalue rvalue location (Ok (with_destination into (Some (place_local place)) before)) seen Hc) as Hr.
  by destruct (super_rvalue _ _ _ _ _) as [after|].
Qed.

Lemma collected_terminator terminator location c seen :
  collected c seen -> collected (visit_transfer_terminator terminator location c) (list_terminator terminator location seen).
Proof.
  intros Hc. unfold visit_transfer_terminator.
  assert (collected (super_terminator ignore_place visit_transfer_operand terminator location c) (list_terminator terminator location seen))
    as Hsuper.
  { rewrite <- list_super_terminator. apply (super_terminator_sim (fun _ => True)); auto. intros. by apply collected_operand. }
  destruct (terminator_kind terminator) eqn:Hk; try done;
    (destruct c as [c|]; [|done]); cbn [mbind result_bind collected]; unfold list_terminator; rewrite Hk; cbn [terminator_operands];
    change (?seen ++ (at_location location <$> func :: args)) with (seen ++ [(func, location)] ++ (at_location location <$> args));
    rewrite app_assoc; (replace (at_location location <$> args) with (at_location location <$> (snd <$> enumerate args)) by (by rewrite enumerate_snd)).
  - apply visit_arguments_keys; [apply visit_call_argument_keys|by apply collect_operand_keys].
  - apply visit_arguments_keys; [apply visit_tail_argument_keys|by apply collect_operand_keys].
Qed.

(** The transfers of a body are those of its first 4096 moving or copying operands. *)
Lemma transfers_of_body {Ty} bindings (body : Body Ty) ts :
  collect_transfers bindings body = Ok ts -> (transfer_key <$> ts) = take cap (omap operand_key (body_operands body)).
Proof.
  unfold collect_transfers. intros H.
  assert (collected (super_body ignore_place visit_transfer_operand (visit_transfer_assign bindings) visit_transfer_terminator body
    (Ok (mk_transfers [] None None))) (body_operands body)) as Hc.
  { rewrite <- (app_nil_l (body_operands body)), <- list_body. apply (super_body_sim (fun _ => True)); auto.
    - intros. by apply collected_operand.
    - intros. by apply collected_assign.
    - intros. by apply collected_terminator.
    - reflexivity. }
  destruct (super_body _ _ _ _ _ _) as [c|]; [|discriminate H]. by injection H as <-.
Qed.

(** ** Uses *)

Section uses.
Abbreviation Listed := (list (Place * Location)).

Definition list_use (place : Place) (context : PlaceContext) (location : Location) (l : Listed) : Listed :=
  if counts_as_use context then l ++ [(place, location)] else l.
Definition used_at (location : Location) (place : Place) : Place * Location := (place, location).
Abbreviation use_operand := (super_operand list_use).

Lemma list_use_operand operand location l : use_operand operand location l = l ++ (used_at location <$> operand_place operand).
Proof. destruct operand; cbn; by rewrite ?app_nil_r. Qed.

Lemma list_use_operands operands location l :
  visit_operands use_operand operands location l = l ++ (used_at location <$> operand_places operands).
Proof.
  unfold visit_operands, operand_places. revert l. induction operands as [|o operands IH]; intros l; cbn; [by rewrite app_nil_r|].
  by rewrite IH, list_use_operand, fmap_app, app_assoc.
Qed.

Ltac list_uses :=
  unfold operand_places; cbn; rewrite ?list_use_operand, ?fmap_app, ?app_nil_r, <- ?app_assoc; try done.

Lemma list_use_rvalue rvalue location l :
  super_rvalue list_use use_operand rvalue location l = l ++ (used_at location <$> rvalue_uses rvalue).
Proof.
  destruct rvalue; cbn [super_rvalue rvalue_uses rvalue_operands]; list_uses.
  - by destruct kind.
  - by destruct kind.
  - apply list_use_operands.
  - by destruct mutability.
Qed.

Lemma list_use_terminator terminator location l :
  super_terminator list_use use_operand terminator location l = l ++ (used_at location <$> terminator_uses (terminator_kind terminator)).
Proof.
  unfold super_terminator. destruct (terminator_kind terminator); cbn [terminator_uses terminator_operands];
    rewrite ?list_use_operands; list_uses.
  - destruct msg; list_uses.
  - revert l. induction operands as [|o operands IH]; intros l; cbn; [by rewrite app_nil_r|].
    rewrite IH, !fmap_app, concat_app, fmap_app, app_assoc.
    f_equal. destruct o as [?|[]|? []| | | |]; list_uses.
Qed.

Lemma list_use_statement statement location l :
  super_statement list_use use_operand (super_assign list_use use_operand) statement location l =
  l ++ (used_at location <$> statement_uses (statement_kind statement)).
Proof.
  unfold super_statement. destruct (statement_kind statement) as [| | | | | | | |[]| | |]; cbn [statement_uses statement_operands]; list_uses.
  unfold super_assign. cbn. apply list_use_rvalue.
Qed.

Lemma list_use_body {Ty} (body : Body Ty) l :
  super_body list_use use_operand (super_assign list_use use_operand) (super_terminator list_use use_operand) body l =
  l ++ body_uses body.
Proof.
  rewrite (super_body_listing list_use use_operand (super_assign list_use use_operand) (super_terminator list_use use_operand)
    (fun kind location => used_at location <$> statement_uses kind) (fun kind location => used_at location <$> terminator_uses kind)).
  - f_equal. unfold body_uses. f_equal. apply list_fmap_ext. by intros i [block data] _.
  - intros info l'. unfold super_var_debug_info. by case_match.
  - apply list_use_statement.
  - intros. apply list_use_terminator.
Qed.
End uses.

Definition is_bound (bindings : Bindings) (local : Local) : bool :=
  match get_N bindings local with
  | Some (Some _) => true
  | _ => false
  end.

Definition group_uses (bindings : Bindings) (l : list (Place * Location)) : Uses :=
  foldl (fun uses e => add_use (place_local e.1) e.2 uses) [] (retain (fun e => is_bound bindings (place_local e.1)) l).

(** The uses collected so far are those of the places seen so far. *)
Definition uses_collected (bindings : Bindings) (u : result Uses) (l : list (Place * Location)) : Prop :=
  match u with
  | Ok uses => uses = group_uses bindings l
  | Err _ => True
  end.

Lemma uses_collected_place bindings place context location u l :
  uses_collected bindings u l -> uses_collected bindings (visit_use_place bindings place context location u) (list_use place context location l).
Proof.
  destruct u as [u|]; [|done]. cbn. intros ->. unfold indexed, list_use.
  destruct (get_N bindings (place_local place)) as [b|] eqn:Hg; [|done]. cbn.
  destruct (counts_as_use context); rewrite ?andb_false_r; [|done]. rewrite andb_true_r.
  assert (is_bound bindings (place_local place) = is_some b) as Hb by (unfold is_bound; rewrite Hg; by destruct b).
  unfold group_uses. rewrite retain_app, foldl_app. cbn. rewrite Hb. by destruct b.
Qed.

Lemma uses_of_body {Ty} bindings (body : Body Ty) uses :
  collect_uses bindings body = Ok uses -> uses = group_uses bindings (body_uses body).
Proof.
  intros H. enough (uses_collected bindings (collect_uses bindings body) (body_uses body)) as Hu by (by rewrite H in Hu).
  rewrite <- (app_nil_l (body_uses body)), <- list_use_body.
  apply (visit_places_sim (fun _ => True) (uses_collected bindings) (visit_use_place bindings) list_use); [|done..].
  intros. by apply uses_collected_place.
Qed.

(** *** Uses by local *)

Definition use_of (uses : Uses) (local : Local) (location : Location) : Prop :=
  exists locations, (local, locations) ∈ uses /\ location ∈ locations.

Lemma add_use_keys local location uses :
  (fst <$> add_use local location uses) = (fst <$> uses) ++ (if decide (local ∈ fst <$> uses) then [] else [local]).
Proof.
  induction uses as [|[l locations] uses IH]; [done|]. cbn. destruct (N.eqb_spec l local) as [->|Hne]; cbn.
  - rewrite decide_True by (by left). by rewrite app_nil_r.
  - rewrite IH. destruct (decide (local ∈ fst <$> uses)).
    + rewrite decide_True by (by right). done.
    + rewrite decide_False; [done|]. intros [?|?]%elem_of_cons; congruence.
Qed.

Lemma use_of_cons l locations uses local location :
  use_of ((l, locations) :: uses) local location <-> (l = local /\ location ∈ locations) \/ use_of uses local location.
Proof.
  unfold use_of. split.
  - intros (ls & [[= -> ->]|Hin]%elem_of_cons & Hl); [by left|right; eauto].
  - intros [[-> Hl]|(ls & Hin & Hl)]; eexists; (split; [|exact Hl]); [by left|by right].
Qed.

Lemma add_use_of local location uses l loc :
  use_of (add_use local location uses) l loc <-> use_of uses l loc \/ (l = local /\ loc = location).
Proof.
  induction uses as [|[k locations] uses IH].
  - cbn. rewrite use_of_cons, list_elem_of_singleton. unfold use_of. split.
    + intros [[-> ->]|(? & Hn%not_elem_of_nil & _)]; [by right|done].
    + intros [(? & Hn%not_elem_of_nil & _)|[-> ->]]; [done|by left].
  - cbn. destruct (N.eqb_spec k local) as [->|Hne]; rewrite !use_of_cons; [|rewrite IH; tauto].
    case_bool_decide as Hlast.
    + split; [tauto|]. intros [?|[-> ->]]; [done|]. left. split; [done|]. apply last_Some in Hlast as [? ->].
      apply elem_of_app. right. by left.
    + rewrite elem_of_app, list_elem_of_singleton. naive_solver.
Qed.

Lemma group_uses_spec bindings l :
  NoDup (fst <$> group_uses bindings l) /\
  forall local location, use_of (group_uses bindings l) local location <->
    is_bound bindings local = true /\ exists place, (place, location) ∈ l /\ place_local place = local.
Proof.
  unfold group_uses. induction l as [|[place location] l IH] using rev_ind.
  - split; [constructor|]. intros. unfold use_of. split.
    + intros (? & Hn%not_elem_of_nil & _). done.
    + intros (_ & ? & Hn%not_elem_of_nil & _). done.
  - rewrite retain_app. cbn [retain List.filter fst]. destruct IH as [Hnd IH]. destruct (is_bound bindings (place_local place)) eqn:Hb.
    + rewrite foldl_app. cbn [foldl fst snd]. set (uses := foldl _ _ _) in *. split.
      * rewrite add_use_keys. apply NoDup_app. split; [done|]. case_decide; (split; [|by repeat constructor; apply not_elem_of_nil]).
        -- intros x _ Hx. by apply not_elem_of_nil in Hx.
        -- intros x Hx Hs. apply list_elem_of_singleton in Hs as ->. done.
      * intros local loc. rewrite add_use_of, IH. setoid_rewrite elem_of_app. setoid_rewrite list_elem_of_singleton. naive_solver.
    + rewrite app_nil_r. split; [done|]. intros local loc. rewrite IH. setoid_rewrite elem_of_app. setoid_rewrite list_elem_of_singleton.
      naive_solver congruence.
Qed.

(** ** Events *)

Lemma take_take_app {A} n (a b : list A) : take n (take n a ++ b) = take n (a ++ b).
Proof. rewrite !take_app, take_take, Nat.min_id, length_take. f_equal. f_equal. lia. Qed.

Lemma fst_unique {A B} (l : list (A * B)) k x y : NoDup (fst <$> l) -> (k, x) ∈ l -> (k, y) ∈ l -> x = y.
Proof.
  induction l as [|[k' z] l IH]; intros Hnd Hx Hy; [by apply not_elem_of_nil in Hx|]. inversion_clear Hnd as [|? ? Hk Hnd'].
  apply elem_of_cons in Hx as [Hx|Hx]; apply elem_of_cons in Hy as [Hy|Hy]; [congruence|..|by apply IH]; exfalso; apply Hk.
  - injection Hx as -> _. by apply (list_elem_of_fmap_2 fst) in Hy.
  - injection Hy as -> _. by apply (list_elem_of_fmap_2 fst) in Hx.
Qed.

Section events.
Context {Ty : Type} (body : Body Ty) (bindings : Bindings) (body_id : N).

Definition binding_of (local : Local) : option Binding := mjoin (get_N bindings local).

(** The event of what is pushed, if it is about a binding. *)
Definition event_of (c : Candidate) : option BorrowckOwnershipEvent :=
  binding ← binding_of (place_local (cand_place c));
  span ← source_span body (cand_location c);
  Some (mk_cevent body_id (as_u32 (location_block (cand_location c))) (as_u32 (location_statement_index (cand_location c)))
    (cand_kind c) (ownership_state (cand_kind c)) span (local_span binding) (local_name binding)
    (place_name binding (cand_place c)) (cand_loan_id c) (cand_detail c) (cand_destination c)).

Lemma push_event_spec events c events' :
  length events <= cap -> push_event body bindings body_id events c = Ok events' ->
  events' = take cap (events ++ option_list (event_of c)).
Proof using Type.
  intros Hlen Hp. unfold push_event in Hp. apply bind_ok in Hp as (b & Hb & Hp). unfold indexed in Hb. unfold event_of, binding_of.
  destruct (get_N bindings (place_local (cand_place c))) as [b'|] eqn:Hg; [|discriminate Hb]. injection Hb as ->. cbn.
  destruct b as [binding|]; cbn; [|injection Hp as <-; rewrite app_nil_r; by rewrite take_ge].
  unfold len in Hp. destruct (N.ltb_spec (N.of_nat (length events)) MAX_EVENTS_PER_BODY) as [Hl|Hl].
  - apply bind_ok in Hp as (span & Hs & [= <-]). unfold source_info in Hs.
    destruct (source_span body (cand_location c)) as [span'|]; [|discriminate Hs]. injection Hs as ->. cbn.
    rewrite take_ge; [done|]. rewrite length_app. cbn. unfold cap. lia.
  - injection Hp as <-. assert (length events = cap) as <- by (unfold cap in *; lia). symmetry. apply take_app_length.
Qed.

Lemma push_events_spec candidates events events' :
  length events <= cap -> fold_result (push_event body bindings body_id) events candidates = Ok events' ->
  events' = take cap (events ++ omap event_of candidates).
Proof using Type.
  revert events. induction candidates as [|c candidates IH]; intros events Hlen Hp.
  - cbn in Hp. injection Hp as <-. cbn. rewrite app_nil_r. by rewrite take_ge.
  - cbn [fold_result] in Hp. apply bind_ok in Hp as (next & Hn & Hp). apply push_event_spec in Hn; [|done].
    apply IH in Hp; [|rewrite Hn, length_take; lia]. rewrite Hp, Hn.
    rewrite take_take_app, <- app_assoc.
    cbn [omap list_omap]. by destruct (event_of c).
Qed.

(** A list of events that is not full has the event of everything pushed. *)
Lemma events_complete candidates events :
  fold_result (push_event body bindings body_id) [] candidates = Ok events -> length events < cap ->
  events = omap event_of candidates.
Proof using Type.
  intros Hp Hl. apply push_events_spec in Hp; [|cbn; lia]. cbn [app] in Hp. rewrite Hp, length_take in Hl. rewrite Hp.
  apply take_ge. lia.
Qed.

(** *** Last uses and reinitialisations *)

Lemma is_last_use_spec locations location :
  is_last_use body locations location = true <->
  forall later, later ∈ locations -> later <> location -> ~ precedes body location later.
Proof using Type.
  unfold is_last_use. rewrite negb_true_iff, <- not_true_iff_false, existsb_exists. split.
  - intros Hn later Hin Hne Hp. apply Hn. exists later. rewrite <- list_elem_of_In, andb_true_iff, is_predecessor_spec.
    rewrite bool_decide_false by done. done.
  - intros Hall (later & Hin & [Hne Hp]%andb_true_iff). apply list_elem_of_In in Hin. apply is_predecessor_spec in Hp.
    apply negb_true_iff, bool_decide_eq_false in Hne. by apply (Hall later).
Qed.

Definition last_use_candidate (local : Local) (location : Location) : Candidate :=
  mk_candidate EventKind.LastUse (place_from local) location (Some "last use on this control-flow path") None None.

(** A use after which no path leads to another use. *)
Definition final_use (local : Local) (location : Location) : Prop :=
  (exists place, (place, location) ∈ body_uses body /\ place_local place = local) /\
  forall place later, (place, later) ∈ body_uses body -> place_local place = local -> later <> location ->
    ~ precedes body location later.

Lemma last_uses_spec local location :
  is_bound bindings local = true ->
  last_use_candidate local location ∈ concat (use_candidates body <$> group_uses bindings (body_uses body)) <-> final_use local location.
Proof using Type.
  intros Hb. destruct (group_uses_spec bindings (body_uses body)) as [Hnd Huse]. set (uses := group_uses _ _) in *.
  assert (forall locations loc, (local, locations) ∈ uses -> loc ∈ locations <-> use_of uses local loc) as Hlocs.
  { intros locations loc Hin. split; [intros Hl; by exists locations|]. intros (locations' & Hin' & Hl).
    by rewrite (fst_unique _ _ _ _ Hnd Hin Hin'). }
  rewrite list_elem_of_In, in_concat. split.
  - intros (cs & Hcs & Hc). apply list_elem_of_In, list_elem_of_fmap in Hcs as ([l locations] & -> & Hin).
    apply list_elem_of_In in Hc. cbn in Hc. apply list_elem_of_fmap in Hc as (loc & [= <- <-] & [Hlast Hloc]%elem_of_retain).
    rewrite is_last_use_spec in Hlast. split.
    + apply (Hlocs _ _ Hin), Huse in Hloc as [_ ?]. done.
    + intros place later Hl Hpl Hne. apply Hlast; [|done]. apply (Hlocs _ _ Hin), Huse. split; [done|]. by exists place.
  - intros [Hu Hfinal]. assert (use_of uses local location) as (locations & Hin & Hloc) by (by apply Huse).
    eexists. split; [apply list_elem_of_In, list_elem_of_fmap_2, Hin|]. apply list_elem_of_In. cbn.
    apply list_elem_of_fmap. exists location. split; [done|]. apply elem_of_retain. split; [|done]. apply is_last_use_spec.
    intros later Hl Hne. apply (Hlocs _ _ Hin), Huse in Hl as [_ (place & Hp & Hpl)]. by apply (Hfinal place).
Qed.
End events.

(** *** Where events come from *)

(** The step of the recorder that pushes events of a kind. *)
Definition stage (kind : EventKind.BorrowckOwnershipEventKind) : N :=
  match kind with
  | EventKind.Copy | EventKind.Move | EventKind.PartialMove => 0
  | EventKind.BorrowShared | EventKind.BorrowMutable | EventKind.BorrowActivate | EventKind.BorrowEnd => 1
  | EventKind.Reinitialize => 2
  | EventKind.Drop => 3
  | EventKind.LastUse => 4
  | EventKind.Clone => 5
  end.

Abbreviation staged n := (Forall (fun c : Candidate => stage (cand_kind c) = n)).

Lemma transfer_key_kind kind (place : Place) (location : Location) (l : list (Op.Operand * Location)) : (kind, place, location) ∈ omap operand_key l -> stage kind = 0%N.
Proof.
  intros (e & _ & He)%list_elem_of_omap. unfold operand_key in He. destruct (transfer_of e.1) as [[k p]|] eqn:Ht; [|done].
  cbn in He. injection He as <- _ _. unfold transfer_of in Ht. destruct e.1; try done; injection Ht as <- _; [done|].
  by destruct (is_empty_projection place0).
Qed.

Lemma transfers_staged {Ty} bindings (body : Body Ty) ts :
  collect_transfers bindings body = Ok ts -> staged 0%N (transfer_candidate <$> ts).
Proof.
  intros Ht%transfers_of_body. apply Forall_fmap, Forall_forall. intros t Hin. cbn.
  apply (list_elem_of_fmap_2 transfer_key) in Hin. rewrite Ht in Hin. apply elem_of_take in Hin as (i & Hi & _).
  apply list_elem_of_lookup_2 in Hi. by apply transfer_key_kind in Hi.
Qed.

Lemma borrow_staged {Ty} (body : Body Ty) bindings body_id entry facts :
  borrow_facts body bindings body_id entry = Ok facts -> staged 1%N facts.1.
Proof.
  destruct entry as [index borrow]. unfold borrow_facts.
  destruct (loan_event_kind (borrow_kind borrow)) as [kind|] eqn:Hk; [|intros [= <-]; constructor].
  intros (ends & _ & (lp & _ & (ep & _ & (b & _ & (loan & _ & [= <-])%bind_ok)%bind_ok)%bind_ok)%bind_ok)%bind_ok.
  cbn. constructor; [destruct (borrow_kind borrow); cbn in Hk; by simplify_eq|].
  apply Forall_app. split; [destruct (activation_of borrow); repeat constructor|]. by apply Forall_fmap, Forall_true.
Qed.

Lemma loans_staged {Ty} (body : Body Ty) bindings body_id entries facts :
  mapM (borrow_facts body bindings body_id) entries = Ok facts -> staged 1%N (concat (fst <$> facts)).
Proof.
  revert facts. induction entries as [|e entries IH]; intros facts H; cbn in H; [injection H as <-; constructor|].
  apply bind_ok in H as (f & Hf & (fs & Hfs & [= <-])%bind_ok). cbn. apply Forall_app. split; [by eapply borrow_staged|by apply IH].
Qed.

Lemma inits_staged {Ty} (body : Body Ty) ts inits : staged 2%N (omap (init_candidate body ts) inits).
Proof.
  apply Forall_forall. intros c (init & _ & Hc)%list_elem_of_omap. unfold init_candidate in Hc.
  destruct (init_location init); [done|]. case_match; by simplify_eq.
Qed.

Lemma drops_staged blocks : staged 3%N (omap drop_candidate blocks).
Proof.
  apply Forall_forall. intros c ([block data] & _ & Hc)%list_elem_of_omap. unfold drop_candidate in Hc.
  destruct (terminator_kind (terminator data)); try done. case_match; by simplify_eq.
Qed.

Lemma uses_staged {Ty} (body : Body Ty) uses : staged 4%N (concat (use_candidates body <$> uses)).
Proof.
  apply Forall_forall. intros c Hc. apply list_elem_of_In, in_concat in Hc as (cs & Hcs & Hc).
  apply list_elem_of_In, list_elem_of_fmap in Hcs as ([l ls] & -> & _). apply list_elem_of_In, list_elem_of_fmap in Hc as (? & -> & _).
  done.
Qed.

Lemma not_staged n l c : staged n l -> stage (cand_kind c) <> n -> c ∈ l -> False.
Proof. rewrite Forall_forall. intros Hall Hne Hin. by apply Hne, Hall. Qed.

Section exact.
Context {Ty : Type} (tcx : TyCtxt Ty) (def : BodyDef) (body : Body Ty) (inits : list Init) (borrow_set : list BorrowData).
Context (bindings : Bindings) (bindings_ok : body_bindings body = Ok bindings).
Context (facts : BodyFacts) (facts_ok : body_facts tcx def body inits borrow_set = Ok facts).
Context (not_full : (len (facts_events facts) < MAX_EVENTS_PER_BODY)%N).
Abbreviation event_for := (event_of body bindings (definition_body_id def)).

Lemma facts_parts : exists ts loans,
  collect_transfers bindings body = Ok ts /\
  mapM (borrow_facts body bindings (definition_body_id def)) (enumerate borrow_set) = Ok loans /\
  facts_loans facts = omap snd loans /\
  facts_events facts = omap event_for
    (body_candidates body ts (concat (fst <$> loans)) inits (group_uses bindings (body_uses body))).
Proof using bindings_ok facts_ok not_full.
  unfold body_facts in facts_ok. apply bind_ok in facts_ok as (blocks & _ & H). apply bind_ok in H as (bs & Hbs & H).
  assert (bs = bindings) as -> by congruence.
  apply bind_ok in H as (ts & Hts & H). apply bind_ok in H as (loans & Hl & H). apply bind_ok in H as (uses & Hu & H).
  apply bind_ok in H as (events & He & H). injection H as H. apply uses_of_body in Hu as ->.
  exists ts, loans. split; [done|]. split; [done|]. rewrite <- H in *. cbn in *. split; [done|].
  eapply events_complete; [exact He|]. unfold len, cap in *. lia.
Qed.

(** An event of a stage comes from what that stage pushed. *)
Lemma event_pushed event : event ∈ facts_events facts -> exists ts loans c,
  collect_transfers bindings body = Ok ts /\
  mapM (borrow_facts body bindings (definition_body_id def)) (enumerate borrow_set) = Ok loans /\
  event_for c = Some event /\ cand_kind c = cevent_kind event /\
  match stage (cevent_kind event) with
  | 0 => c ∈ transfer_candidate <$> ts
  | 1 => c ∈ concat (fst <$> loans)
  | 2 => c ∈ omap (init_candidate body ts) inits
  | 3 => c ∈ omap drop_candidate (enumerate (basic_blocks body))
  | _ => c ∈ concat (use_candidates body <$> group_uses bindings (body_uses body))
  end%N.
Proof using bindings_ok facts_ok not_full.
  intros He. destruct facts_parts as (ts & loans & Hts & Hl & _ & Hev). rewrite Hev in He.
  apply list_elem_of_omap in He as (c & Hc & He).
  assert (cand_kind c = cevent_kind event) as Hk.
  { unfold event_of in He. apply bind_Some in He as (b & _ & (sp & _ & [= <-])%bind_Some). done. }
  exists ts, loans, c. split; [done|]. split; [done|]. split; [done|]. split; [done|]. rewrite <- Hk.
  unfold body_candidates in Hc. rewrite !elem_of_app in Hc.
  pose proof (transfers_staged _ _ _ Hts) as S0. pose proof (loans_staged _ _ _ _ _ Hl) as S1.
  pose proof (inits_staged body ts inits) as S2. pose proof (drops_staged (enumerate (basic_blocks body))) as S3.
  pose proof (uses_staged body (group_uses bindings (body_uses body))) as S4. rewrite Forall_forall in S0, S1, S2, S3, S4.
  destruct Hc as [Hc|[Hc|[Hc|[Hc|Hc]]]]; [rewrite (S0 c Hc)|rewrite (S1 c Hc)|rewrite (S2 c Hc)|rewrite (S3 c Hc)|rewrite (S4 c Hc)]; done.
Qed.

Lemma pushed_event ts loans c event :
  collect_transfers bindings body = Ok ts ->
  mapM (borrow_facts body bindings (definition_body_id def)) (enumerate borrow_set) = Ok loans ->
  event_for c = Some event ->
  c ∈ body_candidates body ts (concat (fst <$> loans)) inits (group_uses bindings (body_uses body)) -> event ∈ facts_events facts.
Proof using bindings_ok facts_ok not_full.
  intros Hts Hl He Hc. destruct facts_parts as (ts' & loans' & Hts' & Hl' & _ & ->).
  assert (ts' = ts) as -> by congruence. assert (loans' = loans) as -> by congruence. apply list_elem_of_omap. by exists c.
Qed.

Lemma last_use_events event :
  cevent_kind event = EventKind.LastUse ->
  event ∈ facts_events facts <->
  exists local location, final_use body local location /\ event_for (last_use_candidate local location) = Some event.
Proof using bindings_ok facts_ok not_full.
  intros Hk. split.
  - intros (ts & loans & c & _ & _ & He & _ & Hc)%event_pushed. rewrite Hk in Hc. cbn in Hc.
    assert (exists local location, c = last_use_candidate local location) as (local & location & ->).
    { apply list_elem_of_In, in_concat in Hc as (cs & Hcs & Hc). apply list_elem_of_In, list_elem_of_fmap in Hcs as ([l ls] & -> & _).
      apply list_elem_of_In, list_elem_of_fmap in Hc as (location & -> & _). by exists l, location. }
    exists local, location. split; [|done]. apply (last_uses_spec body bindings); [|done].
    unfold event_of, binding_of in He. cbn in He. unfold is_bound. by destruct (get_N bindings local) as [[]|].
  - intros (local & location & Hf & He). destruct facts_parts as (ts & loans & Hts & Hl & _ & _).
    eapply pushed_event; [done|done|exact He|]. unfold body_candidates. rewrite !elem_of_app. do 4 right.
    apply last_uses_spec; [|done]. unfold event_of, binding_of in He. cbn in He. unfold is_bound. by destruct (get_N bindings local) as [[]|].
Qed.

Context (few_operands : length (omap operand_key (body_operands body)) <= cap).

Lemma transfer_keys ts key :
  collect_transfers bindings body = Ok ts -> key ∈ transfer_key <$> ts <-> key ∈ omap operand_key (body_operands body).
Proof using few_operands. intros Hts%transfers_of_body. by rewrite Hts, take_ge. Qed.

(** A path leads from a move out of the local to the location. *)
Definition moved_on_the_way (local : Local) (location : Location) : Prop :=
  exists place from, (Op.Move place, from) ∈ body_operands body /\ place_local place = local /\ precedes body from location.

Lemma move_keys kind place location :
  (kind, place, location) ∈ omap operand_key (body_operands body) -> is_move_kind kind = true ->
  (Op.Move place, location) ∈ body_operands body.
Proof using Type.
  intros ([operand loc] & Hin & Hk)%list_elem_of_omap Hm. unfold operand_key in Hk. cbn in Hk.
  destruct operand; cbn in Hk; try discriminate Hk; injection Hk as <- <- <-; [discriminate Hm|done].
Qed.

Lemma moved_before_spec ts local location :
  collect_transfers bindings body = Ok ts -> moved_before body ts local location = true <-> moved_on_the_way local location.
Proof using few_operands.
  intros Hts. unfold moved_before. rewrite existsb_exists. split.
  - intros (t & Hin & [[Hk Hl%N.eqb_eq]%andb_true_iff Hp%is_predecessor_spec]%andb_true_iff).
    exists (transfer_source t), (transfer_location t). split; [|done]. apply (move_keys (transfer_kind t)); [|done].
    apply (transfer_keys ts); [done|]. apply list_elem_of_In in Hin. by apply (list_elem_of_fmap_2 transfer_key) in Hin.
  - intros (place & from & Hin & Hl & Hp).
    assert ((if is_empty_projection place then EventKind.Move else EventKind.PartialMove, place, from) ∈ transfer_key <$> ts) as Ht.
    { apply (transfer_keys ts); [done|]. apply list_elem_of_omap. by exists (Op.Move place, from). }
    apply list_elem_of_fmap in Ht as (t & [= Hk Hs Hloc] & Ht). exists t. split; [by apply list_elem_of_In|].
    rewrite <- Hk, <- Hs, <- Hloc, !andb_true_iff, N.eqb_eq, is_predecessor_spec.
    split; [split; [by destruct (is_empty_projection place)|done]|done].
Qed.

Lemma reinitialize_events event :
  cevent_kind event = EventKind.Reinitialize ->
  event ∈ facts_events facts <->
  exists init location, init ∈ inits /\ init_location init = InitStatement location /\ moved_on_the_way (init_local init) location /\
    event_for (mk_candidate EventKind.Reinitialize (place_from (init_local init)) location None None None) = Some event.
Proof using bindings_ok facts_ok not_full few_operands.
  intros Hk. split.
  - intros (ts & loans & c & Hts & _ & He & _ & Hc)%event_pushed. rewrite Hk in Hc. cbn in Hc.
    apply list_elem_of_omap in Hc as (init & Hin & Hc). unfold init_candidate in Hc.
    destruct (init_location init) as [|location] eqn:Hloc; [done|].
    destruct (moved_before body ts (init_local init) location) eqn:Hm; [|done]. injection Hc as <-.
    exists init, location. split; [done|]. split; [done|]. split; [by eapply moved_before_spec|done].
  - intros (init & location & Hin & Hloc & Hm & He). destruct facts_parts as (ts & loans & Hts & Hl & _ & _).
    eapply pushed_event; [done|done|exact He|]. unfold body_candidates. rewrite !elem_of_app. do 2 right. left.
    apply list_elem_of_omap. exists init. split; [done|]. unfold init_candidate. rewrite Hloc.
    by rewrite (proj2 (moved_before_spec _ _ _ Hts)).
Qed.

Lemma transfer_events :
  (forall event, event ∈ facts_events facts -> stage (cevent_kind event) = 0%N ->
     exists operand location kind place destination,
       (operand, location) ∈ body_operands body /\ transfer_of operand = Some (kind, place) /\
       event_for (mk_candidate kind place location None None destination) = Some event) /\
  (forall operand location kind place, (operand, location) ∈ body_operands body -> transfer_of operand = Some (kind, place) ->
     is_bound bindings (place_local place) = true ->
     exists event destination, event ∈ facts_events facts /\
       event_for (mk_candidate kind place location None None destination) = Some event).
Proof using bindings_ok facts_ok not_full few_operands.
  split.
  - intros event (ts & loans & c & Hts & _ & He & _ & Hc)%event_pushed Hk. rewrite Hk in Hc.
    apply list_elem_of_fmap in Hc as (t & -> & Ht). apply (list_elem_of_fmap_2 transfer_key), (transfer_keys _ _ Hts) in Ht.
    apply list_elem_of_omap in Ht as ([operand location] & Hin & Hkey). unfold operand_key in Hkey. cbn in Hkey.
    destruct (transfer_of operand) as [[kind place]|] eqn:Hto; [|done]. injection Hkey as Hkind Hplace Hloc.
    exists operand, location, kind, place, (transfer_destination t). split; [done|]. split; [done|]. by rewrite Hkind, Hplace, Hloc.
  - intros operand location kind place Hin Hto Hb. destruct facts_parts as (ts & loans & Hts & Hl & _ & _).
    assert ((kind, place, location) ∈ transfer_key <$> ts) as Ht.
    { apply (transfer_keys _ _ Hts), list_elem_of_omap. exists (operand, location). split; [done|]. unfold operand_key. cbn. by rewrite Hto. }
    apply list_elem_of_fmap in Ht as (t & [= -> -> ->] & Ht).
    assert (is_Some (event_for (transfer_candidate t))) as [event He].
    { unfold event_of, binding_of, is_bound in *. cbn. destruct (get_N bindings (place_local (transfer_source t))) as [[]|]; try done. cbn.
      destruct (location_in_span body (transfer_location t)) as [span ->]; [|by eexists]. by eapply body_operands_in. }
    exists event, (transfer_destination t). split; [|done]. eapply pushed_event; [done|done|exact He|].
    unfold body_candidates. rewrite elem_of_app. left. by apply list_elem_of_fmap_2.
Qed.
End exact.

(** ** Loans *)

Lemma location_key_inj a b : location_key a = location_key b -> a = b.
Proof. destruct a, b. unfold location_key. cbn. intros [= -> ->]. done. Qed.

#[local] Instance location_pairs_total : TotalLeb (lex_leb N.compare N.leb).
Proof. apply _. Qed.

Lemma elem_of_live borrow location : location ∈ live_locations borrow <-> location ∈ region_locations borrow.
Proof.
  unfold live_locations, location_leb. pose proof (sort_dedup_keys location_key (lex_leb N.compare N.leb)
    (fun a b => bool_decide (a = b)) ltac:(intros x y; rewrite bool_decide_eq_true; split; [by intros ->|apply location_key_inj])
    (region_locations borrow) (location_key location)) as H.
  rewrite !list_elem_of_fmap in H. split.
  - intros Hl. destruct (proj1 H) as (y & Hy%location_key_inj & Hin); [by exists location|by subst].
  - intros Hl. destruct (proj2 H) as (y & Hy%location_key_inj & Hin); [by exists location|by subst].
Qed.

Lemma live_NoDup borrow : NoDup (live_locations borrow).
Proof.
  apply (NoDup_fmap_1 location_key). apply (dedup_by_NoDup location_key (lex_leb N.compare N.leb)).
  - intros x y. rewrite bool_decide_eq_true. split; [by intros ->|apply location_key_inj].
  - apply (sort_on_sorted location_key (lex_leb N.compare N.leb)).
Qed.

Lemma live_sorted borrow :
  StronglySorted (fun a b => lex_leb N.compare N.leb (location_key a) (location_key b) = true) (live_locations borrow).
Proof.
  eapply StronglySorted_sublist; [apply dedup_by_sublist|apply (sort_on_sorted location_key (lex_leb N.compare N.leb))].
Qed.

Section loans.
Context {Ty : Type} (body : Body Ty).

(** Where execution goes from a location. *)
Definition flows (location next : Location) : Prop :=
  exists data, block_data body (location_block location) = Some data /\
    if (location_statement_index location <? len (statements data))%N then next = successor_within_block location
    else exists successor, successor ∈ block_successors data /\ next = mk_location successor 0%N.

(** Execution can leave the region here: it stops, or a next location is outside. *)
Definition exits (live : list Location) (location : Location) : Prop :=
  (forall next, ~ flows location next) \/ exists next, flows location next /\ next ∉ live.

Lemma is_live_false live location : negb (is_live live location) = true <-> location ∉ live.
Proof using Type. unfold is_live. by rewrite negb_true_iff, bool_decide_eq_false. Qed.

Lemma ends_here_spec live location ends : ends_here body live location = Ok ends -> ends = true <-> exits live location.
Proof using Type.
  unfold ends_here. intros (data & Hd & [= <-])%bind_ok. unfold indexed in Hd.
  destruct (get_N (basic_blocks body) (location_block location)) as [d|] eqn:Hg; [|discriminate Hd]. injection Hd as ->.
  assert (forall next, flows location next <->
    if (location_statement_index location <? len (statements data))%N then next = successor_within_block location
    else exists successor, successor ∈ block_successors data /\ next = mk_location successor 0%N) as Hflows.
  { intros next. unfold flows, block_data. rewrite Hg. split; [by intros (? & [= <-] & ?)|by exists data]. }
  unfold exits. setoid_rewrite Hflows. destruct (location_statement_index location <? len (statements data))%N.
  - rewrite is_live_false. split; [intros Hn; right; by eexists|]. intros [Hn|(? & -> & ?)]; [|done]. by destruct (Hn _ eq_refl).
  - destruct (block_successors data) as [|s ss].
    + split; [intros _; left|done]. intros next (? & Hn%not_elem_of_nil & _). done.
    + match goal with |- _ <-> ?exit =>
        change (existsb (fun successor => negb (is_live live (mk_location successor 0%N))) (s :: ss) = true <-> exit) end.
      rewrite existsb_exists. split.
      * intros (x & Hx & Hl%is_live_false). right. exists (mk_location x 0%N). split; [|done]. exists x. by rewrite list_elem_of_In.
      * intros [Hn|(next & (x & Hx & ->) & Hl)]; [|exists x; rewrite <- list_elem_of_In, is_live_false; done].
        exfalso. apply (Hn (mk_location s 0%N)). exists s. split; [by left|done].
Qed.

Lemma ending_locations_spec live locations ends :
  ending_locations body live locations = Ok ends ->
  ends `sublist_of` locations /\ forall location, location ∈ ends <-> location ∈ locations /\ exits live location.
Proof using Type.
  revert ends. induction locations as [|l locations IH]; intros ends H; cbn in H.
  { injection H as <-. split; [done|]. intros ?. split; [intros Hn; by apply not_elem_of_nil in Hn|intros [Hn _]; by apply not_elem_of_nil in Hn]. }
  apply bind_ok in H as (e & He & (rest & Hr & [= <-])%bind_ok). apply ends_here_spec in He. destruct (IH _ Hr) as [Hs Hin]. destruct e.
  - split; [by apply sublist_skip|]. intros x. rewrite !elem_of_cons, Hin. split; [intros [->|[? ?]]; tauto|tauto].
  - split; [by apply sublist_cons|]. intros x. rewrite elem_of_cons, Hin. split; [tauto|]. intros [[->|?] Hx]; [|done].
    by apply He in Hx.
Qed.
End loans.

(** ** Bodies on which nothing panics *)

(** A check of every place the traversal meets. *)
Definition check_place (locals : N) (place : Place) (context : PlaceContext) (location : Location) (ok : bool) : bool :=
  ok && (place_local place <? locals)%N.

Record well_formed {Ty} (body : Body Ty) (inits : list Init) (borrow_set : list BorrowData) : Prop := {
  wf_places : visit_places (check_place (len (local_decls body))) body true = true;
  wf_debug : Forall (fun info => match debug_value info with
    | DebugPlace place => (place_local place < len (local_decls body))%N
    | DebugConst => True
    end) (var_debug_info body);
  wf_inits : Forall (fun init => (init_local init < len (local_decls body))%N /\
    match init_location init with InitStatement location => location_in body location | InitArgument => True end) inits;
  wf_borrows : Forall (fun borrow => (place_local (borrowed_place borrow) < len (local_decls body))%N /\
    location_in body (reserve_location borrow) /\
    match activation_of borrow with Some location => location_in body location | None => True end /\
    Forall (location_in body) (region_locations borrow)) borrow_set
}.

Lemma indexed_ok {A} (l : list A) i : (i < len l)%N -> exists x, indexed l i = Ok x /\ get_N l i = Some x.
Proof.
  intros Hi. unfold indexed. destruct (get_N l i) as [x|] eqn:Hg; [by exists x|]. exfalso. rewrite get_N_spec in Hg.
  apply lookup_ge_None in Hg. unfold len in Hi. lia.
Qed.

Lemma source_info_ok {Ty} (body : Body Ty) location : location_in body location -> exists span, source_info body location = Ok span.
Proof. intros [span Hs]%location_in_span. exists span. unfold source_info. by rewrite Hs. Qed.

Lemma loan_point_ok {Ty} (body : Body Ty) location : location_in body location -> exists point, loan_point body location = Ok point.
Proof. intros [span Hs]%source_info_ok. unfold loan_point. rewrite Hs. by eexists. Qed.

Lemma mapM_total {A B} (f : A -> result B) l : Forall (fun x => exists y, f x = Ok y) l -> exists l', mapM f l = Ok l'.
Proof.
  induction 1 as [|x l [y Hy] _ [l' IH]]; [by eexists|]. exists (y :: l'). cbn. rewrite Hy. cbn. by rewrite IH.
Qed.

Section total.
Context {Ty : Type} (body : Body Ty) (locals : N).
Abbreviation check := (check_place locals).
Abbreviation check_operand := (super_operand check).

Lemma check_operand_mono operand location ok : check_operand operand location ok = true -> ok = true.
Proof using Type. destruct operand; cbn; unfold check_place; rewrite ?andb_true_iff; tauto. Qed.

Lemma check_operands_mono operands location ok : visit_operands check_operand operands location ok = true -> ok = true.
Proof using Type.
  unfold visit_operands. revert ok. induction operands as [|o operands IH]; intros ok; cbn; [done|].
  intros Hok%IH. by apply check_operand_mono in Hok.
Qed.

Lemma check_rvalue_mono rvalue location ok : super_rvalue check check_operand rvalue location ok = true -> ok = true.
Proof using Type.
  destruct rvalue; cbn [super_rvalue]; eauto using check_operand_mono, check_operands_mono; by intros [? _]%andb_true_iff.
Qed.

(** What lists operands lists only those that were checked. *)
Definition operand_in_range (entry : Op.Operand * Location) : Prop :=
  Forall (fun place => (place_local place < locals)%N) (operand_place entry.1).

Definition listed_if (l : list (Op.Operand * Location)) (ok : bool) : Prop := ok = true -> Forall operand_in_range l.

Lemma listed_place place context location l ok :
  True -> listed_if l ok -> listed_if (list_place place context location l) (check place context location ok).
Proof using Type. intros _ Hl [Hok _]%andb_true_iff. by apply Hl. Qed.

Lemma listed_operand operand location l ok :
  True -> listed_if l ok -> listed_if (list_operand operand location l) (check_operand operand location ok).
Proof using Type.
  intros _ Hl Hok. pose proof (check_operand_mono _ _ _ Hok) as ->. apply Forall_app. split; [by apply Hl|]. constructor; [|done].
  unfold operand_in_range. destruct operand; cbn in Hok |- *; unfold check_place in Hok; repeat constructor; by apply N.ltb_lt.
Qed.

Lemma operands_checked : visit_places check body true = true -> Forall operand_in_range (body_operands body).
Proof using Type.
  rewrite <- (app_nil_l (body_operands body)), <- list_body. revert body.
  enough (forall body, listed_if (super_body list_place list_operand list_assign list_terminator body []) (visit_places check body true))
    as H by exact H.
  intros body'. apply (super_body_sim (fun _ => True) listed_if); auto using listed_place, listed_operand.
  - intros place rvalue location l ok _ Hl. unfold list_assign. rewrite <- list_rvalue. unfold super_assign.
    apply (super_rvalue_sim (fun _ => True) listed_if); auto using listed_place, listed_operand.
    intros [Hok _]%andb_true_iff. by apply Hl.
  - intros terminator location l ok _ Hl. rewrite <- list_super_terminator.
    apply (super_terminator_sim (fun _ => True) listed_if); auto using listed_place, listed_operand.
  - intros _. constructor.
Qed.

(** The collectors go on as long as the check does. *)
Context (bindings : Bindings) (bindings_length : len bindings = locals).

Definition runs_if {S} (c : result S) (ok : bool) : Prop := ok = true -> exists s, c = Ok s.

Lemma runs_operand operand location c ok :
  True -> runs_if c ok -> runs_if (visit_transfer_operand operand location c) (check_operand operand location ok).
Proof using Type.
  intros _ Hc Hok%check_operand_mono. destruct (Hc Hok) as [s ->]. by eexists.
Qed.

Lemma runs_ignored place context location (c : Collecting) ok :
  True -> runs_if c ok -> runs_if (ignore_place place context location c) (check place context location ok).
Proof using Type. intros _ Hc [Hok _]%andb_true_iff. by apply Hc. Qed.

Lemma transfers_total : visit_places check body true = true -> exists ts, collect_transfers bindings body = Ok ts.
Proof using bindings_length.
  intros Hok. unfold collect_transfers. enough (exists c, super_body ignore_place visit_transfer_operand (visit_transfer_assign bindings)
    visit_transfer_terminator body (Ok (mk_transfers [] None None)) = Ok c) as [c ->] by (by eexists).
  revert Hok. apply (super_body_sim (fun _ => True) runs_if); auto using runs_operand, runs_ignored.
  - intros place rvalue location c ok _ Hc Hok. unfold super_assign in Hok. pose proof (check_rvalue_mono _ _ _ Hok) as Hplace.
    apply andb_true_iff in Hplace as [Hc' Hplace%N.ltb_lt]. destruct (Hc Hc') as [before ->]. unfold visit_transfer_assign. cbn [mbind result_bind].
    assert (exists into, ownership_destination bindings place = Ok into) as [into ->].
    { unfold ownership_destination. destruct (place_local place =? RETURN_PLACE)%N; [by eexists|].
      destruct (indexed_ok bindings (place_local place)) as (b & -> & _); [lia|]. by eexists. }
    cbn [mbind result_bind].
    enough (runs_if (super_rvalue ignore_place visit_transfer_operand rvalue location
      (Ok (with_destination into (Some (place_local place)) before))) (super_rvalue check check_operand rvalue location
      (check place (MutatingUse MutCtx.Store) location ok))) as Hr by (destruct (Hr Hok) as [after ->]; by eexists).
    apply (super_rvalue_sim (fun _ => True) runs_if); auto using runs_operand, runs_ignored. intros _. by eexists.
  - intros terminator location c ok _ Hc Hok. unfold visit_transfer_terminator.
    assert (runs_if (super_terminator ignore_place visit_transfer_operand terminator location c)
      (super_terminator check check_operand terminator location ok)) as Hs
      by (apply (super_terminator_sim (fun _ => True) runs_if); auto using runs_operand, runs_ignored).
    specialize (Hs Hok). unfold super_terminator in Hok. destruct (terminator_kind terminator); try exact Hs.
    + apply andb_true_iff in Hok as [Hok _]. apply check_operands_mono, check_operand_mono in Hok.
      destruct (Hc Hok) as [s ->]. by eexists.
    + apply check_operands_mono, check_operand_mono in Hok. destruct (Hc Hok) as [s ->]. by eexists.
  - intros _. by eexists.
Qed.

Lemma uses_total : visit_places check body true = true -> exists uses, collect_uses bindings body = Ok uses.
Proof using bindings_length.
  apply (visit_places_sim (fun _ => True) (runs_if (S:=Uses)) (visit_use_place bindings) check); [|done|done|intros _; by eexists].
  intros place context location u ok _ Hu [Hok Hl%N.ltb_lt]%andb_true_iff. destruct (Hu Hok) as [uses ->].
  unfold visit_use_place. cbn [mbind result_bind]. destruct (indexed_ok bindings (place_local place)) as (b & -> & _); [lia|]. by eexists.
Qed.

(** Places that are dropped were checked too. *)
Definition list_drop (place : Place) (context : PlaceContext) (location : Location) (l : list Place) : list Place :=
  if is_drop context then l ++ [place] else l.

Definition terminator_drops (kind : Term.TerminatorKind) (location : Location) : list Place :=
  match kind with
  | Term.Drop place _ _ _ => [place]
  | _ => []
  end.

Lemma list_drop_operand operand location l : super_operand list_drop operand location l = l.
Proof using Type. by destruct operand. Qed.

Lemma list_drop_operands operands location l : visit_operands (super_operand list_drop) operands location l = l.
Proof using Type.
  unfold visit_operands. revert l. induction operands as [|o operands IH]; intros l; [done|]. cbn. by rewrite list_drop_operand, IH.
Qed.

Lemma list_drop_rvalue rvalue location l : super_rvalue list_drop (super_operand list_drop) rvalue location l = l.
Proof using Type.
  destruct rvalue; cbn [super_rvalue]; rewrite ?list_drop_operand, ?list_drop_operands; try done; by destruct kind || destruct mutability.
Qed.

Lemma list_drop_body :
  visit_places list_drop body [] =
  concat ((fun entry => terminator_drops (terminator_kind (terminator entry.2)) (mk_location entry.1 (len (statements entry.2))))
    <$> enumerate (basic_blocks body)).
Proof using Type.
  unfold visit_places. rewrite (super_body_listing _ _ _ _ (fun _ _ => []) terminator_drops).
  - cbn [app]. f_equal. apply list_fmap_ext. intros i [block data] _. cbn [fst snd].
    induction (enumerate (statements data)) as [|e l IH]; [done|]. exact IH.
  - intros info l. unfold super_var_debug_info. by case_match.
  - intros statement location l. rewrite app_nil_r. unfold super_statement. destruct (statement_kind statement); try done.
    + unfold super_assign. apply list_drop_rvalue.
    + case_match; by rewrite ?list_drop_operand.
  - intros t location l. unfold super_terminator. destruct (terminator_kind t); cbn [terminator_drops];
      rewrite ?list_drop_operands, ?list_drop_operand, ?app_nil_r; try done.
    + destruct msg; cbn [super_assert_message]; by rewrite ?list_drop_operand.
    + revert l. induction operands as [|o operands IH]; intros l; [done|]. cbn [foldl]. rewrite IH.
      destruct o as [?|[]|? []| | | |]; cbn [visit_asm_operand]; by rewrite ?list_drop_operand.
Qed.

Lemma drops_checked c : visit_places check body true = true -> c ∈ omap drop_candidate (enumerate (basic_blocks body)) ->
  (place_local (cand_place c) < locals)%N /\ location_in body (cand_location c).
Proof using Type.
  intros Hok ([block data] & Hb & Hc)%list_elem_of_omap. unfold drop_candidate in Hc.
  destruct (terminator_kind (terminator data)) as [| | | | | |place| | | | | | | |] eqn:Hk; try done.
  destruct (is_empty_projection place); [|done]. injection Hc as <-. cbn. split.
  - assert (Forall (fun p => (place_local p < locals)%N) (visit_places list_drop body [])) as Hall.
    { revert Hok. apply (visit_places_sim (fun _ => True) (fun l (ok : bool) => ok = true -> Forall (fun p => (place_local p < locals)%N) l) list_drop check); [|done|done|constructor].
      intros p context location l ok _ Hl [Hok Hp%N.ltb_lt]%andb_true_iff. unfold list_drop. case_match; [|by apply Hl].
      apply Forall_app. split; [by apply Hl|by repeat constructor]. }
    rewrite Forall_forall in Hall. apply Hall. rewrite list_drop_body. apply list_elem_of_In, in_concat. eexists. split.
    + apply list_elem_of_In, list_elem_of_fmap_2, Hb.
    + cbn. rewrite Hk. by left.
  - exists data. cbn. apply enumerate_lookup in Hb. unfold block_data. rewrite get_N_spec. split; [done|apply N.le_refl].
Qed.
End total.

Lemma declare_total locals infos bindings :
  len bindings = locals ->
  Forall (fun info => match debug_value info with DebugPlace place => (place_local place < locals)%N | DebugConst => True end) infos ->
  exists bindings', fold_result declare_binding bindings infos = Ok bindings' /\ len bindings' = locals.
Proof.
  intros Hlen Hall. revert bindings Hlen. induction Hall as [|info infos Hi Hall IH]; intros bindings Hlen; [by exists bindings|].
  assert (exists next, declare_binding bindings info = Ok next /\ len next = locals) as (next & Hn & Hnext).
  { unfold declare_binding. destruct (debug_value info) as [place|]; [|by eexists]. destruct (place_projection place); [|by eexists].
    destruct (indexed_ok bindings (place_local place)) as (b & -> & _); [lia|]. eexists. split; [reflexivity|].
    destruct (is_some b); [done|]. unfold len in *. by rewrite length_insert. }
  cbn [fold_result]. rewrite Hn. by apply IH.
Qed.

Lemma body_bindings_total {Ty} (body : Body Ty) inits borrow_set :
  well_formed body inits borrow_set -> exists bindings, body_bindings body = Ok bindings /\ len bindings = len (local_decls body).
Proof.
  intros Hwf. apply declare_total; [|apply Hwf]. unfold len. by rewrite length_replicate.
Qed.

Lemma block_records_total {Ty} (body : Body Ty) :
  exists blocks, mapM (block_record body) (enumerate (basic_blocks body)) = Ok blocks.
Proof.
  apply mapM_total, Forall_forall. intros [block data] Hb. apply enumerate_lookup in Hb.
  destruct (source_info_ok body (mk_location block 0%N)) as [span Hs].
  - exists data. unfold block_data. rewrite get_N_spec. split; [done|apply N.le_0_l].
  - cbn. rewrite Hs. by eexists.
Qed.

Lemma ending_total {Ty} (body : Body Ty) live locations :
  Forall (location_in body) locations -> exists ends, ending_locations body live locations = Ok ends /\ Forall (location_in body) ends.
Proof.
  induction 1 as [|l locations Hl _ (ends & He & Hall)]; [by exists []|]. cbn [ending_locations].
  assert (exists e, ends_here body live l = Ok e) as [e ->].
  { destruct Hl as (data & Hd & _). unfold ends_here, indexed. unfold block_data in Hd. rewrite Hd. by eexists. }
  cbn [mbind result_bind]. rewrite He. cbn [mbind result_bind]. eexists. split; [reflexivity|]. destruct e; [by constructor|done].
Qed.

Lemma points_total {Ty} (body : Body Ty) locations :
  Forall (location_in body) locations -> exists points, mapM (loan_point body) locations = Ok points.
Proof. intros Hall. apply mapM_total. eapply Forall_impl; [exact Hall|]. apply loan_point_ok. Qed.

Definition candidate_ok {Ty} (body : Body Ty) (c : Candidate) : Prop :=
  (place_local (cand_place c) < len (local_decls body))%N /\ location_in body (cand_location c).

Lemma borrow_total {Ty} (body : Body Ty) bindings body_id index borrow :
  len bindings = len (local_decls body) ->
  (place_local (borrowed_place borrow) < len (local_decls body))%N ->
  location_in body (reserve_location borrow) ->
  match activation_of borrow with Some location => location_in body location | None => True end ->
  Forall (location_in body) (region_locations borrow) ->
  exists facts, borrow_facts body bindings body_id (index, borrow) = Ok facts /\ Forall (candidate_ok body) facts.1.
Proof.
  intros Hlen Hp Hr Ha Hregion. unfold borrow_facts. destruct (loan_event_kind (borrow_kind borrow)) as [kind|]; [|by eexists].
  assert (Forall (location_in body) (live_locations borrow)) as Hlive.
  { apply Forall_forall. intros l Hl%elem_of_live. rewrite Forall_forall in Hregion. auto. }
  destruct (ending_total body (live_locations borrow) _ Hlive) as (ends & He & Hends).
  cbn zeta. rewrite He. cbn [mbind result_bind]. destruct (points_total body (take_N MAX_LOAN_POINTS_PER_BODY (live_locations borrow))) as [lp ->].
  { rewrite take_N_spec. by apply Forall_take. }
  cbn [mbind result_bind]. destruct (points_total body ends Hends) as [ep ->]. cbn [mbind result_bind].
  destruct (indexed_ok bindings (place_local (borrowed_place borrow))) as (b & -> & _); [lia|]. cbn [mbind result_bind].
  assert (Forall (candidate_ok body) (borrow_candidates index borrow kind ends)) as Hc.
  { constructor; [done|]. apply Forall_app. split; [destruct (activation_of borrow); by repeat constructor|].
    apply Forall_fmap. eapply Forall_impl; [exact Hends|]. by split. }
  destruct b as [binding|]; [|by eexists]. unfold loan_record. destruct (loan_point_ok body _ Hr) as [reserve ->]. cbn [mbind result_bind].
  assert (exists activation, optional_point body (activation_of borrow) = Ok activation) as [activation ->].
  { destruct (activation_of borrow) as [location|]; [|by eexists]. cbn. destruct (loan_point_ok body location Ha) as [point ->]. by eexists. }
  by eexists.
Qed.

Lemma loans_total {Ty} (body : Body Ty) bindings body_id inits borrow_set :
  len bindings = len (local_decls body) -> well_formed body inits borrow_set ->
  exists loans, mapM (borrow_facts body bindings body_id) (enumerate borrow_set) = Ok loans /\
    Forall (candidate_ok body) (concat (fst <$> loans)).
Proof.
  intros Hlen [_ _ _ Hb]. unfold enumerate. generalize 0%N. induction Hb as [|borrow borrows (Hp & Hr & Ha & Hregion) _ IH]; intros n; [by exists []|].
  destruct (borrow_total body bindings body_id n borrow Hlen Hp Hr Ha Hregion) as (facts & Hf & Hc). destruct (IH (N.succ n)) as (loans & Hl & Hcs).
  exists (facts :: loans). cbn [enumerate_from mapM]. rewrite Hf. cbn [mbind result_bind]. rewrite Hl. split; [done|]. cbn. by apply Forall_app.
Qed.

Lemma push_total {Ty} (body : Body Ty) bindings body_id candidates events :
  len bindings = len (local_decls body) -> Forall (candidate_ok body) candidates ->
  exists events', fold_result (push_event body bindings body_id) events candidates = Ok events'.
Proof.
  intros Hlen Hall. revert events. induction Hall as [|c candidates [Hp Hl] _ IH]; intros events; [by eexists|].
  assert (exists next, push_event body bindings body_id events c = Ok next) as [next Hn].
  { unfold push_event. destruct (indexed_ok bindings (place_local (cand_place c))) as (b & -> & _); [lia|]. cbn [mbind result_bind].
    destruct b as [binding|]; [|by eexists]. destruct (len events <? MAX_EVENTS_PER_BODY)%N; [|by eexists].
    destruct (source_info_ok body _ Hl) as [span ->]. by eexists. }
  cbn [fold_result]. rewrite Hn. apply IH.
Qed.

Lemma candidates_ok {Ty} (body : Body Ty) bindings inits borrow_set ts loans :
  len bindings = len (local_decls body) -> well_formed body inits borrow_set -> collect_transfers bindings body = Ok ts ->
  Forall (candidate_ok body) loans ->
  Forall (candidate_ok body) (body_candidates body ts loans inits (group_uses bindings (body_uses body))).
Proof.
  intros Hlen Hwf Hts Hloans. unfold body_candidates. rewrite !Forall_app. split; [|split; [done|split; [|split]]].
  - apply Forall_fmap, Forall_forall. intros t Ht. apply (list_elem_of_fmap_2 transfer_key) in Ht.
    rewrite (transfers_of_body _ _ _ Hts) in Ht. apply elem_of_take in Ht as (i & Hi & _). apply list_elem_of_lookup_2 in Hi.
    apply list_elem_of_omap in Hi as ([operand location] & Hin & Hkey). unfold operand_key in Hkey. cbn in Hkey.
    pose proof (operands_checked body (len (local_decls body)) (wf_places _ _ _ Hwf)) as Hops. rewrite Forall_forall in Hops.
    specialize (Hops _ Hin). apply body_operands_in in Hin. unfold candidate_ok. cbn.
    destruct operand; cbn in Hkey; try discriminate Hkey; injection Hkey as _ <- <-; inversion_clear Hops; done.
  - apply Forall_forall. intros c (init & Hin & Hc)%list_elem_of_omap. destruct Hwf as [_ _ Hinits _]. rewrite Forall_forall in Hinits.
    destruct (Hinits init Hin) as [Hl Hloc]. unfold init_candidate in Hc. destruct (init_location init); [done|].
    case_match; by simplify_eq.
  - apply Forall_forall. intros c Hc. by apply (drops_checked body (len (local_decls body))); [apply Hwf|].
  - apply Forall_forall. intros c Hc. apply list_elem_of_In, in_concat in Hc as (cs & Hcs & Hc).
    apply list_elem_of_In, list_elem_of_fmap in Hcs as ([local ls] & -> & Hin). apply list_elem_of_In, list_elem_of_fmap in Hc as (location & -> & [_ Hl]%elem_of_retain).
    destruct (group_uses_spec bindings (body_uses body)) as [_ Huse].
    destruct (proj1 (Huse local location)) as [Hb (place & Hp & _)]; [by exists ls|]. apply body_uses_in in Hp. split; [|done].
    cbn. unfold is_bound in Hb. destruct (get_N bindings local) as [[]|] eqn:Hg; try done.
    rewrite get_N_spec in Hg. apply lookup_lt_Some in Hg. unfold len in *. lia.
Qed.

(** ** What is recorded *)

Lemma facts_total {Ty} (tcx : TyCtxt Ty) def (body : Body Ty) inits borrow_set :
  well_formed body inits borrow_set ->
  exists bindings facts, body_bindings body = Ok bindings /\ body_facts tcx def body inits borrow_set = Ok facts.
Proof.
  intros Hwf. destruct (body_bindings_total body inits borrow_set Hwf) as (bindings & Hb & Hlen). exists bindings.
  destruct (block_records_total body) as [blocks Hblocks].
  destruct (transfers_total body _ bindings Hlen (wf_places _ _ _ Hwf)) as [ts Hts].
  destruct (loans_total body bindings (definition_body_id def) inits borrow_set Hlen Hwf) as (loans & Hl & Hc).
  destruct (uses_total body _ bindings Hlen (wf_places _ _ _ Hwf)) as [uses Hu].
  destruct (push_total body bindings (definition_body_id def) (body_candidates body ts (concat (fst <$> loans)) inits uses) [] Hlen) as [events He].
  { rewrite (uses_of_body _ _ _ Hu). by eapply candidates_ok. }
  eexists. split; [done|]. unfold body_facts. rewrite Hblocks. cbn [mbind result_bind]. rewrite Hb. cbn [mbind result_bind].
  rewrite Hts. cbn [mbind result_bind]. rewrite Hl. cbn [mbind result_bind]. rewrite Hu. cbn [mbind result_bind]. rewrite He. reflexivity.
Qed.

Lemma events_bounded {Ty} (tcx : TyCtxt Ty) def (body : Body Ty) inits borrow_set facts :
  body_facts tcx def body inits borrow_set = Ok facts -> (len (facts_events facts) <= MAX_EVENTS_PER_BODY)%N.
Proof.
  unfold body_facts. intros H. apply bind_ok in H as (blocks & _ & H). apply bind_ok in H as (bindings & _ & H).
  apply bind_ok in H as (ts & _ & H). apply bind_ok in H as (loans & _ & H). apply bind_ok in H as (uses & _ & H).
  apply bind_ok in H as (events & He & [= <-]). cbn. apply push_events_spec in He; [|cbn; lia].
  rewrite He. unfold len. rewrite length_take. unfold cap. lia.
Qed.

(** C10: On a body whose places, loans and initialisations are within its tables the recorder
    does not panic.  It records at most 4096 events; and as long as there are fewer, and at most
    4096 operands move or copy, they are exact: moves and copies are those of the operands of the
    body, a binding is reinitialised where the borrow checker saw an initialisation a path leads
    to from a move out of it, and a last use is a use from which no path of the control-flow
    graph leads to another use. *)
Theorem flow_events_exact {Ty} (tcx : TyCtxt Ty) def (body : Body Ty) inits borrow_set :
  well_formed body inits borrow_set ->
  exists bindings facts, body_bindings body = Ok bindings /\ body_facts tcx def body inits borrow_set = Ok facts /\
    (len (facts_events facts) <= MAX_EVENTS_PER_BODY)%N /\
    ((len (facts_events facts) < MAX_EVENTS_PER_BODY)%N -> length (omap operand_key (body_operands body)) <= cap ->
     let event_for := event_of body bindings (definition_body_id def) in
     (forall operand location kind place, (operand, location) ∈ body_operands body -> transfer_of operand = Some (kind, place) ->
        is_bound bindings (place_local place) = true ->
        exists event destination, event ∈ facts_events facts /\
          event_for (mk_candidate kind place location None None destination) = Some event) /\
     (forall event, event ∈ facts_events facts -> stage (cevent_kind event) = 0%N ->
        exists operand location kind place destination,
          (operand, location) ∈ body_operands body /\ transfer_of operand = Some (kind, place) /\
          event_for (mk_candidate kind place location None None destination) = Some event) /\
     (forall event, cevent_kind event = EventKind.Reinitialize ->
        event ∈ facts_events facts <->
        exists init location, init ∈ inits /\ init_location init = InitStatement location /\
          moved_on_the_way body (init_local init) location /\
          event_for (mk_candidate EventKind.Reinitialize (place_from (init_local init)) location None None None) = Some event) /\
     (forall event, cevent_kind event = EventKind.LastUse ->
        event ∈ facts_events facts <->
        exists local location, final_use body local location /\ event_for (last_use_candidate local location) = Some event)).
Proof.
  intros Hwf. destruct (facts_total tcx def body inits borrow_set Hwf) as (bindings & facts & Hb & Hf).
  exists bindings, facts. split; [done|]. split; [done|]. split.
  - by eapply events_bounded.
  - intros Hl Hfew. cbv zeta. destruct (transfer_events tcx def body inits borrow_set bindings Hb facts Hf Hl Hfew) as [H1 H2].
    split; [done|]. split; [done|]. split.
    + intros event. by eapply (reinitialize_events tcx def body inits borrow_set bindings Hb facts Hf Hl Hfew).
    + intros event. by eapply (last_use_events tcx def body inits borrow_set bindings Hb facts Hf Hl).
Qed.

(** *** A body *)

Definition at_ (n : N) : Span := mk_span n (n + 1) false.
Definition assign_ (n : N) (local : Local) (rvalue : Rv.Rvalue) : Statement := mk_statement (at_ n) (Stmt.Assign (place_from local) rvalue).
Definition const_ : Rv.Rvalue := Rv.Use Op.Constant.
Definition debug_ (name : string) (local : Local) : VarDebugInfo := mk_debug_info name (at_ local) (DebugPlace (place_from local)).

(** [x = ..; y = x; x = ..; loop { f(&x) }] *)
Definition sample_body : Body N :=
  mk_body
    [mk_block_data
       [assign_ 10 1 const_; assign_ 11 2 (Rv.Use (Op.Move (place_from 1))); assign_ 12 1 const_]
       (mk_terminator (at_ 13) (Term.Goto 1));
     mk_block_data
       [assign_ 14 3 (Rv.Ref Borrow.Shared (place_from 1))]
       (mk_terminator (at_ 15) (Term.Call Op.Constant [Op.Move (place_from 3)] (place_from 4) (Some 1%N) Unwind.Continue))]
    [0; 1; 2; 3; 4]%N [debug_ "x" 1; debug_ "y" 2].

Definition sample_inits : list Init :=
  [mk_init 1%N (InitStatement (mk_location 0%N 0)); mk_init 2%N (InitStatement (mk_location 0%N 1));
   mk_init 1%N (InitStatement (mk_location 0%N 2))].

Definition sample_borrows : list BorrowData :=
  [mk_borrow Borrow.Shared (place_from 1) (mk_location 1%N 0) NotTwoPhase [mk_location 1%N 1]].

Definition sample_tcx : TyCtxt N := mk_tcx N (fun _ => TyKind.Other) show (fun _ => Some (8, 8)%N) show.

Definition sample_def : BodyDef := mk_body_def (at_ 1) 7 "main".

Definition event_summary (event : BorrowckOwnershipEvent) : EventKind.BorrowckOwnershipEventKind * string * N * N :=
  (cevent_kind event, cevent_place event, cevent_basic_block event, cevent_statement_index event).

Definition sample_events : list (EventKind.BorrowckOwnershipEventKind * string * N * N) :=
  match body_facts sample_tcx sample_def sample_body sample_inits sample_borrows with
  | Ok facts => event_summary <$> facts_events facts
  | Err _ => []
  end.

Lemma sample_location block index :
  (block = 0%N /\ (index <= 3)%N) \/ (block = 1%N /\ (index <= 1)%N) -> location_in sample_body (mk_location block index).
Proof. intros [[-> H]|[-> H]]; eexists; (split; [reflexivity|exact H]). Qed.

Lemma sample_well_formed : well_formed sample_body sample_inits sample_borrows.
Proof.
  split; [vm_compute; reflexivity|repeat constructor|..]; repeat constructor; try apply sample_location; auto; lia.
Qed.

Lemma flow_events_exact_witness :
  exists facts event, body_facts sample_tcx sample_def sample_body sample_inits sample_borrows = Ok facts /\
    event ∈ facts_events facts /\ event_summary event = (EventKind.Move, "x", 0%N, 1%N).
Proof.
  destruct (flow_events_exact sample_tcx sample_def sample_body sample_inits sample_borrows sample_well_formed)
    as (bindings & facts & Hb & Hf & _ & Hexact).
  assert (bindings = [None; Some (mk_local_binding "x" (at_ 1)); Some (mk_local_binding "y" (at_ 2)); None; None]) as ->
    by (vm_compute in Hb; by injection Hb as <-).
  assert (len (facts_events facts) = 5%N) as Hlen by (vm_compute in Hf; by injection Hf as <-).
  assert (length (omap operand_key (body_operands sample_body)) <= cap) as Hfew by (apply Nat.leb_le; vm_compute; reflexivity).
  destruct (Hexact ltac:(rewrite Hlen; reflexivity) Hfew) as (Hmoves & _).
  destruct (Hmoves (Op.Move (place_from 1)) (mk_location 0%N 1) EventKind.Move (place_from 1)) as (event & destination & Hin & He).
  - vm_compute. right. left.
  - reflexivity.
  - reflexivity.
  - exists facts, event. split; [exact Hf|]. split; [exact Hin|]. vm_compute in He. by injection He as <-.
Defined.

(** A use in a loop is called the last use on its path although the loop leads back to it:
    the search for later uses leaves out the use itself. *)
Lemma loop_use_called_last :
  (EventKind.LastUse, "x", 1%N, 0%N) ∈ sample_events /\
  precedes sample_body (mk_location 1%N 0) (mk_location 1%N 0) /\
  exists place, (place, mk_location 1%N 0) ∈ body_uses sample_body /\ place_local place = 1%N.
Proof.
  split; [|split].
  - vm_compute. do 4 right. left.
  - by apply is_predecessor_spec; vm_compute.
  - exists (place_from 1). split; [|done]. vm_compute. right. left.
Qed.

(** *** Loans *)

(** The points of a recorded loan and those of its borrow. *)
Definition loan_shows {Ty} (body : Body Ty) (borrow : BorrowData) (loan : BorrowckOwnershipLoan) : Prop :=
  exists live ends,
    NoDup live /\ StronglySorted (fun a b => lex_leb N.compare N.leb (location_key a) (location_key b) = true) live /\
    (forall location, location ∈ live <-> location ∈ region_locations borrow) /\
    mapM (loan_point body) (take_N MAX_LOAN_POINTS_PER_BODY live) = Ok (cloan_live_points loan) /\
    cloan_truncated loan = (MAX_LOAN_POINTS_PER_BODY <? len live)%N /\
    ends `sublist_of` live /\ (forall location, location ∈ ends <-> location ∈ live /\ exits body live location) /\
    mapM (loan_point body) ends = Ok (cloan_end_points loan).

Lemma loan_record_shows {Ty} (body : Body Ty) bindings body_id index borrow candidates loan :
  borrow_facts body bindings body_id (index, borrow) = Ok (candidates, Some loan) ->
  cloan_loan_id loan = as_u32 index /\ loan_event_kind (borrow_kind borrow) <> None /\
  is_bound bindings (place_local (borrowed_place borrow)) = true /\ loan_shows body borrow loan.
Proof.
  unfold borrow_facts. destruct (loan_event_kind (borrow_kind borrow)) as [kind|]; [|discriminate].
  intros (ends & He & H)%bind_ok. apply bind_ok in H as (lp & Hlp & H). apply bind_ok in H as (ep & Hep & H).
  apply bind_ok in H as (b & Hb & H). apply bind_ok in H as (l & Hl & H). injection H as _ ->.
  destruct b as [binding|]; [|discriminate Hl]. apply bind_ok in Hl as (record & Hr & [= ->]). unfold loan_record in Hr.
  apply bind_ok in Hr as (reserve & _ & Hr). apply bind_ok in Hr as (activation & _ & [= <-]). cbn.
  split; [done|]. split; [done|]. split.
  { unfold indexed in Hb. unfold is_bound. destruct (get_N bindings (place_local (borrowed_place borrow))); [by injection Hb as ->|done]. }
  apply ending_locations_spec in He as [Hs Hin]. exists (live_locations borrow), ends.
  split; [apply live_NoDup|]. split; [apply live_sorted|]. split; [apply elem_of_live|]. done.
Qed.

Lemma bound_loan {Ty} (body : Body Ty) bindings body_id index borrow facts :
  borrow_facts body bindings body_id (index, borrow) = Ok facts -> loan_event_kind (borrow_kind borrow) <> None ->
  is_bound bindings (place_local (borrowed_place borrow)) = true -> exists loan, facts.2 = Some loan.
Proof.
  unfold borrow_facts. destruct (loan_event_kind (borrow_kind borrow)) as [kind|]; [|done].
  intros (ends & He & H)%bind_ok _ Hbound. apply bind_ok in H as (lp & Hlp & H). apply bind_ok in H as (ep & Hep & H).
  apply bind_ok in H as (b & Hb & H). unfold indexed in Hb. unfold is_bound in Hbound.
  destruct (get_N bindings (place_local (borrowed_place borrow))) as [[binding|]|]; try done. injection Hb as <-.
  apply bind_ok in H as (l & Hl & [= <-]). apply bind_ok in Hl as (record & _ & [= <-]). by exists record.
Qed.

Lemma mapM_pairs {A B} (f : A -> result B) l l' : mapM f l = Ok l' -> Forall2 (fun x y => f x = Ok y) l l'.
Proof.
  revert l'. induction l as [|x l IH]; intros l' H; cbn in H; [injection H as <-; constructor|].
  apply bind_ok in H as (y & Hy & (ys & Hys & [= <-])%bind_ok). constructor; auto.
Qed.

(** C11: Every borrow of a binding is recorded as a loan, and every loan recorded is that of a
    borrow: its live points are the first 4096 points of the region of the borrow, in the order of
    the blocks, and truncation is reported; it ends exactly at those points of the region from
    which execution stops or can go to a point outside. *)
Theorem loan_points_exact {Ty} (tcx : TyCtxt Ty) def (body : Body Ty) inits borrow_set :
  well_formed body inits borrow_set ->
  exists bindings facts, body_bindings body = Ok bindings /\ body_facts tcx def body inits borrow_set = Ok facts /\
    (forall loan, loan ∈ facts_loans facts -> exists index borrow, (index, borrow) ∈ enumerate borrow_set /\
       loan_event_kind (borrow_kind borrow) <> None /\ is_bound bindings (place_local (borrowed_place borrow)) = true /\
       cloan_loan_id loan = as_u32 index /\ loan_shows body borrow loan) /\
    (forall index borrow, (index, borrow) ∈ enumerate borrow_set -> loan_event_kind (borrow_kind borrow) <> None ->
       is_bound bindings (place_local (borrowed_place borrow)) = true ->
       exists loan, loan ∈ facts_loans facts /\ cloan_loan_id loan = as_u32 index /\ loan_shows body borrow loan).
Proof.
  intros Hwf. destruct (facts_total tcx def body inits borrow_set Hwf) as (bindings & facts & Hb & Hf).
  exists bindings, facts. split; [done|]. split; [done|].
  assert (exists loans, mapM (borrow_facts body bindings (definition_body_id def)) (enumerate borrow_set) = Ok loans /\
    facts_loans facts = omap snd loans) as (loans & Hl & ->).
  { unfold body_facts in Hf. apply bind_ok in Hf as (blocks & _ & Hf). apply bind_ok in Hf as (bs & Hbs & Hf).
    assert (bs = bindings) as -> by congruence. apply bind_ok in Hf as (ts & _ & Hf). apply bind_ok in Hf as (loans & Hl & Hf).
    apply bind_ok in Hf as (uses & _ & Hf). apply bind_ok in Hf as (events & _ & [= <-]). by exists loans. }
  apply mapM_pairs in Hl. split.
  - intros loan ([candidates l] & Hin & Hloan)%list_elem_of_omap. cbn in Hloan. subst l.
    apply list_elem_of_lookup in Hin as [i Hi]. destruct (Forall2_lookup_r _ _ _ _ _ Hl Hi) as ([index borrow] & Hi' & Hfacts).
    apply loan_record_shows in Hfacts as (Hid & Hk & Hbound & Hshow). apply list_elem_of_lookup_2 in Hi'. by exists index, borrow.
  - intros index borrow Hin Hk Hbound. apply list_elem_of_lookup in Hin as [i Hi].
    destruct (Forall2_lookup_l _ _ _ _ _ Hl Hi) as ([candidates l] & Hi' & Hfacts).
    destruct (bound_loan _ _ _ _ _ _ Hfacts Hk Hbound) as [loan Hloan]. cbn in Hloan. subst l.
    exists loan. apply loan_record_shows in Hfacts as (Hid & _ & _ & Hshow). split; [|done].
    apply list_elem_of_omap. exists (candidates, Some loan). split; [|done]. by apply list_elem_of_lookup_2 in Hi'.
Qed.

Lemma loan_points_exact_witness :
  exists facts loan, body_facts sample_tcx sample_def sample_body sample_inits sample_borrows = Ok facts /\
    loan ∈ facts_loans facts /\ cloan_end_points loan = [mk_cpoint 1 1 (at_ 15)].
Proof.
  destruct (loan_points_exact sample_tcx sample_def sample_body sample_inits sample_borrows sample_well_formed)
    as (bindings & facts & Hb & Hf & _ & Hloans).
  assert (bindings = [None; Some (mk_local_binding "x" (at_ 1)); Some (mk_local_binding "y" (at_ 2)); None; None]) as ->
    by (vm_compute in Hb; by injection Hb as <-).
  destruct (Hloans 0%N (mk_borrow Borrow.Shared (place_from 1) (mk_location 1%N 0) NotTwoPhase [mk_location 1%N 1]))
    as (loan & Hin & _); [by left|done|reflexivity|].
  exists facts, loan. split; [exact Hf|]. split; [exact Hin|]. vm_compute in Hf. injection Hf as <-. vm_compute in Hin.
  apply elem_of_cons in Hin as [->|Hin]; [reflexivity|by apply not_elem_of_nil in Hin].
Defined.

(** ** Memory layers *)

(** The handle through which an allocation is reached. *)
Definition handle_of (kind : MemoryKind.BorrowckMemoryKind) : option MemoryKind.BorrowckMemoryKind :=
  match kind with
  | MemoryKind.BoxAllocation => Some MemoryKind.BoxHandle
  | MemoryKind.RcAllocation => Some MemoryKind.RcHandle
  | MemoryKind.ArcAllocation => Some MemoryKind.ArcHandle
  | MemoryKind.WeakAllocation => Some MemoryKind.WeakHandle
  | MemoryKind.VecBuffer => Some MemoryKind.VecHeader
  | MemoryKind.StringBuffer => Some MemoryKind.StringHeader
  | MemoryKind.ContainerBuffer => Some MemoryKind.ContainerHeader
  | _ => None
  end.

(** After [previous], allocations come right after their handles and nothing is on the stack. *)
Fixpoint reached (previous : option MemoryKind.BorrowckMemoryKind) (layers : list BorrowckMemoryLayer) : Prop :=
  match layers with
  | [] => True
  | layer :: layers =>
      (match clayer_storage layer with
       | MemoryStorage.Heap => handle_of (clayer_kind layer) = previous /\ is_Some previous
       | MemoryStorage.Stack => False
       | MemoryStorage.Inline | MemoryStorage.Conceptual => True
       end) /\ reached (Some (clayer_kind layer)) layers
  end.

Lemma reached_app previous a b : reached previous a -> (forall p, reached p b) -> reached previous (a ++ b).
Proof. revert previous. induction a as [|l a IH]; intros previous Ha Hb; cbn in *; [auto|]. split; [tauto|]. apply IH; tauto. Qed.

Section layers.
Context {Ty : Type} (tcx : TyCtxt Ty).

Lemma memory_layer_kind kind storage label named laid_out : clayer_kind (memory_layer tcx kind storage label named laid_out) = kind.
Proof using Type. unfold memory_layer. by case_match. Qed.

Lemma memory_layer_storage kind storage label named laid_out :
  clayer_storage (memory_layer tcx kind storage label named laid_out) = storage.
Proof using Type. unfold memory_layer. by case_match. Qed.

Lemma inline_reached previous kind label named laid_out :
  reached previous [memory_layer tcx kind MemoryStorage.Inline label named laid_out].
Proof using Type. cbn. by rewrite memory_layer_storage. Qed.

Lemma owner_reached previous handle label label' ty ty' laid laid' kind :
  handle_of kind = Some handle ->
  reached previous [memory_layer tcx handle MemoryStorage.Inline label ty laid; memory_layer tcx kind MemoryStorage.Heap label' ty' laid'].
Proof using Type. intros Hk. cbn. rewrite !memory_layer_storage, !memory_layer_kind, Hk. by repeat split. Qed.

Lemma adt_layers_shape ty path inner previous :
  length (adt_layers tcx ty path inner).1 <= 2 /\ reached previous (adt_layers tcx ty path inner).1.
Proof using Type.
  unfold adt_layers, owner_layers, adt_layer. cbv zeta.
  repeat match goal with |- context [if ?b then _ else _] => destruct b end; destruct inner as [inner|]; cbn [fst length];
    (split; [lia|]);
    match goal with
    | |- reached _ [] => exact I
    | |- reached _ [_] => by cbn [reached]; rewrite memory_layer_storage
    | |- reached _ [_; _] => by apply owner_reached
    end.
Qed.

Lemma push_layers_shape remaining ty previous :
  length (push_memory_layers tcx remaining ty) <= 2 * remaining /\ reached previous (push_memory_layers tcx remaining ty).
Proof using Type.
  revert ty previous. induction remaining as [|remaining IH]; intros ty previous; cbn [push_memory_layers]; [done|].
  destruct (ty_kind tcx ty) as [pointee m|pointee m| | | | | |did types|];
    try (split; [cbn [length]; lia|apply inline_reached]).
  - destruct (is_unsized (ty_kind tcx pointee)); [|split; [cbn [length]; lia|apply inline_reached]].
    split; [cbn [length]; lia|]. cbn [reached]. rewrite memory_layer_storage. split; [done|]. apply inline_reached.
  - destruct (adt_layers_shape ty (def_path_str tcx did) (head types) previous) as [Hlen Hr].
    destruct (adt_layers tcx ty (def_path_str tcx did) (head types)) as [layers next]. cbn [fst] in *.
    destruct next as [inner|]; [|rewrite app_nil_r; split; [lia|done]].
    rewrite length_app. split; [destruct (IH inner None); lia|]. apply reached_app; [done|]. intros p. apply IH.
Qed.
End layers.

(** C35: The memory layers of a binding are at most 25, however its type is nested: the binding on
    the stack with the layout of its type, then layers none of which is on the stack and in which
    every heap allocation comes right after the handle it is reached through. *)
Theorem memory_layers_shape {Ty} (tcx : TyCtxt Ty) binding_name ty :
  exists layers, memory_layers tcx binding_name ty =
    mk_clayer MemoryKind.StackBinding MemoryStorage.Stack ("stack binding `" +:+ binding_name +:+ "`") (ty_to_string tcx ty)
      (fst <$> layout_of tcx ty) (snd <$> layout_of tcx ty) :: layers /\
    length layers <= 24 /\ reached (Some MemoryKind.StackBinding) layers.
Proof.
  exists (push_memory_layers tcx 12 ty). split.
  - unfold memory_layers, memory_layer, type_layout. by destruct (layout_of tcx ty) as [[]|].
  - destruct (push_layers_shape tcx 12 ty (Some MemoryKind.StackBinding)). split; [lia|done].
Qed.
