(* ===== verification/WrapperRewrite.v ===== *)
(** * The compiler's wrapper rewrites

    [rustc_borrowck/src/wrapper_rewrite.rs]: the intents the borrow checker recorded are
    grouped by binding; for each binding [build_wrapper_variants] plans the edits that wrap it
    ([Rc], [RefCell], [Mutex], ...), for one strategy or for all that fit, and records a variant
    or the reason for refusing.  [plan_binding] rewrites the initialiser, the type annotation
    and every use.  Expressions are those of [rustc_hir] with the constructors the rewrite
    looks at; what it asks of the compiler is the record [TyCtxt]. *)

From S2P Require Import Prelude RustStr RustColl CompilerData RepairPlan.
From stdpp Require Import options.

(** ** Syntax *)

Definition DefId : Type := N.

Inductive Res : Type :=
| ResLocal (hir_id : HirId)
| ResDef (did : DefId)
| ResOther.
#[global] Instance Res_eq_dec : EqDecision Res.
Proof. unfold HirId, DefId in *. solve_decision. Defined.

(** [Path] has whether it is [QPath::Resolved(None, _)] and what it resolves to; [OtherExpr] has
    the expressions [walk_expr] goes on to. *)
Inductive Expr : Type :=
| mk_expr (hir_id : HirId) (span : Span) (kind : ExprKind)
with ExprKind : Type :=
| MethodCall (receiver : Expr) (args : list Expr)
| Call (callee : Expr) (args : list Expr)
| Path (plain : bool) (res : Res)
| Field (base : Expr)
| Index (base index : Expr)
| Deref (operand : Expr)
| Assign (lhs rhs : Expr)
| AssignOp (lhs rhs : Expr)
| Closure
| OtherExpr (children : list Expr).

Definition expr_hir_id (expr : Expr) : HirId := let '(mk_expr hir_id _ _) := expr in hir_id.
Definition expr_span (expr : Expr) : Span := let '(mk_expr _ span _) := expr in span.
Definition expr_kind (expr : Expr) : ExprKind := let '(mk_expr _ _ kind) := expr in kind.

(** Arguments of the last segment of a path: those that are types have a span. *)
Record GenericArgs : Type := mk_generic_args {
  generic_args : list (option Span);
  generic_constraints : bool
}.

(** [ty_segments] are the segments of a resolved path with their arguments. *)
Record HirTy : Type := mk_hir_ty {
  ty_span : Span;
  ty_segments : option (list (option GenericArgs))
}.

(** [PatKind::Binding] with its identifier, and whether a subpattern follows *)
Inductive PatKind : Type :=
| PatBinding (hir_id : HirId) (ident : string) (sub : bool)
| PatOther.

Record LetStmt : Type := mk_let {
  let_span : Span;
  let_pat_span : Span;
  let_pat : PatKind;
  let_ty : option HirTy;
  let_init : option Expr;
  let_els : bool;
  let_source_normal : bool
}.

Inductive Node : Type :=
| NodeExpr (expr : Expr)
| NodeLetStmt (local : LetStmt)
| NodeOther.

(** What owns a body, with whether it is [async] *)
Inductive OwnerNode : Type :=
| ItemFn (is_async : bool)
| ImplFn (is_async : bool)
| TraitFnProvided (is_async : bool)
| OwnerOther.

Module Adjust.
Inductive Adjust : Type :=
| BorrowRef (mutable : bool)
| BorrowRawPtr (mutable : bool)
| BorrowPin (mutable : bool)
| DerefOverloaded (mutable : bool)
| Other.
End Adjust.

(** The compiler's answers: nodes, resolution, types and text. *)
Record TyCtxt : Type := mk_hir_tcx {
  hir_node_by_def_id : LocalDefId -> OwnerNode;
  hir_body_value : LocalDefId -> option Expr;
  hir_parents : HirId -> list Node;
  parent_hir_node : HirId -> Node;
  qpath_res : HirId -> Res;
  owned_box : option DefId;
  rc_item : option DefId;
  inherent_impl_adt : DefId -> option DefId;
  item_name : DefId -> string;
  span_to_snippet : Span -> option string;
  expr_adjustments : HirId -> list Adjust.Adjust
}.

Definition shrink_to_lo (span : Span) : Span := mk_span (span_lo span) (span_lo span) (from_expansion span).
Definition shrink_to_hi (span : Span) : Span := mk_span (span_hi span) (span_hi span) (from_expansion span).

(** ** Strategies *)

Definition has_shared_ownership (strategy : WrapperStrategy.BorrowckWrapperStrategy) : bool :=
  match strategy with
  | WrapperStrategy.Rc | WrapperStrategy.RcRefCell | WrapperStrategy.Arc | WrapperStrategy.ArcMutex
  | WrapperStrategy.ArcRwLock => true
  | _ => false
  end.

Definition interior_access (strategy : WrapperStrategy.BorrowckWrapperStrategy) (mutable : bool) : option string :=
  match strategy with
  | WrapperStrategy.RefCell | WrapperStrategy.RcRefCell => Some (if mutable then ".borrow_mut()" else ".borrow()")
  | WrapperStrategy.Mutex | WrapperStrategy.ArcMutex => Some ".lock().unwrap()"
  | WrapperStrategy.RwLock | WrapperStrategy.ArcRwLock => Some (if mutable then ".write().unwrap()" else ".read().unwrap()")
  | WrapperStrategy.Rc | WrapperStrategy.Arc => None
  end.

Definition adjust_is_mutable (adjust : Adjust.Adjust) : bool :=
  match adjust with
  | Adjust.BorrowRef mutable | Adjust.BorrowRawPtr mutable | Adjust.BorrowPin mutable | Adjust.DerefOverloaded mutable => mutable
  | Adjust.Other => false
  end.

Definition is_non_async_function (owner : OwnerNode) : bool :=
  match owner with
  | ItemFn is_async | ImplFn is_async | TraitFnProvided is_async => negb is_async
  | OwnerOther => false
  end.

(** The span of the only argument, if it is a type. *)
Definition single_type_argument_span (ty : HirTy) : option Span :=
  segments ← ty_segments ty;
  args ← mjoin (last segments);
  if generic_constraints args then None
  else
    match omap id (generic_args args) with
    | [ty] => if (len (generic_args args) =? 1)%N then Some ty else None
    | _ => None
    end.

(** ** Uses *)

(** What is found in several expressions, in order *)
Definition found_in (found : list (list Expr * bool)) : list Expr * bool := (concat (found.*1), existsb snd found).

(** [LocalUseCollector]: the uses of the binding, and whether a closure was met *)
Fixpoint collect_uses (binding : HirId) (expr : Expr) : list Expr * bool :=
  let '(mk_expr _ _ kind) := expr in
  match kind with
  | Closure => ([], true)
  | Path plain res =>
      (if plain && bool_decide (res = ResLocal binding) then [expr] else [], false)
  | MethodCall first rest | Call first rest => found_in (collect_uses binding first :: List.map (collect_uses binding) rest)
  | Field base | Deref base => found_in [collect_uses binding base]
  | Index base index => found_in [collect_uses binding base; collect_uses binding index]
  | Assign lhs rhs | AssignOp lhs rhs => found_in [collect_uses binding rhs; collect_uses binding lhs]
  | OtherExpr children => found_in (List.map (collect_uses binding) children)
  end.

(** The group of a binding is its first intent and the others. *)
Abbreviation Group := (BorrowckWrapperIntent * list BorrowckWrapperIntent)%type.

(** ** Planning a binding *)

Section plan.
Context (tcx : TyCtxt).

Definition UNREACHABLE : string := "internal error: entered unreachable code".

Definition receiver_is_mutable (receiver : Expr) : bool :=
  existsb adjust_is_mutable (expr_adjustments tcx (expr_hir_id receiver)).

Definition not_exactly (source : WrapperSource.BorrowckWrapperSource) : string :=
  match source with
  | WrapperSource.Box => "Box initializer is not exactly Box::new(value)"
  | WrapperSource.Rc => "Rc initializer is not exactly Rc::new(value)"
  | WrapperSource.Plain => UNREACHABLE
  end.

Definition plain_constructor (strategy : WrapperStrategy.BorrowckWrapperStrategy) : result string :=
  match strategy with
  | WrapperStrategy.RefCell => Ok "::std::cell::RefCell::new("
  | WrapperStrategy.Mutex => Ok "::std::sync::Mutex::new("
  | WrapperStrategy.RwLock => Ok "::std::sync::RwLock::new("
  | _ => Err "plain bindings require a bare interior-mutability wrapper"
  end.

Definition shared_constructor (strategy : WrapperStrategy.BorrowckWrapperStrategy) : result string :=
  match strategy with
  | WrapperStrategy.Arc => Ok "::std::sync::Arc::new"
  | WrapperStrategy.ArcMutex => Ok "::std::sync::Arc::new(::std::sync::Mutex::new"
  | WrapperStrategy.ArcRwLock => Ok "::std::sync::Arc::new(::std::sync::RwLock::new"
  | WrapperStrategy.Rc => Ok "::std::rc::Rc::new"
  | WrapperStrategy.RcRefCell => Ok "::std::rc::Rc::new(::std::cell::RefCell::new"
  | WrapperStrategy.RefCell | WrapperStrategy.Mutex | WrapperStrategy.RwLock =>
      Err "Box and Rc bindings require a shared-ownership rewrite"
  end.

Definition is_nested (strategy : WrapperStrategy.BorrowckWrapperStrategy) : bool :=
  match strategy with
  | WrapperStrategy.RcRefCell | WrapperStrategy.ArcMutex | WrapperStrategy.ArcRwLock => true
  | _ => false
  end.

Definition expected_parent (source : WrapperSource.BorrowckWrapperSource) : result (option DefId) :=
  match source with
  | WrapperSource.Box => Ok (owned_box tcx)
  | WrapperSource.Rc => Ok (rc_item tcx)
  | WrapperSource.Plain => Err UNREACHABLE
  end.

(** The constructor of the initialiser is [Box::new] or [Rc::new] of the type expected. *)
Definition check_constructor (source : WrapperSource.BorrowckWrapperSource) (callee : Expr) : result unit :=
  match expr_kind callee with
  | Path _ _ =>
      match qpath_res tcx (expr_hir_id callee) with
      | ResDef constructor =>
          parent ← expected_parent source;
          if negb (bool_decide (inherent_impl_adt tcx constructor = parent))
             || negb (item_name tcx constructor =s "new") then Err (not_exactly source)
          else Ok ()
      | _ => Err "wrapper initializer constructor did not resolve"
      end
  | _ => Err "wrapper initializer constructor is not a resolved path"
  end.

Definition initializer_edits (source : WrapperSource.BorrowckWrapperSource) (strategy : WrapperStrategy.BorrowckWrapperStrategy)
    (init : Expr) : result (list BorrowckRepairEdit) :=
  match source with
  | WrapperSource.Plain =>
      constructor ← plain_constructor strategy;
      Ok [mk_redit (shrink_to_lo (expr_span init)) constructor; mk_redit (shrink_to_hi (expr_span init)) ")"]
  | _ =>
      match expr_kind init with
      | Call callee [_] =>
          check_constructor source callee;;
          replacement ← shared_constructor strategy;
          Ok (mk_redit (expr_span callee) replacement
              :: if is_nested strategy then [mk_redit (shrink_to_hi (expr_span init)) ")"] else [])
      | _ => Err (not_exactly source)
      end
  end.

Definition or_error {A} (o : option A) (message : string) : result A :=
  match o with
  | Some a => Ok a
  | None => Err message
  end.

Definition plain_annotation (strategy : WrapperStrategy.BorrowckWrapperStrategy) (original : string) : result string :=
  match strategy with
  | WrapperStrategy.RefCell => Ok ("::std::cell::RefCell<" +:+ original +:+ ">")
  | WrapperStrategy.Mutex => Ok ("::std::sync::Mutex<" +:+ original +:+ ">")
  | WrapperStrategy.RwLock => Ok ("::std::sync::RwLock<" +:+ original +:+ ">")
  | _ => Err "plain binding has an incompatible wrapper strategy"
  end.

Definition shared_annotation (strategy : WrapperStrategy.BorrowckWrapperStrategy) (inner : string) : result string :=
  match strategy with
  | WrapperStrategy.Arc => Ok ("::std::sync::Arc<" +:+ inner +:+ ">")
  | WrapperStrategy.ArcMutex => Ok ("::std::sync::Arc<::std::sync::Mutex<" +:+ inner +:+ ">>")
  | WrapperStrategy.ArcRwLock => Ok ("::std::sync::Arc<::std::sync::RwLock<" +:+ inner +:+ ">>")
  | WrapperStrategy.Rc => Ok ("::std::rc::Rc<" +:+ inner +:+ ">")
  | WrapperStrategy.RcRefCell => Ok ("::std::rc::Rc<::std::cell::RefCell<" +:+ inner +:+ ">>")
  | WrapperStrategy.RefCell | WrapperStrategy.Mutex | WrapperStrategy.RwLock => Err UNREACHABLE
  end.

Definition type_annotation_edit (source : WrapperSource.BorrowckWrapperSource) (strategy : WrapperStrategy.BorrowckWrapperStrategy)
    (ty : HirTy) : result BorrowckRepairEdit :=
  replacement ←
    match source with
    | WrapperSource.Plain =>
        original ← or_error (span_to_snippet tcx (ty_span ty)) "explicit type annotation source is unavailable";
        plain_annotation strategy original
    | _ =>
        inner ← or_error (single_type_argument_span ty) "wrapper type annotation must have exactly one type argument";
        inner ← or_error (span_to_snippet tcx inner) "wrapper type argument source is unavailable";
        shared_annotation strategy inner
    end;
  Ok (mk_redit (ty_span ty) replacement).

(** [hir_is_lhs] *)
Definition hir_is_lhs (id : HirId) : bool :=
  match parent_hir_node tcx id with
  | NodeExpr parent =>
      match expr_kind parent with
      | Assign lhs _ => bool_decide (expr_hir_id lhs = id)
      | _ => false
      end
  | _ => false
  end.

Definition access_edit (use_expr : Expr) (access : option string) : list BorrowckRepairEdit :=
  match access with
  | Some method => [mk_redit (shrink_to_hi (expr_span use_expr)) method]
  | None => []
  end.

Definition rewrite_place_use (use_expr parent : Expr) (strategy : WrapperStrategy.BorrowckWrapperStrategy) : list BorrowckRepairEdit :=
  access_edit use_expr (interior_access strategy (hir_is_lhs (expr_hir_id parent))).

Definition is_same_expr (a b : Expr) : bool := bool_decide (expr_hir_id a = expr_hir_id b).

Definition UNSUPPORTED_USE : string := "binding has an unsupported consuming, escaping, or indirect use".

(** The use initialises another local without a type annotation. *)
Definition initializes (local : LetStmt) (use_expr : Expr) : bool :=
  match let_init local with
  | Some init =>
      is_same_expr init use_expr && negb (is_some (let_ty local))
      && match let_pat local with PatBinding _ _ sub => negb sub | PatOther => false end
  | None => false
  end.

(** The edits [classify_use] adds. *)
Definition classify_use (use_expr : Expr) (strategy : WrapperStrategy.BorrowckWrapperStrategy) : result (list BorrowckRepairEdit) :=
  match parent_hir_node tcx (expr_hir_id use_expr) with
  | NodeExpr parent =>
      match expr_kind parent with
      | MethodCall receiver _ =>
          if is_same_expr receiver use_expr then
            Ok (access_edit use_expr (interior_access strategy (receiver_is_mutable receiver)))
          else Err UNSUPPORTED_USE
      | Field base | Index base _ | Deref base =>
          if is_same_expr base use_expr then Ok (rewrite_place_use use_expr parent strategy) else Err UNSUPPORTED_USE
      | _ => Err UNSUPPORTED_USE
      end
  | NodeLetStmt local =>
      if initializes local use_expr then
        if has_shared_ownership strategy then Ok [mk_redit (shrink_to_hi (expr_span use_expr)) ".clone()"]
        else Err "RefCell binding is moved into another local"
      else Err UNSUPPORTED_USE
  | NodeOther => Err UNSUPPORTED_USE
  end.

Definition is_let (node : Node) : option LetStmt :=
  match node with
  | NodeLetStmt local => Some local
  | _ => None
  end.

(** The binding is that of a plain [let] with an initialiser. *)
Definition check_local (intent : BorrowckWrapperIntent) (local : LetStmt) : result Expr :=
  match let_pat local with
  | PatBinding hir_id ident false =>
      if negb (bool_decide (hir_id = intent_binding_hir_id intent)) || negb (ident =s intent_binding_name intent)
         || negb (let_source_normal local) || let_els local
      then Err "binding is not a simple local let binding"
      else
        init ← or_error (let_init local) "binding has no initializer";
        if from_expansion (let_span local) || from_expansion (let_pat_span local) || from_expansion (expr_span init)
        then Err "binding or initializer comes from a macro expansion"
        else Ok init
  | _ => Err "binding pattern is not a plain identifier"
  end.

Definition use_edits (strategy : WrapperStrategy.BorrowckWrapperStrategy) (use_expr : Expr) : result (list BorrowckRepairEdit) :=
  if from_expansion (expr_span use_expr) then Err "binding use comes from a macro expansion"
  else classify_use use_expr strategy.

Definition edit_key (edit : BorrowckRepairEdit) : N * N := (span_lo (redit_span edit), span_hi (redit_span edit)).

Definition annotation_edits (source : WrapperSource.BorrowckWrapperSource) (strategy : WrapperStrategy.BorrowckWrapperStrategy)
    (ty : option HirTy) : result (list BorrowckRepairEdit) :=
  match ty with
  | Some ty => edit ← type_annotation_edit source strategy ty; Ok [edit]
  | None => Ok []
  end.

Definition plan_binding (intent : BorrowckWrapperIntent) (strategy : WrapperStrategy.BorrowckWrapperStrategy) :
    result (list BorrowckRepairEdit) :=
  if negb (is_non_async_function (hir_node_by_def_id tcx (intent_body_owner intent)))
  then Err "binding is not owned by a synchronous function body"
  else
    body ← or_error (hir_body_value tcx (intent_body_owner intent)) "binding body is unavailable";
    local ← or_error (head (omap is_let (hir_parents tcx (intent_binding_hir_id intent)))) "binding is not a local let statement";
    init ← check_local intent local;
    edits ← initializer_edits (intent_source intent) strategy init;
    annotation ← annotation_edits (intent_source intent) strategy (let_ty local);
    let '(uses, saw_closure) := collect_uses (intent_binding_hir_id intent) body in
    if saw_closure : bool then Err "function contains a closure or async block; capture analysis is not rewritten"
    else if match uses with [] => true | _ => false end then Err "binding has no expression uses to rewrite"
    else
      rewrites ← mapM (use_edits strategy) uses;
      Ok (sort_by (on edit_key (lex_leb N.compare N.leb)) (edits ++ annotation ++ concat rewrites)).

(** ** Bindings and strategies *)

#[global] Instance source_eq_dec : EqDecision WrapperSource.BorrowckWrapperSource.
Proof using Type. solve_decision. Defined.
#[global] Instance requirement_eq_dec : EqDecision WrapperRequirement.BorrowckWrapperRequirement.
Proof using Type. solve_decision. Defined.

Definition same_intent_binding (a b : BorrowckWrapperIntent) : bool :=
  (intent_body_owner a =? intent_body_owner b)%N && bool_decide (intent_binding_hir_id a = intent_binding_hir_id b).

Definition same_need (a b : BorrowckWrapperIntent) : bool :=
  bool_decide (intent_source a = intent_source b) && bool_decide (intent_requirement a = intent_requirement b).

Definition with_trigger (trigger : Span) (intent : BorrowckWrapperIntent) : BorrowckWrapperIntent :=
  mk_intent (intent_body_owner intent) (intent_binding_hir_id intent) (intent_binding_span intent) trigger
    (intent_binding_name intent) (intent_source intent) (intent_requirement intent).

Definition group_intents (group : Group) : list BorrowckWrapperIntent := group.1 :: group.2.

(** The trigger of the first intent with the same need is replaced, or the intent is added. *)
Fixpoint merge_intent (intent : BorrowckWrapperIntent) (existing : list BorrowckWrapperIntent) : list BorrowckWrapperIntent :=
  match existing with
  | [] => [intent]
  | old :: existing =>
      if same_need old intent then with_trigger (intent_trigger_span intent) old :: existing
      else old :: merge_intent intent existing
  end.

Definition merge_into (intent : BorrowckWrapperIntent) (group : Group) : Group :=
  if same_need group.1 intent then (with_trigger (intent_trigger_span intent) group.1, group.2)
  else (group.1, merge_intent intent group.2).

Fixpoint add_intent (groups : list Group) (intent : BorrowckWrapperIntent) : list Group :=
  match groups with
  | [] => [(intent, [])]
  | group :: groups =>
      if same_intent_binding group.1 intent then merge_into intent group :: groups else group :: add_intent groups intent
  end.

Definition group_bindings (intents : list BorrowckWrapperIntent) : list Group :=
  sort_by (on (fun group : Group => span_lo (intent_binding_span group.1)) N.leb) (foldl add_intent [] intents).

Definition is_mutation (intent : BorrowckWrapperIntent) : bool :=
  bool_decide (intent_requirement intent = WrapperRequirement.InteriorMutation).

(** The strategy that is always tried, and those tried for suggestions. *)
Definition strategies_for (source : WrapperSource.BorrowckWrapperSource) (has_mutation suggestions : bool) :
    list WrapperStrategy.BorrowckWrapperStrategy :=
  match source, has_mutation with
  | WrapperSource.Box, false => WrapperStrategy.Rc :: if suggestions then [WrapperStrategy.Arc] else []
  | WrapperSource.Box, true | WrapperSource.Rc, true =>
      WrapperStrategy.RcRefCell :: if suggestions then [WrapperStrategy.ArcMutex; WrapperStrategy.ArcRwLock] else []
  | WrapperSource.Plain, true =>
      WrapperStrategy.RefCell :: if suggestions then [WrapperStrategy.Mutex; WrapperStrategy.RwLock] else []
  | WrapperSource.Rc, false | WrapperSource.Plain, false => []
  end.

Definition record_plan (intent : BorrowckWrapperIntent) (c : BorrowckRepairCollector) (strategy : WrapperStrategy.BorrowckWrapperStrategy) :
    BorrowckRepairCollector :=
  match plan_binding intent strategy with
  | Ok edits =>
      record_borrowck_wrapper_variant
        (mk_variant (intent_binding_span intent) (intent_trigger_span intent) (intent_binding_name intent) strategy edits) c
  | Err reason =>
      record_borrowck_wrapper_rejection
        (mk_rejection (intent_binding_span intent) (intent_binding_name intent) strategy reason) c
  end.

Definition record_group (s : Session) (c : BorrowckRepairCollector) (group : Group) : BorrowckRepairCollector :=
  foldl (record_plan group.1) c
    (strategies_for (intent_source group.1) (existsb is_mutation (group_intents group)) (borrowck_wrapper_suggestions s)).

Definition build_wrapper_variants (s : Session) (c : BorrowckRepairCollector) : BorrowckRepairCollector :=
  if negb (borrowck_autofix_wrapper_variants s) && negb (borrowck_wrapper_suggestions s) then c
  else foldl (record_group s) c (group_bindings (collector_wrapper_intents c)).
End plan.
