(* ===== verification/WrapperRewriteSpec.v ===== *)
(** * What the wrapper rewrites guarantee

    A plan that is accepted rewrites every use of the binding, in a body without closures, and
    nothing else; each binding the borrow checker named gets exactly one outcome per strategy. *)

From S2P Require Import Prelude RustStr RustColl CompilerData RepairPlan WrapperRewrite.
From stdpp Require Import options.

(** ** Uses *)




(** Induction over expressions and the lists in them. *)
Section expr_ind.
Context (P : Expr -> Prop).
Hypothesis step : forall hir_id span kind,
  (match kind with
   | Closure | Path _ _ => True
   | MethodCall e l | Call e l => P e /\ Forall P l
   | Field e | Deref e => P e
   | Index a b | Assign a b | AssignOp a b => P a /\ P b
   | OtherExpr l => Forall P l
   end) -> P (mk_expr hir_id span kind).

End expr_ind.




(** ** Plans *)

Section plans.
Context (tcx : TyCtxt).





















End plans.






(** ** A sample body

    [let x = start; x.count += 1; x.len();] *)
Definition sample_expr (id lo hi : N) (kind : ExprKind) : Expr := mk_expr (0, id)%N (mk_span lo hi false) kind.
Definition sample_x (id lo : N) : Expr := sample_expr id lo (lo + 1) (Path true (ResLocal (0, 1)%N)).
Definition sample_init : Expr := sample_expr 2 8 13 (OtherExpr []).
Definition sample_field : Expr := sample_expr 4 15 22 (Field (sample_x 3 15)).
Definition sample_call : Expr := sample_expr 8 29 36 (MethodCall (sample_x 7 29) []).
Definition sample_update : Expr := sample_expr 5 15 27 (AssignOp sample_field (sample_expr 6 26 27 (OtherExpr []))).
Definition sample_body : Expr := sample_expr 9 0 40 (OtherExpr [sample_init; sample_update; sample_call]).
Definition sample_let : LetStmt :=
  mk_let (mk_span 0 14 false) (mk_span 4 5 false) (PatBinding (0, 1)%N "x" false) None (Some sample_init) false true.

Definition sample_hir : TyCtxt :=
  mk_hir_tcx (fun _ => ItemFn false) (fun _ => Some sample_body) (fun _ => [NodeLetStmt sample_let])
    (fun id => match id.2 with
       | 3%N => NodeExpr sample_field
       | 4%N => NodeExpr sample_update
       | 7%N => NodeExpr sample_call
       | _ => NodeOther
       end)
    (fun _ => ResOther) None None (fun _ => None) (fun _ => "") (fun _ => None)
    (fun id => if (id.2 =? 7)%N then [Adjust.BorrowRef true] else []).

Definition sample_intent (trigger : N) : BorrowckWrapperIntent :=
  mk_intent 0%N (0, 1)%N (mk_span 4 5 false) (mk_span trigger (trigger + 1) false) "x" WrapperSource.Plain WrapperRequirement.InteriorMutation.



(** The field that [x.count += 1] updates is read through [borrow()] by the rewrite, as only a
    plain assignment counts as the left side: the variant does not compile. *)
Lemma compound_assignment_borrowed_shared :
  plan_binding sample_hir (sample_intent 15) WrapperStrategy.RefCell
    = Ok [mk_redit (mk_span 8 8 false) "::std::cell::RefCell::new("; mk_redit (mk_span 13 13 false) ")";
          mk_redit (mk_span 16 16 false) ".borrow()"; mk_redit (mk_span 30 30 false) ".borrow_mut()"].
Proof. vm_compute. reflexivity. Qed.

(** ** Groups *)

Definition binding_key (intent : BorrowckWrapperIntent) : LocalDefId * HirId := (intent_body_owner intent, intent_binding_hir_id intent).

(** Two intents of the same binding with the same need *)
Definition alike (a b : BorrowckWrapperIntent) : bool := same_intent_binding a b && same_need a b.

Lemma same_binding_key a b : same_intent_binding a b = true <-> binding_key a = binding_key b.
Proof.
  unfold same_intent_binding, binding_key. rewrite andb_true_iff, N.eqb_eq, bool_decide_eq_true. split; [by intros [-> ->]|by intros [= -> ->]].
Qed.

Definition need (intent : BorrowckWrapperIntent) := (intent_source intent, intent_requirement intent).

Lemma same_need_eq a b : same_need a b = true <-> need a = need b.
Proof.
  unfold same_need, need. rewrite andb_true_iff, !bool_decide_eq_true. split; [by intros [-> ->]|by intros [= -> ->]].
Qed.

Lemma alike_eq a b : alike a b = true <-> binding_key a = binding_key b /\ need a = need b.
Proof. unfold alike. by rewrite andb_true_iff, same_binding_key, same_need_eq. Qed.

(** The last intent like this one *)
Definition latest (seen : list BorrowckWrapperIntent) (intent : BorrowckWrapperIntent) : option BorrowckWrapperIntent :=
  last (retain (alike intent) seen).

(** [member] stands for the intents like it that were seen, with the trigger of the last. *)
Definition stands_for (seen : list BorrowckWrapperIntent) (member : BorrowckWrapperIntent) : Prop :=
  exists last_seen, latest seen member = Some last_seen /\ intent_trigger_span member = intent_trigger_span last_seen.

Lemma latest_snoc seen intent member :
  latest (seen ++ [intent]) member = if alike member intent then Some intent else latest seen member.
Proof.
  unfold latest. rewrite retain_app. unfold retain at 2. cbn. destruct (alike member intent); [apply last_snoc|by rewrite app_nil_r].
Qed.

Lemma stands_for_other seen intent member : alike member intent = false -> stands_for seen member -> stands_for (seen ++ [intent]) member.
Proof. intros Ha (j & Hj & Ht). exists j. by rewrite latest_snoc, Ha. Qed.

Lemma stands_for_new seen intent member :
  binding_key member = binding_key intent -> need member = need intent -> intent_trigger_span member = intent_trigger_span intent ->
  stands_for (seen ++ [intent]) member.
Proof. intros Hb Hn Ht. exists intent. by rewrite latest_snoc, (proj2 (alike_eq _ _)) by done. Qed.

(** The intents of one binding *)
Definition members_ok (seen : list BorrowckWrapperIntent) (key : LocalDefId * HirId) (members : list BorrowckWrapperIntent) : Prop :=
  NoDup (need <$> members) /\ Forall (fun m => binding_key m = key /\ stands_for seen m) members.

Lemma members_other seen intent key members :
  key <> binding_key intent -> members_ok seen key members -> members_ok (seen ++ [intent]) key members.
Proof.
  intros Hk [Hn Hm]. split; [done|]. eapply Forall_impl; [exact Hm|]. intros m [Hb Hs]. split; [done|].
  apply stands_for_other; [|done]. apply not_true_is_false. rewrite alike_eq. intros [Hb' _]. congruence.
Qed.

Lemma merge_needs intent members :
  need <$> merge_intent intent members
  = if existsb (fun m => same_need m intent) members then need <$> members else (need <$> members) ++ [need intent].
Proof.
  induction members as [|m members IH]; [done|]. cbn [merge_intent existsb]. destruct (same_need m intent); [done|]. cbn. rewrite IH.
  by destruct (existsb _ members).
Qed.

Lemma merge_members seen intent members :
  members_ok seen (binding_key intent) members -> members_ok (seen ++ [intent]) (binding_key intent) (merge_intent intent members).
Proof.
  intros [Hn Hm]. split.
  - rewrite merge_needs. destruct (existsb _ members) eqn:He; [done|]. apply NoDup_app. split; [done|]. split; [|apply NoDup_singleton].
    intros n (m & -> & Hin)%list_elem_of_fmap Hx%list_elem_of_singleton. apply not_true_iff_false in He. apply He, existsb_exists.
    exists m. rewrite <- list_elem_of_In, same_need_eq. by split.
  - induction Hm as [|m members [Hb Hs] Hm IH]; cbn [merge_intent].
    + constructor; [|constructor]. split; [done|]. by apply stands_for_new.
    + apply NoDup_cons in Hn as [Hni Hn]. destruct (same_need m intent) eqn:Hs'.
      * apply same_need_eq in Hs'. constructor; [split; [done|by apply stands_for_new]|].
        rewrite Forall_forall in *. intros m' Hin. destruct (Hm m' Hin) as [Hb' Hst]. split; [done|].
        apply stands_for_other; [|done]. apply not_true_is_false. rewrite alike_eq. intros [_ Hn']. apply Hni. rewrite Hs', <- Hn'.
        by apply list_elem_of_fmap_2.
      * constructor; [|by apply IH]. split; [done|]. apply stands_for_other; [|done]. unfold alike. by rewrite Hs', andb_false_r.
Qed.

Lemma merge_into_members intent group : group_intents (merge_into intent group) = merge_intent intent (group_intents group).
Proof. unfold merge_into, group_intents. destruct group as [first rest]. cbn. by destruct (same_need first intent). Qed.

Lemma merge_into_key intent group : binding_key (merge_into intent group).1 = binding_key group.1.
Proof. unfold merge_into. by destruct (same_need group.1 intent). Qed.

Definition group_key (group : Group) : LocalDefId * HirId := binding_key group.1.

(** One group per binding, whose members stand for the intents seen *)
Record groups_ok (seen : list BorrowckWrapperIntent) (groups : list Group) : Prop := mk_groups_ok {
  groups_unique : NoDup (group_key <$> groups);
  groups_members : Forall (fun group => members_ok seen (group_key group) (group_intents group)) groups;
  groups_cover : Forall (fun intent => exists group member,
    group ∈ groups /\ member ∈ group_intents group /\ alike member intent = true) seen
}.

Lemma add_intent_keys groups intent :
  group_key <$> add_intent groups intent
  = if existsb (fun group : Group => same_intent_binding group.1 intent) groups then group_key <$> groups
    else (group_key <$> groups) ++ [binding_key intent].
Proof.
  induction groups as [|group groups IH]; [done|]. cbn [add_intent existsb]. destruct (same_intent_binding group.1 intent) eqn:Hs.
  - cbn. unfold group_key at 1. by rewrite merge_into_key.
  - cbn. rewrite IH. by destruct (existsb _ groups).
Qed.

Lemma add_intent_unique groups intent : NoDup (group_key <$> groups) -> NoDup (group_key <$> add_intent groups intent).
Proof.
  intros Hn. rewrite add_intent_keys. destruct (existsb _ groups) eqn:He; [done|].
  apply NoDup_app. split; [done|]. split; [|apply NoDup_singleton].
  intros k (g & -> & Hin)%list_elem_of_fmap Hx%list_elem_of_singleton. apply not_true_iff_false in He. apply He, existsb_exists.
  exists g. rewrite <- list_elem_of_In, same_binding_key. by split.
Qed.

Lemma add_intent_members seen groups intent :
  NoDup (group_key <$> groups) -> Forall (fun group => members_ok seen (group_key group) (group_intents group)) groups ->
  Forall (fun group => members_ok (seen ++ [intent]) (group_key group) (group_intents group)) (add_intent groups intent).
Proof.
  intros Hn Hm. induction Hm as [|group groups Hg Hm IH]; cbn [add_intent].
  - constructor; [|constructor]. unfold group_intents, group_key. cbn. split; [apply NoDup_singleton|].
    constructor; [|constructor]. split; [done|]. by apply stands_for_new.
  - cbn in Hn. apply NoDup_cons in Hn as [Hni Hn]. destruct (same_intent_binding group.1 intent) eqn:Hs.
    + apply same_binding_key in Hs. constructor.
      * unfold group_key. rewrite merge_into_key, merge_into_members, Hs. apply merge_members. rewrite <- Hs. exact Hg.
      * rewrite Forall_forall in *. intros g Hin. apply members_other; [|by apply Hm]. intros Hk. apply Hni.
        unfold group_key at 1. rewrite Hs, <- Hk. by apply list_elem_of_fmap_2.
    + constructor; [|by apply IH]. apply members_other; [|done]. intros Hk%same_binding_key. congruence.
Qed.

Lemma merge_intent_kept intent members m :
  m ∈ members -> exists m', m' ∈ merge_intent intent members /\ binding_key m' = binding_key m /\ need m' = need m.
Proof.
  induction members as [|x members IH]; [set_solver|]. intros [->|Hin]%elem_of_cons; cbn [merge_intent].
  - destruct (same_need x intent); [exists (with_trigger (intent_trigger_span intent) x)|exists x];
      (split; [apply elem_of_cons; by left|done]).
  - destruct (same_need x intent); [exists m; split; [apply elem_of_cons; by right|done]|].
    destruct (IH Hin) as (m' & H1 & H2). exists m'. split; [apply elem_of_cons; by right|done].
Qed.

Lemma merge_intent_has intent members : exists m, m ∈ merge_intent intent members /\ need m = need intent.
Proof.
  induction members as [|x members (m & H1 & H2)]; cbn [merge_intent]; [exists intent; split; [by apply list_elem_of_singleton|done]|].
  destruct (same_need x intent) eqn:Hs; [|exists m; split; [apply elem_of_cons; by right|done]]. apply same_need_eq in Hs.
  exists (with_trigger (intent_trigger_span intent) x). split; [apply elem_of_cons; by left|done].
Qed.

Lemma add_intent_kept groups intent group m :
  group ∈ groups -> m ∈ group_intents group ->
  exists group' m', group' ∈ add_intent groups intent /\ m' ∈ group_intents group' /\ binding_key m' = binding_key m /\ need m' = need m.
Proof.
  induction groups as [|g groups IH]; [set_solver|]. intros [->|Hin]%elem_of_cons Hm; cbn [add_intent].
  - destruct (same_intent_binding g.1 intent); [|exists g, m; split; [apply elem_of_cons; by left|done]].
    destruct (merge_intent_kept intent _ m Hm) as (m' & H1 & H2). exists (merge_into intent g), m'.
    split; [apply elem_of_cons; by left|by rewrite merge_into_members].
  - destruct (same_intent_binding g.1 intent); [exists group, m; split; [apply elem_of_cons; by right|done]|].
    destruct (IH Hin Hm) as (g' & m' & H1 & H2). exists g', m'. split; [apply elem_of_cons; by right|done].
Qed.

Lemma add_intent_has groups intent :
  exists group m, group ∈ add_intent groups intent /\ m ∈ group_intents group /\ group_key group = binding_key intent /\ need m = need intent.
Proof.
  induction groups as [|g groups (g' & m & H1 & H2)]; cbn [add_intent].
  - exists (intent, []), intent. split; [by apply list_elem_of_singleton|]. split; [by apply list_elem_of_singleton|done].
  - destruct (same_intent_binding g.1 intent) eqn:Hs; [|exists g', m; split; [apply elem_of_cons; by right|done]].
    apply same_binding_key in Hs. destruct (merge_intent_has intent (group_intents g)) as (m' & Hm' & Hn).
    exists (merge_into intent g), m'. split; [apply elem_of_cons; by left|]. rewrite merge_into_members. split; [done|].
    split; [|done]. unfold group_key. by rewrite merge_into_key.
Qed.

Lemma add_intent_ok seen groups intent : groups_ok seen groups -> groups_ok (seen ++ [intent]) (add_intent groups intent).
Proof.
  intros [Hn Hm Hc]. pose proof (add_intent_members _ _ intent Hn Hm) as Hm'. split; [by apply add_intent_unique|done|].
  apply Forall_app. split.
  - eapply Forall_impl; [exact Hc|]. intros i (g & m & Hg & Hin & [Hb Hd]%alike_eq).
    destruct (add_intent_kept groups intent g m Hg Hin) as (g' & m' & H1 & H2 & H3 & H4). exists g', m'. do 2 (split; [done|]).
    apply alike_eq. split; congruence.
  - constructor; [|constructor]. destruct (add_intent_has groups intent) as (g & m & H1 & H2 & H3 & H4). exists g, m. do 2 (split; [done|]).
    apply alike_eq. split; [|done]. rewrite Forall_forall in Hm'. destruct (Hm' g H1) as [_ Hk]. rewrite Forall_forall in Hk.
    destruct (Hk m H2) as [-> _]. done.
Qed.

Lemma fold_intents_ok intents : groups_ok intents (foldl add_intent [] intents).
Proof.
  induction intents as [|i intents IH] using rev_ind; [by split; constructor|]. rewrite foldl_app. cbn. by apply add_intent_ok.
Qed.

Lemma group_bindings_ok intents : groups_ok intents (group_bindings intents).
Proof.
  destruct (fold_intents_ok intents) as [Hn Hm Hc]. unfold group_bindings.
  set (leb := on _ _). pose proof (sort_by_perm leb (foldl add_intent [] intents)) as Hp. split.
  - eapply NoDup_Permutation_proper; [|exact Hn]. by apply fmap_Permutation.
  - by rewrite Hp.
  - eapply Forall_impl; [exact Hc|]. intros i (g & m & H1 & H2). exists g, m. by rewrite elem_of_sort_by.
Qed.

(** ** Outcomes *)

Definition needs_mutation (group : Group) : bool := existsb is_mutation (group_intents group).

Definition wrapping_enabled (s : Session) : bool := borrowck_autofix_wrapper_variants s || borrowck_wrapper_suggestions s.

(** The strategies tried, each with the group it is tried for *)
Definition wrapper_jobs (s : Session) (groups : list Group) : list (Group * WrapperStrategy.BorrowckWrapperStrategy) :=
  if wrapping_enabled s then
    groups ≫= fun group => (pair group) <$> strategies_for (intent_source group.1) (needs_mutation group) (borrowck_wrapper_suggestions s)
  else [].

Definition variant_of (tcx : TyCtxt) (job : Group * WrapperStrategy.BorrowckWrapperStrategy) : option BorrowckWrapperVariant :=
  let intent := job.1.1 in
  match plan_binding tcx intent job.2 with
  | Ok edits => Some (mk_variant (intent_binding_span intent) (intent_trigger_span intent) (intent_binding_name intent) job.2 edits)
  | Err _ => None
  end.

Definition rejection_of (tcx : TyCtxt) (job : Group * WrapperStrategy.BorrowckWrapperStrategy) : option BorrowckWrapperRejection :=
  let intent := job.1.1 in
  match plan_binding tcx intent job.2 with
  | Ok _ => None
  | Err reason => Some (mk_rejection (intent_binding_span intent) (intent_binding_name intent) job.2 reason)
  end.

Definition with_outcomes (tcx : TyCtxt) (jobs : list (Group * WrapperStrategy.BorrowckWrapperStrategy)) (c : BorrowckRepairCollector) :
    BorrowckRepairCollector :=
  mk_collector (collector_ownership_bindings c) (collector_ownership_bodies c) (collector_ownership_events c)
    (collector_ownership_loans c) (collector_repairs c) (collector_wrapper_intents c)
    (collector_wrapper_variants c ++ omap (variant_of tcx) jobs) (collector_wrapper_rejections c ++ omap (rejection_of tcx) jobs).

Lemma with_outcomes_app tcx jobs jobs' c : with_outcomes tcx jobs' (with_outcomes tcx jobs c) = with_outcomes tcx (jobs ++ jobs') c.
Proof. unfold with_outcomes. cbn. by rewrite !omap_app, !app_assoc. Qed.

Lemma with_outcomes_nil tcx c : with_outcomes tcx [] c = c.
Proof. unfold with_outcomes. cbn. rewrite !app_nil_r. by destruct c. Qed.

Lemma record_plan_outcome tcx group c strategy : record_plan tcx group.1 c strategy = with_outcomes tcx [(group, strategy)] c.
Proof.
  unfold record_plan, with_outcomes, variant_of, rejection_of. cbn. destruct (plan_binding tcx group.1 strategy); cbn; rewrite ?app_nil_r; done.
Qed.

Lemma record_group_outcomes tcx group strategies c :
  foldl (record_plan tcx group.1) c strategies = with_outcomes tcx (pair group <$> strategies) c.
Proof.
  revert c. induction strategies as [|st strategies IH]; intros c; [symmetry; apply with_outcomes_nil|]. cbn.
  by rewrite IH, record_plan_outcome, with_outcomes_app.
Qed.

Lemma build_outcomes tcx s c :
  build_wrapper_variants tcx s c = with_outcomes tcx (wrapper_jobs s (group_bindings (collector_wrapper_intents c))) c.
Proof.
  unfold build_wrapper_variants, wrapper_jobs, wrapping_enabled.
  destruct (borrowck_autofix_wrapper_variants s || borrowck_wrapper_suggestions s) eqn:He.
  2: { apply orb_false_iff in He as [-> ->]. symmetry. apply with_outcomes_nil. }
  replace (negb _ && negb _) with false by (by rewrite <- negb_orb, He).
  generalize (group_bindings (collector_wrapper_intents c)). intros groups. revert c.
  induction groups as [|g groups IH]; intros c; [symmetry; apply with_outcomes_nil|]. cbn [foldl mbind list_bind].
  rewrite IH. unfold record_group at 1. by rewrite record_group_outcomes, with_outcomes_app.
Qed.

Lemma outcomes_count tcx jobs : length (omap (variant_of tcx) jobs) + length (omap (rejection_of tcx) jobs) = length jobs.
Proof.
  induction jobs as [|job jobs IH]; [done|]. cbn. unfold variant_of at 1, rejection_of at 1.
  destruct (plan_binding tcx job.1.1 job.2); cbn; lia.
Qed.

(** A strategy fits a binding when it gives shared ownership exactly to what is boxed or
    counted already, and interior access exactly to what is mutated; a counted value that
    is not mutated needs nothing. *)
Definition strategy_fits (group : Group) (strategy : WrapperStrategy.BorrowckWrapperStrategy) : Prop :=
  (has_shared_ownership strategy = true <-> intent_source group.1 <> WrapperSource.Plain) /\
  (is_Some (interior_access strategy false) <-> needs_mutation group = true) /\
  (intent_source group.1 = WrapperSource.Rc -> needs_mutation group = true).

(** The strategies of a program with one thread; the others are for several. *)
Definition single_threaded (strategy : WrapperStrategy.BorrowckWrapperStrategy) : Prop :=
  strategy = WrapperStrategy.Rc \/ strategy = WrapperStrategy.RefCell \/ strategy = WrapperStrategy.RcRefCell.

Lemma strategies_exact source mutated suggestions strategy :
  strategy ∈ strategies_for source mutated suggestions <->
  ((has_shared_ownership strategy = true <-> source <> WrapperSource.Plain) /\
   (is_Some (interior_access strategy false) <-> mutated = true) /\
   (source = WrapperSource.Rc -> mutated = true)) /\
  (single_threaded strategy \/ suggestions = true).
Proof.
  assert (forall x, is_Some (@Some string x) <-> True) as Hsome by (intros x; split; [done|by eexists]).
  assert (is_Some (@None string) <-> False) as Hnone by (split; [apply is_Some_None|done]).
  unfold single_threaded.
  destruct source, mutated, suggestions, strategy; cbn; rewrite ?Hsome, ?Hnone, ?elem_of_cons, ?elem_of_nil;
    clear; intuition congruence.
Qed.

Lemma strategies_NoDup source mutated suggestions : NoDup (strategies_for source mutated suggestions).
Proof.
  destruct source, mutated, suggestions; cbn;
    repeat (apply NoDup_cons; split; [rewrite ?elem_of_cons, ?elem_of_nil; naive_solver|]); apply NoDup_nil_2.
Qed.

(** A group is paired with exactly the strategies that fit it. *)
Lemma jobs_exact s groups group strategy :
  (group, strategy) ∈ wrapper_jobs s groups <->
  group ∈ groups /\ wrapping_enabled s = true /\ strategy_fits group strategy /\
  (single_threaded strategy \/ borrowck_wrapper_suggestions s = true).
Proof.
  unfold wrapper_jobs, strategy_fits. destruct (wrapping_enabled s).
  2: { rewrite elem_of_nil. naive_solver. }
  rewrite list_elem_of_bind. setoid_rewrite list_elem_of_fmap. split.
  - intros (g & (st & [= -> ->] & Hst) & Hg). apply strategies_exact in Hst. naive_solver.
  - intros (Hg & _ & Hst). exists group. split; [|done]. exists strategy. split; [done|]. by apply strategies_exact.
Qed.

Lemma jobs_NoDup s groups : NoDup groups -> NoDup (wrapper_jobs s groups).
Proof.
  intros Hn. unfold wrapper_jobs. destruct (wrapping_enabled s); [|constructor]. apply NoDup_bind; [| |done].
  - intros g h y _ _ (st & -> & _)%list_elem_of_fmap (st' & [= ->] & _)%list_elem_of_fmap. done.
  - intros g _. apply (NoDup_fmap_2 _), strategies_NoDup.
Qed.

Definition sample_wrapper_session : Session := mk_session true None None true true None "x86_64-unknown-linux-gnu".
Definition sample_collector : BorrowckRepairCollector := mk_collector [] [] [] [] [] [sample_intent 15; sample_intent 29] [] [].

(** C19: Every binding the borrow checker named is answered once for each strategy that fits
    it.  [build_wrapper_variants] groups the intents by binding, one group per binding, whose
    members stand for all the intents with their binding and need and point to the last place
    that triggered them; the groups are in the order of the source.  With wrapping enabled the
    strategies tried for a group are exactly those that give shared ownership to boxed and
    counted values and to no other, and interior access to mutated bindings and to no other,
    none for a counted value that is not mutated, and, unless suggestions are asked for, only
    those for a single thread.  No group is tried with a strategy twice; each trial records
    either the variant planned or the reason for refusing; nothing else of the collector
    changes. *)
Theorem every_strategy_answered tcx s c :
  let groups := group_bindings (collector_wrapper_intents c) in
  let c' := build_wrapper_variants tcx s c in
  groups_ok (collector_wrapper_intents c) groups /\
  StronglySorted (fun a b : Group => (span_lo (intent_binding_span a.1) <=? span_lo (intent_binding_span b.1))%N = true) groups /\
  exists jobs,
    NoDup jobs /\
    (forall group strategy, (group, strategy) ∈ jobs <->
       group ∈ groups /\ (borrowck_autofix_wrapper_variants s = true \/ borrowck_wrapper_suggestions s = true) /\
       strategy_fits group strategy /\ (single_threaded strategy \/ borrowck_wrapper_suggestions s = true)) /\
    c' = with_outcomes tcx jobs c /\
    length (collector_wrapper_variants c') + length (collector_wrapper_rejections c')
    = length (collector_wrapper_variants c) + length (collector_wrapper_rejections c) + length jobs.
Proof.
  cbn zeta. pose proof (group_bindings_ok (collector_wrapper_intents c)) as Hok.
  split; [done|]. split; [apply (sort_on_sorted _ N.leb)|].
  exists (wrapper_jobs s (group_bindings (collector_wrapper_intents c))).
  split; [apply jobs_NoDup; by eapply NoDup_fmap_1, groups_unique|].
  split; [intros group strategy; rewrite jobs_exact; unfold wrapping_enabled; by rewrite orb_true_iff|].
  rewrite build_outcomes. split; [done|]. unfold with_outcomes. cbn. rewrite !length_app.
  pose proof (outcomes_count tcx (wrapper_jobs s (group_bindings (collector_wrapper_intents c)))). lia.
Qed.

Example sample_wrapper_outcomes :
  (fun v => (variant_strategy v, span_lo (variant_trigger_span v)))
    <$> collector_wrapper_variants (build_wrapper_variants sample_hir sample_wrapper_session sample_collector)
  = [(WrapperStrategy.RefCell, 29%N); (WrapperStrategy.Mutex, 29%N); (WrapperStrategy.RwLock, 29%N)].
Proof. vm_compute. reflexivity. Qed.
