(* ===== verification/Compilation.v ===== *)
(** * One compilation, from the bodies to the plan

    While a crate is borrow checked, every body is recorded ([do_mir_borrowck] of
    [rustc_borrowck/src/lib.rs] calls [record_ownership_events]) and diagnostics add repairs
    and wrapper intents to the collector; then [analysis] of [rustc_interface/src/passes.rs]
    builds the wrapper variants and writes the plan.  The order in which bodies are checked and
    diagnostics reported is that of a list of actions. *)

From S2P Require Import Prelude RustStr RustColl RustPath CompilerData MemoryGraph RepairPlan Mir OwnershipEvents WrapperRewrite.
From stdpp Require Import options.

Section compilation.
Context {Ty : Type} (types : OwnershipEvents.TyCtxt Ty) (hir : WrapperRewrite.TyCtxt).
Context (alphanumeric : string -> bool) (canonicalize : PathBuf -> option PathBuf) (source_map : SourceMap).

(** What the borrow checker has when it records a body. *)
Record CheckedBody : Type := mk_checked {
  checked_def : BodyDef;
  checked_body : Body Ty;
  checked_inits : list Init;
  checked_borrows : list BorrowData
}.

Inductive action : Type :=
| CheckBody (checked : CheckedBody)
| ReportRepair (kind : RepairKind.BorrowckRepairKind) (binding_span : option Span) (edits : list (Span * string))
| ReportIntent (intent : BorrowckWrapperIntent).

Definition perform (s : Session) (c : BorrowckRepairCollector) (a : action) : result BorrowckRepairCollector :=
  match a with
  | CheckBody checked =>
      record_ownership_events types s (checked_def checked) (checked_body checked) (checked_inits checked) (checked_borrows checked) c
  | ReportRepair kind binding_span edits => Ok (record_borrowck_repair_for_binding s kind binding_span edits c)
  | ReportIntent intent => Ok (record_borrowck_wrapper_intent s intent c)
  end.

Definition borrow_check (s : Session) (actions : list action) : result BorrowckRepairCollector :=
  fold_result (perform s) empty_collector actions.

(** The part of [analysis] that follows the borrow checker. *)
Definition analysis (s : Session) (c : BorrowckRepairCollector) (crate_name : string) (stable_crate_id : N) :
    BorrowckRepairCollector * result plan_output :=
  if is_some (borrowck_autofix s) || borrowck_ownership_events s || is_some (borrowck_ownership_model s)
     || borrowck_wrapper_suggestions s
  then
    let c := if is_some (borrowck_autofix s) || borrowck_wrapper_suggestions s then build_wrapper_variants hir s c else c in
    (c, write_borrowck_repair_plan alphanumeric canonicalize source_map s c crate_name stable_crate_id)
  else (c, Ok NoPlan).
End compilation.
