(* ===== verification/CompilationSpec.v ===== *)
(** * What a compilation guarantees to the reader of its plan

    The recorder, the collector, the plan writer and the reader in rust-analyzer together: the
    assumptions the plan's theorems make about the collector are what the borrow checker's
    recording provides. *)

From S2P Require Import Prelude RustStr RustColl RustPath CompilerData MemoryGraph MemoryGraphSpec RepairPlan RepairPlanSpec AnalyzerData PipelineSpec Mir MirSpec OwnershipEvents OwnershipEventsSpec WrapperRewrite WrapperRewriteSpec Compilation.
From stdpp Require Import relations options.

(** ** Recording is made of the collector's steps *)

Lemma foldl_steps {A} s (f : BorrowckRepairCollector -> A -> BorrowckRepairCollector) l c :
  (forall c x, record_step s c (f c x)) -> rtc (record_step s) c (foldl f c l).
Proof. intros Hf. revert c. induction l as [|x l IH]; intros c; cbn; [done|]. eapply rtc_l; [apply Hf|apply IH]. Qed.

Lemma record_facts_steps s facts c : rtc (record_step s) c (record_facts s facts c).
Proof.
  unfold record_facts. eapply rtc_l; [apply RecordBody|].
  do 2 (etransitivity; [|apply foldl_steps; constructor]). apply foldl_steps. constructor.
Qed.

Lemma build_wrapper_steps hir s c : rtc (record_step s) c (build_wrapper_variants hir s c).
Proof.
  unfold build_wrapper_variants. case_match; [done|]. generalize (group_bindings (collector_wrapper_intents c)). intros groups.
  revert c H. induction groups as [|g groups IH]; intros c H; cbn; [done|]. etransitivity; [|by apply IH].
  unfold record_group. apply foldl_steps. intros c' strategy. unfold record_plan. case_match; constructor.
Qed.

(** ** Events in the collector *)

(** The event is about a location of a body that was checked. *)
Definition event_at {Ty} (checked : CheckedBody (Ty:=Ty)) (event : BorrowckOwnershipEvent) : Prop :=
  known (cevent_state event) /\ cevent_body_id event = definition_body_id (checked_def checked) /\
  exists location, cevent_basic_block event = as_u32 (location_block location) /\
    cevent_statement_index event = as_u32 (location_statement_index location) /\
    source_span (checked_body checked) location = Some (cevent_span event).

Lemma state_known kind : known (ownership_state kind).
Proof. by destruct kind. Qed.

Lemma facts_events_at {Ty} (types : OwnershipEvents.TyCtxt Ty) checked facts :
  body_facts types (checked_def checked) (checked_body checked) (checked_inits checked) (checked_borrows checked) = Ok facts ->
  Forall (event_at checked) (facts_events facts).
Proof.
  unfold body_facts. intros H. repeat (apply bind_ok in H as (? & ? & H)). injection H as <-. cbn. rename select (fold_result _ _ _ = _) into He.
  apply push_events_spec in He as ->; [|cbn; lia]. apply Forall_take. cbn. apply Forall_forall.
  intros event (c & _ & Hc)%list_elem_of_omap. unfold event_of in Hc. destruct (binding_of _ _) as [binding|]; [|done]. cbn in Hc.
  destruct (source_span _ _) as [span|] eqn:Hs; [|done]. injection Hc as <-. split; [apply state_known|]. split; [done|].
  by exists (cand_location c).
Qed.

Lemma foldl_keeps_events {A} (f : BorrowckRepairCollector -> A -> BorrowckRepairCollector) l c :
  (forall c x, collector_ownership_events (f c x) = collector_ownership_events c) ->
  collector_ownership_events (foldl f c l) = collector_ownership_events c.
Proof. intros Hf. revert c. induction l as [|x l IH]; intros c; cbn; [done|]. by rewrite IH, Hf. Qed.

Lemma record_facts_events s facts c event :
  event ∈ collector_ownership_events (record_facts s facts c) -> event ∈ collector_ownership_events c \/ event ∈ facts_events facts.
Proof.
  unfold record_facts. set (c1 := foldl _ _ (facts_loans facts)).
  assert (collector_ownership_events c1 = collector_ownership_events c) as <-.
  { subst c1. rewrite !foldl_keeps_events; [unfold record_borrowck_ownership_body; by case_match|..]; intros c' x;
      unfold record_borrowck_ownership_binding, record_borrowck_ownership_loan; by case_match. }
  clearbody c1. generalize (facts_events facts). intros events. revert c1. induction events as [|e events IH]; intros c1; cbn; [by left|].
  intros [H|H]%IH; [|right; by right]. unfold record_borrowck_ownership_event in H. repeat case_match; [by left..|].
  cbn in H. apply elem_of_app in H as [?| ->%list_elem_of_singleton]; [by left|right; by left].
Qed.

(** ** A crate *)

Section crate.
Context {Ty : Type} (types : OwnershipEvents.TyCtxt Ty) (hir : WrapperRewrite.TyCtxt) (s : Session).

Definition body_of (a : action (Ty:=Ty)) : option (CheckedBody (Ty:=Ty)) :=
  match a with
  | CheckBody checked => Some checked
  | _ => None
  end.

Definition bodies (actions : list (action (Ty:=Ty))) : list (CheckedBody (Ty:=Ty)) := omap body_of actions.

(** Block and statement indices fit in 32 bits. *)
Definition fits_u32 (body : Body Ty) : Prop :=
  (len (basic_blocks body) < 2 ^ 32)%N /\ Forall (fun data => (len (statements data) < 2 ^ 32)%N) (basic_blocks body).

(** The bodies are well formed, of a size that can be counted, and have an identifier each. *)
Record checkable (actions : list (action (Ty:=Ty))) : Prop := {
  ca_well_formed : Forall (fun b => well_formed (checked_body b) (checked_inits b) (checked_borrows b)) (bodies actions);
  ca_fits : Forall (fun b => fits_u32 (checked_body b)) (bodies actions);
  ca_distinct : NoDup ((fun b => definition_body_id (checked_def b)) <$> bodies actions)
}.

Lemma perform_steps c a c' : perform types s c a = Ok c' -> rtc (record_step s) c c'.
Proof using Type.
  destruct a as [checked|kind span edits|intent]; cbn.
  - unfold record_ownership_events. do 2 (case_match; [by intros [= <-]|]). intros (facts & _ & [= <-])%bind_ok. apply record_facts_steps.
  - intros [= <-]. apply rtc_once. constructor.
  - intros [= <-]. apply rtc_once. constructor.
Qed.

Lemma perform_total c a :
  (forall checked, body_of a = Some checked -> well_formed (checked_body checked) (checked_inits checked) (checked_borrows checked)) ->
  exists c', perform types s c a = Ok c'.
Proof using Type.
  destruct a as [checked|kind span edits|intent]; cbn; [|by eauto..]. intros Hwf. unfold record_ownership_events.
  do 2 (case_match; [by eauto|]). destruct (facts_total types (checked_def checked) _ _ _ (Hwf _ eq_refl)) as (? & facts & _ & ->).
  cbn. by eauto.
Qed.

Lemma perform_events c a c' event :
  perform types s c a = Ok c' -> event ∈ collector_ownership_events c' ->
  event ∈ collector_ownership_events c \/ exists checked, body_of a = Some checked /\ event_at checked event.
Proof using Type.
  destruct a as [checked|kind span edits|intent]; cbn.
  - unfold record_ownership_events. do 2 (case_match; [intros [= <-]; by left|]).
    intros (facts & Hf & [= <-])%bind_ok [He|He]%record_facts_events; [by left|right].
    exists checked. split; [done|]. apply facts_events_at in Hf. rewrite Forall_forall in Hf. auto.
  - intros [= <-] He. left. unfold record_borrowck_repair_for_binding in He. by repeat case_match.
  - intros [= <-] He. left. unfold record_borrowck_wrapper_intent in He. by repeat case_match.
Qed.

Lemma fold_perform actions c :
  Forall (fun b => well_formed (checked_body b) (checked_inits b) (checked_borrows b)) (bodies actions) ->
  exists c', fold_result (perform types s) c actions = Ok c' /\ rtc (record_step s) c c' /\
    forall event, event ∈ collector_ownership_events c' ->
      event ∈ collector_ownership_events c \/ exists checked, checked ∈ bodies actions /\ event_at checked event.
Proof using Type.
  revert c. induction actions as [|a actions IH]; intros c Hwf; cbn; [exists c; split; [done|]; split; [done|by left]|].
  destruct (perform_total c a) as [c1 Hc1].
  { intros checked Ha. rewrite Forall_forall in Hwf. apply Hwf. unfold bodies. cbn. rewrite Ha. by left. }
  destruct (IH c1) as (c' & Hc' & Hr & He).
  { unfold bodies in Hwf |- *. cbn in Hwf. destruct (body_of a); [by apply Forall_cons in Hwf as [_ ?]|done]. }
  exists c'. rewrite Hc1. split; [done|]. split; [etransitivity; [by eapply perform_steps|done]|].
  assert (forall checked, checked ∈ bodies actions -> checked ∈ bodies (a :: actions)) as Hsub
    by (intros checked Hin; unfold bodies in *; cbn; destruct (body_of a); [by right|done]).
  intros event [H|(checked & Hin & Hat)]%He; [|right; exists checked; auto].
  destruct (perform_events _ _ _ _ Hc1 H) as [?|(checked & Ha & Hat)]; [by left|right]. exists checked. split; [|done].
  unfold bodies. cbn. rewrite Ha. by left.
Qed.

Lemma source_span_u32 body location span :
  fits_u32 body -> source_span body location = Some span ->
  as_u32 (location_block location) = location_block location /\ as_u32 (location_statement_index location) = location_statement_index location.
Proof using Type.
  intros [Hb Hs]. unfold source_span, block_data. destruct (get_N (basic_blocks body) _) as [data|] eqn:Hd; [|done]. cbn.
  rewrite get_N_spec in Hd. pose proof (lookup_lt_Some _ _ _ Hd) as Hlt. rewrite Forall_forall in Hs.
  specialize (Hs data (list_elem_of_lookup_2 _ _ _ Hd)). unfold len in *. intros Hi.
  assert (location_statement_index location <= N.of_nat (length (statements data)))%N as Hle.
  { destruct (get_N (statements data) _) as [st|] eqn:Hst; [rewrite get_N_spec in Hst; apply lookup_lt_Some in Hst; lia|].
    destruct (N.eqb_spec (location_statement_index location) (N.of_nat (length (statements data)))) as [->|]; [lia|discriminate Hi]. }
  unfold as_u32. split; apply N.mod_small; lia.
Qed.

Lemma events_located actions c :
  checkable actions ->
  (forall event, event ∈ collector_ownership_events c -> exists checked, checked ∈ bodies actions /\ event_at checked event) ->
  located (collector_ownership_events c).
Proof using Type.
  intros [_ Hfit Hids] Hall a b Ha Hb Hid Hblock Hindex.
  destruct (Hall a Ha) as (ca & Hca & _ & Hia & la & Hba & Hsa & Hspa). destruct (Hall b Hb) as (cb & Hcb & _ & Hib & lb & Hbb & Hsb & Hspb).
  apply list_elem_of_lookup in Hca as [i Hi], Hcb as [j Hj].
  assert (i = j) as ->.
  { eapply (NoDup_lookup _ i j (cevent_body_id a) Hids); rewrite list_lookup_fmap; [rewrite Hi|rewrite Hj]; cbn; congruence. }
  assert (ca = cb) as -> by congruence. rewrite Forall_forall in Hfit. specialize (Hfit cb (list_elem_of_lookup_2 _ _ _ Hj)).
  destruct (source_span_u32 _ _ _ Hfit Hspa) as [H1 H2], (source_span_u32 _ _ _ Hfit Hspb) as [H3 H4].
  assert (la = lb) as -> by (destruct la, lb; cbn in *; f_equal; congruence). congruence.
Qed.
End crate.

(** ** The plan and its reader *)

(** The plan that is written, if any *)
Definition written (output : plan_output) : option SerializedBorrowckRepairPlan :=
  match output with
  | NoPlan => None
  | OrchestratedPlan _ plan | DirectModel _ plan => Some plan
  end.

Definition readable (plan : SerializedBorrowckRepairPlan) : Prop :=
  exists artifact, read_artifact plan = Some artifact /\ (2 <= artifact_schema_version artifact <= 7)%N.

Lemma readable_sources sources plan : readable plan -> readable (plan_with_sources sources plan).
Proof.
  intros (artifact & H & Hv). unfold readable, read_artifact in *. cbn [plan_ownership_events plan_memory_graph plan_with_sources].
  destruct (mapM read_event (plan_ownership_events plan)) as [events|]; [|done]. cbn in H |- *.
  destruct (read_graph (plan_memory_graph plan)) as [graph|]; [|done]. cbn in H |- *. injection H as <-. eexists. split; [done|]. exact Hv.
Qed.

(** What reading a plan relies on *)
Definition sound_plan (plan : SerializedBorrowckRepairPlan) : Prop :=
  readable plan /\ NoDup (event_fields <$> plan_ownership_events plan) /\
  NoDup (obody_body_id <$> plan_ownership_bodies plan) /\ NoDup (loan_key <$> plan_ownership_loans plan) /\
  graph_wf (plan_memory_graph plan).

Lemma sound_sources sources plan : sound_plan plan -> sound_plan (plan_with_sources sources plan).
Proof. intros (H1 & H). split; [by apply readable_sources|exact H]. Qed.

Lemma written_sound alphanumeric canonicalize source_map s c crate_name id output plan :
  Forall (fun event => known (cevent_state event)) (collector_ownership_events c) -> located (collector_ownership_events c) ->
  write_borrowck_repair_plan alphanumeric canonicalize source_map s c crate_name id = Ok output -> written output = Some plan ->
  sound_plan plan.
Proof.
  intros Hk Hl Hw Hplan.
  assert (forall p, borrowck_repair_plan alphanumeric canonicalize source_map s c crate_name id = Ok p -> sound_plan p) as Hsound.
  { intros p Hp. destruct (plan_tables_in_order _ _ _ _ _ _ _ _ Hp) as (_ & Hb & _ & Hloans & _ & Hg).
    split; [by eapply plan_readable|]. split; [by eapply plan_events_unique|]. done. }
  revert Hw. unfold write_borrowck_repair_plan. destruct (autofix_plan_env s), (borrowck_ownership_model s).
  1,2,3: intros (plan' & Hp & [= <-])%bind_ok; injection Hplan as <-; auto using sound_sources.
  intros [= <-]. discriminate Hplan.
Qed.

Lemma analysis_keeps_events hir s c : collector_ownership_events (build_wrapper_variants hir s c) = collector_ownership_events c.
Proof. by rewrite build_outcomes. Qed.

Lemma analysis_cases {hir alphanumeric canonicalize source_map s c crate_name id} :
  exists c', (c' = c \/ c' = build_wrapper_variants hir s c) /\
    (analysis hir alphanumeric canonicalize source_map s c crate_name id
       = (c', write_borrowck_repair_plan alphanumeric canonicalize source_map s c' crate_name id)
     \/ analysis hir alphanumeric canonicalize source_map s c crate_name id = (c', Ok NoPlan)).
Proof. unfold analysis. repeat case_match; eauto 6. Qed.

(** C9: From the bodies of a crate to the reader of its plan.  When its bodies are well
    formed, fit in 32-bit indices and have an identifier each, the borrow checker records them
    without a panic, in any order and among any reported repairs and intents; the collector
    that [analysis] leaves holds authored facts only; and a plan that is written can be read
    by rust-analyzer, lists no event, body or loan twice, and has a well-formed memory
    graph. *)
Theorem compilation_writes_sound_plan {Ty} (types : OwnershipEvents.TyCtxt Ty) hir alphanumeric canonicalize source_map s
    (actions : list action) crate_name id :
  checkable actions ->
  exists c, borrow_check types s actions = Ok c /\
    let '(c', output) := analysis hir alphanumeric canonicalize source_map s c crate_name id in
    collector_inv s c' /\
    forall result plan, output = Ok result -> written result = Some plan -> sound_plan plan.
Proof.
  intros Hok. destruct (fold_perform types s actions empty_collector (ca_well_formed _ Hok)) as (c & Hc & Hr & He).
  assert (forall event, event ∈ collector_ownership_events c -> exists checked, checked ∈ bodies actions /\ event_at checked event) as Hat
    by (intros event [Hin|?]%He; [by apply not_elem_of_nil in Hin|done]).
  exists c. split; [exact Hc|]. destruct (analysis_cases (hir:=hir) (alphanumeric:=alphanumeric) (canonicalize:=canonicalize)
    (source_map:=source_map) (s:=s) (c:=c) (crate_name:=crate_name) (id:=id)) as (c' & Hc' & Ha).
  assert (collector_ownership_events c' = collector_ownership_events c) as Hev by (destruct Hc' as [->| ->]; [done|apply analysis_keeps_events]).
  assert (rtc (record_step s) empty_collector c') as Hr'
    by (destruct Hc' as [->| ->]; [done|etransitivity; [done|apply build_wrapper_steps]]).
  apply collector_holds_authored_facts in Hr'.
  destruct Ha as [-> | ->]; (split; [done|]); intros output plan Hw Hplan; [|injection Hw as <-; discriminate Hplan].
  eapply written_sound; [| |exact Hw|exact Hplan]; rewrite Hev; [|by eapply events_located].
  apply Forall_forall. intros event Hin. destruct (Hat _ Hin) as (? & _ & ? & _). done.
Qed.

(** The sample body, and a binding to wrap *)
Definition sample_actions : list (action (Ty:=N)) :=
  [ReportIntent (sample_intent 15);
   CheckBody (mk_checked sample_def OwnershipEventsSpec.sample_body sample_inits sample_borrows)].

Definition sample_options : Session := mk_session true (Some "/target/model") None false true None "x86_64".

Definition sample_checked : BorrowckRepairCollector :=
  match borrow_check sample_tcx sample_options sample_actions with Ok c => c | Err _ => empty_collector end.

Definition sample_output : plan_output :=
  match (analysis sample_hir (fun _ => false) Some sample_map sample_options sample_checked "demo" 7).2 with
  | Ok output => output
  | Err _ => NoPlan
  end.

Lemma sample_checkable : checkable sample_actions.
Proof.
  split.
  - constructor; [exact sample_well_formed|constructor].
  - constructor; [|constructor]. split; [reflexivity|]. repeat (constructor; [reflexivity|]). constructor.
  - apply NoDup_singleton.
Qed.

Lemma compilation_writes_sound_plan_witness :
  match written sample_output with
  | Some plan => sound_plan plan /\ 0 < length (plan_ownership_events plan)
  | None => False
  end.
Proof.
  destruct (compilation_writes_sound_plan sample_tcx sample_hir (fun _ => false) Some sample_map sample_options sample_actions "demo" 7
    sample_checkable) as (c & Hc & H).
  assert (c = sample_checked) as -> by (unfold sample_checked; by rewrite Hc).
  destruct (written sample_output) as [plan|] eqn:Hw; [|vm_compute in Hw; discriminate Hw]. split.
  - destruct (analysis _ _ _ _ _ _ _ _) as [c' output] eqn:Ha. apply (proj2 H sample_output); [|exact Hw].
    unfold sample_output. rewrite Ha. cbn. destruct output as [o|]; [done|]. vm_compute in Ha. discriminate Ha.
  - vm_compute in Hw. injection Hw as <-. vm_compute. lia.
Defined.
