(* ===== verification/AnalyzerEstimates.v ===== *)
(** * rust-analyzer: estimated ownership hints

    While a file is edited, [ide/src/inlay_hints/ownership.rs] labels the uses of every local
    with what they seem to do, from the syntax alone.  A use is found by the analyzer's search;
    [references_of] gives its results for the file, [ancestors] the node and the nodes around
    it, as [rowan] does. *)

From Stdlib Require Import Ascii String.
From S2P Require Import Prelude RustStr RustColl RustPath RepairPlan AutofixDriver LineIndex AnalyzerSyntax AnalyzerInsight AnalyzerConflict.
From stdpp Require Import options.

(** The node itself comes first. *)
Class SyntaxParents (Node : Type) : Type := { ancestors : Node -> list Node }.

Inductive FileReferenceNode (Node : Type) : Type :=
| NameRefNode (name_ref : Node)
| OtherReferenceNode.
#[global] Arguments NameRefNode {_} _.
#[global] Arguments OtherReferenceNode {_}.

(** [reference_write] is [category.contains(WRITE)]. *)
Record FileReference (Node : Type) : Type := mk_reference {
  reference_range : N * N;
  reference_name : FileReferenceNode Node;
  reference_write : bool
}.
#[global] Arguments mk_reference {_} _ _ _.
#[global] Arguments reference_range {_} _.
#[global] Arguments reference_name {_} _.
#[global] Arguments reference_write {_} _.

(** What the analyzer knows of the locals of a file: the local of a pattern, whether its type is
    [Copy], and its references in this file, [None] when the search has none there. *)
Record Locals (Node Local : Type) : Type := mk_locals {
  local_of : Node -> option Local;
  local_is_copy : Local -> bool;
  references_of : Local -> option (list (FileReference Node))
}.
#[global] Arguments local_of {_ _}.
#[global] Arguments local_is_copy {_ _}.
#[global] Arguments references_of {_ _}.

Section views.
Context {Node : Type} `{SyntaxTree Node} `{SyntaxParents Node} `{EqDecision Node}.

Definition parent_of (node : Node) : option Node := ancestors node !! 1.

Definition path_of (node : Node) : option Node := support_child (kind_is PATH) node.
Definition segment_of (path : Node) : option Node := support_child (kind_is PATH_SEGMENT) path.
Definition name_ref_of (node : Node) : option Node := support_child (kind_is NAME_REF) node.

(** [Path::as_single_name_ref]; the qualifier of a path is the path inside it. *)
Definition as_single_name_ref (path : Node) : option Node :=
  match path_of path with
  | Some _ => None
  | None => segment ← segment_of path; name_ref_of segment
  end.

(** The path expression that is just this name, with the node around it. *)
Definition single_use (name_ref : Node) : option (Node * Node) :=
  path_expr ← find_first (has_kind PATH_EXPR) (ancestors name_ref);
  path ← path_of path_expr;
  if bool_decide (as_single_name_ref path = Some name_ref) then
    parent ← parent_of path_expr;
    Some (path_expr, parent)
  else None.

(** The first expression of the node is this one. *)
Definition is_operand (node path : Node) : bool := bool_decide (expr_of node = Some path).
End views.

Abbreviation Candidate := ((N * N) * list (string * string))%type.

Section estimates.
Context {Node Function Local : Type} `{SyntaxTree Node} `{SyntaxParents Node} `{EqDecision Node} `{EqDecision Function}.
Context (sema : Semantics Node Function) (locals : Locals Node Local).

Definition classify (reference : FileReference Node) (is_copy : bool) : option (string * string) :=
  match reference_name reference with
  | OtherReferenceNode => None
  | NameRefNode name_ref =>
      '(path, parent) ← single_use name_ref;
      if has_kind REF_EXPR parent && is_operand parent path then
        if is_some (support_token MUT_KW parent) then Some ("&mut?", "A mutable borrow appears to start here.")
        else Some ("&?", "A shared borrow appears to start here.")
      else if has_kind METHOD_CALL_EXPR parent && is_operand parent path then
        function ← resolve_method_call sema parent;
        access ← function_self_access sema function;
        match access with
        | Shared => Some ("&?", "The method receiver is shared-borrowed.")
        | Exclusive => Some ("&mut?", "The method receiver is mutably borrowed.")
        | Owned => if is_copy then None else Some ("move?", "The method consumes its receiver.")
        end
      else if has_kind LET_STMT parent && is_operand parent path && negb is_copy then
        Some ("move?", "A non-Copy value is moved into this binding.")
      else if has_kind ARG_LIST parent && negb is_copy then Some ("move?", "A non-Copy value may be moved into this call.")
      else if has_kind BIN_EXPR parent && is_assignment parent && is_operand parent path then
        Some ("reinit?", "This assignment reinitializes or mutates the binding.")
      else None
  end.

(** A label is added once, with its explanation. *)
Definition add_label (entry : string * string) (labels : list (string * string)) : list (string * string) :=
  if bool_decide (entry.1 ∈ labels.*1) then labels else labels ++ [entry].

Fixpoint add_candidate (range : N * N) (entry : string * string) (candidates : list Candidate) : list Candidate :=
  match candidates with
  | [] => [(range, add_label entry [])]
  | (r, labels) :: candidates =>
      if bool_decide (r = range) then (r, add_label entry labels) :: candidates
      else (r, labels) :: add_candidate range entry candidates
  end.

Definition LAST_USE : string * string :=
  ("last?", "Estimated final textual use. The compiler replaces this with MIR control-flow facts after a check.").

(** The labels of the references of one local, in the order they are added. *)
Definition local_labels (local : Local) : list ((N * N) * (string * string)) :=
  match references_of locals local with
  | None => []
  | Some references =>
      let is_copy := local_is_copy locals local in
      omap (fun reference => pair (reference_range reference) <$> classify reference is_copy) references
      ++ (if is_copy then []
          else match max_by (on (fun reference => (reference_range reference).2) N.leb) references with
               | Some last => [(reference_range last, LAST_USE)]
               | None => []
               end)
  end.

(** A pattern that is just a name *)
Definition pattern_labels (ident_pat : Node) : list ((N * N) * (string * string)) :=
  if is_some (pat_of ident_pat) || negb (is_some (name_of ident_pat)) then []
  else default [] (local_labels <$> local_of locals ident_pat).

Definition file_labels (root : Node) : list ((N * N) * (string * string)) := concat (pattern_labels <$> ident_pats root).

Definition file_candidates (root : Node) : list Candidate :=
  foldl (fun candidates entry => add_candidate entry.1 entry.2 candidates) [] (file_labels root).

Record Estimate : Type := mk_estimate {
  estimate_range : N * N;
  estimate_label : string;
  estimate_tooltip : string
}.

Definition contains_range (outer inner : N * N) : bool := ((outer.1 <=? inner.1) && (inner.2 <=? outer.2))%N.

Definition line_break : string := String "010" EmptyString.

Definition estimate_of (candidate : Candidate) : Estimate :=
  let '(range, labels) := candidate in
  mk_estimate range (join " · " labels.*1)
    ("**Estimated ownership flow**" +:+ line_break +:+ line_break
     +:+ join line_break ((fun explanation => "- " +:+ explanation) <$> labels.*2) +:+ line_break +:+ line_break
     +:+ "Save the file to replace estimates with compiler-derived MIR events.").

(** [iteration] is the order in which the hash map of candidates is walked. *)
Definition hints (iteration : list Candidate -> list Candidate) (root : Node) (range_limit : option (N * N)) : list Estimate :=
  estimate_of
  <$> retain (fun candidate => match range_limit with Some limit => contains_range limit candidate.1 | None => true end)
        (iteration (file_candidates root)).
End estimates.
