(* ===== verification/AnalyzerEstimatesSpec.v ===== *)
(** * What the estimated hints guarantee

    One hint per place, with each label that some use there has; every use of a local that can
    be classified is labelled, and the textually last use of a value that is not [Copy]; and
    every label says that it is an estimate, so that facts of the compiler replace it. *)

From Stdlib Require Import Ascii String.
From S2P Require Import Prelude RustStr RustColl RustPath RepairPlan AutofixDriver LineIndex AnalyzerSyntax AnalyzerSyntaxSpec AnalyzerInsight AnalyzerConflict AnalyzerConflictSpec AnalyzerEstimates.
From S2P Require Import Protocol AnalyzerHints.
From stdpp Require Import options.

(** ** Labels at a place *)

Definition labelled (candidates : list Candidate) (range : N * N) (entry : string * string) : Prop :=
  exists labels, (range, labels) ∈ candidates /\ entry.1 ∈ labels.*1.

(** Places are distinct, each has labels, and no label is repeated. *)
Record candidates_ok (candidates : list Candidate) : Prop := {
  co_places : NoDup candidates.*1;
  co_labels : Forall (fun candidate => candidate.2 <> [] /\ NoDup candidate.2.*1) candidates
}.

Lemma add_label_elem entry labels label : label ∈ (add_label entry labels).*1 <-> label ∈ labels.*1 \/ label = entry.1.
Proof.
  unfold add_label. case_bool_decide as Hin; [naive_solver|]. rewrite fmap_app, elem_of_app. cbn. by rewrite list_elem_of_singleton.
Qed.

Lemma add_label_ok entry labels : NoDup labels.*1 -> add_label entry labels <> [] /\ NoDup (add_label entry labels).*1.
Proof.
  intros Hn. unfold add_label. case_bool_decide as Hin.
  - split; [|done]. intros ->. by apply not_elem_of_nil in Hin.
  - split; [by destruct labels|]. rewrite fmap_app. apply NoDup_app. split; [done|]. split; [|apply NoDup_singleton].
    cbn. intros l Hl ->%list_elem_of_singleton. done.
Qed.

Lemma add_candidate_places range entry candidates r :
  r ∈ (add_candidate range entry candidates).*1 <-> r ∈ candidates.*1 \/ r = range.
Proof.
  induction candidates as [|[r' labels] candidates IH]; cbn; [set_solver|]. case_bool_decide as Hr; cbn; rewrite !elem_of_cons.
  - subst r'. naive_solver.
  - rewrite IH. naive_solver.
Qed.

Lemma add_candidate_ok range entry candidates : candidates_ok candidates -> candidates_ok (add_candidate range entry candidates).
Proof.
  intros [Hp Hl]. induction candidates as [|[r labels] candidates IH]; cbn.
  - split; [apply NoDup_singleton|]. constructor; [|constructor]. apply add_label_ok. constructor.
  - cbn in Hp. apply NoDup_cons in Hp as [Hr Hp]. apply Forall_cons in Hl as [[Hne Hnd] Hl]. case_bool_decide as He; split.
    + by constructor.
    + constructor; [by apply add_label_ok|done].
    + cbn. constructor; [|by apply IH]. rewrite add_candidate_places. naive_solver.
    + constructor; [done|]. by apply IH.
Qed.

Lemma add_candidate_labelled range entry candidates r label :
  labelled (add_candidate range entry candidates) r label <-> labelled candidates r label \/ (r = range /\ label.1 = entry.1).
Proof.
  unfold labelled. induction candidates as [|[r' labels] candidates IH]; cbn.
  - setoid_rewrite list_elem_of_singleton. split.
    + intros (ls & [= -> ->] & [Hl|Hl]%add_label_elem); [by apply not_elem_of_nil in Hl|by right].
    + intros [(ls & Hin & _)|[-> Hl]]; [by apply not_elem_of_nil in Hin|]. eexists. split; [done|]. apply add_label_elem. by right.
  - case_bool_decide as Hr; setoid_rewrite elem_of_cons.
    + subst r'. split.
      * intros (ls & [[= -> ->]|Hin] & Hl); [|left; eauto]. apply add_label_elem in Hl as [Hl|Hl]; [left; eauto|by right].
      * intros [(ls & [[= -> ->]|Hin] & Hl)|[-> Hl]]; [|by eauto|]; eexists; (split; [by left|]); apply add_label_elem; [by left|by right].
    + split.
      * intros (ls & [[= -> ->]|Hin] & Hl); [left; eauto|]. destruct (proj1 IH) as [(ls' & ? & ?)|?]; [by eauto|left; eauto|by right].
      * intros [(ls & [[= -> ->]|Hin] & Hl)|Hl]; [by eauto| |].
        -- destruct (proj2 IH) as (ls' & ? & ?); [left; eauto|by eauto].
        -- destruct (proj2 IH) as (ls' & ? & ?); [by right|by eauto].
Qed.

Lemma fold_candidates entries candidates :
  candidates_ok candidates ->
  candidates_ok (foldl (fun candidates entry => add_candidate entry.1 entry.2 candidates) candidates entries) /\
  forall r label, labelled (foldl (fun candidates entry => add_candidate entry.1 entry.2 candidates) candidates entries) r label <->
    labelled candidates r label \/ exists entry, entry ∈ entries /\ entry.1 = r /\ entry.2.1 = label.1.
Proof.
  revert candidates. induction entries as [|e entries IH]; intros candidates Hok; cbn.
  { split; [done|]. intros r label. split; [by left|]. intros [?|(e & He & _)]; [done|by apply not_elem_of_nil in He]. }
  destruct (IH (add_candidate e.1 e.2 candidates)) as [H1 H2]; [by apply add_candidate_ok|]. split; [done|].
  intros r label. rewrite H2, add_candidate_labelled. setoid_rewrite elem_of_cons. naive_solver.
Qed.

(** ** Labels of a file *)

Lemma max_by_greatest {A} (f : A -> N) l x : max_by (on f N.leb) l = Some x -> Forall (fun y => (f y <= f x)%N) l.
Proof.
  destruct l as [|y l]; cbn; [done|]. intros [= <-].
  assert (forall b, Forall (fun y => (f y <= f (fold_left (fun best y => if on f N.leb best y then y else best) l b))%N) (b :: l)) as H; [|apply H].
  induction l as [|z l IH]; intros b; cbn; [by repeat constructor|]. change (on f N.leb b z) with (f b <=? f z)%N. destruct (N.leb_spec (f b) (f z)) as [Hle|Hlt].
  - pose proof (IH z) as Hz. apply Forall_cons in Hz as [Hz Hl]. constructor; [lia|]. by constructor.
  - pose proof (IH b) as Hb. apply Forall_cons in Hb as [Hb Hl]. constructor; [done|]. constructor; [lia|done].
Qed.

Section labels.
Context {Node Function Local : Type} `{SyntaxTree Node} `{SyntaxParents Node} `{EqDecision Node} `{EqDecision Function}.
Context (sema : Semantics Node Function) (locals : Locals Node Local).

(** A local declared in the file by a pattern that is just its name, with its uses *)
Definition declared (root : Node) (local : Local) (references : list (FileReference Node)) : Prop :=
  exists ident_pat, ident_pat ∈ ident_pats root /\ pat_of ident_pat = None /\ is_Some (name_of ident_pat) /\
    local_of locals ident_pat = Some local /\ references_of locals local = Some references.

(** What a use is labelled with *)
Definition use_label (local : Local) (references : list (FileReference Node)) (range : N * N) (entry : string * string) : Prop :=
  (exists reference, reference ∈ references /\ reference_range reference = range /\
     classify sema reference (local_is_copy locals local) = Some entry) \/
  (local_is_copy locals local = false /\ entry = LAST_USE /\
   exists last, max_by (on (fun reference => (reference_range reference).2) N.leb) references = Some last /\ reference_range last = range).

Lemma local_labels_spec local references range entry :
  references_of locals local = Some references ->
  (range, entry) ∈ local_labels sema locals local <-> use_label local references range entry.
Proof using Type.
  intros Hr. unfold local_labels, use_label. rewrite Hr, elem_of_app, list_elem_of_omap. apply Morphisms_Prop.or_iff_morphism.
  - split.
    + intros (reference & Hin & (e & He & [= -> ->])%fmap_Some). eauto.
    + intros (reference & Hin & <- & Hc). exists reference. by rewrite Hc.
  - destruct (local_is_copy locals local); [split; [intros Hin; by apply not_elem_of_nil in Hin|naive_solver]|].
    destruct (max_by _ references) as [last|]; [|split; [intros Hin; by apply not_elem_of_nil in Hin|naive_solver]].
    rewrite list_elem_of_singleton. split; [intros [= -> ->]; eauto 6|]. intros (_ & -> & last' & [= <-] & <-). done.
Qed.

Lemma file_labels_spec root range entry :
  (range, entry) ∈ file_labels sema locals root <->
  exists local references, declared root local references /\ use_label local references range entry.
Proof using Type.
  unfold file_labels. rewrite list_elem_of_In, in_concat. setoid_rewrite <- list_elem_of_In. split.
  - intros (l & (pat & -> & Hpat)%list_elem_of_fmap & Hin). unfold pattern_labels in Hin.
    destruct (pat_of pat) eqn:Hp; [by apply not_elem_of_nil in Hin|]. destruct (name_of pat) eqn:Hn; [|by apply not_elem_of_nil in Hin].
    cbn in Hin. destruct (local_of locals pat) as [local|] eqn:Hl; [|by apply not_elem_of_nil in Hin]. cbn in Hin.
    destruct (references_of locals local) as [references|] eqn:Hr.
    + exists local, references. split; [|by apply local_labels_spec]. exists pat. by rewrite Hn.
    + unfold local_labels in Hin. rewrite Hr in Hin. by apply not_elem_of_nil in Hin.
  - intros (local & references & (pat & Hpat & Hp & [name Hn] & Hl & Hr) & Hu). exists (pattern_labels sema locals pat).
    split; [by apply list_elem_of_fmap_2|]. unfold pattern_labels. rewrite Hp, Hn, Hl. cbn. by apply (local_labels_spec _ _ _ _ Hr).
Qed.

Lemma classify_questions reference copy entry : classify sema reference copy = Some entry -> contains "?" entry.1 = true.
Proof using Type.
  unfold classify. destruct (reference_name reference) as [name_ref|]; [|done].
  intros ([path parent] & _ & Hc)%bind_Some.
  destruct (has_kind REF_EXPR parent && _); [destruct (is_some _); by injection Hc as <-|].
  destruct (has_kind METHOD_CALL_EXPR parent && _).
  { apply bind_Some in Hc as (f & _ & (access & _ & Hc)%bind_Some). destruct access; [..|destruct copy; [done|]]; by injection Hc as <-. }
  repeat (destruct (_ && _); [by injection Hc as <-|]). done.
Qed.

Lemma labels_question root range entry : (range, entry) ∈ file_labels sema locals root -> contains "?" entry.1 = true.
Proof using Type.
  intros (local & references & _ & [(reference & _ & _ & Hc)|(_ & -> & _)])%file_labels_spec; [by eapply classify_questions|done].
Qed.
End labels.

Lemma contains_join sep l s : s ∈ l -> contains "?" s = true -> contains "?" (join sep l) = true.
Proof.
  intros Hin (a & b & ->)%contains_spec. apply contains_spec. induction l as [|x l IH]; [by apply not_elem_of_nil in Hin|].
  apply elem_of_cons in Hin as [<-|Hin].
  - destruct l as [|y l]; [by exists a, b|]. exists a, (b +:+ sep +:+ join sep (y :: l)). cbn [join]. by rewrite !append_assoc.
  - destruct (IH Hin) as (c & d & Hj). destruct l as [|y l]; [by apply not_elem_of_nil in Hin|]. exists (x +:+ sep +:+ c), d.
    change (join sep (x :: y :: l)) with (x +:+ sep +:+ join sep (y :: l)). by rewrite Hj, !append_assoc.
Qed.

(** ** The hints *)

Section hints.
Context {Node Function Local : Type} `{SyntaxTree Node} `{SyntaxParents Node} `{EqDecision Node} `{EqDecision Function}.
Context (sema : Semantics Node Function) (locals : Locals Node Local).
Context (iteration : list Candidate -> list Candidate) (iteration_perm : forall l, iteration l ≡ₚ l).
Context (root : Node) (range_limit : option (N * N)).

Definition within (range : N * N) : Prop :=
  match range_limit with
  | Some limit => contains_range limit range = true
  | None => True
  end.

(** The label is part of the hint at the place. *)
Definition shown_label (estimates : list Estimate) (range : N * N) (label : string) : Prop :=
  exists estimate labels, estimate ∈ estimates /\ estimate_range estimate = range /\
    estimate_label estimate = join " · " labels /\ label ∈ labels.

Lemma file_candidates_spec :
  candidates_ok (file_candidates sema locals root) /\
  forall range entry, labelled (file_candidates sema locals root) range entry <->
    exists entry', (range, entry') ∈ file_labels sema locals root /\ entry'.1 = entry.1.
Proof using Type.
  destruct (fold_candidates (file_labels sema locals root) []) as [Hok Hl]; [split; constructor|]. split; [done|].
  intros range entry. unfold file_candidates. rewrite Hl. split.
  - intros [(ls & Hin & _)|([r e] & He & <- & Hn)]; [by apply not_elem_of_nil in Hin|]. exists e. by split.
  - intros (e & He & Hn). right. by exists (range, e).
Qed.

Lemma hints_candidates estimate :
  estimate ∈ hints sema locals iteration root range_limit <->
  exists candidate, candidate ∈ file_candidates sema locals root /\ within candidate.1 /\ estimate = estimate_of candidate.
Proof using iteration_perm.
  unfold hints, within. rewrite list_elem_of_fmap. setoid_rewrite elem_of_retain. setoid_rewrite iteration_perm.
  split; intros (c & Hc); exists c; destruct range_limit; naive_solver.
Qed.

Lemma shown_labels range entry :
  within range -> (range, entry) ∈ file_labels sema locals root -> shown_label (hints sema locals iteration root range_limit) range entry.1.
Proof using iteration_perm.
  intros Hw Hin. destruct (proj2 (proj2 file_candidates_spec range entry)) as (labels & Hc & Hl); [by exists entry|].
  exists (estimate_of (range, labels)), labels.*1. split; [apply hints_candidates; by exists (range, labels)|done].
Qed.

Lemma hints_places : NoDup (estimate_range <$> hints sema locals iteration root range_limit).
Proof using iteration_perm.
  unfold hints. rewrite <- list_fmap_compose. destruct file_candidates_spec as [[Hp _] _].
  rewrite (list_fmap_ext _ fst) by (by intros i []). apply NoDup_retain.
  eapply NoDup_Permutation_proper; [apply fmap_Permutation, iteration_perm|done].
Qed.

Lemma hint_labels estimate :
  estimate ∈ hints sema locals iteration root range_limit ->
  exists labels, estimate_label estimate = join " · " labels /\ labels <> [] /\ NoDup labels /\
    Forall (fun label => exists entry, (estimate_range estimate, entry) ∈ file_labels sema locals root /\ entry.1 = label) labels.
Proof using iteration_perm.
  intros ([range labels] & Hc & _ & ->)%hints_candidates. destruct file_candidates_spec as [[_ Hl] Hs].
  rewrite Forall_forall in Hl. destruct (Hl _ Hc) as [Hne Hnd]. exists labels.*1. split; [done|]. split; [by destruct labels|].
  split; [done|]. apply Forall_forall. intros label Hin. apply (proj1 (Hs range (label, label))). by exists labels.
Qed.
End hints.

(** C24: The estimates of a file are one hint per place, whatever the order of the hash map:
    every use of a local that is declared by a plain name, if it can be classified, has its
    label in the hint at its place, and among the uses of a value that is not [Copy] one with
    the greatest end is labelled as the last; a hint has no label but those of the uses at
    its place, none twice.  Every hint carries a question mark, so that where the compiler
    reported an event it is replaced. *)
Theorem estimates_label_every_use {Node Function Local} `{SyntaxTree Node} `{SyntaxParents Node} `{EqDecision Node} `{EqDecision Function}
    (sema : Semantics Node Function) (locals : Locals Node Local) iteration root range_limit :
  (forall l, iteration l ≡ₚ l) ->
  let estimates := hints sema locals iteration root range_limit in
  NoDup (estimate_range <$> estimates) /\
  (forall local references, declared locals root local references ->
     (forall reference entry, reference ∈ references -> within range_limit (reference_range reference) ->
        classify sema reference (local_is_copy locals local) = Some entry -> shown_label estimates (reference_range reference) entry.1) /\
     (local_is_copy locals local = false -> references <> [] ->
        exists last, last ∈ references /\
          Forall (fun reference => ((reference_range reference).2 <= (reference_range last).2)%N) references /\
          (within range_limit (reference_range last) -> shown_label estimates (reference_range last) "last?"))) /\
  Forall (fun estimate => exists labels, estimate_label estimate = join " · " labels /\ labels <> [] /\ NoDup labels /\
    Forall (fun label => exists local references entry, declared locals root local references /\
      use_label sema locals local references (estimate_range estimate) entry /\ entry.1 = label) labels) estimates /\
  (forall estimate Rest (hint : InlayHint Rest) exact, estimate ∈ estimates ->
     hint_label hint = LabelString (estimate_label estimate) -> hint_position hint ∈ exact -> is_replaced exact hint = true).
Proof.
  intros Hit estimates. split; [by apply hints_places|]. split; [|split].
  - intros local references Hd. split.
    + intros reference entry Hin Hw Hc. apply shown_labels; [done..|]. apply file_labels_spec. exists local, references.
      split; [done|]. left. eauto.
    + intros Hcopy Hne. destruct (max_by (on (fun reference => (reference_range reference).2) N.leb) references) as [last|] eqn:Hm;
        [|by destruct references]. exists last. split; [by eapply max_by_elem|]. split; [by apply (max_by_greatest (fun reference => (reference_range reference).2))|].
      intros Hw. change "last?" with (LAST_USE.1). apply shown_labels; [done..|]. apply file_labels_spec. exists local, references.
      split; [done|]. right. eauto.
  - apply Forall_forall. intros estimate (labels & Hl & Hne & Hnd & Hall)%hint_labels; [|done]. exists labels. do 3 (split; [done|]).
    eapply Forall_impl; [exact Hall|]. intros label (entry & (local & references & Hd & Hu)%file_labels_spec & He). by exists local, references, entry.
  - intros estimate Rest hint exact (labels & Hl & Hne & _ & Hall)%hint_labels Hlabel Hpos; [|done].
    unfold is_replaced. rewrite bool_decide_true by done. rewrite Hlabel. cbn. rewrite Hl. destruct labels as [|label labels]; [done|].
    apply Forall_cons in Hall as [(entry & Hin%labels_question & Hlab) _]. subst label. by apply (contains_join _ _ entry.1); [left|].
Qed.

(** ** Trees as tables

    Nodes are numbered from the root, each with its kind, range and parent. *)
Definition table_node (nodes : list (SyntaxKind * (N * N) * nat)) (n : nat) : SyntaxKind * (N * N) * nat :=
  default (OTHER_KIND, (0, 0)%N, 0) (nodes !! n).

Fixpoint table_ancestors (nodes : list (SyntaxKind * (N * N) * nat)) (fuel n : nat) : list nat :=
  match fuel with
  | O => []
  | S fuel => n :: if bool_decide (n = 0) then [] else table_ancestors nodes fuel (table_node nodes n).2
  end.

Definition table_tree (nodes : list (SyntaxKind * (N * N) * nat)) : SyntaxTree nat := {|
  node_kind n := (table_node nodes n).1.1;
  node_range n := (table_node nodes n).1.2;
  node_text _ := "";
  first_token_text _ := "";
  node_children n := retain (fun c => bool_decide ((table_node nodes c).2 = n) && negb (bool_decide (c = 0))) (seq 0 (length nodes));
  child_tokens _ := [];
  descendants n := retain (fun d => bool_decide (n ∈ table_ancestors nodes (length nodes) d)) (seq 0 (length nodes));
  tokens_at _ _ := [];
  node_height n := length nodes - length (table_ancestors nodes (length nodes) n)
|}.

Definition table_parents (nodes : list (SyntaxKind * (N * N) * nat)) : SyntaxParents nat := {|
  ancestors := table_ancestors nodes (length nodes)
|}.

(** ** A sample file

    [let v = a; v.len(); let w = v;] *)
Definition sample_nodes : list (SyntaxKind * (N * N) * nat) :=
  [(OTHER_KIND, (0, 31)%N, 0);
   (LET_STMT, (0, 10)%N, 0); (IDENT_PAT, (4, 5)%N, 1); (NAME, (4, 5)%N, 2);
   (METHOD_CALL_EXPR, (11, 18)%N, 0); (PATH_EXPR, (11, 12)%N, 4); (PATH, (11, 12)%N, 5); (PATH_SEGMENT, (11, 12)%N, 6);
   (NAME_REF, (11, 12)%N, 7);
   (LET_STMT, (20, 30)%N, 0); (PATH_EXPR, (28, 29)%N, 9); (PATH, (28, 29)%N, 10); (PATH_SEGMENT, (28, 29)%N, 11);
   (NAME_REF, (28, 29)%N, 12)].

#[local] Instance sample_tree : SyntaxTree nat := table_tree sample_nodes.
#[local] Instance sample_parents : SyntaxParents nat := table_parents sample_nodes.

Definition sample_references : list (FileReference nat) :=
  [mk_reference (11, 12)%N (NameRefNode 8) false; mk_reference (28, 29)%N (NameRefNode 13) false].

Definition sample_locals : Locals nat unit :=
  mk_locals nat unit (fun n => if bool_decide (n = 2) then Some tt else None) (fun _ => false) (fun _ => Some sample_references).

Definition reader_semantics : Semantics nat unit := {|
  resolve_method_call _ := Some tt;
  resolve_function _ := None;
  display_type_of _ _ := None;
  is_copy _ := false;
  function_name _ := "len";
  function_signature _ := "";
  function_self_access _ := Some Shared;
  function_docs _ := None;
  function_is_async _ := false;
  function_is_local _ := true;
  function_params _ := [];
  function_ret_type _ := "usize";
  function_body _ := None
|}.

Example sample_estimates :
  (fun e => (estimate_range e, estimate_label e)) <$> hints reader_semantics sample_locals id 0 None
  = [((11, 12)%N, "&?"); ((28, 29)%N, "move? · last?")].
Proof. vm_compute. reflexivity. Qed.

Lemma estimates_label_every_use_witness :
  shown_label (hints reader_semantics sample_locals id 0 None) (28, 29)%N "move?".
Proof.
  destruct (estimates_label_every_use reader_semantics sample_locals id 0 None) as (_ & Huses & _); [done|].
  destruct (Huses tt sample_references) as [Hlabel _].
  - exists 2. split; [by vm_compute; left|]. split; [reflexivity|]. split; [by eexists|done].
  - apply (Hlabel (mk_reference (28, 29)%N (NameRefNode 13) false) ("move?", "A non-Copy value is moved into this binding."));
      [by right; left|done|vm_compute; reflexivity].
Defined.
