(* ===== verification/AnalyzerAssist.v ===== *)
(** * rust-analyzer: the assist that wraps a binding

    [ide-assists/src/handlers/use_ownership_wrapper.rs] offers, before any check, to wrap a
    local in [Rc], [RefCell] or [Rc<RefCell<_>>]: it reads the uses of the binding off the
    syntax and plans the edits.  What the assist asks of the analyzer is the record
    [AssistContext]. *)

From Stdlib Require Import Ascii String.
From S2P Require Import Prelude RustStr RustColl RustPath RepairPlan AutofixDriver LineIndex AnalyzerSyntax AnalyzerInsight AnalyzerConflict AnalyzerEstimates.
From stdpp Require Import options.

Module Assist.
Inductive WrapperSource : Type := PlainSource | BoxSource | RcSource.
Inductive WrapperStrategy : Type := UseRc | UseRefCell | UseRcRefCell.
#[global] Instance WrapperSource_eq_dec : EqDecision WrapperSource.
Proof. solve_decision. Defined.
#[global] Instance WrapperStrategy_eq_dec : EqDecision WrapperStrategy.
Proof. solve_decision. Defined.

Inductive LocalUse : Type :=
| Method (range : N * N) (access : Access)
| PlaceUse (range : N * N) (mutable : bool)
| MoveUse (range : N * N).

Record PlannedEdit : Type := mk_planned {
  planned_range : N * N;
  planned_replacement : string
}.

(** [cursor_nodes] are the nodes around the cursor, innermost first
    ([find_node_at_offset]); [name_ref_local] the local a name resolves to, also in the
    shorthand of a field; [local_pattern] the pattern that declares a local, in this file;
    [usage_files] the number of files with references; [constructor_of] the name of the
    function a path resolves to with the type its impl is for. *)
Record AssistContext (Node Local Adt : Type) : Type := mk_context {
  suggestions_enabled : bool;
  cursor_nodes : list Node;
  selection_trimmed : N * N;
  name_ref_local : Node -> option Local;
  local_pattern : Local -> option Node;
  local_adt : Local -> option Adt;
  adt_name : Adt -> string;
  adt_crate : Adt -> option string;
  usage_files : Local -> N;
  constructor_of : Node -> option (string * option (option Adt))
}.
#[global] Arguments suggestions_enabled {_ _ _}.
#[global] Arguments cursor_nodes {_ _ _}.
#[global] Arguments selection_trimmed {_ _ _}.
#[global] Arguments name_ref_local {_ _ _}.
#[global] Arguments local_pattern {_ _ _}.
#[global] Arguments local_adt {_ _ _}.
#[global] Arguments adt_name {_ _ _}.
#[global] Arguments adt_crate {_ _ _}.
#[global] Arguments usage_files {_ _ _}.
#[global] Arguments constructor_of {_ _ _}.

Definition empty_at (offset : N) : N * N := (offset, offset).

(** ** Views *)

Section views.
Context {Node : Type} `{SyntaxTree Node}.

Definition type_of (node : Node) : option Node := support_child type_can_cast node.

(** [PrefixExpr::op_token]: the first child of the node, if it is a token *)
Definition prefix_token (node : Node) : option SyntaxKind :=
  match child_tokens node with
  | (kind, (start, _)) :: _ => if (start =? (node_range node).1)%N then Some kind else None
  | [] => None
  end.

Definition generic_arg_can_cast (kind : SyntaxKind) : bool :=
  match kind with
  | ASSOC_TYPE_ARG | CONST_ARG | LIFETIME_ARG | TYPE_ARG => true
  | _ => false
  end.

(** [Path::segments().last()], with whether the segment of the path itself was reached: the
    iterator starts with the innermost qualifier and stops at a path without a segment. *)
Fixpoint last_segment_loop (fuel : nat) (path : Node) : option Node * bool :=
  match fuel with
  | O => (None, false)
  | S fuel =>
      match path_of path with
      | None => (segment_of path, is_some (segment_of path))
      | Some qualifier =>
          let '(last, reached) := last_segment_loop fuel qualifier in
          if reached : bool then
            match segment_of path with
            | Some segment => (Some segment, true)
            | None => (last, false)
            end
          else (last, false)
      end
  end.

Definition last_segment (path : Node) : option Node := (last_segment_loop (S (node_height path)) path).1.
End views.

(** ** Uses *)

Section assist.
Context {Node Function Local Adt : Type} `{SyntaxTree Node} `{SyntaxParents Node} `{EqDecision Node} `{EqDecision Function} `{EqDecision Adt}.
Context (sema : Semantics Node Function) (locals : Locals Node Local) (ctx : AssistContext Node Local Adt).

Definition classify_macro_use_conservatively (reference : FileReference Node) : option LocalUse :=
  match reference_name reference with
  | NameRefNode _ =>
      Some (if reference_write reference then PlaceUse (reference_range reference) true
            else Method (reference_range reference) Shared)
  | OtherReferenceNode => None
  end.

Definition classify_use (reference : FileReference Node) : option LocalUse :=
  match reference_name reference with
  | OtherReferenceNode => None
  | NameRefNode name_ref =>
      if negb (bool_decide (node_range name_ref = reference_range reference)) then None
      else
        '(path, parent) ← single_use name_ref;
        let place := Some (PlaceUse (reference_range reference) (reference_write reference)) in
        if has_kind METHOD_CALL_EXPR parent && is_operand parent path then
          function ← resolve_method_call sema parent;
          access ← function_self_access sema function;
          Some (Method (reference_range reference) access)
        else if has_kind FIELD_EXPR parent && is_operand parent path then place
        else if has_kind INDEX_EXPR parent && is_operand parent path then place
        else if has_kind PREFIX_EXPR parent && bool_decide (prefix_token parent = Some STAR) && is_operand parent path then place
        else if has_kind LET_STMT parent && is_operand parent path && negb (is_some (type_of parent))
                && match pat_of parent with Some pat => has_kind IDENT_PAT pat | None => false end
        then Some (MoveUse (reference_range reference))
        else None
  end.

Definition local_use (reference : FileReference Node) : option LocalUse :=
  or_else (classify_use reference) (fun _ => classify_macro_use_conservatively reference).

Definition use_mutates (usage : LocalUse) : bool :=
  match usage with
  | Method _ access => match access with Exclusive => true | _ => false end
  | PlaceUse _ mutable => mutable
  | MoveUse _ => false
  end.

Definition use_moves (usage : LocalUse) : bool :=
  match usage with
  | MoveUse _ => true
  | _ => false
  end.

Definition strategy_of (source : WrapperSource) (has_mutation has_move : bool) : option WrapperStrategy :=
  match source, has_mutation, has_move with
  | BoxSource, false, true => Some UseRc
  | BoxSource, true, _ | RcSource, true, _ => Some UseRcRefCell
  | PlainSource, true, false => Some UseRefCell
  | _, _, _ => None
  end.

(** ** Edits *)

(** The callee of an initialiser that is exactly the constructor [new] of the type. *)
Definition constructor_callee (source_adt : option Adt) (initializer : Node) : option Node :=
  if negb (has_kind CALL_EXPR initializer) then None
  else
    _ ← support_child (kind_is ARG_LIST) initializer;
    if negb (len (args_of initializer) =? 1)%N then None
    else
      callee ← expr_of initializer;
      if negb (has_kind PATH_EXPR callee) then None
      else
        path ← path_of callee;
        '(name, implementing) ← constructor_of ctx path;
        if negb (name =s "new") then None
        else
          adt ← implementing;
          if bool_decide (adt = source_adt) then Some callee else None.

Definition plan_initializer (source : WrapperSource) (source_adt : option Adt) (strategy : WrapperStrategy) (initializer : Node) :
    option (list PlannedEdit) :=
  let '(start, end_) := node_range initializer in
  match source with
  | PlainSource =>
      match strategy with
      | UseRefCell => Some [mk_planned (empty_at start) "::std::cell::RefCell::new("; mk_planned (empty_at end_) ")"]
      | _ => None
      end
  | _ =>
      callee ← constructor_callee source_adt initializer;
      match strategy with
      | UseRc => Some [mk_planned (node_range callee) "::std::rc::Rc::new"]
      | UseRcRefCell =>
          Some [mk_planned (node_range callee) "::std::rc::Rc::new(::std::cell::RefCell::new"; mk_planned (empty_at end_) ")"]
      | UseRefCell => None
      end
  end.

(** The only argument of the last segment, when it is a type *)
Definition single_type_argument (ty : Node) : option Node :=
  if negb (has_kind PATH_TYPE ty) then None
  else
    path ← path_of ty;
    segment ← last_segment path;
    args ← support_child (kind_is GENERIC_ARG_LIST) segment;
    match retain (fun child => generic_arg_can_cast (node_kind child)) (node_children args) with
    | [arg] => if has_kind TYPE_ARG arg then type_of arg else None
    | _ => None
    end.

Definition type_edit (source : WrapperSource) (strategy : WrapperStrategy) (ty : Node) : option PlannedEdit :=
  replacement ←
    match source with
    | PlainSource => Some ("::std::cell::RefCell<" +:+ node_text ty +:+ ">")
    | _ =>
        inner ← single_type_argument ty;
        match strategy with
        | UseRc => Some ("::std::rc::Rc<" +:+ node_text inner +:+ ">")
        | UseRcRefCell => Some ("::std::rc::Rc<::std::cell::RefCell<" +:+ node_text inner +:+ ">>")
        | UseRefCell => None
        end
    end;
  Some (mk_planned (node_range ty) replacement).

Definition plan_use (strategy : WrapperStrategy) (usage : LocalUse) : option (list PlannedEdit) :=
  match usage with
  | MoveUse range =>
      match strategy with
      | UseRc | UseRcRefCell => Some [mk_planned (empty_at range.2) ".clone()"]
      | UseRefCell => None
      end
  | Method range access =>
      match strategy with
      | UseRc => Some []
      | _ =>
          match access with
          | Shared => Some [mk_planned (empty_at range.2) ".borrow()"]
          | Exclusive => Some [mk_planned (empty_at range.2) ".borrow_mut()"]
          | Owned => None
          end
      end
  | PlaceUse range mutable =>
      match strategy with
      | UseRc => Some []
      | _ => Some [mk_planned (empty_at range.2) (if mutable then ".borrow_mut()" else ".borrow()")]
      end
  end.

(** ** The assist *)

(** The pattern of the binding under the cursor, and what the assist is attached to *)
Definition target_pattern : option (Node * (N * N)) :=
  let at_pattern :=
    ident_pat ← find_first (has_kind IDENT_PAT) (cursor_nodes ctx);
    name ← name_of ident_pat;
    if is_some (pat_of ident_pat) || negb (contains_range (node_range name) (selection_trimmed ctx)) then None
    else Some (ident_pat, node_range name) in
  match at_pattern with
  | Some found => Some found
  | None =>
      name_ref ← find_first (has_kind NAME_REF) (cursor_nodes ctx);
      local ← name_ref_local ctx name_ref;
      ident_pat ← local_pattern ctx local;
      Some (ident_pat, node_range name_ref)
  end.

Definition source_of (adt : option Adt) : option WrapperSource :=
  match adt with
  | None => Some PlainSource
  | Some adt =>
      let name := adt_name ctx adt in
      let in_alloc := bool_decide (adt_crate ctx adt = Some "alloc") in
      if (name =s "Box") && in_alloc then Some BoxSource
      else if (name =s "Rc") && in_alloc then Some RcSource
      else if (name =s "RefCell") || (name =s "Cell") || (name =s "Mutex") || (name =s "RwLock") then None
      else Some PlainSource
  end.

(** A plain [let] of a function without [async] or closures, and its initialiser *)
Definition checked_let (ident_pat : Node) : option (Node * Node) :=
  let_stmt ← parent_of ident_pat;
  if negb (has_kind LET_STMT let_stmt) || is_some (support_child (kind_is LET_ELSE) let_stmt) then None
  else
    initializer ← expr_of let_stmt;
    function ← find_first (has_kind FN) (ancestors let_stmt);
    if is_some (support_token ASYNC_KW function) || existsb (has_kind CLOSURE_EXPR) (descendants function) then None
    else Some (let_stmt, initializer).

Definition binding_uses (local : Local) : option (list LocalUse) :=
  if negb (usage_files ctx local =? 1)%N then None
  else
    references ← references_of locals local;
    match references with
    | [] => None
    | _ => mapM local_use references
    end.

Definition plan_annotation (source : WrapperSource) (strategy : WrapperStrategy) (let_stmt : Node) : option (list PlannedEdit) :=
  match type_of let_stmt with
  | Some ty => edit ← type_edit source strategy ty; Some [edit]
  | None => Some []
  end.

Definition assist_label (strategy : WrapperStrategy) : string * string :=
  match strategy with
  | UseRc => ("use_rc_for_shared_ownership", "Use Rc for shared ownership (unvalidated)")
  | UseRefCell => ("use_ref_cell_for_interior_mutability", "Use RefCell for interior mutability (unvalidated)")
  | UseRcRefCell =>
      ("use_rc_ref_cell_for_shared_mutability", "Use Rc<RefCell<_>> for shared mutable ownership (unvalidated)")
  end.

Record Offer : Type := mk_offer {
  offer_id : string;
  offer_label : string;
  offer_target : N * N;
  offer_edits : list PlannedEdit
}.

Definition use_ownership_wrapper : option Offer :=
  if negb (suggestions_enabled ctx) then None
  else
    '(ident_pat, target) ← target_pattern;
    '(let_stmt, initializer) ← checked_let ident_pat;
    local ← local_of locals ident_pat;
    source ← source_of (local_adt ctx local);
    uses ← binding_uses local;
    strategy ← strategy_of source (existsb use_mutates uses) (existsb use_moves uses);
    base ← plan_initializer source (local_adt ctx local) strategy initializer;
    annotation ← plan_annotation source strategy let_stmt;
    rewrites ← mapM (plan_use strategy) uses;
    Some (mk_offer (assist_label strategy).1 (assist_label strategy).2 target (base ++ annotation ++ concat rewrites)).
End assist.
End Assist.
