(* ===== verification/AnalyzerAssistSpec.v ===== *)
(** * What the assist guarantees

    An offer rewrites the [let] and every reference of the binding, and what it writes is what
    the compiler's rewrite writes for the same wrapper. *)

From Stdlib Require Import Ascii String.
From S2P Require Import Prelude RustStr RustColl RustPath CompilerData RepairPlan WrapperRewrite AutofixDriver LineIndex AnalyzerSyntax AnalyzerSyntaxSpec AnalyzerInsight AnalyzerConflict AnalyzerEstimates AnalyzerEstimatesSpec AnalyzerAssist.
From stdpp Require Import options.
Import Assist.

(** ** The compiler's names *)

Definition compiler_source (source : Assist.WrapperSource) : WrapperSource.BorrowckWrapperSource :=
  match source with
  | PlainSource => WrapperSource.Plain
  | BoxSource => WrapperSource.Box
  | RcSource => WrapperSource.Rc
  end.

Definition compiler_strategy (strategy : Assist.WrapperStrategy) : WrapperStrategy.BorrowckWrapperStrategy :=
  match strategy with
  | UseRc => WrapperStrategy.Rc
  | UseRefCell => WrapperStrategy.RefCell
  | UseRcRefCell => WrapperStrategy.RcRefCell
  end.

Lemma strategy_is_primary source mutation move strategy suggestions :
  strategy_of source mutation move = Some strategy ->
  head (strategies_for (compiler_source source) mutation suggestions) = Some (compiler_strategy strategy).
Proof. by destruct source, mutation, move; intros [= <-]. Qed.

(** The edit of a use is the compiler's: an access after a place or receiver, a clone after a
    move. *)
Definition use_agrees (strategy : Assist.WrapperStrategy) (usage : LocalUse) (edits : list PlannedEdit) : Prop :=
  let wrapper := compiler_strategy strategy in
  match usage with
  | MoveUse range => has_shared_ownership wrapper = true /\ edits = [mk_planned (empty_at range.2) ".clone()"]
  | PlaceUse range mutable => edits = mk_planned (empty_at range.2) <$> option_list (interior_access wrapper mutable)
  | Method range access =>
      edits = mk_planned (empty_at range.2) <$> option_list (interior_access wrapper (use_mutates usage)) /\
      (access = Owned -> interior_access wrapper false = None)
  end.

Lemma plan_use_agrees strategy usage edits : plan_use strategy usage = Some edits -> use_agrees strategy usage edits.
Proof. by destruct usage as [range access|range mutable|range]; [destruct access|destruct mutable|]; destruct strategy; intros [= <-]. Qed.

(** The walk along qualifiers ends before its fuel does. *)
Lemma last_segment_fuel {Node} `{SyntaxTree Node} text (root : Node) `{!SyntaxTreeLaws text root} fuel (path : Node) :
  node_height path < fuel -> (last_segment_loop fuel path).1 = last_segment path.
Proof.
  unfold last_segment.
  enough (forall f g path, node_height path < f -> node_height path < g -> last_segment_loop f path = last_segment_loop g (path : Node)) as He
    by (intros ?; rewrite (He fuel (S (node_height path))); [done|lia..]).
  induction f as [|f IH]; intros g p Hf Hg; [lia|]. destruct g as [|g]; [lia|]. cbn.
  destruct (path_of p) as [qualifier|] eqn:Hq; [|done]. unfold path_of in Hq.
  apply (support_child_Some (Node:=Node)) in Hq as [Hc%child_height _]. rewrite (IH g qualifier); [done|lia..].
Qed.

Section offers.
Context {Node Function Local Adt : Type} `{SyntaxTree Node} `{SyntaxParents Node} `{EqDecision Node} `{EqDecision Function} `{EqDecision Adt}.
Context (sema : Semantics Node Function) (locals : Locals Node Local) (ctx : AssistContext Node Local Adt).

(** The initialiser is wrapped as the compiler wraps it: a plain one between the start of the
    constructor and a parenthesis, put right before and right after it; for a call of the
    constructor with one argument, whose function is the expression of the call, the function
    is replaced and a nested wrapper closed right after the call. *)
Definition initializer_agrees (source : Assist.WrapperSource) (strategy : Assist.WrapperStrategy) (initializer : Node)
    (edits : list PlannedEdit) : Prop :=
  let wrapper := compiler_strategy strategy in
  let '(start, end_) := node_range initializer in
  exists text, match source with
    | PlainSource =>
        plain_constructor wrapper = Ok text /\ edits = [mk_planned (start, start) text; mk_planned (end_, end_) ")"]
    | _ =>
        shared_constructor wrapper = Ok text /\
        exists callee, expr_of initializer = Some callee /\ has_kind PATH_EXPR callee = true /\
          len (args_of initializer) = 1%N /\
          edits = mk_planned (node_range callee) text :: if is_nested wrapper then [mk_planned (end_, end_) ")"] else []
    end.

Lemma constructor_callee_Some adt initializer callee :
  constructor_callee ctx adt initializer = Some callee ->
  expr_of initializer = Some callee /\ has_kind PATH_EXPR callee = true /\ len (args_of initializer) = 1%N.
Proof using Type.
  unfold constructor_callee. destruct (has_kind CALL_EXPR initializer); cbn [negb]; [|done].
  intros (args & _ & H1)%bind_Some. destruct (N.eqb_spec (len (args_of initializer)) 1); cbn [negb] in H1; [|done].
  apply bind_Some in H1 as (c & Hc & H1). destruct (has_kind PATH_EXPR c) eqn:Hk; cbn [negb] in H1; [|done].
  apply bind_Some in H1 as (path & _ & ([name implementing] & _ & H1)%bind_Some).
  destruct (name =s "new"); cbn [negb] in H1; [|done]. apply bind_Some in H1 as (a & _ & H1).
  case_bool_decide; [|done]. by injection H1 as <-.
Qed.

Lemma plan_initializer_agrees source adt strategy initializer edits :
  plan_initializer ctx source adt strategy initializer = Some edits -> initializer_agrees source strategy initializer edits.
Proof using Type.
  unfold plan_initializer, initializer_agrees. destruct (node_range initializer) as [start end_]. destruct source.
  - destruct strategy; intros [= <-]. by eexists.
  - intros (callee & (Hc & Hk & Ha)%constructor_callee_Some & Hp)%bind_Some.
    destruct strategy; try discriminate Hp; injection Hp as <-; eexists; (split; [reflexivity|]); by exists callee.
  - intros (callee & (Hc & Hk & Ha)%constructor_callee_Some & Hp)%bind_Some.
    destruct strategy; try discriminate Hp; injection Hp as <-; eexists; (split; [reflexivity|]); by exists callee.
Qed.

(** The annotation is that of the compiler, around the same type. *)
Definition annotation_agrees (source : Assist.WrapperSource) (strategy : Assist.WrapperStrategy) (let_stmt : Node)
    (edits : list PlannedEdit) : Prop :=
  let wrapper := compiler_strategy strategy in
  match type_of let_stmt with
  | None => edits = []
  | Some ty => exists text, edits = [mk_planned (node_range ty) text] /\
      match source with
      | PlainSource => plain_annotation wrapper (node_text ty) = Ok text
      | _ => exists inner, single_type_argument ty = Some inner /\ shared_annotation wrapper (node_text inner) = Ok text
      end
  end.

Lemma plan_annotation_agrees source mutation move strategy let_stmt edits :
  strategy_of source mutation move = Some strategy -> plan_annotation source strategy let_stmt = Some edits ->
  annotation_agrees source strategy let_stmt edits.
Proof using Type.
  intros Hs. unfold plan_annotation, annotation_agrees, type_edit. destruct (type_of let_stmt) as [ty|]; [|by intros [= <-]].
  intros (edit & (text & Ht & [= <-])%bind_Some & [= <-])%bind_Some. exists text. split; [done|]. destruct source.
  - injection Ht as <-. destruct mutation, move; try done. by injection Hs as <-.
  - apply bind_Some in Ht as (inner & Hi & Ht). exists inner. split; [done|]. destruct strategy; try discriminate Ht; by injection Ht as <-.
  - apply bind_Some in Ht as (inner & Hi & Ht). exists inner. split; [done|]. destruct strategy; try discriminate Ht; by injection Ht as <-.
Qed.

(** A use stands where its reference does. *)
Definition use_range (usage : LocalUse) : N * N :=
  match usage with
  | Method range _ | PlaceUse range _ | MoveUse range => range
  end.

Lemma local_use_range reference usage : local_use sema reference = Some usage -> use_range usage = reference_range reference.
Proof using Type.
  unfold local_use, or_else. destruct (classify_use sema reference) as [u|] eqn:Hc.
  - intros [= <-]. revert Hc. unfold classify_use. destruct (reference_name reference) as [name_ref|]; [|done].
    destruct (negb _); [done|]. intros ([path parent] & _ & Hu)%bind_Some.
    destruct (_ && _).
    { apply bind_Some in Hu as (f & _ & (a & _ & [= <-])%bind_Some). done. }
    repeat (destruct (_ && _); [by injection Hu as <-|]). done.
  - unfold classify_macro_use_conservatively. destruct (reference_name reference); [|done].
    destruct (reference_write reference); by intros [= <-].
Qed.

(** What an offer consists of *)
Definition wraps (offer : Offer) : Prop :=
  exists ident_pat let_stmt initializer local source references uses strategy base annotation rewrites,
    checked_let ident_pat = Some (let_stmt, initializer) /\ local_of locals ident_pat = Some local /\
    source_of ctx (local_adt ctx local) = Some source /\ references_of locals local = Some references /\ references <> [] /\
    Forall2 (fun reference usage => local_use sema reference = Some usage /\ use_range usage = reference_range reference)
      references uses /\
    (forall suggestions, head (strategies_for (compiler_source source) (existsb use_mutates uses) suggestions)
       = Some (compiler_strategy strategy)) /\
    initializer_agrees source strategy initializer base /\ annotation_agrees source strategy let_stmt annotation /\
    Forall2 (use_agrees strategy) uses rewrites /\
    offer_edits offer = base ++ annotation ++ concat rewrites.

Lemma offer_wraps offer : use_ownership_wrapper sema locals ctx = Some offer -> wraps offer.
Proof using Type.
  unfold use_ownership_wrapper. destruct (suggestions_enabled ctx); cbn [negb]; [|done].
  intros ([ident_pat target] & _ & ([let_stmt initializer] & Hlet & (local & Hlocal & (source & Hsource & H1)%bind_Some)%bind_Some)%bind_Some)%bind_Some.
  apply bind_Some in H1 as (uses & Huses & (strategy & Hstrategy & (base & Hbase & H2)%bind_Some)%bind_Some).
  apply bind_Some in H2 as (annotation & Hann & (rewrites & Hr & [= <-])%bind_Some).
  unfold binding_uses in Huses. destruct (usage_files ctx local =? 1)%N; cbn [negb] in Huses; [|done].
  apply bind_Some in Huses as (references & Href & Huses). destruct references as [|r references]; [done|].
  exists ident_pat, let_stmt, initializer, local, source, (r :: references), uses, strategy, base, annotation, rewrites.
  do 5 (split; [done|]). split.
  { eapply Forall2_impl; [by apply mapM_Some_1|]. intros reference usage Hu. split; [exact Hu|by apply local_use_range]. }
  split; [intros suggestions; by eapply strategy_is_primary|].
  split; [by eapply plan_initializer_agrees|]. split; [by eapply plan_annotation_agrees|]. split; [|done].
  apply mapM_Some_1 in Hr. eapply Forall2_impl; [exact Hr|]. intros usage edits. apply plan_use_agrees.
Qed.
End offers.

(** C23: The assist and the compiler agree.  When the assist offers to wrap a binding, it takes
    the strategy the compiler tries first for the same source and mutation; it puts the
    compiler's text right before a plain initialiser and a parenthesis right after it, or
    replaces the function of a constructor call by the compiler's and closes a nested wrapper
    right after the call; an annotation is replaced by the compiler's around the same type;
    and every reference of the binding gets the compiler's access or clone right after it. *)
Theorem assist_agrees_with_compiler {Node Function Local Adt} `{SyntaxTree Node} `{SyntaxParents Node} `{EqDecision Node}
    `{EqDecision Function} `{EqDecision Adt} (sema : Semantics Node Function) (locals : Locals Node Local)
    (ctx : AssistContext Node Local Adt) offer :
  use_ownership_wrapper sema locals ctx = Some offer -> wraps sema locals ctx offer.
Proof. apply offer_wraps. Qed.

(** ** A sample function

    [fn f() { let v = a; v.push(); }], and the same with a call [take(v)] *)
Definition function_nodes : list (SyntaxKind * (N * N) * nat) :=
  [(OTHER_KIND, (0, 40)%N, 0); (FN, (0, 40)%N, 0);
   (LET_STMT, (9, 19)%N, 1); (IDENT_PAT, (13, 14)%N, 2); (NAME, (13, 14)%N, 3); (PATH_EXPR, (17, 18)%N, 2);
   (METHOD_CALL_EXPR, (20, 28)%N, 1); (PATH_EXPR, (20, 21)%N, 6); (PATH, (20, 21)%N, 7); (PATH_SEGMENT, (20, 21)%N, 8);
   (NAME_REF, (20, 21)%N, 9);
   (CALL_EXPR, (30, 37)%N, 1); (PATH_EXPR, (30, 34)%N, 11); (ARG_LIST, (34, 37)%N, 11); (PATH_EXPR, (35, 36)%N, 13);
   (PATH, (35, 36)%N, 14); (PATH_SEGMENT, (35, 36)%N, 15); (NAME_REF, (35, 36)%N, 16)].

#[local] Instance function_tree : SyntaxTree nat := table_tree function_nodes.
#[local] Instance function_parents : SyntaxParents nat := table_parents function_nodes.

Definition push_reference : FileReference nat := mk_reference (20, 21)%N (NameRefNode 10) false.
Definition take_reference : FileReference nat := mk_reference (35, 36)%N (NameRefNode 17) false.

Definition function_locals (references : list (FileReference nat)) : Locals nat unit :=
  mk_locals nat unit (fun n => if bool_decide (n = 3) then Some tt else None) (fun _ => false) (fun _ => Some references).

Definition push_semantics : Semantics nat unit := {|
  resolve_method_call _ := Some tt;
  resolve_function _ := None;
  display_type_of _ _ := None;
  is_copy _ := false;
  function_name _ := "push";
  function_signature _ := "";
  function_self_access _ := Some Exclusive;
  function_docs _ := None;
  function_is_async _ := false;
  function_is_local _ := true;
  function_params _ := [];
  function_ret_type _ := "()";
  function_body _ := None
|}.

Definition cursor_context : AssistContext nat unit unit :=
  mk_context nat unit unit true [4; 3; 2; 1; 0] (13, 13)%N (fun _ => None) (fun _ => None) (fun _ => None) (fun _ => "") (fun _ => None)
    (fun _ => 1%N) (fun _ => None).

Definition offered (references : list (FileReference nat)) : option (list (N * string)) :=
  (fun offer => (fun edit => ((planned_range edit).1, planned_replacement edit)) <$> offer_edits offer)
  <$> use_ownership_wrapper push_semantics (function_locals references) cursor_context.

Lemma assist_agrees_with_compiler_witness :
  exists offer, use_ownership_wrapper push_semantics (function_locals [push_reference]) cursor_context = Some offer /\
    offer_label offer = "Use RefCell for interior mutability (unvalidated)" /\
    wraps push_semantics (function_locals [push_reference]) cursor_context offer.
Proof.
  eexists. split; [vm_compute; reflexivity|]. split; [reflexivity|].
  apply (assist_agrees_with_compiler push_semantics (function_locals [push_reference]) cursor_context). vm_compute. reflexivity.
Defined.

Example offered_push :
  offered [push_reference] = Some [(17, "::std::cell::RefCell::new("); (18, ")"); (21, ".borrow_mut()")]%N.
Proof. vm_compute. reflexivity. Qed.

(** The reading of a name inside a macro is used for every reference that is not understood:
    the argument of a call, which takes the value, is planned as a shared access. *)
Lemma consumed_argument_borrowed :
  classify_use push_semantics take_reference = None /\
  offered [push_reference; take_reference]
  = Some [(17, "::std::cell::RefCell::new("); (18, ")"); (21, ".borrow_mut()"); (36, ".borrow()")]%N.
Proof. split; vm_compute; reflexivity. Qed.
